(* ===== verification/_CoqProject ===== *)
-Q . S2P
Prelude.v
RustStr.v
Env.v
Toy.v
Policy.v
SecretFs.v
SecretStore.v
GateStore.v
GateView.v
StoreHistory.v
PrivateIdentity.v
PrivacyGate.v
PrivateOperation.v
StoreWitness.v
TaskModel.v
TaskIssue.v
TaskAdmit.v
TaskProofs.v
TaskTheorems.v
TaskPlan.v
TaskReconcile.v
TaskReconcileProofs.v
Tombstones.v
TaskConfirm.v
TombstoneProofs.v
TaskConfirmTheorems.v
Cancellation.v
RemoteLease.v
RemoteRoute.v
ServiceJobs.v
ControlJobs.v
ControlPlane.v
ControlSystem.v
ControlProofs.v
ControlTheorems.v
RemoteAttach.v
ServiceResources.v
ServiceResourcesProofs.v
BrowserAuthority.v
ServiceTabs.v
ServiceStore.v
ServiceStoreSystem.v
ServiceStoreProofs.v
ServiceStoreTheorems.v
RetainedBrowser.v
RetainedProofs.v
ProcessProof.v
ProfileSelection.v
ProfileLeases.v
ProfileTheorems.v
ServiceHealth.v
ServiceLaunch.v
ServiceReconcile.v
ReconcileTheorems.v
HealthTheorems.v
RuntimeHandoff.v
ProcessTheorems.v
RetainedRotation.v
PrivateCdp.v
PrivateBroker.v
PrivateAttachment.v
PrivateExecution.v
PrivateRecovery.v
PrivateJourney.v
PrivateHandoff.v
PrivateBound.v
PrivateDelivery.v
PrivateCoordinator.v
PrivateFrames.v
PrivateClosed.v
ToyCodec.v
ServiceStoreWitness.v
PrivateToy.v
RetainedWitness.v
ProfileWitness.v
TaskWitness.v
TaskConfirmWitness.v
ControlRun.v
ResourceWitness.v
ReconcileWitness.v
