(* ===== verification/Prelude.v ===== *)
(** * A verification library for agent-browser

    [agent-browser] is a command line tool and a daemon, in Rust under [cli/src],
    with which an agent drives a browser. A command reaches the daemon, passes a
    policy and, when the session works under a task authority, an admission; the
    control plane queues it and one worker runs it; while a user types a secret
    the private components close the browser to every observer; the service state
    records browsers, jobs, routes and leases. This library models the part of
    the program that decides: what is admitted, what is recorded, who may look,
    what is run and what is terminated. Paths below are relative to
    [cli/src/native].

    A name in brackets below is a Module; it is the Module of the file of that name,
    save for those a file holds next to its own: [TaskOutcome] in [TaskPlan],
    [TaskReconcileWitness] in [TaskWitness], [TaskConfirmProofs] in [TombstoneProofs],
    [ControlInvariant] in [ControlProofs], [ControlCancel] in [ControlTheorems],
    [PrivateWitness] in [StoreWitness], [ControlWitness] in [ControlRun],
    [ServiceJobsProofs] in [ServiceJobs], [GateLocks] in [StoreHistory], [PrivateOnce]
    in [PrivateClosed], [RemoteWitness] in [ResourceWitness], [ServiceStoreInvariant] in
    [ServiceStoreProofs], [HandoffTheorems] in [ProcessTheorems], [ProcessWitness] in
    [RetainedWitness], [LaunchWitness] in [ReconcileWitness] and [PrivatePlanWitness] in
    [PrivateToy].

    ** Shared layer

    - [Prelude]: the [result] monad of fallible code, the store-passing monad
      [SM W] of code with effects on a world [W], the framing predicate
      [preserves] with its hint database, generic lemmas on lists.
    - [RustStr]: the string, character and byte operations of the Rust standard
      library the source calls. A [string] is the bytes of a [&str].
    - [Env]: the code the source calls but does not contain, as type classes with
      the laws the theorems use: [Oracle] (the choices of the operating system:
      faults at any system call, random bytes, credentials), [Serde] (a codec that
      decodes what it encoded), the cryptographic primitives, [Url], [Chrono],
      the JSON tree.
    - [Toy], [ToyCodec]: concrete instances that meet the laws; the witness files
      evaluate the model in them.

    ** Action policy ([policy.rs])

    [Policy]: consequence ranks, confirmation categories, allow / deny / confirm.
    [check_spec] is the decision table of [ActionPolicy::check].

    ** The private store and its gate ([private_secret_store.rs],
       [privacy_gate.rs])

    [SecretFs] is the directory layer over a world of inodes; [SecretStore] the
    staging, admission and receipts of operations; [GateStore] the durable gate.
    [GateView] states the abstract automaton [gate_step] of the gate and proves
    that each operation, with faults at any system call, takes one of its steps or
    stutters. [StoreHistory] closes this over arbitrary histories of operations
    by any number of handles: [gate_refinement], [gate_fails_closed] (a gate that
    is closed stays closed until it is finished), [admit_once],
    [backup_code_once], [stage_load]. [GateLocks]: [private_lease_exclusive].
    [PrivacyGate] models permits, observers and command leases over the store
    ([observer_revoked]). A crash is a run whose oracle fails from some call on.

    ** Private operations ([private_identity.rs], [private_operation.rs])

    [PrivateIdentity]: [validate_private_identity_iff] against a declarative
    definition of matching identities. [PrivateOperation]: [parse_sound].

    ** Private journeys ([private_broker.rs], [private_attachment.rs],
       [private_execution.rs], [private_journey.rs], [private_recovery.rs],
       [private_controller.rs], [private_handoff.rs],
       [private_bound_execution.rs], [private_controller_socket.rs],
       [private_delivery.rs], [private_coordinator.rs], [cdp/client.rs])

    A reviewed plan of four operations is received over a socket, staged in a
    store, run in the page under one private interval, reconciled with the service
    state, and its result delivered. [PrivateCdp] defines the [Machine] the
    components share (the files of the stores, the service state of
    [ServiceTabs], the daemon, its client, the commands sent, the bytes written, a
    clock) and the transport; between any two steps the [Environment] lets other
    processes run any operations on the stores. [PrivateBroker],
    [PrivateAttachment], [PrivateExecution], [PrivateJourney], [PrivateRecovery],
    [PrivateHandoff], [PrivateBound], [PrivateDelivery] and [PrivateCoordinator]
    are a file per source file (the controller with the recovery, its socket with
    the bindings), in calling order. [PrivateFrames] frames every program of them:
    for the files it is a history of store operations, none of which finishes a
    gate. [PrivateClosed]: [private_plan_fails_closed], from the first script on
    the gate is closed whatever happens. [PrivateOnce]: [journey_in_order], what
    the page is told, and [private_operation_once]. [PrivateToy] and
    [PrivatePlanWitness] run a plan from its binding to the acknowledged delivery.
    ** Task authorities ([task_authority.rs])

    [TaskModel] holds the records, the canonical hashes, [validate_ordered_ledger]
    and the files, a map from paths to contents with faults chosen by an oracle.
    [TaskIssue] issues, reports, revokes and finalizes; [TaskAdmit] admits a
    command; [TaskReconcile] replaces an authority whose last step was stranded;
    [TaskConfirm] and [Tombstones] are the two-phase confirmations and the ledger
    of the ids they used. [TaskPlan], [TaskOutcome], [TaskProofs] and
    [TaskTheorems] prove what an issued plan contains ([issue_sound]), what admission
    establishes ([admit_sound],
    [admit_reserves]), that it is atomic ([admit_atomic]), that a command is
    admitted once ([command_never_replayed]) and nothing after a revocation
    ([revoked_refused]). [TaskReconcileProofs]: never two live authorities.
    [TombstoneProofs], [TaskConfirmProofs] and [TaskConfirmTheorems]: a decision
    is taken once, on what was requested, survives an interruption, and a cleanup
    keeps what it must ([confirm_once], [decide_sound], [decide_resolves],
    [cleanup_safe]), where no metadata call fails ([stat_reliable]): [decided_twice]
    shows what one failure leads to. [admit_sound] needs no such assumption.

    ** The control plane ([control_plane.rs], [cancellation.rs],
       [service_jobs.rs])

    [Cancellation] is the token as a transition system. [ServiceJobs] holds the
    job records of [service_model.rs] and the operations on them; [ControlJobs]
    the helpers that record each phase of a job. [ControlPlane] writes the worker,
    the clients and the timers as programs, trees of atomic effects in source
    order; [ControlSystem] gives the effects their meaning on the shared state and
    interleaves any number of programs. [ControlProofs] and [ControlInvariant]
    account for what a program owns while it runs, from which [ControlTheorems]
    concludes [queue_depth_exact], [replies_exactly_once], [no_command_replayed]
    and [registry_is_running_job], and [ControlCancel] [cancelled_never_runs].
    [ControlRun] is an executable scheduler for the witnesses.

    ** Remote views ([remote_view_lease.rs], [remote_view_proof.rs],
       [remote_view_finalization.rs], [remote_view_attachability.rs])

    [RemoteLease]: the lease as a state machine ([live_only_after_every_phase]).
    [RemoteRoute]: the finalization of a route-bound acquisition over the records
    of [service_model.rs] it touches ([finalize_consistent]). [RemoteAttach]:
    what may be attached to ([attached_ready_iff]).

    ** Processes and browsers ([service_resources.rs],
       [browser_session_authority.rs])

    [ServiceResources]: how processes are matched with the service state and
    classified, and the reviewed collection of the rest. [ServiceResourcesProofs]:
    [candidate_iff] (a declarative definition of a collectable process),
    [review_token_spec], [gc_signals_only_candidates]. [BrowserAuthority]: the
    verdicts on browsers ([authority_verdicts]).

    ** The store of the service state ([service_store.rs])

    [ServiceStore] writes loads, saves and the three calls of the locked repository as
    programs of atomic effects; [ServiceStoreSystem] gives the effects their meaning on
    two files, the mutexes of the processes and the file lock, interleaves any number of
    calls, kills processes and loses power, and states the abstract register.
    [ServiceStoreProofs] follows one call, [ServiceStoreInvariant] all of them;
    [ServiceStoreTheorems]: [store_linearizable], [store_never_blocked] (whatever failed,
    died or lost power, the calls that are left can go on and all end) and
    [store_implements_repository], the contract [ServiceJobs] and the control plane are
    modelled with. [ServiceStoreWitness] plays schedules.

    ** Retained browsers ([retained_browser_requirement.rs],
       [runtime_attach_proof.rs], [runtime_handoff_v2.rs], [dependent_batch.rs])

    [RetainedBrowser] is the verification of the browser a dashboard must keep; what
    it reads is the class [Observed], one answer a path or URL. [RetainedProofs]:
    [retained_status_iff] against declarative definitions of its three verdicts.
    [RetainedRotation] is the rotation of the requirement
    ([scripts/lib/local-dashboard-retained-browser-requirement.js]) with a budget of
    writes, and [rotation_crash_states] says what the verifier makes of every state an
    interruption leaves: a report of a pending rotation, and two exceptions. [ProcessProof] is the proof that a process is the browser it
    is said to be; the machine changes while it is looked at, so every [look] has a
    moment of its own. [ProcessTheorems]: what an accepted process was seen to be
    ([persisted_process_sound]) and that renewed evidence rests on it
    ([refresh_evidence_sound]). [RuntimeHandoff] and [HandoffTheorems]: the admission of
    handoffs ([handoff_exclusive]). [RetainedWitness] and [ProcessWitness] evaluate them.

    ** Profiles and leases ([service_lifecycle.rs], [actions.rs], [service_model.rs])

    [ProfileSelection] has the profiles, sessions and site policies with the fields
    used here, [select_service_profile_for_request], the discovery in the catalog and
    the launch metadata of a command. [ProfileLeases] has the readiness refresh, the
    telemetry of a lease, [upsert_service_profile_and_session],
    [service_profile_lease_gate] with what it tells the caller, the expiry of leases
    and the allocation view; [lease_gate] is the gate over the three snapshots the code
    loads. [ProfileTheorems]: the profile selected is one of the strongest reason
    ([selection_strongest]); when the gate passes, makes wait and rejects
    ([lease_gate_spec]) and that with the retries of [ControlJobs] no request waits
    longer than it asked ([lease_wait_bounded]); launches that pass the gate while no
    other launch of the profile awaits its record leave one exclusive holder of it
    ([gated_leases_exclusive]); what expiry
    does ([expire_spec]); a refresh keeps evidence and is idempotent
    ([readiness_refresh_spec]). [ProfileWitness] evaluates them, and shows what happens
    to a launch that is recorded late ([stale_gate_two_holders]) and to one that names
    no profile ([relaunch_takes_back]).

    ** Health, recovery and reconciliation ([service_health.rs])

    [ServiceHealth] fills in the service state of [RemoteRoute]: its browsers with
    process, endpoint and health, the sessions of [ProfileSelection], the tabs of
    [ServiceTabs], the jobs, events and snapshots. Its operations are written in the
    monad [HM] of a state and a clock of questions to the system ([HealthEnv]: time,
    identifiers, processes, endpoints, displays): what is recorded of an unhealthy
    browser, the retry budget, the retry an operator allows, the close of a browser.
    [ServiceLaunch] is the record of a launched browser: the proof of its build that a
    launch brings or a record of the same browser keeps, the display it is given, its
    profile and its session.
    [ServiceReconcile] probes the browsers of a snapshot, merges the records of one
    browser, follows tabs, repairs remote views, expires leases and merges the result
    into the state of the moment ([merge_reconciled_service_state]), which other
    processes have changed by any function [others]. [ReconcileTheorems]: what they
    wrote survives the merge ([merge_keeps_newer]), a reconciliation makes no session
    the exclusive holder of a profile ([reconcile_adds_no_holder]) and leaves displays,
    routes, pool entries and viewers consistent ([remote_view_repaired]).
    [HealthTheorems]: no more recoveries than the budget allows, in any order of calls
    ([recovery_budget]), with the delays of [backoff_spec]; an operator starts it over
    ([retry_reopens_recovery]); a close gives up what the session had of the browser and
    nothing else ([close_gives_up_custody]); a launch keeps no evidence of another
    browser and leaves browser, display, session and tabs in agreement
    ([launch_recorded]). [ReconcileWitness] and [LaunchWitness] evaluate them; the first
    shows what the merge loses ([closed_lease_revived], [control_plane_rolled_back],
    [merged_sessions_lost]) and where the budget and the close fall short
    ([attempts_forgotten], [live_entry_freed], [expiry_compared_as_text]).
    ** Fuel and bounds

    - A loop over a list is structural. [TaskModel], [SecretStore] and the others
      need no fuel.
    - [Tombstones.seal_segments], a [while] loop, has as fuel the number of active
      ids; [seal_segments_terminates] shows that more fuel changes nothing.
    - [ControlJobs.display_isolation_from] and
      [ProfileSelection.browser_build_from] recurse into a JSON value with its size
      as fuel; [display_isolation_equation] and [browser_build_equation] are the
      recursive equations of the source.
    - [PrivateCdp.await_blank] makes the 12 attempts of the source.
    - The programs of the control plane are inductive trees: the worker loop is
      one tree per iteration, restarted by the step relation.
    - Integers are [Z] or [nat] with the bounds of the source written where it
      checks, wraps or saturates: the queue depth, the counters and sizes of
      evidence, the generations of a gate, [u64] sequence numbers.

    ** Not modelled, and why

    - Reading [/proc], accepting connections, child processes, the DevTools and WebDriver
      protocols, HTTP servers, installers and printing: input and output around
      the components above. Their answers are parameters or oracle choices.
    - The [serde] derives are parameters: [Serde] states the round trip, and the
      theorems hold for any decoder with it.
    - Of the private components: what a script does in the page, the listeners with
      their socket files and locks, and the key files the coordinator reads (an
      answer of the environment). A deadline is an answer [Overdue] of the
      environment at the point where it waits.
    - The programs of the control plane take the answer of the profile lease gate from
      their environment; [ProfileLeases.lease_gate] is the function that gives it, and
      [lease_wait_bounded] is about the two together.
    - The other derived views of [service_model.rs] and the reports of
      [service_access.rs]: they are read only. The record of a launched browser in
      [service_health.rs] is not modelled beyond the profile and the session it
      upserts ([ProfileLeases]).
    - [actions.rs] and [commands.rs]: dispatch of browser actions to protocol
      calls.

    ** Plan

    Next, in this order: the domain filter of the network layer, the parser of commands. *)

(** ** This file

    The result and state monads every component is written in, the boolean
    equality notations, the framing predicate [preserves] with its proof-search
    database, and the generic lemmas about lists and strings that more than one
    component uses. *)

From stdpp Require Export base tactics option list gmap strings numbers relations fin_maps.
From Stdlib Require Export ZArith.
From Stdlib Require Import Ascii.

(** ** Fallible computations

    Rust's [Result<A, E>]; the components use it with [E := string] (the source
    returns either [&'static str] labels or formatted [String]s) and, for the
    route-bound lease, with a structured error. *)

Inductive result (E A : Type) : Type :=
| Ok (a : A)
| Err (e : E).
Arguments Ok {E A} _.
Arguments Err {E A} _.

Abbreviation res := (result string).

#[export] Instance result_ret E : MRet (result E) := fun A => @Ok E A.
#[export] Instance result_bind E : MBind (result E) := fun A B f m =>
  match m with Ok a => f a | Err e => Err e end.
#[export] Instance result_fmap E : FMap (result E) := fun A B f m =>
  match m with Ok a => Ok (f a) | Err e => Err e end.
#[export] Instance result_eq_dec E A `{EqDecision E, EqDecision A} : EqDecision (result E A).
Proof. solve_decision. Defined.

Definition is_ok {E A} (r : result E A) : bool :=
  match r with Ok _ => true | Err _ => false end.

(** [Option::ok_or]. *)
Definition ok_or {E A} (e : E) (o : option A) : result E A :=
  match o with Some a => Ok a | None => Err e end.

(** [Result::map_err(|_| e)]. *)
Definition map_err {E F A} (e : F) (r : result E A) : result F A :=
  match r with Ok a => Ok a | Err _ => Err e end.

(** [if c { return Err(e) }]. *)
Definition reject_if {E} (c : bool) (e : E) : result E unit :=
  if c then Err e else Ok tt.

(** [Option::transpose] on a fallible map: [o.map(f).transpose()]. *)
Definition option_traverse {E A B} (f : A -> result E B) (o : option A) : result E (option B) :=
  match o with
  | None => Ok None
  | Some a => b ← f a; Ok (Some b)
  end.

(** [iter().map(f).collect::<Result<Vec<_>, _>>()]. *)
Fixpoint list_traverse {E A B} (f : A -> result E B) (l : list A) : result E (list B) :=
  match l with
  | [] => Ok []
  | a :: l' => b ← f a; bs ← list_traverse f l'; Ok (b :: bs)
  end.

(** [for a in l { f(a)?; }]. *)
Fixpoint for_each {E A} (f : A -> result E unit) (l : list A) : result E unit :=
  match l with [] => Ok tt | a :: l' => f a ≫= fun _ => for_each f l' end.

(** ** Stateful computations

    [SM W A] threads a world [W]; an error does not roll the world back, as in
    the source, where an early [return Err(..)] leaves every effect performed
    so far in place. *)

Definition SM (W A : Type) : Type := W -> res A * W.

#[export] Instance sm_ret W : MRet (SM W) := fun A a w => (Ok a, w).
#[export] Instance sm_bind W : MBind (SM W) := fun A B f m w =>
  match m w with
  | (Ok a, w') => f a w'
  | (Err e, w') => (Err e, w')
  end.

Definition sm_lift {W A} (r : res A) : SM W A := fun w => (r, w).
Definition sm_err {W A} (e : string) : SM W A := fun w => (Err e, w).
Definition sm_get {W} : SM W W := fun w => (Ok w, w).
Definition sm_put {W} (w : W) : SM W unit := fun _ => (Ok tt, w).
Definition sm_modify {W} (f : W -> W) : SM W unit := fun w => (Ok tt, f w).
(** [match m { r => .. }]: observe the result without propagating it. *)
Definition sm_try {W A} (m : SM W A) : SM W (res A) := fun w =>
  let '(r, w') := m w in (Ok r, w').
Definition sm_map_err {W A} (e : string) (m : SM W A) : SM W A := fun w =>
  let '(r, w') := m w in (map_err e r, w').
Definition sm_reject_if {W} (c : bool) (e : string) : SM W unit :=
  sm_lift (reject_if c e).

Fixpoint sm_iter {W A} (f : A -> SM W unit) (l : list A) : SM W unit :=
  match l with
  | [] => mret tt
  | a :: l' => f a ≫= fun _ => sm_iter f l'
  end.

(** ** Notations of the development *)

Declare Scope rust_scope.
Delimit Scope rust_scope with rust.
Notation "a == b" := (bool_decide (a = b)) (at level 70, no associativity) : rust_scope.
Notation "a != b" := (negb (bool_decide (a = b))) (at level 70, no associativity) : rust_scope.
Open Scope rust_scope.

(** [format!] with string pieces. *)
Definition fmt (pieces : list string) : string := foldr String.append "" pieces.

(** Membership in a literal list: [matches!(x, a | b | ..)] on strings. *)
Definition one_of (x : string) (l : list string) : bool := existsb (fun y => x == y) l.

(** ** Inversion of monadic computations *)

Lemma result_bind_ok {E A B} (m : result E A) (f : A -> result E B) b :
  m ≫= f = Ok b <-> exists a, m = Ok a /\ f a = Ok b.
Proof. destruct m; cbn; naive_solver. Qed.

Lemma bind_ok_eq {E A B} (m : result E A) (f : A -> result E B) a : m = Ok a -> m ≫= f = f a.
Proof. by intros ->. Qed.

Lemma sm_bind_inv {W A B} (m : SM W A) (f : A -> SM W B) w r w' :
  (m ≫= f) w = (r, w') ->
  (exists a w1, m w = (Ok a, w1) /\ f a w1 = (r, w')) \/
  (exists e, m w = (Err e, w') /\ r = Err e).
Proof.
  unfold mbind, sm_bind. destruct (m w) as [[a|e] w1] eqn:Hm; intros H; [left|right]; eauto.
  simplify_eq; eauto.
Qed.

Lemma sm_bind_ok {W A B} (m : SM W A) (f : A -> SM W B) w b w' :
  (m ≫= f) w = (Ok b, w') ->
  exists a w1, m w = (Ok a, w1) /\ f a w1 = (Ok b, w').
Proof. intros [?|(e & ? & ?)]%sm_bind_inv; [done|discriminate]. Qed.

Lemma sm_bind_ext {W A B} (m : SM W A) (f g : A -> SM W B) w :
  (forall a w, f a w = g a w) -> (m ≫= f) w = (m ≫= g) w.
Proof. intros Hfg. unfold mbind, sm_bind. by destruct (m w) as [[a|e] w']. Qed.

Lemma sm_bind_run {W A B} (m : SM W A) (f : A -> SM W B) w a w' :
  m w = (Ok a, w') -> (m ≫= f) w = f a w'.
Proof. unfold mbind, sm_bind. by intros ->. Qed.

Lemma reject_if_ok {E} (c : bool) (e : E) u : reject_if c e = Ok u <-> c = false.
Proof. destruct c, u; cbn; split; congruence. Qed.

Lemma sm_reject_if_ok {W} (c : bool) e (w w' : W) u :
  sm_reject_if c e w = (Ok u, w') -> c = false /\ w' = w.
Proof. unfold sm_reject_if, sm_lift. destruct c; cbn; intros; simplify_eq; done. Qed.

Lemma ok_or_ok {E A} (e : E) (o : option A) a : ok_or e o = Ok a <-> o = Some a.
Proof. destruct o; cbn; split; intros; simplify_eq; done. Qed.

Lemma map_err_ok {E F A} (e : F) (r : result E A) a : map_err e r = Ok a <-> r = Ok a.
Proof. destruct r; cbn; split; intros; simplify_eq; done. Qed.

Lemma sm_lift_ok {W A} (r : res A) (w w' : W) a :
  sm_lift r w = (Ok a, w') <-> r = Ok a /\ w' = w.
Proof. unfold sm_lift. split; [intros [= -> ->]; done|intros [-> ->]; done]. Qed.

Lemma sm_map_err_ok {W A} e (m : SM W A) w a w' :
  sm_map_err e m w = (Ok a, w') <-> m w = (Ok a, w').
Proof.
  unfold sm_map_err. destruct (m w) as [[?|?] ?]; cbn; split; intros; simplify_eq; done.
Qed.

(** [inv_ok]: decompose every hypothesis stating that a monadic computation
    succeeded into the successes of its parts. *)
Ltac inv_ok_step :=
  match goal with
  | H : (_ ≫= _) _ = (Ok _, _) |- _ =>
      let a := fresh "v" in let w := fresh "w" in let H1 := fresh "Hm" in
      apply sm_bind_ok in H as (a & w & H1 & H)
  | H : (_ ≫= _) = Ok _ |- _ =>
      let a := fresh "v" in let H1 := fresh "Hm" in
      apply result_bind_ok in H as (a & H1 & H)
  | H : sm_reject_if _ _ _ = (Ok _, _) |- _ =>
      let H1 := fresh "Hc" in apply sm_reject_if_ok in H as [H1 ->]
  | H : reject_if _ _ = Ok _ |- _ => apply reject_if_ok in H
  | H : ok_or _ _ = Ok _ |- _ => apply ok_or_ok in H
  | H : map_err _ _ = Ok _ |- _ => apply map_err_ok in H
  | H : sm_map_err _ _ _ = (Ok _, _) |- _ => apply sm_map_err_ok in H
  | H : sm_lift _ _ = (Ok _, _) |- _ =>
      let H1 := fresh "Hr" in apply sm_lift_ok in H as [H1 ->]
  | H : mret _ _ = (Ok _, _) |- _ => unfold mret, sm_ret in H; simplify_eq
  | H : mret _ = Ok _ |- _ => unfold mret, result_ret in H; simplify_eq
  | H : Ok _ = Ok _ |- _ => injection H as H; subst
  | H : Err _ = Ok _ |- _ => discriminate H
  | H : sm_err _ _ = (Ok _, _) |- _ => discriminate H
  | H : ?x = Some _ |- _ => is_var x; subst x
  end.
Ltac inv_ok := repeat inv_ok_step.

(** Split the boolean guards of the source. *)
Ltac inv_bool :=
  repeat match goal with
  | H : negb _ = true |- _ => apply negb_true_iff in H
  | H : negb _ = false |- _ => apply negb_false_iff in H
  | H : (_ && _) = true |- _ => apply andb_true_iff in H as [? ?]
  | H : (_ || _) = false |- _ => apply orb_false_iff in H as [? ?]
  | H : bool_decide _ = true |- _ => apply bool_decide_eq_true in H
  | H : bool_decide _ = false |- _ => apply bool_decide_eq_false in H
  end.

(** [guards]: a computation that succeeded passed every [return Err(..)]. *)
Ltac guards :=
  repeat (inv_ok;
    match goal with
    | H : (if ?c then Err _ else _) = Ok _ |- _ =>
        let E := fresh "Hg" in destruct c eqn:E; [discriminate H|]
    | H : (if ?c then sm_err _ else _) _ = (Ok _, _) |- _ =>
        let E := fresh "Hg" in destruct c eqn:E; [discriminate H|]
    end; inv_bool); inv_ok.

(** ** Framing

    [preserves R m]: every run of [m], failing runs included, relates its
    initial to its final world by [R]. *)

Definition preserves {W A} (R : relation W) (m : SM W A) : Prop :=
  forall w, R w (m w).2.

Section preserves.
Context {W : Type} (R : relation W) `{!Reflexive R} `{!Transitive R}.

Lemma preserves_ret {A} (a : A) : preserves R (mret a : SM W A).
Proof. intros w. unfold mret, sm_ret. done. Qed.
Lemma preserves_lift {A} (r : res A) : preserves R (sm_lift r).
Proof. intros w. done. Qed.
Lemma preserves_err {A} e : preserves R (sm_err e : SM W A).
Proof. intros w. done. Qed.
Lemma preserves_reject_if c e : preserves R (sm_reject_if c e).
Proof. apply preserves_lift. Qed.
Lemma preserves_get : preserves R (sm_get (W:=W)).
Proof. intros w. done. Qed.
Lemma preserves_bind {A B} (m : SM W A) (f : A -> SM W B) :
  preserves R m -> (forall a, preserves R (f a)) -> preserves R (m ≫= f).
Proof.
  intros Hm Hf w. unfold mbind, sm_bind.
  specialize (Hm w). destruct (m w) as [[a|e] w1]; cbn in *; [|done].
  etrans; [exact Hm|]. apply Hf.
Qed.
Lemma preserves_try {A} (m : SM W A) : preserves R m -> preserves R (sm_try m).
Proof. intros Hm w. unfold sm_try. specialize (Hm w). by destruct (m w). Qed.
Lemma preserves_map_err {A} e (m : SM W A) : preserves R m -> preserves R (sm_map_err e m).
Proof. intros Hm w. unfold sm_map_err. specialize (Hm w). by destruct (m w). Qed.
Lemma preserves_iter {A} (f : A -> SM W unit) l :
  (forall a, preserves R (f a)) -> preserves R (sm_iter f l).
Proof.
  intros Hf. induction l as [|a l IH]; cbn; [apply preserves_ret|].
  apply preserves_bind; auto.
Qed.
End preserves.

Create HintDb frame.
#[export] Hint Resolve preserves_ret preserves_lift preserves_err preserves_reject_if
  preserves_get : frame.

(** [frame]: discharge [preserves R m] by following the structure of [m]; the
    leaves are the lemmas of the [frame] database. *)
Ltac frame_step :=
  cbv beta zeta;
  match goal with
  | |- preserves ?R (mret ?a ≫= ?f) => change (preserves R (f a))
  | |- preserves _ (_ ≫= _) => eapply preserves_bind; [typeclasses eauto| |intros ?]
  | |- preserves _ (sm_try _) => apply preserves_try
  | |- preserves _ (sm_map_err _ _) => apply preserves_map_err
  | |- preserves _ (sm_iter _ _) => eapply preserves_iter; [typeclasses eauto..|intros ?]
  | |- preserves _ (if ?c then _ else _) => destruct c eqn:?
  | |- preserves _ (match ?x with _ => _ end) => destruct x eqn:?
  | |- preserves _ (let '(_, _) := ?x in _) => destruct x eqn:?
  | |- preserves _ _ => solve [eauto with frame typeclass_instances]
  end.
Ltac frame := repeat frame_step.

Lemma preserves_run {W A} (R : relation W) (m : SM W A) w r w' :
  preserves R m -> m w = (r, w') -> R w w'.
Proof. intros Hm He. specialize (Hm w). by rewrite He in Hm. Qed.

(** [H : m w = (r, w')] becomes [H : R w w']. *)
Ltac frame_in R H :=
  match type of H with
  | ?m ?w = (?r, ?w') =>
      let Hp := fresh "Hp" in
      assert (Hp : preserves R m) by frame;
      apply (preserves_run R m w r w' Hp) in H; clear Hp
  end.

(** ** Generic lemmas on strings and lists *)

Lemma one_of_In x l : one_of x l = true <-> In x l.
Proof.
  unfold one_of. rewrite existsb_exists. split.
  - intros (y & Hy & He). by apply bool_decide_eq_true in He as ->.
  - intros Hx. exists x. split; [done|]. by apply bool_decide_eq_true.
Qed.

Lemma string_app_cons x (a s : string) : String x a +:+ s = String x (a +:+ s).
Proof. done. Qed.

Lemma string_app_nil_r (s : string) : s +:+ "" = s.
Proof. induction s as [|x s IH]; [done|]. by rewrite string_app_cons, IH. Qed.

Lemma string_app_assoc (a b c : string) : a +:+ (b +:+ c) = (a +:+ b) +:+ c.
Proof. induction a as [|x a IH]; [done|]. by rewrite !string_app_cons, IH. Qed.

Lemma string_app_length (a b : string) :
  String.length (a +:+ b) = String.length a + String.length b.
Proof. induction a as [|x a IH]; [done|]. rewrite string_app_cons. cbn. by rewrite IH. Qed.

Lemma string_app_inj_r (p a b : string) : p +:+ a = p +:+ b -> a = b.
Proof. induction p as [|x p IH]; [done|]. rewrite !string_app_cons. intros [= H]. auto. Qed.

(** Prefixes of equal length are determined by the whole. *)
Lemma string_app_inj_len (a b s t : string) :
  String.length a = String.length b -> a +:+ s = b +:+ t -> a = b /\ s = t.
Proof.
  revert b. induction a as [|x a IH]; intros [|y b] Hlen H; cbn in Hlen; try done.
  rewrite !string_app_cons in H. injection H as <- H.
  destruct (IH b) as [-> ->]; auto.
Qed.

(** Two strings with the same suffix are equal iff their prefixes are. *)
Lemma string_app_inj_l (a b s : string) : a +:+ s = b +:+ s -> a = b.
Proof.
  intros H.
  apply (string_app_inj_len a b s s); [|done].
  apply (f_equal String.length) in H. rewrite !string_app_length in H. lia.
Qed.

Lemma list_traverse_ok {E A B} (f : A -> result E B) l bs :
  list_traverse f l = Ok bs <-> Forall2 (fun a b => f a = Ok b) l bs.
Proof.
  revert bs. induction l as [|a l IH]; intros bs; cbn.
  - split; [intros; simplify_eq; constructor|by inversion 1].
  - rewrite result_bind_ok. setoid_rewrite result_bind_ok. split.
    + intros (b & Hb & bs' & Hbs & ?); simplify_eq. constructor; [done|]. by apply IH.
    + inversion 1; subst. eexists; split; [done|]. eexists; split; [by apply IH|done].
Qed.

Lemma for_each_ok {E A} (f : A -> result E unit) l u :
  for_each f l = Ok u <-> Forall (fun a => f a = Ok tt) l.
Proof.
  destruct u. induction l as [|a l IH]; cbn; [split; [constructor|done]|].
  rewrite result_bind_ok, Forall_cons, <-IH. split; [by intros ([] & ? & ?)|].
  intros [? ?]. by exists tt.
Qed.

(** ** Machine integers

    Unsigned 64-bit counters of the source are values of [Z] in [0, 2^64). *)
Definition u64_max : Z := 18446744073709551615.
Definition u64 (z : Z) : Prop := (0 <= z <= u64_max)%Z.
Definition u32_max : Z := 4294967295.

(** [u64::checked_add]. *)
Definition u64_checked_add (a b : Z) : option Z :=
  if (a + b <=? u64_max)%Z then Some (a + b)%Z else None.
(** [u64::saturating_sub]. *)
Definition u64_saturating_sub (a b : Z) : Z := Z.max 0 (a - b).

Lemma u64_checked_add_some a b c :
  u64_checked_add a b = Some c <-> c = (a + b)%Z /\ (c <= u64_max)%Z.
Proof. unfold u64_checked_add. case_match; split; intros; simplify_eq; naive_solver lia. Qed.
