(* ===== verification/RustStr.v ===== *)
(** * Rust strings and bytes

    The fragment of [core::str], [core::char] and [u8] the modelled source
    uses. A Rocq [string] is the byte sequence of a Rust [&str] or [&[u8]];
    [chars] decodes it as UTF-8, which a Rust [&str] always is. *)

From S2P Require Import Prelude.
From Stdlib Require Import Ascii.
From stdpp Require Import sorting pretty.

Local Open Scope N_scope.

(** ** Bytes: the [u8::is_ascii_*] family *)

Definition in_range (lo hi : N) (c : ascii) : bool :=
  (lo <=? N_of_ascii c) && (N_of_ascii c <=? hi).

Definition is_ascii (c : ascii) : bool := N_of_ascii c <? 128.
Definition is_ascii_digit : ascii -> bool := in_range 48 57.
Definition is_ascii_uppercase : ascii -> bool := in_range 65 90.
Definition is_ascii_lowercase : ascii -> bool := in_range 97 122.
Definition is_ascii_alphabetic (c : ascii) : bool :=
  is_ascii_uppercase c || is_ascii_lowercase c.
Definition is_ascii_alphanumeric (c : ascii) : bool :=
  is_ascii_alphabetic c || is_ascii_digit c.
Definition is_ascii_hexdigit (c : ascii) : bool :=
  is_ascii_digit c || in_range 65 70 c || in_range 97 102 c.
(** [byte.is_ascii_digit() || (b'a'..=b'f').contains(&byte)]. *)
Definition is_lower_hex (c : ascii) : bool := is_ascii_digit c || in_range 97 102 c.
(** [(b' '..=b'~').contains(&byte)]. *)
Definition is_printable : ascii -> bool := in_range 32 126.

Definition to_ascii_uppercase (c : ascii) : ascii :=
  if is_ascii_lowercase c then ascii_of_N (N_of_ascii c - 32) else c.
Definition to_ascii_lowercase (c : ascii) : ascii :=
  if is_ascii_uppercase c then ascii_of_N (N_of_ascii c + 32) else c.

Abbreviation bytes_of := String.list_ascii_of_string.
Abbreviation of_bytes := String.string_of_list_ascii.

(** [s.bytes().all(p)]. *)
Definition bytes_all (p : ascii -> bool) (s : string) : bool := forallb p (bytes_of s).
Definition bytes_any (p : ascii -> bool) (s : string) : bool := existsb p (bytes_of s).
Definition str_map (f : ascii -> ascii) (s : string) : string := of_bytes (map f (bytes_of s)).
(** [str::len]: the number of bytes. *)
Definition zlen (s : string) : Z := Z.of_nat (String.length s).
Definition is_empty (s : string) : bool := s == "".

(** [str::eq_ignore_ascii_case]. *)
Definition eq_ignore_ascii_case (a b : string) : bool :=
  str_map to_ascii_lowercase a == str_map to_ascii_lowercase b.

(** ** Characters

    [char_chunks] pairs every decoded code point with its encoding. *)
Definition low6 (c : ascii) : N := N.land (N_of_ascii c) 63.
Fixpoint char_chunks (l : list ascii) : list (N * list ascii) :=
  match l with
  | [] => []
  | b0 :: l0 =>
      let n0 := N_of_ascii b0 in
      if n0 <? 128 then (n0, [b0]) :: char_chunks l0 else
      match l0 with
      | [] => [(n0, [b0])]
      | b1 :: l1 =>
          if n0 <? 224 then
            (N.lor (N.shiftl (N.land n0 31) 6) (low6 b1), [b0; b1]) :: char_chunks l1 else
          match l1 with
          | [] => [(n0, [b0; b1])]
          | b2 :: l2 =>
              if n0 <? 240 then
                (N.lor (N.shiftl (N.land n0 15) 12) (N.lor (N.shiftl (low6 b1) 6) (low6 b2)),
                 [b0; b1; b2]) :: char_chunks l2 else
              match l2 with
              | [] => [(n0, [b0; b1; b2])]
              | b3 :: l3 =>
                  (N.lor (N.shiftl (N.land n0 7) 18)
                     (N.lor (N.shiftl (low6 b1) 12) (N.lor (N.shiftl (low6 b2) 6) (low6 b3))),
                   [b0; b1; b2; b3]) :: char_chunks l3
              end
          end
      end
  end.

Definition chars (s : string) : list N := map fst (char_chunks (bytes_of s)).

(** [char::is_control]: the Unicode category Cc. *)
Definition is_control (c : N) : bool := (c <? 32) || ((127 <=? c) && (c <=? 159)).
(** [char::is_whitespace]: the Unicode property White_Space. *)
Definition is_whitespace (c : N) : bool :=
  ((9 <=? c) && (c <=? 13)) || (c =? 32) || (c =? 133) || (c =? 160) || (c =? 5760)
  || ((8192 <=? c) && (c <=? 8202)) || (c =? 8232) || (c =? 8233) || (c =? 8239)
  || (c =? 8287) || (c =? 12288).

Fixpoint drop_while {A} (p : A -> bool) (l : list A) : list A :=
  match l with
  | [] => []
  | a :: l' => if p a then drop_while p l' else l
  end.

(** [str::trim]. *)
Definition trim (s : string) : string :=
  let ws := fun x : N * list ascii => is_whitespace x.1 in
  of_bytes (concat (map snd
    (rev (drop_while ws (rev (drop_while ws (char_chunks (bytes_of s)))))))).

(** ** Prefixes and separators *)

Fixpoint strip_prefix (p s : string) : option string :=
  match p, s with
  | "", _ => Some s
  | String a p', String b s' => if Ascii.eqb a b then strip_prefix p' s' else None
  | String _ _, "" => None
  end%string.
Definition starts_with (p s : string) : bool :=
  match strip_prefix p s with Some _ => true | None => false end.
Definition str_rev (s : string) : string := of_bytes (rev (bytes_of s)).
Definition ends_with (p s : string) : bool := starts_with (str_rev p) (str_rev s).

(** [str::split(c)] on a single ASCII byte. *)
Fixpoint split_bytes (c : ascii) (acc : list ascii) (l : list ascii) : list (list ascii) :=
  match l with
  | [] => [rev acc]
  | a :: l' => if Ascii.eqb a c then rev acc :: split_bytes c [] l'
               else split_bytes c (a :: acc) l'
  end.
Definition split_on (c : ascii) (s : string) : list string :=
  map of_bytes (split_bytes c [] (bytes_of s)).

(** [str::split_once(c)] on a single ASCII byte. *)
Fixpoint split_once_aux (c : ascii) (acc : list ascii) (l : list ascii)
    : option (list ascii * list ascii) :=
  match l with
  | [] => None
  | a :: l' => if Ascii.eqb a c then Some (rev acc, l') else split_once_aux c (a :: acc) l'
  end.
Definition split_once (c : ascii) (s : string) : option (string * string) :=
  match split_once_aux c [] (bytes_of s) with
  | Some (a, b) => Some (of_bytes a, of_bytes b)
  | None => None
  end.

(** [str::split_once] on a string: its first occurrence. *)
Fixpoint split_once_str (sep s : string) : option (string * string) :=
  match strip_prefix sep s with
  | Some t => Some (""%string, t)
  | None =>
      match s with
      | ""%string => None
      | String c s' => '(a, b) ← split_once_str sep s'; Some (String c a, b)
      end
  end.

(** [str::contains] of a string. *)
Fixpoint contains (p s : string) : bool :=
  starts_with p s ||
  match s with "" => false | String _ s' => contains p s' end%string.

(** [str::from_utf8]. *)
Definition continuation : ascii -> bool := in_range 128 191.
Fixpoint utf8 (l : list ascii) : bool :=
  match l with
  | [] => true
  | b0 :: l0 =>
      let n0 := N_of_ascii b0 in
      if n0 <? 128 then utf8 l0 else
      match l0 with
      | [] => false
      | b1 :: l1 =>
          if n0 <? 194 then false else
          if n0 <? 224 then continuation b1 && utf8 l1 else
          match l1 with
          | [] => false
          | b2 :: l2 =>
              if n0 <? 240 then
                (if n0 =? 224 then in_range 160 191 b1
                 else if n0 =? 237 then in_range 128 159 b1 else continuation b1)
                && continuation b2 && utf8 l2 else
              match l2 with
              | [] => false
              | b3 :: l3 =>
                  (if n0 =? 240 then in_range 144 191 b1
                   else if n0 =? 244 then in_range 128 143 b1
                   else (n0 <? 244) && continuation b1)
                  && continuation b2 && continuation b3 && utf8 l3
              end
          end
      end
  end.
Definition from_utf8 (bytes : string) : option string :=
  if utf8 (bytes_of bytes) then Some bytes else None.

(** [str::split_whitespace]: the non-empty runs between white space. *)
Fixpoint words (acc : list ascii) (l : list (N * list ascii)) : list (list ascii) :=
  match l with
  | [] => if acc is [] then [] else [acc]
  | (c, bytes) :: l' =>
      if is_whitespace c then (if acc is [] then [] else [acc]) ++ words [] l'
      else words (acc ++ bytes) l'
  end.
Definition split_whitespace (s : string) : list string :=
  map of_bytes (words [] (char_chunks (bytes_of s))).

(** [str::lines]: the final line ending is optional, a carriage return belongs to it. *)
Definition line_end (line : string) : string :=
  match strip_prefix (String (ascii_of_nat 13) "") (str_rev line) with
  | Some rest => str_rev rest
  | None => line
  end.
Definition lines (s : string) : list string :=
  match rev (split_on (ascii_of_nat 10) s) with
  | last :: init => map line_end (rev init) ++ (if is_empty last then [] else [last])
  | [] => []
  end.

(** A fixed-width lower-case hexadecimal identifier: the validation the private
    modules repeat for references, digests and plan identifiers. *)
Definition lower_hex (value : string) (length : Z) : bool :=
  (zlen value =? length)%Z && bytes_all is_lower_hex value.

(** ** Lemmas *)

Lemma bytes_of_of_bytes l : bytes_of (of_bytes l) = l.
Proof. apply String.list_ascii_of_string_of_list_ascii. Qed.
Lemma of_bytes_bytes_of s : of_bytes (bytes_of s) = s.
Proof. apply String.string_of_list_ascii_of_string. Qed.

Lemma length_bytes_of s : length (bytes_of s) = String.length s.
Proof. induction s; cbn; congruence. Qed.

Lemma bytes_of_app a b : bytes_of (a +:+ b) = (bytes_of a ++ bytes_of b)%list.
Proof. induction a as [|x a IH]; [done|]. rewrite string_app_cons. cbn. by rewrite IH. Qed.

Lemma bytes_all_app p a b : bytes_all p (a +:+ b) = bytes_all p a && bytes_all p b.
Proof. unfold bytes_all. by rewrite bytes_of_app, forallb_app. Qed.

Lemma zlen_nonneg s : (0 <= zlen s)%Z.
Proof. unfold zlen. lia. Qed.

Lemma zlen_app a b : zlen (a +:+ b) = (zlen a + zlen b)%Z.
Proof. unfold zlen. rewrite string_app_length. lia. Qed.

Lemma strip_prefix_spec p s t : strip_prefix p s = Some t <-> s = p +:+ t.
Proof.
  revert s. induction p as [|a p IH]; intros s; cbn.
  - split; intros; simplify_eq; done.
  - destruct s as [|b s]; [split; [done|by rewrite string_app_cons]|].
    rewrite string_app_cons. destruct (Ascii.eqb_spec a b) as [->|Hn].
    + rewrite IH. split; [by intros ->|by intros [= ->]].
    + split; [done|intros [= ]; congruence].
Qed.

Lemma lower_hex_app_name value length suffix value' suffix' :
  lower_hex value length = true -> lower_hex value' length = true ->
  value +:+ suffix = value' +:+ suffix' -> value = value' /\ suffix = suffix'.
Proof.
  unfold lower_hex, zlen. intros H1 H2 Happ. inv_bool.
  apply string_app_inj_len in Happ; [done|]. lia.
Qed.

Lemma bytes_of_inj a b : bytes_of a = bytes_of b -> a = b.
Proof. intros H. rewrite <-(of_bytes_bytes_of a), <-(of_bytes_bytes_of b). by f_equal. Qed.

Lemma of_bytes_app a b : of_bytes (a ++ b) = of_bytes a +:+ of_bytes b.
Proof. apply bytes_of_inj. by rewrite bytes_of_app, !bytes_of_of_bytes. Qed.

Lemma str_rev_app a b : str_rev (a +:+ b) = str_rev b +:+ str_rev a.
Proof. unfold str_rev. by rewrite bytes_of_app, rev_app_distr, of_bytes_app. Qed.

Lemma starts_with_spec p s : starts_with p s = true <-> exists t, s = p +:+ t.
Proof.
  unfold starts_with. destruct (strip_prefix p s) as [t|] eqn:Hp.
  - apply strip_prefix_spec in Hp. naive_solver.
  - split; [done|]. intros [t Ht%strip_prefix_spec]. congruence.
Qed.

(** Two prefixes of one string are comparable. *)
Lemma starts_with_app_inv p q t : starts_with p (q +:+ t) = true ->
  starts_with p q = true \/ starts_with q p = true.
Proof.
  revert q. induction p as [|a p IH]; intros [|b q] H; [by left..|by right|].
  rewrite string_app_cons in H. unfold starts_with in *. cbn in *.
  destruct (Ascii.eqb_spec a b) as [->|]; [|done].
  destruct (IH q H) as [Hl|Hr]; [by left|right]. by rewrite Ascii.eqb_refl.
Qed.

Lemma ends_with_app r s : ends_with s (r +:+ s) = true.
Proof. unfold ends_with. apply starts_with_spec. rewrite str_rev_app. by eexists. Qed.

Lemma ends_with_app_inv v r s : ends_with v (r +:+ s) = true ->
  ends_with v s = true \/ ends_with s v = true.
Proof. unfold ends_with. rewrite str_rev_app. apply starts_with_app_inv. Qed.

(** ** ASCII text *)

Definition ascii_forall (p : ascii -> bool) : Prop := forall c, p c = true.

Lemma char_chunks_ascii l :
  forallb is_ascii l = true -> char_chunks l = map (fun b => (N_of_ascii b, [b])) l.
Proof.
  induction l as [|b l IH]; [done|]. cbn [forallb]. intros [Hb Hl]%andb_true_iff.
  cbn [char_chunks map]. unfold is_ascii in Hb. rewrite Hb, IH by done. done.
Qed.

Lemma drop_while_none {A} (p : A -> bool) l : existsb p l = false -> drop_while p l = l.
Proof. destruct l as [|a l]; [done|]. cbn. by destruct (p a). Qed.

Lemma existsb_rev {A} (p : A -> bool) l : existsb p (rev l) = existsb p l.
Proof.
  apply eq_true_iff_eq. rewrite !existsb_exists. setoid_rewrite <-in_rev. done.
Qed.

(** Text without whitespace is its own [trim]. *)
Lemma trim_no_whitespace s :
  bytes_all (fun c => is_ascii c && negb (is_whitespace (N_of_ascii c))) s = true -> trim s = s.
Proof.
  unfold bytes_all, trim. intros Hs. cbv zeta.
  assert (forallb is_ascii (bytes_of s) = true) as Hascii.
  { apply forallb_forall. intros c Hc. apply (proj1 (forallb_forall _ _) Hs) in Hc.
    by apply andb_true_iff in Hc as [? _]. }
  rewrite (char_chunks_ascii _ Hascii).
  assert (existsb (fun x : N * list ascii => is_whitespace x.1)
    (map (fun b => (N_of_ascii b, [b])) (bytes_of s)) = false) as Hws.
  { apply not_true_iff_false. intros (x & Hx & Hw)%existsb_exists.
    apply in_map_iff in Hx as (c & <- & Hc).
    apply (proj1 (forallb_forall _ _) Hs) in Hc. cbn in Hw. rewrite Hw in Hc.
    by rewrite andb_false_r in Hc. }
  rewrite (drop_while_none _ _ Hws), drop_while_none by (by rewrite existsb_rev).
  rewrite rev_involutive, map_map. cbn.
  rewrite <-(of_bytes_bytes_of s) at 2. f_equal.
  induction (bytes_of s) as [|c l IH]; [done|]. cbn. f_equal. apply IH; cbn in *;
    [by apply andb_true_iff in Hs as [_ ?]|by apply andb_true_iff in Hascii as [_ ?]
    |by apply orb_false_iff in Hws as [_ ?]].
Qed.

Lemma split_once_aux_spec c acc l a b :
  split_once_aux c acc l = Some (a, b) -> (rev acc ++ l = a ++ c :: b)%list.
Proof.
  revert acc. induction l as [|x l IH]; intros acc; cbn; [done|].
  destruct (Ascii.eqb_spec x c) as [->|_]; [intros [= <- <-]; done|].
  intros H%IH. cbn in H. by rewrite <-app_assoc in H.
Qed.
Lemma split_once_spec c s a b : split_once c s = Some (a, b) -> s = a +:+ String c b.
Proof.
  unfold split_once. destruct (split_once_aux c [] (bytes_of s)) as [[x y]|] eqn:Hs; [|done].
  intros [= <- <-]. apply split_once_aux_spec in Hs. cbn in Hs.
  rewrite <-(of_bytes_bytes_of s), Hs, of_bytes_app. done.
Qed.

(** A property of every separator-free part, and of the separator, is one of
    the whole. *)
Lemma split_bytes_all p c acc l :
  p c = true ->
  forallb (fun x => forallb p x) (split_bytes c acc l) = true -> forallb p (rev acc ++ l) = true.
Proof.
  intros Hc. revert acc. induction l as [|x l IH]; intros acc; cbn.
  - rewrite andb_true_r, app_nil_r. done.
  - destruct (Ascii.eqb_spec x c) as [->|_].
    + cbn. intros [Ha Hl]%andb_true_iff. apply IH in Hl. cbn in Hl.
      by rewrite forallb_app, Ha; cbn; rewrite Hc, Hl.
    + intros Hl%IH. cbn in Hl. by rewrite <-app_assoc in Hl.
Qed.
Lemma split_on_all p c s :
  p c = true -> forallb (fun x => bytes_all p x) (split_on c s) = true -> bytes_all p s = true.
Proof.
  unfold split_on, bytes_all. intros Hc Hs. apply (split_bytes_all p c [] (bytes_of s)); [done|].
  revert Hs. generalize (split_bytes c [] (bytes_of s)). intros l.
  induction l as [|x l IH]; [done|]. cbn. rewrite bytes_of_of_bytes.
  intros [-> Hl]%andb_true_iff. by apply IH.
Qed.

Lemma bytes_all_impl (p q : ascii -> bool) s :
  (forall c, p c = true -> q c = true) -> bytes_all p s = true -> bytes_all q s = true.
Proof.
  unfold bytes_all. intros Hpq Hs. apply forallb_forall. intros c Hc.
  apply Hpq. by apply (proj1 (forallb_forall _ _) Hs).
Qed.

(** ** Order: [Ord] of [str] is the order of the bytes *)

Definition str_leb (a b : string) : bool :=
  match String.compare a b with Gt => false | _ => true end.
Definition str_le (a b : string) : Prop := str_leb a b = true.
#[export] Instance str_le_dec a b : Decision (str_le a b).
Proof. unfold str_le. apply _. Defined.

Lemma str_leb_cons c d a b :
  str_leb (String c a) (String d b)
    = match (N_of_ascii c ?= N_of_ascii d)%N with Lt => true | Eq => str_leb a b | Gt => false end.
Proof. unfold str_leb. cbn. unfold Ascii.compare. by destruct (_ ?= _)%N. Qed.

#[export] Instance str_le_total : Total str_le.
Proof.
  intros a b. unfold str_le, str_leb. rewrite (String.compare_antisym a b).
  destruct (String.compare b a); cbn; auto.
Qed.

#[export] Instance str_le_trans : Transitive str_le.
Proof.
  unfold str_le. intros a. induction a as [|c a IH]; intros [|d b] [|e f]; try done.
  rewrite !str_leb_cons.
  destruct (N.compare_spec (N_of_ascii c) (N_of_ascii d)) as [Hcd|Hcd|Hcd]; try done;
  destruct (N.compare_spec (N_of_ascii d) (N_of_ascii e)) as [Hde|Hde|Hde]; try done;
  destruct (N.compare_spec (N_of_ascii c) (N_of_ascii e)) as [Hce|Hce|Hce]; try lia; try done.
  apply IH.
Qed.

#[export] Instance str_le_antisym : AntiSymm eq str_le.
Proof.
  unfold str_le, str_leb. intros a b. rewrite (String.compare_antisym a b).
  destruct (String.compare b a) eqn:Hc; cbn; try done. by apply String.compare_eq_iff in Hc.
Qed.

(** ** Maps in key order, numbers, and the remaining string operations *)

(** [.iter()] of a [BTreeMap<String, _>]. *)
Definition entry_le {A} (p q : string * A) : Prop := str_le p.1 q.1.
#[export] Instance entry_le_dec {A} (p q : string * A) : Decision (entry_le p q).
Proof. unfold entry_le. apply _. Defined.
Definition btree_entries {A} (m : gmap string A) : list (string * A) :=
  merge_sort entry_le (map_to_list m).

Lemma elem_of_btree_entries {A} (m : gmap string A) k a :
  (k, a) ∈ btree_entries m <-> m !! k = Some a.
Proof. unfold btree_entries. by rewrite merge_sort_Permutation, elem_of_map_to_list. Qed.

(** [str::parse] of an unsigned integer of at most [max]. *)
Definition digit_value (c : ascii) : Z := Z.of_N (N_of_ascii c) - 48.
Definition digits_value : list ascii -> Z :=
  foldl (fun acc c => 10 * acc + digit_value c)%Z 0%Z.
Definition parse_unsigned (max : Z) (s : string) : option Z :=
  let digits := match bytes_of s with "+"%char :: l => l | l => l end in
  if negb (forallb is_ascii_digit digits) || (length digits =? 0)%nat then None
  else if (digits_value digits <=? max)%Z then Some (digits_value digits) else None.

(** [str::rsplit_once(c)], [str::trim_end_matches(c)], [slice::join]. *)
Definition rsplit_once (c : ascii) (s : string) : option (string * string) :=
  '(a, b) ← split_once c (str_rev s); Some (str_rev b, str_rev a).
Definition trim_end_matches (c : ascii) (s : string) : string :=
  str_rev (of_bytes (drop_while (Ascii.eqb c) (bytes_of (str_rev s)))).
Definition str_join (sep : string) : list string -> string :=
  fix go (l : list string) : string :=
    match l with [] => "" | [a] => a | a :: l' => a +:+ sep +:+ go l' end.

(** ** Printing and parsing numbers *)

Lemma digit_pretty x :
  (x < 10)%N -> is_ascii_digit (pretty_N_char x) = true /\ digit_value (pretty_N_char x) = Z.of_N x.
Proof.
  intros Hx. assert (x = 0 \/ x = 1 \/ x = 2 \/ x = 3 \/ x = 4 \/ x = 5 \/ x = 6 \/ x = 7 \/ x = 8 \/ x = 9)%N
    as Hcases by lia.
  by destruct_or! Hcases; subst.
Qed.

Lemma pretty_go_digits x s :
  forallb is_ascii_digit (bytes_of s) = true ->
  forallb is_ascii_digit (bytes_of (pretty_N_go x s)) = true /\
  digits_value (bytes_of (pretty_N_go x s))
    = foldl (fun acc c => 10 * acc + digit_value c)%Z (Z.of_N x) (bytes_of s).
Proof.
  revert s. induction (N.lt_wf_0 x) as [x _ IH]. intros s Hs.
  destruct (decide (0 < x)%N) as [Hx|Hx].
  - rewrite pretty_N_go_step by done.
    destruct (digit_pretty (x `mod` 10)) as [Hd Hv]; [by apply N.mod_lt|].
    destruct (IH (x `div` 10)%N) with (s := String (pretty_N_char (x `mod` 10)) s) as [H1 H2].
    + apply N.div_lt; lia.
    + cbn. by rewrite Hd, Hs.
    + split; [done|]. rewrite H2. cbn. rewrite Hv. f_equal.
      rewrite (N.div_mod x 10) at 3 by done. lia.
  - assert (x = 0%N) as -> by lia. by rewrite pretty_N_go_0.
Qed.

Lemma pretty_digits n :
  (0 <= n)%Z ->
  forallb is_ascii_digit (bytes_of (pretty n)) = true /\ digits_value (bytes_of (pretty n)) = n /\
  bytes_of (pretty n) <> [].
Proof.
  intros Hn. destruct n as [|p|p]; [done| |lia].
  change (pretty (N.pos p)) with (pretty_N_go (N.pos p) "").
  destruct (pretty_go_digits (N.pos p) "") as [H1 H2]; [done|]. split_and!; [done|done|].
  change (bytes_of (pretty_N_go (N.pos p) "") <> []). intros He. by rewrite He in H2.
Qed.

Lemma parse_unsigned_pretty max n : (0 <= n <= max)%Z -> parse_unsigned max (pretty n) = Some n.
Proof.
  intros Hn. destruct (pretty_digits n) as (Hd & Hv & Hne); [lia|].
  unfold parse_unsigned.
  assert (match bytes_of (pretty n) with "+"%char :: l => l | l => l end = bytes_of (pretty n)) as ->.
  { destruct (bytes_of (pretty n)) as [|c l]; [done|]. cbn in Hd.
    apply andb_true_iff in Hd as [Hc _]. by destruct c as [[] [] [] [] [] [] [] []]. }
  rewrite Hd, Hv. cbn. destruct (bytes_of (pretty n)); [done|]. cbn.
  by rewrite (proj2 (Z.leb_le _ _)) by lia.
Qed.

(** ** Splitting a text that was put together *)

Definition lacks (c : ascii) (s : string) : bool := bytes_all (fun d => negb (Ascii.eqb d c)) s.

Lemma split_bytes_app c acc a b :
  forallb (fun d => negb (Ascii.eqb d c)) a = true ->
  split_bytes c acc (a ++ c :: b) = (rev acc ++ a)%list :: split_bytes c [] b.
Proof.
  revert acc. induction a as [|d a IH]; intros acc; cbn [forallb app split_bytes].
  - intros _. by rewrite Ascii.eqb_refl, app_nil_r.
  - intros [Hd Ha]%andb_true_iff. apply negb_true_iff in Hd. rewrite Hd, IH by done. cbn.
    by rewrite <-app_assoc.
Qed.
Lemma split_bytes_last c acc a :
  forallb (fun d => negb (Ascii.eqb d c)) a = true -> split_bytes c acc a = [(rev acc ++ a)%list].
Proof.
  revert acc. induction a as [|d a IH]; intros acc; cbn [forallb split_bytes].
  - intros _. by rewrite app_nil_r.
  - intros [Hd Ha]%andb_true_iff. apply negb_true_iff in Hd. rewrite Hd, IH by done. cbn.
    by rewrite <-app_assoc.
Qed.

Lemma split_on_app c a b :
  lacks c a = true -> split_on c (a +:+ String c b) = a :: split_on c b.
Proof.
  intros Ha. unfold split_on. rewrite bytes_of_app. cbn [String.list_ascii_of_string].
  rewrite split_bytes_app by done. cbn. by rewrite of_bytes_bytes_of.
Qed.
Lemma split_on_last c a : lacks c a = true -> split_on c a = [a].
Proof.
  intros Ha. unfold split_on. rewrite split_bytes_last by done. cbn. by rewrite of_bytes_bytes_of.
Qed.
Lemma lacks_impl (p : ascii -> bool) c s :
  p c = false -> bytes_all p s = true -> lacks c s = true.
Proof.
  intros Hc. apply bytes_all_impl. intros d Hd. apply negb_true_iff, Ascii.eqb_neq.
  intros ->. congruence.
Qed.

(** Splitting on a character and joining with it are inverse. *)
Lemma str_join_cons sep a l : l <> [] -> str_join sep (a :: l) = a +:+ sep +:+ str_join sep l.
Proof. by destruct l. Qed.
Lemma split_bytes_not_nil c acc l : split_bytes c acc l <> [].
Proof. revert acc. induction l as [|a l IH]; intros acc; cbn; [done|]. by destruct (Ascii.eqb a c). Qed.
Lemma split_on_not_nil c s : split_on c s <> [].
Proof. unfold split_on. intros E%map_eq_nil. by apply split_bytes_not_nil in E. Qed.

Lemma str_join_split_bytes c acc l :
  str_join (String c "") (map of_bytes (split_bytes c acc l)) = of_bytes (rev acc ++ l).
Proof.
  revert acc. induction l as [|a l IH]; intros acc; cbn [split_bytes].
  - cbn. by rewrite app_nil_r.
  - destruct (Ascii.eqb_spec a c) as [->|Hne].
    + cbn [map]. rewrite str_join_cons.
      * rewrite IH, !of_bytes_app. done.
      * intros E%map_eq_nil. by apply split_bytes_not_nil in E.
    + rewrite IH. cbn. by rewrite <-app_assoc.
Qed.
Lemma str_join_split_on c s : str_join (String c "") (split_on c s) = s.
Proof. unfold split_on. rewrite str_join_split_bytes. cbn. apply of_bytes_bytes_of. Qed.
Lemma split_on_str_join c l :
  l <> [] -> Forall (fun a => lacks c a = true) l -> split_on c (str_join (String c "") l) = l.
Proof.
  intros Hne Hl. induction Hl as [|a l Ha Hl IH]; [done|]. destruct l as [|b l].
  - cbn. by apply split_on_last.
  - rewrite str_join_cons by done. change (String c "" +:+ ?x) with (String c x).
    rewrite split_on_app by done. by rewrite IH.
Qed.
Lemma split_bytes_lacks c acc l :
  forallb (fun d => negb (Ascii.eqb d c)) acc = true ->
  Forall (fun a => forallb (fun d => negb (Ascii.eqb d c)) a = true) (split_bytes c acc l).
Proof.
  revert acc. induction l as [|a l IH]; intros acc Hacc; cbn [split_bytes].
  - constructor; [|constructor]. apply forallb_forall. intros d Hd%in_rev.
    rewrite forallb_forall in Hacc. by apply Hacc.
  - destruct (Ascii.eqb a c) eqn:E.
    + constructor; [|by apply IH]. apply forallb_forall. intros d Hd%in_rev.
      rewrite forallb_forall in Hacc. by apply Hacc.
    + apply IH. cbn. by rewrite E.
Qed.
Lemma split_on_lacks c s : Forall (fun a => lacks c a = true) (split_on c s).
Proof.
  unfold split_on, lacks, bytes_all. apply Forall_map. eapply Forall_impl; [by apply split_bytes_lacks|].
  cbn. intros a. by rewrite bytes_of_of_bytes.
Qed.

Lemma split_once_str_spec sep s a b :
  split_once_str sep s = Some (a, b) -> s = a +:+ sep +:+ b.
Proof.
  revert a. induction s as [|c s IH]; intros a; cbn [split_once_str];
    destruct (strip_prefix sep _) as [t|] eqn:E; try done.
  1, 2: apply strip_prefix_spec in E; intros [= <- <-]; exact E.
  destruct (split_once_str sep s) as [[x y]|] eqn:Hs; [|done]. cbn. intros [= <- <-].
  by rewrite string_app_cons, <-(IH x).
Qed.
Lemma split_once_str_first c sep a b :
  lacks c a = true -> split_once_str (String c sep) (a +:+ String c sep +:+ b) = Some (a, b).
Proof.
  unfold lacks, bytes_all. induction a as [|d a IH].
  - intros _. change ("" +:+ ?x)%string with x.
    assert (strip_prefix (String c sep) (String c sep +:+ b) = Some b) as E
      by by apply strip_prefix_spec.
    destruct (String c sep +:+ b) eqn:Ht; cbn [split_once_str]; by rewrite E.
  - cbn [String.list_ascii_of_string forallb]. intros [Hd Ha]%andb_true_iff.
    rewrite string_app_cons. cbn [split_once_str strip_prefix].
    rewrite Ascii.eqb_sym. apply negb_true_iff in Hd. rewrite Hd, IH by done. done.
Qed.

(** Sorting makes the order of the texts irrelevant. *)
Lemma sort_texts_perm (l l' : list string) :
  l ≡ₚ l' -> merge_sort str_le l = merge_sort str_le l'.
Proof.
  intros Hp. apply (StronglySorted_unique str_le); [apply StronglySorted_merge_sort; apply _..|].
  by rewrite !merge_sort_Permutation.
Qed.
