(* ===== verification/Env.v ===== *)
(** * Environment interfaces

    The code the modelled source calls but does not contain, as type classes:
    the operating system's choices (faults, random bytes, process credentials)
    and the [sha2], [hmac], [aes_gcm], [hex], [serde_json], [url] and [chrono]
    crates. Components are proved against these interfaces; the file [Toy.v]
    shows that their laws can be met. *)

From S2P Require Import Prelude RustStr.
From Stdlib Require Import Ascii.

(** ** Operating system

    Every system call that may fail consumes one tick of the oracle. A failing
    call has no effect, except that a failing write may have written a prefix
    of its data. A crash of the process at tick [t] leaves the same files as an
    oracle whose calls all fail from [t] on, because no error path of the
    modelled source performs a further effect. *)

Inductive outcome := Done | Fault (written : nat).

Class Oracle := {
  o_sys : nat -> outcome;
  (** [getrandom(&mut [0; n])]. *)
  o_random : nat -> Z -> option string;
  o_random_len : forall t n s, o_random t n = Some s -> zlen s = n;
  o_euid : Z;
  o_umask : Z;
}.

(** ** Cryptography: [sha2], [hmac], [aes_gcm], [hex] *)

Class Crypto := {
  sha256 : string -> string;
  sha256_len : forall s, zlen (sha256 s) = 32%Z;
  hmac_sha256 : string -> string -> string;
  hmac_sha256_len : forall k s, zlen (hmac_sha256 k s) = 32%Z;
  (** [Aes256Gcm::encrypt] and [decrypt]: key, nonce, associated data, data. *)
  aead_encrypt : string -> string -> string -> string -> option string;
  aead_decrypt : string -> string -> string -> string -> option string;
  aead_decrypt_encrypt : forall k n a m c,
    aead_encrypt k n a m = Some c -> aead_decrypt k n a c = Some m;
  (** The ciphertext carries a 16-byte tag. *)
  aead_encrypt_len : forall k n a m c,
    aead_encrypt k n a m = Some c -> zlen c = (zlen m + 16)%Z;
  hex_encode : string -> string;
  hex_encode_len : forall s, zlen (hex_encode s) = (2 * zlen s)%Z;
  hex_encode_lower : forall s, bytes_all is_lower_hex (hex_encode s) = true;
}.

(** ** Derived [serde] implementations over [serde_json] text *)

Class Serde (T : Type) := {
  to_vec : T -> option string;
  from_slice : string -> option T;
  from_slice_to_vec : forall x b, to_vec x = Some b -> from_slice b = Some x;
}.

(** ** [chrono]: instants are nanoseconds of UTC, text is RFC 3339 *)

Class Chrono := {
  parse_from_rfc3339 : string -> res Z;
  to_rfc3339 : Z -> string;
  parse_to_rfc3339 : forall t, parse_from_rfc3339 (to_rfc3339 t) = Ok t;
  (** The instants a [DateTime] represents; its arithmetic panics outside. *)
  representable : Z -> bool;
}.

(** ** [url]: the observations the source makes of a parsed URL *)

Record Url := {
  u_scheme : string;
  u_username : string;
  u_password : option string;
  u_host_str : option string;
  u_port : option Z;
  u_port_or_known_default : option Z;
  u_query : option string;
  u_fragment : option string;
  u_path : string;
  (** [url.origin().ascii_serialization()] *)
  u_origin : string;
  (** [url.as_str()], [url.to_string()] *)
  u_as_str : string;
  (** the serialization after [set_fragment(None)] *)
  u_without_fragment : string;
}.

Class UrlLib := { url_parse : string -> res Url }.

(** ** [serde_json::Value] *)

Class Json := {
  value : Type;
  value_eq_dec :: EqDecision value;
  jget : value -> string -> option value;
  as_str : value -> option string;
  as_bool : value -> option bool;
  as_u64 : value -> option Z;
  as_u64_range : forall v n, as_u64 v = Some n -> u64 n;
  is_null : value -> bool;
  as_str_not_null : forall v s, as_str v = Some s -> is_null v = false;
  (** [value.as_object().is_none_or(|o| o.is_empty())] is its negation *)
  is_nonempty_object : value -> bool;
}.

(** [serde_json::from_value] and [to_value] of the derived implementations. *)
Class SerdeValue `{!Json} (T : Type) := {
  to_value : T -> res value;
  from_value : value -> res T;
  from_value_to_value : forall x v, to_value x = Ok v -> from_value v = Ok x;
}.

(** The [json!] objects the source builds: keys are distinct literals. *)
Class JsonBuild `{!Json} := {
  jstring : string -> value;
  jobject : list (string * value) -> value;
  jnull : value;
  jbool : bool -> value;
  jnumber : Z -> value;
  jarray : list value -> value;
  as_str_jstring : forall s, as_str (jstring s) = Some s;
  as_bool_jbool : forall b, as_bool (jbool b) = Some b;
  jget_jobject : forall l k v, NoDup (map fst l) -> (k, v) ∈ l -> jget (jobject l) k = Some v;
}.

(** [serde_json::Value] as a tree that is taken apart and updated. *)
Class JsonTree `{!Json} := {
  as_array : value -> option (list value);
  jsize : value -> nat;
  jget_smaller : forall v k u, jget v k = Some u -> (jsize u < jsize v)%nat;
  (** [v.as_object_mut()?.insert(k, x)] *)
  jinsert : string -> value -> value -> option value;
  jget_jinsert : forall k x v w, jinsert k x v = Some w -> jget w k = Some x;
  jget_jinsert_ne : forall k x v w k', jinsert k x v = Some w -> k' <> k -> jget w k' = jget v k';
  (** [v[k] = x]; [None] when indexing panics *)
  jindex_set : string -> value -> value -> option value;
  jget_jindex_set : forall k x v w, jindex_set k x v = Some w -> jget w k = Some x;
  jget_jindex_set_ne : forall k x v w k',
    jindex_set k x v = Some w -> k' <> k -> jget w k' = jget v k';
  as_i64 : value -> option Z;
  (** [v.as_object().map(|o| o.len())] *)
  object_len : value -> option nat;
}.

(** [v.pointer("/a/b")] for keys that are not array indices. *)
Definition jpointer `{!Json} (v : value) (path : list string) : option value :=
  foldl (fun o key => o ≫= fun u => jget u key) (Some v) path.
(** [v.get(k).and_then(Value::as_str)], [v[k].as_str()]. *)
Definition jstr `{!Json} (v : value) (key : string) : option string := jget v key ≫= as_str.

(** Scalars of the [json!] arrays the source serializes. *)
Inductive Scalar := SStr (s : string) | SNull | SBool (b : bool).
#[export] Instance Scalar_eq_dec : EqDecision Scalar.
Proof. solve_decision. Defined.

(** ** Big-endian machine words: [u64::to_be_bytes] *)

Definition byte_at (z : Z) (i : Z) : ascii :=
  ascii_of_N (Z.to_N (Z.land (Z.shiftr z (8 * i)) 255)).
Definition u64_to_be_bytes (z : Z) : string :=
  of_bytes (map (byte_at z) [7; 6; 5; 4; 3; 2; 1; 0]%Z).

Section hex_lemmas.
Context `{!Oracle, !Crypto}.

(** A hex-encoded random or digest value is a lower-case 64-character name. *)
Lemma hex_encode_lower_hex s : zlen s = 32%Z -> lower_hex (hex_encode s) 64 = true.
Proof.
  intros Hlen. unfold lower_hex. rewrite hex_encode_len, hex_encode_lower, Hlen. done.
Qed.
End hex_lemmas.
