(* ===== verification/Toy.v ===== *)
(** * Concrete environments

    Instances of the interfaces of [Env.v] that meet their laws: a fault-free
    oracle and one that fails from a given tick on, toy cryptography, and a
    construction of lawful (de)serializers. The witnesses evaluate the model in
    these environments. *)

From S2P Require Import Prelude RustStr Env.
From Stdlib Require Import Ascii.

Local Open Scope Z_scope.

Module Toy.

(** ** Operating systems *)

Definition repeat_byte (c : ascii) (n : Z) : string := of_bytes (replicate (Z.to_nat n) c).

Lemma repeat_byte_len c n : 0 <= n -> zlen (repeat_byte c n) = n.
Proof.
  intros Hn. unfold zlen, repeat_byte. rewrite <-length_bytes_of, bytes_of_of_bytes.
  rewrite length_replicate. lia.
Qed.

Definition toy_random (t : nat) (n : Z) : option string :=
  if 0 <=? n then Some (repeat_byte (ascii_of_nat (t mod 256)) n) else None.
Lemma toy_random_len t n s : toy_random t n = Some s -> zlen s = n.
Proof.
  unfold toy_random. destruct (Z.leb_spec 0 n); intros; simplify_eq. by apply repeat_byte_len.
Qed.

(** Calls succeed before tick [crash] and fail from then on. *)
Definition crashing_oracle (crash : nat) : Oracle := {|
  o_sys := fun t => if (t <? crash)%nat then Done else Fault 3;
  o_random := toy_random;
  o_random_len := toy_random_len;
  o_euid := 1000;
  o_umask := 63;
|}.
Definition toy_oracle : Oracle := {|
  o_sys := fun _ => Done;
  o_random := toy_random;
  o_random_len := toy_random_len;
  o_euid := 1000;
  o_umask := 63;
|}.

(** ** Cryptography *)

Definition fit (n : nat) (l : list ascii) : string :=
  of_bytes (take n (l ++ replicate n "."%char)).
Lemma fit_len n l : zlen (fit n l) = Z.of_nat n.
Proof.
  unfold zlen, fit. rewrite <-length_bytes_of, bytes_of_of_bytes.
  rewrite length_take, length_app, length_replicate. lia.
Qed.

Definition hex_digit (n : N) : ascii :=
  ascii_of_N (if n <? 10 then 48 + n else 87 + n)%N.
Definition hex_byte (c : ascii) : list ascii :=
  [hex_digit (N_of_ascii c / 16); hex_digit (N_of_ascii c mod 16)]%N.
Definition toy_hex (s : string) : string := of_bytes (concat (map hex_byte (bytes_of s))).

Lemma hex_byte_lower c : forallb is_lower_hex (hex_byte c) = true.
Proof. destruct c as [[] [] [] [] [] [] [] []]; reflexivity. Qed.
Lemma toy_hex_len s : zlen (toy_hex s) = 2 * zlen s.
Proof.
  unfold zlen, toy_hex. rewrite <-!length_bytes_of, bytes_of_of_bytes.
  induction (bytes_of s) as [|c l IH]; [done|]. cbn [map concat]. rewrite length_app.
  cbn [length hex_byte]. lia.
Qed.
Lemma toy_hex_lower s : bytes_all is_lower_hex (toy_hex s) = true.
Proof.
  unfold bytes_all, toy_hex. rewrite bytes_of_of_bytes.
  induction (bytes_of s) as [|c l IH]; [done|]. cbn [map concat].
  by rewrite forallb_app, hex_byte_lower, IH.
Qed.

(** Encryption appends a tag computed from the key and the associated data. *)
Definition toy_tag (k n a : string) : string :=
  fit 16 (rev (bytes_of a) ++ bytes_of k ++ bytes_of n).
Definition toy_encrypt (k n a m : string) : option string := Some (m +:+ toy_tag k n a).
Definition toy_decrypt (k n a c : string) : option string :=
  let len := (String.length c - 16)%nat in
  let m := of_bytes (take len (bytes_of c)) in
  if c == m +:+ toy_tag k n a then Some m else None.

Lemma toy_decrypt_encrypt k n a m c :
  toy_encrypt k n a m = Some c -> toy_decrypt k n a c = Some m.
Proof.
  unfold toy_encrypt, toy_decrypt. intros [= <-]. cbv zeta.
  assert (of_bytes (take (String.length (m +:+ toy_tag k n a) - 16)
    (bytes_of (m +:+ toy_tag k n a))) = m) as ->.
  { rewrite string_app_length, bytes_of_app.
    pose proof (fit_len 16 (rev (bytes_of a) ++ bytes_of k ++ bytes_of n)) as Hlen.
    unfold zlen in Hlen. unfold toy_tag.
    replace (String.length m + String.length _ - 16)%nat with (length (bytes_of m)).
    - rewrite take_app_length. apply of_bytes_bytes_of.
    - rewrite length_bytes_of. lia. }
  by rewrite bool_decide_true.
Qed.
Lemma toy_encrypt_len k n a m c : toy_encrypt k n a m = Some c -> zlen c = zlen m + 16.
Proof.
  unfold toy_encrypt. intros [= <-]. rewrite zlen_app. unfold toy_tag. by rewrite fit_len.
Qed.

Definition toy_crypto : Crypto := {|
  sha256 := fun s => fit 32 (bytes_of s);
  sha256_len := fun s => fit_len 32 (bytes_of s);
  hmac_sha256 := fun k s => fit 32 (rev (bytes_of s) ++ bytes_of k);
  hmac_sha256_len := fun k s => fit_len 32 (rev (bytes_of s) ++ bytes_of k);
  aead_encrypt := toy_encrypt;
  aead_decrypt := toy_decrypt;
  aead_decrypt_encrypt := toy_decrypt_encrypt;
  aead_encrypt_len := toy_encrypt_len;
  hex_encode := toy_hex;
  hex_encode_len := toy_hex_len;
  hex_encode_lower := toy_hex_lower;
|}.

(** ** Serialization

    Any pair of functions becomes lawful by serializing only the values that
    read back. *)
Section checked.
Context {T : Type} `{EqDecision T} (enc : T -> string) (dec : string -> option T).

Definition checked_to_vec (x : T) : option string :=
  if dec (enc x) == Some x then Some (enc x) else None.
Lemma checked_law x b : checked_to_vec x = Some b -> dec b = Some x.
Proof.
  unfold checked_to_vec. destruct (bool_decide_reflect (dec (enc x) = Some x));
    intros; by simplify_eq.
Qed.
Definition checked_serde : Serde T :=
  {| to_vec := checked_to_vec; from_slice := dec; from_slice_to_vec := checked_law |}.
End checked.

(** Natural numbers as runs of a letter. *)
Definition tally (n : nat) : string := of_bytes (replicate n "i"%char).
Definition untally (s : string) : nat := String.length s.
Definition bool_text (b : bool) : string := if b then "t" else "f".
(** Fields separated by a character that the toy values do not contain. *)
Fixpoint join (sep : string) (l : list string) : string :=
  match l with [] => "" | [a] => a | a :: l' => a +:+ sep +:+ join sep l' end.

(** ** JSON and URLs *)

Inductive ToyValue :=
| TNull
| TBool (b : bool)
| TNum (n : Z)
| TStr (s : string)
| TObj (fields : list (string * ToyValue)).

Fixpoint toy_eqb (a b : ToyValue) : bool :=
  match a, b with
  | TNull, TNull => true
  | TBool x, TBool y => Bool.eqb x y
  | TNum x, TNum y => x =? y
  | TStr x, TStr y => x == y
  | TObj l, TObj m =>
      (fix go (l m : list (string * ToyValue)) :=
         match l, m with
         | [], [] => true
         | (k, x) :: l', (k', y) :: m' => (k == k') && toy_eqb x y && go l' m'
         | _, _ => false
         end) l m
  | _, _ => false
  end.

Lemma toy_eqb_eq : forall a b, toy_eqb a b = true <-> a = b.
Proof.
  fix IH 1. intros [|x|x|x|l] [|y|y|y|m]; cbn; try (split; congruence).
  - rewrite Bool.eqb_true_iff. split; congruence.
  - rewrite Z.eqb_eq. split; congruence.
  - rewrite bool_decide_eq_true. split; congruence.
  - revert m. induction l as [|[k x] l IHl]; intros [|[k' y] m]; try (split; congruence).
    rewrite !andb_true_iff, bool_decide_eq_true, IH. specialize (IHl m). split.
    + intros [[-> ->] Hl]. apply IHl in Hl. congruence.
    + intros [= -> -> ->]. split; [done|]. by apply IHl.
Qed.
Definition toy_value_eq_dec : EqDecision ToyValue.
Proof.
  intros a b. destruct (toy_eqb a b) eqn:He; [left|right].
  - by apply toy_eqb_eq.
  - intros Hab%toy_eqb_eq. congruence.
Defined.

Definition toy_get (v : ToyValue) (k : string) : option ToyValue :=
  match v with
  | TObj fields => snd <$> List.find (fun p => p.1 == k) fields
  | _ => None
  end.
Definition toy_u64 (v : ToyValue) : option Z :=
  match v with TNum n => if (0 <=? n) && (n <=? u64_max) then Some n else None | _ => None end.
Lemma toy_u64_range v n : toy_u64 v = Some n -> u64 n.
Proof. destruct v; cbn; try done. unfold u64. case_match eqn:Hn; intros; simplify_eq. lia. Qed.
Definition toy_str (v : ToyValue) : option string := match v with TStr s => Some s | _ => None end.
Definition toy_null (v : ToyValue) : bool := match v with TNull => true | _ => false end.
Lemma toy_str_not_null v s : toy_str v = Some s -> toy_null v = false.
Proof. by destruct v. Qed.
Definition toy_json : Json := {|
  value := ToyValue;
  value_eq_dec := toy_value_eq_dec;
  jget := toy_get;
  as_str := toy_str;
  as_bool := fun v => match v with TBool b => Some b | _ => None end;
  as_u64 := toy_u64;
  as_u64_range := toy_u64_range;
  is_null := toy_null;
  as_str_not_null := toy_str_not_null;
  is_nonempty_object := fun v => match v with TObj (_ :: _) => true | _ => false end;
|}.

Lemma toy_get_object l k v : NoDup (map fst l) -> (k, v) ∈ l -> toy_get (TObj l) k = Some v.
Proof.
  cbn. induction l as [|[k' v'] l IH]; cbn; [set_solver|].
  intros [Hk Hl]%NoDup_cons [Hin|Hin]%elem_of_cons.
  - simplify_eq. by rewrite bool_decide_true.
  - rewrite bool_decide_false; [by apply IH|]. intros ->. apply Hk.
    apply list_elem_of_In, in_map_iff. exists (k, v). split; [done|]. by apply list_elem_of_In.
Qed.
Definition toy_build : @JsonBuild toy_json := {|
  jstring := TStr : string -> @value toy_json;
  jobject := TObj;
  jnull := TNull : @value toy_json;
  jbool := TBool : bool -> @value toy_json;
  jnumber := TNum : Z -> @value toy_json;
  jarray := fun l => TObj (map (pair ""%string) l);
  as_str_jstring := fun s => eq_refl;
  as_bool_jbool := fun b => eq_refl;
  jget_jobject := toy_get_object;
|}.

Fixpoint toy_size (v : ToyValue) : nat :=
  match v with
  | TObj fields => S (foldr (fun p n => toy_size p.2 + n)%nat 0%nat fields)
  | _ => 1%nat
  end.
Lemma toy_get_smaller v k u : toy_get v k = Some u -> (toy_size u < toy_size v)%nat.
Proof.
  destruct v as [| | | |l]; cbn; try done.
  induction l as [|[k' w] l IH]; cbn; [done|]. case_bool_decide; cbn.
  - intros [= ->]. lia.
  - intros Hu. specialize (IH Hu). lia.
Qed.
Definition toy_insert (k : string) (x v : ToyValue) : option ToyValue :=
  match v with
  | TObj fields => Some (TObj ((k, x) :: List.filter (fun p => p.1 != k) fields))
  | _ => None
  end.
Lemma toy_get_insert k x v w : toy_insert k x v = Some w -> toy_get w k = Some x.
Proof. destruct v; cbn; try done. intros [= <-]. cbn. by rewrite bool_decide_true. Qed.
Lemma toy_get_insert_ne k x v w k' :
  toy_insert k x v = Some w -> k' <> k -> toy_get w k' = toy_get v k'.
Proof.
  destruct v as [| | | |l]; cbn; try done. intros [= <-] Hne. cbn.
  rewrite bool_decide_false by done. f_equal.
  induction l as [|[k'' u] l IH]; cbn; [done|]. destruct (bool_decide_reflect (k'' = k)) as [->|Hk]; cbn.
  - by rewrite bool_decide_false.
  - by rewrite IH.
Qed.
Definition toy_array (v : ToyValue) : option (list ToyValue) :=
  match v with TObj fields => Some (map snd fields) | _ => None end.
Definition toy_index_set (k : string) (x v : ToyValue) : option ToyValue :=
  match v with TNull => Some (TObj [(k, x)]) | _ => toy_insert k x v end.
Lemma toy_get_index_set k x v w : toy_index_set k x v = Some w -> toy_get w k = Some x.
Proof.
  unfold toy_index_set. destruct v; try apply toy_get_insert. intros [= <-]. cbn.
  by rewrite bool_decide_true.
Qed.
Lemma toy_get_index_set_ne k x v w k' :
  toy_index_set k x v = Some w -> k' <> k -> toy_get w k' = toy_get v k'.
Proof.
  unfold toy_index_set. destruct v; try apply toy_get_insert_ne. intros [= <-] Hk. cbn.
  by rewrite bool_decide_false by done.
Qed.
Definition toy_tree : @JsonTree toy_json := {|
  as_array := toy_array : @value toy_json -> option (list (@value toy_json));
  jsize := toy_size;
  jget_smaller := toy_get_smaller;
  jinsert := toy_insert;
  jget_jinsert := toy_get_insert;
  jget_jinsert_ne := toy_get_insert_ne;
  jindex_set := toy_index_set;
  jget_jindex_set := toy_get_index_set;
  jget_jindex_set_ne := toy_get_index_set_ne;
  as_i64 := fun v : @value toy_json =>
    match v with TNum n => if (- 2 ^ 63 <=? n) && (n <? 2 ^ 63) then Some n else None | _ => None end;
  object_len := fun v : @value toy_json =>
    match v with TObj fields => Some (length fields) | _ => None end;
|}.

(** [scheme://host/...], already normalized. *)
Definition toy_url_parse (s : string) : res Url :=
  match split_on "/" s with
  | scheme :: "" :: host :: _ =>
      match split_once ":" scheme with
      | Some (scheme, "") =>
          Ok {| u_scheme := scheme; u_username := ""; u_password := None;
                u_host_str := Some host; u_port := None; u_port_or_known_default := Some 443;
                u_query := None; u_fragment := None; u_path := "/"; u_origin := scheme +:+ "://" +:+ host;
                u_as_str := s; u_without_fragment := s |}
      | _ => Err "invalid"
      end
  | _ => Err "invalid"
  end%string.
Definition toy_url : UrlLib := {| url_parse := toy_url_parse |}.

Definition scalar_text (x : Scalar) : string :=
  match x with SStr s => "s" +:+ s | SNull => "n" | SBool b => bool_text b end.
Definition scalar_parse (s : string) : option Scalar :=
  match s with
  | String "s" s => Some (SStr s)
  | "n" => Some SNull
  | "t" => Some (SBool true)
  | "f" => Some (SBool false)
  | _ => None
  end%string.
Definition toy_scalars : Serde (list Scalar) :=
  checked_serde (fun l => join ";" (map scalar_text l))
    (fun s => mapM scalar_parse (split_on ";"%char s)).

(** A successful run, with the world it leads to. *)
Lemma run_eq {W A} (m : SM W A) w r : (m w).1 = r -> m w = (r, (m w).2).
Proof. intros <-. by destruct (m w). Qed.

End Toy.
