(* ===== verification/Policy.v ===== *)
(** * Action policy

    Model of [cli/src/native/policy.rs]: the consequence categories of browser
    actions and their authority ranks, the confirmation categories taken from
    the environment, and the allow / deny / confirm policy file.

    [serde_json], the file system and the environment are arguments of the
    operations that use them. *)

From S2P Require Import Prelude RustStr.
From Stdlib Require Import Ascii.

Module Policy.

(** ** Data *)

Inductive PolicyResult :=
| Allow
| Deny (reason : string)
| RequiresConfirmation.

Inductive ActionConsequence :=
| ReadOnly | Navigation | PageMutation | ExternalMutation | FileTransfer
| Credentials | ScriptExecution | BrowserLifecycle | ControlPlane.

#[export] Instance PolicyResult_eq_dec : EqDecision PolicyResult.
Proof. solve_decision. Defined.
#[export] Instance ActionConsequence_eq_dec : EqDecision ActionConsequence.
Proof. solve_decision. Defined.

Definition as_str (c : ActionConsequence) : string :=
  match c with
  | ReadOnly => "read_only"
  | Navigation => "navigation"
  | PageMutation => "page_mutation"
  | ExternalMutation => "external_mutation"
  | FileTransfer => "file_transfer"
  | Credentials => "credentials"
  | ScriptExecution => "script_execution"
  | BrowserLifecycle => "browser_lifecycle"
  | ControlPlane => "control_plane"
  end.

Definition description (c : ActionConsequence) : string :=
  match c with
  | ReadOnly => "Read browser or service state without changing the page."
  | Navigation => "Change the selected page, history entry, or tab."
  | PageMutation => "Change page-local input or document state."
  | ExternalMutation =>
      "Interact with a page control that may commit an external effect."
  | FileTransfer => "Move a file into or out of the browser session."
  | Credentials => "Change authentication, cookie, storage, or permission state."
  | ScriptExecution => "Execute caller-supplied code in the page context."
  | BrowserLifecycle => "Change browser, target, attachment, or session lifecycle."
  | ControlPlane => "Change or inspect agent-browser control-plane state."
  end.

Definition parse (value : string) : option ActionConsequence :=
  if value == "read_only" then Some ReadOnly
  else if value == "navigation" then Some Navigation
  else if value == "page_mutation" then Some PageMutation
  else if value == "external_mutation" then Some ExternalMutation
  else if value == "file_transfer" then Some FileTransfer
  else if value == "credentials" then Some Credentials
  else if value == "script_execution" then Some ScriptExecution
  else if value == "browser_lifecycle" then Some BrowserLifecycle
  else if value == "control_plane" then Some ControlPlane
  else None.

Definition authority_rank (c : ActionConsequence) : Z :=
  match c with
  | ReadOnly => 0
  | Navigation => 1
  | PageMutation => 2
  | ExternalMutation => 3
  | FileTransfer => 4
  | Credentials => 5
  | ScriptExecution => 6
  | BrowserLifecycle => 7
  | ControlPlane => 8
  end.

Definition action_consequence (action : string) : ActionConsequence :=
  if one_of action
    ["url"; "title"; "content"; "read_page"; "inspect"; "snapshot"; "screenshot";
     "gettext"; "getattribute"; "gethtml"; "getstyles"; "count"; "getbox";
     "isvisible"; "isenabled"; "ischecked"; "console"; "errors"; "requests";
     "request_detail"; "cookies_get"; "storage_get"; "tab_list"; "browser_pid";
     "wait"; "cdp_url"; "diagnostics"; "probe"; "stream_status"; "state_list";
     "state_show"] then ReadOnly
  else if one_of action ["task_authority_status"; "broker_attach"] then ReadOnly
  else if action == "task_authority_reconcile" then ControlPlane
  else if one_of action
    ["navigate"; "back"; "forward"; "reload"; "tab_new"; "tab_switch"; "tab_reopen"]
    then Navigation
  else if one_of action
    ["fill"; "type"; "clear"; "focus"; "hover"; "scroll"; "scrollintoview";
     "setcontent"; "viewport"; "useragent"; "media"; "timezone"; "locale";
     "geolocation"; "headers"; "offline"] then PageMutation
  else if one_of action
    ["click"; "dblclick"; "press"; "select"; "check"; "uncheck"; "ui_action"; "dialog"]
    then ExternalMutation
  else if one_of action
    ["upload"; "download"; "wait_for_download"; "file_transfer"; "pdf"] then FileTransfer
  else if one_of action
    ["credentials_set"; "credentials_delete"; "auth_save"; "auth_delete"; "cookies_set";
     "cookies_clear"; "storage_set"; "storage_clear"; "permissions"] then Credentials
  else if action == "evaluate" then ScriptExecution
  else if one_of action
    ["launch"; "close"; "tab_close"; "cdp_attach"; "cdp_detach"; "cdp_free_launch";
     "external_byop_adopt"; "runtime_handoff_prepare"; "runtime_handoff_resume";
     "remote_view_open"; "view_takeover"] then BrowserLifecycle
  else ControlPlane.

(** ** Confirmation categories *)

Record ConfirmActions := { categories : gset string }.

(** [val] is the value of AGENT_BROWSER_CONFIRM_ACTIONS, [to_lowercase] the
    Unicode lowercase mapping of the standard library. *)
Definition from_env (to_lowercase : string -> string) (val : option string)
    : option ConfirmActions :=
  val ← val;
  if is_empty val then None else
  let categories : gset string :=
    list_to_set (filter (fun s => is_empty s = false)
      (map (fun s => to_lowercase (trim s)) (split_on ","%char val))) in
  if decide (categories = ∅) then None else Some {| categories := categories |}.

Definition requires_confirmation (self : ConfirmActions) (action : string) : bool :=
  let consequence := action_consequence action in
  bool_decide (action ∈ categories self)
  || bool_decide (as_str consequence ∈ categories self)
  || (bool_decide ("mutation" ∈ categories self)
      && match consequence with
         | PageMutation | ExternalMutation | FileTransfer | Credentials
         | ScriptExecution => true
         | _ => false
         end).

(** ** The policy file *)

Record ActionPolicy := {
  path : string;
  default : option string;
  allow : option (list string);
  deny : option (list string);
  confirm : option (list string);
}.

Section files.
(** [fs::read_to_string] and [serde_json::from_str], with their error texts;
    [#[serde(skip)]] makes the parsed [path] empty. *)
Context (read_to_string : string -> res string).
Context (from_str : string -> res ActionPolicy).

Definition with_path (p : ActionPolicy) (path : string) : ActionPolicy :=
  {| path := path; default := default p; allow := allow p; deny := deny p;
     confirm := confirm p |}.

Definition load (path : string) : res ActionPolicy :=
  match read_to_string path with
  | Err e => Err ("Failed to read policy file: " +:+ e)
  | Ok contents =>
      match from_str contents with
      | Err e => Err ("Invalid policy JSON: " +:+ e)
      | Ok policy => Ok (with_path policy path)
      end
  end.

Definition load_if_exists (env_var : string -> option string) : option ActionPolicy :=
  path ← match env_var "AGENT_BROWSER_ACTION_POLICY" with
         | Some p => Some p
         | None => env_var "AGENT_BROWSER_POLICY"
         end;
  match load path with Ok p => Some p | Err _ => None end.

(** [&mut self]: the policy after the call is the second component. *)
Definition reload : SM ActionPolicy unit := fun self =>
  match read_to_string (path self) with
  | Err e => (Err ("Failed to read policy file: " +:+ e), self)
  | Ok contents =>
      match from_str contents with
      | Err e => (Err ("Invalid policy JSON: " +:+ e), self)
      | Ok policy => (Ok tt, with_path policy (path self))
      end
  end.
End files.

(** The default of [ActionPolicy::check] when an allow list is present. *)
Definition is_default_allow (self : ActionPolicy) (allow : list string) : bool :=
  match default self with
  | Some d => eq_ignore_ascii_case d "allow"
  | None => match allow with [] => true | _ => false end
  end.

Definition check (self : ActionPolicy) (action : string) : PolicyResult :=
  if match deny self with Some deny => one_of action deny | None => false end
  then Deny (fmt ["Action '"; action; "' is denied by policy"])
  else if match confirm self with Some confirm => one_of action confirm | None => false end
  then RequiresConfirmation
  else match allow self with
       | Some allow =>
           if one_of action allow then Allow
           else if is_default_allow self allow then Allow
           else Deny (fmt ["Action '"; action; "' is not in the allow list"])
       | None =>
           match default self with
           | Some default =>
               if eq_ignore_ascii_case default "deny"
               then Deny (fmt ["Action '"; action; "' denied: default policy is deny"])
               else Allow
           | None => Allow
           end
       end.

(** ** Lemmas *)

Lemma parse_as_str c : parse (as_str c) = Some c.
Proof. by destruct c. Qed.

Lemma authority_rank_inj c c' : authority_rank c = authority_rank c' -> c = c'.
Proof. by destruct c, c'. Qed.

Lemma authority_rank_bounds c : (0 <= authority_rank c <= 8)%Z.
Proof. destruct c; cbn; lia. Qed.

(** The abstract policy: which list or default decides an action. *)
Definition listed (l : option (list string)) (action : string) : Prop :=
  exists xs, l = Some xs /\ In action xs.

Definition permitted_by_default (p : ActionPolicy) : Prop :=
  match allow p, default p with
  | Some [], None => True
  | Some _, None => False
  | Some _, Some d => eq_ignore_ascii_case d "allow" = true
  | None, Some d => eq_ignore_ascii_case d "deny" = false
  | None, None => True
  end.

Lemma listed_spec l action :
  match l with Some xs => one_of action xs | None => false end = true <-> listed l action.
Proof.
  unfold listed. destruct l as [xs|]; [rewrite one_of_In|]; naive_solver.
Qed.

(** ** Properties *)

(** The textual form of a consequence category determines it: [parse]
    accepts exactly the nine strings [as_str] produces and inverts it. *)
Theorem parse_iff value c : parse value = Some c <-> value = as_str c.
Proof.
  split; [|intros ->; apply parse_as_str].
  unfold parse. intros H.
  repeat (case_bool_decide; [by simplify_eq/=|]). done.
Qed.

(** Precedence of the policy file: an action is allowed exactly when no deny
    entry and no confirm entry names it and either the allow list names it or
    the default permits it; a deny entry wins over a confirm entry, and a
    confirm entry wins over the allow list and the default. *)
Theorem check_spec p action :
  (check p action = Allow <->
     ~ listed (deny p) action /\ ~ listed (confirm p) action /\
     (listed (allow p) action \/ permitted_by_default p)) /\
  (check p action = RequiresConfirmation <->
     ~ listed (deny p) action /\ listed (confirm p) action).
Proof.
  unfold check, is_default_allow, permitted_by_default.
  rewrite <-!listed_spec.
  destruct (match deny p with Some d => one_of action d | None => false end) eqn:?;
    [split; naive_solver|].
  destruct (match confirm p with Some d => one_of action d | None => false end) eqn:?;
    [split; naive_solver|].
  destruct (allow p) as [al|]; [destruct (one_of action al) eqn:Hal|].
  - split; naive_solver.
  - destruct (default p) as [d|], al; repeat case_match; split; naive_solver.
  - destruct (default p) as [d|]; repeat case_match; split; naive_solver.
Qed.

(** Confirmation categories: an action needs confirmation exactly when the
    categories name it, name its consequence, or name [mutation] while its
    consequence ranks from page mutation to script execution. *)
Theorem requires_confirmation_spec self action :
  requires_confirmation self action = true <->
  action ∈ categories self \/
  as_str (action_consequence action) ∈ categories self \/
  ("mutation" ∈ categories self /\
   (authority_rank PageMutation <= authority_rank (action_consequence action)
    <= authority_rank ScriptExecution)%Z).
Proof.
  unfold requires_confirmation.
  rewrite !orb_true_iff, andb_true_iff, !bool_decide_eq_true.
  destruct (action_consequence action); cbn; intuition (try lia; try done).
Qed.

(** Reloading is all or nothing: a failed reload keeps the policy in force,
    and a successful one installs what [load] returns for the same path. *)
Theorem reload_spec read_to_string from_str self :
  let '(r, self') := reload read_to_string from_str self in
  match r with
  | Err _ => self' = self
  | Ok _ => load read_to_string from_str (path self) = Ok self' /\ path self' = path self
  end.
Proof. unfold reload, load. repeat case_match; simplify_eq; done. Qed.

End Policy.
