(* ===== verification/SecretFs.v ===== *)
(** * The directory a private store lives in

    Operating-system layer of [cli/src/native/private_secret_store.rs]
    ([mod platform]): anchored directory traversal, advisory locks, and the
    create-new / read-optional file primitives every store operation is made
    of. A [World] holds the directories by inode; a handle names its directory
    by inode, so renames of ancestors do not move it. *)

From S2P Require Import Prelude RustStr Env.
From Stdlib Require Import Ascii.

Local Open Scope Z_scope.

Module SecretFs.

Definition INVALID : string := "private_store_invalid".
Definition UNAVAILABLE : string := "private_store_unavailable".
Definition MAX_FILES : Z := 4096.

(** ** State *)

Record Meta := { m_uid : Z; m_nlink : Z; m_mode : Z }.

Definition inode : Type := Z * Z.

(** A directory entry: regular file, symbolic link, directory, or any other
    special file. *)
Inductive Entry :=
| EFile (m : Meta) (bytes : string)
| ESymlink
| EDir (id : inode)
| ESpecial.

Record Directory := {
  d_meta : Meta;
  d_entries : gmap string Entry;
  (** [flock] state: open file description to "exclusive" *)
  d_locks : gmap nat bool;
}.

Record World := {
  w_dirs : gmap inode Directory;
  w_tick : nat;
  w_next_fd : nat;
}.

Definition with_dirs (f : gmap inode Directory -> gmap inode Directory) (w : World) : World :=
  {| w_dirs := f (w_dirs w); w_tick := w_tick w; w_next_fd := w_next_fd w |}.
Definition map_entries (f : gmap string Entry -> gmap string Entry) (d : Directory) : Directory :=
  {| d_meta := d_meta d; d_entries := f (d_entries d); d_locks := d_locks d |}.
Definition map_locks (f : gmap nat bool -> gmap nat bool) (d : Directory) : Directory :=
  {| d_meta := d_meta d; d_entries := d_entries d; d_locks := f (d_locks d) |}.
Definition update_entries (id : inode) (f : gmap string Entry -> gmap string Entry)
    (w : World) : World := with_dirs (alter (map_entries f) id) w.
Definition update_locks (id : inode) (f : gmap nat bool -> gmap nat bool)
    (w : World) : World := with_dirs (alter (map_locks f) id) w.
Definition tick (w : World) : World :=
  {| w_dirs := w_dirs w; w_tick := S (w_tick w); w_next_fd := w_next_fd w |}.

Section fs.
Context `{!Oracle}.

(** ** System calls *)

Definition sys : SM World outcome := fun w => (Ok (o_sys (w_tick w)), tick w).
(** A call whose failure is reported as UNAVAILABLE. *)
Definition sys_ok : SM World unit :=
  o ← sys; match o with Done => mret tt | Fault _ => sm_err UNAVAILABLE end.
Definition getrandom (n : Z) : SM World string := fun w =>
  match o_random (w_tick w) n with
  | Some s => (Ok s, tick w)
  | None => (Err UNAVAILABLE, tick w)
  end.
Definition get_dir (id : inode) : SM World Directory := fun w =>
  (ok_or UNAVAILABLE (w_dirs w !! id), w).
Definition fresh_fd : SM World nat := fun w =>
  (Ok (w_next_fd w),
   {| w_dirs := w_dirs w; w_tick := w_tick w; w_next_fd := S (w_next_fd w) |}).

(** [CString::new(value)]: an interior NUL byte is refused. *)
Definition name (value : string) : res string :=
  if bytes_any (fun c => Ascii.eqb c "000"%char) value then Err INVALID else Ok value.

(** Permission bits: 0o7777, 0o700, 0o022, 0o1000, 0o600. *)
Definition perm (mode : Z) : Z := Z.land mode 4095.

Definition valid_directory (id : inode) (private : bool) : SM World unit :=
  sys_ok ≫= fun _ =>
  d ← get_dir id;
  let m := d_meta d in
  if m_nlink m =? 0 then sm_err INVALID
  else if private then
    sm_reject_if (negb (m_uid m =? o_euid) || negb (perm (m_mode m) =? 448)) INVALID
  else
    sm_reject_if
      ((negb (m_uid m =? o_euid) && negb (m_uid m =? 0))
       || (negb (Z.land (m_mode m) 18 =? 0)
           && negb ((m_uid m =? 0) && negb (Z.land (m_mode m) 512 =? 0)))) INVALID.

(** ** Anchored traversal *)

Inductive Component := RootDir | CurDir | ParentDir | Prefix | Normal (part : string).

(** A path as [std::path] decomposes it. *)
Record Path := {
  p_is_absolute : bool;
  p_os_len : Z;
  p_components : list Component;
}.

(** The inode of "/". *)
Definition root_inode : inode := (0, 2).

Definition new_directory : Directory :=
  {| d_meta := {| m_uid := o_euid; m_nlink := 2; m_mode := Z.land 448 (Z.lnot o_umask) |};
     d_entries := ∅; d_locks := ∅ |}.

(** [mkdirat(current, part, 0o700)]: [true] when a directory was created. *)
Definition mkdirat (current : inode) (part : string) : SM World bool :=
  o ← sys;
  match o with
  | Fault _ => sm_err UNAVAILABLE
  | Done =>
      d ← get_dir current;
      match d_entries d !! part with
      | Some _ => mret false
      | None => fun w =>
          let id : inode := fresh (dom (w_dirs w)) in
          (Ok true,
           with_dirs (fun m => <[id := new_directory]>
             (alter (map_entries <[part := EDir id]>) current m)) w)
      end
  end.

(** [openat(current, part, O_DIRECTORY | O_NOFOLLOW)]. *)
Definition open_directory_at (current : inode) (part : string) : SM World inode :=
  sys_ok ≫= fun _ =>
  d ← get_dir current;
  match d_entries d !! part with
  | Some (EDir id) => mret id
  | _ => sm_err UNAVAILABLE
  end.

Fixpoint walk (private : bool) (current : inode) (parts : list Component) : SM World inode :=
  match parts with
  | [] => mret current
  | Normal bytes :: rest =>
      part ← sm_lift (name bytes);
      let final_component := match rest with [] => true | _ => false end in
      (if final_component then
         created ← mkdirat current part;
         if created : bool then sys_ok else mret tt
       else mret tt) ≫= fun _ =>
      next ← open_directory_at current part;
      valid_directory next (final_component && private) ≫= fun _ =>
      walk private next rest
  | _ :: _ => sm_err INVALID
  end.

Definition directory_with_mode (root : Path) (private : bool) : SM World inode :=
  if negb (p_is_absolute root) || (4096 <? p_os_len root) then sm_err INVALID else
  let components := p_components root in
  let n := Z.of_nat (length components) in
  if (n <? 2) || (128 <? n)
     || existsb (fun part => match part with Normal _ => false | _ => true end)
          (tail components)
  then sm_err INVALID else
  sys_ok ≫= fun _ =>
  valid_directory root_inode false ≫= fun _ =>
  walk private root_inode (tail components).

Definition directory (root : Path) : SM World inode := directory_with_mode root true.

(** [ensure_gate_base]: owned by this user and not writable by others. *)
Definition ensure_gate_base (root : Path) : SM World unit :=
  id ← directory_with_mode root false;
  sys_ok ≫= fun _ => (* directory.metadata() *)
  d ← get_dir id;
  sm_reject_if (negb (m_uid (d_meta d) =? o_euid) || negb (Z.land (m_mode (d_meta d)) 18 =? 0))
    INVALID.
Definition ensure_private_directory (root : Path) : SM World unit :=
  directory root ≫= fun _ => mret tt.

(** ** Paths as [std::path] parses and joins them *)

Definition path_components (s : string) : list Component :=
  let segments := filter (fun x => x <> ""%string) (split_on "/" s) in
  let component := fun i x =>
    if x == "."%string then (if Nat.eqb i 0 && negb (starts_with "/" s) then [CurDir] else [])
    else if x == ".."%string then [ParentDir] else [Normal x] in
  (if starts_with "/" s then [RootDir] else []) ++ concat (imap component segments).
Definition path_of (s : string) : Path :=
  {| p_is_absolute := starts_with "/" s; p_os_len := zlen s; p_components := path_components s |}.
(** [Path::join] *)
Definition path_join (base s : string) : string :=
  if starts_with "/" s then s
  else if (base == ""%string) || ends_with "/" base then base +:+ s
  else base +:+ "/" +:+ s.

(** ** Advisory locks *)

(** [flock(fd, mode | LOCK_NB)] on an open file description without a lock. *)
Definition flock_allowed (locks : gmap nat bool) (fd : nat) (exclusive : bool) : bool :=
  bool_decide (map_Forall (fun fd' ex => fd' = fd \/ (exclusive = false /\ ex = false)) locks).

Definition flock (id : inode) (fd : nat) (exclusive : bool) : SM World unit :=
  o ← sys;
  match o with
  | Fault _ => sm_err "private_store_busy"
  | Done =>
      d ← get_dir id;
      if flock_allowed (d_locks d) fd exclusive
      then sm_modify (update_locks id <[fd := exclusive]>)
      else sm_err "private_store_busy"
  end.
(** [flock(fd, LOCK_UN)]; the source ignores its result. *)
Definition funlock (id : inode) (fd : nat) (w : World) : World :=
  update_locks id (delete fd) w.

Record GateLease := { gl_fd : nat; gl_dir : inode; gl_owner_pid : Z }.

(** [Drop for GateLease], run by process [pid]: a forked child does not release
    the parent's lease. *)
Definition drop_lease (pid : Z) (lease : GateLease) (w : World) : World :=
  if gl_owner_pid lease =? pid then funlock (gl_dir lease) (gl_fd lease) w else w.

(** ** Files *)

Definition file_count (id : inode) : SM World Z :=
  sys_ok ≫= fun _ => (* openat "." *)
  sys_ok ≫= fun _ => (* fcntl F_DUPFD_CLOEXEC *)
  sys_ok ≫= fun _ => (* fdopendir *)
  sys_ok ≫= fun _ => (* readdir *)
  d ← get_dir id;
  let count := Z.of_nat (size (d_entries d)) in
  if MAX_FILES <? count then sm_err "private_store_full" else mret count.

Definition validate_file (m : Meta) (bytes : string) (max : Z) : SM World unit :=
  sys_ok ≫= fun _ =>
  sm_reject_if
    (negb (m_uid m =? o_euid) || negb (m_nlink m =? 1)
     || negb (perm (m_mode m) =? 384) || (max <? zlen bytes)) INVALID.

Definition read_optional (id : inode) (filename : string) (max : Z)
    : SM World (option string) :=
  filename ← sm_lift (name filename);
  sys_ok ≫= fun _ => (* openat *)
  d ← get_dir id;
  match d_entries d !! filename with
  | None => mret None
  | Some ESymlink => sm_err UNAVAILABLE
  | Some (EDir _) | Some ESpecial => sys_ok ≫= fun _ => sm_err INVALID
  | Some (EFile m bytes) =>
      validate_file m bytes max ≫= fun _ =>
      sys_ok ≫= fun _ => (* read *)
      validate_file m bytes max ≫= fun _ =>
      if max <? zlen bytes then sm_err INVALID else mret (Some bytes)
  end.

Definition new_file_meta : Meta :=
  {| m_uid := o_euid; m_nlink := 1; m_mode := Z.land 384 (Z.lnot o_umask) |}.

(** [openat(O_CREAT | O_EXCL)] and the writes after it. *)
Definition create_new (id : inode) (filename bytes : string) : SM World unit :=
  o ← sys;
  match o with
  | Fault _ => sm_err UNAVAILABLE
  | Done =>
      d ← get_dir id;
      match d_entries d !! filename with
      | Some _ => sm_err "private_store_already_exists"
      | None =>
          if m_nlink (d_meta d) =? 0 then sm_err UNAVAILABLE else
          let write := fun b => update_entries id <[filename := EFile new_file_meta b]> in
          sm_modify (write ""%string) ≫= fun _ =>
          validate_file new_file_meta "" (zlen bytes) ≫= fun _ =>
          o ← sys; (* write_all *)
          match o with
          | Fault n => sm_modify (write (of_bytes (take n (bytes_of bytes)))) ≫= fun _ =>
                       sm_err UNAVAILABLE
          | Done => sm_modify (write bytes) ≫= fun _ =>
                    sys_ok ≫= fun _ => (* file.sync_all *)
                    sys_ok             (* directory.sync_all *)
          end
      end
  end.

Definition create (id : inode) (filename bytes : string) : SM World unit :=
  n ← file_count id;
  if MAX_FILES <=? n then sm_err "private_store_full" else
  filename ← sm_lift (name filename);
  create_new id filename bytes.

(** [renameat] within the directory. *)
Definition rename (id : inode) (from to : string) : SM World unit :=
  sys_ok ≫= fun _ =>
  d ← get_dir id;
  match d_entries d !! from with
  | None => sm_err UNAVAILABLE
  | Some e => sm_modify (update_entries id (fun m => <[to := e]> (delete from m)))
  end.

(** [unlinkat]. *)
Definition unlink (id : inode) (filename : string) : SM World unit :=
  sys_ok ≫= fun _ =>
  d ← get_dir id;
  match d_entries d !! filename with
  | Some (EFile _ _ | ESymlink | ESpecial) => sm_modify (update_entries id (delete filename))
  | _ => sm_err UNAVAILABLE
  end.
End fs.

(** ** The files of a world *)

Definition files (w : World) : gmap inode (gmap string Entry) := d_entries <$> w_dirs w.
Definition file (w : World) (id : inode) (f : string) : option Entry :=
  files w !! id ≫= fun m => m !! f.

Definition same_files : relation World := fun w w' => files w' = files w.
(** Every entry whose name satisfies [P] is still there, unchanged. *)
Definition keeps (P : string -> Prop) : relation World := fun w w' =>
  forall id f e, file w id f = Some e -> P f -> file w' id f = Some e.

(** The contents of a regular file. *)
Definition content (w : World) (id : inode) (f : string) : option string :=
  match file w id f with Some (EFile _ b) => Some b | _ => None end.
(** The regular files whose place satisfies [P] are the same, with the same contents. *)
Definition same_content (P : inode -> string -> Prop) : relation World := fun w w' =>
  forall id f, P id f -> content w' id f = content w id f.

#[export] Instance same_files_refl : Reflexive same_files.
Proof. done. Qed.
#[export] Instance same_files_trans : Transitive same_files.
Proof. intros w1 w2 w3 H1 H2. unfold same_files in *. congruence. Qed.
#[export] Instance keeps_refl P : Reflexive (keeps P).
Proof. intros w id f e. done. Qed.
#[export] Instance keeps_trans P : Transitive (keeps P).
Proof. intros w1 w2 w3 H1 H2 id f e Hf HP. eauto. Qed.
#[export] Instance same_content_refl P : Reflexive (same_content P).
Proof. intros w id f. done. Qed.
#[export] Instance same_content_trans P : Transitive (same_content P).
Proof. intros w1 w2 w3 H1 H2 id f HP. rewrite H2, H1; done. Qed.

Lemma same_files_file w w' id f : same_files w w' -> file w' id f = file w id f.
Proof. unfold file. by intros ->. Qed.

Lemma same_files_keeps P w w' : same_files w w' -> keeps P w w'.
Proof. intros H id f e He _. by rewrite (same_files_file _ _ _ _ H). Qed.

Lemma same_files_same_content P w w' : same_files w w' -> same_content P w w'.
Proof. intros H id f _. unfold content. by rewrite (same_files_file w w'). Qed.

Lemma file_dir w id d f : w_dirs w !! id = Some d -> file w id f = d_entries d !! f.
Proof. intros H. unfold file, files. by rewrite lookup_fmap, H. Qed.

Lemma same_files_dirs w w' : w_dirs w' = w_dirs w -> same_files w w'.
Proof. unfold same_files, files. by intros ->. Qed.

Lemma same_files_locks w id g : same_files w (update_locks id g w).
Proof.
  unfold same_files, files, update_locks, with_dirs; cbn. apply map_eq. intros i.
  rewrite !lookup_fmap, lookup_alter. case_decide; subst; [|done].
  by destruct (w_dirs w !! i).
Qed.

Lemma file_update_entries w id g id' f :
  file (update_entries id g w) id' f =
  if decide (id = id') then files w !! id ≫= fun m => g m !! f else file w id' f.
Proof.
  unfold file, files, update_entries, with_dirs; cbn.
  rewrite !lookup_fmap, lookup_alter. case_decide; subst; [|done].
  by destruct (w_dirs w !! id').
Qed.

Lemma update_entries_update_entries w id g h :
  update_entries id g (update_entries id h w) = update_entries id (fun m => g (h m)) w.
Proof.
  unfold update_entries, with_dirs; cbn. f_equal. apply map_eq. intros i.
  rewrite !lookup_alter. repeat case_decide; try done. subst. by destruct (w_dirs w !! i).
Qed.

(** ** Frame interfaces

    A relation on worlds that the harmless system calls respect is a
    [SysFrame]; one that ignores everything but the files is a [FilesFrame]; one
    that survives locking through the open file description [fd] of directory
    [id] is a [HandleFrame]. The operations of the store are framed once, against
    these interfaces. *)

Class SysFrame (R : relation World) := {
  sf_refl :: Reflexive R;
  sf_trans :: Transitive R;
  sf_tick : forall w, R w (tick w);
  sf_fd : forall w, R w {| w_dirs := w_dirs w; w_tick := w_tick w; w_next_fd := S (w_next_fd w) |};
}.
Class FilesFrame (R : relation World) := {
  ff_sys :: SysFrame R;
  ff_same : forall w w', same_files w w' -> R w w';
}.
Class HandleFrame `{!Oracle} (R : relation World) (id : inode) (fd : nat) := {
  hf_sys :: SysFrame R;
  hf_flock : forall ex, preserves R (flock id fd ex);
  hf_funlock : forall w, R w (funlock id fd w);
}.

#[export] Instance same_files_sys_frame : SysFrame same_files.
Proof. by constructor; try apply _. Qed.
#[export] Instance same_files_frame : FilesFrame same_files.
Proof. by constructor; try apply _. Qed.
#[export] Instance keeps_frame P : FilesFrame (keeps P).
Proof.
  constructor; [constructor; try apply _; intros w id f e; done|].
  intros w w' H. by apply same_files_keeps.
Qed.
#[export] Instance same_content_frame P : FilesFrame (same_content P).
Proof.
  constructor; [constructor; try apply _; intros w id f; done|].
  intros w w' H. by apply same_files_same_content.
Qed.

Section lemmas.
Context `{!Oracle} (R : relation World) `{!SysFrame R}.

Lemma frame_sys : preserves R sys.
Proof. intros w. apply sf_tick. Qed.
Lemma frame_getrandom n : preserves R (getrandom n).
Proof. intros w. unfold getrandom. case_match; apply sf_tick. Qed.
Lemma frame_get_dir id : preserves R (get_dir id).
Proof. intros w. unfold get_dir; cbn. done. Qed.
Lemma frame_fresh_fd : preserves R fresh_fd.
Proof. intros w. apply sf_fd. Qed.
#[local] Hint Resolve frame_sys frame_getrandom frame_get_dir frame_fresh_fd : frame.
Lemma frame_sys_ok : preserves R sys_ok.
Proof. unfold sys_ok. frame. Qed.
#[local] Hint Resolve frame_sys_ok : frame.
Lemma frame_valid_directory id private : preserves R (valid_directory id private).
Proof. unfold valid_directory. frame. Qed.
Lemma frame_file_count id : preserves R (file_count id).
Proof. unfold file_count. frame. Qed.
Lemma frame_validate_file m b max : preserves R (validate_file m b max).
Proof. unfold validate_file. frame. Qed.
#[local] Hint Resolve frame_valid_directory frame_file_count frame_validate_file : frame.
Lemma frame_read_optional id f max : preserves R (read_optional id f max).
Proof. unfold read_optional. frame. Qed.
End lemmas.

#[export] Hint Resolve frame_sys frame_sys_ok frame_getrandom frame_get_dir frame_fresh_fd
  frame_valid_directory frame_file_count frame_validate_file frame_read_optional : frame.

#[export] Instance files_handle_frame `{!Oracle} R id fd `{!FilesFrame R} : HandleFrame R id fd.
Proof.
  constructor; [apply _| |].
  - intros ex. unfold flock. frame.
    intros w. unfold sm_modify; cbn. apply ff_same, same_files_locks.
  - intros w. apply ff_same, same_files_locks.
Qed.
#[export] Hint Resolve hf_flock : frame.

(** ** Effects of the file primitives *)

Lemma files_update_entries w id g : files (update_entries id g w) = alter g id (files w).
Proof.
  unfold files, update_entries, with_dirs; cbn. apply map_eq. intros i.
  rewrite lookup_fmap, !lookup_alter, !lookup_fmap.
  repeat case_decide; try done; subst; by destruct (w_dirs w !! i).
Qed.

Lemma file_alter_insert w w' id f e f' :
  files w' = alter <[f := e]> id (files w) -> is_Some (files w !! id) ->
  file w' id f' = if decide (f = f') then Some e else file w id f'.
Proof.
  intros Hw' [m Hm]. unfold file. rewrite Hw', lookup_alter_eq, Hm; cbn.
  by rewrite lookup_insert.
Qed.

Lemma file_alter_ne w w' id g id' f' :
  files w' = alter g id (files w) -> id <> id' -> file w' id' f' = file w id' f'.
Proof. intros Hw' Hne. unfold file. by rewrite Hw', lookup_alter_ne. Qed.

Section effects.
Context `{!Oracle}.

(** What a [create] attempt can do: nothing, or add exactly the new file, with
    the full contents when it succeeds. *)
Definition created (id : inode) (f b : string) (r : res unit) (w w' : World) : Prop :=
  file w id f = None /\ is_Some (files w !! id) /\
  exists b', files w' = alter <[f := EFile new_file_meta b']> id (files w) /\
             (r = Ok tt -> b' = b).

Lemma sys_ok_inv w r w' : sys_ok w = (r, w') -> w' = tick w /\ (r = Ok tt \/ r = Err UNAVAILABLE).
Proof.
  unfold sys_ok, mbind, sm_bind, sys; cbn. destruct (o_sys (w_tick w)); cbn; intros [= <- <-];
    auto.
Qed.

Lemma get_dir_inv id w d w' : get_dir id w = (Ok d, w') -> w' = w /\ w_dirs w !! id = Some d.
Proof. unfold get_dir. destruct (w_dirs w !! id) eqn:?; cbn; intros; simplify_eq; done. Qed.

Lemma alter_insert_insert (m : gmap inode (gmap string Entry)) id f e e' :
  alter <[f:=e]> id (alter <[f:=e']> id m) = alter <[f:=e]> id m.
Proof.
  apply map_eq. intros i. rewrite !lookup_alter. repeat case_decide; try done.
  subst. destruct (m !! i); cbn; [|done]. by rewrite insert_insert_eq.
Qed.

Lemma files_tick_update w id g : files (update_entries id g (tick w)) = alter g id (files w).
Proof. by rewrite files_update_entries. Qed.

Lemma same_files_tick w : same_files w (tick w).
Proof. done. Qed.
#[local] Hint Resolve same_files_tick : core.

Lemma create_new_spec id f b w r w' :
  create_new id f b w = (r, w') ->
  (same_files w w' /\ r <> Ok tt) \/ created id f b r w w'.
Proof.
  unfold create_new. intros Hrun.
  apply sm_bind_inv in Hrun as [(o & w1 & [= <- <-] & Hrun)|(e & [= ] & _)].
  destruct (o_sys (w_tick w)); [|injection Hrun as <- <-; left; by split].
  apply sm_bind_inv in Hrun as [(d & w1 & [-> Hd]%get_dir_inv & Hrun)|(e & Hd & ->)].
  2:{ unfold get_dir in Hd. injection Hd as _ <-. left; by split. }
  destruct (d_entries d !! f) eqn:Hf; [injection Hrun as <- <-; left; by split|].
  destruct (m_nlink (d_meta d) =? 0); [injection Hrun as <- <-; left; by split|].
  right. split; [by rewrite (file_dir w _ _ _ Hd)|].
  split; [unfold files; rewrite lookup_fmap; rewrite (Hd : w_dirs w !! id = _); by eexists|].
  cbv zeta in Hrun.
  apply sm_bind_inv in Hrun as [([] & w0 & Hw0 & Hrun)|(e & [= ] & _)].
  unfold sm_modify in Hw0. injection Hw0 as Hw0.
  assert (Hf0 : files w0 = alter <[f:=EFile new_file_meta ""]> id (files w))
    by (subst w0; apply files_tick_update).
  assert (Hover : forall b2 w2, files w2 = files w0 ->
    files (update_entries id <[f:=EFile new_file_meta b2]> w2)
    = alter <[f:=EFile new_file_meta b2]> id (files w)).
  { intros b2 w2 Hw2. rewrite files_update_entries, Hw2, Hf0. apply alter_insert_insert. }
  apply sm_bind_inv in Hrun as [(u & w1 & Hv & Hrun)|(e & Hv & ->)];
    frame_in same_files Hv; [|by exists ""; rewrite <-Hf0].
  apply sm_bind_inv in Hrun as [(o & w2 & [= <- <-] & Hrun)|(e & [= ] & _)].
  destruct (o_sys (w_tick w1)).
  - exists b. split; [|done]. rewrite <-(Hover b (tick w1)) by done.
    apply sm_bind_inv in Hrun as [([] & w3 & [= <-] & Hrun)|(e & [= ] & _)].
    eapply (preserves_run same_files (sys_ok ≫= fun _ => sys_ok)); [frame|exact Hrun].
  - exists (of_bytes (take written (bytes_of b))).
    apply sm_bind_inv in Hrun as [([] & w3 & [= <-] & Hrun)|(e & [= ] & _)].
    injection Hrun as <- <-. split; [|done]. by rewrite <-(Hover _ (tick w1)).
Qed.

Lemma create_spec id f b w r w' :
  create id f b w = (r, w') ->
  (same_files w w' /\ r <> Ok tt) \/ created id f b r w w'.
Proof.
  unfold create. intros Hrun.
  apply sm_bind_inv in Hrun as [(n & w1 & Hw1 & Hrun)|(e & Hw1 & ->)];
    frame_in same_files Hw1; [|left; by split].
  destruct (MAX_FILES <=? n); [injection Hrun as <- <-; left; by split|].
  unfold name in Hrun.
  apply sm_bind_inv in Hrun as [(g & w2 & Hg & Hrun)|(e & [= _ <-] & ->)]; [|left; by split].
  unfold sm_lift in Hg. destruct (bytes_any _ f); injection Hg as Hg <-; [done|subst g].
  apply create_new_spec in Hrun as [[Hs Hr]|(Hn & Hid & b' & Hf & Hb)].
  - left. split; [by etrans|done].
  - right. unfold same_files in Hw1. unfold created, file in *. rewrite Hw1 in *. eauto 10.
Qed.

Lemma created_keeps P id f b r w w' : created id f b r w w' -> keeps P w w'.
Proof.
  intros (Hn & Hid & b' & Hf & _) id' f' e He _.
  destruct (decide (id = id')) as [->|Hne]; [|by rewrite (file_alter_ne _ _ _ _ _ _ Hf)].
  rewrite (file_alter_insert _ _ _ _ _ f' Hf Hid). case_decide; congruence.
Qed.

Lemma keeps_create P id f b : preserves (keeps P) (create id f b).
Proof.
  intros w. destruct (create id f b w) as [r w'] eqn:Hrun. cbn.
  apply create_spec in Hrun as [[Hs _]|Hc]; [by apply same_files_keeps|by eapply created_keeps].
Qed.

Lemma create_ok id f b w u w' :
  create id f b w = (Ok u, w') ->
  file w id f = None /\ file w' id f = Some (EFile new_file_meta b).
Proof.
  intros [[_ Hr]|(Hn & Hid & b' & Hf & Hb)]%create_spec; [by destruct u|].
  split; [done|]. rewrite (file_alter_insert _ _ _ _ _ f Hf Hid), decide_True by done.
  destruct u. by rewrite Hb.
Qed.

Lemma create_exists id f b w e u w' :
  file w id f = Some e -> create id f b w <> (Ok u, w').
Proof. intros Hf [Hn _]%create_ok. congruence. Qed.

(** [rename] and [unlink] change nothing but the two names, or nothing. *)
Lemma keeps_update_entries P w id g :
  (forall m f, P f -> g m !! f = m !! f) -> keeps P w (update_entries id g w).
Proof.
  intros Hg id' f e He HP. rewrite file_update_entries. case_decide; [|done]. subst id'.
  unfold file in He. destruct (files w !! id); cbn in *; [|done]. by rewrite Hg.
Qed.

Lemma same_content_update_entries P w id g :
  (forall m f, P id f -> g m !! f = m !! f) -> same_content P w (update_entries id g w).
Proof.
  intros Hg id' f HP. unfold content. rewrite file_update_entries. case_decide; [|done].
  subst id'. unfold file. destruct (files w !! id); cbn; [|done]. by rewrite Hg.
Qed.

Lemma rename_inv id from to w r w' :
  rename id from to w = (r, w') ->
  (w' = tick w /\ r <> Ok tt) \/
  (r = Ok tt /\ exists e, file w id from = Some e /\
   w' = update_entries id (fun m => <[to := e]> (delete from m)) (tick w)).
Proof.
  unfold rename. intros Hrun.
  apply sm_bind_inv in Hrun as [([] & w1 & Hs & Hrun)|(e & Hs & ->)];
    apply sys_ok_inv in Hs as [-> _]; [|by left].
  apply sm_bind_inv in Hrun as [(d & w1 & [-> Hd]%get_dir_inv & Hrun)|(e & [= _ <-] & ->)];
    [|by left].
  destruct (d_entries d !! from) as [e|] eqn:He; injection Hrun as <- <-; [right|by left].
  split; [done|]. exists e. split; [|done]. rewrite <-He. by rewrite (file_dir w _ _ _ Hd).
Qed.

Lemma unlink_inv id f w r w' :
  unlink id f w = (r, w') ->
  (w' = tick w /\ r <> Ok tt) \/ (r = Ok tt /\ w' = update_entries id (delete f) (tick w)).
Proof.
  unfold unlink. intros Hrun.
  apply sm_bind_inv in Hrun as [([] & w1 & Hs & Hrun)|(e & Hs & ->)];
    apply sys_ok_inv in Hs as [-> _]; [|by left].
  apply sm_bind_inv in Hrun as [(d & w1 & [-> Hd]%get_dir_inv & Hrun)|(e & [= _ <-] & ->)];
    [|by left].
  destruct (d_entries d !! f) as [[]|]; injection Hrun as <- <-; auto.
Qed.

Lemma keeps_rename P id from to :
  ~ P from -> ~ P to -> preserves (keeps P) (rename id from to).
Proof.
  intros Hfrom Hto w. destruct (rename id from to w) as [r w'] eqn:Hrun. cbn.
  apply rename_inv in Hrun as [[-> _]|(_ & e & _ & ->)]; [apply sf_tick|].
  apply (keeps_update_entries P (tick w)). intros m f HP.
  rewrite lookup_insert_ne, lookup_delete_ne by congruence. done.
Qed.

Lemma keeps_unlink P id f : ~ P f -> preserves (keeps P) (unlink id f).
Proof.
  intros Hf w. destruct (unlink id f w) as [r w'] eqn:Hrun. cbn.
  apply unlink_inv in Hrun as [[-> _]|[_ ->]]; [apply sf_tick|].
  apply (keeps_update_entries P (tick w)). intros m g HP. by rewrite lookup_delete_ne by congruence.
Qed.

Lemma same_content_create P id f b : ~ P id f -> preserves (same_content P) (create id f b).
Proof.
  intros HP w. destruct (create id f b w) as [r w'] eqn:Hrun. cbn.
  apply create_spec in Hrun as [[Hs _]|(Hn & Hid & b' & Hf & _)];
    [by apply same_files_same_content|].
  intros id' f' HP'. unfold content. destruct (decide (id = id')) as [->|Hne];
    [|by rewrite (file_alter_ne _ _ _ _ _ _ Hf)].
  rewrite (file_alter_insert _ _ _ _ _ f' Hf Hid). case_decide; congruence.
Qed.

Lemma same_content_rename P id from to :
  ~ P id from -> ~ P id to -> preserves (same_content P) (rename id from to).
Proof.
  intros Hfrom Hto w. destruct (rename id from to w) as [r w'] eqn:Hrun. cbn.
  apply rename_inv in Hrun as [[-> _]|(_ & e & _ & ->)]; [apply sf_tick|].
  apply (same_content_update_entries P (tick w)). intros m f HP.
  rewrite lookup_insert_ne, lookup_delete_ne by congruence. done.
Qed.

Lemma same_content_unlink P id f : ~ P id f -> preserves (same_content P) (unlink id f).
Proof.
  intros Hf w. destruct (unlink id f w) as [r w'] eqn:Hrun. cbn.
  apply unlink_inv in Hrun as [[-> _]|[_ ->]]; [apply sf_tick|].
  apply (same_content_update_entries P (tick w)). intros m g HP.
  by rewrite lookup_delete_ne by congruence.
Qed.

(** Creating the final component of a root adds a directory, nothing else. *)
Lemma mkdirat_inv current part w r w' :
  mkdirat current part w = (r, w') ->
  same_files w w' \/
  exists d, w_dirs w !! current = Some d /\ d_entries d !! part = None /\
    w_dirs w' = <[fresh (dom (w_dirs w)) := new_directory]>
      (alter (map_entries <[part := EDir (fresh (dom (w_dirs w)))]>) current (w_dirs w)) /\
    w_next_fd w' = w_next_fd w.
Proof.
  unfold mkdirat. intros Hrun.
  apply sm_bind_inv in Hrun as [(o & w1 & [= <- <-] & Hrun)|(e & [= ] & _)].
  destruct (o_sys (w_tick w)); [|injection Hrun as <- <-; by left].
  apply sm_bind_inv in Hrun as [(d & w1 & [-> Hd]%get_dir_inv & Hrun)|(e & [= _ <-] & ->)];
    [|by left].
  destruct (d_entries d !! part) eqn:Hp; injection Hrun as <- <-; [by left|right].
  exists d. done.
Qed.

Lemma file_mkdirat w w' current part d id f :
  let new := fresh (dom (w_dirs w)) in
  w_dirs w !! current = Some d ->
  w_dirs w' = <[new := new_directory]>
    (alter (map_entries <[part := EDir new]>) current (w_dirs w)) ->
  file w' id f =
    if decide (id = new) then None
    else if decide (id = current /\ f = part) then Some (EDir new) else file w id f.
Proof.
  intros new Hd Hw'. unfold file, files. rewrite Hw', !lookup_fmap, lookup_insert.
  destruct (decide (new = id)) as [->|Hne]; [by rewrite decide_True|].
  rewrite (decide_False (P := id = new)) by congruence. rewrite lookup_alter.
  destruct (decide (current = id)) as [->|Hc].
  - rewrite Hd. cbn. rewrite lookup_insert. destruct (decide (part = f)) as [->|Hf].
    + by rewrite decide_True.
    + by rewrite decide_False by naive_solver.
  - by rewrite decide_False by naive_solver.
Qed.

Lemma keeps_mkdirat P current part : preserves (keeps P) (mkdirat current part).
Proof.
  intros w. destruct (mkdirat current part w) as [r w'] eqn:Hrun. cbn.
  apply mkdirat_inv in Hrun as [Hs|(d & Hd & Hp & Hw' & _)]; [by apply same_files_keeps|].
  intros id f e He _. rewrite (file_mkdirat _ _ _ _ _ _ _ Hd Hw').
  case_decide as Hid; [|case_decide as Hf; [|done]].
  - subst id. exfalso. unfold file, files in He. rewrite lookup_fmap in He.
    rewrite (not_elem_of_dom_1 _ _ (is_fresh _)) in He. done.
  - destruct Hf as [-> ->]. rewrite (file_dir _ _ _ _ Hd) in He. congruence.
Qed.

Lemma same_content_mkdirat P current part : preserves (same_content P) (mkdirat current part).
Proof.
  intros w. destruct (mkdirat current part w) as [r w'] eqn:Hrun. cbn.
  apply mkdirat_inv in Hrun as [Hs|(d & Hd & Hp & Hw' & _)];
    [by apply same_files_same_content|].
  intros id f HP. unfold content. rewrite (file_mkdirat _ _ _ _ _ _ _ Hd Hw').
  case_decide as Hid; [|case_decide as Hf; [|done]].
  - subst id. unfold file, files. rewrite lookup_fmap.
    by rewrite (not_elem_of_dom_1 _ _ (is_fresh _)).
  - destruct Hf as [-> ->]. by rewrite (file_dir _ _ _ _ Hd), Hp.
Qed.

Lemma frame_walk R `{!SysFrame R} private current parts :
  (forall c p, preserves R (mkdirat c p)) -> preserves R (walk private current parts).
Proof.
  intros Hmk. revert current.
  induction parts as [|[] parts IH]; intros current; cbn; unfold open_directory_at; frame.
Qed.
Lemma frame_directory R `{!SysFrame R} root :
  (forall c p, preserves R (mkdirat c p)) -> preserves R (directory root).
Proof. intros Hmk. unfold directory, directory_with_mode. frame. by apply frame_walk. Qed.
Lemma frame_ensure_gate_base R `{!SysFrame R} root :
  (forall c p, preserves R (mkdirat c p)) -> preserves R (ensure_gate_base root).
Proof.
  intros Hmk. unfold ensure_gate_base, directory_with_mode. frame. by apply frame_walk.
Qed.
Lemma frame_ensure_directory R `{!SysFrame R} root :
  (forall c p, preserves R (mkdirat c p)) -> preserves R (ensure_private_directory root).
Proof. intros Hmk. unfold ensure_private_directory. frame. by apply frame_directory. Qed.

(** A successful read returned the file's contents, or the file is absent. *)
Lemma read_optional_ok id f max w o w' :
  read_optional id f max w = (Ok o, w') ->
  match o with
  | None => file w id f = None
  | Some b => exists m, file w id f = Some (EFile m b) /\ zlen b <= max
  end.
Proof.
  unfold read_optional. intros Hrun.
  apply sm_bind_ok in Hrun as (g & w1 & [Hg ->]%sm_lift_ok & Hrun).
  unfold name in Hg. destruct (bytes_any _ f); [done|]. injection Hg as <-.
  apply sm_bind_ok in Hrun as ([] & w1 & [-> _]%sys_ok_inv & Hrun).
  apply sm_bind_ok in Hrun as (d & w1 & [-> Hd]%get_dir_inv & Hrun).
  rewrite (file_dir w _ _ _ Hd).
  destruct (d_entries d !! f) as [[m b| | |]|] eqn:He; inv_ok.
  - destruct (max <? zlen b) eqn:Hmax; inv_ok. exists m. split; [done|lia].
  - done.
Qed.
End effects.

#[export] Hint Resolve keeps_create keeps_rename keeps_unlink
  same_content_create same_content_rename same_content_unlink keeps_mkdirat
  same_content_mkdirat frame_directory : frame.

(** The effect of a successful optional read in the hypotheses. *)
Ltac read_in :=
  match goal with
  | H : read_optional _ _ _ _ = (Ok (Some _), _) |- _ =>
      let meta := fresh "meta" in let Hf := fresh "Hf" in
      apply read_optional_ok in H as (meta & Hf & _)
  | H : read_optional _ _ _ _ = (Ok None, _) |- _ => apply read_optional_ok in H
  end.

(** Record [same_files] for every run in the context that keeps the files. *)
Ltac pose_same :=
  repeat match goal with
  | H : ?m ?w = (?r, ?w') |- _ =>
      lazymatch type of w with World => idtac end;
      lazymatch goal with _ : same_files w w' |- _ => fail | _ => idtac end;
      let Hs := fresh "Hs" in
      assert (same_files w w') as Hs
        by (apply (preserves_run same_files m w r w'); [by frame|exact H])
  end.
(** Compose recorded steps. *)
Ltac chain :=
  match goal with
  | |- same_files ?w ?w => reflexivity
  | H : same_files ?w ?w1 |- same_files ?w ?w' => transitivity w1; [exact H|chain]
  end.

End SecretFs.
