(* ===== verification/SecretStore.v ===== *)
(** * The private secret store

    Model of [platform::SecretStore] of
    [cli/src/native/private_secret_store.rs]: encrypted staging of operation
    payloads, irreversible admission, reservation and delivery receipts, and
    results, all as create-new files of one directory. The privacy gate kept in
    the same directory is in [GateStore.v].

    The properties are about arbitrary oracles (faults at any system call,
    hence crashes), and about arbitrary histories of store operations between
    the operations they relate. *)

From S2P Require Import Prelude RustStr Env SecretFs.
From Stdlib Require Import Ascii.
Import SecretFs.

Local Open Scope Z_scope.

Module SecretStore.

Definition MAX_SECRET_BYTES : Z := 65536.
Definition KEY : string := "store.key".
Definition MAGIC : string := "ABPS1".
Definition OVERHEAD : Z := 5 + 12 + 16.

(** A handle: the anchored directory, its open file description, the process
    that holds it ([std::process::id()]), and the key. The in-process mutex is
    subsumed by running each operation atomically. *)
Record SecretStore := { directory : inode; fd : nat; pid : Z; key : string }.

Section store.
Context `{!Oracle, !Crypto}.

Definition reference (reference : string) : res unit :=
  if lower_hex reference 64 then Ok tt else Err INVALID.

(** ** Locking *)

Definition lock (self : SecretStore) : SM World unit :=
  sys_ok ≫= fun _ => (* mutex.lock() *)
  valid_directory (directory self) true ≫= fun _ =>
  flock (directory self) (fd self) true.

Definition gate_key (self : SecretStore) : SM World unit :=
  o ← read_optional (directory self) KEY 32;
  current ← sm_lift (ok_or INVALID o);
  if current != key self then sm_err INVALID else mret tt.

(** [let _lock = self.checked_lock()?; body]: the guard's [Drop] unlocks on
    every path out of [body]. *)
Definition unlock_after {A} (self : SecretStore) (body : SM World A) : SM World A := fun w =>
  let '(r, w') := body w in (r, funlock (directory self) (fd self) w').
Definition locked {A} (self : SecretStore) (body : SM World A) : SM World A :=
  lock self ≫= fun _ => unlock_after self (gate_key self ≫= fun _ => body).

(** ** Authenticated encryption *)

Definition take_bytes (n : nat) (s : string) : string := of_bytes (take n (bytes_of s)).
Definition drop_bytes (n : nat) (s : string) : string := of_bytes (drop n (bytes_of s)).

Definition aad (reference role : string) : string :=
  fmt ["agent-browser-private-v1:"; role; ":"; reference].

Definition encrypt (self : SecretStore) (reference role bytes : string) : SM World string :=
  if MAX_SECRET_BYTES <? zlen bytes then sm_err INVALID else
  nonce ← getrandom 12;
  encrypted ← sm_lift (ok_or INVALID (aead_encrypt (key self) nonce (aad reference role) bytes));
  mret (fmt [MAGIC; nonce; encrypted]).

Definition decrypt (self : SecretStore) (ref role : string) : SM World string :=
  sm_lift (reference ref) ≫= fun _ =>
  o ← read_optional (directory self) (fmt [ref; "."; role]) (MAX_SECRET_BYTES + OVERHEAD);
  envelope ← sm_lift (ok_or INVALID o);
  if (zlen envelope <? OVERHEAD) || negb (starts_with MAGIC envelope) then sm_err INVALID else
  sm_lift (ok_or INVALID
    (aead_decrypt (key self) (take_bytes 12 (drop_bytes 5 envelope)) (aad ref role)
       (drop_bytes 17 envelope))).

Definition reservation_fingerprint (self : SecretStore) (domain : string)
    (parts : list string) : string :=
  let derived := hmac_sha256 (key self) "agent-browser-backup-reservation-key-v1" in
  let framed := fun part => u64_to_be_bytes (zlen part) +:+ part in
  hex_encode (hmac_sha256 derived (fmt (map framed (domain :: parts)))).

(** ** Staging and admission *)

Definition stage (self : SecretStore) (payload : string) : SM World string :=
  locked self (
    n ← file_count (directory self);
    if MAX_FILES <? n + 3 then sm_err "private_store_full" else
    random ← getrandom 32;
    let reference := hex_encode random in
    encrypted ← encrypt self reference "payload" payload;
    create (directory self) (fmt [reference; ".payload"]) encrypted ≫= fun _ =>
    mret reference).

Definition load (self : SecretStore) (reference : string) : SM World string :=
  locked self (decrypt self reference "payload").

(** [admit] of the source. *)
Definition admit_ (self : SecretStore) (reference : string) : SM World unit :=
  locked self (
    decrypt self reference "payload" ≫= fun _ =>
    create (directory self) (fmt [reference; ".admitted"]) "admitted-v1").

(** ** Reconciliation bookmarks *)

Definition bind_reconciliation (self : SecretStore) (epoch ref : string) : SM World unit :=
  locked self (
    sm_lift (reference epoch) ≫= fun _ =>
    sm_lift (reference ref) ≫= fun _ =>
    decrypt self ref "payload" ≫= fun _ =>
    let key := reservation_fingerprint self "reconciliation-bookmark" [epoch] in
    encrypted ← encrypt self key "reconciliation" ref;
    create (directory self) (fmt [key; ".reconciliation"]) encrypted).

Definition reconciliation_reference (self : SecretStore) (epoch : string) : SM World string :=
  locked self (
    sm_lift (reference epoch) ≫= fun _ =>
    let key := reservation_fingerprint self "reconciliation-bookmark" [epoch] in
    ref ← decrypt self key "reconciliation";
    sm_lift (reference ref) ≫= fun _ =>
    mret ref).

(** ** Reservations *)

(** The loop that normalizes a backup code: upper-case alphanumerics, spaces
    and hyphens dropped, anything else refused. *)
Fixpoint normalize_bytes (code : list ascii) : res (list ascii) :=
  match code with
  | [] => Ok []
  | byte :: rest =>
      if is_ascii_alphanumeric byte then
        rest ← normalize_bytes rest; Ok (to_ascii_uppercase byte :: rest)
      else if negb (Ascii.eqb byte " " || Ascii.eqb byte "-") then Err INVALID
      else normalize_bytes rest
  end.

Definition scope_ok (scope : string) (max : Z) : bool :=
  negb (is_empty scope) && (zlen scope <=? max) && bytes_all is_printable scope
  && (trim scope == scope).

Definition normalized_code (account_scope source_scope code : string) : res string :=
  reject_if (negb (scope_ok account_scope 512) || negb (scope_ok source_scope 2048)
             || is_empty code || (256 <? zlen code)) INVALID ≫= fun _ =>
  normalized ← normalize_bytes (bytes_of code);
  reject_if (match normalized with [] => true | _ => false end) INVALID ≫= fun _ =>
  Ok (of_bytes normalized).

(** [for (filename, error) in &reservations { if read_optional(..)?.is_some() .. }] *)
Definition refuse_existing (self : SecretStore) (max : Z) (reservation : string * string)
    : SM World unit :=
  o ← read_optional (directory self) reservation.1 max;
  match o with Some _ => sm_err reservation.2 | None => mret tt end.

Definition reservations (self : SecretStore) (ref account_scope source_scope normalized : string)
    : list (string * string) :=
  [(fmt [reservation_fingerprint self "staged-reference" [ref]; ".backup-reference"],
    "private_backup_reference_reserved");
   (fmt [reservation_fingerprint self "account-source" [account_scope; source_scope];
         ".backup-source"],
    "private_backup_source_reserved");
   (fmt [reservation_fingerprint self "account-code" [account_scope; normalized];
         ".backup-code"],
    "private_backup_code_reserved")]%string.

Definition reserve_backup_code (self : SecretStore)
    (ref consent_sha256 account_scope source_scope code : string) : SM World unit :=
  sm_lift (reference ref) ≫= fun _ =>
  sm_lift (reference consent_sha256) ≫= fun _ =>
  normalized ← sm_lift (normalized_code account_scope source_scope code);
  locked self (
    decrypt self ref "payload" ≫= fun _ =>
    let receipt := reservation_fingerprint self "consent-binding"
      [consent_sha256; ref; account_scope; source_scope; normalized] in
    let reservations := reservations self ref account_scope source_scope normalized in
    sm_iter (refuse_existing self 64) reservations ≫= fun _ =>
    n ← file_count (directory self);
    if MAX_FILES <? n + 3 then sm_err "private_store_full" else
    sm_iter (fun r => create (directory self) r.1 receipt) reservations).

(** The loop of [reserve_journey] over the references. *)
Fixpoint check_references (self : SecretStore) (earlier references : list string)
    : SM World unit :=
  match references with
  | [] => mret tt
  | ref :: rest =>
      sm_lift (reference ref) ≫= fun _ =>
      if one_of ref earlier then sm_err INVALID else
      decrypt self ref "payload" ≫= fun _ =>
      check_references self (earlier ++ [ref]) rest
  end.

Definition journey_consent_file (self : SecretStore) (consent_sha256 : string) : string :=
  fmt [reservation_fingerprint self "private-journey-consent" [consent_sha256];
       ".journey-consent"].

Definition reserve_journey (self : SecretStore) (consent_sha256 : string)
    (references : list string) : SM World unit :=
  sm_lift (reference consent_sha256) ≫= fun _ =>
  if negb (Nat.eqb (length references) 4) then sm_err INVALID else
  locked self (
    check_references self [] references ≫= fun _ =>
    let filename := journey_consent_file self consent_sha256 in
    refuse_existing self 64 (filename, "private_journey_consent_consumed"%string) ≫= fun _ =>
    n ← file_count (directory self);
    if MAX_FILES <? n + 1 then sm_err "private_store_full" else
    create (directory self) filename
      (reservation_fingerprint self "private-journey-references" references)).

(** ** Results and delivery *)

Definition store_result (self : SecretStore) (ref bytes : string) : SM World unit :=
  locked self (
    sm_lift (reference ref) ≫= fun _ =>
    o ← read_optional (directory self) (fmt [ref; ".admitted"]) 32;
    match o with
    | None => sm_err INVALID
    | Some _ =>
        encrypted ← encrypt self ref "result" bytes;
        create (directory self) (fmt [ref; ".result"]) encrypted
    end).

Definition admit_delivery (self : SecretStore) (ref : string) : SM World unit :=
  locked self (
    sm_lift (reference ref) ≫= fun _ =>
    o ← read_optional (directory self) (fmt [ref; ".result"]) (MAX_SECRET_BYTES + OVERHEAD);
    match o with
    | None => sm_err INVALID
    | Some _ =>
        create (directory self) (fmt [ref; ".delivery-admitted"]) "delivery-admitted-v1"
    end).

Definition dquote : string := String "034" "".
Definition delivery_receipt : string :=
  fmt ["{"; dquote; "installed"; dquote; ":true,"; dquote; "privacyReleased"; dquote;
       ":false}"].

Definition complete_delivery (self : SecretStore) (ref : string) : SM World unit :=
  locked self (
    sm_lift (reference ref) ≫= fun _ =>
    o ← read_optional (directory self) (fmt [ref; ".delivery-admitted"]) 32;
    if o != Some "delivery-admitted-v1"%string then sm_err INVALID else
    encrypted ← encrypt self ref "delivery" delivery_receipt;
    create (directory self) (fmt [ref; ".delivery"]) encrypted).

Definition load_result (self : SecretStore) (reference : string) : SM World string :=
  locked self (decrypt self reference "result").

Definition status (self : SecretStore) (reference : string) : SM World string :=
  locked self (
    decrypt self reference "payload" ≫= fun _ =>
    admitted ← read_optional (directory self) (fmt [reference; ".admitted"]) 32;
    match admitted with
    | None => mret "staged"%string
    | Some _ =>
        result ← read_optional (directory self) (fmt [reference; ".result"])
                   (MAX_SECRET_BYTES + OVERHEAD);
        match result with
        | None => mret "admitted"%string
        | Some _ => decrypt self reference "result" ≫= fun _ => mret "result_ready"%string
        end
    end).

(** ** Opening *)

Definition open (pid : Z) (root : Path) : SM World SecretStore :=
  dir ← SecretFs.directory root;
  fd ← fresh_fd;
  let store := {| directory := dir; fd := fd; pid := pid; key := "" |} in
  lock store ≫= fun _ =>
  key ← unlock_after store (
    o ← read_optional dir KEY 32;
    match o with
    | Some bytes => if zlen bytes =? 32 then mret bytes else sm_err INVALID
    | None =>
        n ← file_count dir;
        if negb (n =? 0) then sm_err INVALID else
        key ← getrandom 32;
        create dir KEY key ≫= fun _ => mret key
    end);
  mret {| directory := dir; fd := fd; pid := pid; key := key |}.

Definition same_directory (self other : SecretStore) : SM World bool :=
  sys_ok ≫= fun _ => sys_ok ≫= fun _ => mret (directory self == directory other).
End store.

(** ** Framing

    The names the operations of this file create end in one of these suffixes;
    a relation that such creations respect frames every operation. *)

Definition store_suffixes : list string :=
  [".payload"; ".admitted"; ".reconciliation"; ".backup-reference"; ".backup-source";
   ".backup-code"; ".journey-consent"; ".result"; ".delivery-admitted"; ".delivery"].

Class StoreFrame `{!Oracle} (R : relation World) (self : SecretStore) := {
  st_handle :: HandleFrame R (directory self) (fd self);
  st_create : forall r s b, one_of s store_suffixes = true ->
    preserves R (create (directory self) (fmt [r; s]) b);
}.
#[export] Hint Extern 2 (preserves _ (create _ (fmt [_; _]) _)) =>
  apply st_create; vm_compute; reflexivity : frame.

Section frames.
Context `{!Oracle, !Crypto} (R : relation World) (self : SecretStore).

Section sys.
Context `{!SysFrame R}.
Lemma frame_gate_key : preserves R (gate_key self).
Proof. unfold gate_key. frame. Qed.
Lemma frame_encrypt ref role b : preserves R (encrypt self ref role b).
Proof. unfold encrypt. frame. Qed.
Lemma frame_decrypt ref role : preserves R (decrypt self ref role).
Proof. unfold decrypt. frame. Qed.
Lemma frame_refuse_existing max r : preserves R (refuse_existing self max r).
Proof. unfold refuse_existing. frame. Qed.
#[local] Hint Resolve frame_gate_key frame_decrypt : frame.
Lemma frame_check_references e l : preserves R (check_references self e l).
Proof. revert e. induction l as [|r l IH]; intros e; cbn; frame. Qed.
End sys.
#[local] Hint Resolve frame_gate_key frame_encrypt frame_decrypt frame_refuse_existing
  frame_check_references : frame.

Lemma frame_unlock_after {A} (m : SM World A) `{!HandleFrame R (directory self) (fd self)} :
  preserves R m -> preserves R (unlock_after self m).
Proof.
  intros Hm w. unfold unlock_after. specialize (Hm w). destruct (m w) as [r w'].
  etrans; [exact Hm|]. apply hf_funlock.
Qed.

Lemma frame_lock `{!HandleFrame R (directory self) (fd self)} : preserves R (lock self).
Proof. unfold lock. frame. Qed.
Context `{!StoreFrame R self}.
#[local] Hint Resolve frame_lock : frame.
Lemma frame_locked {A} (m : SM World A) : preserves R m -> preserves R (locked self m).
Proof. intros Hm. unfold locked. frame. apply frame_unlock_after; [apply _|]. frame. Qed.

Ltac store_frame := intros; repeat first [apply frame_locked|frame_step].

Lemma frame_stage p : preserves R (stage self p).
Proof. unfold stage. store_frame. Qed.
Lemma frame_load r : preserves R (load self r).
Proof. unfold load. store_frame. Qed.
Lemma frame_admit r : preserves R (admit_ self r).
Proof. unfold admit_. store_frame. Qed.
Lemma frame_bind_reconciliation e r : preserves R (bind_reconciliation self e r).
Proof. unfold bind_reconciliation. store_frame. Qed.
Lemma frame_reconciliation_reference e : preserves R (reconciliation_reference self e).
Proof. unfold reconciliation_reference. store_frame. Qed.
Lemma frame_reserve_backup_code r c a s k : preserves R (reserve_backup_code self r c a s k).
Proof.
  unfold reserve_backup_code, reservations. cbv zeta. cbn [sm_iter fst snd]. store_frame.
Qed.
Lemma frame_reserve_journey c rs : preserves R (reserve_journey self c rs).
Proof. unfold reserve_journey, journey_consent_file. store_frame. Qed.
Lemma frame_store_result r b : preserves R (store_result self r b).
Proof. unfold store_result. store_frame. Qed.
Lemma frame_admit_delivery r : preserves R (admit_delivery self r).
Proof. unfold admit_delivery. store_frame. Qed.
Lemma frame_complete_delivery r : preserves R (complete_delivery self r).
Proof. unfold complete_delivery. store_frame. Qed.
Lemma frame_load_result r : preserves R (load_result self r).
Proof. unfold load_result. store_frame. Qed.
Lemma frame_status r : preserves R (status self r).
Proof. unfold status. store_frame. Qed.
End frames.

#[export] Hint Resolve frame_gate_key frame_encrypt frame_decrypt frame_refuse_existing
  frame_check_references frame_lock frame_stage frame_load frame_admit
  frame_bind_reconciliation frame_reconciliation_reference frame_reserve_backup_code
  frame_reserve_journey frame_store_result frame_admit_delivery frame_complete_delivery
  frame_load_result frame_status : frame.

(** ** Durable names

    Only command receipts ([.pending]), staged gate states ([.state-tmp]) and
    the gate state itself are ever removed or replaced. *)

Definition volatile_suffixes : list string := [".pending"; ".state-tmp"; ".gate-state"].
Definition durable_name (f : string) : Prop :=
  existsb (fun s => ends_with s f) volatile_suffixes = false.

Lemma durable_receipt r s :
  forallb (fun v => negb (ends_with v s) && negb (ends_with s v)) volatile_suffixes = true ->
  durable_name (fmt [r; s]).
Proof.
  rewrite forallb_forall. intros Hs. unfold durable_name. apply not_true_iff_false.
  intros (v & Hv & He)%existsb_exists. specialize (Hs v Hv).
  change (fmt [r; s]) with (r +:+ (s +:+ "")) in He. rewrite string_app_nil_r in He.
  apply ends_with_app_inv in He as [He|He]; rewrite He in Hs; [done|].
  by rewrite andb_comm in Hs.
Qed.

Lemma volatile_receipt r s :
  one_of s volatile_suffixes = true -> ~ durable_name (fmt [r; s]).
Proof.
  intros Hs Hd. apply one_of_In in Hs. unfold durable_name in Hd.
  assert (existsb (fun s' => ends_with s' (fmt [r; s])) volatile_suffixes = true)
    as Ht; [|congruence].
  apply existsb_exists. exists s. split; [done|].
  change (fmt [r; s]) with (r +:+ (s +:+ "")). rewrite string_app_nil_r. apply ends_with_app.
Qed.

#[export] Instance keeps_store_frame `{!Oracle} P self : StoreFrame (keeps P) self.
Proof. constructor; [apply _|]. intros. apply keeps_create. Qed.

(** ** Successful runs *)

(** What [decrypt] computes from the contents of an envelope file. *)
Definition unseal `{!Crypto} (k ref role envelope : string) : option string :=
  if (zlen envelope <? OVERHEAD) || negb (starts_with MAGIC envelope) then None else
  aead_decrypt k (take_bytes 12 (drop_bytes 5 envelope)) (aad ref role)
    (drop_bytes 17 envelope).

Lemma take_bytes_app a b : take_bytes (String.length a) (a +:+ b) = a.
Proof.
  unfold take_bytes. rewrite bytes_of_app, <-length_bytes_of, take_app_length.
  apply of_bytes_bytes_of.
Qed.
Lemma drop_bytes_app a b : drop_bytes (String.length a) (a +:+ b) = b.
Proof.
  unfold drop_bytes. rewrite bytes_of_app, <-length_bytes_of, drop_app_length.
  apply of_bytes_bytes_of.
Qed.
Lemma drop_bytes_drop_bytes n m s : drop_bytes n (drop_bytes m s) = drop_bytes (m + n) s.
Proof. unfold drop_bytes. by rewrite bytes_of_of_bytes, drop_drop. Qed.

Section runs.
Context `{!Oracle, !Crypto}.

Lemma getrandom_ok n w s w' : getrandom n w = (Ok s, w') -> zlen s = n /\ w' = tick w.
Proof.
  unfold getrandom. destruct (o_random (w_tick w) n) eqn:Hr; intros; simplify_eq.
  split; [|done]. by eapply o_random_len.
Qed.

Lemma reference_ok r u : reference r = Ok u -> lower_hex r 64 = true.
Proof. unfold reference. by destruct (lower_hex r 64). Qed.

Lemma unseal_seal k nonce ref role m c :
  zlen nonce = 12 -> aead_encrypt k nonce (aad ref role) m = Some c ->
  unseal k ref role (fmt [MAGIC; nonce; c]) = Some m.
Proof.
  intros Hn Hc. unfold unseal.
  change (fmt [MAGIC; nonce; c]) with (MAGIC +:+ (nonce +:+ (c +:+ ""))).
  rewrite string_app_nil_r.
  pose proof (aead_encrypt_len _ _ _ _ _ Hc) as Hlen. pose proof (zlen_nonneg m).
  assert (String.length nonce = 12%nat) as Hn' by (unfold zlen in Hn; lia).
  rewrite !zlen_app, Hn, Hlen. change (zlen MAGIC) with 5. unfold OVERHEAD.
  destruct (Z.ltb_spec (5 + (12 + (zlen m + 16))) (5 + 12 + 16)); [lia|].
  assert (starts_with MAGIC (MAGIC +:+ (nonce +:+ c)) = true) as ->
    by (apply starts_with_spec; by eexists). cbn [negb orb].
  rewrite <-(drop_bytes_drop_bytes 12 5 (MAGIC +:+ (nonce +:+ c)) : _ = drop_bytes 17 _).
  rewrite (drop_bytes_app MAGIC _ : drop_bytes 5 _ = _), <-Hn'. rewrite take_bytes_app, drop_bytes_app. by eapply aead_decrypt_encrypt.
Qed.

Lemma encrypt_ok self ref role m w b w' :
  encrypt self ref role m w = (Ok b, w') ->
  unseal (key self) ref role b = Some m /\ zlen m <= MAX_SECRET_BYTES /\
  zlen b = zlen m + OVERHEAD.
Proof.
  unfold encrypt. intros Hrun. destruct (Z.ltb_spec MAX_SECRET_BYTES (zlen m)); inv_ok.
  apply getrandom_ok in Hm as [Hlen _]. split_and!; [by apply unseal_seal|done|].
  change (fmt [MAGIC; v; v0]) with (MAGIC +:+ (v +:+ (v0 +:+ ""))).
  rewrite string_app_nil_r, !zlen_app, Hlen, (aead_encrypt_len _ _ _ _ _ Hr).
  change (zlen MAGIC) with 5. unfold OVERHEAD. lia.
Qed.

Lemma decrypt_ok self ref role w m w' :
  decrypt self ref role w = (Ok m, w') ->
  lower_hex ref 64 = true /\ same_files w w' /\
  exists meta b, file w (directory self) (fmt [ref; "."; role]) = Some (EFile meta b) /\
                 unseal (key self) ref role b = Some m.
Proof.
  intros Hrun. split; [|split; [by frame_in same_files Hrun|]]; unfold decrypt in Hrun; inv_ok.
  - by eapply reference_ok.
  - read_in. exists meta, v1. split; [done|].
    unfold unseal. destruct ((zlen v1 <? OVERHEAD) || _); by inv_ok.
Qed.

Lemma gate_key_ok self w u w' :
  gate_key self w = (Ok u, w') ->
  same_files w w' /\ exists meta, file w (directory self) KEY = Some (EFile meta (key self)).
Proof.
  intros Hrun. split; [by frame_in same_files Hrun|]. unfold gate_key in Hrun. inv_ok.
  read_in. exists meta.
  destruct (bool_decide_reflect (v0 = key self)) as [->|]; [done|discriminate].
Qed.

(** Locks and key checks aside, a successful operation is a successful body. *)
Lemma locked_ok {A} self (m : SM World A) w a w' :
  locked self m w = (Ok a, w') ->
  (exists meta, file w (directory self) KEY = Some (EFile meta (key self))) /\
  exists w1 w2, same_files w w1 /\ m w1 = (Ok a, w2) /\ same_files w2 w'.
Proof.
  unfold locked. intros (u & w1 & Hl & Hu)%sm_bind_ok. frame_in same_files Hl.
  unfold unlock_after in Hu.
  destruct ((gate_key self ≫= fun _ => m) w1) as [r w2] eqn:Hb. simplify_eq.
  apply sm_bind_ok in Hb as (u' & w3 & Hk & Hm).
  apply gate_key_ok in Hk as [Hs [meta Hk]]. split.
  - exists meta. by rewrite <-(same_files_file w w1).
  - exists w3, w2. split_and!; [by etrans|done|]. apply same_files_locks.
Qed.

Lemma stage_ok self payload w r w' :
  stage self payload w = (Ok r, w') ->
  lower_hex r 64 = true /\ zlen payload <= MAX_SECRET_BYTES /\
  file w (directory self) (fmt [r; ".payload"]) = None /\
  exists b, file w' (directory self) (fmt [r; ".payload"]) = Some (EFile new_file_meta b) /\
    unseal (key self) r "payload" b = Some payload /\ zlen b = zlen payload + OVERHEAD.
Proof.
  unfold stage. intros (_ & w1 & w2 & Hs & Hrun & Hs')%locked_ok. inv_ok.
  frame_in same_files Hm. destruct (MAX_FILES <? v + 3); [discriminate|]. inv_ok.
  pose proof (getrandom_ok _ _ _ _ Hm0) as [Hlen _]. frame_in same_files Hm0.
  pose proof (encrypt_ok _ _ _ _ _ _ _ Hm1) as (Hu & Hmax & Hb). frame_in same_files Hm1.
  apply create_ok in Hm2 as [Hn Hf].
  split; [by apply hex_encode_lower_hex|]. split; [done|]. split.
  - rewrite <-Hn. symmetry. apply same_files_file. by repeat (etrans; [eassumption|]).
  - exists v1. split; [|done]. by rewrite (same_files_file _ _ _ _ Hs').
Qed.

Lemma load_ok self r w p w' :
  load self r w = (Ok p, w') ->
  exists meta b, file w (directory self) (fmt [r; ".payload"]) = Some (EFile meta b) /\
                 unseal (key self) r "payload" b = Some p.
Proof.
  unfold load. intros (_ & w1 & w2 & Hs & Hrun & Hs')%locked_ok.
  apply decrypt_ok in Hrun as (_ & _ & meta & b & Hf & Hu).
  rewrite (same_files_file _ _ _ _ Hs) in Hf. eauto.
Qed.

End runs.

End SecretStore.
