(* ===== verification/GateStore.v ===== *)
(** * The privacy gate of a private store

    Model of the [gate_*] operations of [platform::SecretStore] and of
    [PrivateScope] in [cli/src/native/private_secret_store.rs]. The gate lives
    in files of the store directory: [privacy.lock] (the immutable anchor), the
    authenticated [GateState] record, [uncertain.lock] and one [.pending]
    receipt per command in flight; admission to it is by advisory locks. *)

From S2P Require Import Prelude RustStr Env SecretFs SecretStore.
From Stdlib Require Import Ascii.
Import SecretFs SecretStore.

Local Open Scope Z_scope.

Module GateStore.

Inductive CleanupCommit := Durable | ReconciledDurabilityUnknown.
#[export] Instance CleanupCommit_eq_dec : EqDecision CleanupCommit.
Proof. solve_decision. Defined.

(** ** The scope of a private interval *)

Record PrivateScope := {
  target_id : string;
  identity_digest : string;
  journey : list string;
  stage_ : nat;
}.

Definition hex64 (digest : string) : bool :=
  (zlen digest =? 64) && bytes_all is_ascii_hexdigit digest.

Definition validate (self : PrivateScope) : res unit :=
  let no_journey := match journey self with [] => true | _ => false end in
  if (16 <? Z.of_nat (length (journey self)))
     || (no_journey && negb (Nat.eqb (stage_ self) 0))
     || (negb no_journey
         && ((journey self !! stage_ self != Some (identity_digest self))
             || existsb (fun digest => negb (hex64 digest)) (journey self)))
  then Err "privacy_gate_invalid_scope"
  else if is_empty (target_id self) || (128 <? zlen (target_id self))
     || negb (bytes_all (fun byte => is_ascii_alphanumeric byte || Ascii.eqb byte "_"
                                     || Ascii.eqb byte "-") (target_id self))
     || negb (zlen (identity_digest self) =? 64)
     || negb (bytes_all is_ascii_hexdigit (identity_digest self))
  then Err "privacy_gate_invalid_scope"
  else Ok tt.

Definition journey_stage (self : PrivateScope) : option nat :=
  match journey self with [] => None | _ => Some (stage_ self) end.

(** ** The gate record *)

Definition STATE_REF : string :=
  "0000000000000000000000000000000000000000000000000000000000000000".
Definition STATE_ROLE : string := "gate-state".
Definition STATE_FILE : string := fmt [STATE_REF; "."; STATE_ROLE].

Record GateState := {
  epoch : string;
  clean : bool;
  device : Z;
  inode_ : Z;
  anchor_sha256 : string;
  scope : option PrivateScope;
}.

Definition set_clean (b : bool) (s : GateState) : GateState :=
  {| epoch := epoch s; clean := b; device := device s; inode_ := inode_ s;
     anchor_sha256 := anchor_sha256 s; scope := scope s |}.
Definition set_scope (sc : option PrivateScope) (s : GateState) : GateState :=
  {| epoch := epoch s; clean := clean s; device := device s; inode_ := inode_ s;
     anchor_sha256 := anchor_sha256 s; scope := sc |}.

Section gate.
Context `{!Oracle, !Crypto, !Serde GateState}.

(** ** Leases *)

(** A lease held by [body] is dropped when [body] fails. *)
Definition or_drop {A} (self : SecretStore) (lease : GateLease) (body : SM World A)
    : SM World A := fun w =>
  match body w with
  | (Ok a, w') => (Ok a, w')
  | (Err e, w') => (Err e, drop_lease (pid self) lease w')
  end.
(** A lease bound to [_lease]: dropped on every path. *)
Definition then_drop {A} (self : SecretStore) (lease : GateLease) (body : SM World A)
    : SM World A := fun w =>
  let '(r, w') := body w in (r, drop_lease (pid self) lease w').

Definition independent_lock (self : SecretStore) (exclusive : bool) : SM World GateLease :=
  valid_directory (directory self) true ≫= fun _ =>
  sys_ok ≫= fun _ => (* openat "." *)
  file ← fresh_fd;
  valid_directory (directory self) true ≫= fun _ =>
  flock (directory self) file exclusive ≫= fun _ =>
  mret {| gl_fd := file; gl_dir := directory self; gl_owner_pid := pid self |}.

(** [Self::open_gate]. *)
Definition open_gate (pid : Z) (root : Path) : SM World SecretStore :=
  dir ← SecretFs.directory root;
  fd ← fresh_fd;
  let store := {| directory := dir; fd := fd; pid := pid; key := "" |} in
  lease ← independent_lock store false;
  o ← then_drop store lease (
    o ← read_optional dir KEY 32;
    match o with
    | Some bytes => if zlen bytes =? 32 then mret (Some bytes) else sm_err INVALID
    | None => mret None
    end);
  match o with
  | Some key => mret {| directory := dir; fd := fd; pid := pid; key := key |}
  | None => open pid root
  end.

(** ** Reading and writing the gate record *)

Definition gate_state (self : SecretStore) : SM World (option GateState) :=
  o ← read_optional (directory self) STATE_FILE 2048;
  match o with
  | None => mret None
  | Some _ =>
      bytes ← decrypt self STATE_REF STATE_ROLE;
      state ← sm_lift (ok_or INVALID (from_slice bytes));
      sm_lift (match scope state with Some sc => validate sc | None => Ok tt end) ≫= fun _ =>
      sm_lift (reference (epoch state)) ≫= fun _ =>
      sys_ok ≫= fun _ => (* directory.metadata() *)
      o ← read_optional (directory self) "privacy.lock" 32;
      anchor ← sm_lift (ok_or INVALID o);
      if negb (device state =? (directory self).1) || negb (inode_ state =? (directory self).2)
         || (anchor_sha256 state != hex_encode (sha256 anchor))
      then sm_err INVALID else mret (Some state)
  end.

Definition write_gate_state (self : SecretStore) (state : GateState) : SM World CleanupCommit :=
  bytes ← sm_lift (ok_or INVALID (to_vec state));
  envelope ← encrypt self STATE_REF STATE_ROLE bytes;
  random ← getrandom 32;
  let temporary := fmt [hex_encode random; ".state-tmp"] in
  create (directory self) temporary envelope ≫= fun _ =>
  temporary ← sm_lift (name temporary);
  target ← sm_lift (name STATE_FILE);
  rename (directory self) temporary target ≫= fun _ =>
  o ← sys;
  mret (match o with Done => Durable | Fault _ => ReconciledDurabilityUnknown end).

Definition new_gate_state (self : SecretStore) (sc : option PrivateScope)
    : SM World GateState :=
  random ← getrandom 32;
  sys_ok ≫= fun _ => (* directory.metadata() *)
  o ← read_optional (directory self) "privacy.lock" 32;
  anchor ← sm_lift (ok_or INVALID o);
  mret {| epoch := hex_encode random; clean := false;
          device := (directory self).1; inode_ := (directory self).2;
          anchor_sha256 := hex_encode (sha256 anchor); scope := sc |}.

(** [if self.write_gate_state(&state)? != Durable { return Err(..) }]. *)
Definition write_durable (self : SecretStore) (state : GateState) : SM World unit :=
  c ← write_gate_state self state;
  if c != Durable then sm_err "privacy_gate_commit_unknown" else mret tt.

(** ** Admission *)

Definition is_clean (state : option GateState) : bool :=
  match state with Some state => clean state | None => false end.
Definition is_some {A} (o : option A) : bool := match o with Some _ => true | None => false end.

Definition gate_public_lease (self : SecretStore) : SM World GateLease :=
  lease ← independent_lock self false;
  or_drop self lease (
    gate_key self ≫= fun _ =>
    o ← read_optional (directory self) "privacy.lock" 32;
    locked ← (match o with
              | Some _ => st ← gate_state self; mret (negb (is_clean st))
              | None => mret false
              end);
    if locked : bool then sm_err "privacy_gate_locked" else
    gate_state self ≫= fun _ =>
    mret lease).

Definition gate_public_epoch (self : SecretStore) : SM World (option string) :=
  gate_key self ≫= fun _ =>
  st ← gate_state self;
  match st with
  | Some state => if clean state then mret (Some (epoch state)) else sm_err "privacy_gate_locked"
  | None =>
      o ← read_optional (directory self) "privacy.lock" 32;
      match o with Some _ => sm_err "privacy_gate_locked" | None => mret None end
  end.

Definition gate_begin_private_with_scope (self : SecretStore) (sc : option PrivateScope)
    : SM World (GateLease * string) :=
  lease ← independent_lock self true;
  or_drop self lease (
    gate_key self ≫= fun _ =>
    anchor ← read_optional (directory self) "privacy.lock" 32;
    state ← gate_state self;
    if is_some anchor && negb (is_clean state) then sm_err "privacy_gate_locked" else
    uncertain ← read_optional (directory self) "uncertain.lock" 32;
    if is_some uncertain then sm_err "privacy_gate_uncertain" else
    n ← file_count (directory self);
    if negb (n =? (if is_some state then 3 else 1)) then sm_err "privacy_gate_pending" else
    (if is_some anchor then mret tt
     else create (directory self) "privacy.lock" "private-v1") ≫= fun _ =>
    state ← new_gate_state self sc;
    write_durable self state ≫= fun _ =>
    mret (lease, epoch state)).

Definition gate_begin_private (self : SecretStore) : SM World (GateLease * string) :=
  gate_begin_private_with_scope self None.

Definition gate_begin_private_scoped (self : SecretStore) (target digest : string)
    : SM World (GateLease * string) :=
  let sc := {| target_id := target; identity_digest := digest; journey := []; stage_ := 0 |} in
  sm_lift (validate sc) ≫= fun _ =>
  gate_begin_private_with_scope self (Some sc).

Definition gate_begin_private_journey (self : SecretStore) (target : string)
    (digests : list string) : SM World (GateLease * string) :=
  first ← sm_lift (ok_or INVALID (head digests));
  let sc := {| target_id := target; identity_digest := first; journey := digests;
               stage_ := 0 |} in
  sm_lift (validate sc) ≫= fun _ =>
  gate_begin_private_with_scope self (Some sc).

Definition gate_resume_private (self : SecretStore) : SM World (GateLease * string) :=
  lease ← independent_lock self true;
  or_drop self lease (
    gate_key self ≫= fun _ =>
    o ← read_optional (directory self) "privacy.lock" 32;
    if negb (is_some o) then sm_err "privacy_gate_not_locked" else
    st ← gate_state self;
    match st with
    | Some state =>
        if clean state then sm_err "privacy_gate_already_clean" else mret (lease, epoch state)
    | None =>
        state ← new_gate_state self None;
        write_durable self state ≫= fun _ =>
        mret (lease, epoch state)
    end).

(** ** Permits *)

(** The permit is the [File] of a lease; the checks use its directory. *)
Definition gate_permit_matches (self : SecretStore) (permit : inode) : SM World unit :=
  valid_directory (directory self) true ≫= fun _ =>
  valid_directory permit true ≫= fun _ =>
  gate_key self ≫= fun _ =>
  sys_ok ≫= fun _ => (* self.directory.metadata() *)
  sys_ok ≫= fun _ => (* permit.metadata() *)
  if negb ((directory self).1 =? permit.1) || negb ((directory self).2 =? permit.2)
  then sm_err "privacy_gate_wrong_permit" else mret tt.

Definition gate_same_store (self other : SecretStore) : SM World unit :=
  gate_permit_matches self (directory other).

Definition gate_permit_authorizes (self : SecretStore) (permit : inode) (ep : string)
    : SM World unit :=
  gate_permit_matches self permit ≫= fun _ =>
  o ← gate_state self;
  state ← sm_lift (ok_or INVALID o);
  if clean state || (epoch state != ep) then sm_err "privacy_gate_wrong_epoch" else mret tt.

Definition gate_private_scope (self : SecretStore) (ep : string)
    : SM World (option PrivateScope) :=
  gate_key self ≫= fun _ =>
  o ← gate_state self;
  state ← sm_lift (ok_or INVALID o);
  if (epoch state != ep) || clean state then sm_err "privacy_gate_wrong_epoch" else
  mret (scope state).

(** [scope.stage += 1; scope.identity_digest = next]. *)
Definition advance_scope (sc : PrivateScope) (next : string) : PrivateScope :=
  {| target_id := target_id sc; identity_digest := next; journey := journey sc;
     stage_ := S (stage_ sc) |}.

Definition gate_advance_private (self : SecretStore) (permit : inode) (ep previous : string)
    (expected_stage : nat) (target next : string) : SM World PrivateScope :=
  gate_permit_authorizes self permit ep ≫= fun _ =>
  o ← gate_state self;
  state ← sm_lift (ok_or INVALID o);
  sc ← sm_lift (ok_or INVALID (scope state));
  sm_lift (validate sc) ≫= fun _ =>
  if (target_id sc != target) || (identity_digest sc != previous)
     || (journey_stage sc != Some expected_stage)
     || (journey sc !! (stage_ sc + 1)%nat != Some next)
  then sm_err "private_journey_transition_rejected" else
  let committed := advance_scope sc next in
  write_durable self (set_scope (Some committed) state) ≫= fun _ =>
  mret committed.

Definition gate_finish_private (self : SecretStore) (permit : inode) (ep : string)
    : SM World CleanupCommit :=
  gate_permit_matches self permit ≫= fun _ =>
  o ← gate_state self;
  state ← sm_lift (ok_or INVALID o);
  if epoch state != ep then sm_err "privacy_gate_wrong_epoch" else
  if clean state then sm_err "privacy_gate_already_clean" else
  write_gate_state self (set_clean true state).

(** ** Commands in flight *)

Definition gate_command_lease (self : SecretStore) : SM World (GateLease * string) :=
  lease ← gate_public_lease self;
  or_drop self lease (
    random ← getrandom 32;
    let reference := hex_encode random in
    create (directory self) (fmt [reference; ".pending"]) "pending-v1" ≫= fun _ =>
    mret (lease, reference)).

Definition gate_complete_command (self : SecretStore) (ref : string) : SM World unit :=
  valid_directory (directory self) true ≫= fun _ =>
  gate_key self ≫= fun _ =>
  sm_lift (reference ref) ≫= fun _ =>
  let filename := fmt [ref; ".pending"] in
  o ← read_optional (directory self) filename 32;
  if o != Some "pending-v1"%string then sm_err INVALID else
  filename ← sm_lift (name filename);
  unlink (directory self) filename ≫= fun _ =>
  sys_ok.

Definition gate_mark_uncertain (self : SecretStore) : SM World unit :=
  lease ← independent_lock self false;
  then_drop self lease (
    gate_key self ≫= fun _ =>
    r ← sm_try (create (directory self) "uncertain.lock" "uncertain-v1");
    match r with
    | Ok _ => mret tt
    | Err error =>
        if error == "private_store_already_exists"%string then
          o ← read_optional (directory self) "uncertain.lock" 32;
          sm_lift (ok_or INVALID o) ≫= fun _ =>
          sys_ok
        else sm_err error
    end).
End gate.

(** ** Framing

    The operations that only observe the gate or record commands are framed by
    [GateFrame]; those that may rewrite the gate record by [GateWrite]. A lease
    obtained by a computation satisfying [fresh_lease] may be dropped again. *)

Definition fresh_lease (m : SM World GateLease) : Prop :=
  forall w l w', m w = (Ok l, w') -> (w_next_fd w <= gl_fd l)%nat.

Class GateFrame `{!Oracle} (R : relation World) (self : SecretStore) := {
  gf_sys :: SysFrame R;
  gf_pending : forall r b, preserves R (create (directory self) (fmt [r; ".pending"]) b);
  gf_uncertain : forall b, preserves R (create (directory self) "uncertain.lock" b);
  gf_unlink : forall r, preserves R (unlink (directory self) (fmt [r; ".pending"]));
  gf_lease : forall ex, preserves R (independent_lock self ex);
  gf_or_drop : forall A m (body : GateLease -> SM World A),
    fresh_lease m -> preserves R m -> (forall l, preserves R (body l)) ->
    preserves R (l ← m; or_drop self l (body l));
  gf_then_drop : forall A m (body : GateLease -> SM World A),
    fresh_lease m -> preserves R m -> (forall l, preserves R (body l)) ->
    preserves R (l ← m; then_drop self l (body l));
}.
Class GateWrite `{!Oracle} (R : relation World) (self : SecretStore) := {
  gw_gate :: GateFrame R self;
  gw_anchor : forall b, preserves R (create (directory self) "privacy.lock" b);
  gw_stage : forall r b, preserves R (create (directory self) (fmt [r; ".state-tmp"]) b);
  gw_commit : forall r,
    preserves R (rename (directory self) (fmt [r; ".state-tmp"]) STATE_FILE);
}.
#[export] Hint Resolve gf_pending gf_uncertain gf_unlink gf_lease gw_anchor gw_stage
  gw_commit : frame.

Lemma name_ok f g : name f = Ok g -> g = f.
Proof. unfold name. by case_match; intros; simplify_eq. Qed.

(** A computation after a successful [name]. *)
Lemma preserves_name {A} (R : relation World) `{!SysFrame R} f (k : string -> SM World A) :
  preserves R (k f) -> preserves R (g ← sm_lift (name f); k g).
Proof.
  intros Hk w. unfold mbind, sm_bind, sm_lift. destruct (name f) eqn:Hn; [|done].
  apply name_ok in Hn as ->. apply Hk.
Qed.

Lemma independent_lock_ok `{!Oracle} self ex w l w' :
  independent_lock self ex w = (Ok l, w') ->
  (w_next_fd w <= gl_fd l)%nat /\ gl_dir l = directory self /\ gl_owner_pid l = pid self /\
  same_files w w' /\
  exists w1, flock (directory self) (gl_fd l) ex w1 = (Ok tt, w') /\
             w_dirs w1 = w_dirs w /\ (w_next_fd w1 = S (gl_fd l))%nat.
Proof.
  intros Hrun. assert (same_files w w') as Hs.
  { assert (preserves same_files (independent_lock self ex)) as Hp
      by (unfold independent_lock; frame). exact (preserves_run _ _ _ _ _ Hp Hrun). }
  unfold independent_lock in Hrun. inv_ok. cbn.
  pose (same_dirs := fun w w' : World => w_dirs w' = w_dirs w /\ w_next_fd w' = w_next_fd w).
  assert (forall id b, preserves same_dirs (valid_directory id b)) as Hv.
  { intros id b wa. unfold valid_directory, sys_ok, mbind, sm_bind, sys; cbn.
    destruct (o_sys (w_tick wa)); cbn; [|done].
    unfold get_dir. destruct (w_dirs _ !! id); cbn; [|done].
    repeat case_match; cbn; done. }
  apply (preserves_run _ _ _ _ _ (Hv _ _)) in Hm as [Hd1 Hf1].
  apply sys_ok_inv in Hm0 as [-> _]. unfold fresh_fd in Hm1. injection Hm1 as <- <-.
  apply (preserves_run _ _ _ _ _ (Hv _ _)) in Hm2 as [Hd2 Hf2]. cbn in *.
  split; [lia|]. split_and!; try done. eexists. split_and!; [by destruct v3| |lia].
  congruence.
Qed.

Lemma fresh_independent_lock `{!Oracle} self ex : fresh_lease (independent_lock self ex).
Proof. intros w l w' Hl. by apply independent_lock_ok in Hl as (? & _). Qed.
#[export] Hint Resolve fresh_independent_lock : frame.

Section frames.
Context `{!Oracle, !Crypto, !Serde GateState} (R : relation World) (self : SecretStore).

Section sys.
Context `{!SysFrame R}.
Lemma frame_gate_state : preserves R (gate_state self).
Proof. unfold gate_state. frame. Qed.
Lemma frame_new_gate_state sc : preserves R (new_gate_state self sc).
Proof. unfold new_gate_state. frame. Qed.
#[local] Hint Resolve frame_gate_state : frame.
Lemma frame_gate_public_epoch : preserves R (gate_public_epoch self).
Proof. unfold gate_public_epoch. frame. Qed.
Lemma frame_gate_permit_matches p : preserves R (gate_permit_matches self p).
Proof. unfold gate_permit_matches. frame. Qed.
#[local] Hint Resolve frame_gate_permit_matches : frame.
Lemma frame_gate_permit_authorizes p e : preserves R (gate_permit_authorizes self p e).
Proof. unfold gate_permit_authorizes. frame. Qed.
Lemma frame_gate_private_scope e : preserves R (gate_private_scope self e).
Proof. unfold gate_private_scope. frame. Qed.
End sys.
#[local] Hint Resolve frame_gate_state frame_new_gate_state frame_gate_public_epoch
  frame_gate_permit_matches frame_gate_permit_authorizes frame_gate_private_scope : frame.

Ltac lease_frame :=
  repeat match goal with
  | |- preserves _ (_ ≫= fun l => or_drop _ l _) => apply gf_or_drop; [auto with frame| |intros ?]
  | |- preserves _ (_ ≫= fun l => then_drop _ l _) => apply gf_then_drop; [auto with frame| |intros ?]
  | |- preserves _ (_ ← sm_lift (name _); _) => apply preserves_name; [apply _|]
  | _ => frame_step
  end.

Section gate.
Context `{!GateFrame R self}.
Lemma frame_gate_public_lease : preserves R (gate_public_lease self).
Proof. unfold gate_public_lease. lease_frame. Qed.
#[local] Hint Resolve frame_gate_public_lease : frame.
Lemma fresh_gate_public_lease : fresh_lease (gate_public_lease self).
Proof.
  intros w l w' Hrun. unfold gate_public_lease in Hrun. inv_ok.
  apply fresh_independent_lock in Hm. unfold or_drop in Hrun. case_match eqn:Hb. destruct r; simplify_eq.
  inv_ok. destruct v2; inv_ok. done.
Qed.
#[local] Hint Resolve fresh_gate_public_lease : frame.
Lemma frame_gate_command_lease : preserves R (gate_command_lease self).
Proof. unfold gate_command_lease. lease_frame. Qed.
Lemma frame_gate_complete_command r : preserves R (gate_complete_command self r).
Proof. unfold gate_complete_command. lease_frame. Qed.
Lemma frame_gate_mark_uncertain : preserves R (gate_mark_uncertain self).
Proof. unfold gate_mark_uncertain. lease_frame. Qed.
End gate.

Section write.
Context `{!GateWrite R self}.
Lemma frame_write_gate_state st : preserves R (write_gate_state self st).
Proof. unfold write_gate_state. lease_frame. Qed.
#[local] Hint Resolve frame_write_gate_state : frame.
Lemma frame_write_durable st : preserves R (write_durable self st).
Proof. unfold write_durable. frame. Qed.
#[local] Hint Resolve frame_write_durable : frame.
Lemma frame_gate_begin sc : preserves R (gate_begin_private_with_scope self sc).
Proof. unfold gate_begin_private_with_scope. lease_frame. Qed.
#[local] Hint Resolve frame_gate_begin : frame.
Lemma frame_gate_begin_scoped t d : preserves R (gate_begin_private_scoped self t d).
Proof. unfold gate_begin_private_scoped. frame. Qed.
Lemma frame_gate_begin_journey t ds : preserves R (gate_begin_private_journey self t ds).
Proof. unfold gate_begin_private_journey. frame. Qed.
Lemma frame_gate_resume : preserves R (gate_resume_private self).
Proof. unfold gate_resume_private. lease_frame. Qed.
Lemma frame_gate_advance p e prev st t n :
  preserves R (gate_advance_private self p e prev st t n).
Proof. unfold gate_advance_private. frame. Qed.
Lemma frame_gate_finish p e : preserves R (gate_finish_private self p e).
Proof. unfold gate_finish_private. frame. Qed.
End write.
End frames.

#[export] Hint Resolve frame_gate_state frame_new_gate_state frame_gate_public_epoch
  frame_gate_permit_matches frame_gate_permit_authorizes frame_gate_private_scope
  frame_gate_public_lease fresh_gate_public_lease frame_gate_command_lease
  frame_gate_complete_command frame_gate_mark_uncertain frame_write_gate_state
  frame_write_durable frame_gate_begin frame_gate_begin_scoped frame_gate_begin_journey
  frame_gate_resume frame_gate_advance frame_gate_finish : frame.

(** ** Frame instances *)

Section instances.
Context `{!Oracle}.

Lemma same_files_drop_lease pid l w : same_files w (drop_lease pid l w).
Proof. unfold drop_lease. case_match; [apply same_files_locks|done]. Qed.

Lemma or_drop_inv {A} self l (m : SM World A) w r w' :
  or_drop self l m w = (r, w') -> exists w2, m w = (r, w2) /\ same_files w2 w'.
Proof.
  unfold or_drop. destruct (m w) as [[a|e] w2]; intros [= <- <-]; eexists; split; try done.
  apply same_files_drop_lease.
Qed.
Lemma then_drop_inv {A} self l (m : SM World A) w r w' :
  then_drop self l m w = (r, w') -> exists w2, m w = (r, w2) /\ same_files w2 w'.
Proof.
  unfold then_drop. destruct (m w) as [rr w2]; intros [= <- <-]; eexists; split; try done.
  apply same_files_drop_lease.
Qed.

Context (R : relation World) `{!FilesFrame R}.

Lemma files_or_drop {A} self (m : SM World GateLease) (body : GateLease -> SM World A) :
  preserves R m -> (forall l, preserves R (body l)) ->
  preserves R (l ← m; or_drop self l (body l)).
Proof.
  intros Hm Hb. apply preserves_bind; [apply _|done|]. intros l w.
  destruct (or_drop self l (body l) w) as [r w'] eqn:Hr. cbn.
  apply or_drop_inv in Hr as (w2 & Hr & Hs). etrans; [|by apply ff_same].
  exact (preserves_run _ _ _ _ _ (Hb l) Hr).
Qed.
Lemma files_then_drop {A} self (m : SM World GateLease) (body : GateLease -> SM World A) :
  preserves R m -> (forall l, preserves R (body l)) ->
  preserves R (l ← m; then_drop self l (body l)).
Proof.
  intros Hm Hb. apply preserves_bind; [apply _|done|]. intros l w.
  destruct (then_drop self l (body l) w) as [r w'] eqn:Hr. cbn.
  apply then_drop_inv in Hr as (w2 & Hr & Hs). etrans; [|by apply ff_same].
  exact (preserves_run _ _ _ _ _ (Hb l) Hr).
Qed.
Lemma files_independent_lock self ex : preserves R (independent_lock self ex).
Proof. unfold independent_lock. frame. Qed.
End instances.
#[export] Hint Resolve files_independent_lock : frame.

(** Nothing durable is removed or changed by any gate operation. *)
#[export] Instance durable_gate_frame `{!Oracle} self : GateFrame (keeps durable_name) self.
Proof.
  constructor; [apply _|intros; frame|intros; frame| |intros; frame| |].
  - intros r. apply keeps_unlink. by apply volatile_receipt.
  - intros. by apply files_or_drop; try apply _.
  - intros. by apply files_then_drop; try apply _.
Qed.
#[export] Instance durable_gate_write `{!Oracle} self : GateWrite (keeps durable_name) self.
Proof.
  constructor; [apply _|intros; frame|intros; frame|].
  intros r. apply keeps_rename; [by apply volatile_receipt|by vm_compute].
Qed.

(** The two files that make up the gate of directory [dir]. *)
Definition gate_file (dir id : inode) (f : string) : Prop :=
  id = dir /\ (f = STATE_FILE \/ f = "privacy.lock"%string).
(** All files of directory [dir]. *)
Definition in_directory (dir id : inode) (f : string) : Prop := id = dir.

Lemma not_gate_file dir id r s :
  ends_with s STATE_FILE = false -> ends_with s "privacy.lock" = false ->
  ~ gate_file dir id (fmt [r; s]).
Proof.
  intros H1 H2 [_ H]. change (fmt [r; s]) with (r +:+ (s +:+ "")) in H.
  rewrite string_app_nil_r in H. pose proof (ends_with_app r s) as He.
  destruct H as [H|H]; rewrite H in He; congruence.
Qed.

#[export] Instance gate_file_store `{!Oracle} dir self :
  StoreFrame (same_content (gate_file dir)) self.
Proof.
  constructor; [apply _|]. intros r s b Hs. apply same_content_create.
  apply one_of_In in Hs. unfold store_suffixes in Hs. cbn in Hs.
  apply not_gate_file; by repeat destruct Hs as [<-|Hs].
Qed.
#[export] Instance gate_file_gate `{!Oracle} dir self :
  GateFrame (same_content (gate_file dir)) self.
Proof.
  constructor; [apply _| | | |intros; frame| |].
  - intros. apply same_content_create. by apply not_gate_file.
  - intros. apply same_content_create. intros [_ [[=]|[=]]].
  - intros. apply same_content_unlink. by apply not_gate_file.
  - intros. by apply files_or_drop; try apply _.
  - intros. by apply files_then_drop; try apply _.
Qed.

(** An operation through another directory leaves this one alone. *)
Lemma other_directory_store `{!Oracle} dir self :
  directory self <> dir -> StoreFrame (same_content (in_directory dir)) self.
Proof. intros Hne. constructor; [apply _|]. intros. by apply same_content_create. Qed.
Lemma other_directory_gate `{!Oracle} dir self :
  directory self <> dir -> GateWrite (same_content (in_directory dir)) self.
Proof.
  intros Hne. constructor; [constructor; [apply _| | | |intros; frame| |]| | |]; intros;
    first [by apply same_content_create|by apply same_content_unlink
          |by apply same_content_rename
          |by apply files_or_drop; try apply _|by apply files_then_drop; try apply _].
Qed.

End GateStore.
