(* ===== verification/GateView.v ===== *)
(** * The abstract gate, and what the gate operations do to it

    [gate_view] abstracts the files of a directory to the state of its privacy
    gate; [gate_step] is the automaton the gate promises to follow. The file
    shows that every gate operation of [GateStore.v], run with arbitrary faults,
    takes one step of the automaton with its own label or stutters, and what the
    successful runs return. *)

From S2P Require Import Prelude RustStr Env SecretFs SecretStore GateStore.
From Stdlib Require Import Ascii.
Import SecretFs SecretStore GateStore.

Local Open Scope Z_scope.

Module GateView.

(** ** The abstract gate *)

Inductive View :=
| Fresh                                            (* never used *)
| Locked                                           (* anchored, without a record *)
| Private (epoch : string) (scope : option PrivateScope)
| Clean (epoch : string)
| Corrupt.

(** A view through which public commands may be admitted. *)
Definition is_public (v : View) : Prop := v = Fresh \/ exists e, v = Clean e.

Inductive Label :=
| Begin (sc : option PrivateScope)
| Resume
| Advance (epoch next : string)
| Finish (epoch : string)
| Other.

Inductive gate_step : Label -> View -> View -> Prop :=
| gs_stutter l v : gate_step l v v
| gs_anchor sc : gate_step (Begin sc) Fresh Locked
| gs_begin sc v e : is_public v -> gate_step (Begin sc) v (Private e sc)
| gs_resume e : gate_step Resume Locked (Private e None)
| gs_advance e sc next :
    validate sc = Ok tt -> journey sc !! S (stage_ sc) = Some next ->
    gate_step (Advance e next) (Private e (Some sc)) (Private e (Some (advance_scope sc next)))
| gs_finish e sc : gate_step (Finish e) (Private e sc) (Clean e).
#[export] Hint Constructors gate_step : core.

(** Only a finish makes a gate that is not public public again. *)
Lemma gate_step_closed l v v' :
  gate_step l v v' -> ~ is_public v -> (forall e, l <> Finish e) -> ~ is_public v'.
Proof.
  intros Hs Hv Hl. destruct Hs; try done; try (intros [?|[? ?]]; done).
  by destruct (Hl e).
Qed.

Section view.
Context `{!Oracle, !Crypto, !Serde GateState}.

(** The record an envelope authenticates under key [k]. *)
Definition record_of (k envelope : string) : option GateState :=
  bytes ← unseal k STATE_REF STATE_ROLE envelope; from_slice bytes.
Definition view_of (state : GateState) : View :=
  if clean state then Clean (epoch state) else Private (epoch state) (scope state).

Definition gate_view (k : string) (dir : inode) (w : World) : View :=
  match content w dir STATE_FILE with
  | Some envelope =>
      match record_of k envelope with Some state => view_of state | None => Corrupt end
  | None => match content w dir "privacy.lock" with Some _ => Locked | None => Fresh end
  end.

Lemma gate_view_same k dir w w' :
  same_content (gate_file dir) w w' -> gate_view k dir w' = gate_view k dir w.
Proof.
  intros Hs. unfold gate_view. rewrite !(Hs dir); unfold gate_file; auto.
Qed.
Lemma gate_view_files k dir w w' : same_files w w' -> gate_view k dir w' = gate_view k dir w.
Proof. intros Hs. by apply gate_view_same, ff_same. Qed.
Lemma gate_view_directory k dir w w' :
  same_content (in_directory dir) w w' -> gate_view k dir w' = gate_view k dir w.
Proof. intros Hs. apply gate_view_same. intros id f [-> _]. by apply Hs. Qed.

Lemma content_file w id f m b : file w id f = Some (EFile m b) -> content w id f = Some b.
Proof. unfold content. by intros ->. Qed.
Lemma content_absent w id f : file w id f = None -> content w id f = None.
Proof. unfold content. by intros ->. Qed.
Lemma content_same_files w w' id f : same_files w w' -> content w' id f = content w id f.
Proof. intros Hs. unfold content. by rewrite (same_files_file w w'). Qed.

(** ** Reading the gate record *)

Lemma gate_state_ok self w o w' :
  gate_state self w = (Ok o, w') ->
  same_files w w' /\
  match o with
  | None => content w (directory self) STATE_FILE = None
  | Some st =>
      gate_view (key self) (directory self) w = view_of st /\
      is_Some (content w (directory self) "privacy.lock") /\
      lower_hex (epoch st) 64 = true /\
      match scope st with Some sc => validate sc = Ok tt | None => True end
  end.
Proof.
  intros Hrun. split; [by frame_in same_files Hrun|]. unfold gate_state in Hrun.
  apply sm_bind_ok in Hrun as (v & w1 & Hr & Hrun).
  assert (same_files w w1) as Hs1 by (by frame_in same_files Hr).
  destruct v as [b|]; inv_ok; read_in; [|by apply content_absent].
  match goal with H : decrypt _ _ _ _ = _ |- _ =>
    apply decrypt_ok in H as (_ & Hs2 & meta' & b' & Hf' & Hu) end.
  destruct (negb (device v0 =? _) || _ || _); inv_ok. read_in. split_and!.
  - unfold gate_view. rewrite <-(content_same_files w w1) by done.
    change (fmt [STATE_REF; "."; STATE_ROLE]) with STATE_FILE in Hf'.
    rewrite (content_file _ _ _ _ _ Hf'). unfold record_of. rewrite Hu. cbn.
    match goal with H : from_slice _ = Some _ |- _ => by rewrite H end.
  - match goal with H : file ?wx _ "privacy.lock" = Some _ |- _ =>
      assert (same_files w wx) as Hs by
        (repeat (etrans; [eassumption|]); by match goal with H : sys_ok _ = _ |- _ =>
           apply sys_ok_inv in H as [-> _] end);
      rewrite <-(content_same_files w wx), (content_file _ _ _ _ _ H) by done
    end. done.
  - by eapply reference_ok.
  - destruct (scope v0); [|done]. by destruct v1.
Qed.

(** ** Writing the gate record *)

Lemma gw_stage_content dir r b :
  preserves (same_content (gate_file dir)) (create dir (fmt [r; ".state-tmp"]) b).
Proof. apply same_content_create. by apply not_gate_file. Qed.

Lemma encrypt_same_files self ref role m w r w' :
  encrypt self ref role m w = (r, w') -> same_files w w'.
Proof. intros Hrun. by frame_in same_files Hrun. Qed.

Lemma write_gate_state_run self st w r w' :
  write_gate_state self st w = (r, w') ->
  (same_content (gate_file (directory self)) w w' /\ is_ok r = false) \/
  (is_ok r = true /\ gate_view (key self) (directory self) w' = view_of st).
Proof.
  unfold write_gate_state. intros Hrun. set (dir := directory self) in *.
  set (R := same_content (gate_file dir)).
  apply sm_bind_inv in Hrun as [(b & w1 & Hb & Hrun)|(e & Hb & ->)];
    [|left; by frame_in R Hb].
  apply sm_lift_ok in Hb as [Hb ->]. apply ok_or_ok in Hb.
  apply sm_bind_inv in Hrun as [(env & w1 & He & Hrun)|(e & He & ->)];
    [|left; by frame_in R He].
  pose proof (encrypt_ok _ _ _ _ _ _ _ He) as [Hu _]. frame_in R He.
  apply sm_bind_inv in Hrun as [(random & w2 & Hr & Hrun)|(e & Hr & ->)];
    frame_in R Hr; [|left; split; [by etrans|done]].
  apply sm_bind_inv in Hrun as [([] & w3 & Hc & Hrun)|(e & Hc & ->)].
  2:{ assert (R w2 w') by (apply (preserves_run R _ _ _ _ (gw_stage_content _ _ _) Hc)).
      left. split; [by repeat (etrans; [eassumption|])|done]. }
  pose proof (create_ok _ _ _ _ _ _ Hc) as [_ Htmp].
  assert (R w w3) as Hs3.
  { etrans; [exact He|]. etrans; [exact Hr|].
    apply (preserves_run R _ _ _ _ (gw_stage_content _ _ _) Hc). }
  apply sm_bind_inv in Hrun as [(t & w4 & Ht & Hrun)|(e & [= _ <-] & ->)]; [|by left].
  apply sm_lift_ok in Ht as [->%name_ok ->].
  apply sm_bind_inv in Hrun as [(t & w4 & Ht & Hrun)|(e & [= ] & _)].
  apply sm_lift_ok in Ht as [->%name_ok ->].
  apply sm_bind_inv in Hrun as [([] & w4 & Hn & Hrun)|(e & Hn & ->)].
  - right. apply rename_inv in Hn as [[_ Hn]|(_ & en & Hen & ->)]; [done|].
    rewrite Htmp in Hen. injection Hen as <-.
    apply sm_bind_inv in Hrun as [(o & w5 & [= <- <-] & [= <- <-])|(e & [= ] & _)].
    split; [done|]. unfold gate_view.
    rewrite (content_file _ _ _ new_file_meta env).
    + unfold record_of. rewrite Hu. cbn. by rewrite (from_slice_to_vec _ _ Hb).
    + change (file (update_entries dir
        (fun m => <[STATE_FILE:=EFile new_file_meta env]> (delete (fmt [hex_encode random; ".state-tmp"]) m))
        (tick w3)) dir STATE_FILE = Some (EFile new_file_meta env)).
      rewrite file_update_entries, decide_True by done.
      unfold file in Htmp. change (files (tick w3)) with (files w3).
      destruct (files w3 !! dir); cbn in *; [|done]. by rewrite lookup_insert_eq.
  - left. apply rename_inv in Hn as [[-> _]|[[=] _]]. split; [|done].
    etrans; [exact Hs3|]. apply sf_tick.
Qed.

Lemma write_durable_run self st w r w' :
  write_durable self st w = (r, w') ->
  (same_content (gate_file (directory self)) w w' /\ is_ok r = false) \/
  gate_view (key self) (directory self) w' = view_of st.
Proof.
  unfold write_durable. intros [(c & w1 & Hw & Hrun)|(e & Hw & ->)]%sm_bind_inv;
    apply write_gate_state_run in Hw.
  - right. assert (w' = w1) as -> by (by destruct (c != Durable); injection Hrun).
    by destruct Hw as [[_ ?]|[_ ?]].
  - destruct Hw as [[? _]|[[=] _]]; auto.
Qed.

Lemma new_gate_state_ok self sc w st w' :
  new_gate_state self sc w = (Ok st, w') ->
  same_files w w' /\ view_of st = Private (epoch st) sc /\ is_Some (content w' (directory self) "privacy.lock").
Proof.
  intros Hrun. assert (same_files w w') as Hs by (by frame_in same_files Hrun).
  split; [done|]. unfold new_gate_state in Hrun. inv_ok. cbn. split; [done|].
  read_in. apply getrandom_ok in Hm as [_ ->]. apply sys_ok_inv in Hm0 as [-> _].
  rewrite (content_same_files w w') by done.
  match goal with H : file _ _ "privacy.lock" = _ |- _ =>
    pose proof (content_file _ _ _ _ _ H) as Hc end.
  exists v2. exact Hc.
Qed.

(** ** Each operation takes a step of the abstract gate *)

(** The key file of [dir] holds [k]: what every gate operation checks first. *)
Definition keyed (k : string) (dir : inode) (w : World) : Prop := content w dir KEY = Some k.

Lemma gate_key_keyed self k w u w' :
  gate_key self w = (Ok u, w') -> keyed k (directory self) w ->
  k = key self /\ same_files w w'.
Proof.
  intros [Hs [meta Hf]]%gate_key_ok Hk. apply content_file in Hf.
  unfold keyed in Hk. split; [congruence|done].
Qed.

Definition refines (l : Label) {A} (m : SM World A) : Prop :=
  forall k dir w r w', keyed k dir w -> m w = (r, w') ->
    gate_step l (gate_view k dir w) (gate_view k dir w').

Lemma refines_other {A} (m : SM World A) :
  (forall dir, preserves (same_content (gate_file dir)) m) -> refines Other m.
Proof.
  intros Hm k dir w r w' _ Hrun. specialize (Hm dir).
  rewrite (gate_view_same k dir w w'); [done|exact (preserves_run _ _ _ _ _ Hm Hrun)].
Qed.

(** It is enough to look at the directory the handle names. *)
Lemma refines_here l {A} self (m : SM World A) :
  (forall R, GateWrite R self -> preserves R m) ->
  (forall k w r w', keyed k (directory self) w -> m w = (r, w') ->
     gate_step l (gate_view k (directory self) w) (gate_view k (directory self) w')) ->
  refines l m.
Proof.
  intros Hframe Hhere k dir w r w' Hk Hrun.
  destruct (decide (directory self = dir)) as [<-|Hne]; [by eauto|].
  rewrite (gate_view_directory k dir w w'); [done|].
  eapply preserves_run; [|exact Hrun]. by apply Hframe, other_directory_gate.
Qed.

(** Peel the first call off a run: either it succeeds, or the run stopped there. *)
Ltac peel H :=
  let a := fresh "a" in let w := fresh "w" in let Hm := fresh "Hm" in
  apply sm_bind_inv in H as [(a & w & Hm & H)|(? & Hm & ->)].
(** The gate is untouched by a run whose every call keeps the files. *)
Ltac stutter k self :=
  match goal with
  | H : ?m ?w = (_, ?w') |- gate_step _ (gate_view k _ ?w) (gate_view k _ ?w') =>
      frame_in same_files H; rewrite (gate_view_files k _ _ _ H); constructor
  end.
Ltac same_view k H :=
  let Hs := fresh "Hs" in pose proof H as Hs; frame_in same_files Hs;
  rewrite <-(gate_view_files k _ _ _ Hs).

Lemma lease_refines l self ex {A} (body : GateLease -> SM World A) k w r w' :
  keyed k (directory self) w ->
  (lease ← independent_lock self ex; or_drop self lease (body lease)) w = (r, w') ->
  (forall lease w1 r1 w2, keyed k (directory self) w1 ->
     gate_view k (directory self) w1 = gate_view k (directory self) w ->
     body lease w1 = (r1, w2) ->
     gate_step l (gate_view k (directory self) w) (gate_view k (directory self) w2)) ->
  gate_step l (gate_view k (directory self) w) (gate_view k (directory self) w').
Proof.
  intros Hk Hrun Hbody. peel Hrun; [|stutter k self].
  frame_in same_files Hm. apply or_drop_inv in Hrun as (w2 & Hb & Hs).
  rewrite (gate_view_files k _ _ _ Hs). eapply Hbody; [| |exact Hb].
  - unfold keyed. by rewrite (content_same_files _ _ _ _ Hm).
  - by apply gate_view_files.
Qed.

(** The write at the end of [begin] and [resume]. *)
Lemma renew_refines self sc {A} (ret : string -> A) w r w' v :
  (st ← new_gate_state self sc; write_durable self st ≫= fun _ => mret (ret (epoch st))) w
    = (r, w') ->
  gate_view (key self) (directory self) w = v ->
  gate_view (key self) (directory self) w' = v \/
  exists e, gate_view (key self) (directory self) w' = Private e sc.
Proof.
  intros Hrun Hv. peel Hrun.
  2:{ left. frame_in same_files Hm. by rewrite (gate_view_files _ _ _ _ Hm). }
  apply new_gate_state_ok in Hm as (Hs & Hst & _).
  rewrite <-(gate_view_files _ _ _ _ Hs) in Hv.
  assert (exists r1, write_durable self a w0 = (r1, w')) as [r1 Hw].
  { apply sm_bind_inv in Hrun as [(u & w2 & Hw & [= _ <-])|(e & Hw & _)]; eauto. }
  apply write_durable_run in Hw as [[Hc _]|Hw].
  - left. by rewrite (gate_view_same _ _ _ _ Hc).
  - right. exists (epoch a). by rewrite Hw.
Qed.

(** The admission check of [gate_begin] and [gate_public_lease]. *)
Lemma admission_public self w o st w' :
  gate_state self w = (Ok st, w') -> content w (directory self) "privacy.lock" = o ->
  is_some o && negb (is_clean st) = false -> is_public (gate_view (key self) (directory self) w).
Proof.
  intros [_ Hst]%gate_state_ok Ho Hopen. destruct st as [st|]; cbn in Hopen.
  - destruct Hst as (-> & [b Hb] & _). rewrite Ho in Hb. subst o. cbn in Hopen.
    apply negb_false_iff in Hopen. unfold view_of. rewrite Hopen. right. eauto.
  - left. unfold gate_view. rewrite Hst, Ho. by destruct o.
Qed.

Lemma read_content self f max w o w' :
  read_optional (directory self) f max w = (Ok o, w') -> content w (directory self) f = o.
Proof. intros Hr. destruct o; read_in; [by eapply content_file|by apply content_absent]. Qed.

(** Creating the anchor, completely or not, turns a fresh gate into a locked one. *)
Lemma anchor_view k dir b w r w' :
  create dir "privacy.lock" b w = (r, w') ->
  gate_view k dir w' = gate_view k dir w \/
  gate_view k dir w = Fresh /\ gate_view k dir w' = Locked.
Proof.
  intros Hrun. pose proof Hrun as Hc.
  apply create_spec in Hc as [[Hs _]|(Hn & Hid & b' & Hf & _)];
    [left; by apply gate_view_files|].
  assert (content w' dir STATE_FILE = content w dir STATE_FILE) as Hst.
  { apply (preserves_run (same_content (fun _ f => f = STATE_FILE))) in Hrun; [by apply Hrun|].
    by apply same_content_create. }
  assert (content w' dir "privacy.lock" = Some b') as Hl.
  { apply (content_file _ _ _ new_file_meta).
    by rewrite (file_alter_insert _ _ _ _ _ _ Hf Hid), decide_True. }
  unfold gate_view. rewrite Hst, Hl, (content_absent _ _ _ Hn).
  destruct (content w dir STATE_FILE); auto.
Qed.

(** The step of [begin] after its checks: anchor the gate, then write its record. *)
Lemma begin_tail self sc anchored {A} (ret : string -> A) w r w' :
  ((if is_some anchored then mret tt
    else create (directory self) "privacy.lock" "private-v1") ≫= fun _ =>
   st ← new_gate_state self sc; write_durable self st ≫= fun _ => mret (ret (epoch st))) w
    = (r, w') ->
  content w (directory self) "privacy.lock" = anchored ->
  is_public (gate_view (key self) (directory self) w) ->
  gate_step (Begin sc) (gate_view (key self) (directory self) w)
    (gate_view (key self) (directory self) w').
Proof.
  intros Hrun Hanch Hpub. set (k := key self) in *. set (dir := directory self) in *.
  assert (forall w1 r1, (st ← new_gate_state self sc; write_durable self st ≫= fun _ =>
      mret (ret (epoch st))) w1 = (r1, w') ->
    gate_view k dir w1 = gate_view k dir w \/
      gate_view k dir w = Fresh /\ gate_view k dir w1 = Locked ->
    gate_step (Begin sc) (gate_view k dir w) (gate_view k dir w')) as Htail.
  { intros w1 r1 Hw1 Hv. destruct (renew_refines self sc ret w1 r1 w' _ Hw1 eq_refl)
      as [He|[e He]]; unfold dir, k in *; rewrite He.
    - destruct Hv as [->|[-> ->]]; auto.
    - by apply gs_begin. }
  destruct anchored as [b|]; cbn [is_some] in Hrun.
  { apply sm_bind_inv in Hrun as [(u & w1 & [= _ <-] & Hrun)|(e & [=] & _)]. eauto. }
  peel Hrun; apply (anchor_view k) in Hm as [Hv|[Hv Hv']]; [eauto..| |].
  - rewrite Hv. auto.
  - rewrite Hv, Hv'. auto.
Qed.

Lemma begin_refines self sc :
  refines (Begin sc) (gate_begin_private_with_scope self sc).
Proof.
  apply (refines_here _ self); [intros; frame|]. intros k w r w' Hk Hrun.
  eapply lease_refines; [done|exact Hrun|]. clear r w' Hrun.
  intros lease w1 r w' Hk1 <- Hrun.
  peel Hrun; [|stutter k self].
  pose proof (gate_key_keyed _ _ _ _ _ Hm Hk1) as [-> Hs].
  rewrite <-(gate_view_files (key self) _ _ _ Hs). clear Hm.
  peel Hrun; [|stutter (key self) self]. same_view (key self) Hm.
  apply read_content in Hm. rewrite <-(content_same_files w0 w2) in Hm by done.
  peel Hrun; [|stutter (key self) self]. same_view (key self) Hm0.
  destruct (is_some a0 && negb (is_clean a1)) eqn:Hopen; [injection Hrun as _ <-; auto|].
  pose proof (admission_public _ _ _ _ _ Hm0 Hm Hopen) as Hpub.
  rewrite <-(content_same_files w2 w3) in Hm by done.
  rewrite <-(gate_view_files _ _ _ _ Hs1) in Hpub.
  peel Hrun; [|stutter (key self) self]. same_view (key self) Hm1.
  rewrite <-(content_same_files w3 w4) in Hm by done.
  rewrite <-(gate_view_files _ _ _ _ Hs2) in Hpub.
  destruct (is_some a2); [injection Hrun as _ <-; auto|].
  peel Hrun; [|stutter (key self) self]. same_view (key self) Hm2.
  rewrite <-(content_same_files w4 w5) in Hm by done.
  rewrite <-(gate_view_files _ _ _ _ Hs3) in Hpub.
  destruct (negb (a3 =? _)); [injection Hrun as _ <-; auto|].
  by apply (begin_tail self sc a0 (fun e => (lease, e)) w5 r w').
Qed.

Lemma resume_refines self : refines Resume (gate_resume_private self).
Proof.
  apply (refines_here _ self); [intros; frame|]. intros k w r w' Hk Hrun.
  eapply lease_refines; [done|exact Hrun|]. clear r w' Hrun.
  intros lease w1 r w' Hk1 <- Hrun.
  peel Hrun; [|stutter k self].
  pose proof (gate_key_keyed _ _ _ _ _ Hm Hk1) as [-> Hs].
  rewrite <-(gate_view_files (key self) _ _ _ Hs). clear Hm.
  peel Hrun; [|stutter (key self) self]. same_view (key self) Hm.
  apply read_content in Hm. rewrite <-(content_same_files w0 w2) in Hm by done.
  destruct a0 as [anchor|]; cbn [is_some negb] in Hrun; [|injection Hrun as _ <-; auto].
  peel Hrun; [|stutter (key self) self]. same_view (key self) Hm0.
  apply gate_state_ok in Hm0 as [_ Hst]. destruct a0 as [st|].
  { destruct (clean st); injection Hrun as _ <-; auto. }
  assert (gate_view (key self) (directory self) w3 = Locked) as Hv.
  { rewrite (gate_view_files _ _ _ _ Hs1). unfold gate_view. by rewrite Hst, Hm. }
  rewrite Hv. destruct (renew_refines self None (fun e => (lease, e)) w3 r w' _ Hrun Hv)
    as [->|[e ->]]; auto.
Qed.

Lemma permit_matches_ok self permit w u w' :
  gate_permit_matches self permit w = (Ok u, w') ->
  same_files w w' /\ permit = directory self /\
  content w (directory self) KEY = Some (key self).
Proof.
  intros Hrun. assert (same_files w w') as Hs by (by frame_in same_files Hrun).
  split; [done|]. unfold gate_permit_matches in Hrun. inv_ok.
  match goal with H : gate_key _ _ = _ |- _ => apply gate_key_ok in H as [_ [meta Hf]] end.
  frame_in same_files Hm. frame_in same_files Hm0.
  assert (same_files w w1) as Hs1 by (by etrans; [exact Hm|]).
  rewrite <-(content_same_files w w1) by done. split; [|by eapply content_file].
  destruct (negb _ || negb _) eqn:Hc; [discriminate|]. inv_bool.
  destruct permit, (directory self); cbn in *. f_equal; lia.
Qed.

Lemma permit_authorizes_ok self permit ep w u w' :
  gate_permit_authorizes self permit ep w = (Ok u, w') ->
  same_files w w' /\ permit = directory self /\
  content w (directory self) KEY = Some (key self) /\
  exists sc, gate_view (key self) (directory self) w = Private ep sc.
Proof.
  intros Hrun. assert (same_files w w') as Hs by (by frame_in same_files Hrun).
  split; [done|]. unfold gate_permit_authorizes in Hrun. inv_ok.
  apply permit_matches_ok in Hm as (Hs1 & Hp & Hk). split_and!; [done..|].
  apply gate_state_ok in Hm0 as (_ & Hv & _).
  rewrite (gate_view_files _ _ _ _ Hs1) in Hv. rewrite Hv. unfold view_of.
  destruct (clean v1 || _) eqn:Hc; [discriminate|]. inv_bool.
  match goal with H : clean v1 = false |- _ => rewrite H end. subst ep. eauto.
Qed.

Lemma view_private st ep sc :
  view_of st = Private ep sc -> clean st = false /\ epoch st = ep /\ scope st = sc.
Proof. unfold view_of. destruct (clean st); intros; simplify_eq; done. Qed.

Lemma advance_refines self permit ep previous stage target next :
  refines (Advance ep next) (gate_advance_private self permit ep previous stage target next).
Proof.
  apply (refines_here _ self); [intros; frame|]. intros k w r w' Hk Hrun.
  peel Hrun; [|stutter k self]. apply permit_authorizes_ok in Hm as (Hs & _ & Hk' & sc & Hv).
  assert (k = key self) as -> by (unfold keyed in Hk; congruence).
  rewrite <-(gate_view_files _ _ _ _ Hs) in Hv |- *.
  peel Hrun; [|stutter (key self) self]. apply gate_state_ok in Hm as (Hs1 & Hst).
  rewrite <-(gate_view_files _ _ _ _ Hs1) in Hv |- *.
  peel Hrun; [|stutter (key self) self]. apply sm_lift_ok in Hm as [Hst' ->].
  apply ok_or_ok in Hst'. subst a0. destruct Hst as (Hst & _).
  rewrite <-(gate_view_files _ _ _ _ Hs1), Hv in Hst. symmetry in Hst.
  apply view_private in Hst as (Hclean & Hep & Hsc).
  peel Hrun; [|stutter (key self) self]. apply sm_lift_ok in Hm as [Hsome ->].
  apply ok_or_ok in Hsome. rewrite Hsome in Hsc. subst sc.
  peel Hrun; [|stutter (key self) self]. apply sm_lift_ok in Hm as [Hval ->].
  destruct (_ || _ || _ || _) eqn:Hc; [injection Hrun as _ <-; auto|]. inv_bool.
  assert (exists r1, write_durable self (set_scope (Some (advance_scope a0 next)) a1) w1 = (r1, w'))
    as [r1 Hw].
  { apply sm_bind_inv in Hrun as [(u & w2 & Hw & [= _ <-])|(e & Hw & _)]; eauto. }
  apply write_durable_run in Hw as [[Hg _]|Hw].
  - rewrite (gate_view_same _ _ _ _ Hg). auto.
  - rewrite Hw, Hv. unfold view_of; cbn. rewrite Hclean, Hep. apply gs_advance.
    + by destruct a2.
    + match goal with H : journey a0 !! _ = Some next |- _ => rewrite <-H end.
      f_equal. lia.
Qed.

Lemma finish_refines self permit ep :
  refines (Finish ep) (gate_finish_private self permit ep).
Proof.
  apply (refines_here _ self); [intros; frame|]. intros k w r w' Hk Hrun.
  peel Hrun; [|stutter k self]. apply permit_matches_ok in Hm as (Hs & _ & Hk').
  assert (k = key self) as -> by (unfold keyed in Hk; congruence).
  rewrite <-(gate_view_files _ _ _ _ Hs).
  peel Hrun; [|stutter (key self) self]. apply gate_state_ok in Hm as (Hs1 & Hst).
  rewrite <-(gate_view_files _ _ _ _ Hs1).
  peel Hrun; [|stutter (key self) self]. apply sm_lift_ok in Hm as [Hst' ->].
  apply ok_or_ok in Hst'. subst a0. destruct Hst as (Hst & _).
  rewrite <-(gate_view_files _ _ _ _ Hs1) in Hst.
  destruct (bool_decide_reflect (epoch a1 = ep)) as [<-|]; cbn [negb] in Hrun;
    [|injection Hrun as _ <-; auto].
  destruct (clean a1) eqn:Hclean; [injection Hrun as _ <-; auto|].
  apply write_gate_state_run in Hrun as [[Hg _]|[_ Hw]].
  - rewrite (gate_view_same _ _ _ _ Hg). auto.
  - rewrite Hw, Hst. unfold view_of; cbn. rewrite Hclean. apply gs_finish.
Qed.

(** ** What the successful runs say *)

Lemma lease_ok self ex {A} (body : GateLease -> SM World A) w a w' :
  (lease ← independent_lock self ex; or_drop self lease (body lease)) w = (Ok a, w') ->
  exists lease w1 w2, independent_lock self ex w = (Ok lease, w1) /\ same_files w w1 /\
    body lease w1 = (Ok a, w2) /\ w' = w2.
Proof.
  intros (l & w1 & Hl & Hrun)%sm_bind_ok. pose proof Hl as Hs. frame_in same_files Hs.
  exists l, w1. unfold or_drop in Hrun. destruct (body l w1) as [[a'|e] w2]; simplify_eq. eauto.
Qed.

Lemma gate_key_content self w u w' :
  gate_key self w = (Ok u, w') -> content w (directory self) KEY = Some (key self).
Proof. intros [_ [meta Hf]]%gate_key_ok. by eapply content_file. Qed.

Lemma gate_public_lease_ok self w l w' :
  gate_public_lease self w = (Ok l, w') ->
  keyed (key self) (directory self) w /\ is_public (gate_view (key self) (directory self) w).
Proof.
  unfold gate_public_lease. intros (l' & w1 & w2 & _ & Hs & Hrun & ->)%lease_ok. inv_ok.
  pose proof (gate_key_content _ _ _ _ Hm) as Hkey. unfold keyed.
  rewrite <-(content_same_files w w1) by done. split; [done|].
  destruct v1; [discriminate|]. inv_ok. pose_same.
  apply read_content in Hm0.
  assert (exists st w4 w5, same_files w w4 /\ gate_state self w4 = (Ok st, w5) /\
    is_some v0 && negb (is_clean st) = false) as (st & w4' & w5 & Hs4 & Hst & Hopen).
  { destruct v0 as [b|]; cbn [is_some andb].
    - inv_ok. pose_same.
      match goal with H : gate_state self _ = (Ok ?st, _), Hc : negb (is_clean ?st) = false |- _ =>
        eexists st, _, _; split; [|split; [exact H|exact Hc]] end. chain.
    - inv_ok. pose_same.
      match goal with H : gate_state self _ = _ |- _ =>
        eexists _, _, _; split; [|split; [exact H|done]] end. chain. }
  rewrite <-(gate_view_files _ _ _ _ Hs4). eapply admission_public; [exact Hst| |exact Hopen].
  rewrite <-Hm0. match type of Hm with _ = (_, ?wx) =>
    rewrite (content_same_files w w4'), (content_same_files w wx) by chain end. done.
Qed.

Lemma gate_public_epoch_ok self w o w' :
  gate_public_epoch self w = (Ok o, w') ->
  keyed (key self) (directory self) w /\
  gate_view (key self) (directory self) w =
    match o with Some e => Clean e | None => Fresh end.
Proof.
  unfold gate_public_epoch. intros Hrun. inv_ok.
  pose proof (gate_key_content _ _ _ _ Hm) as Hkey. split; [done|]. pose_same.
  apply gate_state_ok in Hm0 as (_ & Hst).
  destruct v0 as [st|].
  - destruct (clean st) eqn:Hc; inv_ok. destruct Hst as (Hv & _).
    match type of Hv with gate_view _ _ ?wx = _ => rewrite <-(gate_view_files _ _ w wx) by chain end.
    rewrite Hv. unfold view_of. by rewrite Hc.
  - inv_ok. destruct v0; inv_ok. apply read_content in Hm0.
    match type of Hst with content ?wx _ _ = _ => rewrite (content_same_files w wx) in Hst by chain end.
    match type of Hm0 with content ?wx _ _ = _ => rewrite (content_same_files w wx) in Hm0 by chain end.
    unfold gate_view. by rewrite Hst, Hm0.
Qed.

Lemma write_durable_ok self st w u w' :
  write_durable self st w = (Ok u, w') -> gate_view (key self) (directory self) w' = view_of st.
Proof. by intros [[_ [=]]|?]%write_durable_run. Qed.

Lemma gate_begin_ok self sc w l e w' :
  gate_begin_private_with_scope self sc w = (Ok (l, e), w') ->
  keyed (key self) (directory self) w /\
  is_public (gate_view (key self) (directory self) w) /\
  file w (directory self) "uncertain.lock" = None /\
  gate_view (key self) (directory self) w' = Private e sc /\
  exists w1, independent_lock self true w = (Ok l, w1).
Proof.
  unfold gate_begin_private_with_scope.
  intros (l' & w1 & w2 & Hl & Hs & Hrun & ->)%lease_ok. inv_ok.
  pose proof (gate_key_content _ _ _ _ Hm) as Hkey. unfold keyed.
  rewrite <-(content_same_files w w1) by done. split; [done|]. pose_same.
  destruct (is_some v0 && negb (is_clean v1)) eqn:Hopen; [discriminate|]. inv_ok.
  destruct v2; [discriminate|]. cbn [is_some] in Hrun. inv_ok. pose_same.
  destruct (negb (v2 =? _)); [discriminate|]. inv_ok.
  apply read_content in Hm0. split_and!.
  - match type of Hm1 with _ ?wx = _ => rewrite <-(gate_view_files _ _ w wx) by chain end.
    eapply admission_public; [exact Hm1| |exact Hopen]. rewrite <-Hm0.
    match goal with |- content ?wx _ _ = content ?wy _ _ =>
      rewrite (content_same_files w wx), (content_same_files w wy) by chain end. done.
  - apply read_optional_ok in Hm2.
    match type of Hm2 with file ?wx _ _ = _ => by rewrite (same_files_file w wx) in Hm2 by chain end.
  - match goal with H : write_durable _ _ _ = _ |- _ => apply write_durable_ok in H; rewrite H end.
    match goal with H : new_gate_state _ _ _ = _ |- _ =>
      apply new_gate_state_ok in H as (_ & -> & _) end. done.
  - eauto.
Qed.

End view.
End GateView.
