(* ===== verification/StoreHistory.v ===== *)
(** * Histories of a private store

    Any sequence of store and gate operations, by any number of handles and
    processes, over any oracle (hence with faults and crashes anywhere). The
    theorems relate two operations with such a history between them: receipts
    are single-use, staged payloads and statuses are stable, and a gate that is
    not public stays closed until it is finished. *)

From Stdlib Require Import Ascii.
From S2P Require Import Prelude RustStr Env SecretFs SecretStore GateStore GateView.
Import SecretFs SecretStore GateStore GateView.
Local Open Scope Z_scope.

Module StoreHistory.

(** ** Operations as data *)

Inductive Op :=
| OOpen (pid : Z) (root : Path)
| OOpenGate (pid : Z) (root : Path)
| OStage (h : SecretStore) (payload : string)
| OLoad (h : SecretStore) (ref : string)
| OAdmit (h : SecretStore) (ref : string)
| OBindReconciliation (h : SecretStore) (epoch ref : string)
| OReconciliationReference (h : SecretStore) (epoch : string)
| OReserveBackupCode (h : SecretStore) (ref consent account source code : string)
| OReserveJourney (h : SecretStore) (consent : string) (references : list string)
| OStoreResult (h : SecretStore) (ref bytes : string)
| OAdmitDelivery (h : SecretStore) (ref : string)
| OCompleteDelivery (h : SecretStore) (ref : string)
| OLoadResult (h : SecretStore) (ref : string)
| OStatus (h : SecretStore) (ref : string)
| OPublicLease (h : SecretStore)
| OPublicEpoch (h : SecretStore)
| OBegin (h : SecretStore)
| OBeginScoped (h : SecretStore) (target digest : string)
| OBeginJourney (h : SecretStore) (target : string) (digests : list string)
| OResume (h : SecretStore)
| OAdvance (h : SecretStore) (permit : inode) (epoch previous : string) (stage : nat)
    (target next : string)
| OFinish (h : SecretStore) (permit : inode) (epoch : string)
| OSameStore (h other : SecretStore)
| OPermitAuthorizes (h : SecretStore) (permit : inode) (epoch : string)
| OPrivateScope (h : SecretStore) (epoch : string)
| OCommandLease (h : SecretStore)
| OCompleteCommand (h : SecretStore) (ref : string)
| OMarkUncertain (h : SecretStore)
| ODropLease (pid : Z) (lease : GateLease)
| OSameDirectory (h other : SecretStore)
| OGetrandom (n : Z)
| OEnsureGateBase (root : Path)
| OEnsureDirectory (root : Path).

Section history.
Context `{!Oracle, !Crypto, !Serde GateState}.

Definition discard {A} (m : SM World A) : SM World unit := m ≫= fun _ => mret tt.

Definition run (o : Op) : SM World unit :=
  match o with
  | OOpen pid root => discard (open pid root)
  | OOpenGate pid root => discard (open_gate pid root)
  | OStage h payload => discard (stage h payload)
  | OLoad h ref => discard (load h ref)
  | OAdmit h ref => admit_ h ref
  | OBindReconciliation h epoch ref => bind_reconciliation h epoch ref
  | OReconciliationReference h epoch => discard (reconciliation_reference h epoch)
  | OReserveBackupCode h ref consent account source code =>
      reserve_backup_code h ref consent account source code
  | OReserveJourney h consent references => reserve_journey h consent references
  | OStoreResult h ref bytes => store_result h ref bytes
  | OAdmitDelivery h ref => admit_delivery h ref
  | OCompleteDelivery h ref => complete_delivery h ref
  | OLoadResult h ref => discard (load_result h ref)
  | OStatus h ref => discard (status h ref)
  | OPublicLease h => discard (gate_public_lease h)
  | OPublicEpoch h => discard (gate_public_epoch h)
  | OBegin h => discard (gate_begin_private h)
  | OBeginScoped h target digest => discard (gate_begin_private_scoped h target digest)
  | OBeginJourney h target digests => discard (gate_begin_private_journey h target digests)
  | OResume h => discard (gate_resume_private h)
  | OAdvance h permit epoch previous stage target next =>
      discard (gate_advance_private h permit epoch previous stage target next)
  | OFinish h permit epoch => discard (gate_finish_private h permit epoch)
  | OSameStore h other => gate_same_store h other
  | OPermitAuthorizes h permit epoch => gate_permit_authorizes h permit epoch
  | OPrivateScope h epoch => discard (gate_private_scope h epoch)
  | OCommandLease h => discard (gate_command_lease h)
  | OCompleteCommand h ref => gate_complete_command h ref
  | OMarkUncertain h => gate_mark_uncertain h
  | ODropLease pid lease => sm_modify (drop_lease pid lease)
  | OSameDirectory h other => discard (same_directory h other)
  | OGetrandom n => discard (getrandom n)
  | OEnsureGateBase root => ensure_gate_base root
  | OEnsureDirectory root => ensure_private_directory root
  end.

Definition label_of (o : Op) : Label :=
  match o with
  | OBegin _ => Begin None
  | OBeginScoped _ target digest =>
      Begin (Some {| target_id := target; identity_digest := digest; journey := [];
                     stage_ := 0 |})
  | OBeginJourney _ target digests =>
      match head digests with
      | Some first =>
          Begin (Some {| target_id := target; identity_digest := first; journey := digests;
                         stage_ := 0 |})
      | None => Other
      end
  | OResume _ => Resume
  | OAdvance _ _ epoch _ _ _ next => Advance epoch next
  | OFinish _ _ epoch => Finish epoch
  | _ => Other
  end.

(** The world after a sequence of operations, whether or not they succeed. *)
Definition history (ops : list Op) (w : World) : World := foldl (fun w o => (run o w).2) w ops.

Lemma preserves_discard {A} R `{!Reflexive R, !Transitive R} (m : SM World A) :
  preserves R m -> preserves R (discard m).
Proof. intros Hm. unfold discard. frame. Qed.
#[local] Hint Resolve preserves_discard : frame.

Lemma preserves_history R `{!Reflexive R, !Transitive R} ops w :
  (forall o, In o ops -> preserves R (run o)) -> R w (history ops w).
Proof.
  revert w. induction ops as [|o ops IH]; intros w Hops; cbn; [done|].
  etrans; [apply Hops; by left|]. apply IH. intros o' Ho. apply Hops. by right.
Qed.

Lemma preserves_drop_lease R `{!FilesFrame R} pid l : preserves R (sm_modify (drop_lease pid l)).
Proof. intros w. apply ff_same, same_files_drop_lease. Qed.
#[local] Hint Resolve preserves_drop_lease : frame.

(** Opening frames a relation that creating the root and the key respects. *)
Lemma frame_open R `{!FilesFrame R} pid root :
  (forall c p, preserves R (mkdirat c p)) ->
  (forall dir b, preserves R (create dir KEY b)) -> preserves R (open pid root).
Proof.
  intros Hmk Hkey. unfold open.
  repeat first [apply frame_unlock_after; [apply _|]|frame_step].
Qed.
Lemma frame_open_gate R `{!FilesFrame R} pid root :
  (forall c p, preserves R (mkdirat c p)) ->
  (forall dir b, preserves R (create dir KEY b)) -> preserves R (open_gate pid root).
Proof.
  intros Hmk Hkey. unfold open_gate. frame; [|by apply frame_open].
  intros w. destruct (then_drop _ _ _ w) as [r w'] eqn:Hrun. cbn.
  apply then_drop_inv in Hrun as (w2 & Hb & Hs). etrans; [|by apply ff_same].
  match type of Hb with ?m _ = _ => assert (preserves R m) as Hp by frame end.
  exact (preserves_run _ _ _ _ _ Hp Hb).
Qed.
#[local] Hint Resolve frame_open frame_open_gate : frame.
Lemma frame_same_directory R `{!SysFrame R} h other : preserves R (same_directory h other).
Proof. unfold same_directory. frame. Qed.
#[local] Hint Resolve frame_same_directory : frame.

Lemma run_durable o : preserves (keeps durable_name) (run o).
Proof.
  destruct o; cbn; unfold gate_begin_private, gate_same_store;
    repeat first [apply preserves_discard; [apply _..|]
                 |apply frame_open; [apply _|intros; frame..]
                 |apply frame_open_gate; [apply _|intros; frame..]
                 |apply frame_ensure_gate_base; [apply _|intros; frame]
                 |apply frame_ensure_directory; [apply _|intros; frame]|frame_step].
Qed.

Lemma history_durable ops w : keeps durable_name w (history ops w).
Proof. apply preserves_history; [apply _..|]. intros o _. apply run_durable. Qed.

(** ** Receipts *)

(** The run added file [f] to directory [dir]. *)
Definition adds (dir : inode) (f : string) (w w' : World) : Prop :=
  file w dir f = None /\ is_Some (file w' dir f).

Lemma adds_once dir f w w1 ops w2 :
  adds dir f w w1 -> durable_name f -> ~ adds dir f (history ops w1) w2.
Proof.
  intros [_ [e He]] Hf [Hn _]. pose proof (history_durable ops w1 _ _ _ He Hf). congruence.
Qed.

Lemma adds_keeps dir f w0 w1 w2 w3 :
  keeps (fun _ => True) w0 w1 -> adds dir f w1 w2 -> keeps (fun _ => True) w2 w3 ->
  adds dir f w0 w3.
Proof.
  intros Hs [Hn [e He]] Hk. split; [|exists e; by apply Hk].
  destruct (file w0 dir f) eqn:Hf; [|done]. rewrite (Hs _ _ _ Hf I) in Hn. done.
Qed.
Lemma adds_frame dir f w0 w1 w2 w3 :
  same_files w0 w1 -> adds dir f w1 w2 -> keeps (fun _ => True) w2 w3 -> adds dir f w0 w3.
Proof. intros Hs. apply adds_keeps. by apply same_files_keeps. Qed.

Lemma create_adds dir f b w u w' : create dir f b w = (Ok u, w') -> adds dir f w w'.
Proof. intros [Hn Hf]%create_ok. split; [done|by eexists]. Qed.

(** A locked operation that ends by creating [f] adds it. *)
Lemma locked_adds {A} h f b (pre : SM World A) w u w' :
  preserves same_files pre ->
  locked h (pre ≫= fun _ => create (directory h) f b) w = (Ok u, w') ->
  adds (directory h) f w w'.
Proof.
  intros Hpre (_ & w1 & w2 & Hs & Hrun & Hs')%locked_ok.
  apply sm_bind_ok in Hrun as (a & w3 & Hp & Hc). apply (preserves_run _ _ _ _ _ Hpre) in Hp.
  apply create_adds in Hc. eapply adds_frame; [by etrans|done|by apply same_files_keeps].
Qed.

Lemma admit_adds h ref w u w' :
  admit_ h ref w = (Ok u, w') -> adds (directory h) (fmt [ref; ".admitted"]) w w'.
Proof. apply locked_adds. frame. Qed.

Lemma stage_adds h payload w r w' :
  stage h payload w = (Ok r, w') -> adds (directory h) (fmt [r; ".payload"]) w w'.
Proof. intros (_ & _ & Hn & b & Hb & _)%stage_ok. split; [done|by eexists]. Qed.

Lemma store_result_adds h ref bytes w u w' :
  store_result h ref bytes w = (Ok u, w') ->
  adds (directory h) (fmt [ref; ".result"]) w w' /\
  is_Some (file w (directory h) (fmt [ref; ".admitted"])).
Proof.
  intros (_ & w1 & w2 & Hs & Hrun & Hs')%locked_ok. inv_ok.
  destruct v0; [|discriminate]. inv_ok. pose_same. read_in. split.
  - apply create_adds in Hrun. eapply adds_frame; [|done|by apply same_files_keeps]. chain.
  - rewrite (same_files_file w w1) in Hf by chain. rewrite Hf. by eexists.
Qed.

Lemma admit_delivery_adds h ref w u w' :
  admit_delivery h ref w = (Ok u, w') ->
  adds (directory h) (fmt [ref; ".delivery-admitted"]) w w' /\
  is_Some (file w (directory h) (fmt [ref; ".result"])).
Proof.
  intros (_ & w1 & w2 & Hs & Hrun & Hs')%locked_ok. inv_ok.
  destruct v0; [|discriminate]. inv_ok. pose_same. read_in. split.
  - apply create_adds in Hrun. eapply adds_frame; [|done|by apply same_files_keeps]. chain.
  - rewrite (same_files_file w w1) in Hf by chain. rewrite Hf. by eexists.
Qed.

Lemma complete_delivery_adds h ref w u w' :
  complete_delivery h ref w = (Ok u, w') ->
  adds (directory h) (fmt [ref; ".delivery"]) w w' /\
  is_Some (file w (directory h) (fmt [ref; ".delivery-admitted"])).
Proof.
  intros (_ & w1 & w2 & Hs & Hrun & Hs')%locked_ok. inv_ok.
  destruct (bool_decide_reflect (v0 = Some "delivery-admitted-v1"%string)) as [->|];
    [|discriminate]. cbn [negb] in Hrun. inv_ok. pose_same. read_in. split.
  - apply create_adds in Hrun. eapply adds_frame; [|done|by apply same_files_keeps]. chain.
  - rewrite (same_files_file w w1) in Hf by chain. rewrite Hf. by eexists.
Qed.

Lemma reserve_journey_adds h consent references w u w' :
  reserve_journey h consent references w = (Ok u, w') ->
  adds (directory h) (journey_consent_file h consent) w w'.
Proof.
  unfold reserve_journey. intros Hrun. inv_ok.
  destruct (negb (Nat.eqb _ _)); [discriminate|].
  apply locked_ok in Hrun as (_ & w1 & w2 & Hs & Hrun & Hs'). inv_ok.
  destruct (MAX_FILES <? _ + 1); [discriminate|]. pose_same.
  apply create_adds in Hrun. eapply adds_frame; [|done|by apply same_files_keeps]. chain.
Qed.

Lemma creates_adds dir (l : list (string * string)) b w u w' :
  sm_iter (fun r => create dir r.1 b) l w = (Ok u, w') ->
  keeps (fun _ => True) w w' /\ Forall (fun r => adds dir r.1 w w') l.
Proof.
  revert w. induction l as [|r l IH]; intros w Hrun; cbn in Hrun; inv_ok; [by split|].
  apply IH in Hrun as [Hk Hl].
  assert (keeps (fun _ => True) w w0) as Hk0
    by (apply (preserves_run _ _ _ _ _ (keeps_create _ _ _ _) Hm)).
  apply create_adds in Hm. split; [by etrans|]. constructor.
  - eapply adds_keeps; [reflexivity|exact Hm|exact Hk].
  - eapply Forall_impl; [exact Hl|]. intros r' Hr'.
    eapply adds_keeps; [exact Hk0|exact Hr'|reflexivity].
Qed.

(** A successful backup-code reservation adds one receipt for the staged
    reference, one for the account and source, one for the account and code. *)
Lemma reserve_backup_code_adds h ref consent account source code w u w' :
  reserve_backup_code h ref consent account source code w = (Ok u, w') ->
  exists normalized, normalized_code account source code = Ok normalized /\
    Forall (fun r => adds (directory h) r.1 w w')
      (reservations h ref account source normalized).
Proof.
  unfold reserve_backup_code. intros Hrun. inv_ok.
  exists v1. split; [done|].
  apply locked_ok in Hrun as (_ & w1 & w2 & Hs & Hrun & Hs'). inv_ok.
  destruct (MAX_FILES <? _ + 3); [discriminate|]. pose_same.
  apply creates_adds in Hrun as [_ Hl]. eapply Forall_impl; [exact Hl|].
  intros r Hr'. eapply adds_frame; [|exact Hr'|by apply same_files_keeps]. chain.
Qed.

(** ** Single use over arbitrary histories *)

(** An admission is irreversible and exclusive: once [admit_] has succeeded
    for a reference, it never succeeds again for that reference in that
    directory, by any handle, whatever operations, faults and crashes come
    between. *)
Theorem admit_once h h' ref ops w u w1 u' w2 :
  admit_ h ref w = (Ok u, w1) -> directory h' = directory h ->
  admit_ h' ref (history ops w1) <> (Ok u', w2).
Proof.
  intros H1%admit_adds Hd H2%admit_adds. rewrite Hd in H2.
  by eapply adds_once; [exact H1|apply durable_receipt|exact H2].
Qed.

(** A backup code is consumed by its first reservation: two successful
    reservations under one key, with any history between them, use different
    staged references, and for one account different sources and different
    codes once case, spaces and hyphens are ignored. *)
Theorem backup_code_once h h' ref consent account source code
    ref' consent' account' source' code' ops w u w1 u' w2 :
  reserve_backup_code h ref consent account source code w = (Ok u, w1) ->
  reserve_backup_code h' ref' consent' account' source' code' (history ops w1) = (Ok u', w2) ->
  directory h' = directory h -> key h' = key h ->
  ref' <> ref /\
  (account' = account -> source' <> source /\
   normalized_code account source' code' <> normalized_code account source code).
Proof.
  intros (n & Hn & H1)%reserve_backup_code_adds (n' & Hn' & H2)%reserve_backup_code_adds Hd Hk.
  rewrite Hd in H2. unfold reservations, reservation_fingerprint in *. rewrite Hk in H2.
  repeat match goal with H : Forall _ (_ :: _) |- _ => apply Forall_cons in H as [? H] end.
  cbn [fst] in *.
  assert (forall r s, adds (directory h) (fmt [r; s]) w w1 ->
    adds (directory h) (fmt [r; s]) (history ops w1) w2 ->
    In s [".backup-reference"; ".backup-source"; ".backup-code"]%string -> False) as Honce.
  { intros r s Ha1 Ha2 Hs. eapply adds_once; [exact Ha1|apply durable_receipt|exact Ha2].
    by repeat destruct Hs as [<-|Hs]. }
  split; [intros ->; by eapply (Honce _ ".backup-reference"%string); [eassumption..|cbn; tauto]|].
  intros ->.
  split; [intros ->; by eapply (Honce _ ".backup-source"%string); [eassumption..|cbn; tauto]|].
  intros He. rewrite Hn, Hn' in He. injection He as ->.
  by eapply (Honce _ ".backup-code"%string); [eassumption..|cbn; tauto].
Qed.

(** A journey consent starts at most one journey. *)
Theorem journey_consent_once h h' consent refs refs' ops w u w1 u' w2 :
  reserve_journey h consent refs w = (Ok u, w1) -> directory h' = directory h ->
  key h' = key h -> reserve_journey h' consent refs' (history ops w1) <> (Ok u', w2).
Proof.
  intros H1%reserve_journey_adds Hd Hk H2%reserve_journey_adds.
  unfold journey_consent_file, reservation_fingerprint in *. rewrite Hd, Hk in H2.
  by eapply adds_once; [exact H1|apply durable_receipt|exact H2].
Qed.

(** Delivery happens at most once and in order: admitting a delivery
    requires a stored result, completing it requires the admission, and neither
    succeeds twice for a reference. *)
Theorem delivery_once h h' ref ops w u w1 u' w2 :
  directory h' = directory h ->
  (admit_delivery h ref w = (Ok u, w1) ->
     is_Some (file w (directory h) (fmt [ref; ".result"])) /\
     admit_delivery h' ref (history ops w1) <> (Ok u', w2)) /\
  (complete_delivery h ref w = (Ok u, w1) ->
     is_Some (file w (directory h) (fmt [ref; ".delivery-admitted"])) /\
     complete_delivery h' ref (history ops w1) <> (Ok u', w2)).
Proof.
  intros Hd. split.
  - intros [H1 Hres]%admit_delivery_adds. split; [done|]. intros [H2 _]%admit_delivery_adds.
    rewrite Hd in H2. by eapply adds_once; [exact H1|apply durable_receipt|exact H2].
  - intros [H1 Hres]%complete_delivery_adds. split; [done|]. intros [H2 _]%complete_delivery_adds.
    rewrite Hd in H2. by eapply adds_once; [exact H1|apply durable_receipt|exact H2].
Qed.

(** ** Stability of what was stored *)

(** C40. What was staged is what is loaded: after [stage] succeeds, any [load] of
    the reference it returned, through any handle with the same directory and
    key and after any history, that succeeds returns the staged payload. *)
Theorem stage_load h h' payload ref ops w w1 p w2 :
  stage h payload w = (Ok ref, w1) ->
  directory h' = directory h -> key h' = key h ->
  load h' ref (history ops w1) = (Ok p, w2) -> p = payload.
Proof.
  intros (_ & _ & _ & b & Hb & Hu & _)%stage_ok Hd Hk (meta & b' & Hb' & Hu')%load_ok.
  rewrite Hd in Hb'. rewrite Hk in Hu'.
  assert (durable_name (fmt [ref; ".payload"])) as Hn by (by apply durable_receipt).
  pose proof (history_durable ops w1 _ _ _ Hb Hn). congruence.
Qed.

(** The order in which a staged operation progresses. *)
Definition status_rank (s : string) : nat :=
  if s == "staged"%string then 0 else if s == "admitted"%string then 1 else 2.

Lemma read_shape dir f max w w1 o w2 :
  read_optional dir f max w1 = (Ok o, w2) -> same_files w w1 ->
  match o with None => file w dir f = None | Some _ => is_Some (file w dir f) end.
Proof.
  intros Hr Hs. rewrite <-(same_files_file w w1) by done.
  destruct o; read_in; [rewrite Hf; by eexists|done].
Qed.

Lemma status_ok h ref w s w' :
  status h ref w = (Ok s, w') ->
  s = "staged"%string /\ file w (directory h) (fmt [ref; ".admitted"]) = None \/
  s = "admitted"%string /\ is_Some (file w (directory h) (fmt [ref; ".admitted"])) /\
    file w (directory h) (fmt [ref; ".result"]) = None \/
  s = "result_ready"%string /\ is_Some (file w (directory h) (fmt [ref; ".admitted"])) /\
    is_Some (file w (directory h) (fmt [ref; ".result"])).
Proof.
  intros (_ & w1 & w2 & Hs & Hrun & _)%locked_ok. inv_ok. pose_same.
  apply (read_shape _ _ _ w) in Hm0; [|chain].
  destruct v0 as [b|]; inv_ok; [right|by left]. pose_same.
  match goal with H : read_optional _ _ _ _ = _ |- _ => apply (read_shape _ _ _ w) in H; [|chain] end.
  destruct v0 as [b'|]; inv_ok; auto.
Qed.

(** The status of an operation only moves forward: staged, admitted, result
    ready, whatever happens between two observations. *)
Theorem status_monotone h h' ref ops w s w1 s' w2 :
  status h ref w = (Ok s, w1) -> directory h' = directory h ->
  status h' ref (history ops w1) = (Ok s', w2) -> (status_rank s <= status_rank s')%nat.
Proof.
  intros Hst Hd Hst'. pose proof Hst as Hfr. frame_in (keeps durable_name) Hfr.
  assert (forall f, durable_name f -> is_Some (file w (directory h) f) ->
    is_Some (file (history ops w1) (directory h) f)) as Hkeep.
  { intros f Hf [e He]. exists e. apply history_durable; [|done]. by apply Hfr. }
  apply status_ok in Hst, Hst'. rewrite Hd in Hst'.
  pose proof (Hkeep (fmt [ref; ".admitted"]) ltac:(by apply durable_receipt)) as Ha.
  pose proof (Hkeep (fmt [ref; ".result"]) ltac:(by apply durable_receipt)) as Hr.
  destruct Hst as [[-> Hst]|[(-> & Hst & Hst2)|(-> & Hst & Hst2)]];
  destruct Hst' as [[-> Hst']|[(-> & Hst' & Hst2')|(-> & Hst' & Hst2')]]; try (vm_compute; lia); exfalso.
  - apply Ha in Hst. rewrite Hst' in Hst. by destruct Hst.
  - apply Ha in Hst. rewrite Hst' in Hst. by destruct Hst.
  - apply Hr in Hst2. rewrite Hst2' in Hst2. by destruct Hst2.
Qed.

(** ** The gate stays closed *)

Lemma run_gate_frame o dir :
  label_of o = Other -> preserves (same_content (gate_file dir)) (run o).
Proof.
  intros Hl.
  assert (forall d b, preserves (same_content (gate_file dir)) (create d KEY b)) as Hkey.
  { intros d b. apply same_content_create. intros [_ [[=]|[=]]]. }
  destruct o; try discriminate Hl; cbn; unfold gate_begin_private, gate_same_store;
    repeat first [apply preserves_discard; [apply _..|]
                 |apply frame_open; [apply _|intros; frame..]
                 |apply frame_open_gate; [apply _|intros; frame..]
                 |apply frame_ensure_gate_base; [apply _|intros; frame]
                 |apply frame_ensure_directory; [apply _|intros; frame]|frame_step].
  unfold gate_begin_private_journey. cbn in Hl. destruct (head digests); [discriminate|].
  cbn [ok_or]. intros w. cbn. done.
Qed.

Lemma refines_discard l {A} (m : SM World A) : refines l m -> refines l (discard m).
Proof.
  intros Hm k dir w r w' Hk Hrun.
  assert (exists r0, m w = (r0, w')) as [r0 Hr].
  { unfold discard in Hrun.
    apply sm_bind_inv in Hrun as [(a & w1 & Ha & [= _ <-])|(e & He & _)]; eauto. }
  by eapply Hm.
Qed.
Lemma refines_lift l {A B} (r0 : res A) (f : A -> SM World B) :
  (forall a, refines l (f a)) -> refines l (a ← sm_lift r0; f a).
Proof.
  intros Hf k dir w r w' Hk Hrun.
  apply sm_bind_inv in Hrun as [(a & w1 & [_ ->]%sm_lift_ok & Hrun)|(e & [= _ <-] & _)]; [|done].
  by eapply Hf.
Qed.

Lemma run_refines o : refines (label_of o) (run o).
Proof.
  assert (label_of o = Other -> refines (label_of o) (run o)) as Hother.
  { intros Hl. rewrite Hl. apply refines_other. intros. by apply run_gate_frame. }
  destruct o; try (by apply Hother); cbn [label_of run].
  - apply refines_discard, begin_refines.
  - apply refines_discard, refines_lift. intros _. apply begin_refines.
  - destruct digests as [|first digests]; [by apply Hother|]. cbn [head].
    apply refines_discard. unfold gate_begin_private_journey. cbn [head ok_or].
    intros k dir w r w' Hk Hrun.
    apply sm_bind_inv in Hrun as [(a & w1 & [= <- <-] & Hrun)|(e & [= ] & _)].
    revert Hk Hrun. apply refines_lift. intros _. apply begin_refines.
  - apply refines_discard, resume_refines.
  - apply refines_discard, advance_refines.
  - apply refines_discard, finish_refines.
Qed.

Lemma run_step_view o k dir w :
  keyed k dir w -> gate_step (label_of o) (gate_view k dir w) (gate_view k dir (run o w).2).
Proof. intros Hk. destruct (run o w) as [r w'] eqn:Hrun. by eapply run_refines. Qed.

(** C2. The store implements the abstract gate: on a keyed directory every
    operation of the store or its gate, by any handle and under any faults, moves
    the gate by one step of the automaton that carries the operation's own label,
    or leaves it alone. *)
Theorem gate_refinement o k dir w :
  keyed k dir w ->
  gate_step (label_of o) (gate_view k dir w) (gate_view k dir (run o w).2).
Proof.
  apply run_step_view.
Qed.

Lemma keyed_run o k dir w : keyed k dir w -> keyed k dir (run o w).2.
Proof.
  unfold keyed, content. intros Hk. destruct (file w dir KEY) as [[m b| | |]|] eqn:He; try done.
  by rewrite (run_durable o w _ _ _ He ltac:(by vm_compute)).
Qed.

Lemma keyed_history k dir ops w : keyed k dir w -> keyed k dir (history ops w).
Proof.
  revert w. induction ops as [|o ops IH]; intros w Hk; [done|]. cbn. by apply IH, keyed_run.
Qed.

Lemma closed_history k dir ops w :
  keyed k dir w -> ~ is_public (gate_view k dir w) ->
  (forall o e, In o ops -> label_of o <> Finish e) ->
  keyed k dir (history ops w) /\ ~ is_public (gate_view k dir (history ops w)).
Proof.
  revert w. induction ops as [|o ops IH]; intros w Hk Hv Hops; [done|]. cbn.
  apply IH; [by apply keyed_run| |intros o' e Ho; apply Hops; by right].
  eapply gate_step_closed; [by apply run_step_view|done|].
  intros e He. by eapply (Hops o e (or_introl eq_refl)).
Qed.

(** A gate that is not public refuses every public access. *)
Lemma closed_refuses k w h :
  keyed k (directory h) w -> ~ is_public (gate_view k (directory h) w) ->
  is_ok (gate_public_lease h w).1 = false /\ is_ok (gate_public_epoch h w).1 = false /\
  is_ok (gate_command_lease h w).1 = false /\
  (forall sc, is_ok (gate_begin_private_with_scope h sc w).1 = false).
Proof.
  intros Hk Hv.
  assert (forall {A} (m : SM World A),
    (forall x w2, m w = (Ok x, w2) -> keyed (key h) (directory h) w /\
      is_public (gate_view (key h) (directory h) w)) -> is_ok (m w).1 = false) as Hfail.
  { intros A m Hm. destruct (m w) as [[x|e] w2]; [|done]. exfalso.
    destruct (Hm x w2 eq_refl) as [Hkh Hpub]. apply Hv. unfold keyed in Hkh, Hk.
    assert (k = key h) as -> by congruence. done. }
  split_and!; [..|intros sc]; apply Hfail; intros x w2 Hrun.
  - by eapply gate_public_lease_ok.
  - apply gate_public_epoch_ok in Hrun as [? Hview]. split; [done|]. rewrite Hview.
    destruct x; [right; eauto|by left].
  - unfold gate_command_lease in Hrun. apply sm_bind_ok in Hrun as (l & w3 & Hl & _).
    by eapply gate_public_lease_ok.
  - destruct x as [l e]. by apply gate_begin_ok in Hrun as (? & ? & _).
Qed.

(** C18. Fail closed: from a gate that is not public, a history without a finish
    request, whatever faults and crashes it contains, leads to a world where no
    handle obtains a public lease, a public epoch, a command lease, or a new
    private interval. *)
Theorem gate_fails_closed k dir ops w h :
  keyed k dir w -> ~ is_public (gate_view k dir w) ->
  (forall o e, In o ops -> label_of o <> Finish e) -> directory h = dir ->
  let w' := history ops w in
  is_ok (gate_public_lease h w').1 = false /\ is_ok (gate_public_epoch h w').1 = false /\
  is_ok (gate_command_lease h w').1 = false /\
  (forall sc, is_ok (gate_begin_private_with_scope h sc w').1 = false).
Proof.
  intros Hk Hv Hops <- w'. destruct (closed_history k _ ops w Hk Hv Hops) as [Hk' Hv'].
  exact (closed_refuses k w' h Hk' Hv').
Qed.

(** Closing the gate: a successful [begin] found it public, left it private
    with the epoch it returned and the requested scope, and from then on, until a
    finish request, no handle obtains public access, whatever happens. *)
Theorem begin_closes_gate h sc l e w w1 ops h' :
  gate_begin_private_with_scope h sc w = (Ok (l, e), w1) ->
  (forall o e, In o ops -> label_of o <> Finish e) -> directory h' = directory h ->
  is_public (gate_view (key h) (directory h) w) /\
  gate_view (key h) (directory h) w1 = Private e sc /\
  is_ok (gate_public_lease h' (history ops w1)).1 = false /\
  is_ok (gate_public_epoch h' (history ops w1)).1 = false.
Proof.
  intros Hrun Hops Hd. pose proof Hrun as Hk1.
  apply gate_begin_ok in Hrun as (Hk & Hpub & _ & Hv & _).
  assert (keyed (key h) (directory h) w1) as Hkey.
  { unfold keyed, content in *. destruct (file w (directory h) KEY) as [[m b| | |]|] eqn:He;
      try done. frame_in (keeps durable_name) Hk1.
    by rewrite (Hk1 _ _ _ He ltac:(by vm_compute)). }
  assert (~ is_public (gate_view (key h) (directory h) w1)) as Hnp.
  { rewrite Hv. intros [?|[? ?]]; done. }
  pose proof (closed_history _ _ ops w1 Hkey Hnp Hops) as [Hk' Hv'].
  split_and!; [done|done| |].
  - destruct (gate_public_lease h' (history ops w1)) as [[x|] w2] eqn:Hl; [|done].
    apply gate_public_lease_ok in Hl as [Hkh Hp]. rewrite Hd in Hkh, Hp. destruct Hv'.
    unfold keyed in *. congruence.
  - destruct (gate_public_epoch h' (history ops w1)) as [[x|] w2] eqn:Hl; [|done].
    apply gate_public_epoch_ok in Hl as [Hkh Hp]. rewrite Hd in Hkh, Hp. destruct Hv'.
    unfold keyed in *. assert (key h' = key h) as <- by congruence. rewrite Hp.
    destruct x; [right; eauto|by left].
Qed.

End history.
End StoreHistory.

(** ** Mutual exclusion of gate leases

    A lease is an advisory lock on its own open file description. The file
    frames every operation for "lock [fd] of directory [id] is still held" and
    concludes that a private interval excludes public leases, and public leases
    exclude a private interval, over arbitrary histories. *)

Import SecretFs SecretStore GateStore GateView StoreHistory.
Local Open Scope Z_scope.

Module GateLocks.

Definition holds (id : inode) (fd : nat) (ex : bool) (w : World) : Prop :=
  exists d, w_dirs w !! id = Some d /\ d_locks d !! fd = Some ex.

(** The open file description [fd] exists already, and keeps its lock. *)
Definition keeps_lock (id : inode) (fd : nat) (ex : bool) : relation World := fun w w' =>
  (fd < w_next_fd w)%nat ->
  (fd < w_next_fd w')%nat /\ (holds id fd ex w -> holds id fd ex w').

Section locks.
Context `{!Oracle, !Crypto, !Serde GateState} (id : inode) (fd0 : nat) (ex0 : bool).
Let R := keeps_lock id fd0 ex0.

Lemma keeps_lock_refl : Reflexive R.
Proof. intros w Hw. done. Qed.
Lemma keeps_lock_trans : Transitive R.
Proof. intros w1 w2 w3 H1 H2 Hw. destruct (H1 Hw) as [Hw2 ?], (H2 Hw2). auto. Qed.
#[local] Existing Instance keeps_lock_refl.
#[local] Existing Instance keeps_lock_trans.
#[local] Instance keeps_lock_sys : SysFrame R.
Proof.
  constructor; [apply _|apply _|intros w Hw; done|]. intros w Hw. cbn. split; [lia|done].
Qed.

Lemma keeps_lock_entries id' g w : R w (update_entries id' g w).
Proof.
  intros Hw. split; [done|]. intros (d & Hd & Hl). unfold holds, update_entries, with_dirs; cbn.
  rewrite lookup_alter. case_decide; subst; [|by exists d].
  rewrite Hd. by eexists.
Qed.

Lemma keeps_lock_locks id' fd' g w :
  (fd' <> fd0 -> forall m, (g m : gmap nat bool) !! fd0 = m !! fd0) -> fd' <> fd0 ->
  R w (update_locks id' g w).
Proof.
  intros Hg Hne Hw. split; [done|]. intros (d & Hd & Hl).
  unfold holds, update_locks, with_dirs; cbn.
  rewrite lookup_alter. case_decide; subst; [|by exists d].
  rewrite Hd. eexists. split; [done|]. cbn. by rewrite Hg.
Qed.

Lemma keeps_lock_flock id' fd' ex : fd' <> fd0 -> preserves R (flock id' fd' ex).
Proof.
  intros Hne. unfold flock. frame. intros w. unfold sm_modify; cbn.
  apply (keeps_lock_locks _ fd'); [|done]. intros _ m. by rewrite lookup_insert_ne.
Qed.
Lemma keeps_lock_funlock id' fd' w : fd' <> fd0 -> R w (funlock id' fd' w).
Proof.
  intros Hne. apply (keeps_lock_locks _ fd'); [|done]. intros _ m. by rewrite lookup_delete_ne.
Qed.
Lemma keeps_lock_handle id' fd' : fd' <> fd0 -> HandleFrame R id' fd'.
Proof.
  intros Hne. constructor; [apply _| |]; intros;
    [by apply keeps_lock_flock|by apply keeps_lock_funlock].
Qed.

Lemma keeps_lock_modify_entries id' g : preserves R (sm_modify (update_entries id' g)).
Proof. intros w. apply keeps_lock_entries. Qed.
#[local] Hint Resolve keeps_lock_modify_entries : frame.
Lemma keeps_lock_create id' f b : preserves R (create id' f b).
Proof. unfold create, create_new. frame. Qed.
Lemma keeps_lock_rename id' f g : preserves R (rename id' f g).
Proof. unfold rename. frame. Qed.
Lemma keeps_lock_unlink id' f : preserves R (unlink id' f).
Proof. unfold unlink. frame. Qed.
Lemma keeps_lock_mkdirat c p : preserves R (mkdirat c p).
Proof.
  intros w. destruct (mkdirat c p w) as [r w'] eqn:Hrun. cbn.
  unfold mkdirat in Hrun.
  apply sm_bind_inv in Hrun as [(o & w1 & [= <- <-] & Hrun)|(e & [= ] & _)].
  destruct (o_sys (w_tick w)); [|injection Hrun as _ <-; apply sf_tick].
  apply sm_bind_inv in Hrun as [(d & w1 & [-> Hd]%get_dir_inv & Hrun)|(e & [= _ <-] & ->)];
    [|apply sf_tick].
  destruct (d_entries d !! p); injection Hrun as _ <-; [apply sf_tick|].
  intros Hw. split; [done|]. intros (d' & Hd' & Hl). unfold holds; cbn.
  assert (id <> fresh (dom (w_dirs w))) as Hid.
  { intros ->. apply (is_fresh (dom (w_dirs w))), elem_of_dom. by eexists. }
  rewrite lookup_insert_ne by done. rewrite lookup_alter.
  case_decide; [subst; rewrite Hd'; by eexists|by exists d'].
Qed.
#[local] Hint Resolve keeps_lock_create keeps_lock_rename keeps_lock_unlink
  keeps_lock_mkdirat : frame.

(** Code that runs with a fresh description cannot touch the older one. *)
Lemma keeps_lock_fresh {A} (f : nat -> SM World A) :
  (forall fd, fd <> fd0 -> preserves R (f fd)) -> preserves R (fd ← fresh_fd; f fd).
Proof.
  intros Hf w Hw. unfold mbind, sm_bind, fresh_fd; cbn.
  assert (w_next_fd w <> fd0) as Hne by lia.
  specialize (Hf _ Hne {| w_dirs := w_dirs w; w_tick := w_tick w; w_next_fd := S (w_next_fd w) |}).
  apply Hf. cbn. lia.
Qed.

Lemma keeps_lock_independent self ex : preserves R (independent_lock self ex).
Proof.
  unfold independent_lock.
  apply preserves_bind; [apply _|frame|intros _].
  apply preserves_bind; [apply _|frame|intros _].
  apply keeps_lock_fresh. intros fd Hne. pose proof (keeps_lock_handle (directory self) fd Hne).
  frame.
Qed.

Lemma keeps_lock_drop pid l w :
  gl_fd l <> fd0 \/ gl_owner_pid l <> pid -> R w (drop_lease pid l w).
Proof.
  intros Hl. unfold drop_lease. destruct (Z.eqb_spec (gl_owner_pid l) pid); [|apply keeps_lock_refl].
  apply keeps_lock_funlock. tauto.
Qed.

Lemma keeps_lock_or_drop {A} self m (body : GateLease -> SM World A) :
  fresh_lease m -> preserves R m -> (forall l, preserves R (body l)) ->
  preserves R (l ← m; or_drop self l (body l)).
Proof.
  intros Hfr Hm Hb w Hw. unfold mbind, sm_bind. pose proof (Hm w Hw) as Hm1.
  destruct (m w) as [[l|e] w1] eqn:Hrun; cbn in *; [|done]. apply Hfr in Hrun.
  destruct Hm1 as [Hw1 Hh1]. pose proof (Hb l w1 Hw1) as Hb1. unfold or_drop.
  destruct (body l w1) as [[a|e] w2]; cbn in *; destruct Hb1 as [Hw2 Hh2]; [by auto|].
  destruct (keeps_lock_drop (pid self) l w2 ltac:(lia) Hw2). auto.
Qed.
Lemma keeps_lock_then_drop {A} self m (body : GateLease -> SM World A) :
  fresh_lease m -> preserves R m -> (forall l, preserves R (body l)) ->
  preserves R (l ← m; then_drop self l (body l)).
Proof.
  intros Hfr Hm Hb w Hw. unfold mbind, sm_bind. pose proof (Hm w Hw) as Hm1.
  destruct (m w) as [[l|e] w1] eqn:Hrun; cbn in *; [|done]. apply Hfr in Hrun.
  destruct Hm1 as [Hw1 Hh1]. pose proof (Hb l w1 Hw1) as Hb1. unfold then_drop.
  destruct (body l w1) as [r w2]; cbn in *; destruct Hb1 as [Hw2 Hh2].
  destruct (keeps_lock_drop (pid self) l w2 ltac:(lia) Hw2). auto.
Qed.

#[local] Instance keeps_lock_gate self : GateFrame R self.
Proof.
  constructor; [apply _|intros; frame|intros; frame|intros; frame| | |].
  - intros. apply keeps_lock_independent.
  - intros. by apply keeps_lock_or_drop.
  - intros. by apply keeps_lock_then_drop.
Qed.
#[local] Instance keeps_lock_write self : GateWrite R self.
Proof. constructor; [apply _|intros; frame..]. Qed.
Lemma keeps_lock_store self : fd self <> fd0 -> StoreFrame R self.
Proof. intros Hne. constructor; [by apply keeps_lock_handle|]. intros. frame. Qed.

(** ** Histories that do not release the lease *)

Definition handle_of (o : Op) : option SecretStore :=
  match o with
  | OStage h _ | OLoad h _ | OAdmit h _ | OBindReconciliation h _ _
  | OReconciliationReference h _ | OReserveBackupCode h _ _ _ _ _ | OReserveJourney h _ _
  | OStoreResult h _ _ | OAdmitDelivery h _ | OCompleteDelivery h _ | OLoadResult h _
  | OStatus h _ => Some h
  | _ => None
  end.

(** No handle shares the lease's description, and only other leases are dropped;
    a drop by a process that does not own the lease (a forked child) is allowed. *)
Definition respects (o : Op) : Prop :=
  match o with
  | ODropLease pid l => gl_fd l <> fd0 \/ gl_owner_pid l <> pid
  | _ => match handle_of o with Some h => fd h <> fd0 | None => True end
  end.

Lemma keeps_lock_open pid root : preserves R (open pid root).
Proof.
  unfold open. apply preserves_bind; [apply _|apply frame_directory; [apply _|intros; frame]|intros dir].
  apply keeps_lock_fresh. intros fd Hne.
  set (self := {| directory := dir; fd := fd; pid := pid; key := "" |}).
  assert (HandleFrame R (directory self) (SecretStore.fd self)) by (by apply keeps_lock_handle).
  repeat first [apply frame_unlock_after; [apply _|]|frame_step].
Qed.
Lemma keeps_lock_open_gate pid root : preserves R (open_gate pid root).
Proof.
  pose proof (keeps_lock_open pid root).
  unfold open_gate. apply preserves_bind; [apply _|apply frame_directory; [apply _|intros; frame]|intros dir].
  apply keeps_lock_fresh. intros fd Hne.
  set (self := {| directory := dir; fd := fd; pid := pid; key := "" |}).
  assert (preserves R (lease ← independent_lock self false;
    then_drop self lease (
      o ← read_optional dir KEY 32;
      match o with
      | Some bytes => if zlen bytes =? 32 then mret (Some bytes) else sm_err INVALID
      | None => mret None
      end))) as Hread.
  { apply keeps_lock_then_drop; [auto with frame|apply keeps_lock_independent|intros; frame]. }
  intros w. specialize (Hread w). revert Hread. unfold mbind, sm_bind.
  destruct (independent_lock self false w) as [[l|e] w1]; [|done]. cbn.
  match goal with |- R _ (?m _).2 -> _ => destruct (m w1) as [[[k|]|e] w2] end; cbn; try done.
  intros Hw. etrans; [exact Hw|]. match goal with H : preserves R (open _ _) |- _ => apply H end.
Qed.

Lemma run_keeps_lock o : respects o -> preserves R (run o).
Proof.
  intros Ho. pose proof keeps_lock_open. pose proof keeps_lock_open_gate.
  assert (match handle_of o with Some h => StoreFrame R h | None => True end) as Hst.
  { destruct o; cbn in *; try done; by apply keeps_lock_store. }
  destruct o; cbn in Hst |- *; unfold gate_begin_private, gate_same_store;
    repeat first [apply preserves_discard; [apply _..|]
                 |apply frame_same_directory; apply _
                 |apply frame_ensure_gate_base; [apply _|intros; frame]
                 |apply frame_ensure_directory; [apply _|intros; frame]|frame_step].
  intros w. by apply keeps_lock_drop.
Qed.

Lemma history_keeps_lock ops w : Forall respects ops -> R w (history ops w).
Proof.
  intros Hops. apply preserves_history; [apply _..|]. intros o Ho. apply run_keeps_lock.
  by apply (proj1 (List.Forall_forall _ _) Hops).
Qed.

Lemma lock_blocks self ex w l w' :
  holds id fd0 ex0 w -> (fd0 < w_next_fd w)%nat -> directory self = id ->
  (ex0 = true \/ ex = true) -> independent_lock self ex w <> (Ok l, w').
Proof.
  intros (d & Hd & Hl) Hw Hdir Hex Hrun.
  apply independent_lock_ok in Hrun as (Hf & _ & _ & _ & w1 & Hflock & Hdirs & _).
  unfold flock in Hflock.
  apply sm_bind_ok in Hflock as (o & w2 & [= <- <-] & Hflock).
  destruct (o_sys (w_tick w1)); [|discriminate]. inv_ok.
  apply get_dir_inv in Hm as [-> Hd']. cbn in Hd'. rewrite Hdirs, Hdir, Hd in Hd'.
  injection Hd' as <-. unfold flock_allowed in Hflock.
  destruct (bool_decide_reflect (map_Forall (fun fd' ex' => fd' = gl_fd l \/ (ex = false /\ ex' = false)) (d_locks d)))
    as [Hall|]; [|discriminate].
  destruct (Hall _ _ Hl) as [->|[-> ->]]; [lia|]. by destruct Hex.
Qed.

End locks.

(** [flock] leaves the lock held. *)
Lemma independent_lock_holds `{!Oracle} self ex w l w' :
  independent_lock self ex w = (Ok l, w') ->
  holds (directory self) (gl_fd l) ex w' /\ (gl_fd l < w_next_fd w')%nat /\
  gl_owner_pid l = pid self.
Proof.
  intros (Hf & _ & Hp & _ & w1 & Hflock & Hdirs & Hn)%independent_lock_ok.
  unfold flock in Hflock.
  apply sm_bind_ok in Hflock as (o & w2 & [= <- <-] & Hflock).
  destruct (o_sys (w_tick w1)); [|discriminate]. inv_ok.
  apply get_dir_inv in Hm as [-> Hd']. cbn in Hd'.
  destruct (flock_allowed _ _ _); [|discriminate]. unfold sm_modify in Hflock.
  injection Hflock as <-. split_and!; [|cbn; lia|done].
  unfold holds, update_locks, with_dirs; cbn. rewrite lookup_alter_eq, Hd'. eexists.
  split; [done|]. cbn. by rewrite lookup_insert_eq.
Qed.

Section exclusion.
Context `{!Oracle, !Crypto, !Serde GateState}.

Lemma begin_holds h sc w l e w1 :
  gate_begin_private_with_scope h sc w = (Ok (l, e), w1) ->
  holds (directory h) (gl_fd l) true w1 /\ (gl_fd l < w_next_fd w1)%nat /\
  gl_owner_pid l = pid h.
Proof.
  intros Hrun. unfold gate_begin_private_with_scope in Hrun.
  apply lease_ok in Hrun as (l' & w0 & w2 & Hl & _ & Hrun & ->).
  apply independent_lock_holds in Hl as (Hh & Hf & Hp).
  assert (l' = l) as ->.
  { revert Hrun. clear. intros Hrun. inv_ok. destruct (_ && _); [discriminate|]. inv_ok.
    destruct (is_some _); [discriminate|]. inv_ok. destruct (negb _); [discriminate|]. by inv_ok. }
  pose proof (keeps_lock_sys (directory h) (gl_fd l) true).
  pose proof (keeps_lock_write (directory h) (gl_fd l) true h).
  frame_in (keeps_lock (directory h) (gl_fd l) true) Hrun.
  destruct (Hrun Hf). auto.
Qed.

Lemma public_lease_holds h w l w1 :
  gate_public_lease h w = (Ok l, w1) ->
  holds (directory h) (gl_fd l) false w1 /\ (gl_fd l < w_next_fd w1)%nat.
Proof.
  intros Hrun. unfold gate_public_lease in Hrun.
  apply lease_ok in Hrun as (l' & w0 & w2 & Hl & _ & Hrun & ->).
  apply independent_lock_holds in Hl as (Hh & Hf & _).
  assert (l' = l) as ->.
  { revert Hrun. clear. intros Hrun. inv_ok. destruct v1; [discriminate|]. by inv_ok. }
  pose proof (keeps_lock_sys (directory h) (gl_fd l) false).
  frame_in (keeps_lock (directory h) (gl_fd l) false) Hrun.
  destruct (Hrun Hf). auto.
Qed.

(** What a held lock refuses: leases of the other kind, by any handle. *)
Lemma held_refuses id fd0 ex0 w h :
  holds id fd0 ex0 w -> (fd0 < w_next_fd w)%nat -> directory h = id ->
  (forall sc, is_ok (gate_begin_private_with_scope h sc w).1 = false) /\
  is_ok (gate_resume_private h w).1 = false /\
  (ex0 = true -> is_ok (gate_public_lease h w).1 = false /\
                 is_ok (gate_command_lease h w).1 = false).
Proof.
  intros Hh Hf Hd.
  assert (forall ex A (body : GateLease -> SM World A), (ex0 = true \/ ex = true) ->
    is_ok ((lease ← independent_lock h ex; or_drop h lease (body lease)) w).1 = false) as Hlock.
  { intros ex A body Hex.
    match goal with |- is_ok (?m w).1 = _ => destruct (m w) as [[a|e] w'] eqn:Hrun end; [|done].
    apply lease_ok in Hrun as (l & w1 & w2 & Hl & _).
    exfalso. by eapply (lock_blocks id fd0 ex0). }
  split_and!; [intros sc; apply Hlock; auto|apply Hlock; auto|].
  intros Hex. assert (is_ok (gate_public_lease h w).1 = false) as Hp by (apply Hlock; auto).
  split; [done|]. unfold gate_command_lease, mbind, sm_bind.
  by destruct (gate_public_lease h w) as [[]].
Qed.

(** C25. A private interval is exclusive: while the lease returned by [begin] is
    not dropped by the process that owns it, no handle on the directory obtains a
    public or command lease, begins, or resumes a private interval; histories
    include drops of inherited copies of the lease by forked children. *)
Theorem private_lease_exclusive h sc w l e w1 ops h' :
  gate_begin_private_with_scope h sc w = (Ok (l, e), w1) ->
  Forall (respects (gl_fd l)) ops -> directory h' = directory h ->
  let w' := history ops w1 in
  is_ok (gate_public_lease h' w').1 = false /\ is_ok (gate_command_lease h' w').1 = false /\
  (forall sc', is_ok (gate_begin_private_with_scope h' sc' w').1 = false) /\
  is_ok (gate_resume_private h' w').1 = false.
Proof.
  intros (Hh & Hf & _)%begin_holds Hops Hd w'.
  destruct (history_keeps_lock (directory h) (gl_fd l) true ops w1 Hops Hf) as [Hf' Hh'].
  destruct (held_refuses _ _ _ w' h' (Hh' Hh) Hf' Hd) as (? & ? & Hpub).
  destruct (Hpub eq_refl). auto.
Qed.

(** A public lease keeps the gate public: while one is held, no handle begins
    or resumes a private interval on the directory. *)
Theorem public_lease_excludes_private h w l w1 ops h' :
  gate_public_lease h w = (Ok l, w1) ->
  Forall (respects (gl_fd l)) ops -> directory h' = directory h ->
  (forall sc, is_ok (gate_begin_private_with_scope h' sc (history ops w1)).1 = false) /\
  is_ok (gate_resume_private h' (history ops w1)).1 = false.
Proof.
  intros (Hh & Hf)%public_lease_holds Hops Hd.
  destruct (history_keeps_lock (directory h) (gl_fd l) false ops w1 Hops Hf) as [Hf' Hh'].
  by destruct (held_refuses _ _ _ (history ops w1) h' (Hh' Hh) Hf' Hd) as (? & ? & _).
Qed.
End exclusion.
End GateLocks.
