(* ===== verification/PrivateIdentity.v ===== *)
(** * Identity checks for private retained-tab operations

    Model of [cli/src/native/private_identity.rs]: normalization of private
    destinations, comparison of a staged tab handle with the authoritative and
    live identities, and the digest that binds a private epoch to its target. *)

From S2P Require Import Prelude RustStr Env.
From Stdlib Require Import Ascii.

Local Open Scope Z_scope.

Module PrivateIdentity.

Record ValidatedPrivateTarget := {
  profile_id : string;
  browser_id : string;
  session_name : string;
  target_id : string;
  tab_id : string;
  lease_id : string;
  lease_state : string;
  owner_session_id : option string;
  origin : string;
  url : string;
  scope_digest : string;
}.

(** [ValidatedPrivateJourney] *)
Record ValidatedPrivateJourney := { j_target_id : string; j_digests : list string }.

Record LivePrivateIdentity := {
  live_profile_id : string;
  live_browser_id : string;
  live_session_name : string;
  live_target_id : string;
  live_url : string;
  live_ready : bool;
}.

Section identity.
Context `{!Json, !UrlLib, !Crypto, !Serde (list Scalar)}.

Definition required (handle : value) (field : string) : res string :=
  match (v ← jget handle field; as_str v) with
  | Some s => if negb (is_empty s) && (trim s == s) then Ok s else Err "private_identity_incomplete"
  | None => Err "private_identity_incomplete"
  end.

Definition get_bool (handle : value) (field : string) : option bool :=
  v ← jget handle field; as_bool v.

Definition usable (handle : value) : res unit :=
  if (get_bool handle "valid" != Some true)
     || match jget handle "staleReason" with None => true | Some v => negb (is_null v) end
  then Err "private_identity_stale" else
  lease_state ← required handle "leaseState";
  if lease_state != "exclusive"%string then Err "private_identity_lease_unavailable" else
  if get_bool handle "leaseHeartbeatExpected" != Some true
  then Err "private_identity_lease_unavailable" else
  lease_id ← required handle "leaseId";
  session_name ← required handle "sessionName";
  if lease_id != session_name then Err "private_identity_lease_unavailable" else Ok tt.

(** [value.get(..8)]: the first eight bytes, when they end at a character. *)
Definition get_to (n : nat) (value : string) : option string :=
  let l := bytes_of value in
  if (length l <? n)%nat then None else
  match drop n l with
  | c :: _ => if in_range 128 191 c then None else Some (of_bytes (take n l))
  | [] => Some (of_bytes (take n l))
  end.

Definition canonical_private_url (value : string) : res string :=
  if negb (match get_to 8 value with
           | Some prefix => eq_ignore_ascii_case prefix "https://"
           | None => false
           end)
     || existsb (fun c => is_control c || is_whitespace c) (chars value)
     || bytes_any (fun c => Ascii.eqb c "\" || Ascii.eqb c "#") value
  then Err "private_url_invalid" else
  parsed ← map_err "private_url_invalid"%string (url_parse value);
  if (u_scheme parsed != "https"%string)
     || match u_host_str parsed with None => true | Some _ => false end
     || negb (is_empty (u_username parsed))
     || match u_password parsed with Some _ => true | None => false end
     || match u_fragment parsed with Some _ => true | None => false end
     || match split_on "/" value !! 2%nat with
        | Some host => bytes_any (Ascii.eqb "@") host
        | None => false
        end
  then Err "private_url_invalid" else Ok (u_as_str parsed).

Definition checked_destination (origin url : string) : res string :=
  canonical ← canonical_private_url url;
  parsed ← map_err "private_url_invalid"%string (url_parse canonical);
  if u_origin parsed != origin then Err "private_origin_mismatch" else Ok canonical.

Definition identity_fields : list string :=
  ["profileId"; "browserId"; "sessionName"; "targetId"; "tabId"; "leaseId"; "leaseState"]%string.

Definition validate_private_identity (staged authoritative : value) (live : LivePrivateIdentity)
    (expected_origin expected_url : string) : res unit :=
  usable staged ≫= fun _ =>
  usable authoritative ≫= fun _ =>
  if negb (live_ready live) then Err "private_identity_not_ready"%string else
  for_each (fun field =>
    a ← required staged field;
    b ← required authoritative field;
    if a != b then Err "private_identity_mismatch"%string else Ok tt) identity_fields ≫= fun _ =>
  if jget staged "ownerSessionId" != jget authoritative "ownerSessionId"
  then Err "private_identity_mismatch"%string else
  for_each (fun '(field, observed) =>
    a ← required authoritative field;
    if a != observed then Err "private_identity_mismatch"%string else Ok tt)
    [("profileId", live_profile_id live); ("browserId", live_browser_id live);
     ("sessionName", live_session_name live); ("targetId", live_target_id live)]%string
    ≫= fun _ =>
  expected ← checked_destination expected_origin expected_url;
  staged_url ← required staged "url";
  authoritative_url ← required authoritative "url";
  for_each (fun observed =>
    c ← canonical_private_url observed;
    if c != expected then Err "private_url_mismatch"%string else Ok tt)
    [staged_url; authoritative_url; live_url live].

(** The canonical JSON array that is hashed into the scope digest. *)
Definition scope_array (t : ValidatedPrivateTarget) : list Scalar :=
  [SStr "agent-browser.private-target.v1"; SStr (profile_id t); SStr (browser_id t);
   SStr (session_name t); SStr (target_id t); SStr (tab_id t); SStr (lease_id t);
   SStr (lease_state t);
   match owner_session_id t with Some o => SStr o | None => SNull end;
   SStr (origin t); SStr (url t); SBool true].

Definition with_destination (t : ValidatedPrivateTarget) (o u : string)
    : ValidatedPrivateTarget :=
  {| profile_id := profile_id t; browser_id := browser_id t; session_name := session_name t;
     target_id := target_id t; tab_id := tab_id t; lease_id := lease_id t;
     lease_state := lease_state t; owner_session_id := owner_session_id t;
     origin := o; url := u; scope_digest := scope_digest t |}.
Definition with_digest (t : ValidatedPrivateTarget) (d : string) : ValidatedPrivateTarget :=
  {| profile_id := profile_id t; browser_id := browser_id t; session_name := session_name t;
     target_id := target_id t; tab_id := tab_id t; lease_id := lease_id t;
     lease_state := lease_state t; owner_session_id := owner_session_id t;
     origin := origin t; url := url t; scope_digest := d |}.

Definition digest_of (error : string) (t : ValidatedPrivateTarget) : res string :=
  bytes ← ok_or error (to_vec (scope_array t));
  Ok (hex_encode (sha256 bytes)).

Definition validate_private_target (staged authoritative : value) (live : LivePrivateIdentity)
    (expected_origin expected_url : string) : res ValidatedPrivateTarget :=
  validate_private_identity staged authoritative live expected_origin expected_url ≫= fun _ =>
  owner ← (match jget authoritative "ownerSessionId" with
           | None => Ok None
           | Some v =>
               if is_null v then Ok None else
               match as_str v with
               | Some owner =>
                   if negb (is_empty owner) && (trim owner == owner) then Ok (Some owner)
                   else Err "private_identity_incomplete"%string
               | None => Err "private_identity_incomplete"%string
               end
           end);
  profile_id ← required authoritative "profileId";
  browser_id ← required authoritative "browserId";
  session_name ← required authoritative "sessionName";
  target_id ← required authoritative "targetId";
  tab_id ← required authoritative "tabId";
  lease_id ← required authoritative "leaseId";
  lease_state ← required authoritative "leaseState";
  url ← checked_destination expected_origin expected_url;
  let target := {| profile_id := profile_id; browser_id := browser_id;
                   session_name := session_name; target_id := target_id; tab_id := tab_id;
                   lease_id := lease_id; lease_state := lease_state;
                   owner_session_id := owner; origin := expected_origin; url := url;
                   scope_digest := "" |} in
  digest ← digest_of "private_identity_incomplete" target;
  Ok (with_digest target digest).

(** [ValidatedPrivateJourney::new] *)
Definition journey_new (initial : ValidatedPrivateTarget) (destinations : list (string * string))
    : res ValidatedPrivateJourney :=
  if match destinations with [] => true | _ => false end
     || (16 <? Z.of_nat (length destinations))
  then Err "private_journey_invalid"%string else
  digests ← list_traverse (fun '(origin, url) =>
    canonical ← checked_destination origin url;
    digest_of "private_journey_invalid" (with_destination initial origin canonical)) destinations;
  if head digests != Some (scope_digest initial) then Err "private_journey_initial_mismatch"%string
  else Ok {| j_target_id := target_id initial; j_digests := digests |}.
End identity.

(** ** Exactly what the comparison accepts *)

Section spec.
Context `{!Json, !UrlLib, !Crypto, !Serde (list Scalar)}.

(** The non-empty, untrimmable string a handle has for a field. *)
Definition field_is (handle : value) (field s : string) : Prop :=
  (exists v, jget handle field = Some v /\ as_str v = Some s) /\ s <> ""%string /\ trim s = s.

Lemma required_ok handle field s : required handle field = Ok s <-> field_is handle field s.
Proof.
  unfold required, field_is, mbind, option_bind, is_empty.
  destruct (jget handle field) as [v|]; [|naive_solver].
  destruct (as_str v) as [s'|] eqn:Hs; [|naive_solver].
  destruct (bool_decide_reflect (s' = ""%string)), (bool_decide_reflect (trim s' = s')); cbn;
    naive_solver.
Qed.

(** A live, exclusive, heart-beating lease held by the handle's own session. *)
Definition usable_handle (handle : value) : Prop :=
  get_bool handle "valid" = Some true /\
  (exists v, jget handle "staleReason" = Some v /\ is_null v = true) /\
  field_is handle "leaseState" "exclusive" /\
  get_bool handle "leaseHeartbeatExpected" = Some true /\
  exists s, field_is handle "leaseId" s /\ field_is handle "sessionName" s.

Lemma usable_ok handle u : usable handle = Ok u <-> usable_handle handle.
Proof.
  unfold usable, usable_handle. destruct u. split.
  - intros Hrun. destruct (bool_decide_reflect (get_bool handle "valid" = Some true)); [|done].
    cbn [negb orb] in Hrun. destruct (jget handle "staleReason") as [v|]; [|done].
    destruct (is_null v) eqn:Hn; [|done]. cbn [negb] in Hrun.
    destruct (required handle "leaseState") as [st|] eqn:Hls; [|done]. cbn in Hrun.
    destruct (bool_decide_reflect (st = "exclusive"%string)) as [->|]; [|done].
    destruct (bool_decide_reflect (get_bool handle "leaseHeartbeatExpected" = Some true));
      [|done]. cbn in Hrun.
    destruct (required handle "leaseId") as [l|] eqn:Hl; [|done]. cbn in Hrun.
    destruct (required handle "sessionName") as [s|] eqn:Hs; [|done]. cbn in Hrun.
    destruct (bool_decide_reflect (l = s)) as [->|]; [|done].
    apply required_ok in Hls, Hl, Hs. eauto 10.
  - intros (Hv & (v & Hst & Hn) & Hls & Hhb & s & Hl & Hs).
    apply required_ok in Hls, Hl, Hs.
    rewrite Hv, Hst, Hn, Hls, Hhb, Hl, Hs. cbn. by rewrite !bool_decide_true by done.
Qed.

(** Two handles name the same non-empty identity in a field. *)
Definition same_field (a b : value) (field : string) : Prop :=
  exists s, field_is a field s /\ field_is b field s.

Definition same_destination (expected observed : string) : Prop :=
  canonical_private_url observed = Ok expected.

Lemma same_fields_ok a b fields u :
  for_each (fun field =>
    x ← required a field;
    y ← required b field;
    if x != y then Err "private_identity_mismatch"%string else Ok tt) fields = Ok u <->
  Forall (same_field a b) fields.
Proof.
  rewrite for_each_ok. apply Forall_proper; [|done]. intros f. unfold same_field.
  setoid_rewrite <-required_ok. split.
  - intros Hrun. inv_ok. destruct (bool_decide_reflect (v = v0)) as [->|]; [eauto|done].
  - intros (s & -> & ->). cbn. by rewrite bool_decide_true.
Qed.

Lemma observed_fields_ok a (l : list (string * string)) u :
  for_each (fun '(field, observed) =>
    x ← required a field;
    if x != observed then Err "private_identity_mismatch"%string else Ok tt) l = Ok u <->
  Forall (fun p => field_is a p.1 p.2) l.
Proof.
  rewrite for_each_ok. apply Forall_proper; [|done]. intros [f o]. cbn [fst snd].
  rewrite <-required_ok. split.
  - intros Hrun. inv_ok. destruct (bool_decide_reflect (v = o)) as [->|]; done.
  - intros ->. cbn. by rewrite bool_decide_true.
Qed.

Lemma observed_urls_ok expected (l : list string) u :
  for_each (fun observed =>
    c ← canonical_private_url observed;
    if c != expected then Err "private_url_mismatch"%string else Ok tt) l = Ok u <->
  Forall (same_destination expected) l.
Proof.
  rewrite for_each_ok. apply Forall_proper; [|done]. intros o. unfold same_destination. split.
  - intros Hrun. inv_ok. destruct (bool_decide_reflect (v = expected)) as [->|]; done.
  - intros ->. cbn. by rewrite bool_decide_true.
Qed.

(** A private identity is accepted exactly when both handles are usable, the
    live browser is ready, the two handles agree on all seven identity fields
    and on the owner, the live identity agrees with the authoritative one, and
    the staged, authoritative and live URLs all normalize to the expected
    destination, whose origin is the expected one. *)
Theorem validate_private_identity_iff staged authoritative live expected_origin expected_url :
  validate_private_identity staged authoritative live expected_origin expected_url = Ok tt <->
  usable_handle staged /\ usable_handle authoritative /\ live_ready live = true /\
  Forall (same_field staged authoritative) identity_fields /\
  jget staged "ownerSessionId" = jget authoritative "ownerSessionId" /\
  field_is authoritative "profileId" (live_profile_id live) /\
  field_is authoritative "browserId" (live_browser_id live) /\
  field_is authoritative "sessionName" (live_session_name live) /\
  field_is authoritative "targetId" (live_target_id live) /\
  exists expected staged_url authoritative_url,
    checked_destination expected_origin expected_url = Ok expected /\
    field_is staged "url" staged_url /\ field_is authoritative "url" authoritative_url /\
    Forall (same_destination expected) [staged_url; authoritative_url; live_url live].
Proof.
  unfold validate_private_identity. rewrite <-!usable_ok with (u := tt). split.
  - intros Hrun. inv_ok. destruct (live_ready live); [|done]. cbn [negb] in Hrun. inv_ok.
    apply same_fields_ok in Hm1.
    destruct (bool_decide_reflect (jget staged "ownerSessionId" = jget authoritative "ownerSessionId"));
      [|done]. cbn [negb] in Hrun. inv_ok.
    apply observed_fields_ok in Hm2. apply observed_urls_ok in Hrun.
    rewrite !Forall_cons in Hm2. destruct v, v0. setoid_rewrite <-required_ok.
    destruct Hm2 as (?%required_ok & ?%required_ok & ?%required_ok & ?%required_ok & _).
    split_and!; try done. eauto 10.
  - intros (Hus & Hua & Hr & Hf & Ho & Hp & Hb & Hs & Ht & e & su & au & He & Hsu & Hau & Hu).
    rewrite (bind_ok_eq _ _ _ Hus), (bind_ok_eq _ _ _ Hua), Hr. cbn [negb].
    rewrite (bind_ok_eq _ _ tt) by (by apply same_fields_ok).
    rewrite (bool_decide_true _ Ho). cbn [negb].
    rewrite (bind_ok_eq _ _ tt) 
      by (apply observed_fields_ok; rewrite !Forall_cons, Forall_nil; done).
    apply required_ok in Hsu, Hau.
    rewrite (bind_ok_eq _ _ _ He), (bind_ok_eq _ _ _ Hsu), (bind_ok_eq _ _ _ Hau).
    by apply observed_urls_ok.
Qed.

(** What a normalized private URL is known to be. *)
Definition private_url (value : string) (parsed : Url) : Prop :=
  url_parse value = Ok parsed /\ u_scheme parsed = "https"%string /\
  is_Some (u_host_str parsed) /\ u_username parsed = ""%string /\ u_password parsed = None /\
  u_fragment parsed = None /\
  Forall (fun c => is_control c = false /\ is_whitespace c = false) (chars value) /\
  bytes_any (fun c => Ascii.eqb c "\" || Ascii.eqb c "#") value = false.

(** A URL accepted as a private destination parses as an https URL with a
    host and neither credentials nor fragment, holds no control character,
    whitespace, backslash or hash, and is returned as the parser prints it. *)
Theorem canonical_private_url_sound value canonical :
  canonical_private_url value = Ok canonical ->
  exists parsed, private_url value parsed /\ canonical = u_as_str parsed.
Proof.
  unfold canonical_private_url. intros Hrun.
  destruct (negb _ || existsb _ (chars value) || _) eqn:Hc; [done|]. inv_bool.
  inv_ok. destruct (url_parse value) as [parsed|] eqn:Hp; [|done].
  cbn in Hm. injection Hm as <-.
  destruct ((u_scheme parsed != "https"%string) || _ || _ || _ || _ || _) eqn:Hd; [done|].
  inv_bool. injection Hrun as <-. exists parsed. split; [|done].
  unfold private_url, is_empty in *.
  destruct (u_host_str parsed) eqn:Hh; [|done]. destruct (u_password parsed); [done|].
  destruct (u_fragment parsed); [done|]. inv_bool. split_and!; try done.
  apply Forall_forall. intros c Hin.
  match goal with H : existsb _ (chars value) = false |- _ =>
    rewrite <-not_true_iff_false, existsb_exists in H; rename H into Hex end.
  destruct (is_control c) eqn:Hic, (is_whitespace c) eqn:Hiw; try done; exfalso; apply Hex;
    exists c; (split; [by apply list_elem_of_In|by rewrite Hic, ?Hiw]).
Qed.

(** ** The digest binds the identity *)

Lemma scope_array_inj t t' :
  scope_array t = scope_array t' -> scope_digest t = scope_digest t' -> t = t'.
Proof.
  destruct t as [? ? ? ? ? ? ? [] ? ? ?], t' as [? ? ? ? ? ? ? [] ? ? ?]; cbn;
    intros [= ]; intros; by subst.
Qed.

Lemma validate_private_target_digest staged authoritative live o u t :
  validate_private_target staged authoritative live o u = Ok t ->
  origin t = o /\ checked_destination o u = Ok (url t) /\
  digest_of "private_identity_incomplete" t = Ok (scope_digest t) /\
  validate_private_identity staged authoritative live o u = Ok tt.
Proof.
  unfold validate_private_target. intros Hrun. inv_ok. destruct v.
  split_and!; done.
Qed.

Lemma validate_private_target_fields staged authoritative live o u t :
  validate_private_target staged authoritative live o u = Ok t ->
  field_is authoritative "targetId" (target_id t) /\
  field_is authoritative "browserId" (browser_id t) /\
  field_is authoritative "profileId" (profile_id t) /\
  field_is authoritative "sessionName" (session_name t) /\
  field_is authoritative "leaseId" (lease_id t).
Proof.
  unfold validate_private_target. intros Hrun. inv_ok. cbn.
  rewrite <-!required_ok. done.
Qed.

(** The two targets' serializations do not collide under SHA-256. *)
Definition no_collision (t t' : ValidatedPrivateTarget) : Prop := forall b b',
  to_vec (scope_array t) = Some b -> to_vec (scope_array t') = Some b' ->
  hex_encode (sha256 b) = hex_encode (sha256 b') -> b = b'.

(** The scope digest identifies the target: when their serializations do not
    collide, two validated targets with the same digest are the same target,
    field by field, destination and owner included. *)
Theorem scope_digest_binds staged authoritative live o u t staged' authoritative' live' o' u' t' :
  no_collision t t' ->
  validate_private_target staged authoritative live o u = Ok t ->
  validate_private_target staged' authoritative' live' o' u' = Ok t' ->
  scope_digest t = scope_digest t' -> t = t'.
Proof.
  intros Hfree (_ & _ & Hd & _)%validate_private_target_digest
    (_ & _ & Hd' & _)%validate_private_target_digest Heq.
  apply scope_array_inj; [|done]. unfold digest_of in Hd, Hd'. inv_ok.
  apply from_slice_to_vec in Hm as Hb, Hm0 as Hb'.
  assert (v0 = v) as -> by (apply Hfree; congruence). congruence.
Qed.

(** A journey commits its destinations in advance: it has between one and
    sixteen stages, one digest per destination in order, the first one the
    validated initial target's. *)
Theorem journey_new_spec initial destinations j :
  journey_new initial destinations = Ok j ->
  (1 <= length destinations <= 16)%nat /\ j_target_id j = target_id initial /\
  head (j_digests j) = Some (scope_digest initial) /\
  Forall2 (fun d digest => exists canonical, checked_destination d.1 d.2 = Ok canonical /\
    digest_of "private_journey_invalid" (with_destination initial d.1 canonical) = Ok digest)
    destinations (j_digests j).
Proof.
  unfold journey_new. intros Hrun.
  destruct (match destinations with [] => true | _ => false end || _) eqn:Hc; [done|]. inv_bool.
  inv_ok. destruct (bool_decide_reflect (head v = Some (scope_digest initial))); [|done].
  cbn in Hrun. injection Hrun as <-. cbn. split_and!; try done.
  - destruct destinations; [done|cbn; lia].
  - lia.
  - apply list_traverse_ok in Hm. eapply Forall2_impl; [exact Hm|]. intros [o u] dg Hd. cbn.
    inv_ok. eauto.
Qed.

End spec.
End PrivateIdentity.
