(* ===== verification/PrivacyGate.v ===== *)
(** * The endpoint-scoped privacy barrier

    Model of [cli/src/native/privacy_gate.rs]: permits, observers and command
    leases over the gate operations of [GateStore.v]. A method that changes its
    object also when it fails ([&mut self]) returns the new object next to its
    result; a lease that goes out of scope is dropped. *)

From S2P Require Import Prelude RustStr Env SecretFs SecretStore GateStore GateView.
From S2P Require Import StoreHistory PrivateIdentity.
From Stdlib Require Import Ascii.
From stdpp Require Import pretty.
Import SecretFs SecretStore GateStore GateView StoreHistory.

Local Open Scope Z_scope.

Module PrivacyGate.

Record PrivacyGate := { g_store : SecretStore; g_endpoint : option string }.

Record PrivacyObserver := {
  o_gate : PrivacyGate;
  captured_epoch : option string;
  private : bool;
}.

Record PrivatePermit := {
  p_file : option GateLease;
  p_store : SecretStore;
  p_epoch : string;
  p_completion : option CleanupCommit;
  p_endpoint : option string;
  p_scope : option PrivateScope;
}.

Record CommandLease := { c_store : SecretStore; c_file : GateLease; c_pending : option string }.

(** [self.file.take()], [self.scope = ..], [self.completion = ..]. *)
Definition take_file (p : PrivatePermit) : PrivatePermit :=
  {| p_file := None; p_store := p_store p; p_epoch := p_epoch p;
     p_completion := p_completion p; p_endpoint := p_endpoint p; p_scope := p_scope p |}.
Definition set_permit_scope (sc : PrivateScope) (p : PrivatePermit) : PrivatePermit :=
  {| p_file := p_file p; p_store := p_store p; p_epoch := p_epoch p;
     p_completion := p_completion p; p_endpoint := p_endpoint p; p_scope := Some sc |}.
Definition set_completion (c : CleanupCommit) (p : PrivatePermit) : PrivatePermit :=
  {| p_file := p_file p; p_store := p_store p; p_epoch := p_epoch p;
     p_completion := Some c; p_endpoint := p_endpoint p; p_scope := p_scope p |}.

Section gate.
Context `{!Oracle, !Crypto, !Serde GateState, !UrlLib}.

(** ** Gates *)

Definition decimal (z : Z) : string := pretty z.

Definition endpoint_key (endpoint : string) : res string :=
  url ← map_err "privacy_gate_invalid_endpoint"%string (url_parse endpoint);
  if negb (one_of (u_scheme url) ["ws"; "wss"]%string)
     || negb (is_empty (u_username url))
     || match u_password url with Some _ => true | None => false end
     || match u_fragment url with Some _ => true | None => false end
  then Err "privacy_gate_invalid_endpoint"%string else
  host ← ok_or "privacy_gate_invalid_endpoint"%string (u_host_str url);
  port ← ok_or "privacy_gate_invalid_endpoint"%string (u_port_or_known_default url);
  Ok (hex_encode (sha256
    (fmt [u_scheme url; "://"; str_map to_ascii_lowercase host; ":"; decimal port]))).

(** [var_os] is the process environment. *)
Definition for_endpoint (pid : Z) (var_os : string -> option string) (endpoint : string)
    : SM World PrivacyGate :=
  key ← sm_lift (endpoint_key endpoint);
  base ← sm_lift (match var_os "AGENT_BROWSER_HOME" with
                  | Some value => Ok value
                  | None =>
                      home ← ok_or "privacy_gate_unavailable"%string (var_os "HOME");
                      Ok (path_join home ".agent-browser")
                  end);
  ensure_gate_base (path_of base) ≫= fun _ =>
  let root := path_join base "private-gates" in
  ensure_private_directory (path_of root) ≫= fun _ =>
  store ← open_gate pid (path_of (path_join root key));
  mret {| g_store := store; g_endpoint := Some key |}.

Definition open (pid : Z) (root : Path) : SM World PrivacyGate :=
  store ← open_gate pid root;
  mret {| g_store := store; g_endpoint := None |}.

(** ** Public access *)

Definition public_lease (self : PrivacyGate) : SM World GateLease :=
  gate_public_lease (g_store self).

Definition public_observer (self : PrivacyGate) : SM World PrivacyObserver :=
  lease ← public_lease self;
  then_drop (g_store self) lease (
    captured ← gate_public_epoch (g_store self);
    mret {| o_gate := self; captured_epoch := captured; private := false |}).

Definition private_observer (self : PrivacyGate) : PrivacyObserver :=
  {| o_gate := self; captured_epoch := None; private := true |}.

(** [PrivacyObserver::public_lease] *)
Definition observer_lease (self : PrivacyObserver) : SM World GateLease :=
  if private self then sm_err "privacy_observer_private" else
  lease ← public_lease (o_gate self);
  or_drop (g_store (o_gate self)) lease (
    current ← gate_public_epoch (g_store (o_gate self));
    if current != captured_epoch self then sm_err "privacy_observer_revoked" else mret lease).

Definition command_lease (self : PrivacyGate) : SM World CommandLease :=
  r ← gate_command_lease (g_store self);
  mret {| c_store := g_store self; c_file := r.1; c_pending := Some r.2 |}.

(** [CommandLease::complete] *)
Definition complete (self : CommandLease) : SM World CommandLease :=
  match c_pending self with
  | Some reference =>
      gate_complete_command (c_store self) reference ≫= fun _ =>
      mret {| c_store := c_store self; c_file := c_file self; c_pending := None |}
  | None => mret self
  end.

(** [observation_allowed]: the lease it may obtain is dropped at once. *)
Definition observation_allowed (self : PrivacyGate) : World -> bool * World := fun w =>
  match public_lease self w with
  | (Ok lease, w') => (true, drop_lease (pid (g_store self)) lease w')
  | (Err _, w') => (false, w')
  end.

Definition mark_uncertain (self : PrivacyGate) : SM World unit :=
  gate_mark_uncertain (g_store self).

(** ** Private intervals *)

(** The permit built around a lease and the scope read back under it. *)
Definition permit_of (self : PrivacyGate) (r : GateLease * string) : SM World PrivatePermit :=
  or_drop (g_store self) r.1 (
    scope ← gate_private_scope (g_store self) r.2;
    mret {| p_file := Some r.1; p_store := g_store self; p_epoch := r.2;
            p_completion := None; p_endpoint := g_endpoint self; p_scope := scope |}).

Definition begin_private (self : PrivacyGate) : SM World PrivatePermit :=
  r ← gate_begin_private (g_store self); permit_of self r.
Definition begin_private_scoped (self : PrivacyGate) (target digest : string)
    : SM World PrivatePermit :=
  r ← gate_begin_private_scoped (g_store self) target digest; permit_of self r.
Definition begin_private_journey (self : PrivacyGate)
    (journey : PrivateIdentity.ValidatedPrivateJourney) : SM World PrivatePermit :=
  r ← gate_begin_private_journey (g_store self) (PrivateIdentity.j_target_id journey)
        (PrivateIdentity.j_digests journey);
  permit_of self r.
Definition resume_private (self : PrivacyGate) : SM World PrivatePermit :=
  r ← gate_resume_private (g_store self); permit_of self r.

(** [drop(permit)], and of a command lease: the durable files survive it. *)
Definition drop_file (store : SecretStore) (file : option GateLease) (w : World) : World :=
  match file with Some lease => drop_lease (pid store) lease w | None => w end.

Definition advance_target (self : PrivatePermit) (expected_stage : nat)
    (fresh : PrivateIdentity.ValidatedPrivateTarget) (w : World)
    : res unit * PrivatePermit * World :=
  match p_file self with
  | None => (Err "privacy_gate_consumed_permit", self, w)
  | Some file =>
      match identity_digest <$> p_scope self with
      | None => (Err "private_scope_missing", self, w)
      | Some previous =>
          match gate_advance_private (p_store self) (gl_dir file) (p_epoch self) previous
                  expected_stage (PrivateIdentity.target_id fresh)
                  (PrivateIdentity.scope_digest fresh) w with
          | (Ok scope, w') => (Ok tt, set_permit_scope scope self, w')
          | (Err error, w') =>
              (Err error, take_file self, drop_file (p_store self) (p_file self) w')
          end
      end
  end.

(** [PrivatePermit::authorizes]: any error is a refusal. *)
Definition authorizes (self : PrivatePermit) (gate : PrivacyGate) : World -> bool * World :=
  fun w =>
  match p_file self with
  | None => (false, w)
  | Some file =>
      let '(r, w') := gate_permit_authorizes (g_store gate) (gl_dir file) (p_epoch self) w in
      (is_ok r, w')
  end.

Definition recovery_gate (self : PrivatePermit) (endpoint : string) : SM World PrivacyGate :=
  key ← sm_lift (endpoint_key endpoint);
  if p_endpoint self != Some key then sm_err "private_permit_mismatch" else
  let gate := {| g_store := p_store self; g_endpoint := Some key |} in
  fun w =>
  let '(ok, w') := authorizes self gate w in
  if negb ok then (Err "private_permit_mismatch"%string, w') else (Ok gate, w').

Definition finish_private (self : PrivacyGate) (permit : PrivatePermit) (w : World)
    : res CleanupCommit * PrivatePermit * World :=
  match gate_same_store (g_store self) (p_store permit) w with
  | (Err e, w1) => (Err e, permit, w1)
  | (Ok _, w1) =>
      match p_completion permit with
      | Some outcome => (Ok outcome, permit, w1)
      | None =>
          match p_file permit with
          | None => (Err "privacy_gate_consumed_permit"%string, permit, w1)
          | Some file =>
              match gate_finish_private (g_store self) (gl_dir file) (p_epoch permit) w1 with
              | (Err e, w2) => (Err e, permit, w2)
              | (Ok outcome, w2) =>
                  (Ok outcome, take_file (set_completion outcome permit),
                   drop_file (p_store permit) (Some file) w2)
              end
          end
      end
  end.
End gate.

(** ** Observers *)

Section observers.
Context `{!Oracle, !Crypto, !Serde GateState}.

(** The gate an observer was created under. *)
Definition captured_view (o : option string) : View :=
  match o with Some e => Clean e | None => Fresh end.

Lemma keyed_keeps k dir w w' : keeps durable_name w w' -> keyed k dir w -> keyed k dir w'.
Proof.
  unfold keyed, content. intros Hk Hkey.
  destruct (file w dir KEY) as [[m b| | |]|] eqn:He; try done.
  by rewrite (Hk _ _ _ He ltac:(by vm_compute)).
Qed.

Lemma public_observer_ok g w obs w1 :
  public_observer g w = (Ok obs, w1) ->
  let s := g_store g in
  o_gate obs = g /\ keyed (key s) (directory s) w1 /\
  gate_view (key s) (directory s) w1 = captured_view (captured_epoch obs).
Proof.
  intros Hrun s. unfold public_observer in Hrun.
  apply sm_bind_ok in Hrun as (l & w2 & Hl & Hrun).
  apply then_drop_inv in Hrun as (w3 & Hrun & Hs). inv_ok. cbn.
  pose_same. apply gate_public_epoch_ok in Hm as [Hk Hv].
  assert (same_files w2 w1) as Hs2 by chain.
  split_and!; [done| |].
  - unfold keyed. by rewrite (content_same_files _ _ _ _ Hs2).
  - by rewrite (gate_view_files _ _ _ _ Hs2).
Qed.

Lemma observer_lease_ok obs w l w1 :
  observer_lease obs w = (Ok l, w1) ->
  let s := g_store (o_gate obs) in
  private obs = false /\ keyed (key s) (directory s) w /\
  gate_view (key s) (directory s) w = captured_view (captured_epoch obs).
Proof.
  intros Hrun s. unfold observer_lease in Hrun. destruct (private obs); [discriminate|].
  apply sm_bind_ok in Hrun as (l' & w2 & Hl & Hrun). unfold public_lease in Hl.
  apply or_drop_inv in Hrun as (w3 & Hrun & _). inv_ok.
  destruct (bool_decide_reflect (v = captured_epoch obs)) as [->|]; [|discriminate].
  apply gate_public_epoch_ok in Hm as [Hk Hv].
  pose proof (preserves_run _ _ _ _ _
    (frame_gate_public_lease (same_content (gate_file (directory s))) s) Hl) as Hf.
  pose proof (gate_public_lease_ok _ _ _ _ Hl) as [Hk0 _].
  split_and!; [done|done|].
  by rewrite <-(gate_view_same _ _ _ _ Hf).
Qed.

(** Once the gate has left the captured view it does not come back, unless a
    private interval draws the captured epoch again. *)
Lemma gate_step_away l v v' o :
  gate_step l v v' -> v <> captured_view o ->
  (forall e sc, v = Private e sc -> o <> Some e) -> v' <> captured_view o.
Proof.
  intros Hs Hv Hp. destruct Hs, o as [e0|]; cbn in *; try done.
  intros [= ->]. by apply (Hp e0 sc).
Qed.

Lemma away_history k dir o ops w :
  keyed k dir w -> gate_view k dir w <> captured_view o ->
  (forall ops' e sc, ops' `prefix_of` ops -> gate_view k dir (history ops' w) = Private e sc ->
     o <> Some e) ->
  gate_view k dir (history ops w) <> captured_view o.
Proof.
  revert w. induction ops as [|x ops IH]; intros w Hk Hv Hfresh; [done|]. cbn.
  apply IH; [by apply keyed_run| |].
  - eapply gate_step_away; [by apply run_step_view|done|].
    intros e sc Hp. apply (Hfresh [] e sc); [apply prefix_nil|done].
  - intros ops' e sc Hpre Hp. apply (Hfresh (x :: ops') e sc); [by apply prefix_cons|done].
Qed.

Lemma history_app ops1 ops2 w : history (ops1 ++ ops2) w = history ops2 (history ops1 w).
Proof. unfold history. by rewrite foldl_app. Qed.

(** Cleanup never revives an observer: if after an observer was created the
    gate was at some moment private, then, provided no later private interval
    draws the very epoch the observer captured, the observer obtains no lease at
    any later time, the gate being public again included. *)
Theorem observer_revoked g obs w w1 ops1 ops2 e sc :
  let s := g_store g in
  let view ops := gate_view (key s) (directory s) (history ops w1) in
  public_observer g w = (Ok obs, w1) ->
  view ops1 = Private e sc ->
  (forall ops e' sc', ops `prefix_of` ops1 ++ ops2 -> view ops = Private e' sc' ->
     captured_epoch obs <> Some e') ->
  is_ok (observer_lease obs (history (ops1 ++ ops2) w1)).1 = false.
Proof.
  intros s view Hobs Hpriv Hfresh. apply public_observer_ok in Hobs as (Hg & Hk & _).
  fold s in Hk. destruct (observer_lease obs _) as [[l|err] w2] eqn:Hrun; [|done]. exfalso.
  apply observer_lease_ok in Hrun as (_ & _ & Hv). rewrite Hg in Hv. fold s in Hv.
  revert Hv. rewrite history_app. apply away_history.
  - eapply keyed_keeps; [apply history_durable|done].
  - fold (view ops1). rewrite Hpriv. by destruct (captured_epoch obs).
  - intros ops' e' sc' Hpre Hp. apply (Hfresh (ops1 ++ ops') e' sc').
    + by apply prefix_app.
    + unfold view. by rewrite history_app.
Qed.

(** ** Permits *)

Lemma gate_advance_ok self permit ep previous stage target next w sc w' :
  gate_advance_private self permit ep previous stage target next w = (Ok sc, w') ->
  exists old, gate_view (key self) (directory self) w = Private ep (Some old) /\
    target_id old = target /\ identity_digest old = previous /\
    journey_stage old = Some stage /\ journey old !! S stage = Some next /\
    sc = advance_scope old next /\
    gate_view (key self) (directory self) w' = Private ep (Some sc).
Proof.
  unfold gate_advance_private. intros Hrun.
  apply sm_bind_ok in Hrun as (u & w1 & Ha & Hrun).
  apply permit_authorizes_ok in Ha as (Hs1 & _ & _ & sc0 & Hv0). inv_ok.
  apply gate_state_ok in Hm as (Hs2 & Hst & _).
  rewrite (gate_view_files _ _ _ _ Hs1) in Hst. rewrite Hv0 in Hst. symmetry in Hst.
  apply view_private in Hst as (Hc & He & Hsc). subst sc0.
  destruct (_ || _ || _ || _) eqn:Hg; [discriminate|]. inv_bool. inv_ok.
  match goal with H : scope v0 = Some ?o |- _ => rewrite H in Hv0; exists o end.
  assert (stage_ v1 = stage) as Hstage.
  { match goal with H : journey_stage _ = Some stage |- _ => revert H end.
    unfold journey_stage. destruct (journey v1); [done|]. by intros [= ->]. }
  split_and!; try done.
  - rewrite <-Hstage. replace (S (stage_ v1)) with (stage_ v1 + 1)%nat by lia. done.
  - match goal with H : write_durable _ _ _ = _ |- _ => apply write_durable_ok in H; rewrite H end.
    unfold view_of; cbn. by rewrite Hc.
Qed.

(** Advancing a permit. A success moves the durable private interval and the
    permit together to the next committed stage: same epoch and target, the stage
    after the expected one, the digest the journey committed for it. A failure
    that reached the store takes the lease away: the permit is authorized for no
    gate and cannot advance again, and the gate, if it was not public, is not
    public. *)
Theorem advance_target_spec p stage fresh w r p' w' :
  advance_target p stage fresh w = (r, p', w') ->
  match r with
  | Ok _ =>
      exists old, let sc := advance_scope old (PrivateIdentity.scope_digest fresh) in
        let view := gate_view (key (p_store p)) (directory (p_store p)) in
        journey_stage old = Some stage /\ target_id old = PrivateIdentity.target_id fresh /\
        journey old !! S stage = Some (PrivateIdentity.scope_digest fresh) /\
        identity_digest <$> p_scope p = Some (identity_digest old) /\
        view w = Private (p_epoch p) (Some old) /\ view w' = Private (p_epoch p) (Some sc) /\
        p' = set_permit_scope sc p
  | Err e =>
      (p' = p /\ w' = w /\ (p_file p = None \/ p_scope p = None)) \/
      (p' = take_file p /\
       (forall gate w2, (authorizes p' gate w2).1 = false) /\
       (forall stage2 fresh2 w2, advance_target p' stage2 fresh2 w2
          = (Err "privacy_gate_consumed_permit"%string, p', w2)) /\
       (forall k dir, keyed k dir w -> ~ is_public (gate_view k dir w) ->
          ~ is_public (gate_view k dir w')))
  end.
Proof.
  unfold advance_target at 1. intros Hrun.
  destruct (p_file p) as [file|] eqn:Hfile; [|simplify_eq; auto].
  destruct (p_scope p) as [sc0|] eqn:Hscope; cbn [fmap option_fmap option_map] in Hrun;
    [|simplify_eq; auto].
  destruct (gate_advance_private _ _ _ _ _ _ _ w) as [[sc|e] w1] eqn:Ha; simplify_eq.
  - apply gate_advance_ok in Ha as (old & Hv & Ht & Hd & Hst & Hn & -> & Hv').
    exists old. split_and!; try done. cbn; by rewrite Hd.
  - right. split_and!; [done|done|done|]. intros k dir Hk Hv.
    cbn [drop_file]. rewrite (gate_view_files k dir w1) by apply same_files_drop_lease.
    assert (Hstep := advance_refines _ _ _ _ _ _ _ k dir w _ w1 Hk Ha).
    eapply gate_step_closed; [exact Hstep|done|done].
Qed.

Lemma gate_finish_ok self permit ep w c w' :
  gate_finish_private self permit ep w = (Ok c, w') ->
  (exists sc, gate_view (key self) (directory self) w = Private ep sc) /\
  gate_view (key self) (directory self) w' = Clean ep.
Proof.
  unfold gate_finish_private. intros Hrun.
  apply sm_bind_ok in Hrun as (u & w1 & Hp & Hrun). apply permit_matches_ok in Hp as (Hs1 & _).
  inv_ok. apply gate_state_ok in Hm as (Hs2 & Hst & _).
  rewrite (gate_view_files _ _ _ _ Hs1) in Hst.
  destruct (bool_decide_reflect (epoch v0 = ep)) as [<-|]; [|discriminate]. cbn [negb] in Hrun.
  destruct (clean v0) eqn:Hc; [discriminate|].
  apply write_gate_state_run in Hrun as [[_ [=]]|[_ Hv]]. rewrite Hst, Hv. unfold view_of; cbn.
  rewrite Hc. eauto.
Qed.

Lemma gate_finish_err self permit ep w e w' :
  gate_finish_private self permit ep w = (Err e, w') ->
  gate_view (key self) (directory self) w' = gate_view (key self) (directory self) w.
Proof.
  unfold gate_finish_private. intros Hrun.
  apply sm_bind_inv in Hrun as [(a & w1 & Hp & Hrun)|(e' & Hp & _)]; frame_in same_files Hp;
    [|by apply gate_view_files]. rewrite <-(gate_view_files _ _ _ _ Hp).
  apply sm_bind_inv in Hrun as [(a' & w2 & Hp' & Hrun)|(e' & Hp' & _)]; frame_in same_files Hp';
    [|by apply gate_view_files]. rewrite <-(gate_view_files _ _ _ _ Hp').
  apply sm_bind_inv in Hrun as [(st & w3 & Hl & Hrun)|(e' & [= _ <-] & _)]; [|done].
  apply sm_lift_ok in Hl as [_ ->].
  destruct (epoch st != ep); [by injection Hrun as _ <-|].
  destruct (clean st); [by injection Hrun as _ <-|].
  pose proof Hrun as Hw. apply write_gate_state_run in Hw as [[Hg _]|[[=] _]].
  by apply gate_view_same.
Qed.

(** Finishing a permit is the one way back to a public gate, and happens
    once: the first success took its private epoch to clean, released the lease
    and recorded the outcome; a failure leaves the permit and the gate as they
    were; a finished permit returns the recorded outcome without touching a file. *)
Theorem finish_private_spec g p w r p' w' :
  finish_private g p w = (r, p', w') ->
  let view := gate_view (key (g_store g)) (directory (g_store g)) in
  match p_completion p with
  | Some outcome => p' = p /\ same_files w w' /\ (r = Ok outcome \/ is_ok r = false)
  | None =>
      match r with
      | Ok outcome =>
          (exists sc, view w = Private (p_epoch p) sc) /\ view w' = Clean (p_epoch p) /\
          p_file p' = None /\ p_completion p' = Some outcome /\
          (forall gate w2, (authorizes p' gate w2).1 = false) /\
          (forall g2 w2, (finish_private g2 p' w2).1.2 = p')
      | Err _ => p' = p /\ view w' = view w
      end
  end.
Proof.
  intros Hrun view. unfold finish_private in Hrun.
  destruct (gate_same_store (g_store g) (p_store p) w) as [[u|e] w1] eqn:Hsame;
    unfold gate_same_store in Hsame; frame_in same_files Hsame.
  2:{ injection Hrun as <- <- <-. destruct (p_completion p); [by auto|]. split; [done|].
      by apply gate_view_files. }
  destruct (p_completion p) as [c|] eqn:Hc; [injection Hrun as <- <- <-; auto|].
  destruct (p_file p) as [file|] eqn:Hf.
  2:{ injection Hrun as <- <- <-. split; [done|]. by apply gate_view_files. }
  destruct (gate_finish_private _ _ _ w1) as [[c|e] w2] eqn:Hfin; injection Hrun as <- <- <-.
  - apply gate_finish_ok in Hfin as [[sc Hv] Hv']. unfold view.
    rewrite <-(gate_view_files _ _ _ _ Hsame).
    rewrite (gate_view_files _ _ w2 (drop_lease _ _ w2)) by apply same_files_drop_lease.
    split_and!; try done; [by exists sc|].
    intros g2 w3. unfold finish_private. by destruct (gate_same_store _ _ _) as [[] ?].
  - apply gate_finish_err in Hfin. split; [done|]. unfold view.
    by rewrite Hfin, (gate_view_files _ _ _ _ Hsame).
Qed.

End observers.

End PrivacyGate.
