(* ===== verification/PrivateOperation.v ===== *)
(** * The parser of staged private operations

    Model of [cli/src/native/private_operation.rs], and its agreement with the
    backup-code reservation of the store: every backup-code operation that
    parses is one the store can normalize. *)

From S2P Require Import Prelude RustStr Env SecretFs SecretStore.
From Stdlib Require Import Ascii.

Local Open Scope Z_scope.

Module PrivateOperation.

Definition INVALID : string := "private_operation_invalid".
Definition MAX_BYTES : Z := 64 * 1024.

Inductive Operation :=
| Login (email_selector password_selector submit_selector email password : string)
| BackupCode (code_selector submit_selector account_selector account_value code
    source_scope : string)
| Renew (submit_selector account_selector account_value : string)
| ReadKey (selector account_selector account_value : string).

Section operation.
Context `{!Json, !UrlLib}.

Record PrivateOperation := {
  schema : string;
  service_tab_handle : value;
  expected_origin : string;
  expected_url : string;
  consent_sha256 : string;
  account_scope : string;
  operation : Operation;
}.

(** The loop of [selectors] with the values before the current one. *)
Fixpoint selectors_after (earlier values : list string) : res unit :=
  match values with
  | [] => Ok tt
  | selector :: rest =>
      if is_empty selector || (1024 <? zlen selector) || (trim selector != selector)
         || existsb is_control (chars selector) || one_of selector earlier
      then Err INVALID else selectors_after (earlier ++ [selector]) rest
  end.
Definition selectors (values : list string) : res unit := selectors_after [] values.

Definition is_local_byte (byte : ascii) : bool :=
  is_ascii_lowercase byte || is_ascii_digit byte
  || bytes_any (Ascii.eqb byte) ".!#$%&'*+-/=?^_`{|}~".
Definition is_domain_byte (byte : ascii) : bool :=
  is_ascii_lowercase byte || is_ascii_digit byte || Ascii.eqb byte "-".

Definition canonical_email (email : string) : bool :=
  if (254 <? zlen email) || negb (bytes_all is_ascii email)
     || (email != str_map to_ascii_lowercase email) then false else
  match split_once "@" email with
  | None => false
  | Some (local, domain) =>
      negb (is_empty local) && (zlen local <=? 64) && negb (starts_with "." local)
      && negb (ends_with "." local) && negb (contains ".." local)
      && bytes_all is_local_byte local
      && bytes_any (Ascii.eqb ".") domain
      && forallb (fun label =>
           negb (is_empty label) && (zlen label <=? 63) && negb (starts_with "-" label)
           && negb (ends_with "-" label) && bytes_all is_domain_byte label)
         (split_on "." domain)
  end.

(** The [match &self.operation] of [validate]: the origin the operation is
    allowed on. *)
Definition allowed_origin (account : string) (op : Operation) : res string :=
  match op with
  | Login email_selector password_selector submit_selector email password =>
      selectors [email_selector; password_selector; submit_selector] ≫= fun _ =>
      if (email != account) || is_empty password || (4096 <? zlen password)
         || bytes_any (Ascii.eqb "000") password
      then Err INVALID else Ok "https://secure.login.gov"%string
  | BackupCode code_selector submit_selector account_selector account_value code source_scope =>
      selectors [code_selector; submit_selector; account_selector] ≫= fun _ =>
      if (account_value != account) || is_empty code || (256 <? zlen code)
         || negb (bytes_all (fun byte => is_ascii_alphanumeric byte || Ascii.eqb byte " "
                                         || Ascii.eqb byte "-") code)
         || negb (bytes_any is_ascii_alphanumeric code)
         || is_empty source_scope || (2048 <? zlen source_scope)
         || (trim source_scope != source_scope)
         || negb (bytes_all is_printable source_scope)
      then Err INVALID else Ok "https://secure.login.gov"%string
  | Renew submit_selector account_selector account_value =>
      selectors [submit_selector; account_selector] ≫= fun _ =>
      if account_value != account then Err INVALID else Ok "https://sam.gov"%string
  | ReadKey selector account_selector account_value =>
      selectors [selector; account_selector] ≫= fun _ =>
      if account_value != account then Err INVALID else Ok "https://sam.gov"%string
  end.

Definition is_some {A} (o : option A) : bool := match o with Some _ => true | None => false end.

Definition validate (self : PrivateOperation) : res unit :=
  if (schema self != "agent-browser.private-operation.v1"%string)
     || negb (is_nonempty_object (service_tab_handle self))
     || negb (zlen (consent_sha256 self) =? 64)
     || negb (bytes_all is_lower_hex (consent_sha256 self))
  then Err INVALID else
  account ← ok_or INVALID (strip_prefix "login.gov:" (account_scope self));
  if negb (canonical_email account) then Err INVALID else
  allowed_origin ← allowed_origin account (operation self);
  if (expected_origin self != allowed_origin) || (4096 <? zlen (expected_url self))
     || existsb (fun c => is_control c || is_whitespace c) (chars (expected_url self))
  then Err INVALID else
  url ← map_err INVALID (url_parse (expected_url self));
  if (u_scheme url != "https"%string) || negb (is_empty (u_username url))
     || is_some (u_password url) || is_some (u_port url) || is_some (u_fragment url)
     || (u_origin url != allowed_origin) || (u_as_str url != expected_url self)
  then Err INVALID else Ok tt.

(** [from_slice] is the derived deserializer. *)
Definition parse (from_slice : string -> option PrivateOperation) (payload : string)
    : res PrivateOperation :=
  if is_empty payload || (MAX_BYTES <? zlen payload) then Err INVALID else
  value ← ok_or INVALID (from_slice payload);
  validate value ≫= fun _ => Ok value.

(** ** What a parsed operation is *)

Definition account_of (op : Operation) : string :=
  match op with
  | Login _ _ _ email _ => email
  | BackupCode _ _ _ account_value _ _ => account_value
  | Renew _ _ account_value => account_value
  | ReadKey _ _ account_value => account_value
  end.
Definition origin_of (op : Operation) : string :=
  match op with
  | Login _ _ _ _ _ | BackupCode _ _ _ _ _ _ => "https://secure.login.gov"
  | Renew _ _ _ | ReadKey _ _ _ => "https://sam.gov"
  end.

Lemma allowed_origin_ok account op o :
  allowed_origin account op = Ok o -> o = origin_of op /\ account = account_of op.
Proof.
  unfold allowed_origin. intros Hrun. destruct op; inv_ok;
    match type of Hrun with (if ?c then _ else _) = _ => destruct c eqn:Hc end; try done;
    inv_bool; injection Hrun as <-; auto.
Qed.

Lemma parse_account from_slice payload op :
  parse from_slice payload = Ok op ->
  exists account, account_scope op = "login.gov:" +:+ account /\ canonical_email account = true.
Proof.
  unfold parse, validate. intros Hrun. guards.
  match goal with E : strip_prefix _ _ = Some ?a |- _ => exists a; by apply strip_prefix_spec in E end.
Qed.

(** A private operation that parses names one canonical login.gov account,
    and acts for that account only; it targets the one origin its kind is allowed
    on, at an https URL without credentials, port or fragment that the URL parser
    prints back unchanged. *)
Theorem parse_sound from_slice payload op :
  parse from_slice payload = Ok op ->
  from_slice payload = Some op /\
  exists account url,
    account_scope op = "login.gov:" +:+ account /\ canonical_email account = true /\
    account_of (operation op) = account /\
    expected_origin op = origin_of (operation op) /\
    url_parse (expected_url op) = Ok url /\ u_as_str url = expected_url op /\
    u_origin url = expected_origin op /\ u_scheme url = "https"%string /\
    u_username url = ""%string /\ u_password url = None /\ u_port url = None /\
    u_fragment url = None.
Proof.
  unfold parse, validate. intros Hrun.
  destruct (is_empty payload || _); [done|]. inv_ok. split; [done|].
  destruct ((schema op != _) || _ || _ || _) eqn:Hc0; [done|]. inv_ok.
  destruct (canonical_email _) eqn:Hemail; [|done]. cbn [negb] in *. inv_ok.
  match goal with H : allowed_origin _ _ = Ok _ |- _ => apply allowed_origin_ok in H as [-> Hacc] end.
  destruct ((expected_origin op != _) || _ || _) eqn:Hc1; [done|]. inv_bool. inv_ok.
  
  match goal with H : url_parse _ = Ok ?u |- _ => rename u into url end.
  destruct ((u_scheme url != "https"%string) || _ || _ || _ || _ || _ || _) eqn:Hc2; [done|].
  inv_bool. unfold is_empty in *. inv_bool.
  match goal with H : strip_prefix _ _ = Some ?a |- _ => apply strip_prefix_spec in H; exists a end.
  exists url. destruct (u_password url), (u_port url), (u_fragment url); try done.
  split_and!; try done; congruence.
Qed.

(** ** Agreement with the store's backup-code reservation *)

Definition plain (c : ascii) : bool :=
  is_printable c && (is_ascii c && negb (is_whitespace (N_of_ascii c))).

Lemma local_byte_plain c : is_local_byte c = true -> plain c = true.
Proof. destruct c as [[] [] [] [] [] [] [] []]; reflexivity || discriminate. Qed.
Lemma domain_byte_plain c : is_domain_byte c = true -> plain c = true.
Proof. destruct c as [[] [] [] [] [] [] [] []]; reflexivity || discriminate. Qed.

Lemma canonical_email_plain email :
  canonical_email email = true -> bytes_all plain email = true /\ zlen email <= 254.
Proof.
  unfold canonical_email. destruct ((254 <? zlen email) || _ || _) eqn:Hc; [done|]. inv_bool.
  destruct (split_once "@" email) as [[local domain]|] eqn:Hs; [|done].
  intros Hok. inv_bool. apply split_once_spec in Hs. split; [|lia]. subst email.
  assert (bytes_all plain local = true) as Hl
    by (eapply bytes_all_impl; [apply local_byte_plain|done]).
  assert (bytes_all plain domain = true) as Hd.
  { apply (split_on_all _ "."); [done|]. apply forallb_forall. intros label Hin.
    match goal with H : forallb _ (split_on _ domain) = true |- _ =>
      apply (proj1 (forallb_forall _ _) H) in Hin end.
    inv_bool. eapply bytes_all_impl; [apply domain_byte_plain|done]. }
  rewrite bytes_all_app, Hl. unfold bytes_all in Hd |- *. cbn. by rewrite Hd.
Qed.

Lemma normalize_bytes_total l :
  forallb (fun byte => is_ascii_alphanumeric byte || Ascii.eqb byte " " || Ascii.eqb byte "-") l
    = true ->
  existsb is_ascii_alphanumeric l = true ->
  exists c n, SecretStore.normalize_bytes l = Ok (c :: n).
Proof.
  assert (forall l, forallb (fun byte => is_ascii_alphanumeric byte || Ascii.eqb byte " "
    || Ascii.eqb byte "-") l = true -> exists n, SecretStore.normalize_bytes l = Ok n) as Htot.
  { clear. induction l as [|b l IH]; [by eexists|]. cbn [forallb SecretStore.normalize_bytes].
    intros [Hb Hl]%andb_true_iff. destruct (IH Hl) as [n Hn]. rewrite Hn. cbn.
    destruct (is_ascii_alphanumeric b); [by eexists|]. cbn in Hb. rewrite Hb. by eexists. }
  induction l as [|b l IH]; [done|]. cbn [forallb existsb SecretStore.normalize_bytes].
  intros [Hb Hl]%andb_true_iff Hex. destruct (Htot l Hl) as [n Hn].
  destruct (is_ascii_alphanumeric b) eqn:Ha.
  - rewrite Hn. cbn. eauto.
  - cbn in Hb, Hex. rewrite Hb. by apply IH.
Qed.

Lemma parse_backup_code from_slice payload op a b c v code source :
  parse from_slice payload = Ok op -> operation op = BackupCode a b c v code source ->
  code <> ""%string /\ zlen code <= 256 /\
  bytes_all (fun byte => is_ascii_alphanumeric byte || Ascii.eqb byte " "
                         || Ascii.eqb byte "-") code = true /\
  bytes_any is_ascii_alphanumeric code = true /\ SecretStore.scope_ok source 2048 = true.
Proof.
  unfold parse, validate. intros Hrun Hop.
  destruct (is_empty payload || _); [done|]. inv_ok.
  destruct ((schema op != _) || _ || _ || _); [done|]. inv_ok.
  destruct (canonical_email _); [|done]. cbn [negb] in *. inv_ok.
  match goal with H : allowed_origin _ _ = Ok _ |- _ => rewrite Hop in H; rename H into Ha end.
  unfold allowed_origin in Ha. inv_ok.
  match type of Ha with (if ?x then _ else _) = _ => destruct x eqn:Hx end; [done|].
  unfold is_empty, SecretStore.scope_ok in *. inv_bool. split_and!; try done; [lia|].
  rewrite !andb_true_iff. unfold is_empty.
  repeat split; [by rewrite bool_decide_false|lia|done|by apply bool_decide_true].
Qed.

(** Parsing and reservation agree: the scopes and the code of a backup-code
    operation that parses are ones [reserve_backup_code] normalizes, so a parsed
    operation is never refused as malformed. *)
Theorem parsed_code_normalizes from_slice payload op a b c v code source :
  parse from_slice payload = Ok op -> operation op = BackupCode a b c v code source ->
  exists normalized, SecretStore.normalized_code (account_scope op) source code = Ok normalized.
Proof.
  intros Hparse Hop.
  destruct (parse_backup_code _ _ _ _ _ _ _ _ _ Hparse Hop) as (Hne & Hlen & Hall & Hany & Hsc).
  apply parse_account in Hparse as (account & Hacc & Hemail).
  apply canonical_email_plain in Hemail as [Hplain Hmax].
  assert (SecretStore.scope_ok (account_scope op) 512 = true) as Hscope.
  { assert (bytes_all plain (account_scope op) = true) as Hp
      by (rewrite Hacc, bytes_all_app, Hplain; done).
    unfold SecretStore.scope_ok. rewrite !andb_true_iff. repeat split.
    - rewrite Hacc. done.
    - rewrite Hacc, zlen_app. change (zlen "login.gov:") with 10. lia.
    - eapply bytes_all_impl; [|exact Hp]. intros x [? _]%andb_true_iff. done.
    - apply bool_decide_true, trim_no_whitespace. eapply bytes_all_impl; [|exact Hp].
      intros x [_ ?]%andb_true_iff. done. }
  destruct (normalize_bytes_total _ Hall Hany) as (x & n & Hn).
  exists (of_bytes (x :: n)). unfold SecretStore.normalized_code. rewrite Hscope, Hsc.
  unfold is_empty. rewrite (bool_decide_false _ Hne).
  destruct (Z.ltb_spec 256 (zlen code)); [lia|]. cbn [negb orb reject_if].
  cbn [mbind result_bind]. by rewrite Hn.
Qed.

End operation.
End PrivateOperation.
