(* ===== verification/StoreWitness.v ===== *)
(** * The store and its gate in a concrete environment

    A directory opened, staged to and gated under the oracle of [Toy.v]; every
    theorem of [StoreHistory.v] and [GateLocks.v] is applied to runs of it. *)

From Stdlib Require Import Ascii.
From S2P Require Import Prelude RustStr Env Toy SecretFs SecretStore GateStore GateView.
From S2P Require Import StoreHistory PrivateIdentity PrivacyGate.
From S2P Require Import PrivateOperation.
Import Toy SecretFs SecretStore GateStore GateView StoreHistory GateLocks.
Local Open Scope Z_scope.

Module StoreWitness.

#[local] Existing Instance toy_oracle.
#[local] Existing Instance toy_crypto.

#[export] Instance PrivateScope_eq_dec : EqDecision PrivateScope.
Proof. solve_decision. Defined.
#[export] Instance GateState_eq_dec : EqDecision GateState.
Proof. solve_decision. Defined.

Definition scope_text (sc : option PrivateScope) : string :=
  match sc with
  | None => ""
  | Some sc => join "," (target_id sc :: identity_digest sc :: tally (stage_ sc) :: journey sc)
  end.
Definition state_text (s : GateState) : string :=
  join ";" [epoch s; bool_text (clean s); tally (Z.to_nat (device s));
            tally (Z.to_nat (inode_ s)); anchor_sha256 s; scope_text (scope s)].
Definition scope_parse (s : string) : option PrivateScope :=
  match split_on ","%char s with
  | target :: digest :: stage :: journey =>
      Some {| target_id := target; identity_digest := digest; journey := journey;
              stage_ := untally stage |}
  | _ => None
  end.
Definition state_parse (s : string) : option GateState :=
  match split_on ";"%char s with
  | [epoch; clean; device; inode; anchor; sc] =>
      Some {| epoch := epoch; clean := clean == "t"%string; device := Z.of_nat (untally device);
              inode_ := Z.of_nat (untally inode); anchor_sha256 := anchor;
              scope := scope_parse sc |}
  | _ => None
  end.
#[local] Instance toy_state_serde : Serde GateState := checked_serde state_text state_parse.

(** ** A store *)

Definition toy_world : World := {|
  w_dirs :=
    {[ (0, 2) := {| d_meta := {| m_uid := 0; m_nlink := 3; m_mode := 493 |};
                    d_entries := {[ "store" := EDir (0, 3) ]}; d_locks := ∅ |};
       (0, 3) := {| d_meta := {| m_uid := 1000; m_nlink := 2; m_mode := 448 |};
                    d_entries := ∅; d_locks := ∅ |} ]};
  w_tick := 1;
  w_next_fd := 3;
|}.
Definition toy_root : Path :=
  {| p_is_absolute := true; p_os_len := 6; p_components := [RootDir; Normal "store"] |}.

Definition value_or {A} (d : A) (r : res A) : A := match r with Ok a => a | Err _ => d end.
Definition no_store : SecretStore := {| directory := (0, 0); fd := 0; pid := 0; key := "" |}.
Definition h0 : SecretStore := Eval vm_compute in value_or no_store (open 41 toy_root toy_world).1.
Definition w0 : World := Eval vm_compute in (open 41 toy_root toy_world).2.
(** The same store reopened by another process. *)
Definition h1 : SecretStore := Eval vm_compute in value_or no_store (open_gate 42 toy_root w0).1.
Definition w1 : World := Eval vm_compute in (open_gate 42 toy_root w0).2.
Definition ref0 : string := Eval vm_compute in value_or "" (stage h0 "payload" w1).1.
Definition w2 : World := Eval vm_compute in (stage h0 "payload" w1).2.

Example opened : h1 = {| directory := directory h0; fd := fd h1; pid := 42; key := key h0 |} /\
  zlen ref0 = 64.
Proof. by split. Qed.

(** Evaluate both sides of a closed equation. *)
Ltac vm_eq := match goal with |- _ = ?b => vm_cast_no_check (eq_refl b) end.

Definition w3 : World := Eval vm_compute in (admit_ h0 ref0 w2).2.
Lemma admit_once_witness :
  (status h1 ref0 w2).1 = Ok "staged"%string /\
  admit_ h1 ref0 (history [OStatus h1 ref0; OStage h0 "other"] w3) <> (Ok tt, w3).
Proof.
  split; [vm_eq|].
  apply (admit_once h0 h1 ref0 _ w2 tt w3 tt w3); vm_eq.
Defined.

Definition code_ok (h : SecretStore) (r c a s k : string) (w : World) : World :=
  (reserve_backup_code h r c a s k w).2.
Definition ref1 : string := Eval vm_compute in value_or "" (stage h0 "second" w2).1.
Definition w2' : World := Eval vm_compute in (stage h0 "second" w2).2.
Definition w4 : World := Eval vm_compute in
  (reserve_backup_code h0 ref0 ref0 "account" "mail" "ab-12" w2').2.
Definition w5 : World := Eval vm_compute in
  (reserve_backup_code h1 ref1 ref0 "account" "disk" "cd 34" w4).2.
Lemma backup_code_once_witness :
  (reserve_backup_code h1 ref1 ref0 "account" "disk" "AB 1 2" w4).1
    = Err "private_backup_code_reserved"%string /\
  ref1 <> ref0 /\ ("account" = "account"%string -> "disk" <> "mail"%string /\
    normalized_code "account" "disk" "cd 34" <> normalized_code "account" "mail" "ab-12").
Proof.
  split; [vm_eq|].
  apply (backup_code_once h0 h1 ref0 ref0 "account" "mail" "ab-12"
           ref1 ref0 "account" "disk" "cd 34" [] w2' tt w4 tt w5);
    vm_eq.
Defined.

Definition ref2 : string := Eval vm_compute in value_or "" (stage h0 "third" w2').1.
Definition w6 : World := Eval vm_compute in (stage h0 "third" w2').2.
Definition ref3 : string := Eval vm_compute in value_or "" (stage h0 "fourth" w6).1.
Definition w7 : World := Eval vm_compute in (stage h0 "fourth" w6).2.
Definition w8 : World := Eval vm_compute in
  (reserve_journey h0 ref0 [ref0; ref1; ref2; ref3] w7).2.
Lemma journey_consent_once_witness :
  reserve_journey h1 ref0 [ref3; ref2; ref1; ref0] (history [OLoad h1 ref1] w8) <> (Ok tt, w8).
Proof.
  apply (journey_consent_once h0 h1 ref0 [ref0; ref1; ref2; ref3] _ _ w7 tt w8 tt w8); vm_eq.
Defined.

Definition w9 : World := Eval vm_compute in (store_result h0 ref0 "result" w3).2.
Definition w10 : World := Eval vm_compute in (admit_delivery h1 ref0 w9).2.
Lemma delivery_once_witness :
  (complete_delivery h1 ref0 w10).1 = Ok tt /\
  is_Some (file w9 (directory h0) (fmt [ref0; ".result"])) /\
  admit_delivery h1 ref0 (history [OCompleteDelivery h0 ref0] w10) <> (Ok tt, w10).
Proof.
  split; [vm_eq|].
  apply (delivery_once h0 h1 ref0 [OCompleteDelivery h0 ref0] w9 tt w10 tt w10); vm_eq.
Defined.

Definition w11 : World := Eval vm_compute in history [OAdmit h1 ref0; OBegin h0] w2.
Definition w12 : World := Eval vm_compute in (load h1 ref0 w11).2.
Lemma stage_load_witness :
  (load h1 ref0 w11).1 = Ok "payload"%string /\ "payload"%string = "payload"%string.
Proof.
  split; [vm_eq|].
  apply (stage_load h0 h1 "payload" ref0 [OAdmit h1 ref0; OBegin h0] w1 w2 "payload" w12); vm_eq.
Defined.

Definition w13 : World := Eval vm_compute in (status h0 ref0 w2).2.
Definition w14 : World := Eval vm_compute in (status h1 ref0 (history [OAdmit h1 ref0] w13)).2.
Lemma status_monotone_witness : (status_rank "staged" <= status_rank "admitted")%nat.
Proof. apply (status_monotone h0 h1 ref0 [OAdmit h1 ref0] w2 "staged" w13 "admitted" w14); vm_eq. Defined.

(** ** The gate *)

Definition hex_a : string := Eval vm_compute in repeat_byte "a" 64.
Definition hex_b : string := Eval vm_compute in repeat_byte "b" 64.
Definition lease0 : GateLease := {| gl_fd := 0; gl_dir := (0, 0); gl_owner_pid := 0 |}.
Definition journey_scope : PrivateScope :=
  {| target_id := "target-1"; identity_digest := hex_a; journey := [hex_a; hex_b]; stage_ := 0 |}.

Definition begin0 : res (GateLease * string) :=
  Eval vm_compute in (gate_begin_private_journey h0 "target-1" [hex_a; hex_b] w1).1.
Definition lease1 : GateLease := Eval vm_compute in (value_or (lease0, "") begin0).1.
Definition epoch1 : string := Eval vm_compute in (value_or (lease0, "") begin0).2.
Definition g1 : World := Eval vm_compute in
  (gate_begin_private_journey h0 "target-1" [hex_a; hex_b] w1).2.

(** A journey advanced by its permit, finished, and the gate public again. *)
Example gate_cycle :
  let k := key h0 in let dir := directory h0 in
  let g2 := (run (OAdvance h1 dir epoch1 hex_a 0 "target-1" hex_b) g1).2 in
  let g3 := (run (OFinish h1 dir epoch1) g2).2 in
  let g4 := (run (ODropLease 41 lease1) g3).2 in
  (gate_view k dir w1, gate_view k dir g1, gate_view k dir g2, gate_view k dir g3)
    = (Fresh, Private epoch1 (Some journey_scope),
       Private epoch1 (Some (advance_scope journey_scope hex_b)), Clean epoch1) /\
  is_ok (gate_public_lease h1 g3).1 = false /\ is_ok (gate_public_lease h1 g4).1 = true.
Proof. vm_compute. repeat split. Qed.

Lemma gate_refinement_witness :
  gate_view (key h0) (directory h0) w1 = Fresh /\
  gate_step (Begin (Some journey_scope)) (gate_view (key h0) (directory h0) w1)
    (gate_view (key h0) (directory h0)
       (run (OBeginJourney h0 "target-1" [hex_a; hex_b]) w1).2).
Proof.
  split; [vm_eq|].
  apply (gate_refinement (OBeginJourney h0 "target-1" [hex_a; hex_b]) (key h0)
           (directory h0) w1). unfold keyed. vm_eq.
Defined.

Definition closed_ops : list Op :=
  [ODropLease 41 lease1; OResume h1; OAdvance h1 (directory h0) epoch1 hex_a 0 "target-1" hex_b;
   OMarkUncertain h0].
Lemma closed_ops_no_finish o e : In o closed_ops -> label_of o <> Finish e.
Proof. intros Ho. repeat destruct Ho as [<-|Ho]; done. Qed.
Lemma g1_private : ~ is_public (gate_view (key h0) (directory h0) g1).
Proof. vm_compute. intros [?|[? ?]]; done. Qed.

Lemma gate_fails_closed_witness :
  let w' := history closed_ops g1 in
  is_ok (gate_public_lease h1 w').1 = false /\ is_ok (gate_public_epoch h1 w').1 = false /\
  is_ok (gate_command_lease h1 w').1 = false /\
  (forall sc, is_ok (gate_begin_private_with_scope h1 sc w').1 = false).
Proof.
  apply (gate_fails_closed (key h0) (directory h0) closed_ops g1 h1);
    [unfold keyed; vm_eq|apply g1_private|apply closed_ops_no_finish|vm_eq].
Defined.

Lemma begin_run : gate_begin_private_with_scope h0 (Some journey_scope) w1
  = (Ok (lease1, epoch1), g1).
Proof. vm_eq. Qed.

Lemma begin_closes_gate_witness :
  is_public (gate_view (key h0) (directory h0) w1) /\
  gate_view (key h0) (directory h0) g1 = Private epoch1 (Some journey_scope) /\
  is_ok (gate_public_lease h1 (history closed_ops g1)).1 = false /\
  is_ok (gate_public_epoch h1 (history closed_ops g1)).1 = false.
Proof.
  apply (begin_closes_gate h0 (Some journey_scope) lease1 epoch1 w1 g1 closed_ops h1);
    [apply begin_run|apply closed_ops_no_finish|vm_eq].
Defined.

(** The child of a fork (pid 43) dropping its copy of the lease changes nothing. *)
Lemma private_lease_exclusive_witness :
  let w' := history [ODropLease 43 lease1; OFinish h1 (directory h0) epoch1] g1 in
  is_ok (gate_public_lease h1 w').1 = false /\ is_ok (gate_command_lease h1 w').1 = false /\
  (forall sc', is_ok (gate_begin_private_with_scope h1 sc' w').1 = false) /\
  is_ok (gate_resume_private h1 w').1 = false.
Proof.
  apply (private_lease_exclusive h0 (Some journey_scope) w1 lease1 epoch1 g1); [apply begin_run| |vm_eq].
  constructor; [by right|by constructor].
Defined.

Definition lease2 : GateLease := Eval vm_compute in value_or lease0 (gate_public_lease h0 w1).1.
Definition p1 : World := Eval vm_compute in (gate_public_lease h0 w1).2.
Lemma public_lease_excludes_private_witness :
  is_ok (gate_public_lease h1 (history [OStage h1 "x"] p1)).1 = true /\
  (forall sc, is_ok (gate_begin_private_with_scope h1 sc (history [OStage h1 "x"] p1)).1 = false) /\
  is_ok (gate_resume_private h1 (history [OStage h1 "x"] p1)).1 = false.
Proof.
  split; [vm_eq|].
  apply (public_lease_excludes_private h0 w1 lease2 p1 [OStage h1 "x"] h1); [vm_eq| |vm_eq].
  constructor; [by vm_compute|done].
Defined.

End StoreWitness.

(** ** Private identities, permits and operations in a concrete environment *)

Import Toy SecretFs SecretStore GateStore GateView StoreHistory StoreWitness.
Import PrivateIdentity.PrivateIdentity PrivacyGate.PrivacyGate.
Local Open Scope Z_scope.

Module PrivateWitness.

#[local] Existing Instance toy_oracle.
#[local] Existing Instance toy_crypto.
#[local] Existing Instance toy_json.
#[local] Existing Instance toy_url.
#[local] Existing Instance toy_scalars.
#[local] Instance toy_state_serde : Serde GateState := checked_serde state_text state_parse.

(** ** Identities *)

Definition site : string := "https://secure.login.gov".
Definition page : string := "https://secure.login.gov/".
Definition handle (url lease : string) : @value toy_json :=
  TObj [("valid", TBool true); ("staleReason", TNull); ("leaseState", TStr "exclusive");
        ("leaseHeartbeatExpected", TBool true); ("leaseId", TStr lease); ("sessionName", TStr lease);
        ("profileId", TStr "p"); ("browserId", TStr "b"); ("targetId", TStr "target-1");
        ("tabId", TStr "tab"); ("ownerSessionId", TStr "owner"); ("url", TStr url)]%string.
Definition live (url lease : string) : LivePrivateIdentity :=
  {| live_profile_id := "p"; live_browser_id := "b"; live_session_name := lease;
     live_target_id := "target-1"; live_url := url; live_ready := true |}.
Definition no_target : ValidatedPrivateTarget :=
  {| profile_id := ""; browser_id := ""; session_name := ""; target_id := ""; tab_id := "";
     lease_id := ""; lease_state := ""; owner_session_id := None; origin := ""; url := "";
     scope_digest := "" |}.
Definition target_run := Eval vm_compute in
  validate_private_target (handle page "s") (handle page "s") (live page "s") site page.
Definition target : ValidatedPrivateTarget := Eval vm_compute in value_or no_target target_run.

(** Lease, stale reason and destination each refuse on their own. *)
Example refusals :
  (validate_private_identity (handle page "s") (handle page "t") (live page "s") site page,
   validate_private_identity (handle page "s") (handle page "s") (live page "s") site
     "https://secure.login.gov/x")
  = (Err "private_identity_mismatch", Err "private_url_mismatch")%string.
Proof. vm_compute. reflexivity. Qed.

Lemma canonical_private_url_sound_witness :
  canonical_private_url page = Ok page /\
  exists parsed, private_url page parsed /\ page = u_as_str parsed.
Proof.
  split; [vm_eq|]. apply (canonical_private_url_sound page page). vm_eq.
Defined.

Lemma target_ok :
  validate_private_target (handle page "s") (handle page "s") (live page "s") site page = Ok target.
Proof. vm_eq. Qed.
Lemma scope_digest_binds_witness : no_collision target target /\ target = target.
Proof.
  assert (no_collision target target) as Hn by (intros b b' Hb Hb' _; congruence).
  split; [exact Hn|].
  apply (scope_digest_binds (handle page "s") (handle page "s") (live page "s") site page target
           (handle page "s") (handle page "s") (live page "s") site page target Hn target_ok target_ok).
  reflexivity.
Defined.

Definition destinations : list (string * string) :=
  [(site, page); ("https://sam.gov"%string, "https://sam.gov/next"%string)].
Definition journey_run := Eval vm_compute in journey_new target destinations.
Definition journey0 : ValidatedPrivateJourney := Eval vm_compute in
  value_or {| j_target_id := ""; j_digests := [] |} journey_run.
Lemma journey_new_spec_witness :
  length (j_digests journey0) = 2%nat /\
  head (j_digests journey0) = Some (scope_digest target).
Proof.
  split; [vm_eq|].
  destruct (journey_new_spec target destinations journey0) as (_ & _ & Hh & _); [vm_eq|exact Hh].
Defined.
(** ** Permits and observers *)

Definition gate0 : PrivacyGate := {| g_store := h0; g_endpoint := None |}.
Definition no_observer : PrivacyObserver :=
  {| o_gate := gate0; captured_epoch := None; private := true |}.
Definition observer0 : PrivacyObserver := Eval vm_compute in
  value_or no_observer (public_observer gate0 StoreWitness.w1).1.
Definition v1 : World := Eval vm_compute in (public_observer gate0 StoreWitness.w1).2.
Definition begin_ops : list Op := [OBeginJourney h0 "target-1" [hex_a; hex_b]].
Definition v2 : World := Eval vm_compute in history begin_ops v1.
Definition view2 : View := Eval vm_compute in gate_view (key h0) (directory h0) v2.
Definition epoch2 : string := Eval vm_compute in
  match view2 with Private e _ => e | _ => "" end.

(** The gate is public again at the end, and still refuses the old observer. *)
Definition cleanup_ops : list Op := [OFinish h0 (directory h0) epoch2; ODropLease 41 lease1].
Lemma observer_revoked_witness :
  gate_view (key h0) (directory h0) (history (begin_ops ++ cleanup_ops) v1) = Clean epoch2 /\
  is_ok (observer_lease observer0 (history (begin_ops ++ cleanup_ops) v1)).1 = false.
Proof.
  split; [vm_eq|].
  apply (observer_revoked gate0 observer0 StoreWitness.w1 v1 begin_ops cleanup_ops epoch2
           (Some journey_scope)); [vm_eq|vm_eq|].
  intros ops e' sc' _ _. discriminate.
Defined.

Definition no_permit : PrivatePermit :=
  {| p_file := None; p_store := h0; p_epoch := ""; p_completion := None; p_endpoint := None;
     p_scope := None |}.
Definition journey1 : ValidatedPrivateJourney :=
  {| j_target_id := "target-1"; j_digests := [hex_a; hex_b] |}.
Definition permit0 : PrivatePermit := Eval vm_compute in
  value_or no_permit (begin_private_journey gate0 journey1 StoreWitness.w1).1.
Definition v3 : World := Eval vm_compute in (begin_private_journey gate0 journey1 StoreWitness.w1).2.
Definition fresh : ValidatedPrivateTarget :=
  {| profile_id := "p"; browser_id := "b"; session_name := "s"; target_id := "target-1";
     tab_id := "tab"; lease_id := "s"; lease_state := "exclusive"; owner_session_id := None;
     origin := site; url := page; scope_digest := hex_b |}.
Definition advanced : res unit * PrivatePermit * World := Eval vm_compute in
  advance_target permit0 0 fresh v3.
Lemma advance_target_spec_witness :
  advanced.1.1 = Ok tt /\
  gate_view (key h0) (directory h0) advanced.2
    = Private (p_epoch permit0) (Some (advance_scope journey_scope hex_b)).
Proof.
  split; [vm_eq|].
  destruct (advance_target_spec permit0 0 fresh v3 (Ok tt) advanced.1.2 advanced.2)
    as (old & _ & _ & _ & Hid & Hv & Hv' & _); [vm_eq|].
  assert (old = journey_scope) as -> by (vm_compute in Hv; injection Hv as <-; vm_eq).
  exact Hv'.
Defined.

Definition finished : res CleanupCommit * PrivatePermit * World := Eval vm_compute in
  finish_private gate0 advanced.1.2 advanced.2.
Lemma finish_private_spec_witness :
  is_ok finished.1.1 = true /\
  gate_view (key h0) (directory h0) finished.2 = Clean (p_epoch permit0) /\
  p_file finished.1.2 = None.
Proof.
  split; [vm_eq|].
  destruct (finish_private_spec gate0 advanced.1.2 advanced.2 finished.1.1 finished.1.2 finished.2)
    as (_ & Hv & Hf & _); [vm_eq|]. by split.
Defined.

(** ** Operations *)

Import PrivateOperation.PrivateOperation.

Definition code_op : PrivateOperation := {|
  schema := "agent-browser.private-operation.v1"; service_tab_handle := handle page "s";
  expected_origin := site; expected_url := page; consent_sha256 := hex_a;
  account_scope := "login.gov:jo@agency.gov";
  operation := BackupCode "#code" "#submit" "#account" "jo@agency.gov" "ab12-cd34" "vault/jo" |}.
Definition from_text (payload : string) : option PrivateOperation :=
  if payload == "code"%string then Some code_op else None.
Lemma code_op_parses : parse from_text "code" = Ok code_op.
Proof. vm_eq. Qed.
Lemma parse_sound_witness :
  exists account, account_scope code_op = "login.gov:" +:+ account /\
    canonical_email account = true /\ account_of (operation code_op) = account.
Proof.
  destruct (parse_sound from_text "code" code_op code_op_parses) as (_ & a & u & H1 & H2 & H3 & _).
  by exists a.
Defined.
Lemma parsed_code_normalizes_witness :
  exists n, SecretStore.normalized_code (account_scope code_op) "vault/jo" "ab12-cd34" = Ok n.
Proof.
  apply (parsed_code_normalizes from_text "code" code_op "#code" "#submit" "#account"
           "jo@agency.gov" "ab12-cd34" "vault/jo" code_op_parses).
  reflexivity.
Defined.

End PrivateWitness.
