(* ===== verification/TaskModel.v ===== *)
(** * Task authorities: records, hashes and durable files

    The data of [cli/src/native/task_authority.rs] (envelopes, issuance records,
    ledgers), its pure helpers, the ordered-ledger check, and the file layer the
    operations share. The operations are in [TaskIssue.v], [TaskAdmit.v],
    [TaskReconcile.v] and [TaskConfirm.v]. *)

From S2P Require Import Prelude RustStr Env Policy.
From Stdlib Require Import Ascii.
From stdpp Require Import pretty.

Local Open Scope Z_scope.

Module TaskModel.

Import Policy.Policy.

Definition DEFAULT_EVIDENCE_RESERVATION_BYTES : Z := 4096.
Definition LARGE_EVIDENCE_RESERVATION_BYTES : Z := 65536.
Definition MAX_ISSUED_AUTHORITY_TTL_SECONDS : Z := 3600.
Definition MAX_ISSUED_AUTHORITY_STEPS : Z := 100.

(** ** Records *)

Record TaskAuthorityLineage := {
  ln_reconciliation_id : string;
  ln_predecessor_authority_id : string;
  ln_predecessor_step_id : string;
  ln_predecessor_step_index : Z;
  ln_predecessor_command_id : string;
  ln_predecessor_outcome_state : string;
}.

Record TaskAuthorityEnvelope := {
  en_id : string;
  en_task_name : string;
  en_service_name : option string;
  en_agent_name : option string;
  en_allowed_origins : list string;
  en_allowed_actions : list string;
  en_plan_sha256 : option string;
  en_lineage : option TaskAuthorityLineage;
  (** [target_binding] *)
  en_target_id : string;
  en_initial_url : string;
  (** [evidence_budget] *)
  en_max_actions : Z;
  en_max_evidence_bytes : Z;
  en_consequence_ceiling : string;
  en_expires_at : string;
}.

Record TaskAuthorityStepOutcome := {
  oc_state : string;
  oc_success : bool;
  oc_response_sha256 : string;
  oc_response_bytes : Z;
  oc_target_id : option string;
  oc_url : option string;
  oc_finalized_at : string;
}.

Record TaskAuthorityStepReceipt := {
  rc_step_id : string;
  rc_step_index : Z;
  rc_command_id : string;
  rc_action : string;
  rc_target_id : string;
  rc_current_url : string;
  rc_requested_url : option string;
  rc_reserved_evidence_bytes : Z;
  rc_admitted_at : string;
  rc_outcome : option TaskAuthorityStepOutcome;
}.

Record TaskAuthorityLedger := {
  lg_schema : string;
  lg_authority_id : string;
  lg_envelope_sha256 : string;
  lg_session_id : string;
  lg_admitted_actions : Z;
  lg_reserved_evidence_bytes : Z;
  lg_next_step_index : Z;
  lg_step_receipts : list TaskAuthorityStepReceipt;
  lg_updated_at : string;
}.

Record TaskAuthorityIssuer := { is_kind : string; is_id : string }.

Record TaskAuthorityPlanStep := {
  ps_action : string;
  ps_url : option string;
  ps_evidence_bytes : option Z;
}.

Record TaskAuthorityIssueRequest := {
  rq_task_name : string;
  rq_service_name : option string;
  rq_agent_name : option string;
  rq_expected_target_id : string;
  rq_expected_url : string;
  rq_issuer : TaskAuthorityIssuer;
  rq_approval_reference : string;
  rq_expires_in_seconds : Z;
  rq_consequence_ceiling : option string;
  rq_steps : list TaskAuthorityPlanStep;
}.

Record TaskAuthorityApprovedStep := {
  as_step_id : string;
  as_index : Z;
  as_action : string;
  as_expected_current_url : string;
  as_requested_url : option string;
  as_evidence_bytes : Z;
}.

Record TaskAuthorityApprovedPlan := {
  ap_actions : list string;
  ap_origins : list string;
  ap_action_count : Z;
  ap_evidence_bytes : Z;
  ap_steps : list TaskAuthorityApprovedStep;
  ap_plan_sha256 : option string;
}.

Record TaskAuthorityReconciliation := {
  rn_reconciliation_id : string;
  rn_request_sha256 : string;
  rn_predecessor_step_id : string;
  rn_predecessor_step_index : Z;
  rn_predecessor_command_id : string;
  rn_predecessor_outcome_state : string;
  rn_replacement_authority_id : string;
  rn_state : string;
  rn_completed_at : option string;
}.

Record TaskAuthorityRevocation := {
  rv_revoked_at : string;
  rv_revoked_by : string;
  rv_reason : string;
  rv_target_url : string;
  rv_reconciliation : option TaskAuthorityReconciliation;
}.

Record TaskAuthorityIssuanceRecord := {
  ir_schema : string;
  ir_session_id : string;
  ir_envelope : TaskAuthorityEnvelope;
  ir_envelope_sha256 : string;
  ir_issuer : TaskAuthorityIssuer;
  ir_approval_reference : string;
  ir_approved_plan : TaskAuthorityApprovedPlan;
  ir_issued_at : string;
  ir_revocation : option TaskAuthorityRevocation;
}.

Record TaskAuthorityContext := {
  cx_session_id : string;
  cx_target_id : option string;
  cx_url : option string;
  cx_confirmed_authority_id : option string;
  cx_require_authority : bool;
  cx_ledger_root : string;
}.

Record TaskAuthorityAdmission := {
  ad_authority_id : string;
  ad_envelope_sha256 : string;
  ad_consequence_ceiling : ActionConsequence;
  ad_consequence : ActionConsequence;
  ad_admitted_actions : Z;
  ad_reserved_evidence_bytes : Z;
  ad_expires_at : string;
  ad_step_id : option string;
  ad_step_index : option Z;
}.

(** [Admitted] of the source is [Admitted_]. *)
Inductive TaskAuthorityDecision :=
| NotPresent
| Admitted_ (a : TaskAuthorityAdmission)
| RequiresConfirmation (a : TaskAuthorityAdmission).

#[export] Instance lineage_eq_dec : EqDecision TaskAuthorityLineage.
Proof. solve_decision. Defined.
#[export] Instance envelope_eq_dec : EqDecision TaskAuthorityEnvelope.
Proof. solve_decision. Defined.
#[export] Instance outcome_eq_dec : EqDecision TaskAuthorityStepOutcome.
Proof. solve_decision. Defined.
#[export] Instance receipt_eq_dec : EqDecision TaskAuthorityStepReceipt.
Proof. solve_decision. Defined.
#[export] Instance ledger_eq_dec : EqDecision TaskAuthorityLedger.
Proof. solve_decision. Defined.
#[export] Instance issuer_eq_dec : EqDecision TaskAuthorityIssuer.
Proof. solve_decision. Defined.
#[export] Instance approved_step_eq_dec : EqDecision TaskAuthorityApprovedStep.
Proof. solve_decision. Defined.
#[export] Instance approved_plan_eq_dec : EqDecision TaskAuthorityApprovedPlan.
Proof. solve_decision. Defined.
#[export] Instance reconciliation_eq_dec : EqDecision TaskAuthorityReconciliation.
Proof. solve_decision. Defined.
#[export] Instance revocation_eq_dec : EqDecision TaskAuthorityRevocation.
Proof. solve_decision. Defined.
#[export] Instance issuance_eq_dec : EqDecision TaskAuthorityIssuanceRecord.
Proof. solve_decision. Defined.
#[export] Instance consequence_eq_dec : EqDecision ActionConsequence.
Proof. solve_decision. Defined.

Definition v1 : string := "agent-browser.task-authority-issuance.v1".
Definition v2 : string := "agent-browser.task-authority-issuance.v2".
Definition ledger_v1 : string := "agent-browser.task-authority-ledger.v1".
Definition ledger_v2 : string := "agent-browser.task-authority-ledger.v2".

(** [{:x}] of a number and [{}] of an unsigned one. *)
Definition decimal (z : Z) : string := pretty z.

(** ** Durable files

    The files under the ledger root, by path. Every system call may fail;
    [Path::exists] answers "no" when its [stat] fails. *)

Record Files := { t_files : gmap string string; t_tick : nat }.

Class Host := {
  h_sys : nat -> bool;
  (** [false]: the [stat] behind [exists] fails *)
  h_stat : nat -> bool;
  (** [Utc::now()] *)
  h_now : nat -> Z;
  (** [uuid::Uuid::new_v4()] *)
  h_uuid : nat -> string;
  (** the order in which [read_dir] yields entries *)
  h_order : nat -> list string -> list string;
  h_order_perm : forall t l, h_order t l ≡ₚ l;
}.

Section files.
Context `{!Host}.

Definition ticked (w : Files) : Files := {| t_files := t_files w; t_tick := S (t_tick w) |}.
Definition put (path text : string) (w : Files) : Files :=
  {| t_files := <[path := text]> (t_files w); t_tick := t_tick w |}.

Definition sys (error : string) : SM Files unit := fun w =>
  if h_sys (t_tick w) then (Ok tt, ticked w) else (Err error, ticked w).
Definition now : SM Files Z := fun w => (Ok (h_now (t_tick w)), ticked w).
Definition uuid : SM Files string := fun w => (Ok (h_uuid (t_tick w)), ticked w).
Definition exists_ (path : string) : SM Files bool := fun w =>
  (Ok (h_stat (t_tick w) && bool_decide (is_Some (t_files w !! path))), ticked w).

(** [fs::read_to_string] *)
Definition read_to_string (path error : string) : SM Files string :=
  sys error ≫= fun _ =>
  w ← sm_get;
  sm_lift (ok_or error (t_files w !! path)).

(** The names of the files directly in a directory; a directory exists while it
    holds a file. *)
Definition entry_name (directory path : string) : option string :=
  name ← RustStr.strip_prefix (directory +:+ "/") path;
  if bytes_any (Ascii.eqb "/") name then None else Some name.
Definition children (directory : string) (w : Files) : list string :=
  omap (fun p => entry_name directory p.1) (map_to_list (t_files w)).
Definition directory_exists (directory : string) : SM Files bool := fun w =>
  (Ok (h_stat (t_tick w)
       && existsb (fun p => starts_with (directory +:+ "/") p.1) (map_to_list (t_files w))),
   ticked w).
(** [fs::read_dir]; each entry is fetched by a system call of its own. *)
Definition read_dir (directory error : string) : SM Files (list string) := fun w =>
  if h_sys (t_tick w) then (Ok (h_order (t_tick w) (children directory w)), ticked w)
  else (Err error, ticked w).
(** [fs::remove_file] *)
Definition remove_file (path error : string) : SM Files unit :=
  sys error ≫= fun _ =>
  sm_modify (fun w => {| t_files := delete path (t_files w); t_tick := t_tick w |}).

Definition safe_char (ch : N) : ascii :=
  let c := ascii_of_N ch in
  if (ch <? 128)%N && (is_ascii_alphanumeric c || Ascii.eqb c "-" || Ascii.eqb c "_"
                       || Ascii.eqb c ".")
  then c else "_"%char.
Definition safe_component (value : string) : string :=
  let cleaned := of_bytes (map safe_char (chars value)) in
  if is_empty cleaned then "unnamed" else cleaned.

Definition ledger_path (root session_id authority_id : string) : string :=
  fmt [root; "/"; safe_component session_id; "/"; safe_component authority_id; ".json"].
Definition issuance_path (root session_id authority_id : string) : string :=
  fmt [root; "/"; safe_component session_id; "/"; safe_component authority_id;
       ".issuance.json"].

(** [write_private_json]: the temporary file is renamed over the target last. *)
Definition write_private_json `{!Serde T} (directory name : string) (value : T) (label : string)
    : SM Files unit :=
  sys (fmt ["Failed to create "; label; " directory"]) ≫= fun _ =>
  sys (fmt ["Failed to secure "; label; " directory"]) ≫= fun _ =>
  id ← uuid;
  let temporary := fmt [directory; "/."; name; "."; id; ".tmp"] in
  bytes ← sm_lift (ok_or (fmt ["Failed to serialize "; label]) (to_vec value));
  sm_modify (put temporary "") ≫= fun _ =>
  sys (fmt ["Failed to stage "; label]) ≫= fun _ =>
  sm_modify (put temporary bytes) ≫= fun _ =>
  sys (fmt ["Failed to secure staged "; label]) ≫= fun _ =>
  sys (fmt ["Failed to publish "; label]) ≫= fun _ =>
  sm_modify (fun w =>
    {| t_files := <[fmt [directory; "/"; name] := bytes]> (delete temporary (t_files w));
       t_tick := t_tick w |}).

Definition read_json `{!Serde T} (path label : string) : SM Files (option T) :=
  present ← exists_ path;
  if negb present then mret None else
  text ← read_to_string path (fmt ["Failed to read "; label]);
  value ← sm_lift (ok_or (fmt ["Invalid "; label]) (from_slice text));
  mret (Some value).

Context `{!Serde TaskAuthorityLedger, !Serde TaskAuthorityIssuanceRecord}.

Definition read_ledger (path : string) : SM Files (option TaskAuthorityLedger) :=
  read_json path "task authority ledger".
Definition read_issuance (path : string) : SM Files (option TaskAuthorityIssuanceRecord) :=
  read_json path "task authority issuance".

Definition session_directory (root session_id : string) : string :=
  fmt [root; "/"; safe_component session_id].
Definition write_ledger (root session_id authority_id : string) (ledger : TaskAuthorityLedger)
    : SM Files unit :=
  write_private_json (session_directory root session_id)
    (fmt [safe_component authority_id; ".json"]) ledger "task authority ledger".
Definition write_issuance (root session_id authority_id label : string)
    (record : TaskAuthorityIssuanceRecord) : SM Files unit :=
  write_private_json (session_directory root session_id)
    (fmt [safe_component authority_id; ".issuance.json"]) record label.
End files.

(** ** Pure helpers *)

Section helpers.
Context `{!Json, !UrlLib, !Crypto, !Chrono, !Serde TaskAuthorityEnvelope,
          !Serde (list TaskAuthorityApprovedStep)}.

Definition require_http (what : string) (parsed : Url) : res unit :=
  if negb (one_of (u_scheme parsed) ["http"; "https"]%string)
  then Err (fmt ["Task authority permits only http or https "; what; ", got '";
                 u_scheme parsed; "'"])
  else Ok tt.

Definition parse_url (value : string) : res Url :=
  match url_parse value with
  | Ok url => Ok url
  | Err error => Err (fmt ["Invalid authority URL: "; error])
  end.

Definition normalized_origin (value : string) : res string :=
  parsed ← parse_url value;
  require_http "origins" parsed ≫= fun _ =>
  host ← ok_or "Task authority URL has no host"%string (u_host_str parsed);
  let origin := fmt [u_scheme parsed; "://"; str_map to_ascii_lowercase host] in
  Ok (match u_port parsed with Some port => fmt [origin; ":"; decimal port] | None => origin end).

Definition normalized_url (value : string) : res string :=
  parsed ← parse_url value;
  require_http "URLs" parsed ≫= fun _ =>
  Ok (u_without_fragment parsed).

Definition envelope_sha256 (envelope : TaskAuthorityEnvelope) : res string :=
  bytes ← ok_or "Failed to serialize task authority"%string (to_vec envelope);
  Ok (hex_encode (sha256 bytes)).
Definition approved_plan_sha256 (steps : list TaskAuthorityApprovedStep) : res string :=
  bytes ← ok_or "Failed to serialize task authority plan"%string (to_vec steps);
  Ok (hex_encode (sha256 bytes)).

Definition get_str (cmd : value) (field : string) : option string := v ← jget cmd field; Env.as_str v.
Definition or_else {A} (a b : option A) : option A := match a with Some _ => a | None => b end.

Definition explicit_requested_url (cmd : value) : option string :=
  or_else (get_str cmd "url") (params ← jget cmd "params"; get_str params "url").
Definition requested_url (cmd : value) (fallback : option string) : option string :=
  or_else (explicit_requested_url cmd)
    (or_else (handle ← jget cmd "serviceTabHandle"; get_str handle "url") fallback).

Definition default_evidence_reservation (action : string) : Z :=
  if one_of action ["snapshot"; "content"; "read_page"; "screenshot"; "pdf"]%string
  then LARGE_EVIDENCE_RESERVATION_BYTES else DEFAULT_EVIDENCE_RESERVATION_BYTES.

Definition requested_consequence_ceiling (requested : option string)
    : res (ActionConsequence * ActionConsequence) :=
  match requested with
  | None => Ok (Navigation, ReadOnly)
  | Some requested =>
      ceiling ← ok_or (fmt ["Invalid task authority consequenceCeiling '"; requested; "'"])
                  (parse requested);
      if authority_rank ScriptExecution <? authority_rank ceiling
      then Err (fmt ["Task authority consequenceCeiling '"; as_str ceiling;
                     "' exceeds the broker-issued maximum 'script_execution'"])
      else Ok (ceiling, ceiling)
  end.

Definition get_u64 (cmd : value) (field : string) : option Z := v ← jget cmd field; as_u64 v.
Definition evidence_reservation (cmd : value) (action : string) : Z :=
  match or_else (get_u64 cmd "taskEvidenceBytes") (or_else (get_u64 cmd "maxReturnBytes")
          (or_else (get_u64 cmd "maxTextBytes") (get_u64 cmd "maxBodyBytes"))) with
  | Some explicit => explicit
  | None => default_evidence_reservation action
  end.

Definition require_label (cmd : value) (field expected : string) : res unit :=
  match get_str cmd field with
  | None => Err (fmt ["Task authority requires top-level "; field])
  | Some actual =>
      if is_empty actual then Err (fmt ["Task authority requires top-level "; field])
      else if actual != expected
      then Err (fmt ["Task authority "; field; " mismatch: expected '"; expected; "', got '";
                     actual; "'"])
      else Ok tt
  end.

(** ** The ordered ledger *)

Definition valid_outcome (receipt : TaskAuthorityStepReceipt)
    (outcome : TaskAuthorityStepOutcome) : res bool :=
  if negb (one_of (oc_state outcome) ["completed"; "failed"]%string)
     || negb (Bool.eqb (oc_success outcome) (oc_state outcome == "completed"%string))
     || (oc_response_bytes outcome =? 0)
     || negb (zlen (oc_response_sha256 outcome) =? 64)
     || negb (bytes_all is_ascii_hexdigit (oc_response_sha256 outcome))
     || negb (is_ok (parse_from_rfc3339 (oc_finalized_at outcome)))
     || match oc_target_id outcome with Some v => v != rc_target_id receipt | None => false end
  then Ok false else
  url ← option_traverse normalized_url (oc_url outcome);
  Ok (url == oc_url outcome).

(** The loop over the receipts, from [index] on. *)
Fixpoint validate_receipts (record : TaskAuthorityIssuanceRecord)
    (index : nat) (command_ids : gset string) (evidence_bytes : Z)
    (receipts : list TaskAuthorityStepReceipt) : res Z :=
  match receipts with
  | [] => Ok evidence_bytes
  | receipt :: rest =>
      step ← ok_or "Task authority ordered ledger exceeds the approved plan"%string
               (ap_steps (ir_approved_plan record) !! index);
      if (rc_step_id receipt != as_step_id step)
         || negb (rc_step_index receipt =? as_index step)
         || (rc_action receipt != as_action step)
         || (rc_target_id receipt != en_target_id (ir_envelope record))
         || (rc_current_url receipt != as_expected_current_url step)
         || (rc_requested_url receipt != as_requested_url step)
         || negb (rc_reserved_evidence_bytes receipt =? as_evidence_bytes step)
         || is_empty (rc_command_id receipt)
         || bool_decide (rc_command_id receipt ∈ command_ids)
      then Err "Task authority ordered ledger receipt is invalid"%string else
      valid ← (match rc_outcome receipt with
               | Some outcome => valid_outcome receipt outcome
               | None => Ok true
               end);
      if negb valid then Err "Task authority ordered ledger outcome is invalid"%string else
      evidence_bytes ← ok_or "Task authority ordered ledger evidence overflow"%string
                         (u64_checked_add evidence_bytes (rc_reserved_evidence_bytes receipt));
      validate_receipts record (S index) ({[ rc_command_id receipt ]} ∪ command_ids)
        evidence_bytes rest
  end.

Definition validate_ordered_ledger (ledger : TaskAuthorityLedger)
    (record : TaskAuthorityIssuanceRecord) : res unit :=
  if (lg_schema ledger != ledger_v2)
     || negb (lg_next_step_index ledger =? Z.of_nat (length (lg_step_receipts ledger)))
     || negb (lg_admitted_actions ledger =? lg_next_step_index ledger)
  then Err "Task authority ordered ledger cursor is invalid"%string else
  evidence_bytes ← validate_receipts record 0 ∅ 0 (lg_step_receipts ledger);
  if negb (lg_reserved_evidence_bytes ledger =? evidence_bytes)
  then Err "Task authority ordered ledger evidence total is invalid"%string else Ok tt.
End helpers.

(** ** The file layer *)

(** The value stored at a path. *)
Definition stored `{!Serde T} (path : string) (w : Files) : option T :=
  text ← t_files w !! path; from_slice text.

(** [exists] never misreports. *)
Definition stat_reliable `{!Host} : Prop := forall t, h_stat t = true.

(** Same files, whatever the clock. *)
Definition same : relation Files := fun w w' => t_files w' = t_files w.
(** Same file at every path that satisfies [P]. *)
Definition same_at (P : string -> Prop) : relation Files := fun w w' =>
  forall path, P path -> t_files w' !! path = t_files w !! path.
#[export] Instance same_refl : Reflexive same.
Proof. done. Qed.
#[export] Instance same_trans : Transitive same.
Proof. intros w1 w2 w3 H1 H2. unfold same in *. congruence. Qed.
#[export] Instance same_at_refl P : Reflexive (same_at P).
Proof. intros w path. done. Qed.
#[export] Instance same_at_trans P : Transitive (same_at P).
Proof. intros w1 w2 w3 H1 H2 path HP. rewrite H2, H1; done. Qed.
Lemma same_same_at P w w' : same w w' -> same_at P w w'.
Proof. intros H path _. by rewrite H. Qed.
Lemma preserves_same_at {A} P (m : SM Files A) : preserves same m -> preserves (same_at P) m.
Proof. intros H w. apply same_same_at, H. Qed.

Section file_lemmas.
Context `{!Host}.

Lemma same_sys e : preserves same (sys e).
Proof. intros w. unfold sys. by case_match. Qed.
Lemma same_now : preserves same now.
Proof. intros w. done. Qed.
Lemma same_uuid : preserves same uuid.
Proof. intros w. done. Qed.
Lemma same_exists path : preserves same (exists_ path).
Proof. intros w. done. Qed.
#[local] Hint Resolve same_sys same_now same_uuid same_exists : frame.
Lemma same_directory_exists directory : preserves same (directory_exists directory).
Proof. intros w. done. Qed.
Lemma same_read_dir directory e : preserves same (read_dir directory e).
Proof. intros w. unfold read_dir. by case_match. Qed.
Lemma same_read_to_string path e : preserves same (read_to_string path e).
Proof. unfold read_to_string. frame. Qed.
#[local] Hint Resolve same_read_to_string : frame.
Lemma same_read_json `{!Serde T} path label : preserves same (read_json (T:=T) path label).
Proof. unfold read_json. frame. Qed.

Lemma sys_inv e w r w' : sys e w = (r, w') -> w' = ticked w /\ (r = Ok tt \/ r = Err e).
Proof. unfold sys. destruct (h_sys (t_tick w)); intros [= <- <-]; auto. Qed.

Lemma read_to_string_ok path e w text w' :
  read_to_string path e w = (Ok text, w') -> same w w' /\ t_files w !! path = Some text.
Proof.
  intros Hrun. split; [exact (preserves_run _ _ _ _ _ (same_read_to_string path e) Hrun)|].
  unfold read_to_string in Hrun. apply sm_bind_ok in Hrun as (u & w1 & Hs & Hrun).
  apply sys_inv in Hs as [-> _]. by apply sm_bind_ok in Hrun as (? & ? & [= <- <-] & [?%ok_or_ok _]%sm_lift_ok).
Qed.

Lemma read_json_ok `{!Serde T} path label w (o : option T) w' :
  read_json path label w = (Ok o, w') ->
  same w w' /\
  match o with
  | Some x => stored path w = Some x
  | None => h_stat (t_tick w) = true -> t_files w !! path = None
  end.
Proof.
  intros Hrun. split; [exact (preserves_run _ _ _ _ _ (same_read_json path label) Hrun)|].
  unfold read_json in Hrun. apply sm_bind_ok in Hrun as (b & w1 & Hb & Hrun).
  unfold exists_ in Hb. injection Hb as <- <-.
  destruct (h_stat (t_tick w)) eqn:Hst; cbn [andb negb] in Hrun.
  - destruct (bool_decide_reflect (is_Some (t_files w !! path))) as [Hin|Hn];
      cbn [negb] in Hrun.
    + apply sm_bind_ok in Hrun as (text & w2 & Hr & Hrun).
      apply read_to_string_ok in Hr as [_ Hr]. inv_ok. unfold stored. cbn in *. by rewrite Hr.
    + inv_ok. intros _. destruct (t_files w !! path); [|done]. by destruct Hn; eexists.
  - inv_ok. done.
Qed.

Definition temporary (path : string) : bool := ends_with ".tmp" path.

Lemma put_same_at path text w : temporary path = true -> same_at (fun p => temporary p = false) w (put path text w).
Proof. intros Ht p Hp. cbn. rewrite lookup_insert_ne; [done|]. congruence. Qed.

Lemma temporary_name directory name id :
  temporary (fmt [directory; "/."; name; "."; id; ".tmp"]) = true.
Proof.
  unfold temporary.
  change (fmt [directory; "/."; name; "."; id; ".tmp"])
    with (directory +:+ ("/." +:+ (name +:+ ("." +:+ (id +:+ ".tmp"))))).
  rewrite !string_app_assoc. apply ends_with_app.
Qed.

(** A failed write leaves every file but temporary ones as it was; a successful
    one replaces the target with the serialized value. *)
Lemma write_private_json_text `{!Serde T} directory name (value : T) label w r w' :
  let target := fmt [directory; "/"; name] in
  temporary target = false ->
  write_private_json directory name value label w = (r, w') ->
  match r with
  | Ok _ => exists text, to_vec value = Some text /\ t_files w' !! target = Some text /\
            same_at (fun p => temporary p = false /\ p <> target) w w'
  | Err _ => same_at (fun p => temporary p = false) w w'
  end.
Proof.
  intros target Ht Hrun. unfold write_private_json in Hrun. fold target in Hrun.
  set (Q := same_at (fun p => temporary p = false)).
  assert (forall w2 w3, same w2 w3 -> Q w2 w3) as Hsame by (intros; by apply same_same_at).
  apply sm_bind_inv in Hrun as [(u1 & w1 & Hw1 & Hrun)|(e & Hw1 & ->)];
    apply sys_inv in Hw1 as [-> _]; [|by apply Hsame].
  apply sm_bind_inv in Hrun as [(u2 & w2 & Hw2 & Hrun)|(e & Hw2 & ->)];
    apply sys_inv in Hw2 as [-> _]; [|by apply Hsame].
  apply sm_bind_inv in Hrun as [(id & w3 & [= <- <-] & Hrun)|(e & [=] & _)].
  apply sm_bind_inv in Hrun as [(b & w4 & Hb & Hrun)|(e & [= _ <-] & ->)]; [|by apply Hsame].
  apply sm_lift_ok in Hb as [Hb ->]. apply ok_or_ok in Hb.
  set (tmp := fmt [directory; "/."; name; "."; _; ".tmp"]) in Hrun.
  assert (temporary tmp = true) as Htmp by apply temporary_name.
  assert (forall text w, Q w (put tmp text w)) as Hput by (intros; by apply put_same_at).
  clearbody tmp.
  apply sm_bind_inv in Hrun as [(u5 & w5 & [= <- <-] & Hrun)|(e & [=] & _)].
  apply sm_bind_inv in Hrun as [(u6 & w6 & Hw6 & Hrun)|(e & Hw6 & ->)];
    apply sys_inv in Hw6 as [-> _]; [|apply (Hput "" (ticked (ticked (ticked w))))].
  apply sm_bind_inv in Hrun as [(u7 & w7 & [= <- <-] & Hrun)|(e & [=] & _)].
  assert (Q w (put tmp b (ticked (put tmp "" (ticked (ticked (ticked w))))))) as Hq.
  { intros p Hp. cbn. rewrite !lookup_insert_ne by congruence. done. }
  apply sm_bind_inv in Hrun as [(u8 & w8 & Hw8 & Hrun)|(e & Hw8 & ->)];
    apply sys_inv in Hw8 as [-> _]; [|exact Hq].
  apply sm_bind_inv in Hrun as [(u9 & w9 & Hw9 & Hrun)|(e & Hw9 & ->)];
    apply sys_inv in Hw9 as [-> _]; [|exact Hq].
  injection Hrun as <- <-. exists b. split_and!; [done| |].
  - cbn. by rewrite lookup_insert_eq.
  - intros p [Hp Hne]. cbn.
    rewrite lookup_insert_ne by (intros He; apply Hne; by rewrite <-He).
    rewrite lookup_delete_ne by congruence. by apply Hq.
Qed.

Lemma write_private_json_run `{!Serde T} directory name (value : T) label w r w' :
  let target := fmt [directory; "/"; name] in
  temporary target = false ->
  write_private_json directory name value label w = (r, w') ->
  match r with
  | Ok _ => stored target w' = Some value /\
            same_at (fun p => temporary p = false /\ p <> target) w w'
  | Err _ => same_at (fun p => temporary p = false) w w'
  end.
Proof.
  intros target Ht Hrun. apply write_private_json_text in Hrun; [|done]. destruct r; [|done].
  destruct Hrun as (text & Htext & Hat & ?). split; [|done].
  unfold stored, target. rewrite Hat. cbn. by apply from_slice_to_vec.
Qed.
End file_lemmas.

#[export] Hint Resolve same_sys same_now same_uuid same_exists same_read_to_string
  same_read_json same_directory_exists same_read_dir : frame.

(** ** Paths *)

Lemma issuance_path_parts root session id :
  issuance_path root session id
  = fmt [session_directory root session; "/"; fmt [safe_component id; ".issuance.json"]].
Proof.
  unfold issuance_path, session_directory. cbn. by rewrite !string_app_nil_r, !string_app_assoc.
Qed.
Lemma ledger_path_parts root session id :
  ledger_path root session id
  = fmt [session_directory root session; "/"; fmt [safe_component id; ".json"]].
Proof.
  unfold ledger_path, session_directory. cbn. by rewrite !string_app_nil_r, !string_app_assoc.
Qed.
Lemma json_not_temporary a b s :
  ends_with ".tmp" s = false -> ends_with s ".tmp" = false ->
  temporary (fmt [a; "/"; fmt [b; s]]) = false.
Proof.
  intros H1 H2. unfold temporary. cbn. rewrite !string_app_nil_r, !string_app_assoc.
  apply not_true_iff_false. intros [H|H]%ends_with_app_inv; congruence.
Qed.

End TaskModel.
