(* ===== verification/TaskIssue.v ===== *)
(** * Issuing, inspecting and revoking task authorities

    [issue_task_authority_with_identity], [authority_status_receipt],
    [task_authority_status] of one authority, [revoke_task_authority] and
    [finalize_task_authority_step] of [cli/src/native/task_authority.rs]. JSON
    receipts are records with the fields of the [json!] objects. *)

From S2P Require Import Prelude RustStr Env Policy TaskModel.
From Stdlib Require Import Ascii.
Import Policy.Policy TaskModel.

Local Open Scope Z_scope.

Module TaskIssue.

(** The status receipt; [idempotent] is added by the mutating operations. *)
Record StatusReceipt := {
  sr_id : string;
  sr_session_id : string;
  sr_state : string;
  sr_usable : bool;
  sr_envelope : TaskAuthorityEnvelope;
  sr_envelope_sha256 : string;
  sr_issuer : TaskAuthorityIssuer;
  sr_approval_reference : string;
  sr_approved_plan : TaskAuthorityApprovedPlan;
  sr_issued_at : string;
  sr_revocation : option TaskAuthorityRevocation;
  sr_admitted_actions : Z;
  sr_max_actions : Z;
  sr_remaining_actions : Z;
  sr_reserved_evidence_bytes : Z;
  sr_max_evidence_bytes : Z;
  sr_remaining_evidence_bytes : Z;
  sr_ledger_updated_at : option string;
  sr_next_step_index : Z;
  sr_next_step : option TaskAuthorityApprovedStep;
  sr_admitted_steps : list TaskAuthorityStepReceipt;
  sr_completed_steps : list TaskAuthorityStepReceipt;
  sr_failed_steps : list TaskAuthorityStepReceipt;
  sr_indeterminate_steps : list TaskAuthorityStepReceipt;
  sr_remaining_steps : Z;
  sr_idempotent : option bool;
}.

Definition set_idempotent (b : bool) (r : StatusReceipt) : StatusReceipt :=
  {| sr_id := sr_id r; sr_session_id := sr_session_id r; sr_state := sr_state r;
     sr_usable := sr_usable r; sr_envelope := sr_envelope r;
     sr_envelope_sha256 := sr_envelope_sha256 r; sr_issuer := sr_issuer r;
     sr_approval_reference := sr_approval_reference r; sr_approved_plan := sr_approved_plan r;
     sr_issued_at := sr_issued_at r; sr_revocation := sr_revocation r;
     sr_admitted_actions := sr_admitted_actions r; sr_max_actions := sr_max_actions r;
     sr_remaining_actions := sr_remaining_actions r;
     sr_reserved_evidence_bytes := sr_reserved_evidence_bytes r;
     sr_max_evidence_bytes := sr_max_evidence_bytes r;
     sr_remaining_evidence_bytes := sr_remaining_evidence_bytes r;
     sr_ledger_updated_at := sr_ledger_updated_at r;
     sr_next_step_index := sr_next_step_index r; sr_next_step := sr_next_step r;
     sr_admitted_steps := sr_admitted_steps r; sr_completed_steps := sr_completed_steps r;
     sr_failed_steps := sr_failed_steps r; sr_indeterminate_steps := sr_indeterminate_steps r;
     sr_remaining_steps := sr_remaining_steps r; sr_idempotent := Some b |}.

(** The state a receipt is shown in: its outcome's, or indeterminate. *)
Definition receipt_state (receipt : TaskAuthorityStepReceipt) : string :=
  match rc_outcome receipt with Some o => oc_state o | None => "indeterminate" end.
Definition in_state (state : string) (receipt : TaskAuthorityStepReceipt) : bool :=
  receipt_state receipt == state.

Definition from_ledger {A} (f : TaskAuthorityLedger -> A) (default : A)
    (ledger : option TaskAuthorityLedger) : A :=
  match ledger with Some ledger => f ledger | None => default end.

Section task.
Context `{!Host, !Json, !UrlLib, !Crypto, !Chrono, !Serde TaskAuthorityEnvelope,
          !Serde (list TaskAuthorityApprovedStep), !Serde TaskAuthorityLedger,
          !Serde TaskAuthorityIssuanceRecord, !Serde value,
          !SerdeValue TaskAuthorityEnvelope, !SerdeValue TaskAuthorityIssueRequest}.

(** [fmt] of a [from_value] failure *)
Definition decode `{!SerdeValue T} (what : string) (v : value) : res T :=
  match from_value v with
  | Ok x => Ok x
  | Err error => Err (fmt ["Invalid "; what; ": "; error])
  end.

(** ** Status *)

Definition check_issuance (record : TaskAuthorityIssuanceRecord)
    (ledger : option TaskAuthorityLedger) : res unit :=
  hash ← envelope_sha256 (ir_envelope record);
  if hash != ir_envelope_sha256 record
  then Err "Task authority issuance envelope hash is invalid"%string else
  if ir_schema record == v2 then
    if match ap_steps (ir_approved_plan record) with [] => true | _ => false end
    then Err "Task authority ordered plan is empty"%string else
    plan_sha256 ← approved_plan_sha256 (ap_steps (ir_approved_plan record));
    if (ap_plan_sha256 (ir_approved_plan record) != Some plan_sha256)
       || (en_plan_sha256 (ir_envelope record) != Some plan_sha256)
    then Err "Task authority issuance plan hash is invalid"%string else
    match ledger with
    | Some ledger => validate_ordered_ledger ledger record
    | None => Ok tt
    end
  else Ok tt.

(** The fields of the receipt, observed at time [at_]. *)
Definition status_of (record : TaskAuthorityIssuanceRecord)
    (ledger : option TaskAuthorityLedger) (expires_at at_ : Z) : StatusReceipt :=
  let envelope := ir_envelope record in
  let admitted_actions := from_ledger lg_admitted_actions 0 ledger in
  let reserved_evidence_bytes := from_ledger lg_reserved_evidence_bytes 0 ledger in
  let max_actions := en_max_actions envelope in
  let max_evidence_bytes := en_max_evidence_bytes envelope in
  let expired := expires_at <=? at_ in
  let exhausted := (max_actions <=? admitted_actions)
                   || (max_evidence_bytes <=? reserved_evidence_bytes) in
  let state :=
    if ir_revocation record then "revoked"
    else if expired then "expired"
    else if exhausted then "exhausted" else "active" in
  let next_step_index := from_ledger lg_next_step_index 0 ledger in
  let steps := ap_steps (ir_approved_plan record) in
  let step_receipts := from_ledger lg_step_receipts [] ledger in
  {| sr_id := en_id envelope; sr_session_id := ir_session_id record; sr_state := state;
     sr_usable := state == "active"; sr_envelope := envelope;
     sr_envelope_sha256 := ir_envelope_sha256 record; sr_issuer := ir_issuer record;
     sr_approval_reference := ir_approval_reference record;
     sr_approved_plan := ir_approved_plan record; sr_issued_at := ir_issued_at record;
     sr_revocation := ir_revocation record; sr_admitted_actions := admitted_actions;
     sr_max_actions := max_actions;
     sr_remaining_actions := u64_saturating_sub max_actions admitted_actions;
     sr_reserved_evidence_bytes := reserved_evidence_bytes;
     sr_max_evidence_bytes := max_evidence_bytes;
     sr_remaining_evidence_bytes := u64_saturating_sub max_evidence_bytes reserved_evidence_bytes;
     sr_ledger_updated_at := lg_updated_at <$> ledger;
     sr_next_step_index := next_step_index;
     sr_next_step := steps !! Z.to_nat next_step_index;
     sr_admitted_steps := step_receipts;
     sr_completed_steps := List.filter (in_state "completed") step_receipts;
     sr_failed_steps := List.filter (in_state "failed") step_receipts;
     sr_indeterminate_steps := List.filter (in_state "indeterminate") step_receipts;
     sr_remaining_steps := u64_saturating_sub (Z.of_nat (length steps)) next_step_index;
     sr_idempotent := None |}%string.

Definition authority_status_receipt (record : TaskAuthorityIssuanceRecord)
    (ledger : option TaskAuthorityLedger) : SM Files StatusReceipt :=
  sm_lift (check_issuance record ledger) ≫= fun _ =>
  expires_at ← sm_lift (
    match parse_from_rfc3339 (en_expires_at (ir_envelope record)) with
    | Ok t => Ok t
    | Err error => Err (fmt ["Invalid issued task authority expiry: "; error])
    end);
  at_ ← now;
  mret (status_of record ledger expires_at at_).

Definition not_issued (authority_id : string) : string :=
  fmt ["Task authority '"; authority_id; "' was not issued by this broker"].

(** [task_authority_status] with an authority id. *)
Definition task_authority_status (root session_id authority_id : string)
    : SM Files StatusReceipt :=
  o ← read_issuance (issuance_path root session_id authority_id);
  record ← sm_lift (ok_or (not_issued authority_id) o);
  ledger ← read_ledger (ledger_path root session_id authority_id);
  authority_status_receipt record ledger.

(** ** Issuance *)

Definition validate_issue_request (request : TaskAuthorityIssueRequest)
    (target_id current_url : string) : res unit :=
  if is_empty (trim (rq_task_name request)) || is_empty (trim (rq_expected_target_id request))
     || is_empty (trim (rq_expected_url request))
  then Err "Task authority issue requires taskName, expectedTargetId, and expectedUrl"%string else
  if (rq_expected_target_id request != target_id) || (rq_expected_url request != current_url)
  then Err (fmt ["Task authority issue target changed: expected '";
                 rq_expected_target_id request; "' at '"; rq_expected_url request; "', got '";
                 target_id; "' at '"; current_url; "'"]) else
  if negb (one_of (is_kind (rq_issuer request)) ["operator"; "service"]%string)
     || is_empty (trim (is_id (rq_issuer request)))
     || is_empty (trim (rq_approval_reference request))
  then Err "Task authority issue requires operator or service issuer id and approvalReference"%string
  else
  if (rq_expires_in_seconds request =? 0)
     || (MAX_ISSUED_AUTHORITY_TTL_SECONDS <? rq_expires_in_seconds request)
  then Err "Task authority expiresInSeconds must be between 1 and 3600"%string else
  if match rq_steps request with [] => true | _ => false end
     || (MAX_ISSUED_AUTHORITY_STEPS <? Z.of_nat (length (rq_steps request)))
  then Err "Task authority steps must contain between 1 and 100 entries"%string else Ok tt.

(** What the loop over the plan accumulates. *)
Record PlanState := {
  pl_actions : list string;
  pl_origins : list string;
  pl_evidence_bytes : Z;
  pl_steps : list TaskAuthorityApprovedStep;
  pl_current_url : string;
}.

(** Insertion into the sorted sequence of a [BTreeSet]. *)
Fixpoint btree_insert (x : string) (l : list string) : list string :=
  match l with
  | [] => [x]
  | y :: l' => if x == y then l else if str_leb x y then x :: l else y :: btree_insert x l'
  end.

(** One iteration of the loop over the requested steps. *)
Definition plan_step (authority_id : string) (plan_ceiling : ActionConsequence)
    (st : PlanState) (step : TaskAuthorityPlanStep) : res PlanState :=
  let action := trim (ps_action step) in
  if is_empty action then Err "Task authority plan action must be non-empty"%string else
  let consequence := action_consequence action in
  if authority_rank plan_ceiling <? authority_rank consequence
  then Err (fmt ["Task authority consequenceCeiling '"; as_str plan_ceiling;
                 "' does not permit '"; action; "' ("; as_str consequence;
                 ") in an approved plan"]) else
  let actions := btree_insert action (pl_actions st) in
  requested_url ← option_traverse normalized_url (ps_url step);
  if (consequence == Navigation) && (requested_url == None)
  then Err (fmt ["Task authority navigation step '"; action; "' requires an exact url"]) else
  origins ← (match requested_url with
             | Some url => origin ← normalized_origin url; Ok (btree_insert origin (pl_origins st))
             | None => Ok (pl_origins st)
             end);
  let reservation := match ps_evidence_bytes step with
                     | Some n => n
                     | None => default_evidence_reservation action
                     end in
  if reservation =? 0 then Err "Task authority plan evidenceBytes must be positive"%string else
  evidence_bytes ← ok_or "Task authority plan evidence budget overflow"%string
                     (u64_checked_add (pl_evidence_bytes st) reservation);
  let step_index := Z.of_nat (length (pl_steps st)) in
  let approved := {| as_step_id := fmt [authority_id; ":step-"; decimal step_index];
                     as_index := step_index; as_action := action;
                     as_expected_current_url := pl_current_url st;
                     as_requested_url := requested_url; as_evidence_bytes := reservation |} in
  expected_current_url ←
    (if consequence == Navigation
     then ok_or "Task authority navigation step lost its requested URL"%string requested_url
     else Ok (pl_current_url st));
  Ok {| pl_actions := actions; pl_origins := origins; pl_evidence_bytes := evidence_bytes;
        pl_steps := pl_steps st ++ [approved]; pl_current_url := expected_current_url |}.

Fixpoint plan_steps (authority_id : string) (plan_ceiling : ActionConsequence)
    (st : PlanState) (steps : list TaskAuthorityPlanStep) : res PlanState :=
  match steps with
  | [] => Ok st
  | step :: rest =>
      st ← plan_step authority_id plan_ceiling st step;
      plan_steps authority_id plan_ceiling st rest
  end.

Definition plan_start (current_url : string) : res PlanState :=
  origin ← normalized_origin current_url;
  url ← normalized_url current_url;
  Ok {| pl_actions := []; pl_origins := [origin]; pl_evidence_bytes := 0; pl_steps := [];
        pl_current_url := url |}.

Definition seconds (n : Z) : Z := n * 1000000000.

(** The record minted from a request whose plan was accepted. *)
Definition issuance_record (request : TaskAuthorityIssueRequest)
    (session_id target_id current_url authority_id : string)
    (lineage : option TaskAuthorityLineage) (envelope_ceiling : ActionConsequence)
    (plan : PlanState) (issued_at : Z) : res TaskAuthorityIssuanceRecord :=
  plan_sha256 ← approved_plan_sha256 (pl_steps plan);
  let action_count := Z.of_nat (length (rq_steps request)) in
  let envelope := {|
    en_id := authority_id; en_task_name := rq_task_name request;
    en_service_name := rq_service_name request; en_agent_name := rq_agent_name request;
    en_allowed_origins := pl_origins plan; en_allowed_actions := pl_actions plan;
    en_plan_sha256 := Some plan_sha256; en_lineage := lineage; en_target_id := target_id;
    en_initial_url := current_url; en_max_actions := action_count;
    en_max_evidence_bytes := pl_evidence_bytes plan;
    en_consequence_ceiling := as_str envelope_ceiling;
    en_expires_at := to_rfc3339 (issued_at + seconds (rq_expires_in_seconds request)) |} in
  hash ← envelope_sha256 envelope;
  Ok {| ir_schema := v2; ir_session_id := session_id; ir_envelope := envelope;
        ir_envelope_sha256 := hash; ir_issuer := rq_issuer request;
        ir_approval_reference := rq_approval_reference request;
        ir_approved_plan := {| ap_actions := pl_actions plan; ap_origins := pl_origins plan;
                               ap_action_count := action_count;
                               ap_evidence_bytes := pl_evidence_bytes plan;
                               ap_steps := pl_steps plan; ap_plan_sha256 := Some plan_sha256 |};
        ir_issued_at := to_rfc3339 issued_at; ir_revocation := None |}.

(** [issue_task_authority_with_identity] after the request is decoded. *)
Definition issue_request (request : TaskAuthorityIssueRequest)
    (session_id target_id current_url root : string) (authority_id : option string)
    (lineage : option TaskAuthorityLineage) : SM Files StatusReceipt :=
  sm_lift (validate_issue_request request target_id current_url) ≫= fun _ =>
  ceilings ← sm_lift (requested_consequence_ceiling (rq_consequence_ceiling request));
  authority_id ← (match authority_id with
                  | Some id => mret id
                  | None => id ← uuid; mret (fmt ["authority-"; id])
                  end);
  start ← sm_lift (plan_start current_url);
  plan ← sm_lift (plan_steps authority_id ceilings.1 start (rq_steps request));
  issued_at ← now;
  record ← sm_lift (issuance_record request session_id target_id current_url authority_id lineage
                      ceilings.2 plan issued_at);
  let path := issuance_path root session_id authority_id in
  present ← exists_ path;
  if present : bool then
    o ← read_issuance path;
    existing ← sm_lift (ok_or
      "Task authority issuance disappeared during idempotency check"%string o);
    if existing == record then
      ledger ← read_ledger (ledger_path root session_id authority_id);
      receipt ← authority_status_receipt existing ledger;
      mret (set_idempotent true receipt)
    else sm_err "Generated task authority id already exists with different evidence"
  else
    write_issuance root session_id authority_id "task authority issuance" record ≫= fun _ =>
    receipt ← authority_status_receipt record None;
    mret (set_idempotent false receipt).

Definition issue_task_authority_with_identity (raw_request : value)
    (session_id target_id current_url root : string) (authority_id : option string)
    (lineage : option TaskAuthorityLineage) : SM Files StatusReceipt :=
  request ← sm_lift (decode "task authority issue request" raw_request);
  issue_request request session_id target_id current_url root authority_id lineage.

Definition issue_task_authority (raw_request : value)
    (session_id target_id current_url root : string) : SM Files StatusReceipt :=
  issue_task_authority_with_identity raw_request session_id target_id current_url root None None.

(** ** Revocation *)

Definition revoke (revocation : TaskAuthorityRevocation) (record : TaskAuthorityIssuanceRecord)
    : TaskAuthorityIssuanceRecord :=
  {| ir_schema := ir_schema record; ir_session_id := ir_session_id record;
     ir_envelope := ir_envelope record; ir_envelope_sha256 := ir_envelope_sha256 record;
     ir_issuer := ir_issuer record; ir_approval_reference := ir_approval_reference record;
     ir_approved_plan := ir_approved_plan record; ir_issued_at := ir_issued_at record;
     ir_revocation := Some revocation |}.

Definition revoke_task_authority
    (root session_id authority_id revoked_by reason target_id current_url : string)
    : SM Files StatusReceipt :=
  if is_empty (trim revoked_by) || is_empty (trim reason)
  then sm_err "Task authority revoke requires revokedBy and reason" else
  o ← read_issuance (issuance_path root session_id authority_id);
  record ← sm_lift (ok_or (not_issued authority_id) o);
  if en_target_id (ir_envelope record) != target_id
  then sm_err "Task authority revoke target no longer matches its issued target" else
  match ir_revocation record with
  | Some existing =>
      if (rv_revoked_by existing != revoked_by) || (rv_reason existing != reason)
      then sm_err "Task authority already has different revocation evidence" else
      ledger ← read_ledger (ledger_path root session_id authority_id);
      receipt ← authority_status_receipt record ledger;
      mret (set_idempotent true receipt)
  | None =>
      revoked_at ← now;
      let record := revoke {| rv_revoked_at := to_rfc3339 revoked_at;
                              rv_revoked_by := revoked_by; rv_reason := reason;
                              rv_target_url := current_url; rv_reconciliation := None |} record in
      write_issuance root session_id authority_id "task authority issuance" record ≫= fun _ =>
      ledger ← read_ledger (ledger_path root session_id authority_id);
      receipt ← authority_status_receipt record ledger;
      mret (set_idempotent false receipt)
  end.

(** ** Outcomes *)

Definition matches_step (step_id command_id : string) (receipt : TaskAuthorityStepReceipt) : bool :=
  (rc_step_id receipt == step_id) && (rc_command_id receipt == command_id).

Definition set_outcome (o : TaskAuthorityStepOutcome) (r : TaskAuthorityStepReceipt)
    : TaskAuthorityStepReceipt :=
  {| rc_step_id := rc_step_id r; rc_step_index := rc_step_index r;
     rc_command_id := rc_command_id r; rc_action := rc_action r;
     rc_target_id := rc_target_id r; rc_current_url := rc_current_url r;
     rc_requested_url := rc_requested_url r;
     rc_reserved_evidence_bytes := rc_reserved_evidence_bytes r;
     rc_admitted_at := rc_admitted_at r; rc_outcome := Some o |}.

(** [iter_mut().find(p)] followed by an update of what was found. *)
Fixpoint update_first {A} (p : A -> bool) (f : A -> A) (l : list A) : list A :=
  match l with
  | [] => []
  | a :: l' => if p a then f a :: l' else a :: update_first p f l'
  end.

Definition with_receipts (receipts : list TaskAuthorityStepReceipt) (updated_at : string)
    (l : TaskAuthorityLedger) : TaskAuthorityLedger :=
  {| lg_schema := lg_schema l; lg_authority_id := lg_authority_id l;
     lg_envelope_sha256 := lg_envelope_sha256 l; lg_session_id := lg_session_id l;
     lg_admitted_actions := lg_admitted_actions l;
     lg_reserved_evidence_bytes := lg_reserved_evidence_bytes l;
     lg_next_step_index := lg_next_step_index l; lg_step_receipts := receipts;
     lg_updated_at := updated_at |}.

Definition same_terminal_evidence (existing outcome : TaskAuthorityStepOutcome) : bool :=
  (oc_state existing == oc_state outcome) && Bool.eqb (oc_success existing) (oc_success outcome)
  && (oc_response_sha256 existing == oc_response_sha256 outcome)
  && (oc_response_bytes existing =? oc_response_bytes outcome)
  && (oc_target_id existing == oc_target_id outcome) && (oc_url existing == oc_url outcome).

(** The outcome a response classifies its step with. *)
Definition outcome_of (response : value) (context : TaskAuthorityContext) (finalized_at : Z)
    : res TaskAuthorityStepOutcome :=
  response_bytes ← ok_or "Failed to serialize task authority outcome"%string (to_vec response);
  let success := match (v ← jget response "success"; as_bool v) with
                 | Some b => b
                 | None => false
                 end in
  url ← option_traverse normalized_url (cx_url context);
  Ok {| oc_state := if success : bool then "completed" else "failed"; oc_success := success;
        oc_response_sha256 := hex_encode (sha256 response_bytes);
        oc_response_bytes := zlen response_bytes; oc_target_id := cx_target_id context;
        oc_url := url; oc_finalized_at := to_rfc3339 finalized_at |}%string.

Definition nonempty_str (cmd : value) (field error : string) : res string :=
  match get_str cmd field with
  | Some s => if is_empty s then Err error else Ok s
  | None => Err error
  end.

Definition outcome_identity (issuance : TaskAuthorityIssuanceRecord) (session_id : string)
    (authority : TaskAuthorityEnvelope) : res unit :=
  if (ir_schema issuance != v2) || (ir_session_id issuance != session_id)
     || (ir_envelope issuance != authority)
  then Err "Task authority outcome issuance identity is invalid"%string else
  hash ← envelope_sha256 authority;
  if (ir_envelope_sha256 issuance != hash)
     || match ir_revocation issuance with Some _ => true | None => false end
  then Err "Task authority outcome issuance identity is invalid"%string else Ok tt.

Definition finalize_task_authority_step (cmd : value) (context : TaskAuthorityContext)
    (response : value) : SM Files unit :=
  match jget cmd "taskAuthority" with
  | None => mret tt
  | Some raw =>
      authority ← sm_lift (decode "taskAuthority envelope" raw);
      step_id ← sm_lift (nonempty_str cmd "taskStepId"
        "Task authority outcome requires top-level taskStepId");
      command_id ← sm_lift (nonempty_str cmd "id"
        "Task authority outcome requires a top-level command id");
      let root := cx_ledger_root context in
      let session_id := cx_session_id context in
      o ← read_issuance (issuance_path root session_id (en_id authority));
      issuance ← sm_lift (ok_or (not_issued (en_id authority)) o);
      sm_lift (outcome_identity issuance session_id authority) ≫= fun _ =>
      o ← read_ledger (ledger_path root session_id (en_id authority));
      ledger ← sm_lift (ok_or "Task authority outcome has no durable admission ledger"%string o);
      sm_lift (validate_ordered_ledger ledger issuance) ≫= fun _ =>
      receipt ← sm_lift (ok_or
        (fmt ["Task authority outcome does not match admitted step '"; step_id;
              "' and command '"; command_id; "'"])
        (List.find (matches_step step_id command_id) (lg_step_receipts ledger)));
      finalized_at ← now;
      outcome ← sm_lift (outcome_of response context finalized_at);
      match rc_outcome receipt with
      | Some existing =>
          if same_terminal_evidence existing outcome then mret tt
          else sm_err (fmt ["Task authority step '"; step_id;
                            "' already has a conflicting terminal outcome"])
      | None =>
          updated_at ← now;
          write_ledger root session_id (en_id authority)
            (with_receipts
               (update_first (matches_step step_id command_id) (set_outcome outcome)
                  (lg_step_receipts ledger)) (to_rfc3339 updated_at) ledger)
      end
  end.
End task.

End TaskIssue.
