(* ===== verification/TaskAdmit.v ===== *)
(** * Admitting a command under a task authority

    [admit_task_authority] of [cli/src/native/task_authority.rs], in the order
    of its checks: envelope, labels and expiry, target and origins, issuance,
    ledger, planned step, budgets, consequence ceiling, reservation. *)

From S2P Require Import Prelude RustStr Env Policy TaskModel TaskIssue.
From Stdlib Require Import Ascii.
Import Policy.Policy TaskModel TaskIssue.

Local Open Scope Z_scope.

Module TaskAdmit.

Definition is_none {A} (o : option A) : bool := match o with None => true | Some _ => false end.

Section task.
Context `{!Host, !Json, !UrlLib, !Crypto, !Chrono, !Serde TaskAuthorityEnvelope,
          !Serde (list TaskAuthorityApprovedStep), !Serde TaskAuthorityLedger,
          !Serde TaskAuthorityIssuanceRecord, !Serde value,
          !SerdeValue TaskAuthorityEnvelope}.
(** [{:?}] of an optional string. *)
Context (debug : option string -> string).

(** ** Envelope *)

Definition check_envelope (cmd : value) (action : string) (envelope : TaskAuthorityEnvelope)
    : res unit :=
  if is_empty (trim (en_id envelope)) || is_empty (trim (en_task_name envelope))
  then Err "Task authority id and taskName must be non-empty"%string else
  if match en_allowed_origins envelope with [] => true | _ => false end
  then Err "Task authority allowedOrigins must be non-empty"%string else
  if match en_allowed_actions envelope with
     | [] => false
     | actions => negb (one_of action actions)
     end
  then Err (fmt ["Task authority '"; en_id envelope; "' does not allow action '"; action; "'"]) else
  if is_empty (trim (en_target_id envelope)) || is_empty (trim (en_initial_url envelope))
  then Err "Task authority targetBinding requires targetId and initialUrl"%string else
  if (en_max_actions envelope =? 0) || (en_max_evidence_bytes envelope =? 0)
  then Err "Task authority evidenceBudget values must be positive"%string else
  require_label cmd "taskName" (en_task_name envelope) ≫= fun _ =>
  match en_service_name envelope with
  | Some service_name => require_label cmd "serviceName" service_name
  | None => Ok tt
  end ≫= fun _ =>
  match en_agent_name envelope with
  | Some agent_name => require_label cmd "agentName" agent_name
  | None => Ok tt
  end.

Definition check_expiry (envelope : TaskAuthorityEnvelope) : SM Files unit :=
  expires_at ← sm_lift (
    match parse_from_rfc3339 (en_expires_at envelope) with
    | Ok t => Ok t
    | Err error => Err (fmt ["Invalid task authority expiresAt: "; error])
    end);
  at_ ← now;
  if expires_at <=? at_ then sm_err (fmt ["Task authority '"; en_id envelope; "' expired"])
  else mret tt.

Definition ceiling_of (envelope : TaskAuthorityEnvelope) : res ActionConsequence :=
  ok_or (fmt ["Invalid task authority consequenceCeiling '"; en_consequence_ceiling envelope; "'"])
    (parse (en_consequence_ceiling envelope)).

(** ** Target and origins: the live target's id and URL *)

Definition origin_not_allowed (origin : string) : string :=
  fmt ["Task authority origin '"; origin; "' is not allowed"].

Definition check_target (cmd : value) (envelope : TaskAuthorityEnvelope)
    (context : TaskAuthorityContext) : res (string * string) :=
  target_id ← ok_or "Task authority requires a live retained target"%string (cx_target_id context);
  if target_id != en_target_id envelope
  then Err (fmt ["Task authority target mismatch: expected '"; en_target_id envelope;
                 "', got '"; target_id; "'"]) else
  allowed_origins ← list_traverse normalized_origin (en_allowed_origins envelope);
  current_url ← ok_or "Task authority requires the retained target URL"%string (cx_url context);
  current_origin ← normalized_origin current_url;
  if negb (one_of current_origin allowed_origins) then Err (origin_not_allowed current_origin) else
  match requested_url cmd (cx_url context) with
  | Some url =>
      origin ← normalized_origin url;
      if negb (one_of origin allowed_origins) then Err (origin_not_allowed origin) else Ok tt
  | None => Ok tt
  end ≫= fun _ =>
  Ok (target_id, current_url).

(** ** Issuance *)

Definition check_issued (envelope : TaskAuthorityEnvelope) (hash : string)
    (context : TaskAuthorityContext) (issued : option TaskAuthorityIssuanceRecord) : res unit :=
  if cx_require_authority context && is_none issued then Err (not_issued (en_id envelope)) else
  match issued with
  | None => Ok tt
  | Some record =>
      if negb (one_of (ir_schema record) [v1; v2])
         || (ir_session_id record != cx_session_id context)
         || (en_id (ir_envelope record) != en_id envelope)
         || (ir_envelope_sha256 record != hash)
         || (ir_envelope record != envelope)
      then Err "Task authority broker issuance does not match the envelope"%string else
      if cx_require_authority context && (ir_schema record != v2)
      then Err (fmt ["Task authority '"; en_id envelope; "' uses legacy broker issuance; required mode accepts only ordered v2 authority"]) else
      if negb (is_none (ir_revocation record))
      then Err (fmt ["Task authority '"; en_id envelope; "' was revoked"]) else
      if ir_schema record == v2 then
        plan_sha256 ← approved_plan_sha256 (ap_steps (ir_approved_plan record));
        if match ap_steps (ir_approved_plan record) with [] => true | _ => false end
           || (ap_plan_sha256 (ir_approved_plan record) != Some plan_sha256)
           || (en_plan_sha256 envelope != Some plan_sha256)
        then Err "Task authority broker plan binding is invalid"%string else Ok tt
      else Ok tt
  end.

(** ** Ledger *)

Definition check_ledger (envelope : TaskAuthorityEnvelope) (hash current_url : string)
    (context : TaskAuthorityContext) (existing : option TaskAuthorityLedger) : res unit :=
  match existing with
  | Some ledger =>
      if lg_envelope_sha256 ledger != hash
      then Err (fmt ["Task authority '"; en_id envelope; "' changed after first use"]) else
      if (lg_session_id ledger != cx_session_id context)
         || (lg_authority_id ledger != en_id envelope)
      then Err "Task authority ledger identity mismatch"%string else Ok tt
  | None =>
      if current_url != en_initial_url envelope
      then Err (fmt ["Task authority initial URL mismatch: expected '"; en_initial_url envelope;
                     "', got '"; current_url; "'"]) else Ok tt
  end.

Definition ordered_record (issued : option TaskAuthorityIssuanceRecord)
    : option TaskAuthorityIssuanceRecord :=
  match issued with
  | Some record => if ir_schema record == v2 then Some record else None
  | None => None
  end.

(** ** The planned step a command claims *)

Definition check_step (cmd : value) (action current_url : string)
    (envelope : TaskAuthorityEnvelope) (existing : option TaskAuthorityLedger)
    (record : TaskAuthorityIssuanceRecord) : res (TaskAuthorityApprovedStep * string) :=
  supplied_step_id ← nonempty_str cmd "taskStepId"
    "Broker-issued task authority requires top-level taskStepId";
  step ← ok_or (fmt ["Task authority '"; en_id envelope; "' ordered plan is exhausted"])
    (ap_steps (ir_approved_plan record)
       !! Z.to_nat (from_ledger lg_next_step_index 0 existing));
  if supplied_step_id != as_step_id step
  then Err (fmt ["Task authority expected step '"; as_step_id step; "' at index ";
                 decimal (as_index step); ", got '"; supplied_step_id; "'"]) else
  if as_action step != action
  then Err (fmt ["Task authority step '"; as_step_id step; "' permits action '";
                 as_action step; "', not '"; action; "'"]) else
  normalized_current_url ← normalized_url current_url;
  if normalized_current_url != as_expected_current_url step
  then Err (fmt ["Task authority step '"; as_step_id step; "' expected current URL '";
                 as_expected_current_url step; "', got '"; normalized_current_url; "'"]) else
  explicit_url ← option_traverse normalized_url (explicit_requested_url cmd);
  if explicit_url != as_requested_url step
  then Err (fmt ["Task authority step '"; as_step_id step;
                 "' requested URL mismatch: expected "; debug (as_requested_url step); ", got ";
                 debug explicit_url]) else
  supplied ← ok_or "Broker-issued task authority requires positive taskEvidenceBytes"%string
    (get_u64 cmd "taskEvidenceBytes");
  if negb (supplied =? as_evidence_bytes step)
  then Err (fmt ["Task authority step '"; as_step_id step;
                 "' evidence reservation must equal "; decimal (as_evidence_bytes step);
                 " bytes"]) else
  command_id ← nonempty_str cmd "id"
    "Broker-issued task authority requires a top-level command id";
  if existsb (fun receipt => (rc_step_id receipt == as_step_id step)
                             || (rc_command_id receipt == command_id))
       (from_ledger lg_step_receipts [] existing)
  then Err (fmt ["Task authority step '"; as_step_id step; "' or command '"; command_id;
                 "' was already admitted"]) else
  Ok (step, command_id).

(** ** Budgets *)

Definition check_budget (envelope : TaskAuthorityEnvelope)
    (admitted_actions reserved_evidence_bytes reservation : Z) : res unit :=
  if reservation =? 0 then Err "taskEvidenceBytes must be positive"%string else
  if en_max_actions envelope <=? admitted_actions
  then Err (fmt ["Task authority '"; en_id envelope; "' action budget exhausted"]) else
  if u64_saturating_sub (en_max_evidence_bytes envelope) reserved_evidence_bytes <? reservation
  then Err (fmt ["Task authority '"; en_id envelope; "' evidence budget exhausted"]) else Ok tt.

(** ** The receipt and the ledger a reservation writes *)

Definition admitted_receipt (action target_id current_url admitted_at : string)
    (step : TaskAuthorityApprovedStep) (command_id : string) (reservation : Z)
    : TaskAuthorityStepReceipt :=
  {| rc_step_id := as_step_id step; rc_step_index := as_index step;
     rc_command_id := command_id; rc_action := action; rc_target_id := target_id;
     rc_current_url := current_url; rc_requested_url := as_requested_url step;
     rc_reserved_evidence_bytes := reservation; rc_admitted_at := admitted_at;
     rc_outcome := None |}.

Definition next_ledger (envelope : TaskAuthorityEnvelope) (hash : string)
    (context : TaskAuthorityContext) (ordered : bool) (admission : TaskAuthorityAdmission)
    (next_step_index : Z) (receipts : list TaskAuthorityStepReceipt) (admitted_at : string)
    : TaskAuthorityLedger :=
  {| lg_schema := if ordered then ledger_v2 else ledger_v1;
     lg_authority_id := en_id envelope; lg_envelope_sha256 := hash;
     lg_session_id := cx_session_id context;
     lg_admitted_actions := ad_admitted_actions admission;
     lg_reserved_evidence_bytes := ad_reserved_evidence_bytes admission;
     lg_next_step_index := if ordered then next_step_index + 1 else 0;
     lg_step_receipts := receipts; lg_updated_at := admitted_at |}.

Definition reserve (envelope : TaskAuthorityEnvelope) (hash action target_id current_url : string)
    (context : TaskAuthorityContext) (ordered : bool) (existing : option TaskAuthorityLedger)
    (planned : option (TaskAuthorityApprovedStep * string)) (reservation : Z)
    (admission : TaskAuthorityAdmission) : SM Files unit :=
  t ← now;
  let admitted_at := to_rfc3339 t in
  receipts ← (match planned with
              | Some (step, command_id) =>
                  url ← sm_lift (normalized_url current_url);
                  mret (from_ledger lg_step_receipts [] existing
                        ++ [admitted_receipt action target_id url admitted_at step command_id
                              reservation])
              | None => mret (from_ledger lg_step_receipts [] existing)
              end);
  write_ledger (cx_ledger_root context) (cx_session_id context) (en_id envelope)
    (next_ledger envelope hash context ordered admission
       (from_ledger lg_next_step_index 0 existing) receipts admitted_at).

(** ** Admission *)

(** The checks after the envelope was decoded, up to the consequence ceiling:
    what is admitted and what a reservation needs. *)
Definition evaluate (cmd : value) (action : string) (consequence : ActionConsequence)
    (context : TaskAuthorityContext) (envelope : TaskAuthorityEnvelope)
    : SM Files (TaskAuthorityAdmission * SM Files unit) :=
  sm_lift (check_envelope cmd action envelope) ≫= fun _ =>
  check_expiry envelope ≫= fun _ =>
  ceiling ← sm_lift (ceiling_of envelope);
  target ← sm_lift (check_target cmd envelope context);
  let '(target_id, current_url) := target in
  hash ← sm_lift (envelope_sha256 envelope);
  let root := cx_ledger_root context in
  issued ← read_issuance (issuance_path root (cx_session_id context) (en_id envelope));
  sm_lift (check_issued envelope hash context issued) ≫= fun _ =>
  existing ← read_ledger (ledger_path root (cx_session_id context) (en_id envelope));
  sm_lift (check_ledger envelope hash current_url context existing) ≫= fun _ =>
  let ordered := ordered_record issued in
  sm_lift (match ordered, existing with
           | Some record, Some ledger => validate_ordered_ledger ledger record
           | _, _ => Ok tt
           end) ≫= fun _ =>
  planned ← sm_lift (option_traverse (check_step cmd action current_url envelope existing) ordered);
  let admitted_actions := from_ledger lg_admitted_actions 0 existing in
  let reserved_evidence_bytes := from_ledger lg_reserved_evidence_bytes 0 existing in
  let reservation := match planned with
                     | Some (step, _) => as_evidence_bytes step
                     | None => evidence_reservation cmd action
                     end in
  sm_lift (check_budget envelope admitted_actions reserved_evidence_bytes reservation) ≫= fun _ =>
  let admission := {|
    ad_authority_id := en_id envelope; ad_envelope_sha256 := hash;
    ad_consequence_ceiling := ceiling; ad_consequence := consequence;
    ad_admitted_actions := admitted_actions + 1;
    ad_reserved_evidence_bytes := reserved_evidence_bytes + reservation;
    ad_expires_at := en_expires_at envelope;
    ad_step_id := (fun p => as_step_id p.1) <$> planned;
    ad_step_index := (fun p => as_index p.1) <$> planned |} in
  mret (admission,
        reserve envelope hash action target_id current_url context (negb (is_none ordered))
          existing planned reservation admission).

Definition admit_task_authority (cmd : value) (action : string) (consequence : ActionConsequence)
    (context : TaskAuthorityContext) (reserve_budget : bool) : SM Files TaskAuthorityDecision :=
  match jget cmd "taskAuthority" with
  | None =>
      if cx_require_authority context
      then sm_err "Task authority is required for this agentic browser command"
      else mret NotPresent
  | Some raw =>
      envelope ← sm_lift (decode "taskAuthority envelope" raw);
      r ← evaluate cmd action consequence context envelope;
      let '(admission, reservation) := r in
      if (authority_rank (ad_consequence_ceiling admission) <? authority_rank consequence)
         && (cx_confirmed_authority_id context != Some (en_id envelope))
      then mret (RequiresConfirmation admission) else
      (if reserve_budget then reservation else mret tt) ≫= fun _ =>
      mret (Admitted_ admission)
  end.
End task.

End TaskAdmit.
