(* ===== verification/TaskProofs.v ===== *)
(** * What task authorities guarantee

    The ordered ledger as an invariant, what an admission establishes and
    writes, what a plan contains, outcomes and revocation. *)

From S2P Require Import Prelude RustStr Env Policy TaskModel TaskIssue TaskAdmit.
From Stdlib Require Import Ascii.
Import Policy.Policy TaskModel TaskIssue TaskAdmit.

Local Open Scope Z_scope.

Module TaskProofs.

(** ** The meaning of a valid ledger *)

Section ledger.
Context `{!Json, !UrlLib, !Crypto, !Chrono, !Serde TaskAuthorityEnvelope,
          !Serde (list TaskAuthorityApprovedStep)}.

(** A receipt records the step of the plan it claims. *)
Definition receipt_of_step (record : TaskAuthorityIssuanceRecord)
    (step : TaskAuthorityApprovedStep) (receipt : TaskAuthorityStepReceipt) : Prop :=
  rc_step_id receipt = as_step_id step /\ rc_step_index receipt = as_index step /\
  rc_action receipt = as_action step /\
  rc_target_id receipt = en_target_id (ir_envelope record) /\
  rc_current_url receipt = as_expected_current_url step /\
  rc_requested_url receipt = as_requested_url step /\
  rc_reserved_evidence_bytes receipt = as_evidence_bytes step /\
  rc_command_id receipt <> ""%string.

Definition outcome_ok (receipt : TaskAuthorityStepReceipt) : Prop :=
  match rc_outcome receipt with
  | Some o => valid_outcome receipt o = Ok true
  | None => True
  end.

Fixpoint receipts_ok (record : TaskAuthorityIssuanceRecord) (index : nat)
    (command_ids : gset string) (evidence : Z) (receipts : list TaskAuthorityStepReceipt)
    (total : Z) : Prop :=
  match receipts with
  | [] => total = evidence
  | receipt :: rest =>
      exists step, ap_steps (ir_approved_plan record) !! index = Some step /\
        receipt_of_step record step receipt /\ rc_command_id receipt ∉ command_ids /\
        outcome_ok receipt /\
        evidence + rc_reserved_evidence_bytes receipt <= u64_max /\
        receipts_ok record (S index) ({[ rc_command_id receipt ]} ∪ command_ids)
          (evidence + rc_reserved_evidence_bytes receipt) rest total
  end.

Lemma validate_receipts_iff record index ids e receipts total :
  validate_receipts record index ids e receipts = Ok total <->
  receipts_ok record index ids e receipts total.
Proof.
  revert index ids e. induction receipts as [|r rs IH]; intros index ids e; cbn.
  { split; [by intros [= <-]|by intros ->]. }
  split.
  - intros Hrun. inv_ok. exists v. split; [done|].
    destruct ((rc_step_id r != as_step_id v) || _ || _ || _ || _ || _ || _ || _ || _) eqn:Hc;
      [done|]. unfold is_empty in *. inv_bool. inv_ok.
    destruct v0; [|done]. cbn [negb] in Hrun. inv_ok.
    match goal with H : u64_checked_add _ _ = Some _ |- _ =>
      apply u64_checked_add_some in H as [-> ?] end.
    split; [unfold receipt_of_step; split_and!; try done; lia|].
    split; [done|]. split; [by unfold outcome_ok; destruct (rc_outcome r)|].
    split; [done|]. by apply IH.
  - intros (step & Hs & (E1 & E2 & E3 & E4 & E5 & E6 & E7 & E8) & Hid & Ho & Hmax & Hrest).
    rewrite Hs. cbn. rewrite E1, E2, E3, E4, E5, E6, E7.
    rewrite !bool_decide_true, !Z.eqb_refl by done. unfold is_empty.
    rewrite !bool_decide_false by done. cbn.
    assert (match rc_outcome r with Some o => valid_outcome r o | None => Ok true end = Ok true)
      as Hv by (unfold outcome_ok in Ho; by destruct (rc_outcome r)).
    unfold mbind in Hv |- *. rewrite Hv. cbn.
    unfold u64_checked_add. rewrite E7 in Hmax, Hrest.
    destruct (Z.leb_spec (e + as_evidence_bytes step) u64_max); [|lia]. cbn. by apply IH.
Qed.

Lemma validate_ordered_ledger_iff ledger record :
  validate_ordered_ledger ledger record = Ok tt <->
  lg_schema ledger = ledger_v2 /\
  lg_next_step_index ledger = Z.of_nat (length (lg_step_receipts ledger)) /\
  lg_admitted_actions ledger = lg_next_step_index ledger /\
  receipts_ok record 0 ∅ 0 (lg_step_receipts ledger) (lg_reserved_evidence_bytes ledger).
Proof.
  unfold validate_ordered_ledger. split.
  - intros Hrun. destruct ((lg_schema ledger != ledger_v2) || _ || _) eqn:Hc; [done|].
    inv_bool. inv_ok. apply validate_receipts_iff in Hm.
    destruct (Z.eqb_spec (lg_reserved_evidence_bytes ledger) v) as [->|]; [|done].
    split_and!; try done; lia.
  - intros (-> & Hn & Ha & Hr). apply validate_receipts_iff in Hr.
    rewrite bool_decide_true, <-Hn, Ha, !Z.eqb_refl by done. cbn [negb orb].
    rewrite (bind_ok_eq _ _ _ Hr), Z.eqb_refl. done.
Qed.

Definition ids_after (ids : gset string) (receipts : list TaskAuthorityStepReceipt) : gset string :=
  foldl (fun ids r => {[ rc_command_id r ]} ∪ ids) ids receipts.

Lemma elem_of_ids_after c ids receipts :
  c ∈ ids_after ids receipts <-> c ∈ ids \/ c ∈ map rc_command_id receipts.
Proof.
  revert ids. induction receipts as [|r rs IH]; intros ids; cbn [ids_after foldl map].
  - set_solver.
  - rewrite elem_of_cons. unfold ids_after in IH. rewrite IH. set_solver.
Qed.

Lemma receipts_ok_app record index ids e rs rs' total :
  receipts_ok record index ids e (rs ++ rs') total <->
  exists mid, receipts_ok record index ids e rs mid /\
    receipts_ok record (index + length rs) (ids_after ids rs) mid rs' total.
Proof.
  revert index ids e. induction rs as [|r rs IH]; intros index ids e; cbn.
  - rewrite Nat.add_0_r. naive_solver.
  - setoid_rewrite IH. replace (index + S (length rs))%nat with (S index + length rs)%nat by lia.
    naive_solver.
Qed.

(** The plan position, the budget and the command ids a valid ledger accounts for. *)
Lemma receipts_ok_lookup record index ids e rs total i r :
  receipts_ok record index ids e rs total -> rs !! i = Some r ->
  exists step, ap_steps (ir_approved_plan record) !! (index + i)%nat = Some step /\
    receipt_of_step record step r /\ outcome_ok r.
Proof.
  revert index ids e i. induction rs as [|r0 rs IH]; intros index ids e i; cbn; [done|].
  intros (step & Hs & Hr & _ & Ho & _ & Hrest) Hi. destruct i as [|i]; cbn in Hi.
  - injection Hi as ->. rewrite Nat.add_0_r. eauto.
  - replace (index + S i)%nat with (S index + i)%nat by lia. by eapply IH.
Qed.

Lemma receipts_ok_sum record index ids e rs total :
  receipts_ok record index ids e rs total ->
  total = e + foldr (fun r n => rc_reserved_evidence_bytes r + n) 0 rs /\
  (e <= u64_max -> total <= u64_max) /\
  NoDup (map rc_command_id rs) /\ (forall c, c ∈ map rc_command_id rs -> c ∉ ids).
Proof.
  revert index ids e. induction rs as [|r rs IH]; intros index ids e; cbn.
  { intros ->. split_and!; [lia|lia|constructor|set_solver]. }
  intros (step & _ & _ & Hid & _ & Hmax & (-> & Hle & Hnd & Hids)%IH). split_and!.
  - lia.
  - intros _. by apply Hle.
  - constructor; [|done]. intros Hin. apply Hids in Hin. set_solver.
  - intros c [->|Hc]%elem_of_cons; [done|]. apply Hids in Hc. set_solver.
Qed.

End ledger.
(** ** What an evaluation has checked *)

Section admission.
Context `{!Host, !Json, !UrlLib, !Crypto, !Chrono, !Serde TaskAuthorityEnvelope,
          !Serde (list TaskAuthorityApprovedStep), !Serde TaskAuthorityLedger,
          !Serde TaskAuthorityIssuanceRecord, !Serde value,
          !SerdeValue TaskAuthorityEnvelope, !SerdeValue TaskAuthorityIssueRequest}.
Context (debug : option string -> string).

(** What is read is what is stored, unless the [stat] behind [exists] failed. *)
Lemma read_json_seen `{!Serde T} path label w (o : option T) w' :
  read_json path label w = (Ok o, w') ->
  stored path w = o \/ o = None /\ h_stat (t_tick w) = false.
Proof.
  intros [_ Ho]%read_json_ok. destruct o as [x|]; [by left|].
  destruct (h_stat (t_tick w)); [left|by right]. unfold stored. by rewrite Ho.
Qed.

(** Time passes. *)
Definition clock : relation Files := fun w w' => (t_tick w <= t_tick w')%nat.
#[local] Instance clock_refl : Reflexive clock.
Proof. intros w. unfold clock. lia. Qed.
#[local] Instance clock_trans : Transitive clock.
Proof. intros a b c. unfold clock. lia. Qed.
Lemma clock_sys e : preserves clock (sys e).
Proof. intros w. unfold sys, clock. case_match; cbn; lia. Qed.
Lemma clock_now : preserves clock now.
Proof. intros w. unfold clock. cbn. lia. Qed.
Lemma clock_uuid : preserves clock uuid.
Proof. intros w. unfold clock. cbn. lia. Qed.
Lemma clock_exists path : preserves clock (exists_ path).
Proof. intros w. unfold clock. cbn. lia. Qed.
Lemma clock_modify f : (forall w, t_tick (f w) = t_tick w) -> preserves clock (sm_modify f).
Proof. intros Hf w. unfold clock. cbn. by rewrite Hf. Qed.
#[local] Hint Resolve clock_sys clock_now clock_uuid clock_exists : frame.
Lemma clock_read_json `{!Serde T} path label : preserves clock (read_json (T:=T) path label).
Proof. unfold read_json, read_to_string. frame. Qed.
#[local] Hint Resolve clock_read_json : frame.
Lemma read_json_clock `{!Serde T} path label w (o : option T) w' :
  read_json path label w = (Ok o, w') -> (t_tick w < t_tick w')%nat.
Proof.
  intros Hrun. unfold read_json in Hrun. apply sm_bind_ok in Hrun as (b & w1 & Hb & Hrun).
  unfold exists_ in Hb. injection Hb as <- <-. change (clock (ticked w) w').
  unfold read_to_string in Hrun. by frame_in clock Hrun.
Qed.
Lemma clock_write `{!Serde T} directory name (v : T) label :
  preserves clock (write_private_json directory name v label).
Proof. unfold write_private_json. frame; by apply clock_modify. Qed.
Lemma clock_check_expiry envelope : preserves clock (check_expiry envelope).
Proof. unfold check_expiry. frame. Qed.
Lemma clock_read_issuance path : preserves clock (read_issuance path).
Proof. apply clock_read_json. Qed.
Lemma clock_reserve envelope hash action target_id current_url context ordered existing planned
    reservation admission :
  preserves clock (reserve envelope hash action target_id current_url context ordered existing
    planned reservation admission).
Proof. unfold reserve, write_ledger. frame; apply clock_write. Qed.
#[local] Hint Resolve clock_check_expiry clock_read_issuance : frame.

Lemma stored_same `{!Serde T} path w w' : same w w' -> stored (T:=T) path w' = stored path w.
Proof. unfold same, stored. by intros ->. Qed.
Lemma read_json_some `{!Serde T} path label w (o : option T) w' :
  read_json path label w = (Ok o, w') ->
  same w w' /\ forall x, o = Some x -> stored path w = Some x.
Proof. intros [Hs Ho]%read_json_ok. split; [done|]. by intros x ->. Qed.

Definition issuance_of (context : TaskAuthorityContext) (id : string) : string :=
  issuance_path (cx_ledger_root context) (cx_session_id context) id.
Definition ledger_of (context : TaskAuthorityContext) (id : string) : string :=
  ledger_path (cx_ledger_root context) (cx_session_id context) id.

Record Evaluation := {
  v_ceiling : ActionConsequence;
  v_target : string;
  v_url : string;
  v_hash : string;
  v_expires : Z;
  v_issued : option TaskAuthorityIssuanceRecord;
  v_existing : option TaskAuthorityLedger;
  v_planned : option (TaskAuthorityApprovedStep * string);
  (** when the ledger was looked for *)
  v_looked : nat;
}.
Definition v_reservation (cmd : value) (action : string) (v : Evaluation) : Z :=
  match v_planned v with
  | Some (step, _) => as_evidence_bytes step
  | None => evidence_reservation cmd action
  end.

Record evaluates (cmd : value) (action : string) (consequence : ActionConsequence)
    (context : TaskAuthorityContext) (envelope : TaskAuthorityEnvelope) (w : Files)
    (admission : TaskAuthorityAdmission) (write : SM Files unit) (v : Evaluation) : Prop := {
  ev_envelope : check_envelope cmd action envelope = Ok tt;
  ev_expiry : parse_from_rfc3339 (en_expires_at envelope) = Ok (v_expires v);
  ev_live : h_now (t_tick w) < v_expires v;
  ev_ceiling : parse (en_consequence_ceiling envelope) = Some (v_ceiling v);
  ev_target : check_target cmd envelope context = Ok (v_target v, v_url v);
  ev_hash : envelope_sha256 envelope = Ok (v_hash v);
  ev_looked : (t_tick w <= v_looked v)%nat;
  ev_issued_read : stat_reliable -> stored (issuance_of context (en_id envelope)) w = v_issued v;
  ev_issued_some : forall r, v_issued v = Some r ->
    stored (issuance_of context (en_id envelope)) w = Some r;
  ev_issued : check_issued envelope (v_hash v) context (v_issued v) = Ok tt;
  ev_ledger_seen : stored (ledger_of context (en_id envelope)) w = v_existing v
    \/ v_existing v = None /\ h_stat (v_looked v) = false;
  ev_ledger : check_ledger envelope (v_hash v) (v_url v) context (v_existing v) = Ok tt;
  ev_ordered : forall r l, ordered_record (v_issued v) = Some r -> v_existing v = Some l ->
    validate_ordered_ledger l r = Ok tt;
  ev_planned : option_traverse (check_step debug cmd action (v_url v) envelope (v_existing v))
    (ordered_record (v_issued v)) = Ok (v_planned v);
  ev_budget : check_budget envelope (from_ledger lg_admitted_actions 0 (v_existing v))
    (from_ledger lg_reserved_evidence_bytes 0 (v_existing v)) (v_reservation cmd action v) = Ok tt;
  ev_admission : admission = {|
    ad_authority_id := en_id envelope; ad_envelope_sha256 := v_hash v;
    ad_consequence_ceiling := v_ceiling v; ad_consequence := consequence;
    ad_admitted_actions := from_ledger lg_admitted_actions 0 (v_existing v) + 1;
    ad_reserved_evidence_bytes :=
      from_ledger lg_reserved_evidence_bytes 0 (v_existing v) + v_reservation cmd action v;
    ad_expires_at := en_expires_at envelope;
    ad_step_id := (fun p => as_step_id p.1) <$> v_planned v;
    ad_step_index := (fun p => as_index p.1) <$> v_planned v |};
  ev_write : write = reserve envelope (v_hash v) action (v_target v) (v_url v) context
    (negb (is_none (ordered_record (v_issued v)))) (v_existing v) (v_planned v)
    (v_reservation cmd action v) admission;
}.

Lemma ev_ledger_read cmd action consequence context envelope w admission write v :
  evaluates cmd action consequence context envelope w admission write v -> stat_reliable ->
  stored (ledger_of context (en_id envelope)) w = v_existing v.
Proof.
  intros Hv Hst. destruct (ev_ledger_seen _ _ _ _ _ _ _ _ _ Hv) as [|[_ Hf]]; [done|].
  by rewrite Hst in Hf.
Qed.

Lemma check_expiry_ok envelope w u w' :
  check_expiry envelope w = (Ok u, w') ->
  same w w' /\ exists t, parse_from_rfc3339 (en_expires_at envelope) = Ok t /\ h_now (t_tick w) < t.
Proof.
  intros Hrun. split.
  { assert (preserves same (check_expiry envelope)) as Hf by (unfold check_expiry; frame).
    exact (preserves_run _ _ _ _ _ Hf Hrun). }
  unfold check_expiry in Hrun. inv_ok.
  match goal with E : now _ = _ |- _ => unfold now in E; injection E as <- <- end.
  destruct (parse_from_rfc3339 _) as [t|]; [|done].
  match goal with E : Ok t = Ok _ |- _ => injection E as <- end.
  destruct (Z.leb_spec t (h_now (t_tick w))); [done|]. eauto.
Qed.

Lemma evaluate_frame cmd action consequence context envelope :
  preserves same (evaluate debug cmd action consequence context envelope).
Proof. unfold evaluate, check_expiry, read_issuance, read_ledger. frame. Qed.

Lemma evaluate_ok cmd action consequence context envelope w admission write w' :
  evaluate debug cmd action consequence context envelope w = (Ok (admission, write), w') ->
  exists v, evaluates cmd action consequence context envelope w admission write v
    /\ (v_looked v < t_tick w')%nat.
Proof.
  intros Hrun. unfold evaluate in Hrun. inv_ok.
  destruct v4 as [target url]. inv_ok.
  match goal with E : check_expiry _ _ = _ |- _ =>
    pose proof (preserves_run _ _ _ _ _ (clock_check_expiry _) E) as Hclock1 end.
  match goal with E : check_expiry _ _ = _ |- _ =>
    apply check_expiry_ok in E as (Hsame1 & expires & Hparse & Hlive) end.
  repeat match goal with x : unit |- _ => destruct x end.
  match goal with E : read_issuance _ _ = (Ok ?o, _), E' : read_ledger _ _ = (Ok ?o', _) |- _ =>
    pose proof (read_json_seen _ _ _ _ _ E) as Hi; pose proof (read_json_seen _ _ _ _ _ E') as Hl;
    pose proof (preserves_run _ _ _ _ _ (clock_read_issuance _) E) as Hclock2;
    pose proof (read_json_clock _ _ _ _ _ E') as Hclock3;
    match type of E' with _ ?wl = _ => set (looked := t_tick wl) in * end;
    apply read_json_some in E as [Hsame2 Hsome]; apply read_json_some in E' as [Hsame3 _];
    rename o into issued; rename o' into existing end.
  match goal with E : envelope_sha256 _ = Ok ?h, E' : ceiling_of _ = Ok ?c,
    E'' : option_traverse _ _ = Ok ?p |- _ =>
    exists {| v_ceiling := c; v_target := target; v_url := url; v_hash := h; v_expires := expires;
              v_issued := issued; v_existing := existing; v_planned := p;
              v_looked := looked |} end.
  split; [|done].
  split; cbn; try done.
  - by apply ok_or_ok in Hr0.
  - unfold clock in *. lia.
  - intros Hst. rewrite <-(stored_same _ _ _ Hsame1). destruct Hi as [|[_ Hf]]; [done|].
    by rewrite Hst in Hf.
  - intros r ->. rewrite <-(stored_same _ _ _ Hsame1). by apply Hsome.
  - by rewrite <-(stored_same _ _ _ Hsame1), <-(stored_same _ _ _ Hsame2).
  - intros r l Hr' ->. by rewrite Hr' in Hr4.
Qed.

(** ** The checks one by one *)

Lemma check_target_ok cmd envelope context target url :
  check_target cmd envelope context = Ok (target, url) ->
  target = en_target_id envelope /\ cx_target_id context = Some target /\
  cx_url context = Some url /\
  exists allowed origin, list_traverse normalized_origin (en_allowed_origins envelope) = Ok allowed /\
    normalized_origin url = Ok origin /\ In origin allowed /\
    forall r, requested_url cmd (cx_url context) = Some r ->
      exists o, normalized_origin r = Ok o /\ In o allowed.
Proof.
  unfold check_target. intros Hrun. guards. subst.
  split_and!; try done. eexists _, _. split_and!; [done|done|by apply one_of_In|].
  intros r Hr. rewrite Hr in Hm3. guards. eexists. split; [done|]. by apply one_of_In.
Qed.

Lemma check_issued_ok envelope hash context issued r :
  check_issued envelope hash context issued = Ok tt -> issued = Some r ->
  ir_session_id r = cx_session_id context /\ ir_envelope r = envelope /\
  ir_envelope_sha256 r = hash /\ ir_revocation r = None /\
  (cx_require_authority context = true -> ir_schema r = v2) /\
  (ir_schema r = v2 -> ap_steps (ir_approved_plan r) <> [] /\
    exists sha, approved_plan_sha256 (ap_steps (ir_approved_plan r)) = Ok sha /\
      en_plan_sha256 envelope = Some sha /\ ap_plan_sha256 (ir_approved_plan r) = Some sha).
Proof.
  intros Hrun ->. unfold check_issued in Hrun. guards. subst.
  assert (ir_revocation r = None) by (by destruct (ir_revocation r)).
  split_and!; try done.
  - intros Hreq. rewrite Hreq in *. by apply bool_decide_eq_false, negb_true_iff in Hg1 || (cbn in *; inv_bool).
  - intros Hv. rewrite bool_decide_true in Hrun by done. guards.
    split; [by destruct (ap_steps (ir_approved_plan r))|]. eauto.
Qed.

Lemma check_issued_required envelope hash context issued :
  cx_require_authority context = true -> check_issued envelope hash context issued = Ok tt ->
  exists r, issued = Some r /\ ordered_record issued = Some r.
Proof.
  intros Hreq Hrun. destruct issued as [r|].
  - exists r. split; [done|]. destruct (check_issued_ok _ _ _ _ r Hrun eq_refl) as (_ & _ & _ & _ & Hv & _).
    cbn. by rewrite bool_decide_true by auto.
  - unfold check_issued in Hrun. by rewrite Hreq in Hrun.
Qed.

Lemma nonempty_str_ok cmd field error s :
  nonempty_str cmd field error = Ok s -> get_str cmd field = Some s /\ s <> ""%string.
Proof.
  unfold nonempty_str. destruct (get_str cmd field) as [s'|]; [|done].
  intros Hrun. guards. by unfold is_empty in *; inv_bool.
Qed.

Lemma check_step_ok cmd action url envelope existing record step command_id :
  check_step debug cmd action url envelope existing record = Ok (step, command_id) ->
  ap_steps (ir_approved_plan record) !! Z.to_nat (from_ledger lg_next_step_index 0 existing)
    = Some step /\
  get_str cmd "taskStepId" = Some (as_step_id step) /\ as_action step = action /\
  normalized_url url = Ok (as_expected_current_url step) /\
  option_traverse normalized_url (explicit_requested_url cmd) = Ok (as_requested_url step) /\
  get_u64 cmd "taskEvidenceBytes" = Some (as_evidence_bytes step) /\
  get_str cmd "id" = Some command_id /\ command_id <> ""%string /\
  Forall (fun r => rc_step_id r <> as_step_id step /\ rc_command_id r <> command_id)
    (from_ledger lg_step_receipts [] existing).
Proof.
  unfold check_step. intros Hrun. guards.
  repeat match goal with E : nonempty_str _ _ _ = Ok _ |- _ => apply nonempty_str_ok in E as [? ?] end.
  match goal with E : (_ =? _) = true |- _ => apply Z.eqb_eq in E as -> end.
  split_and!; try done.
  rewrite Forall_forall. intros r Hr%list_elem_of_In.
  match goal with E : existsb ?f ?l = false |- _ =>
    assert (f r = false) as Hf by
      (apply not_true_iff_false; intros ?; apply not_true_iff_false in E; apply E, existsb_exists; eauto)
  end.
  cbn in Hf. by inv_bool.
Qed.

Lemma planned_ok cmd action url envelope existing issued planned record :
  ordered_record issued = Some record ->
  option_traverse (check_step debug cmd action url envelope existing) (ordered_record issued)
    = Ok planned ->
  exists step command_id, planned = Some (step, command_id) /\
    check_step debug cmd action url envelope existing record = Ok (step, command_id).
Proof. intros ->. cbn. intros Hrun. inv_ok. destruct v as [step command_id]. eauto. Qed.

Lemma evidence_reservation_nonneg cmd action : 0 <= evidence_reservation cmd action.
Proof.
  unfold evidence_reservation.
  assert (forall f n, get_u64 cmd f = Some n -> 0 <= n) as Hget.
  { unfold get_u64. intros f n Hf. destruct (jget cmd f); [|done]. by apply as_u64_range in Hf as []. }
  unfold or_else. repeat case_match; simplify_eq; eauto;
    unfold default_evidence_reservation; case_match; by vm_compute.
Qed.

Lemma check_budget_ok envelope admitted reserved reservation :
  check_budget envelope admitted reserved reservation = Ok tt -> 0 <= reservation ->
  0 < reservation /\ admitted + 1 <= en_max_actions envelope /\
  reserved + reservation <= en_max_evidence_bytes envelope.
Proof. unfold check_budget, u64_saturating_sub. intros Hrun Hn. guards. lia. Qed.

(** ** The write of a reservation *)

Definition durable (path : string) : Prop := temporary path = false.

Lemma ledger_durable context id : durable (ledger_of context id).
Proof. unfold durable, ledger_of. rewrite ledger_path_parts. by apply json_not_temporary. Qed.
Lemma issuance_durable context id : durable (issuance_of context id).
Proof. unfold durable, issuance_of. rewrite issuance_path_parts. by apply json_not_temporary. Qed.
Lemma issuance_not_ledger context id : issuance_of context id <> ledger_of context id.
Proof.
  unfold issuance_of, ledger_of. rewrite issuance_path_parts, ledger_path_parts. cbn.
  intros Heq%string_app_inj_r. apply string_app_inj_r with (p := "/"%string) in Heq.
  rewrite !string_app_nil_r in Heq. apply string_app_inj_r in Heq. done.
Qed.

Lemma write_ledger_run context id ledger w r w' :
  write_ledger (cx_ledger_root context) (cx_session_id context) id ledger w = (r, w') ->
  match r with
  | Ok _ => stored (ledger_of context id) w' = Some ledger /\
            same_at (fun p => durable p /\ p <> ledger_of context id) w w'
  | Err _ => same_at durable w w'
  end.
Proof.
  intros Hrun. unfold write_ledger in Hrun.
  pose proof (ledger_durable context id) as Hd. unfold durable, ledger_of in *.
  rewrite ledger_path_parts in *. by apply write_private_json_run in Hrun.
Qed.

Lemma reserve_run envelope hash action target url context ordered existing planned reservation
    admission w r w' :
  reserve envelope hash action target url context ordered existing planned reservation admission w
    = (r, w') ->
  match r with
  | Ok _ =>
      exists t receipts,
        match planned with
        | Some (step, command_id) => exists u, normalized_url url = Ok u /\
            receipts = from_ledger lg_step_receipts [] existing
              ++ [admitted_receipt action target u (to_rfc3339 t) step command_id reservation]
        | None => receipts = from_ledger lg_step_receipts [] existing
        end /\
        stored (ledger_of context (en_id envelope)) w' =
          Some (next_ledger envelope hash context ordered admission
                  (from_ledger lg_next_step_index 0 existing) receipts (to_rfc3339 t)) /\
        same_at (fun p => durable p /\ p <> ledger_of context (en_id envelope)) w w'
  | Err _ => same_at durable w w'
  end.
Proof.
  intros Hrun. unfold reserve in Hrun.
  apply sm_bind_inv in Hrun as [(t & w1 & Hnow & Hrun)|(e & [=] & _)].
  assert (same w w1) as Hs1 by (unfold now in Hnow; by simplify_eq).
  apply sm_bind_inv in Hrun as [(receipts & w2 & Hrec & Hrun)|(e & Hrec & ->)].
  - assert (w2 = w1 /\ match planned with
        | Some (step, command_id) => exists u, normalized_url url = Ok u /\
            receipts = from_ledger lg_step_receipts [] existing
              ++ [admitted_receipt action target u (to_rfc3339 t) step command_id reservation]
        | None => receipts = from_ledger lg_step_receipts [] existing
        end) as [-> Hr].
    { destruct planned as [[step command_id]|]; inv_ok; eauto. }
    apply write_ledger_run in Hrun. destruct r; [destruct Hrun as [Hst Hsame]|].
    + exists t, receipts. split_and!; [done|done|].
      etrans; [by apply same_same_at|done].
    + etrans; [by apply same_same_at|done].
  - destruct planned as [[step command_id]|]; [|by inv_ok].
    unfold sm_lift, mbind, sm_bind in Hrec. destruct (normalized_url url); [done|].
    injection Hrec as <- <-. by apply same_same_at.
Qed.
End admission.
End TaskProofs.
