(* ===== verification/TaskTheorems.v ===== *)
(** * Guarantees of admission under a task authority

    Soundness and atomicity of [admit_task_authority], the ledger a reservation
    writes, no replay, and revocation. *)

From S2P Require Import Prelude RustStr Env Policy TaskModel TaskIssue TaskAdmit TaskProofs.
Import Policy.Policy TaskModel TaskIssue TaskAdmit TaskProofs.

Local Open Scope Z_scope.

Module TaskTheorems.

Section task.
Context `{!Host, !Json, !UrlLib, !Crypto, !Chrono, !Serde TaskAuthorityEnvelope,
          !Serde (list TaskAuthorityApprovedStep), !Serde TaskAuthorityLedger,
          !Serde TaskAuthorityIssuanceRecord, !Serde value,
          !SerdeValue TaskAuthorityEnvelope, !SerdeValue TaskAuthorityIssueRequest}.
Context (debug : option string -> string).

(** The decision was taken on an envelope that passed every check. *)
Definition decided (cmd : value) (action : string) (consequence : ActionConsequence)
    (context : TaskAuthorityContext) (w : Files) (ad : TaskAuthorityAdmission)
    (envelope : TaskAuthorityEnvelope) (write : SM Files unit) (v : Evaluation) : Prop :=
  (exists raw, jget cmd "taskAuthority" = Some raw /\ from_value raw = Ok envelope) /\
  evaluates debug cmd action consequence context envelope w ad write v.

Definition within_ceiling (ad : TaskAuthorityAdmission) (consequence : ActionConsequence) : Prop :=
  authority_rank consequence <= authority_rank (ad_consequence_ceiling ad).

Lemma admit_inv cmd action consequence context reserve_budget w d w' :
  admit_task_authority debug cmd action consequence context reserve_budget w = (Ok d, w') ->
  match d with
  | NotPresent => cx_require_authority context = false /\ w' = w
  | RequiresConfirmation ad => same w w' /\
      exists envelope write v, decided cmd action consequence context w ad envelope write v /\
        ~ within_ceiling ad consequence /\ cx_confirmed_authority_id context <> Some (en_id envelope)
  | Admitted_ ad =>
      exists envelope write v w1, decided cmd action consequence context w ad envelope write v /\
        (within_ceiling ad consequence \/ cx_confirmed_authority_id context = Some (en_id envelope)) /\
        same w w1 /\ (if reserve_budget then write else mret tt) w1 = (Ok tt, w') /\
        (v_looked v < t_tick w')%nat
  end.
Proof.
  unfold admit_task_authority, within_ceiling. intros Hrun.
  destruct (jget cmd "taskAuthority") as [raw|] eqn:Hraw.
  - inv_ok. destruct v0 as [ad write]. rename v into envelope.
    assert (from_value raw = Ok envelope) as Henv.
    { match goal with E : decode _ _ = Ok _ |- _ => unfold decode in E end.
      destruct (from_value raw); by simplify_eq. }
    match goal with E : evaluate _ _ _ _ _ _ _ = _ |- _ =>
      pose proof (preserves_run _ _ _ _ _ (evaluate_frame debug _ _ _ _ _) E) as Hsame;
      apply evaluate_ok in E as (v & Hv & Hlooked) end.
    destruct (_ && _) eqn:Hc.
    + inv_ok. inv_bool. split; [done|]. exists envelope, write, v.
      split_and!; [by split; eauto|lia|done].
    + inv_ok. destruct v0. exists envelope, write, v. eexists.
      split_and!; [by split; eauto| |done|done|].
      * apply andb_false_iff in Hc as [Hc|Hc]; [left; lia|right]. by inv_bool.
      * apply (Nat.lt_le_trans _ _ _ Hlooked). destruct reserve_budget; [|by injection Hm as <-].
        rewrite (ev_write _ _ _ _ _ _ _ _ _ _ Hv) in Hm.
        exact (preserves_run clock _ _ _ _ (clock_reserve _ _ _ _ _ _ _ _ _ _ _) Hm).
  - destruct (cx_require_authority context) eqn:Hreq; inv_ok. done.
Qed.

Lemma admit_decided cmd action consequence context reserve_budget w d w' :
  admit_task_authority debug cmd action consequence context reserve_budget w = (Ok d, w') ->
  d = NotPresent /\ cx_require_authority context = false \/
  exists ad envelope write v, decided cmd action consequence context w ad envelope write v.
Proof.
  intros Hrun%admit_inv. destruct d as [|ad|ad].
  - left. naive_solver.
  - right. destruct Hrun as (? & ? & ? & ? & Hd & _). eauto.
  - right. destruct Hrun as (_ & ? & ? & ? & Hd & _). eauto.
Qed.

(** What the broker issued, still in force, and bound to the presented envelope. *)
Definition in_force (context : TaskAuthorityContext) (envelope : TaskAuthorityEnvelope)
    (at_ : Z) (record : TaskAuthorityIssuanceRecord) : Prop :=
  ir_schema record = v2 /\ ir_session_id record = cx_session_id context /\
  ir_envelope record = envelope /\ ir_revocation record = None /\
  envelope_sha256 envelope = Ok (ir_envelope_sha256 record) /\
  (exists sha, approved_plan_sha256 (ap_steps (ir_approved_plan record)) = Ok sha /\
     en_plan_sha256 envelope = Some sha) /\
  exists expires, parse_from_rfc3339 (en_expires_at envelope) = Ok expires /\ at_ < expires.

(** The command performs [step] of the plan on the live target. *)
Definition performs (cmd : value) (action : string) (context : TaskAuthorityContext)
    (envelope : TaskAuthorityEnvelope) (step : TaskAuthorityApprovedStep) (command_id : string)
    : Prop :=
  get_str cmd "taskStepId" = Some (as_step_id step) /\ as_action step = action /\
  get_str cmd "id" = Some command_id /\ command_id <> ""%string /\
  get_u64 cmd "taskEvidenceBytes" = Some (as_evidence_bytes step) /\
  cx_target_id context = Some (en_target_id envelope) /\
  option_traverse normalized_url (explicit_requested_url cmd) = Ok (as_requested_url step) /\
  exists url, cx_url context = Some url /\ normalized_url url = Ok (as_expected_current_url step).

Lemma decided_ordered cmd action consequence context w ad envelope write v :
  cx_require_authority context = true ->
  decided cmd action consequence context w ad envelope write v ->
  exists record step command_id,
    stored (issuance_of context (en_id envelope)) w = Some record /\
    v_issued v = Some record /\ ordered_record (v_issued v) = Some record /\
    in_force context envelope (h_now (t_tick w)) record /\
    v_planned v = Some (step, command_id) /\
    check_step debug cmd action (v_url v) envelope (v_existing v) record = Ok (step, command_id) /\
    performs cmd action context envelope step command_id.
Proof.
  intros Hreq [_ Hv]. pose proof (ev_issued _ _ _ _ _ _ _ _ _ _ Hv) as Hissued.
  destruct (check_issued_required _ _ _ _ Hreq Hissued) as (r & Hr & Ho).
  destruct (planned_ok _ _ _ _ _ _ _ _ _ Ho (ev_planned _ _ _ _ _ _ _ _ _ _ Hv)) as (step & command_id & Hp & Hc).
  exists r, step, command_id.
  destruct (check_issued_ok _ _ _ _ r Hissued Hr) as (? & ? & Hh & ? & Hv2 & Hplan).
  destruct (Hplan (Hv2 Hreq)) as (_ & sha & ? & ? & _).
  destruct (check_step_ok _ _ _ _ _ _ _ _ _ Hc) as (? & ? & ? & ? & ? & ? & ? & ? & _).
  destruct (check_target_ok _ _ _ _ _ (ev_target _ _ _ _ _ _ _ _ _ _ Hv)) as (-> & ? & ? & _).
  split_and!; [by apply Hv|done|done| |done|done|].
  - unfold in_force. rewrite Hh. split_and!; eauto; try apply Hv.
    exists (v_expires v). split; apply Hv.
  - unfold performs. split_and!; eauto.
Qed.

(** The ledger an admission worked on is the one that is stored; or none, where a [stat]
    failed while it ran. *)
Definition ledger_seen (context : TaskAuthorityContext) (id : string) (w w' : Files)
    (existing : option TaskAuthorityLedger) : Prop :=
  existing = stored (ledger_of context id) w \/
  existing = None /\ exists t, (t_tick w <= t < t_tick w')%nat /\ h_stat t = false.

(** C1. Where task authority is required, an admitted command is covered by a record the
    broker issued for this session: of the ordered schema, equal to the presented
    envelope and hash-bound to it and to its plan, neither revoked nor expired; the
    command is exactly the next step of that plan, on the bound target at the expected
    URL, with a command id no receipt carries; and its consequence is within the ceiling
    or confirmed for this very authority. Next and receipts are those of the stored
    ledger, unless the metadata call behind [Path::exists] failed in the course of this
    admission: then a ledger counts as absent, and the step is the first. *)
Theorem admit_sound cmd action consequence context reserve_budget w ad w' :
  cx_require_authority context = true ->
  admit_task_authority debug cmd action consequence context reserve_budget w
    = (Ok (Admitted_ ad), w') ->
  exists raw envelope record step command_id existing,
    jget cmd "taskAuthority" = Some raw /\ from_value raw = Ok envelope /\
    stored (issuance_of context (en_id envelope)) w = Some record /\
    in_force context envelope (h_now (t_tick w)) record /\
    performs cmd action context envelope step command_id /\
    ledger_seen context (en_id envelope) w w' existing /\
    ap_steps (ir_approved_plan record)
      !! length (from_ledger lg_step_receipts [] existing) = Some step /\
    Forall (fun r => rc_command_id r <> command_id) (from_ledger lg_step_receipts [] existing) /\
    parse (en_consequence_ceiling envelope) = Some (ad_consequence_ceiling ad) /\
    (within_ceiling ad consequence \/
     cx_confirmed_authority_id context = Some (en_id envelope)).
Proof.
  intros Hreq (envelope & write & v & w1 & Hd & Hc & _ & _ & Hlooked)%admit_inv.
  destruct (decided_ordered _ _ _ _ _ _ _ _ _ Hreq Hd) as
    (r & step & command_id & Hr & _ & Ho & Hf & _ & Hs & Hp).
  destruct Hd as [(raw & Hraw & Hfrom) Hv].
  exists raw, envelope, r, step, command_id, (v_existing v).
  destruct (check_step_ok _ _ _ _ _ _ _ _ _ Hs) as (Hnth & _ & _ & _ & _ & _ & _ & _ & Hfresh).
  split_and!; try done.
  - destruct (ev_ledger_seen _ _ _ _ _ _ _ _ _ _ Hv) as [Hseen|[Hnone Hstat]]; [by left|right].
    split; [done|]. exists (v_looked v). split; [|done]. split; [apply Hv|done].
  - destruct (v_existing v) as [l|] eqn:He; cbn in *; [|done].
    destruct (proj1 (validate_ordered_ledger_iff l r) (ev_ordered _ _ _ _ _ _ _ _ _ _ Hv _ _ Ho He))
      as (_ & Hn & _). by rewrite Hn, Nat2Z.id in Hnth.
  - eapply Forall_impl; [exact Hfresh|]. by intros ? [].
  - rewrite (ev_admission _ _ _ _ _ _ _ _ _ _ Hv). apply Hv.
Qed.

(** C39. A decision other than an admission with reservation, errors included,
    leaves every durable file as it was: only a temporary file of a failed write
    may remain. *)
Theorem admit_atomic cmd action consequence context reserve_budget w r w' :
  admit_task_authority debug cmd action consequence context reserve_budget w = (r, w') ->
  (forall ad, r = Ok (Admitted_ ad) -> reserve_budget = false) -> same_at durable w w'.
Proof.
  intros Hrun Hr. destruct r as [d|e].
  - apply admit_inv in Hrun. destruct d as [|ad|ad].
    + by destruct Hrun as [_ ->].
    + destruct Hrun as (? & ? & ? & w1 & _ & _ & Hs & Hw & _). rewrite (Hr ad eq_refl) in Hw.
      injection Hw as <-. by apply same_same_at.
    + by apply same_same_at, Hrun.
  - unfold admit_task_authority in Hrun.
    destruct (jget cmd "taskAuthority") as [raw|].
    2:{ destruct (cx_require_authority context); by injection Hrun as _ <-. }
    apply sm_bind_inv in Hrun as [(env & w1 & [_ ->]%sm_lift_ok & Hrun)|(? & [= _ <-] & _)]; [|done].
    apply sm_bind_inv in Hrun as [([ad write] & w1 & Hev & Hrun)|(? & Hev & _)].
    + pose proof (preserves_run _ _ _ _ _ (evaluate_frame debug _ _ _ _ _) Hev) as Hs.
      apply evaluate_ok in Hev as (v & Hv & _). etrans; [by apply same_same_at|].
      destruct (_ && _); [by injection Hrun as _ <-|].
      apply sm_bind_inv in Hrun as [(? & ? & _ & [=])|(e' & Hw & _)].
      destruct reserve_budget; [|done].
      rewrite (ev_write _ _ _ _ _ _ _ _ _ _ Hv) in Hw. by apply reserve_run in Hw.
    + by apply same_same_at, (preserves_run _ _ _ _ _ (evaluate_frame debug _ _ _ _ _) Hev).
Qed.

(** The ledger a reservation leaves: the old one and one receipt more. *)
Definition extended (w w' : Files) (context : TaskAuthorityContext) (id : string)
    (receipt : TaskAuthorityStepReceipt) (ledger : TaskAuthorityLedger) : Prop :=
  stored (ledger_of context id) w' = Some ledger /\
  lg_step_receipts ledger
    = from_ledger lg_step_receipts [] (stored (ledger_of context id) w) ++ [receipt] /\
  same_at (fun p => durable p /\ p <> ledger_of context id) w w'.

Lemma existing_ok record existing :
  (forall l, existing = Some l -> validate_ordered_ledger l record = Ok tt) ->
  from_ledger lg_next_step_index 0 existing
    = Z.of_nat (length (from_ledger lg_step_receipts [] existing)) /\
  from_ledger lg_admitted_actions 0 existing = from_ledger lg_next_step_index 0 existing /\
  receipts_ok record 0 ∅ 0 (from_ledger lg_step_receipts [] existing)
    (from_ledger lg_reserved_evidence_bytes 0 existing).
Proof.
  intros Hv. destruct existing as [l|]; cbn; [|done].
  by destruct (proj1 (validate_ordered_ledger_iff l record) (Hv l eq_refl)) as (_ & ? & ? & ?).
Qed.

Lemma next_valid record existing step receipt envelope hash context ad t :
  (forall l, existing = Some l -> validate_ordered_ledger l record = Ok tt) ->
  ap_steps (ir_approved_plan record) !! Z.to_nat (from_ledger lg_next_step_index 0 existing)
    = Some step ->
  Forall (fun r => rc_command_id r <> rc_command_id receipt)
    (from_ledger lg_step_receipts [] existing) ->
  receipt_of_step record step receipt -> rc_outcome receipt = None ->
  ad_admitted_actions ad = from_ledger lg_admitted_actions 0 existing + 1 ->
  ad_reserved_evidence_bytes ad
    = from_ledger lg_reserved_evidence_bytes 0 existing + rc_reserved_evidence_bytes receipt ->
  ad_reserved_evidence_bytes ad <= u64_max ->
  validate_ordered_ledger
    (next_ledger envelope hash context true ad (from_ledger lg_next_step_index 0 existing)
       (from_ledger lg_step_receipts [] existing ++ [receipt]) t) record = Ok tt.
Proof.
  intros (Hn & Ha & Hr)%existing_ok Hstep Hfresh Hrec Hout Had Hres Hmax.
  apply validate_ordered_ledger_iff. cbn. rewrite length_app. cbn.
  split_and!; [done|lia|lia|]. apply receipts_ok_app. eexists. split; [exact Hr|].
  cbn. exists step. rewrite Hn, Nat2Z.id in Hstep. split_and!; [done|done| | |lia|lia].
  - intros [?|Hin]%elem_of_ids_after; [set_solver|].
    apply list_elem_of_In, in_map_iff in Hin as (r & He & Hin).
    rewrite Forall_forall in Hfresh. by apply (Hfresh r); [apply list_elem_of_In|].
  - unfold outcome_ok. by rewrite Hout.
Qed.

Lemma decided_reserved cmd action consequence context w ad envelope write v w1 w' :
  stat_reliable -> cx_require_authority context = true -> u64 (en_max_evidence_bytes envelope) ->
  decided cmd action consequence context w ad envelope write v ->
  same w w1 -> write w1 = (Ok tt, w') ->
  exists record ledger receipt step command_id,
    stored (issuance_of context (en_id envelope)) w = Some record /\
    stored (issuance_of context (en_id envelope)) w' = Some record /\
    in_force context envelope (h_now (t_tick w)) record /\
    extended w w' context (en_id envelope) receipt ledger /\
    validate_ordered_ledger ledger record = Ok tt /\
    performs cmd action context envelope step command_id /\
    receipt_of_step record step receipt /\ rc_command_id receipt = command_id /\
    rc_outcome receipt = None /\
    lg_admitted_actions ledger = ad_admitted_actions ad /\
    lg_reserved_evidence_bytes ledger = ad_reserved_evidence_bytes ad.
Proof.
  intros Hst Hreq [_ Hmax] Hd Hs Hw.
  destruct (decided_ordered _ _ _ _ _ _ _ _ _ Hreq Hd) as
    (r & step & command_id & Hr & _ & Ho & Hf & Hp & Hc & Hperf).
  destruct Hd as [_ Hv]. rewrite (ev_write _ _ _ _ _ _ _ _ _ _ Hv) in Hw.
  apply reserve_run in Hw as (t & receipts & Hrec & Hstored & Hsame).
  rewrite Hp in Hrec. destruct Hrec as (u & Hu & ->). rewrite Ho in Hstored. cbn [is_none negb] in Hstored.
  set (receipt := admitted_receipt _ _ _ _ _ _ _) in Hstored.
  destruct (check_step_ok _ _ _ _ _ _ _ _ _ Hc) as (Hnth & _ & Hact & Hurl & _ & Hbytes & _ & Hne & Hfresh).
  destruct (check_target_ok _ _ _ _ _ (ev_target _ _ _ _ _ _ _ _ _ _ Hv)) as (Htgt & _).
  assert (v_reservation cmd action v = as_evidence_bytes step) as Hresv
    by (unfold v_reservation; by rewrite Hp).
  assert (receipt_of_step r step receipt) as Hro.
  { unfold receipt_of_step. subst receipt. cbn. rewrite Hresv. destruct Hf as (_ & _ & -> & _).
    split_and!; try done. congruence. }
  pose proof (ev_admission _ _ _ _ _ _ _ _ _ _ Hv) as Had.
  pose proof (ev_budget _ _ _ _ _ _ _ _ _ _ Hv) as (Hpos & Hacts & Hev)%check_budget_ok.
  2:{ rewrite Hresv. unfold get_u64 in Hbytes. destruct (jget cmd "taskEvidenceBytes"); [|done].
      by apply as_u64_range in Hbytes as []. }
  exists r. eexists. exists receipt, step, command_id.
  assert (same_at (fun p => durable p /\ p <> ledger_of context (en_id envelope)) w w') as Hww
    by (etrans; [by apply same_same_at|done]).
  split_and!; [done| |done| | |done|done|done|done| |].
  - unfold stored in Hr |- *. rewrite (Hww (issuance_of context (en_id envelope))); [done|].
    split; [apply issuance_durable|apply issuance_not_ledger].
  - split_and!; [exact Hstored| |done].
    by rewrite (ev_ledger_read _ _ _ _ _ _ _ _ _ _ Hv Hst).
  - apply (next_valid r (v_existing v) step receipt); try done.
    + intros l Hl. by apply (ev_ordered _ _ _ _ _ _ _ _ _ _ Hv).
    + eapply Forall_impl; [exact Hfresh|]. by intros ? [].
    + by rewrite Had.
    + by rewrite Had.
    + rewrite Had. cbn. lia.
  - done.
  - done.
Qed.

(** An admission that reserves its budget, where authority is required,
    writes a ledger that is valid for the issued plan and consists of the old
    receipts and exactly one new receipt, for the step and command admitted; its
    counters are the admission's, within both budgets of the envelope. No other
    durable file changes. *)
Theorem admit_reserves cmd action consequence context w ad w' raw envelope :
  stat_reliable -> cx_require_authority context = true ->
  jget cmd "taskAuthority" = Some raw -> from_value raw = Ok envelope ->
  u64 (en_max_evidence_bytes envelope) ->
  admit_task_authority debug cmd action consequence context true w = (Ok (Admitted_ ad), w') ->
  exists record ledger receipt step,
    stored (issuance_of context (en_id envelope)) w = Some record /\
    extended w w' context (en_id envelope) receipt ledger /\
    validate_ordered_ledger ledger record = Ok tt /\
    receipt_of_step record step receipt /\ get_str cmd "id" = Some (rc_command_id receipt) /\
    rc_action receipt = action /\ rc_outcome receipt = None /\
    lg_admitted_actions ledger = ad_admitted_actions ad /\
    lg_reserved_evidence_bytes ledger = ad_reserved_evidence_bytes ad /\
    ad_admitted_actions ad <= en_max_actions envelope /\
    ad_reserved_evidence_bytes ad <= en_max_evidence_bytes envelope.
Proof.
  intros Hst Hreq Hraw Henv Hmax (env & write & v & w1 & Hd & _ & Hs & Hw & _)%admit_inv.
  assert (env = envelope) as ->.
  { destruct Hd as [(raw' & Hraw' & Henv') _]. rewrite Hraw in Hraw'. congruence. }
  pose proof Hd as [_ Hv].
  destruct (decided_reserved _ _ _ _ _ _ _ _ _ _ _ Hst Hreq Hmax Hd Hs Hw) as
    (r & l & receipt & step & command_id & Hr & _ & _ & Hext & Hval & Hperf & Hro & <- & Ho & Ha & He).
  exists r, l, receipt, step.
  pose proof (ev_budget _ _ _ _ _ _ _ _ _ _ Hv) as Hb.
  assert (0 <= v_reservation cmd action v) as Hn.
  { destruct (decided_ordered _ _ _ _ _ _ _ _ _ Hreq Hd) as
      (? & st & ? & _ & _ & _ & _ & Hp & _ & (_ & _ & _ & _ & Hbytes & _)).
    unfold v_reservation. rewrite Hp. unfold get_u64 in Hbytes.
    destruct (jget cmd "taskEvidenceBytes"); [|done]. by apply as_u64_range in Hbytes as []. }
  apply check_budget_ok in Hb as (_ & Hb1 & Hb2); [|done].
  destruct Hperf as (_ & Hact & Hid & _). destruct Hro as (? & ? & Hra & Hro).
  rewrite (ev_admission _ _ _ _ _ _ _ _ _ _ Hv) in Ha, He |- *.
  split_and!; try done. congruence.
Qed.

(** A command admitted with reservation is never admitted again under its
    authority, whatever the action, consequence and confirmation presented: it is
    refused on the ledger the reservation left and on every ledger that extends
    its sequence of command ids. *)
Theorem command_never_replayed cmd action consequence context w ad w' raw envelope
    action' consequence' context' reserve' w1 ledger ledger1 d w2 :
  stat_reliable -> cx_require_authority context = true -> cx_require_authority context' = true ->
  jget cmd "taskAuthority" = Some raw -> from_value raw = Ok envelope ->
  u64 (en_max_evidence_bytes envelope) ->
  admit_task_authority debug cmd action consequence context true w = (Ok (Admitted_ ad), w') ->
  stored (ledger_of context (en_id envelope)) w' = Some ledger ->
  stored (ledger_of context' (en_id envelope)) w1 = Some ledger1 ->
  map rc_command_id (lg_step_receipts ledger)
    `prefix_of` map rc_command_id (lg_step_receipts ledger1) ->
  admit_task_authority debug cmd action' consequence' context' reserve' w1 <> (Ok d, w2).
Proof.
  intros Hst Hreq Hreq' Hraw Henv Hmax (env & write & v & w1' & Hd & _ & Hs & Hw & _)%admit_inv Hl Hl1 Hpre Hrun.
  assert (forall env', (exists raw, jget cmd "taskAuthority" = Some raw /\ from_value raw = Ok env') ->
    env' = envelope) as Huniq.
  { intros env' (raw' & Hraw' & Henv'). rewrite Hraw in Hraw'. congruence. }
  rewrite (Huniq env (proj1 Hd)) in Hd.
  destruct (decided_reserved _ _ _ _ _ _ _ _ _ _ _ Hst Hreq Hmax Hd Hs Hw) as
    (r & l & receipt & step & command_id & _ & _ & _ & (Hext & Hrecs & _) & _ & Hperf & _ & Hid & _).
  rewrite Hl in Hext. injection Hext as <-.
  apply admit_decided in Hrun as [[_ Hf]|(ad' & env' & write' & v' & Hd')]; [congruence|].
  rewrite (Huniq env' (proj1 Hd')) in Hd'.
  destruct (decided_ordered _ _ _ _ _ _ _ _ _ Hreq' Hd') as
    (r' & step' & command_id' & _ & _ & _ & _ & _ & Hc & Hperf').
  pose proof Hd' as [_ Hv'].
  destruct (check_step_ok _ _ _ _ _ _ _ _ _ Hc) as (_ & _ & _ & _ & _ & _ & _ & _ & Hfresh).
  rewrite <-(ev_ledger_read _ _ _ _ _ _ _ _ _ _ Hv' Hst), Hl1 in Hfresh.
  cbn in Hfresh. destruct Hpre as [rest Hpre]. rewrite Hrecs, map_app in Hpre. cbn in Hpre.
  assert (rc_command_id receipt ∈ map rc_command_id (lg_step_receipts ledger1)) as Hin
    by (rewrite Hpre; set_solver).
  apply list_elem_of_In, in_map_iff in Hin as (r0 & He & Hin).
  rewrite Forall_forall in Hfresh. destruct (Hfresh r0) as [_ Hne]; [by apply list_elem_of_In|].
  apply Hne. destruct Hperf as (_ & _ & Hi & _), Hperf' as (_ & _ & Hi' & _). congruence.
Qed.

(** ** Revocation *)

Lemma status_frame record ledger : preserves same (authority_status_receipt record ledger).
Proof. unfold authority_status_receipt. frame. Qed.

Lemma write_issuance_run context id label record w r w' :
  write_issuance (cx_ledger_root context) (cx_session_id context) id label record w = (r, w') ->
  match r with
  | Ok _ => stored (issuance_of context id) w' = Some record /\
            same_at (fun p => durable p /\ p <> issuance_of context id) w w'
  | Err _ => same_at durable w w'
  end.
Proof.
  intros Hrun. unfold write_issuance in Hrun.
  pose proof (issuance_durable context id) as Hd. unfold durable, issuance_of in *.
  rewrite issuance_path_parts in *. by apply write_private_json_run in Hrun.
Qed.

Lemma revoke_run context id by_ reason target url w receipt w' :
  revoke_task_authority (cx_ledger_root context) (cx_session_id context) id by_ reason target url w
    = (Ok receipt, w') ->
  exists record revocation,
    stored (issuance_of context id) w' = Some record /\ ir_revocation record = Some revocation /\
    en_target_id (ir_envelope record) = target /\
    rv_revoked_by revocation = by_ /\ rv_reason revocation = reason /\
    same_at (fun p => durable p /\ p <> issuance_of context id) w w' /\
    (sr_idempotent receipt = Some true -> same w w').
Proof.
  unfold revoke_task_authority. intros Hrun. guards.
  match goal with E : read_issuance _ _ = _ |- _ =>
    apply read_json_some in E as [Hs1 Hread]; specialize (Hread _ eq_refl) end.
  rename v0 into record.
  destruct (ir_revocation record) as [existing|] eqn:Hrv.
  - guards. subst. match goal with E : read_ledger _ _ = _, E' : authority_status_receipt _ _ _ = _ |- _ =>
      apply read_json_some in E as [Hs2 _]; apply (preserves_run _ _ _ _ _ (status_frame _ _)) in E'
    end.
    assert (same w w') as Hs by (etrans; [done|]; by etrans).
    exists record, existing. split_and!; try done; [|by apply same_same_at].
    by rewrite (stored_same _ _ _ Hs).
  - inv_ok. match goal with E : now _ = _ |- _ =>
      apply (preserves_run _ _ _ _ _ same_now) in E end.
    match goal with E : write_issuance _ _ _ _ _ _ = (_, ?wi) |- _ =>
      apply write_issuance_run in E as [Hst Hw]; rename wi into written end.
    match goal with E : read_ledger _ _ = _, E' : authority_status_receipt _ _ _ = _ |- _ =>
      apply read_json_some in E as [Hs2 _]; apply (preserves_run _ _ _ _ _ (status_frame _ _)) in E'
    end.
    assert (same written w') as Hs3 by (by etrans).
    eexists _, _. rewrite (stored_same (issuance_of context id) _ _ Hs3).
    split_and!; [exact Hst|done|done|done|done| |done].
    etrans; [apply same_same_at; by etrans|]. etrans; [exact Hw|]. by apply same_same_at.
Qed.

(** Once revoked, an authority decides nothing in its session, in required
    and in optional mode: every later command that presents it fails. *)
Theorem revoked_refused context id by_ reason target url w receipt w'
    cmd action consequence reserve_budget raw envelope w1 d w2 :
  stat_reliable ->
  revoke_task_authority (cx_ledger_root context) (cx_session_id context) id by_ reason target url w
    = (Ok receipt, w') ->
  same_at (fun p => p = issuance_of context id) w' w1 ->
  jget cmd "taskAuthority" = Some raw -> from_value raw = Ok envelope -> en_id envelope = id ->
  admit_task_authority debug cmd action consequence context reserve_budget w1 <> (Ok d, w2).
Proof.
  intros Hst (record & revocation & Hrec & Hrv & _)%revoke_run Hsame Hraw Henv <- Hrun.
  assert (exists ad env write v, decided cmd action consequence context w1 ad env write v) as
    (ad & env & write & v & Hd).
  { pose proof Hrun as [[-> _]|Hd]%admit_decided; [|done].
    unfold admit_task_authority in Hrun. rewrite Hraw in Hrun. inv_ok. destruct v0.
    by case_match; inv_ok. }
  destruct Hd as [(raw' & Hraw' & Henv') Hv].
  assert (env = envelope) as -> by (rewrite Hraw in Hraw'; congruence).
  pose proof (ev_issued_read _ _ _ _ _ _ _ _ _ _ Hv Hst) as Hissued.
  unfold stored in Hrec, Hissued. rewrite (Hsame _ eq_refl), Hrec in Hissued.
  destruct (check_issued_ok _ _ _ _ record (ev_issued _ _ _ _ _ _ _ _ _ _ Hv)) as
    (_ & _ & _ & Hno & _); [done|]. congruence.
Qed.

(** Revocation evidence is written once: a revocation after a successful one
    that succeeds carries the same actor and reason and changes no file. *)
Theorem revocation_immutable context id by_ reason target url w receipt w'
    by_' reason' target' url' receipt' w1 w2 :
  revoke_task_authority (cx_ledger_root context) (cx_session_id context) id by_ reason target url w
    = (Ok receipt, w') ->
  same_at (fun p => p = issuance_of context id) w' w1 ->
  revoke_task_authority (cx_ledger_root context) (cx_session_id context) id by_' reason' target' url'
    w1 = (Ok receipt', w2) ->
  by_' = by_ /\ reason' = reason /\ target' = target /\ same w1 w2 /\
  sr_idempotent receipt' = Some true.
Proof.
  intros (record & revocation & Hrec & Hrv & Htgt & Hby & Hreason & _)%revoke_run Hsame Hrun.
  unfold revoke_task_authority in Hrun. guards.
  match goal with E : read_issuance _ _ = _ |- _ =>
    apply read_json_some in E as [Hs1 Hread]; specialize (Hread _ eq_refl) end.
  unfold stored, issuance_of in *. rewrite (Hsame _ eq_refl), Hrec in Hread. injection Hread as <-.
  rewrite Hrv in Hrun. guards. subst.
  match goal with E : read_ledger _ _ = _, E' : authority_status_receipt _ _ _ = _ |- _ =>
    apply read_json_some in E as [Hs2 _]; apply (preserves_run _ _ _ _ _ (status_frame _ _)) in E'
  end.
  split_and!; try done. etrans; [done|]. by etrans.
Qed.


End task.
End TaskTheorems.
