(* ===== verification/TaskPlan.v ===== *)
(** * What an issued plan contains

    The loop of [issue_task_authority_with_identity] over the requested steps,
    and the record it mints. *)

From S2P Require Import Prelude RustStr Env Policy TaskModel TaskIssue TaskAdmit TaskProofs.
From S2P Require Import TaskTheorems.
Import Policy.Policy TaskModel TaskIssue TaskProofs TaskTheorems.
Local Open Scope Z_scope.

Module TaskPlan.

Section plan.
Context `{!Host, !Json, !UrlLib, !Crypto, !Chrono, !Serde TaskAuthorityEnvelope,
          !Serde (list TaskAuthorityApprovedStep), !Serde TaskAuthorityLedger,
          !Serde TaskAuthorityIssuanceRecord, !Serde value,
          !SerdeValue TaskAuthorityEnvelope, !SerdeValue TaskAuthorityIssueRequest}.

(** The approved step [s] at position [i] of the plan of [id], and the requested step it
    stands for. *)
Definition approved (id : string) (ceiling : ActionConsequence) (i : nat)
    (step : TaskAuthorityPlanStep) (s : TaskAuthorityApprovedStep) : Prop :=
  as_index s = Z.of_nat i /\ as_step_id s = fmt [id; ":step-"; decimal (Z.of_nat i)] /\
  as_action s = trim (ps_action step) /\ as_action s <> ""%string /\
  option_traverse normalized_url (ps_url step) = Ok (as_requested_url s) /\
  as_evidence_bytes s = match ps_evidence_bytes step with
                        | Some n => n
                        | None => default_evidence_reservation (as_action s)
                        end /\
  authority_rank (action_consequence (as_action s)) <= authority_rank ceiling /\
  0 < as_evidence_bytes s.

(** What a request may ask of its plan and gets in its envelope: without a ceiling,
    navigation and reading; with one, that one, which script execution bounds. *)
Definition ceilings_of (requested : option string) (plan envelope : ActionConsequence) : Prop :=
  match requested with
  | None => plan = Navigation /\ envelope = ReadOnly
  | Some text => parse text = Some plan /\ envelope = plan
      /\ authority_rank plan <= authority_rank ScriptExecution
  end.

(** The origins of a plan: the one it starts at and those of the URLs it requests. *)
Definition origin_of (url : string) (steps : list TaskAuthorityApprovedStep) (x : string) : Prop :=
  normalized_origin url = Ok x
  \/ exists s requested, s ∈ steps /\ as_requested_url s = Some requested
       /\ normalized_origin requested = Ok x.

(** Every step expects the page its predecessors lead to: a navigation step
    leads to its requested URL, any other stays. *)
Fixpoint chained (url : string) (steps : list TaskAuthorityApprovedStep) (final : string) : Prop :=
  match steps with
  | [] => url = final
  | s :: rest => as_expected_current_url s = url /\
      (if action_consequence (as_action s) == Navigation
       then exists next, as_requested_url s = Some next /\ chained next rest final
       else chained url rest final)
  end.

Definition total_evidence (steps : list TaskAuthorityApprovedStep) : Z :=
  foldr (fun s n => as_evidence_bytes s + n) 0 steps.

(** The loop over the steps, after those of [steps]. *)
Record plan_inv (id : string) (ceiling : ActionConsequence) (url start : string)
    (steps : list TaskAuthorityPlanStep) (st : PlanState) : Prop := {
  pi_len : length (pl_steps st) = length steps;
  pi_steps : forall i step s, steps !! i = Some step -> pl_steps st !! i = Some s ->
    approved id ceiling i step s;
  pi_actions : forall x, In x (pl_actions st) <-> exists s, s ∈ pl_steps st /\ as_action s = x;
  pi_origins : forall x, In x (pl_origins st) <-> origin_of url (pl_steps st) x;
  pi_chain : chained start (pl_steps st) (pl_current_url st);
  pi_evidence : pl_evidence_bytes st = total_evidence (pl_steps st);
  pi_bound : pl_evidence_bytes st <= u64_max;
}.

Lemma chained_snoc url steps final s :
  chained url (steps ++ [s]) final <->
  exists mid, chained url steps mid /\ chained mid [s] final.
Proof.
  revert url. induction steps as [|s0 steps IH]; intros url; cbn [app chained].
  - naive_solver.
  - destruct (action_consequence (as_action s0) == Navigation); setoid_rewrite IH; naive_solver.
Qed.
Lemma total_evidence_snoc steps s :
  total_evidence (steps ++ [s]) = total_evidence steps + as_evidence_bytes s.
Proof. unfold total_evidence. induction steps as [|s0 steps IH]; cbn; [lia|]. rewrite IH. lia. Qed.

Lemma btree_insert_In x y l : In y (btree_insert x l) <-> y = x \/ In y l.
Proof.
  induction l as [|z l IH]; cbn; [naive_solver|].
  destruct (bool_decide_reflect (x = z)) as [->|]; [cbn; naive_solver|].
  destruct (str_leb x z); cbn; [naive_solver|]. rewrite IH. naive_solver.
Qed.

Definition typed_step (s : TaskAuthorityPlanStep) : Prop :=
  forall n, ps_evidence_bytes s = Some n -> u64 n.

Lemma origin_of_snoc url steps s x :
  origin_of url (steps ++ [s]) x <-> origin_of url steps x
    \/ exists requested, as_requested_url s = Some requested /\ normalized_origin requested = Ok x.
Proof. unfold origin_of. setoid_rewrite elem_of_app. setoid_rewrite list_elem_of_singleton. naive_solver. Qed.

(** A reservation is never negative, and the code refuses zero. *)
Lemma reservation_nonneg step action : typed_step step ->
  0 <= match ps_evidence_bytes step with
       | Some n => n
       | None => default_evidence_reservation action
       end.
Proof.
  intros Ht. destruct (ps_evidence_bytes step) as [m|] eqn:Hreq; [by apply Ht in Hreq as []|].
  unfold default_evidence_reservation, LARGE_EVIDENCE_RESERVATION_BYTES,
    DEFAULT_EVIDENCE_RESERVATION_BYTES. destruct (one_of _ _); lia.
Qed.

(** The origins after one more step. *)
Lemma step_origins url st requested origins x :
  match requested with
  | Some url => origin ← normalized_origin url; Ok (btree_insert origin (pl_origins st))
  | None => Ok (pl_origins st)
  end = Ok origins ->
  (forall y, In y (pl_origins st) <-> origin_of url (pl_steps st) y) ->
  In x origins <-> origin_of url (pl_steps st) x
    \/ exists r, requested = Some r /\ normalized_origin r = Ok x.
Proof.
  intros Hrun Ho. destruct requested as [r|]; inv_ok; [rewrite btree_insert_In|]; rewrite Ho.
  - split; [intros [->|?]; eauto|]. intros [?|(r' & [= <-] & Hr)]; [by right|left; congruence].
  - split; [by left|]. by intros [?|(? & ? & _)].
Qed.

Lemma plan_step_inv id ceiling url start steps st step st' :
  typed_step step -> plan_inv id ceiling url start steps st ->
  plan_step id ceiling st step = Ok st' -> plan_inv id ceiling url start (steps ++ [step]) st'.
Proof.
  intros Ht [Hl Hs Ha Ho Hc He Hb] Hrun. unfold plan_step in Hrun. guards.
  match goal with E : u64_checked_add _ _ = Some _ |- _ =>
    apply u64_checked_add_some in E as [-> Hmax] end.
  set (n := match ps_evidence_bytes step with Some n => n | None => _ end) in *.
  assert (0 < n) as Hn.
  { assert (0 <= n); [by apply reservation_nonneg|lia]. }
  split; cbn [pl_steps pl_actions pl_origins pl_current_url pl_evidence_bytes].
  - rewrite !length_app, Hl. done.
  - intros i step' s [[Hlt Hi]|[Hi0 Hi]]%lookup_snoc_Some [[Hlt' Hi']|[-> Hi']]%lookup_snoc_Some;
      [by eapply Hs|lia|lia|].
    subst step' s. split_and!; cbn [as_index as_step_id as_action as_requested_url as_evidence_bytes];
      try done.
    + intros Hempty. by rewrite Hempty in Hg.
    + match goal with E : (_ <? _) = false |- _ => apply Z.ltb_ge in E; exact E end.
  - intros x. rewrite btree_insert_In, Ha. setoid_rewrite elem_of_app.
    setoid_rewrite list_elem_of_singleton. naive_solver.
  - intros x. rewrite origin_of_snoc. cbn [as_requested_url].
    match goal with E : _ = Ok v0 |- _ => exact (step_origins _ _ _ _ _ E Ho) end.
  - apply chained_snoc. exists (pl_current_url st). split; [done|].
    cbn. split; [done|].
    match goal with E : (if ?b then _ else _) = Ok _ |- _ => destruct b end; inv_ok; eauto.
  - rewrite total_evidence_snoc. cbn. lia.
  - done.
Qed.

Lemma plan_steps_inv id ceiling url start steps0 st steps st' :
  Forall typed_step steps -> plan_inv id ceiling url start steps0 st ->
  plan_steps id ceiling st steps = Ok st' -> plan_inv id ceiling url start (steps0 ++ steps) st'.
Proof.
  revert steps0 st. induction steps as [|s steps IH]; intros steps0 st Ht Hinv Hrun; cbn in Hrun.
  - inv_ok. by rewrite app_nil_r.
  - inv_ok. inversion Ht; subst. match goal with E : plan_step _ _ _ _ = Ok _ |- _ =>
      apply (plan_step_inv _ _ url start steps0) in E; [|done|done] end.
    rewrite cons_middle, app_assoc. by eapply IH.
Qed.

Lemma plan_start_inv id ceiling url st :
  plan_start url = Ok st ->
  exists start, normalized_url url = Ok start /\ plan_inv id ceiling url start [] st.
Proof.
  unfold plan_start. intros Hrun. inv_ok. eexists. split; [done|].
  split; cbn; try done.
  - intros x. split; [done|]. by intros (? & ?%elem_of_nil & _).
  - intros x. unfold origin_of. setoid_rewrite elem_of_nil. rewrite Hm. split.
    + intros [->|[]]. by left.
    + intros [[= ->]|(? & ? & [] & _)]. by left.
Qed.

Lemma ceilings_sound requested ceilings :
  requested_consequence_ceiling requested = Ok ceilings ->
  ceilings_of requested ceilings.1 ceilings.2.
Proof.
  unfold requested_consequence_ceiling, ceilings_of. destruct requested; intros Hrun; guards;
    cbn [fst snd]; [split_and!; [done..|lia]|done].
Qed.

(** The plan of a record: what the request asked for, within the ceiling. *)
Definition plan_ok (request : TaskAuthorityIssueRequest) (url : string)
    (ceiling : ActionConsequence) (record : TaskAuthorityIssuanceRecord) : Prop :=
  let steps := ap_steps (ir_approved_plan record) in
  let envelope := ir_envelope record in
  length steps = length (rq_steps request) /\
  (forall i step s, rq_steps request !! i = Some step -> steps !! i = Some s ->
     approved (en_id envelope) ceiling i step s) /\
  en_max_actions envelope = Z.of_nat (length steps) /\
  1 <= en_max_actions envelope <= MAX_ISSUED_AUTHORITY_STEPS /\
  (forall x, In x (en_allowed_actions envelope) <-> exists s, s ∈ steps /\ as_action s = x) /\
  (forall x, In x (en_allowed_origins envelope) <-> origin_of url steps x) /\
  (exists start final, normalized_url url = Ok start /\ chained start steps final) /\
  en_max_evidence_bytes envelope = total_evidence steps /\ 0 < total_evidence steps <= u64_max.

Lemma total_evidence_pos id ceiling requested steps :
  steps <> [] -> length steps = length requested ->
  (forall i step s, requested !! i = Some step -> steps !! i = Some s ->
     approved id ceiling i step s) ->
  0 < total_evidence steps.
Proof.
  intros Hne Hlen Hs.
  assert (Forall (fun s => 0 < as_evidence_bytes s) steps) as Hpos.
  { apply Forall_lookup. intros i s Hi.
    destruct (lookup_lt_is_Some_2 requested i) as [step Hstep];
      [rewrite <-Hlen; by eapply lookup_lt_Some|].
    by destruct (Hs _ _ _ Hstep Hi) as (_ & _ & _ & _ & _ & _ & _ & ?). }
  destruct steps as [|s steps]; [done|]. inversion Hpos as [|? ? Hs0 Hrest]; subst. cbn.
  assert (0 <= total_evidence steps); [|unfold total_evidence in *; lia].
  clear -Hrest. induction Hrest; cbn; [done|]. unfold total_evidence in *. lia.
Qed.

Definition session_context (root session_id : string) : TaskAuthorityContext :=
  {| cx_session_id := session_id; cx_target_id := None; cx_url := None;
     cx_confirmed_authority_id := None; cx_require_authority := true; cx_ledger_root := root |}.

Lemma receipt_status_ok record ledger w receipt w' :
  authority_status_receipt record ledger w = (Ok receipt, w') ->
  check_issuance record ledger = Ok tt /\
  exists expires, parse_from_rfc3339 (en_expires_at (ir_envelope record)) = Ok expires /\
    receipt = status_of record ledger expires (h_now (t_tick w)).
Proof.
  unfold authority_status_receipt, now. intros Hrun. inv_ok. destruct v.
  destruct (parse_from_rfc3339 _) as [t|]; [|done]. simplify_eq/=. eauto.
Qed.

(** The record is stored when an issuance succeeds, idempotent or not. *)
Lemma issue_stored request session_id target url root aid lineage w receipt w' :
  issue_request request session_id target url root aid lineage w = (Ok receipt, w') ->
  exists id record start plan ceilings t,
    validate_issue_request request target url = Ok tt /\
    requested_consequence_ceiling (rq_consequence_ceiling request) = Ok ceilings /\
    plan_start url = Ok start /\
    plan_steps id ceilings.1 start (rq_steps request) = Ok plan /\
    issuance_record request session_id target url id lineage ceilings.2
      plan t = Ok record /\
    stored (issuance_path root session_id id) w' = Some record /\
    en_id (ir_envelope record) = id /\
    sr_envelope receipt = ir_envelope record /\
    (sr_idempotent receipt = Some true -> same w w') /\
    (forall a, aid = Some a -> id = a).
Proof.
  unfold issue_request. intros Hrun. inv_ok.
  assert (forall a, aid = Some a -> v3 = a) as Haid by (by intros a ->; inv_ok).
  match goal with E : now _ = _ |- _ => apply (preserves_run _ _ _ _ _ same_now) in E as Hs1 end.
  assert (same w w2) as Hs0.
  { match goal with E : _ w = (Ok v3, w2) |- _ => destruct aid; [by inv_ok|] end. inv_ok.
    match goal with E : uuid _ = _ |- _ => by apply (preserves_run _ _ _ _ _ same_uuid) in E end. }
  assert (en_id (ir_envelope v7) = v3) as Hid.
  { match goal with E : issuance_record _ _ _ _ _ _ _ _ _ = _ |- _ =>
      unfold issuance_record in E end. by inv_ok. }
  match goal with E : exists_ _ _ = _ |- _ =>
    apply (preserves_run _ _ _ _ _ (same_exists _)) in E as Hs2 end.
  assert (same w w7) as Hs by (etrans; [done|]; by etrans).
  destruct v. exists v3, v7, v4, v5, v0, v6.
  assert (stored (issuance_path root session_id v3) w' = Some v7 /\
    sr_envelope receipt = ir_envelope v7 /\ (sr_idempotent receipt = Some true -> same w w'))
    as (? & ? & ?); [|by split_and!].
  destruct v8.
  - inv_ok. match goal with E : read_issuance _ _ = _ |- _ =>
      apply read_json_some in E as [Hs3 Hread]; specialize (Hread _ eq_refl) end.
    match goal with E : (if ?b then _ else _) _ = _ |- _ =>
      destruct (bool_decide_reflect (v8 = v7)) as [->|]; [|done] end.
    inv_ok. match goal with E : read_ledger _ _ = _, E' : authority_status_receipt _ _ _ = _ |- _ =>
      apply read_json_some in E as [Hs4 _]; pose proof E' as Hstatus;
      apply (preserves_run _ _ _ _ _ (status_frame _ _)) in E'
    end.
    apply receipt_status_ok in Hstatus as (_ & ? & _ & ->).
    assert (same w7 w') as Hs5 by (etrans; [done|]; by etrans).
    rewrite (stored_same _ _ _ Hs5). split_and!; [done|done|]. intros _. by etrans.
  - inv_ok. match goal with E : write_issuance _ _ _ _ _ _ = _, E' : authority_status_receipt _ _ _ = _ |- _ =>
      apply (write_issuance_run (session_context root session_id)) in E as [Hst _];
      pose proof E' as Hstatus; apply (preserves_run _ _ _ _ _ (status_frame _ _)) in E' as Hs3
    end.
    apply receipt_status_ok in Hstatus as (_ & ? & _ & ->).
    rewrite (stored_same _ _ _ Hs3). split_and!; [done|done|done].
Qed.

(** C35. A successful issuance stores a record that the broker will accept, for
    the observed target and URL the request expected: it is of the ordered
    schema, unrevoked, hash-bound to its envelope and plan. Its plan has at most 100
    steps, as many as were requested; the one at each position is numbered by it and has
    the action, the normalized URL and the reservation (or the default of the action)
    of the step requested there, and its consequence is within the requested ceiling,
    which is at most script execution (navigation when none is requested; the envelope
    then allows reading only). Every step expects the page its predecessors lead to; the
    allowed actions are those of the steps, the allowed origins those of the URL and of
    the requested pages; and the budgets are the number of steps and the sum of their
    reservations, without overflow. Requested reservations are unsigned 64-bit
    numbers. *)
Theorem issue_sound request session_id target url root aid lineage w receipt w' :
  Forall typed_step (rq_steps request) ->
  issue_request request session_id target url root aid lineage w = (Ok receipt, w') ->
  exists record ceiling envelope_ceiling,
    stored (issuance_path root session_id (en_id (ir_envelope record))) w' = Some record /\
    sr_envelope receipt = ir_envelope record /\
    ir_schema record = v2 /\ ir_session_id record = session_id /\ ir_revocation record = None /\
    check_issuance record None = Ok tt /\
    en_target_id (ir_envelope record) = target /\ rq_expected_target_id request = target /\
    en_initial_url (ir_envelope record) = url /\ rq_expected_url request = url /\
    ceilings_of (rq_consequence_ceiling request) ceiling envelope_ceiling /\
    en_consequence_ceiling (ir_envelope record) = as_str envelope_ceiling /\
    plan_ok request url ceiling record.
Proof.
  intros Ht (id & record & start & plan & ceilings & t & Hval & Hceil & Hstart & Hplan & Hrec & Hst
    & Hid & Henv & _)
    %issue_stored.
  exists record, ceilings.1, ceilings.2. rewrite Hid.
  apply (plan_start_inv id ceilings.1) in Hstart as (first & Hurl & Hinv).
  apply (plan_steps_inv _ _ url first []) in Hplan as [Hlen Hs Ha Ho Hc He Hb]; [|done|done].
  unfold issuance_record in Hrec. inv_ok. clear Hid.
  unfold validate_issue_request in Hval. guards. subst. cbn [app] in *.
  assert (pl_steps plan <> []) as Hne.
  { intros He0. rewrite He0 in Hlen. by destruct (rq_steps request). }
  pose proof (total_evidence_pos _ _ _ _ Hne Hlen Hs) as Hpos.
  split_and!; try done.
  - unfold check_issuance. cbn [ir_envelope ir_envelope_sha256 ir_schema ir_approved_plan ap_steps
      ap_plan_sha256 en_plan_sha256].
    rewrite (bind_ok_eq _ _ _ Hm0), !bool_decide_true by done. cbn [negb].
    destruct (pl_steps plan) as [|s0 ss]; [done|]. cbn [negb].
    by rewrite (bind_ok_eq _ _ _ Hm), !bool_decide_true.
  - by apply ceilings_sound.
  - unfold plan_ok. cbn. rewrite <-Hlen. split_and!; try done.
    + destruct (pl_steps plan); [done|]. cbn. lia.
    + rewrite Hlen. lia.
    + eauto.
    + unfold total_evidence in *. lia.
Qed.
End plan.
End TaskPlan.

(** ** Terminal outcomes of admitted steps

    [finalize_task_authority_step]: when it keeps the ledger valid, and that an
    outcome is recorded once. *)

Import Policy.Policy TaskModel TaskIssue TaskProofs TaskTheorems.
Local Open Scope Z_scope.

Module TaskOutcome.

Lemma find_update_first {A} (p : A -> bool) (f : A -> A) l a :
  (forall x, p (f x) = p x) -> List.find p l = Some a ->
  List.find p (update_first p f l) = Some (f a).
Proof.
  intros Hf. induction l as [|x l IH]; cbn; [done|].
  destruct (p x) eqn:Hp; cbn; [|rewrite Hp; auto]. intros [= ->]. by rewrite Hf, Hp.
Qed.

Section outcome.
Context `{!Host, !Json, !UrlLib, !Crypto, !Chrono, !Serde TaskAuthorityEnvelope,
          !Serde (list TaskAuthorityApprovedStep), !Serde TaskAuthorityLedger,
          !Serde TaskAuthorityIssuanceRecord, !Serde value,
          !SerdeValue TaskAuthorityEnvelope, !SerdeValue TaskAuthorityIssueRequest}.

Lemma set_outcome_keeps step_id command_id o r :
  matches_step step_id command_id (set_outcome o r) = matches_step step_id command_id r.
Proof. done. Qed.

(** Recording an outcome keeps the receipts of a ledger valid exactly when the
    outcome is valid for the receipt it is recorded in. *)
Lemma receipts_ok_update record p o index ids e rs total r :
  (forall x, p (set_outcome o x) = p x) ->
  List.find p rs = Some r -> receipts_ok record index ids e rs total ->
  receipts_ok record index ids e (update_first p (set_outcome o) rs) total
    <-> valid_outcome r o = Ok true.
Proof.
  intros Hp. revert index ids e. induction rs as [|r0 rs IH]; intros index ids e; cbn; [done|].
  intros Hfind (step & Hs & Hro & Hid & Ho & Hmax & Hrest).
  destruct (p r0) eqn:Hr0; cbn.
  - injection Hfind as ->. split.
    + intros (? & _ & _ & _ & Hout & _). exact Hout.
    + intros Hout. exists step. by split_and!.
  - rewrite <-(IH _ _ _ Hfind Hrest). split; [intros (? & _ & _ & _ & _ & _ & ?); done|].
    intros ?. exists step. by split_and!.
Qed.

Lemma with_receipts_ok record ledger rs t :
  validate_ordered_ledger ledger record = Ok tt ->
  length rs = length (lg_step_receipts ledger) ->
  validate_ordered_ledger (with_receipts rs t ledger) record = Ok tt <->
  receipts_ok record 0 ∅ 0 rs (lg_reserved_evidence_bytes ledger).
Proof.
  rewrite !validate_ordered_ledger_iff. cbn. intros (? & Hn & ? & _) ->. naive_solver.
Qed.

Lemma length_update_first {A} (p : A -> bool) f (l : list A) :
  length (update_first p f l) = length l.
Proof. induction l as [|a l IH]; cbn; [done|]. destruct (p a); cbn; auto. Qed.

(** What the code relies on: the serialization of a parsed URL is a fixed point
    of parsing, and JSON text is never empty. *)
Hypothesis normalized_url_idem : forall u v, normalized_url u = Ok v -> normalized_url v = Ok v.
Hypothesis json_nonempty : forall (v : value) b, to_vec v = Some b -> 0 < zlen b.

Lemma hexdigits s : bytes_all is_ascii_hexdigit (hex_encode s) = true.
Proof.
  apply (bytes_all_impl is_lower_hex); [|apply hex_encode_lower].
  intros c. by destruct c as [[] [] [] [] [] [] [] []].
Qed.

Lemma outcome_valid response context t o r :
  outcome_of response context t = Ok o ->
  valid_outcome r o = Ok true <->
  cx_target_id context = None \/ cx_target_id context = Some (rc_target_id r).
Proof.
  unfold outcome_of. intros Hrun. inv_ok.
  assert (option_traverse normalized_url v0 = Ok v0) as Hidem.
  { destruct (cx_url context); cbn in *; inv_ok; [|done]. cbn.
    by erewrite bind_ok_eq by (by eapply normalized_url_idem). }
  match goal with E : to_vec _ = Some _ |- _ => apply json_nonempty in E end.
  set (success := match _ with Some b => b | None => false end).
  unfold valid_outcome.
  cbn [oc_state oc_success oc_response_sha256 oc_response_bytes oc_target_id oc_url oc_finalized_at].
  rewrite hex_encode_len, sha256_len, parse_to_rfc3339, hexdigits.
  assert (zlen v =? 0 = false) as -> by lia.
  assert (one_of (if success then "completed" else "failed") ["completed"; "failed"]%string = true
    /\ Bool.eqb success ((if success then "completed" else "failed") == "completed"%string) = true)
    as [-> ->] by (by destruct success).
  cbn [negb orb is_ok]. rewrite (bind_ok_eq _ _ _ Hidem), bool_decide_true by done.
  change (negb (2 * 32 =? 64)) with false. cbn [orb].
  destruct (cx_target_id context) as [t0|]; [|naive_solver].
  destruct (bool_decide_reflect (t0 = rc_target_id r)); cbn [negb]; naive_solver.
Qed.

(** A successful [finalize_task_authority_step] for an authority of this
    session either finds the same outcome recorded and changes nothing, or
    records the outcome of the response in the receipt of the admitted step,
    all other receipts unchanged; the ledger it then leaves is valid exactly when
    the context names no target or the target of the receipt. *)
Theorem finalize_step cmd context response w w' raw envelope :
  jget cmd "taskAuthority" = Some raw -> from_value raw = Ok envelope ->
  finalize_task_authority_step cmd context response w = (Ok tt, w') ->
  exists record ledger step_id command_id receipt t outcome,
    stored (issuance_of context (en_id envelope)) w = Some record /\
    ir_envelope record = envelope /\ ir_revocation record = None /\
    stored (ledger_of context (en_id envelope)) w = Some ledger /\
    validate_ordered_ledger ledger record = Ok tt /\
    get_str cmd "taskStepId" = Some step_id /\ get_str cmd "id" = Some command_id /\
    List.find (matches_step step_id command_id) (lg_step_receipts ledger) = Some receipt /\
    outcome_of response context t = Ok outcome /\
    match rc_outcome receipt with
    | Some existing => same_terminal_evidence existing outcome = true /\ same w w'
    | None => exists ledger',
        stored (ledger_of context (en_id envelope)) w' = Some ledger' /\
        lg_step_receipts ledger' = update_first (matches_step step_id command_id)
          (set_outcome outcome) (lg_step_receipts ledger) /\
        (validate_ordered_ledger ledger' record = Ok tt <->
         cx_target_id context = None \/ cx_target_id context = Some (rc_target_id receipt)) /\
        same_at (fun p => durable p /\ p <> ledger_of context (en_id envelope)) w w'
    end.
Proof.
  intros Hraw Henv Hrun. unfold finalize_task_authority_step in Hrun. rewrite Hraw in Hrun. inv_ok.
  match goal with E : decode _ _ = Ok _ |- _ => unfold decode in E; rewrite Henv in E end. inv_ok.
  match goal with E : read_issuance _ _ = _, E' : read_ledger _ _ = _, E'' : now _ = _ |- _ =>
    apply read_json_some in E as [Hs1 Hi]; specialize (Hi _ eq_refl);
    apply read_json_some in E' as [Hs2 Hl]; specialize (Hl _ eq_refl);
    apply (preserves_run _ _ _ _ _ same_now) in E'' as Hs3 end.
  rewrite (stored_same _ _ _ Hs1) in Hl.
  assert (same w w10) as Hs by (etrans; [done|]; by etrans).
  repeat match goal with E : nonempty_str _ _ _ = Ok _ |- _ => apply nonempty_str_ok in E as [? _] end.
  repeat match goal with x : unit |- _ => destruct x end.
  match goal with E : outcome_identity _ _ _ = _ |- _ => unfold outcome_identity in E end. guards. subst.
  exists v5, v8, v0, v3, v10, v11, v12. split_and!; try done.
  { by destruct (ir_revocation v5). }
  destruct (rc_outcome v10) as [existing|] eqn:Hout.
  - destruct (same_terminal_evidence existing v12); [|done]. by inv_ok.
  - inv_ok. match goal with E : now _ = _, E' : write_ledger _ _ _ _ _ = _ |- _ =>
      apply (preserves_run _ _ _ _ _ same_now) in E as Hs4; apply write_ledger_run in E' as [Hst Hsame] end.
    eexists. split_and!; [exact Hst|done| |].
    + rewrite with_receipts_ok by (done || apply length_update_first).
      match goal with E : validate_ordered_ledger _ _ = Ok tt |- _ =>
        apply validate_ordered_ledger_iff in E as (_ & _ & _ & Hro) end.
      rewrite (receipts_ok_update _ _ _ _ _ _ _ _ _ (set_outcome_keeps _ _ _) ltac:(done) Hro).
      by eapply outcome_valid.
    + etrans; [apply same_same_at; by etrans|done].
Qed.
End outcome.
End TaskOutcome.
