(* ===== verification/TaskReconcile.v ===== *)
(** * Reconciling a stranded step

    [reconcile_task_authority] of [cli/src/native/task_authority.rs]: an authority
    whose last admitted step has no outcome is revoked and replaced, in two
    durable writes and a third that marks the reconciliation completed. *)

From S2P Require Import Prelude RustStr Env Policy TaskModel TaskIssue.
From Stdlib Require Import Ascii.
Import Policy.Policy TaskModel TaskIssue.

Local Open Scope Z_scope.

Module TaskReconcile.

Record TaskAuthorityReconcileRequest := {
  rr_reconciliation_id : string;
  rr_unresolved_step_id : string;
  rr_task_name : string;
  rr_service_name : option string;
  rr_agent_name : option string;
  rr_expected_target_id : string;
  rr_expected_url : string;
  rr_issuer : TaskAuthorityIssuer;
  rr_approval_reference : string;
  rr_expires_in_seconds : Z;
  rr_consequence_ceiling : option string;
  rr_steps : list TaskAuthorityPlanStep;
}.

(** The fields of the [json!] receipt. *)
Record ReconcileReceipt := {
  rx_idempotent : bool;
  rx_reconciliation_id : string;
  rx_request_sha256 : string;
  rx_predecessor : StatusReceipt;
  rx_replacement : StatusReceipt;
  rx_lineage : TaskAuthorityLineage;
}.

(** The request the replacement is issued from. *)
Definition issue_request_of (r : TaskAuthorityReconcileRequest) : TaskAuthorityIssueRequest :=
  {| rq_task_name := rr_task_name r; rq_service_name := rr_service_name r;
     rq_agent_name := rr_agent_name r; rq_expected_target_id := rr_expected_target_id r;
     rq_expected_url := rr_expected_url r; rq_issuer := rr_issuer r;
     rq_approval_reference := rr_approval_reference r;
     rq_expires_in_seconds := rr_expires_in_seconds r;
     rq_consequence_ceiling := rr_consequence_ceiling r; rq_steps := rr_steps r |}.

Definition check_reconcile_request (request : TaskAuthorityReconcileRequest) : res unit :=
  if is_empty (trim (rr_reconciliation_id request))
     || is_empty (trim (rr_unresolved_step_id request)) || is_empty (trim (rr_task_name request))
     || is_empty (trim (rr_expected_target_id request)) || is_empty (trim (rr_expected_url request))
  then Err "Task authority reconcile requires reconciliationId, unresolvedStepId, taskName, expectedTargetId, and expectedUrl"%string
  else
  if negb (one_of (is_kind (rr_issuer request)) ["operator"; "service"]%string)
     || is_empty (trim (is_id (rr_issuer request)))
     || is_empty (trim (rr_approval_reference request))
  then Err "Task authority reconcile requires operator or service issuer id and approvalReference"%string
  else
  if (rr_expires_in_seconds request =? 0)
     || (MAX_ISSUED_AUTHORITY_TTL_SECONDS <? rr_expires_in_seconds request)
     || match rr_steps request with [] => true | _ => false end
     || (MAX_ISSUED_AUTHORITY_STEPS <? Z.of_nat (length (rr_steps request)))
  then Err "Task authority reconcile replacement lifetime or step count is invalid"%string else Ok tt.

Section task.
Context `{!Host, !Json, !JsonBuild, !UrlLib, !Crypto, !Chrono, !Serde TaskAuthorityEnvelope,
          !Serde (list TaskAuthorityApprovedStep), !Serde TaskAuthorityLedger,
          !Serde TaskAuthorityIssuanceRecord, !Serde value,
          !SerdeValue TaskAuthorityEnvelope, !SerdeValue TaskAuthorityIssueRequest,
          !SerdeValue TaskAuthorityReconcileRequest}.

Definition reconciliation_request_sha256 (session_id predecessor_authority_id : string)
    (request : TaskAuthorityReconcileRequest) : res string :=
  request ← to_value request;
  bytes ← ok_or "Failed to serialize task authority reconciliation"%string
    (to_vec (jobject [("sessionId", jstring session_id);
                      ("predecessorAuthorityId", jstring predecessor_authority_id);
                      ("request", request)]%string));
  Ok (hex_encode (sha256 bytes)).

(** One step of the requested replacement, with the evidence bytes so far. *)
Definition check_replacement_step (ceiling : ActionConsequence) (evidence_bytes : Z)
    (step : TaskAuthorityPlanStep) : res Z :=
  let action := trim (ps_action step) in
  let consequence := action_consequence action in
  if is_empty action || (authority_rank ceiling <? authority_rank consequence)
     || ((consequence == Navigation) && (ps_url step == None))
  then Err "Task authority reconcile replacement contains an invalid action"%string else
  option_traverse normalized_url (ps_url step) ≫= fun _ =>
  let reservation := match ps_evidence_bytes step with
                     | Some n => n
                     | None => default_evidence_reservation action
                     end in
  if reservation =? 0
  then Err "Task authority reconcile replacement evidenceBytes must be positive"%string else
  ok_or "Task authority reconcile replacement evidence budget overflow"%string
    (u64_checked_add evidence_bytes reservation).

Fixpoint check_replacement (ceiling : ActionConsequence) (evidence_bytes : Z)
    (steps : list TaskAuthorityPlanStep) : res Z :=
  match steps with
  | [] => Ok evidence_bytes
  | step :: rest =>
      evidence_bytes ← check_replacement_step ceiling evidence_bytes step;
      check_replacement ceiling evidence_bytes rest
  end.

(** The reconciliation id is used by another authority's record. *)
Definition reused_elsewhere (record : TaskAuthorityIssuanceRecord)
    (predecessor_authority_id reconciliation_id : string) : bool :=
  (en_id (ir_envelope record) != predecessor_authority_id)
  && (match (v ← ir_revocation record; rv_reconciliation v) with
      | Some r => rn_reconciliation_id r == reconciliation_id
      | None => false
      end
      || match en_lineage (ir_envelope record) with
         | Some l => (ln_reconciliation_id l == reconciliation_id)
                     && (ln_predecessor_authority_id l != predecessor_authority_id)
         | None => false
         end).

Definition check_unused (session_root predecessor_authority_id reconciliation_id : string)
    (name : string) : SM Files unit :=
  sys "Failed to inspect task authority reconciliation record" ≫= fun _ =>
  if negb (ends_with ".issuance.json" name) then mret tt else
  o ← read_issuance (fmt [session_root; "/"; name]);
  match o with
  | None => mret tt
  | Some existing_record =>
      if reused_elsewhere existing_record predecessor_authority_id reconciliation_id
      then sm_err (fmt ["Task authority reconciliationId '"; reconciliation_id;
                        "' is already bound to another authority"])
      else mret tt
  end.

Definition check_reconciliation_id (session_root predecessor_authority_id reconciliation_id : string)
    : SM Files unit :=
  present ← directory_exists session_root;
  if negb present then mret tt else
  names ← read_dir session_root "Failed to inspect task authority reconciliation IDs";
  sm_iter (check_unused session_root predecessor_authority_id reconciliation_id) names.

Definition check_predecessor (predecessor : TaskAuthorityIssuanceRecord)
    (session_id target_id : string) (request : TaskAuthorityReconcileRequest) : res unit :=
  if (ir_schema predecessor != v2) || (ir_session_id predecessor != session_id)
     || (en_target_id (ir_envelope predecessor) != target_id)
     || (en_task_name (ir_envelope predecessor) != rr_task_name request)
     || (en_service_name (ir_envelope predecessor) != rr_service_name request)
     || (en_agent_name (ir_envelope predecessor) != rr_agent_name request)
  then Err "Task authority reconcile predecessor identity is invalid"%string else Ok tt.

(** The one receipt without an outcome. *)
Definition stranded_step (ledger : TaskAuthorityLedger) (target_id : string)
    (request : TaskAuthorityReconcileRequest) : res TaskAuthorityStepReceipt :=
  match List.filter (fun r => rc_outcome r == None) (lg_step_receipts ledger) with
  | [stranded] =>
      if (rc_step_id stranded != rr_unresolved_step_id request)
         || (rc_target_id stranded != target_id)
         || (lg_next_step_index ledger <=? rc_step_index stranded)
      then Err "Task authority reconcile unresolved step does not match the consumed predecessor receipt"%string
      else Ok stranded
  | indeterminate =>
      Err (fmt ["Task authority reconcile requires exactly one indeterminate predecessor step, found ";
                decimal (Z.of_nat (length indeterminate))])
  end.

Definition lineage_of (request : TaskAuthorityReconcileRequest) (predecessor_authority_id : string)
    (stranded : TaskAuthorityStepReceipt) : TaskAuthorityLineage :=
  {| ln_reconciliation_id := rr_reconciliation_id request;
     ln_predecessor_authority_id := predecessor_authority_id;
     ln_predecessor_step_id := rc_step_id stranded;
     ln_predecessor_step_index := rc_step_index stranded;
     ln_predecessor_command_id := rc_command_id stranded;
     ln_predecessor_outcome_state := "indeterminate" |}.

(** [format!("authority-reconcile-{}", &request_sha256[..32])] *)
Definition replacement_id (request_sha256 : string) : string :=
  fmt ["authority-reconcile-"; of_bytes (take 32 (bytes_of request_sha256))].

Definition expected_reconciliation (request : TaskAuthorityReconcileRequest)
    (request_sha256 : string) (stranded : TaskAuthorityStepReceipt) : TaskAuthorityReconciliation :=
  {| rn_reconciliation_id := rr_reconciliation_id request; rn_request_sha256 := request_sha256;
     rn_predecessor_step_id := rc_step_id stranded;
     rn_predecessor_step_index := rc_step_index stranded;
     rn_predecessor_command_id := rc_command_id stranded;
     rn_predecessor_outcome_state := "indeterminate";
     rn_replacement_authority_id := replacement_id request_sha256;
     rn_state := "pending"; rn_completed_at := None |}.

Definition with_state (state : string) (completed_at : option string)
    (r : TaskAuthorityReconciliation) : TaskAuthorityReconciliation :=
  {| rn_reconciliation_id := rn_reconciliation_id r; rn_request_sha256 := rn_request_sha256 r;
     rn_predecessor_step_id := rn_predecessor_step_id r;
     rn_predecessor_step_index := rn_predecessor_step_index r;
     rn_predecessor_command_id := rn_predecessor_command_id r;
     rn_predecessor_outcome_state := rn_predecessor_outcome_state r;
     rn_replacement_authority_id := rn_replacement_authority_id r;
     rn_state := state; rn_completed_at := completed_at |}.

Definition with_reconciliation (r : TaskAuthorityReconciliation) (v : TaskAuthorityRevocation)
    : TaskAuthorityRevocation :=
  {| rv_revoked_at := rv_revoked_at v; rv_revoked_by := rv_revoked_by v;
     rv_reason := rv_reason v; rv_target_url := rv_target_url v; rv_reconciliation := Some r |}.

(** The predecessor with its revocation, written unless it was there. *)
Definition revoke_predecessor (root session_id predecessor_authority_id current_url : string)
    (stop_after_predecessor_revocation : bool) (request : TaskAuthorityReconcileRequest)
    (expected : TaskAuthorityReconciliation) (stranded : TaskAuthorityStepReceipt)
    (predecessor : TaskAuthorityIssuanceRecord) : SM Files TaskAuthorityIssuanceRecord :=
  match ir_revocation predecessor with
  | Some revocation =>
      match rv_reconciliation revocation with
      | None => sm_err "Task authority reconcile predecessor was already revoked outside reconciliation"
      | Some existing =>
          if with_state "pending" None existing != expected
          then sm_err "Task authority reconciliation already exists with different evidence"
          else mret predecessor
      end
  | None =>
      revoked_at ← now;
      let predecessor := revoke {|
        rv_revoked_at := to_rfc3339 revoked_at; rv_revoked_by := is_id (rr_issuer request);
        rv_reason := fmt ["reconcile indeterminate step "; rc_step_id stranded];
        rv_target_url := current_url; rv_reconciliation := Some expected |} predecessor in
      write_issuance root session_id predecessor_authority_id
        "task authority reconciliation predecessor" predecessor ≫= fun _ =>
      if stop_after_predecessor_revocation
      then sm_err "Injected stop after predecessor revocation"
      else mret predecessor
  end.

(** The replacement: the one already issued, or a new one. *)
Definition issue_replacement (root session_id target_id current_url : string)
    (request : TaskAuthorityReconcileRequest) (lineage : TaskAuthorityLineage)
    (replacement_authority_id : string) : SM Files StatusReceipt :=
  let replacement_path := issuance_path root session_id replacement_authority_id in
  present ← exists_ replacement_path;
  if present : bool then
    o ← read_issuance replacement_path;
    existing ← sm_lift (ok_or "Task authority reconciliation replacement disappeared"%string o);
    if (ir_schema existing != v2) || (ir_session_id existing != session_id)
       || (en_id (ir_envelope existing) != replacement_authority_id)
       || (en_lineage (ir_envelope existing) != Some lineage)
    then sm_err "Task authority reconciliation replacement identity is invalid" else
    hash ← sm_lift (envelope_sha256 (ir_envelope existing));
    if ir_envelope_sha256 existing != hash
    then sm_err "Task authority reconciliation replacement identity is invalid" else
    ledger ← read_ledger (ledger_path root session_id replacement_authority_id);
    authority_status_receipt existing ledger
  else
    issue_request ← sm_lift (match to_value (issue_request_of request) with
                             | Ok v => Ok v
                             | Err error =>
                                 Err (fmt ["Failed to prepare replacement authority: "; error])
                             end);
    issue_task_authority_with_identity issue_request session_id target_id current_url root
      (Some replacement_authority_id) (Some lineage).

(** The last write, skipped when the reconciliation was completed before. *)
Definition complete_reconciliation (root session_id predecessor_authority_id : string)
    (predecessor : TaskAuthorityIssuanceRecord) : SM Files (TaskAuthorityIssuanceRecord * bool) :=
  revocation ← sm_lift (ok_or
    "Task authority reconciliation predecessor evidence disappeared"%string
    (ir_revocation predecessor));
  reconciliation ← sm_lift (ok_or
    "Task authority reconciliation predecessor evidence disappeared"%string
    (rv_reconciliation revocation));
  if rn_state reconciliation == "completed"%string then mret (predecessor, true) else
  completed_at ← now;
  let predecessor := revoke (with_reconciliation
    (with_state "completed" (Some (to_rfc3339 completed_at)) reconciliation) revocation)
    predecessor in
  write_issuance root session_id predecessor_authority_id
    "task authority reconciliation predecessor" predecessor ≫= fun _ =>
  mret (predecessor, false).

(** Everything before the first write. *)
Definition reconcile_checks (root session_id predecessor_authority_id : string)
    (request : TaskAuthorityReconcileRequest) (target_id current_url : string)
    : SM Files (TaskAuthorityIssuanceRecord * TaskAuthorityLedger * TaskAuthorityStepReceipt
                * string) :=
  sm_lift (check_reconcile_request request) ≫= fun _ =>
  ceilings ← sm_lift (requested_consequence_ceiling (rr_consequence_ceiling request));
  sm_lift (check_replacement ceilings.1 0 (rr_steps request)) ≫= fun _ =>
  if (rr_expected_target_id request != target_id) || (rr_expected_url request != current_url)
  then sm_err (fmt ["Task authority reconcile target changed: expected '";
                    rr_expected_target_id request; "' at '"; rr_expected_url request; "', got '";
                    target_id; "' at '"; current_url; "'"]) else
  check_reconciliation_id (session_directory root session_id) predecessor_authority_id
    (rr_reconciliation_id request) ≫= fun _ =>
  o ← read_issuance (issuance_path root session_id predecessor_authority_id);
  predecessor ← sm_lift (ok_or (not_issued predecessor_authority_id) o);
  sm_lift (check_predecessor predecessor session_id target_id request) ≫= fun _ =>
  o ← read_ledger (ledger_path root session_id predecessor_authority_id);
  ledger ← sm_lift (ok_or
    "Task authority reconcile predecessor has no durable admission ledger"%string o);
  sm_lift (validate_ordered_ledger ledger predecessor) ≫= fun _ =>
  stranded ← sm_lift (stranded_step ledger target_id request);
  request_sha256 ← sm_lift (reconciliation_request_sha256 session_id predecessor_authority_id request);
  mret (predecessor, ledger, stranded, request_sha256).

Definition reconcile_request (root session_id predecessor_authority_id : string)
    (request : TaskAuthorityReconcileRequest) (target_id current_url : string)
    (stop_after_predecessor_revocation : bool) : SM Files ReconcileReceipt :=
  checked ← reconcile_checks root session_id predecessor_authority_id request target_id current_url;
  let '(predecessor, ledger, stranded, request_sha256) := checked in
  let lineage := lineage_of request predecessor_authority_id stranded in
  predecessor ← revoke_predecessor root session_id predecessor_authority_id current_url
    stop_after_predecessor_revocation request
    (expected_reconciliation request request_sha256 stranded) stranded predecessor;
  replacement ← issue_replacement root session_id target_id current_url request lineage
    (replacement_id request_sha256);
  completed ← complete_reconciliation root session_id predecessor_authority_id predecessor;
  let '(predecessor, was_completed) := completed in
  predecessor_status ← authority_status_receipt predecessor (Some ledger);
  mret {| rx_idempotent := was_completed; rx_reconciliation_id := rr_reconciliation_id request;
          rx_request_sha256 := request_sha256; rx_predecessor := predecessor_status;
          rx_replacement := replacement; rx_lineage := lineage |}.

Definition reconcile_task_authority_inner (root session_id predecessor_authority_id : string)
    (raw_request : value) (target_id current_url : string)
    (stop_after_predecessor_revocation : bool) : SM Files ReconcileReceipt :=
  request ← sm_lift (decode "task authority reconcile request" raw_request);
  reconcile_request root session_id predecessor_authority_id request target_id current_url
    stop_after_predecessor_revocation.

Definition reconcile_task_authority (root session_id predecessor_authority_id : string)
    (raw_request : value) (target_id current_url : string) : SM Files ReconcileReceipt :=
  reconcile_task_authority_inner root session_id predecessor_authority_id raw_request target_id
    current_url false.
End task.

End TaskReconcile.
