(* ===== verification/TaskReconcileProofs.v ===== *)
(** * What a reconciliation guarantees

    The order of its writes, what a success leaves, and that an authority is
    reconciled by one request only. *)

From S2P Require Import Prelude RustStr Env Policy TaskModel TaskIssue TaskAdmit TaskProofs.
From S2P Require Import TaskTheorems TaskPlan TaskReconcile.
Import Policy.Policy TaskModel TaskIssue TaskAdmit TaskProofs TaskTheorems TaskPlan TaskReconcile.

Local Open Scope Z_scope.

Module TaskReconcileProofs.

Section task.
Context `{!Host, !Json, !JsonBuild, !UrlLib, !Crypto, !Chrono, !Serde TaskAuthorityEnvelope,
          !Serde (list TaskAuthorityApprovedStep), !Serde TaskAuthorityLedger,
          !Serde TaskAuthorityIssuanceRecord, !Serde value,
          !SerdeValue TaskAuthorityEnvelope, !SerdeValue TaskAuthorityIssueRequest,
          !SerdeValue TaskAuthorityReconcileRequest}.

(** Every durable file but one. *)
Definition except (path : string) : string -> Prop := fun p => durable p /\ p <> path.

Lemma same_at_impl (P Q : string -> Prop) w w' :
  (forall p, Q p -> P p) -> same_at P w w' -> same_at Q w w'.
Proof. intros HPQ Hs p Hp. apply Hs. auto. Qed.

Lemma write_issuance_frame root session id label record path :
  path = issuance_path root session id ->
  preserves (same_at (except path)) (write_issuance root session id label record).
Proof.
  intros -> w. destruct (write_issuance root session id label record w) as [r w'] eqn:Hrun.
  apply (write_issuance_run (session_context root session)) in Hrun. cbn.
  destruct r; [by apply Hrun|]. eapply same_at_impl, Hrun. by intros p [].
Qed.

(** ** The checks *)

Lemma checks_frame root session id request target url :
  preserves same (reconcile_checks root session id request target url).
Proof.
  unfold reconcile_checks, check_reconciliation_id, check_unused, read_issuance, read_ledger.
  frame.
Qed.

Lemma stranded_step_ok ledger target request r :
  stranded_step ledger target request = Ok r ->
  List.filter (fun r => rc_outcome r == None) (lg_step_receipts ledger) = [r] /\
  rc_step_id r = rr_unresolved_step_id request /\ rc_target_id r = target /\
  rc_step_index r < lg_next_step_index ledger.
Proof.
  unfold stranded_step. intros Hrun.
  destruct (List.filter _ _) as [|r0 [|r1 l]]; try done. guards. subst.
  split_and!; try done. lia.
Qed.

(** What the checks established. *)
Record checked (root session id : string) (request : TaskAuthorityReconcileRequest)
    (target url : string) (w : Files) (predecessor : TaskAuthorityIssuanceRecord)
    (ledger : TaskAuthorityLedger) (stranded : TaskAuthorityStepReceipt) (sha : string) : Prop := {
  ck_predecessor : stored (issuance_path root session id) w = Some predecessor;
  ck_identity : check_predecessor predecessor session target request = Ok tt;
  ck_ledger : stored (ledger_path root session id) w = Some ledger;
  ck_valid : validate_ordered_ledger ledger predecessor = Ok tt;
  ck_stranded : stranded_step ledger target request = Ok stranded;
  ck_sha : reconciliation_request_sha256 session id request = Ok sha;
  ck_live : rr_expected_target_id request = target /\ rr_expected_url request = url;
}.

Lemma checks_ok root session id request target url w p l s sha w' :
  reconcile_checks root session id request target url w = (Ok (p, l, s, sha), w') ->
  same w w' /\ checked root session id request target url w p l s sha.
Proof.
  intros Hrun. split; [exact (preserves_run _ _ _ _ _ (checks_frame _ _ _ _ _ _) Hrun)|].
  unfold reconcile_checks in Hrun. guards. subst.
  repeat match goal with u : unit |- _ => destruct u end.
  match goal with E : check_reconciliation_id _ _ _ _ = _ |- _ =>
    assert (preserves same (check_reconciliation_id (session_directory root session) id
      (rr_reconciliation_id request))) as Hf
      by (unfold check_reconciliation_id, check_unused, read_issuance; frame);
    apply (preserves_run _ _ _ _ _ Hf) in E as Hs0 end.
  match goal with E : read_issuance _ _ = _, E' : read_ledger _ _ = _ |- _ =>
    apply read_json_some in E as [Hs1 Hp]; apply read_json_some in E' as [Hs2 Hl];
    specialize (Hp _ eq_refl); specialize (Hl _ eq_refl) end.
  rewrite (stored_same _ _ _ Hs0) in Hp.
  rewrite (stored_same _ _ _ Hs1), (stored_same _ _ _ Hs0) in Hl.
  by split.
Qed.

(** ** The three writes *)

(** [p'] is [p] revoked for the expected reconciliation, pending or completed. *)
Definition revoked_for (expected : TaskAuthorityReconciliation)
    (p p' : TaskAuthorityIssuanceRecord) : Prop :=
  exists revocation existing, p' = revoke revocation p /\
    rv_reconciliation revocation = Some existing /\
    with_state "pending" None existing = expected.

Lemma revoke_revoked p revocation : ir_revocation p = Some revocation -> revoke revocation p = p.
Proof. by destruct p; cbn; intros ->. Qed.

Lemma revoke_predecessor_run root session id url stop request expected stranded p w r w' :
  let path := issuance_path root session id in
  with_state "pending" None expected = expected ->
  revoke_predecessor root session id url stop request expected stranded p w = (r, w') ->
  same_at (except path) w w' /\
  match r with
  | Ok p' => revoked_for expected p p' /\ (stored path w = Some p -> stored path w' = Some p') /\
             (ir_revocation p <> None -> p' = p)
  | Err _ => t_files w' !! path = t_files w !! path \/
             exists p', revoked_for expected p p' /\ stored path w' = Some p'
  end.
Proof.
  intros path Hexp Hrun. unfold revoke_predecessor in Hrun.
  destruct (ir_revocation p) as [revocation|] eqn:Hrv.
  - destruct (rv_reconciliation revocation) as [existing|] eqn:Hrn; [|injection Hrun as <- <-; split; [done|by left]].
    destruct (bool_decide_reflect (with_state "pending" None existing = expected)) as [He|];
      [|injection Hrun as <- <-; split; [done|by left]].
    injection Hrun as <- <-. split; [done|]. split_and!; try done.
    exists revocation, existing. by rewrite revoke_revoked.
  - apply sm_bind_inv in Hrun as [(t & w1 & Hnow & Hrun)|(e & [=] & _)].
    unfold now in Hnow. injection Hnow as <- <-.
    set (p' := revoke _ p) in Hrun.
    assert (revoked_for expected p p') as Hp' by (by eexists _, _).
    apply sm_bind_inv in Hrun as [(u & w2 & Hw & Hrun)|(e & Hw & ->)];
      apply (write_issuance_run (session_context root session)) in Hw.
    + destruct Hw as [Hst Hs].
      assert (same_at (except path) w w2) as Hs2 by (intros q Hq; by apply Hs).
      destruct stop; injection Hrun as <- <-; (split; [done|]); [right; by exists p'|by split_and!].
    + split; [|left; by apply (Hw path), (issuance_durable (session_context root session))].
      intros q [Hq _]. by apply Hw.
Qed.

Definition replaced (session : string) (rid : string) (lineage : TaskAuthorityLineage)
    (record : TaskAuthorityIssuanceRecord) : Prop :=
  ir_schema record = v2 /\ ir_session_id record = session /\
  en_id (ir_envelope record) = rid /\ en_lineage (ir_envelope record) = Some lineage /\
  envelope_sha256 (ir_envelope record) = Ok (ir_envelope_sha256 record).

Lemma issue_frame root session target url request lineage rid :
  preserves (same_at (except (issuance_path root session rid)))
    (issue_replacement root session target url request lineage rid).
Proof.
  assert (forall A (m : SM Files A), preserves same m ->
    preserves (same_at (except (issuance_path root session rid))) m) as Hsame
    by (intros; by apply preserves_same_at).
  assert (forall record ledger, preserves (same_at (except (issuance_path root session rid)))
    (authority_status_receipt record ledger)) by (intros; apply Hsame, status_frame).
  assert (forall path, preserves (same_at (except (issuance_path root session rid)))
    (read_issuance path)) by (intros; apply Hsame, same_read_json).
  assert (forall path, preserves (same_at (except (issuance_path root session rid)))
    (read_ledger path)) by (intros; apply Hsame, same_read_json).
  pose proof (Hsame _ _ (same_exists (issuance_path root session rid))).
  pose proof (Hsame _ _ same_now).
  assert (forall label record, preserves (same_at (except (issuance_path root session rid)))
    (write_issuance root session rid label record)) by (intros; by apply write_issuance_frame).
  unfold issue_replacement, issue_task_authority_with_identity, issue_request. cbv iota. frame.
Qed.

Lemma issue_replacement_ok root session target url request lineage rid w receipt w' :
  issue_replacement root session target url request lineage rid w = (Ok receipt, w') ->
  exists record, stored (issuance_path root session rid) w' = Some record /\
    replaced session rid lineage record /\ sr_envelope receipt = ir_envelope record.
Proof.
  unfold issue_replacement. intros Hrun. inv_ok. destruct v.
  - guards. subst. match goal with E : read_issuance _ _ = _ |- _ =>
      apply read_json_some in E as [Hs0 Hread]; specialize (Hread _ eq_refl) end.
    match goal with E : read_ledger _ _ = _, E' : authority_status_receipt _ _ _ = _ |- _ =>
      apply read_json_some in E as [Hs1 _]; pose proof E' as Hstatus;
      apply (preserves_run _ _ _ _ _ (status_frame _ _)) in E' as Hs2 end.
    apply receipt_status_ok in Hstatus as (_ & ? & _ & ->).
    eexists. rewrite (stored_same _ _ _ Hs2), (stored_same _ _ _ Hs1), (stored_same _ _ _ Hs0).
    split; [exact Hread|]. split; [|done]. unfold replaced. by split_and!.
  - guards. unfold issue_task_authority_with_identity in Hrun. inv_ok.
    match goal with E : issue_request _ _ _ _ _ _ _ _ = _ |- _ => rename E into Hissue end.
    pose proof (issue_stored _ _ _ _ _ _ _ _ _ _ Hissue) as Hst.
    destruct Hst as (id & record & start & plan & ceilings & t & _ & _ & _ & _ & Hrec & Hst & Hid
      & Henv & _ & Haid).
    specialize (Haid _ eq_refl). rewrite Haid in *. exists record. split; [exact Hst|]. split; [|exact Henv].
    clear Hst Henv Hid Haid Hissue. unfold issuance_record in Hrec. inv_ok. unfold replaced. cbn. by split_and!.
Qed.

Definition completed_for (expected : TaskAuthorityReconciliation)
    (p p' : TaskAuthorityIssuanceRecord) : Prop :=
  exists revocation existing, p' = revoke revocation p /\
    rv_reconciliation revocation = Some existing /\ rn_state existing = "completed"%string /\
    with_state "pending" None existing = expected.

Lemma completed_revoked expected p p' : completed_for expected p p' -> revoked_for expected p p'.
Proof. intros (v & e & ? & ? & _ & ?). by exists v, e. Qed.

Lemma complete_run root session id expected p0 p w r w' :
  let path := issuance_path root session id in
  revoked_for expected p0 p ->
  complete_reconciliation root session id p w = (r, w') ->
  same_at (except path) w w' /\
  match r with
  | Ok (p', was) => completed_for expected p0 p' /\
      (stored path w = Some p -> stored path w' = Some p') /\
      (forall v e, ir_revocation p = Some v -> rv_reconciliation v = Some e ->
         rn_state e = "completed"%string -> was = true)
  | Err _ => t_files w' !! path = t_files w !! path
  end.
Proof.
  intros path (v & e & -> & Hv & He) Hrun. unfold complete_reconciliation in Hrun.
  cbn [ir_revocation revoke] in Hrun.
  apply sm_bind_inv in Hrun as [(v' & w1 & [[= <-] ->]%sm_lift_ok & Hrun)|(err & [=] & _)].
  apply sm_bind_inv in Hrun as [(e' & w1 & [He' ->]%sm_lift_ok & Hrun)|(err & He' & _)];
    [|unfold sm_lift in He'; by rewrite Hv in He'].
  rewrite Hv in He'. injection He' as <-.
  destruct (bool_decide_reflect (rn_state e = "completed"%string)) as [Hc|Hc].
  - injection Hrun as <- <-. split; [done|]. split; [|done]. by exists v, e.
  - apply sm_bind_inv in Hrun as [(t & w1 & Hnow & Hrun)|(err & [=] & _)].
    unfold now in Hnow. injection Hnow as <- <-.
    set (p' := revoke _ _) in Hrun.
    assert (completed_for expected p0 p') as Hp' by (by eexists _, _).
    apply sm_bind_inv in Hrun as [(u & w2 & Hw & Hrun)|(err & Hw & ->)];
      apply (write_issuance_run (session_context root session)) in Hw.
    + destruct Hw as [Hst Hs]. injection Hrun as <- <-. split; [intros q Hq; by apply Hs|].
      split_and!; try done. intros v' e' [= <-]. by rewrite Hv; intros [= <-].
    + split; [|by apply (Hw path), (issuance_durable (session_context root session))].
      intros q [Hq _]. by apply Hw.
Qed.

(** ** The reconciliation as a whole *)

Definition rpath (root session sha : string) : string :=
  issuance_path root session (replacement_id sha).

(** Files other than the predecessor's record and the replacement's. *)
Definition elsewhere (root session id sha : string) : string -> Prop := fun p =>
  durable p /\ p <> issuance_path root session id /\ p <> rpath root session sha.

Lemma reconcile_run root session id request target url stop w r w' :
  reconcile_request root session id request target url stop w = (r, w') ->
  (same w w' /\ is_ok r = false) \/
  exists p l s sha, checked root session id request target url w p l s sha /\
    let path := issuance_path root session id in
    let expected := expected_reconciliation request sha s in
    same_at (elsewhere root session id sha) w w' /\
    (path <> rpath root session sha ->
     (t_files w' !! path = t_files w !! path /\
        t_files w' !! rpath root session sha = t_files w !! rpath root session sha) \/
     exists p', stored path w' = Some p' /\ revoked_for expected p p') /\
    (forall receipt, r = Ok receipt -> rx_request_sha256 receipt = sha /\
     rx_lineage receipt = lineage_of request id s /\
     (forall v, ir_revocation p = Some v -> exists e, rv_reconciliation v = Some e /\
        with_state "pending" None e = expected /\
        (rn_state e = "completed"%string -> rx_idempotent receipt = true)) /\
     (path <> rpath root session sha -> exists p' record, stored path w' = Some p' /\ completed_for expected p p' /\
       stored (rpath root session sha) w' = Some record /\
       replaced session (replacement_id sha) (lineage_of request id s) record /\
       sr_envelope (rx_replacement receipt) = ir_envelope record /\
       sr_revocation (rx_predecessor receipt) = ir_revocation p')).
Proof.
  unfold reconcile_request. intros Hrun.
  apply sm_bind_inv in Hrun as [([[[p l] s] sha] & w0 & Hck & Hrun)|(e & Hck & ->)].
  2:{ left. split; [|done]. exact (preserves_run _ _ _ _ _ (checks_frame _ _ _ _ _ _) Hck). }
  apply checks_ok in Hck as [Hs0 Hck]. right. exists p, l, s, sha. split; [done|].
  set (path := issuance_path root session id) in *. set (rp := rpath root session sha).
  set (expected := expected_reconciliation request sha s) in *. cbv zeta.
  assert (stored path w0 = Some p) as Hp by (rewrite (stored_same _ _ _ Hs0); apply Hck).
  assert (forall q, t_files w0 !! q = t_files w !! q) as Hf0 by (intros q; by rewrite Hs0).
  apply sm_bind_inv in Hrun as [(p1 & w1 & Hrv & Hrun)|(e & Hrv & ->)];
    apply revoke_predecessor_run in Hrv as [Hs1 Hr1]; try done.
  2:{ split; [|split; [|done]].
      - intros q (Hd & Hq & _). rewrite <-Hf0. by apply Hs1.
      - intros Hne. destruct Hr1 as [Heq|(p' & Hp' & Hst)]; [left|right; by exists p'].
        rewrite <-!Hf0. split; [exact Heq|]. apply Hs1. split; [|by apply not_eq_sym].
        by apply (issuance_durable (session_context root session)). }
  destruct Hr1 as (Hp1 & Hst1 & Hsame1). specialize (Hst1 Hp). fold path in Hst1.
  assert (forall w2, same_at (except rp) w1 w2 -> path <> rp -> stored path w2 = Some p1) as Hkeep.
  { intros w2 Hs2 Hne. unfold stored. rewrite (Hs2 path); [done|]. split; [|done].
    by apply (issuance_durable (session_context root session)). }
  assert (forall w2, same_at (except rp) w1 w2 -> same_at (elsewhere root session id sha) w w2) as Hels.
  { intros w2 Hs2 q (Hd & Hq & Hq'). rewrite (Hs2 q), (Hs1 q), Hf0; done. }
  apply sm_bind_inv in Hrun as [(receipt & w2 & His & Hrun)|(e & His & ->)];
    pose proof (preserves_run _ _ _ _ _ (issue_frame _ _ _ _ _ _ _) His) as Hs2.
  2:{ split; [by apply Hels|]. split; [|done]. intros Hne. right. exists p1. auto. }
  apply issue_replacement_ok in His as (record & Hrst & Hrep & Henv).
  apply sm_bind_inv in Hrun as [([p2 was] & w3 & Hco & Hrun)|(e & Hco & ->)];
    apply (complete_run _ _ _ expected p) in Hco as [Hs3 Hr3]; try done.
  2:{ split; [|split; [|done]].
      - etrans; [by apply Hels|]. eapply same_at_impl, Hs3. by intros q (? & ? & ?).
      - intros Hne. right. exists p1. split; [|done]. unfold stored, path. rewrite Hr3.
        by apply Hkeep. }
  destruct Hr3 as (Hp2 & Hst2 & Hwas). fold path in Hst2.
  assert (same_at (elsewhere root session id sha) w w3) as Hs.
  { etrans; [by apply Hels|]. eapply same_at_impl, Hs3. by intros q (? & ? & ?). }
  assert (path <> rp -> stored rp w3 = Some record) as Hrst3.
  { intros Hne. unfold stored. rewrite (Hs3 rp); [done|].
    split; [by apply (issuance_durable (session_context root session))|by apply not_eq_sym]. }
  apply sm_bind_inv in Hrun as [(st & w4 & Hstat & Hrun)|(e & Hstat & ->)];
    pose proof (preserves_run _ _ _ _ _ (status_frame _ _) Hstat) as Hs4.
  - injection Hrun as <- <-. split; [etrans; [exact Hs|by apply same_same_at]|].
    apply receipt_status_ok in Hstat as (_ & ? & _ & ->).
    split.
    + right. exists p2. rewrite (stored_same _ _ _ Hs4). split; [auto|by apply completed_revoked].
    + intros receipt' [= <-]. split; [done|]. split; [done|]. split.
      * intros v Hv. rewrite Hsame1 in Hp1, Hwas by congruence.
        destruct Hp1 as (v1 & e1 & Hpv & He1 & Hexp). rewrite Hpv in Hv. injection Hv as <-.
        exists e1. split_and!; [done|done|]. intros Hc. eapply Hwas; [|done|done]. by rewrite Hpv.
      * intros Hne. exists p2, record. rewrite !(stored_same _ _ _ Hs4). split_and!; auto.
  - split; [etrans; [exact Hs|by apply same_same_at]|]. split; [|done].
    intros Hne. right. exists p2. rewrite (stored_same _ _ _ Hs4).
    split; [auto|by apply completed_revoked].
Qed.
(** ** Guarantees *)

Lemma inner_run root session id raw target url stop w r w' :
  reconcile_task_authority_inner root session id raw target url stop w = (r, w') ->
  (w' = w /\ is_ok r = false) \/ exists request, from_value raw = Ok request /\
    reconcile_request root session id request target url stop w = (r, w').
Proof.
  unfold reconcile_task_authority_inner, decode. intros Hrun.
  apply sm_bind_inv in Hrun as [(q & w1 & [Hq ->]%sm_lift_ok & Hrun)|(e & Hq & ->)].
  2:{ left. by injection Hq. }
  right. exists q. destruct (from_value raw); by simplify_eq.
Qed.

(** C34. A successful reconciliation replaced exactly one stranded step: the
    predecessor was issued for this session, target and task, with a valid ledger
    in which one admitted step, the one the request names, has no outcome; the
    predecessor's record is now revoked, with a completed reconciliation that
    names the digest of the request and the replacement; the replacement's record
    is stored, hash-bound, and carries the lineage of that step; and no other
    durable file changed. *)
Theorem reconcile_sound root session id raw target url w receipt w' :
  reconcile_task_authority root session id raw target url w = (Ok receipt, w') ->
  let sha := rx_request_sha256 receipt in
  issuance_path root session id <> rpath root session sha ->
  exists request p ledger stranded p' record,
    from_value raw = Ok request /\ reconciliation_request_sha256 session id request = Ok sha /\
    stored (issuance_path root session id) w = Some p /\
    check_predecessor p session target request = Ok tt /\
    stored (ledger_path root session id) w = Some ledger /\
    validate_ordered_ledger ledger p = Ok tt /\
    List.filter (fun r => rc_outcome r == None) (lg_step_receipts ledger) = [stranded] /\
    rc_step_id stranded = rr_unresolved_step_id request /\
    stored (issuance_path root session id) w' = Some p' /\
    completed_for (expected_reconciliation request sha stranded) p p' /\
    stored (rpath root session sha) w' = Some record /\
    replaced session (replacement_id sha) (lineage_of request id stranded) record /\
    sr_envelope (rx_replacement receipt) = ir_envelope record /\
    same_at (elsewhere root session id sha) w w'.
Proof.
  intros [[_ [=]]|(request & Hraw & Hrun)]%inner_run sha Hne.
  apply reconcile_run in Hrun as [[_ [=]]|(p & l & s & sha' & Hck & Hels & _ & Hok)].
  destruct (Hok receipt eq_refl) as (Hsha & _ & _ & Hok'). subst sha'. fold sha in Hels, Hck, Hok'.
  destruct (Hok' Hne) as (p' & record & Hp' & Hc & Hr & Hrep & Henv & _).
  pose proof (ck_stranded _ _ _ _ _ _ _ _ _ _ _ Hck) as (Hf & Hid & _)%stranded_step_ok.
  exists request, p, l, s, p', record. split_and!; try done; apply Hck.
Qed.

(** C22. There are never two live authorities: whatever the outcome of a
    reconciliation, faults and crashes included, it touches the two issuance
    records only, and if the record of the replacement changed then the record of
    the predecessor is revoked with a reconciliation that names this replacement. *)
Theorem reconcile_never_two_live root session id raw request sha target url stop w r w' :
  reconcile_task_authority_inner root session id raw target url stop w = (r, w') ->
  from_value raw = Ok request -> reconciliation_request_sha256 session id request = Ok sha ->
  issuance_path root session id <> rpath root session sha ->
  same_at (elsewhere root session id sha) w w' /\
  (t_files w' !! rpath root session sha <> t_files w !! rpath root session sha ->
   exists p revocation reconciliation,
     stored (issuance_path root session id) w = Some p /\
     stored (issuance_path root session id) w' = Some (revoke revocation p) /\
     rv_reconciliation revocation = Some reconciliation /\
     rn_request_sha256 reconciliation = sha /\
     rn_replacement_authority_id reconciliation = replacement_id sha).
Proof.
  intros [[-> _]|(request' & Hraw' & Hrun)]%inner_run Hraw Hsha Hne; [done|].
  rewrite Hraw in Hraw'. injection Hraw' as <-.
  apply reconcile_run in Hrun as [[Hs _]|(p & l & s & sha' & Hck & Hels & Hrv & _)].
  { split; [by apply same_same_at|]. intros Hch. by rewrite Hs in Hch. }
  pose proof (ck_sha _ _ _ _ _ _ _ _ _ _ _ Hck) as Hsha'.
  rewrite Hsha in Hsha'. injection Hsha' as <-. split; [done|]. intros Hch.
  destruct (Hrv Hne) as [[_ ?]|(p' & Hp' & v & e & -> & Hv & He)]; [done|].
  exists p, v, e. split_and!; try done; [apply Hck| |];
    match goal with |- ?f e = _ => by change (f e) with (f (with_state "pending" None e)); rewrite He end.
Qed.

(** An authority is reconciled once: after a reconciliation succeeded, one
    that succeeds while the predecessor's record is still there answers the same
    request, names the same replacement and lineage, and reports it was done
    before. *)
Theorem reconcile_once root session id raw target url w receipt w'
    raw' target' url' w1 receipt' w2 :
  reconcile_task_authority root session id raw target url w = (Ok receipt, w') ->
  issuance_path root session id <> rpath root session (rx_request_sha256 receipt) ->
  same_at (fun p => p = issuance_path root session id) w' w1 ->
  reconcile_task_authority root session id raw' target' url' w1 = (Ok receipt', w2) ->
  rx_request_sha256 receipt' = rx_request_sha256 receipt /\
  rx_lineage receipt' = rx_lineage receipt /\ rx_idempotent receipt' = true.
Proof.
  intros [[_ [=]]|(q & _ & Hrun)]%inner_run Hne Hs [[_ [=]]|(q' & _ & Hrun')]%inner_run.
  apply reconcile_run in Hrun as [[_ [=]]|(p & l & s & sha & _ & _ & _ & Hok)].
  apply reconcile_run in Hrun' as [[_ [=]]|(p1 & l1 & s1 & sha1 & Hck1 & _ & _ & Hok1)].
  destruct (Hok _ eq_refl) as (<- & Hl & _ & Hok'). destruct (Hok1 _ eq_refl) as (<- & Hl1 & Hrv & _).
  destruct (Hok' Hne) as (p' & _ & Hp' & (v & e & -> & Hv & Hst & He) & _).
  pose proof (ck_predecessor _ _ _ _ _ _ _ _ _ _ _ Hck1) as Hp1.
  unfold stored in Hp', Hp1. rewrite (Hs _ eq_refl), Hp' in Hp1. injection Hp1 as <-.
  destruct (Hrv v eq_refl) as (e1 & Hv1 & He1 & Hi). rewrite Hv in Hv1. injection Hv1 as <-.
  rewrite He in He1. unfold expected_reconciliation in He1. injection He1 as Hr Hsha Hs1 Hs2 Hs3 _.
  rewrite Hl, Hl1. unfold lineage_of. split_and!; [done| |auto]. congruence.
Qed.
End task.
End TaskReconcileProofs.
