(* ===== verification/Tombstones.v ===== *)
(** * The tombstone ledger of retired confirmations

    The part of [cli/src/native/task_authority.rs] that remembers the ids of
    confirmation receipts that were cleaned up: a manifest with a bounded active
    set, and a hash chain of sealed segments. *)

From S2P Require Import Prelude RustStr Env TaskModel TaskIssue.
From Stdlib Require Import Ascii.
Import TaskModel TaskIssue.

Local Open Scope Z_scope.

Module Tombstones.

Definition CONFIRMATION_TOMBSTONE_SEGMENT_CAPACITY : Z := 256.
Definition legacy_confirmation_tombstone_schema : string :=
  "agent-browser.task-authority-confirmation-tombstones.v1".
Definition confirmation_tombstone_manifest_schema : string :=
  "agent-browser.task-authority-confirmation-tombstone-manifest.v2".
Definition confirmation_tombstone_segment_schema : string :=
  "agent-browser.task-authority-confirmation-tombstone-segment.v1".

(** A [BTreeSet] of ids is its ascending sequence. *)
Record LegacyTombstones := {
  le_schema : string;
  le_confirmation_ids : list string;
  le_updated_at : option string;
}.
Record Manifest := {
  mf_schema : string;
  mf_segment_capacity : Z;
  mf_segment_count : Z;
  mf_confirmation_count : Z;
  mf_head_sha256 : option string;
  mf_active_confirmation_ids : list string;
  mf_active_sha256 : string;
  mf_updated_at : option string;
}.
Record Segment := {
  sg_schema : string;
  sg_index : Z;
  sg_previous_sha256 : option string;
  sg_confirmation_ids : list string;
  sg_created_at : string;
}.
Record LoadedTombstones := {
  lt_manifest : Manifest;
  lt_confirmation_ids : list string;
  lt_legacy : bool;
}.

Definition usize_len {A} (l : list A) : Z := Z.of_nat (length l).

(** [{index:020}] of a [u64] *)
Fixpoint digits (n : nat) (z : Z) : list ascii :=
  match n with
  | O => []
  | S n => digits n (z / 10) ++ [ascii_of_N (Z.to_N (48 + z mod 10))]
  end.
Definition pad20 (z : Z) : string := of_bytes (digits 20 z).

Definition confirmation_root (root session_id : string) : string :=
  fmt [session_directory root session_id; "/confirmations"].
Definition confirmation_tombstones_path (root session_id : string) : string :=
  fmt [confirmation_root root session_id; "/retired-ids.json"].
Definition segment_directory (root session_id : string) : string :=
  fmt [confirmation_root root session_id; "/retired-id-segments"].
Definition confirmation_tombstone_segment_path (root session_id : string) (index : Z) : string :=
  fmt [segment_directory root session_id; "/"; fmt [pad20 index; ".json"]].

#[global] Arguments pad20 : simpl never.
#[global] Arguments confirmation_tombstone_segment_path : simpl never.
#[global] Arguments confirmation_tombstones_path : simpl never.

Section tombstones.
Context `{!Host, !Json, !JsonBuild, !Crypto, !Chrono, !Serde value, !Serde (list string),
          !Serde Manifest, !Serde Segment, !SerdeValue LegacyTombstones, !SerdeValue Manifest}.

Definition confirmation_tombstone_segment_sha256 (segment : Segment) : res string :=
  bytes ← ok_or "Failed to serialize confirmation tombstone segment"%string (to_vec segment);
  Ok (hex_encode (sha256 bytes)).
Definition confirmation_tombstone_active_sha256 (confirmation_ids : list string) : res string :=
  bytes ← ok_or "Failed to serialize active confirmation tombstones"%string
    (to_vec confirmation_ids);
  Ok (hex_encode (sha256 bytes)).

(** [Manifest::default()]; [b"[]"] is the empty array. *)
Definition default_manifest : Manifest :=
  {| mf_schema := confirmation_tombstone_manifest_schema;
     mf_segment_capacity := CONFIRMATION_TOMBSTONE_SEGMENT_CAPACITY; mf_segment_count := 0;
     mf_confirmation_count := 0; mf_head_sha256 := None; mf_active_confirmation_ids := [];
     mf_active_sha256 := hex_encode (sha256 "[]"); mf_updated_at := None |}.

(** ** Loading *)

(** [set.insert(id)] of each id, refused when blank or present. *)
Fixpoint insert_ids (error : string) (ids new : list string) : res (list string) :=
  match new with
  | [] => Ok ids
  | id :: rest =>
      if is_empty (trim id) || one_of id ids then Err error
      else insert_ids error (btree_insert id ids) rest
  end.

Definition check_segment (capacity index : Z) (previous_sha256 : option string)
    (segment : Segment) : res unit :=
  if (sg_schema segment != confirmation_tombstone_segment_schema)
     || negb (sg_index segment =? index) || (sg_previous_sha256 segment != previous_sha256)
     || match sg_confirmation_ids segment with [] => true | _ => false end
     || (capacity <? usize_len (sg_confirmation_ids segment))
  then Err (fmt ["Task authority confirmation tombstone segment "; decimal index;
                 " failed closed"]) else Ok tt.

(** The loop over [remaining] segments from [index] on. *)
Fixpoint load_segments (root session_id : string) (capacity : Z) (remaining : nat) (index : Z)
    (confirmation_ids : list string) (previous_sha256 : option string)
    : SM Files (list string * option string) :=
  match remaining with
  | O => mret (confirmation_ids, previous_sha256)
  | S remaining =>
      text ← read_to_string (confirmation_tombstone_segment_path root session_id index)
        (fmt ["Failed to read confirmation tombstone segment "; decimal index]);
      segment ← sm_lift (ok_or (fmt ["Invalid confirmation tombstone segment "; decimal index])
        (from_slice text));
      sm_lift (check_segment capacity index previous_sha256 segment) ≫= fun _ =>
      confirmation_ids ← sm_lift (insert_ids
        (fmt ["Task authority confirmation tombstone segment "; decimal index;
              " contains invalid or duplicate IDs"]) confirmation_ids (sg_confirmation_ids segment));
      hash ← sm_lift (confirmation_tombstone_segment_sha256 segment);
      load_segments root session_id capacity remaining (index + 1) confirmation_ids (Some hash)
  end.

Definition check_manifest (manifest : Manifest) : res unit :=
  if (mf_schema manifest != confirmation_tombstone_manifest_schema)
     || negb (mf_segment_capacity manifest =? CONFIRMATION_TOMBSTONE_SEGMENT_CAPACITY)
     || (mf_segment_capacity manifest <? usize_len (mf_active_confirmation_ids manifest))
  then Err "Task authority confirmation tombstone ledger is invalid"%string else
  active ← confirmation_tombstone_active_sha256 (mf_active_confirmation_ids manifest);
  if mf_active_sha256 manifest != active
  then Err "Task authority confirmation tombstone ledger is invalid"%string else Ok tt.

Definition load_manifest (root session_id : string) (manifest : Manifest)
    : SM Files LoadedTombstones :=
  sm_lift (check_manifest manifest) ≫= fun _ =>
  sealed ← load_segments root session_id (mf_segment_capacity manifest)
    (Z.to_nat (mf_segment_count manifest)) 0 [] None;
  let '(confirmation_ids, previous_sha256) := sealed in
  if mf_head_sha256 manifest != previous_sha256
  then sm_err "Task authority confirmation tombstone head digest is invalid" else
  confirmation_ids ← sm_lift (insert_ids
    "Task authority confirmation tombstone manifest contains invalid or duplicate IDs"
    confirmation_ids (mf_active_confirmation_ids manifest));
  if negb (usize_len confirmation_ids =? mf_confirmation_count manifest)
  then sm_err "Task authority confirmation tombstone count is invalid" else
  mret {| lt_manifest := manifest; lt_confirmation_ids := confirmation_ids; lt_legacy := false |}.

Definition parse_legacy (v : value) : res LegacyTombstones :=
  match from_value v with
  | Ok legacy => Ok legacy
  | Err error => Err (fmt ["Invalid legacy confirmation tombstones: "; error])
  end.
Definition parse_manifest (v : value) : res Manifest :=
  match from_value v with
  | Ok manifest => Ok manifest
  | Err error => Err (fmt ["Invalid confirmation tombstone manifest: "; error])
  end.

Definition load_confirmation_tombstones (root session_id : string) : SM Files LoadedTombstones :=
  let path := confirmation_tombstones_path root session_id in
  present ← exists_ path;
  if negb present
  then mret {| lt_manifest := default_manifest; lt_confirmation_ids := []; lt_legacy := false |} else
  text ← read_to_string path "Failed to read task authority confirmation tombstones";
  v ← sm_lift (ok_or "Invalid task authority confirmation tombstones"%string (from_slice text));
  if get_str v "schema" == Some legacy_confirmation_tombstone_schema then
    legacy ← sm_lift (parse_legacy v);
    mret {| lt_manifest := default_manifest; lt_confirmation_ids := le_confirmation_ids legacy;
            lt_legacy := true |}
  else
    manifest ← sm_lift (parse_manifest v);
    load_manifest root session_id manifest.

(** ** Evidence *)

Definition json_option (o : option string) : value :=
  match o with Some s => jstring s | None => jnull end.

Definition confirmation_tombstone_evidence (t : LoadedTombstones) : res value :=
  let active := if lt_legacy t then lt_confirmation_ids t
                else mf_active_confirmation_ids (lt_manifest t) in
  active_sha256 ← confirmation_tombstone_active_sha256 active;
  Ok (jobject
    [("schema", jstring (if lt_legacy t then legacy_confirmation_tombstone_schema
                         else mf_schema (lt_manifest t)));
     ("integrityState", jstring "verified"); ("legacyPendingMigration", jbool (lt_legacy t));
     ("segmentCapacity", jnumber (mf_segment_capacity (lt_manifest t)));
     ("segmentCount", jnumber (mf_segment_count (lt_manifest t)));
     ("activeCount", jnumber (usize_len active)); ("activeSha256", jstring active_sha256);
     ("confirmationCount", jnumber (usize_len (lt_confirmation_ids t)));
     ("headSha256", json_option (mf_head_sha256 (lt_manifest t)))]%string).

(** ** Persisting *)

Definition with_active (active : list string) (m : Manifest) : Manifest :=
  {| mf_schema := mf_schema m; mf_segment_capacity := mf_segment_capacity m;
     mf_segment_count := mf_segment_count m; mf_confirmation_count := mf_confirmation_count m;
     mf_head_sha256 := mf_head_sha256 m; mf_active_confirmation_ids := active;
     mf_active_sha256 := mf_active_sha256 m; mf_updated_at := mf_updated_at m |}.

(** The manifest a load is extended from. *)
Definition migrated (loaded : LoadedTombstones) : Manifest :=
  if lt_legacy loaded then with_active (lt_confirmation_ids loaded) default_manifest
  else lt_manifest loaded.

(** The loop over the new ids: every id, and the active ones. *)
Fixpoint retire_ids (ids active new : list string) : res (list string * list string) :=
  match new with
  | [] => Ok (ids, active)
  | id :: rest =>
      if is_empty (trim id) || one_of id ids
      then Err "Task authority confirmation tombstone ID is invalid or repeated"%string
      else retire_ids (btree_insert id ids) (btree_insert id active) rest
  end.

(** The manifest after a segment of its first [capacity] ids was written. *)
Definition sealed (segment_count : Z) (segment_sha256 : string) (m : Manifest) : Manifest :=
  {| mf_schema := mf_schema m; mf_segment_capacity := mf_segment_capacity m;
     mf_segment_count := segment_count; mf_confirmation_count := mf_confirmation_count m;
     mf_head_sha256 := Some segment_sha256;
     mf_active_confirmation_ids :=
       drop (Z.to_nat (mf_segment_capacity m)) (mf_active_confirmation_ids m);
     mf_active_sha256 := mf_active_sha256 m; mf_updated_at := mf_updated_at m |}.

(** The [while] loop that seals full segments: every pass takes [capacity] ids
    from the active ones, of which there are at most [fuel]. *)
Fixpoint seal_segments (root session_id : string) (fuel : nat) (m : Manifest) : SM Files Manifest :=
  if usize_len (mf_active_confirmation_ids m) <=? mf_segment_capacity m then mret m else
  match fuel with
  | O => mret m
  | S fuel =>
      let capacity := Z.to_nat (mf_segment_capacity m) in
      created_at ← now;
      let segment := {| sg_schema := confirmation_tombstone_segment_schema;
                        sg_index := mf_segment_count m; sg_previous_sha256 := mf_head_sha256 m;
                        sg_confirmation_ids := take capacity (mf_active_confirmation_ids m);
                        sg_created_at := to_rfc3339 created_at |} in
      segment_sha256 ← sm_lift (confirmation_tombstone_segment_sha256 segment);
      write_private_json (segment_directory root session_id)
        (fmt [pad20 (sg_index segment); ".json"]) segment
        "task authority confirmation tombstone segment" ≫= fun _ =>
      segment_count ← sm_lift (ok_or
        "Task authority confirmation tombstone segment count overflow"%string
        (u64_checked_add (mf_segment_count m) 1));
      seal_segments root session_id fuel
        (sealed segment_count segment_sha256 m)
  end.

Definition finished (confirmation_count : Z) (active_sha256 updated_at : string) (m : Manifest)
    : Manifest :=
  {| mf_schema := mf_schema m; mf_segment_capacity := mf_segment_capacity m;
     mf_segment_count := mf_segment_count m; mf_confirmation_count := confirmation_count;
     mf_head_sha256 := mf_head_sha256 m;
     mf_active_confirmation_ids := mf_active_confirmation_ids m;
     mf_active_sha256 := active_sha256; mf_updated_at := Some updated_at |}.

Definition persist_confirmation_tombstones (root session_id : string) (loaded : LoadedTombstones)
    (new_confirmation_ids : list string) : SM Files LoadedTombstones :=
  retired ← sm_lift (retire_ids (lt_confirmation_ids loaded)
    (mf_active_confirmation_ids (migrated loaded)) new_confirmation_ids);
  let '(confirmation_ids, active) := retired in
  manifest ← seal_segments root session_id (length active) (with_active active (migrated loaded));
  active_sha256 ← sm_lift (confirmation_tombstone_active_sha256
    (mf_active_confirmation_ids manifest));
  updated_at ← now;
  write_private_json (confirmation_root root session_id) "retired-ids.json"
    (finished (usize_len confirmation_ids) active_sha256 (to_rfc3339 updated_at) manifest)
    "task authority confirmation tombstone manifest" ≫= fun _ =>
  load_confirmation_tombstones root session_id.
End tombstones.

End Tombstones.
