(* ===== verification/TaskConfirm.v ===== *)
(** * Durable confirmations of task-authority controls

    Staging, deciding, finalizing, listing and cleaning up the two-phase
    confirmations of [cli/src/native/task_authority.rs]. One confirmation may be
    pending in a session; its decision is committed as a terminal receipt before
    it is dispatched. *)

From S2P Require Import Prelude RustStr Env TaskModel TaskIssue Tombstones.
From Stdlib Require Import Ascii.
From stdpp Require Import sorting.
Import TaskModel TaskIssue Tombstones.

Local Open Scope Z_scope.

Module TaskConfirm.

Definition TASK_AUTHORITY_CONFIRMATION_SCHEMA : string :=
  "agent-browser.task-authority-confirmation.v1".

Section data.
Context `{!Json}.

Record TaskAuthorityConfirmationRecord := {
  cf_schema : string;
  cf_confirmation_id : string;
  cf_session_id : string;
  cf_action : string;
  cf_consequence_class : string;
  (** [target_binding] *)
  cf_target_id : string;
  cf_url : string;
  cf_request_sha256 : string;
  cf_requested_by : TaskAuthorityIssuer;
  cf_requested_at : string;
  cf_expires_at : string;
  cf_state : string;
  cf_execution_state : string;
  cf_decided_by : option TaskAuthorityIssuer;
  cf_decided_at : option string;
  cf_decision : option string;
  cf_invalidation_reason : option string;
  cf_result_sha256 : option string;
  cf_result_success : option bool;
  cf_completed_at : option string;
  cf_command : value;
}.

#[export] Instance confirmation_eq_dec : EqDecision TaskAuthorityConfirmationRecord.
Proof. solve_decision. Defined.

Record StageTaskAuthorityConfirmation := {
  st_confirmation_id : string;
  st_action : string;
  st_consequence_class : string;
  st_command : value;
  st_target_id : string;
  st_url : string;
  st_ttl_seconds : Z;
}.

Record DecideTaskAuthorityConfirmation := {
  dc_confirmation_id : string;
  dc_expected_action : string;
  dc_decision : string;
  dc_decided_by : TaskAuthorityIssuer;
  dc_target_id : option string;
  dc_url : option string;
}.

Record CleanupTaskAuthorityConfirmations := {
  cl_retain_count : Z;
  cl_min_age_seconds : Z;
  cl_requested_by : TaskAuthorityIssuer;
  cl_apply : bool;
  cl_review_sha256 : option string;
}.

(** The assignments to [record.state] and its neighbours. *)
Definition set_outcome_fields (state execution_state : string) (invalidation_reason : option string)
    (r : TaskAuthorityConfirmationRecord) : TaskAuthorityConfirmationRecord :=
  {| cf_schema := cf_schema r; cf_confirmation_id := cf_confirmation_id r;
     cf_session_id := cf_session_id r; cf_action := cf_action r;
     cf_consequence_class := cf_consequence_class r; cf_target_id := cf_target_id r;
     cf_url := cf_url r; cf_request_sha256 := cf_request_sha256 r;
     cf_requested_by := cf_requested_by r; cf_requested_at := cf_requested_at r;
     cf_expires_at := cf_expires_at r; cf_state := state; cf_execution_state := execution_state;
     cf_decided_by := cf_decided_by r; cf_decided_at := cf_decided_at r;
     cf_decision := cf_decision r; cf_invalidation_reason := invalidation_reason;
     cf_result_sha256 := cf_result_sha256 r; cf_result_success := cf_result_success r;
     cf_completed_at := cf_completed_at r; cf_command := cf_command r |}.

Definition set_decision (decision : string) (decided_by : TaskAuthorityIssuer)
    (decided_at : string) (r : TaskAuthorityConfirmationRecord) : TaskAuthorityConfirmationRecord :=
  {| cf_schema := cf_schema r; cf_confirmation_id := cf_confirmation_id r;
     cf_session_id := cf_session_id r; cf_action := cf_action r;
     cf_consequence_class := cf_consequence_class r; cf_target_id := cf_target_id r;
     cf_url := cf_url r; cf_request_sha256 := cf_request_sha256 r;
     cf_requested_by := cf_requested_by r; cf_requested_at := cf_requested_at r;
     cf_expires_at := cf_expires_at r;
     cf_state := if decision == "confirm" then "confirmed" else "denied";
     cf_execution_state := if decision == "confirm" then "dispatched" else "not_dispatched";
     cf_decided_by := Some decided_by; cf_decided_at := Some decided_at;
     cf_decision := Some decision; cf_invalidation_reason := cf_invalidation_reason r;
     cf_result_sha256 := cf_result_sha256 r; cf_result_success := cf_result_success r;
     cf_completed_at := cf_completed_at r; cf_command := cf_command r |}%string.

Definition set_result (result_sha256 : string) (result_success : option bool)
    (completed_at : string) (r : TaskAuthorityConfirmationRecord) : TaskAuthorityConfirmationRecord :=
  {| cf_schema := cf_schema r; cf_confirmation_id := cf_confirmation_id r;
     cf_session_id := cf_session_id r; cf_action := cf_action r;
     cf_consequence_class := cf_consequence_class r; cf_target_id := cf_target_id r;
     cf_url := cf_url r; cf_request_sha256 := cf_request_sha256 r;
     cf_requested_by := cf_requested_by r; cf_requested_at := cf_requested_at r;
     cf_expires_at := cf_expires_at r; cf_state := cf_state r;
     cf_execution_state := if result_success == Some true then "completed" else "failed";
     cf_decided_by := cf_decided_by r; cf_decided_at := cf_decided_at r;
     cf_decision := cf_decision r; cf_invalidation_reason := cf_invalidation_reason r;
     cf_result_sha256 := Some result_sha256; cf_result_success := result_success;
     cf_completed_at := Some completed_at; cf_command := cf_command r |}%string.

(** The [json!] receipts: the fields of the record but its command, with the
    projected state. *)
Record ConfirmationReceipt := {
  pc_record : TaskAuthorityConfirmationRecord;
  pc_state : string;
  pc_execution_state : string;
}.

Record CleanupReceipt := {
  cr_apply : bool;
  cr_review_sha256 : string;
  cr_tombstone_ledger : value;
  cr_pending_preserved : bool;
  cr_indeterminate_preserved_count : Z;
  cr_terminal_receipt_count : Z;
  cr_candidates : list value;
  cr_removed_confirmation_ids : list string;
}.
End data.

(** ** Paths *)

Definition pending_confirmation_path (root session_id : string) : string :=
  fmt [confirmation_root root session_id; "/"; "pending.json"].
Definition receipts_directory (root session_id : string) : string :=
  fmt [confirmation_root root session_id; "/receipts"].
Definition receipt_name (confirmation_id : string) : string :=
  fmt [safe_component confirmation_id; ".json"].
Definition terminal_confirmation_path (root session_id confirmation_id : string) : string :=
  fmt [receipts_directory root session_id; "/"; receipt_name confirmation_id].

Definition control_actions : list string :=
  ["task_authority_issue"; "task_authority_reconcile"; "task_authority_revoke"].

Section confirm.
Context `{!Host, !Json, !JsonBuild, !Crypto, !Chrono, !Serde value, !Serde (list string),
          !Serde Manifest, !Serde Segment, !Serde TaskAuthorityConfirmationRecord,
          !SerdeValue LegacyTombstones, !SerdeValue Manifest, !SerdeValue TaskAuthorityIssuer}.

(** ** Records *)

Definition confirmation_request_sha256 (command : value) : res string :=
  bytes ← ok_or "Failed to serialize task authority confirmation"%string (to_vec command);
  Ok (hex_encode (sha256 bytes)).

Definition task_authority_confirmation_requester (action : string) (command : value)
    : res TaskAuthorityIssuer :=
  if action == "task_authority_revoke"%string then
    match get_str command "revokedBy" with
    | Some id =>
        if is_empty (trim id)
        then Err "Task authority revoke confirmation requires revokedBy"%string
        else Ok {| is_kind := "operator"; is_id := id |}
    | None => Err "Task authority revoke confirmation requires revokedBy"%string
    end
  else
    issuer ← ok_or "Task authority confirmation request requires issuer"%string
      (request ← jget command "request"; jget request "issuer");
    match from_value issuer with
    | Ok issuer => Ok issuer
    | Err error => Err (fmt ["Invalid task authority confirmation issuer: "; error])
    end.

Definition validate_confirmation_record (record : TaskAuthorityConfirmationRecord)
    (session_id : string) : res unit :=
  if (cf_schema record != TASK_AUTHORITY_CONFIRMATION_SCHEMA)
     || (cf_session_id record != session_id) || negb (one_of (cf_action record) control_actions)
     || (get_str (cf_command record) "action" != Some (cf_action record))
     || negb (zlen (cf_request_sha256 record) =? 64)
     || negb (bytes_all is_ascii_hexdigit (cf_request_sha256 record))
  then Err "Task authority confirmation record is invalid"%string else
  hash ← confirmation_request_sha256 (cf_command record);
  if (hash != cf_request_sha256 record) || is_empty (trim (cf_confirmation_id record))
     || is_empty (trim (cf_target_id record)) || is_empty (trim (cf_url record))
     || negb (is_ok (parse_from_rfc3339 (cf_requested_at record)))
     || negb (is_ok (parse_from_rfc3339 (cf_expires_at record)))
  then Err "Task authority confirmation record is invalid"%string else Ok tt.

Definition read_confirmation_record (path session_id : string)
    : SM Files (option TaskAuthorityConfirmationRecord) :=
  o ← read_json path "task authority confirmation";
  match o with
  | None => mret None
  | Some record =>
      sm_lift (validate_confirmation_record record session_id) ≫= fun _ => mret (Some record)
  end.

Definition archive_confirmation (root : string) (record : TaskAuthorityConfirmationRecord)
    : SM Files unit :=
  let session_id := cf_session_id record in
  o ← read_confirmation_record
        (terminal_confirmation_path root session_id (cf_confirmation_id record)) session_id;
  match o with
  | Some existing =>
      if existing == record then mret tt
      else sm_err "Task authority confirmation already has a different decision receipt"
  | None =>
      write_private_json (receipts_directory root session_id)
        (receipt_name (cf_confirmation_id record)) record "task authority confirmation receipt"
  end.

Definition remove_pending_confirmation (root session_id : string) : SM Files unit :=
  present ← exists_ (pending_confirmation_path root session_id);
  if present : bool then
    remove_file (pending_confirmation_path root session_id)
      "Failed to consume task authority confirmation"
  else mret tt.

Definition expire_pending_confirmation (root : string) (record : TaskAuthorityConfirmationRecord)
    : SM Files unit :=
  let record := set_outcome_fields "expired" "not_dispatched"
    (Some "confirmation expired before decision"%string) record in
  archive_confirmation root record ≫= fun _ =>
  remove_pending_confirmation root (cf_session_id record).

Definition confirmation_expiry (record : TaskAuthorityConfirmationRecord) : res Z :=
  match parse_from_rfc3339 (cf_expires_at record) with
  | Ok t => Ok t
  | Err error => Err (fmt ["Invalid task authority confirmation expiry: "; error])
  end.

(** The result of [DateTime] arithmetic, which panics when it is out of range;
    a panic ends the operation where it is, as an error does. *)
Definition instant (t : Z) : res Z :=
  if representable t then Ok t else Err "`DateTime` overflowed"%string.

(** ** Staging *)

Definition i64_max : Z := 9223372036854775807.

(** Whether a confirmation id has been used: its receipt, or its tombstone. *)
Definition already_terminal (root session_id confirmation_id : string) : SM Files bool :=
  present ← exists_ (terminal_confirmation_path root session_id confirmation_id);
  if present : bool then mret true else
  tombstones ← load_confirmation_tombstones root session_id;
  mret (one_of confirmation_id (lt_confirmation_ids tombstones)).

(** The pending confirmation makes room only when it expired. *)
Definition make_room (root session_id : string) : SM Files unit :=
  o ← read_confirmation_record (pending_confirmation_path root session_id) session_id;
  match o with
  | None => mret tt
  | Some existing =>
      expires_at ← sm_lift (confirmation_expiry existing);
      at_ ← now;
      if at_ <? expires_at
      then sm_err (fmt ["Confirmation '"; cf_confirmation_id existing; "' for action '";
                        cf_action existing; "' is still pending"])
      else expire_pending_confirmation root existing
  end.

Definition staged_record (session_id : string) (input : StageTaskAuthorityConfirmation)
    (request_sha256 : string) (requested_by : TaskAuthorityIssuer) (requested_at expires_at : Z)
    : TaskAuthorityConfirmationRecord :=
  {| cf_schema := TASK_AUTHORITY_CONFIRMATION_SCHEMA;
     cf_confirmation_id := st_confirmation_id input; cf_session_id := session_id;
     cf_action := st_action input; cf_consequence_class := st_consequence_class input;
     cf_target_id := st_target_id input; cf_url := st_url input;
     cf_request_sha256 := request_sha256; cf_requested_by := requested_by;
     cf_requested_at := to_rfc3339 requested_at;
     cf_expires_at := to_rfc3339 expires_at;
     cf_state := "pending"; cf_execution_state := "not_dispatched"; cf_decided_by := None;
     cf_decided_at := None; cf_decision := None; cf_invalidation_reason := None;
     cf_result_sha256 := None; cf_result_success := None; cf_completed_at := None;
     cf_command := st_command input |}.

Definition stage_task_authority_confirmation (root session_id : string)
    (input : StageTaskAuthorityConfirmation) : SM Files TaskAuthorityConfirmationRecord :=
  if negb (one_of (st_action input) control_actions) || (st_ttl_seconds input =? 0)
  then sm_err "Only bounded task authority control confirmations are durable" else
  used ← already_terminal root session_id (st_confirmation_id input);
  if used : bool
  then sm_err "Task authority confirmation ID already has a terminal receipt" else
  make_room root session_id ≫= fun _ =>
  requested_at ← now;
  if i64_max <? st_ttl_seconds input then sm_err "Confirmation TTL overflow" else
  expires_at ← sm_lift (instant (requested_at + seconds (st_ttl_seconds input)));
  request_sha256 ← sm_lift (confirmation_request_sha256 (st_command input));
  requested_by ← sm_lift (task_authority_confirmation_requester (st_action input)
                            (st_command input));
  let record := staged_record session_id input request_sha256 requested_by requested_at expires_at in
  sm_lift (validate_confirmation_record record session_id) ≫= fun _ =>
  write_private_json (confirmation_root root session_id) "pending.json" record
    "task authority pending confirmation" ≫= fun _ =>
  mret record.

(** ** The pending confirmation *)

Definition load_task_authority_pending_confirmation (root session_id : string)
    : SM Files (option TaskAuthorityConfirmationRecord) :=
  o ← read_confirmation_record (pending_confirmation_path root session_id) session_id;
  match o with
  | None => mret None
  | Some record =>
      present ← exists_ (terminal_confirmation_path root session_id (cf_confirmation_id record));
      if present : bool
      then remove_pending_confirmation root session_id ≫= fun _ => mret None
      else mret (Some record)
  end.

Definition active_task_authority_pending_confirmation (root session_id : string)
    : SM Files (option TaskAuthorityConfirmationRecord) :=
  o ← load_task_authority_pending_confirmation root session_id;
  match o with
  | None => mret None
  | Some record =>
      expires_at ← sm_lift (confirmation_expiry record);
      at_ ← now;
      if expires_at <=? at_
      then expire_pending_confirmation root record ≫= fun _ => mret None
      else mret (Some record)
  end.

(** ** Deciding *)

Definition valid_actor (actor : TaskAuthorityIssuer) : bool :=
  negb (is_empty (trim (is_id actor))) && one_of (is_kind actor) ["operator"; "service"]%string.

(** Why a decision does not match the pending record, if it does not. *)
Definition decision_mismatch (record : TaskAuthorityConfirmationRecord)
    (input : DecideTaskAuthorityConfirmation) (expired : bool) : res (option string) :=
  let confirms := dc_decision input == "confirm"%string in
  if expired then Ok (Some "confirmation expired before decision") else
  if cf_confirmation_id record != dc_confirmation_id input
  then Ok (Some "confirmation ID mismatch") else
  if cf_action record != dc_expected_action input
  then Ok (Some "confirmation action mismatch") else
  if cf_requested_by record != dc_decided_by input
  then Ok (Some "confirmation decision actor mismatch") else
  if confirms && (cf_target_id record != match dc_target_id input with Some t => t | None => "" end)
  then Ok (Some "confirmation target changed before decision") else
  if confirms && (cf_url record != match dc_url input with Some u => u | None => "" end)
  then Ok (Some "confirmation URL changed before decision") else
  hash ← confirmation_request_sha256 (cf_command record);
  Ok (if hash != cf_request_sha256 record
      then Some "confirmation request digest changed before decision" else None)%string.

Definition decide_task_authority_confirmation (root session_id : string)
    (input : DecideTaskAuthorityConfirmation) : SM Files TaskAuthorityConfirmationRecord :=
  if negb (one_of (dc_decision input) ["confirm"; "deny"]%string)
     || negb (valid_actor (dc_decided_by input))
  then sm_err "Task authority confirmation requires a valid decision actor" else
  o ← load_task_authority_pending_confirmation root session_id;
  record ← sm_lift (ok_or "No pending task authority confirmation"%string o);
  expires_at ← sm_lift (confirmation_expiry record);
  at_ ← now;
  mismatch ← sm_lift (decision_mismatch record input (expires_at <=? at_));
  match mismatch with
  | Some reason =>
      let record := set_outcome_fields
        (if starts_with "confirmation expired" reason then "expired" else "invalidated")
        (cf_execution_state record) (Some reason) record in
      archive_confirmation root record ≫= fun _ =>
      remove_pending_confirmation root session_id ≫= fun _ =>
      sm_err (fmt ["Task authority confirmation failed closed: "; reason])
  | None =>
      decided_at ← now;
      let record := set_decision (dc_decision input) (dc_decided_by input) (to_rfc3339 decided_at)
        record in
      archive_confirmation root record ≫= fun _ =>
      remove_pending_confirmation root session_id ≫= fun _ =>
      mret record
  end.

(** ** Finalizing *)

Definition finalize_task_authority_confirmation (root : string)
    (record : TaskAuthorityConfirmationRecord) (result : value) : SM Files unit :=
  let session_id := cf_session_id record in
  o ← read_confirmation_record
        (terminal_confirmation_path root session_id (cf_confirmation_id record)) session_id;
  existing ← sm_lift (ok_or
    "Task authority confirmation decision receipt disappeared before finalization"%string o);
  if existing != record
  then sm_err "Task authority confirmation decision receipt changed before finalization" else
  bytes ← sm_lift (ok_or "Failed to serialize confirmation result"%string (to_vec result));
  completed_at ← now;
  let completed := set_result (hex_encode (sha256 bytes))
    (v ← jget result "success"; as_bool v) (to_rfc3339 completed_at) record in
  write_private_json (receipts_directory root session_id)
    (receipt_name (cf_confirmation_id record)) completed "task authority confirmation receipt".

(** ** Listing *)

Definition confirmation_receipt_is_indeterminate (record : TaskAuthorityConfirmationRecord) : bool :=
  (cf_state record == "confirmed"%string) && (cf_execution_state record == "dispatched"%string).

Definition confirmation_public_receipt (record : TaskAuthorityConfirmationRecord)
    : SM Files ConfirmationReceipt :=
  effectively_expired ← (if cf_state record == "pending"%string then
      match parse_from_rfc3339 (cf_expires_at record) with
      | Ok expires_at => at_ ← now; mret (expires_at <=? at_)
      | Err _ => mret true
      end
    else mret false);
  mret {| pc_record := record;
          pc_state := if effectively_expired : bool then "expired" else cf_state record;
          pc_execution_state := if confirmation_receipt_is_indeterminate record
                                then "indeterminate" else cf_execution_state record |}%string.

Definition has_json_extension (name : string) : bool :=
  ends_with ".json" name && (name != ".json"%string).

(** The loop over the entries of the receipts directory, with what it does to
    the record of each. *)
Section receipts.
Context {B : Type} (f : string -> TaskAuthorityConfirmationRecord -> SM Files (list B)).

Fixpoint read_receipts (directory session_id : string) (names : list string)
    : SM Files (list B) :=
  match names with
  | [] => mret []
  | name :: rest =>
      sys "Failed to inspect task authority confirmation" ≫= fun _ =>
      if negb (has_json_extension name) then read_receipts directory session_id rest else
      let path := fmt [directory; "/"; name] in
      o ← read_confirmation_record path session_id;
      these ← (match o with Some record => f path record | None => mret [] end);
      others ← read_receipts directory session_id rest;
      mret (these ++ others)
  end.

Definition list_receipts (root session_id : string) : SM Files (list B) :=
  let directory := receipts_directory root session_id in
  present ← directory_exists directory;
  if negb present then mret [] else
  names ← read_dir directory "Failed to list task authority confirmations";
  read_receipts directory session_id names.
End receipts.

Definition requested_before (a b : ConfirmationReceipt) : Prop :=
  let x := pc_record a in let y := pc_record b in
  cf_requested_at x <> cf_requested_at y /\ str_le (cf_requested_at x) (cf_requested_at y) \/
  cf_requested_at x = cf_requested_at y /\ str_le (cf_confirmation_id x) (cf_confirmation_id y).
#[local] Instance requested_before_dec a b : Decision (requested_before a b).
Proof. unfold requested_before. apply _. Defined.

Definition task_authority_confirmation_status (root session_id : string)
    : SM Files (list ConfirmationReceipt) :=
  pending ← load_task_authority_pending_confirmation root session_id;
  first ← (match pending with
           | Some p => receipt ← confirmation_public_receipt p; mret [receipt]
           | None => mret []
           end);
  others ← list_receipts
    (fun _ record => receipt ← confirmation_public_receipt record; mret [receipt]) root session_id;
  mret (merge_sort requested_before (first ++ others)).

(** ** Cleaning up *)

Definition confirmation_receipt_age_anchor (record : TaskAuthorityConfirmationRecord) : res Z :=
  let text := match cf_completed_at record, cf_decided_at record with
              | Some t, _ => t
              | None, Some t => t
              | None, None => cf_requested_at record
              end in
  match parse_from_rfc3339 text with
  | Ok t => Ok t
  | Err error => Err (fmt ["Invalid task authority confirmation timestamp: "; error])
  end.

(** A receipt that may be retired: its age anchor, path and record. *)
Definition SafeRecord : Type := Z * string * TaskAuthorityConfirmationRecord.

(** What the cleanup makes of a receipt: [None] counts an indeterminate one. *)
Definition classify_receipt (path : string) (record : TaskAuthorityConfirmationRecord)
    : SM Files (list (option SafeRecord)) :=
  if confirmation_receipt_is_indeterminate record then mret [None]
  else if cf_state record != "pending"%string then
    anchor ← sm_lift (confirmation_receipt_age_anchor record);
    mret [Some (anchor, path, record)]
  else mret [].

Definition older (a b : SafeRecord) : Prop :=
  a.1.1 < b.1.1 \/
  a.1.1 = b.1.1 /\ str_le (cf_confirmation_id a.2) (cf_confirmation_id b.2).
#[local] Instance older_dec a b : Decision (older a b).
Proof. unfold older. apply _. Defined.

(** A candidate: its path, id and evidence. *)
Definition candidate (r : SafeRecord) : res (string * string * value) :=
  let '(_, path, record) := r in
  receipt_bytes ← ok_or "Failed to serialize confirmation receipt"%string (to_vec record);
  Ok (path, cf_confirmation_id record, jobject
    [("confirmationId", jstring (cf_confirmation_id record)); ("state", jstring (cf_state record));
     ("executionState", jstring (cf_execution_state record));
     ("requestedAt", jstring (cf_requested_at record));
     ("receiptSha256", jstring (hex_encode (sha256 receipt_bytes)))]%string).

Definition review_digest (session_id : string) (input : CleanupTaskAuthorityConfirmations)
    (tombstone_evidence : value) (candidate_evidence : list value) : res string :=
  requested_by ← to_value (cl_requested_by input);
  bytes ← ok_or "Failed to serialize confirmation cleanup review"%string
    (to_vec (jobject
      [("schema", jstring "agent-browser.task-authority-confirmation-cleanup-review.v1");
       ("sessionId", jstring session_id); ("retainCount", jnumber (cl_retain_count input));
       ("minAgeSeconds", jnumber (cl_min_age_seconds input)); ("requestedBy", requested_by);
       ("tombstoneLedger", tombstone_evidence);
       ("candidates", jarray candidate_evidence)]%string));
  Ok (hex_encode (sha256 bytes)).

Definition remove_receipt (path : string) : SM Files unit :=
  present ← exists_ path;
  if present : bool then remove_file path "Failed to remove retired confirmation receipt"
  else mret tt.

(** The writes of an applied cleanup: tombstones first, then the receipts. *)
Definition retire (root session_id : string) (tombstones : LoadedTombstones)
    (candidates : list (string * string * value)) : SM Files (LoadedTombstones * list string) :=
  let ids := map (fun c => c.1.2) candidates in
  final_tombstones ← persist_confirmation_tombstones root session_id tombstones ids;
  sm_iter (fun c => remove_receipt c.1.1) candidates ≫= fun _ =>
  mret (final_tombstones, ids).

Definition cleanup_task_authority_confirmations (root session_id : string)
    (input : CleanupTaskAuthorityConfirmations) : SM Files CleanupReceipt :=
  if negb (valid_actor (cl_requested_by input))
  then sm_err "Task authority confirmation cleanup requires a transport principal" else
  at_ ← now;
  if i64_max <? cl_min_age_seconds input then sm_err "Confirmation retention age overflow" else
  cutoff ← sm_lift (instant (at_ - seconds (cl_min_age_seconds input)));
  found ← list_receipts classify_receipt root session_id;
  let indeterminate_count := usize_len found - usize_len (omap id found) in
  let safe := merge_sort older (omap id found) in
  let removable_count := u64_saturating_sub (usize_len safe) (cl_retain_count input) in
  candidates ← sm_lift (list_traverse candidate
    (List.filter (fun r => r.1.1 <=? cutoff) (take (Z.to_nat removable_count) safe)));
  let candidate_evidence := map snd candidates in
  current_tombstones ← load_confirmation_tombstones root session_id;
  current_evidence ← sm_lift (confirmation_tombstone_evidence current_tombstones);
  review_sha256 ← sm_lift (review_digest session_id input current_evidence candidate_evidence);
  if cl_apply input && (cl_review_sha256 input != Some review_sha256)
  then sm_err "Task authority confirmation cleanup review digest mismatch" else
  done ← (if cl_apply input && (negb (match candidates with [] => true | _ => false end)
                                || lt_legacy current_tombstones)
          then retire root session_id current_tombstones candidates
          else mret (current_tombstones, []));
  let '(final_tombstones, removed) := done in
  final_evidence ← sm_lift (confirmation_tombstone_evidence final_tombstones);
  pending ← exists_ (pending_confirmation_path root session_id);
  mret {| cr_apply := cl_apply input; cr_review_sha256 := review_sha256;
          cr_tombstone_ledger := final_evidence; cr_pending_preserved := pending;
          cr_indeterminate_preserved_count := indeterminate_count;
          cr_terminal_receipt_count := usize_len safe + indeterminate_count;
          cr_candidates := candidate_evidence; cr_removed_confirmation_ids := removed |}.
End confirm.

End TaskConfirm.
