(* ===== verification/TombstoneProofs.v ===== *)
(** * Retired confirmation ids stay retired

    What a load of the tombstone ledger says of the files, and that persisting
    keeps every id retired at each point at which it may be interrupted. *)

From Stdlib Require Import Ascii.
From stdpp Require Import sorting.
From S2P Require Import Prelude RustStr Env TaskModel TaskIssue TaskProofs TaskPlan Tombstones.
From S2P Require Import Prelude RustStr Env TaskModel TaskIssue TaskProofs TaskPlan.
From S2P Require Import Tombstones TaskConfirm.
Import TaskModel TaskIssue TaskProofs TaskPlan Tombstones.
Local Open Scope Z_scope.

Module TombstoneProofs.

(** ** Paths *)

Lemma length_digits n z : length (digits n z) = n.
Proof. revert z. induction n as [|n IH]; intros z; cbn; [done|]. rewrite length_app, IH. cbn. lia. Qed.

Lemma digits_inj n x y :
  0 <= x < 10 ^ Z.of_nat n -> 0 <= y < 10 ^ Z.of_nat n -> digits n x = digits n y -> x = y.
Proof.
  revert x y. induction n as [|n IH]; intros x y Hx Hy; cbn [digits].
  { cbn in Hx, Hy. lia. }
  rewrite Nat2Z.inj_succ, Z.pow_succ_r in Hx, Hy by lia.
  intros [Hd Hm]%app_inj_2; [|done]. injection Hm as Hm.
  apply IH in Hd; [|split; [by apply Z.div_pos; lia|by apply Z.div_lt_upper_bound; lia]..].
  apply (f_equal N_of_ascii) in Hm. rewrite !N_ascii_embedding in Hm.
  - pose proof (Z.mod_pos_bound x 10 ltac:(lia)). pose proof (Z.mod_pos_bound y 10 ltac:(lia)).
    pose proof (Z.div_mod x 10 ltac:(lia)). pose proof (Z.div_mod y 10 ltac:(lia)). lia.
  - pose proof (Z.mod_pos_bound y 10 ltac:(lia)). lia.
  - pose proof (Z.mod_pos_bound x 10 ltac:(lia)). lia.
Qed.

Lemma of_bytes_inj a b : of_bytes a = of_bytes b -> a = b.
Proof. intros He. by rewrite <-(bytes_of_of_bytes a), <-(bytes_of_of_bytes b), He. Qed.

Lemma segment_path_inj root session i j :
  u64 i -> u64 j ->
  confirmation_tombstone_segment_path root session i
    = confirmation_tombstone_segment_path root session j -> i = j.
Proof.
  unfold confirmation_tombstone_segment_path, pad20, u64, u64_max. cbn [fmt foldr].
  intros Hi Hj Heq%string_app_inj_r. apply string_app_inj_r with (p := "/"%string) in Heq.
  rewrite !string_app_nil_r in Heq. apply string_app_inj_l, of_bytes_inj in Heq.
  apply (digits_inj 20) in Heq; [done| |]; change (10 ^ Z.of_nat 20) with 100000000000000000000; lia.
Qed.

Section paths.
Context (root session : string).
#[local] Abbreviation manifest_path := (confirmation_tombstones_path root session).
#[local] Abbreviation segment_path := (confirmation_tombstone_segment_path root session).

Lemma manifest_path_parts :
  manifest_path = fmt [confirmation_root root session; "/"; "retired-ids.json"].
Proof. reflexivity. Qed.
Lemma manifest_durable : durable manifest_path.
Proof.
  change manifest_path with (fmt [confirmation_root root session; "/"; fmt ["retired-ids"; ".json"]]).
  by apply json_not_temporary.
Qed.
Lemma segment_durable i : durable (segment_path i).
Proof. by apply json_not_temporary. Qed.
Lemma segment_not_manifest i : segment_path i <> manifest_path.
Proof.
  unfold confirmation_tombstone_segment_path, segment_directory, confirmation_tombstones_path.
  cbn [fmt foldr]. rewrite <-!string_app_assoc. by intros Heq%string_app_inj_r.
Qed.

(** Durable files outside the tombstone ledger. *)
Definition outside : string -> Prop := fun p =>
  durable p /\ p <> manifest_path /\ forall i, p <> segment_path i.
End paths.

Section tombstones.
Context `{!Host, !Json, !JsonBuild, !Crypto, !Chrono, !Serde value, !Serde (list string),
          !Serde Manifest, !Serde Segment, !SerdeValue LegacyTombstones, !SerdeValue Manifest}.
Context (root session : string).
#[local] Abbreviation manifest_path := (confirmation_tombstones_path root session).
#[local] Abbreviation segment_path := (confirmation_tombstone_segment_path root session).

(** The derived implementations of a manifest: its count is a [u64], and its
    text is an object with its schema. *)
Class ManifestFormat := {
  manifest_count : forall v m, from_value v = Ok m -> u64 (mf_segment_count m);
  manifest_text : forall m b, to_vec m = Some b ->
    exists v, from_slice b = Some v /\ from_value v = Ok m /\
      get_str v "schema" = Some (mf_schema m);
}.

(** ** What is retired *)

(** The ids a manifest accounts for, with the segments stored. *)
Definition covers (m : Manifest) (w : Files) (cid : string) : Prop :=
  In cid (mf_active_confirmation_ids m) \/
  exists i segment, 0 <= i < mf_segment_count m /\ stored (segment_path i) w = Some segment /\
    In cid (sg_confirmation_ids segment).

Definition retired (cid : string) (w : Files) : Prop :=
  exists text v, t_files w !! manifest_path = Some text /\ from_slice text = Some v /\
    ((get_str v "schema" = Some legacy_confirmation_tombstone_schema /\
      exists legacy, from_value v = Ok legacy /\ In cid (le_confirmation_ids legacy)) \/
     (get_str v "schema" <> Some legacy_confirmation_tombstone_schema /\
      exists m, from_value v = Ok m /\ covers m w cid)).

Lemma retired_manifest w text v m cid :
  t_files w !! manifest_path = Some text -> from_slice text = Some v ->
  get_str v "schema" <> Some legacy_confirmation_tombstone_schema -> from_value v = Ok m ->
  retired cid w <-> covers m w cid.
Proof.
  intros Ht Hv Hs Hm. split; [|intros Hc; exists text, v; eauto 10].
  intros (text' & v' & Ht' & Hv' & [[? _]|(_ & m' & Hm' & Hc)]); simplify_eq.
  rewrite Hm in Hm'. by injection Hm' as <-.
Qed.
Lemma retired_legacy w text v legacy cid :
  t_files w !! manifest_path = Some text -> from_slice text = Some v ->
  get_str v "schema" = Some legacy_confirmation_tombstone_schema -> from_value v = Ok legacy ->
  retired cid w <-> In cid (le_confirmation_ids legacy).
Proof.
  intros Ht Hv Hs Hm. split; [|intros Hc; exists text, v; eauto 10].
  intros (text' & v' & Ht' & Hv' & [(_ & l' & Hl' & ?)|[? _]]); simplify_eq.
  rewrite Hm in Hl'. by injection Hl' as <-.
Qed.

Lemma insert_ids_ok error ids new ids' :
  insert_ids error ids new = Ok ids' ->
  forall cid, In cid ids' <-> In cid ids \/ In cid new.
Proof.
  revert ids. induction new as [|id new IH]; intros ids; cbn.
  { intros [= ->] cid. tauto. }
  destruct (_ || _); [done|]. intros Hrun cid. rewrite (IH _ Hrun), btree_insert_In.
  intuition congruence.
Qed.

Lemma load_segments_ok capacity n i ids previous w ids' previous' w' :
  load_segments root session capacity n i ids previous w = (Ok (ids', previous'), w') ->
  same w w' /\ forall cid, In cid ids' <-> In cid ids \/
    exists j segment, i <= j < i + Z.of_nat n /\ stored (segment_path j) w = Some segment /\
      In cid (sg_confirmation_ids segment).
Proof.
  revert i ids previous w. induction n as [|n IH]; intros i ids previous w Hrun;
    cbn [load_segments] in Hrun.
  { inv_ok. split; [done|]. intros cid. split; [by left|]. intros [?|(j & ? & ? & _)]; [done|lia]. }
  inv_ok. match goal with E : read_to_string _ _ _ = _ |- _ =>
    apply read_to_string_ok in E as [Hs Htext] end.
  match goal with E : from_slice _ = Some ?x |- _ => rename E into Hseg; rename x into segment end.
  match goal with E : insert_ids _ _ _ = Ok ?x |- _ => rename E into Hins; rename x into ids1 end.
  apply IH in Hrun as [Hs' Hids]. split; [by etrans|]. intros cid.
  assert (forall j, stored (T:=Segment) (segment_path j) w0 = stored (segment_path j) w) as Hst
    by (intros; by apply stored_same).
  assert (stored (segment_path i) w = Some segment) as Hi by (unfold stored; by rewrite Htext).
  rewrite Hids, (insert_ids_ok _ _ _ _ Hins). setoid_rewrite Hst. split.
  - intros [[?|?]|(j & s & ? & ? & ?)]; [by left|right; exists i, segment|right; exists j, s];
      (split; [lia|done]).
  - intros [?|(j & s & Hj & Hs1 & ?)]; [by left; left|].
    destruct (Z.eq_dec j i) as [->|Hne].
    + left; right. rewrite Hi in Hs1. by injection Hs1 as <-.
    + right. exists j, s. split; [lia|done].
Qed.

Lemma load_frame : preserves same (load_confirmation_tombstones root session).
Proof.
  assert (forall c n i ids p, preserves same (load_segments root session c n i ids p)) as Hseg.
  { intros c n. induction n as [|n IH]; intros; cbn [load_segments]; frame. }
  unfold load_confirmation_tombstones, load_manifest. frame.
Qed.

(** A load that succeeds returns the retired ids, and what it will be extended
    from accounts for them. *)
Lemma load_tombstones_ok w l w' :
  stat_reliable -> load_confirmation_tombstones root session w = (Ok l, w') ->
  same w w' /\ forall cid, (In cid (lt_confirmation_ids l) <-> retired cid w) /\
    (retired cid w -> covers (migrated l) w cid).
Proof.
  intros Hst Hrun. split; [exact (preserves_run _ _ _ _ _ load_frame Hrun)|].
  unfold load_confirmation_tombstones in Hrun. inv_ok. unfold exists_ in Hm. rewrite Hst in Hm.
  injection Hm as <- <-. cbn [andb] in Hrun.
  destruct (bool_decide_reflect (is_Some (t_files w !! manifest_path))) as [Hin|Hn]; cbn [negb] in Hrun.
  2:{ inv_ok. intros cid. split; [split; [done|]|];
        intros (text & v & Ht & _); destruct Hn; by eexists. }
  inv_ok. match goal with E : read_to_string _ _ _ = _ |- _ =>
    apply read_to_string_ok in E as [Hs Htext] end.
  cbn [t_files ticked] in Htext.
  match goal with E : from_slice _ = Some _ |- _ => rename E into Hv end.
  destruct (bool_decide_reflect (get_str v0 "schema" = Some legacy_confirmation_tombstone_schema))
    as [Hl|Hl].
  - unfold parse_legacy in Hrun. destruct (from_value v0) as [legacy|] eqn:Hm; [|done]. inv_ok.
    intros cid. rewrite (retired_legacy w _ _ _ cid Htext Hv Hl Hm). split; [done|by left].
  - unfold parse_manifest in Hrun. destruct (from_value v0) as [m|] eqn:Hm; [|done].
    inv_ok. intros cid. rewrite (retired_manifest w _ _ _ cid Htext Hv Hl Hm).
    unfold load_manifest in Hrun. inv_ok.
    match goal with x : list string * option string |- _ => destruct x as [ids previous] end. guards.
    match goal with E : load_segments _ _ _ _ _ _ _ _ = _ |- _ =>
      apply load_segments_ok in E as [_ Hids] end.
    match goal with E : insert_ids _ _ _ = _ |- _ => pose proof (insert_ids_ok _ _ _ _ E cid) as Hins end.
    split; [|done]. cbn. rewrite Hins, Hids.
    assert (forall j, stored (T:=Segment) (segment_path j) w0 = stored (segment_path j) w) as Hsw
      by (intros; rewrite (stored_same _ _ _ Hs); done).
    setoid_rewrite Hsw. unfold covers. split.
    + intros [[[]|(j & s & Hj & ?)]|?]; [right; exists j, s; split; [lia|done]|by left].
    + intros [?|(j & s & Hj & ?)]; [by right|left; right; exists j, s; split; [lia|done]].
Qed.

(** ** What is retired stays retired *)

(** The files a manifest with [count] segments accounts for are unchanged. *)
Definition keeps_ledger (count : Z) : relation Files := fun w w' =>
  t_files w' !! manifest_path = t_files w !! manifest_path /\
  forall i, 0 <= i < count -> t_files w' !! segment_path i = t_files w !! segment_path i.

Lemma keeps_ledger_trans c c' w1 w2 w3 :
  c <= c' -> keeps_ledger c w1 w2 -> keeps_ledger c' w2 w3 -> keeps_ledger c w1 w3.
Proof.
  intros Hc [Hm1 Hs1] [Hm2 Hs2]. split; [by rewrite Hm2|]. intros i Hi.
  rewrite Hs2 by lia. by apply Hs1.
Qed.

Lemma keeps_covers m w w' cid :
  (forall i, 0 <= i < mf_segment_count m -> t_files w' !! segment_path i = t_files w !! segment_path i) ->
  covers m w cid -> covers m w' cid.
Proof.
  intros Hs [?|(i & s & Hi & Hst & ?)]; [by left|right]. exists i, s. split_and!; [lia..| |done].
  unfold stored in *. by rewrite Hs.
Qed.

Lemma keeps_retired w w' cid :
  t_files w' !! manifest_path = t_files w !! manifest_path ->
  (forall i, t_files w' !! segment_path i = t_files w !! segment_path i) ->
  retired cid w -> retired cid w'.
Proof.
  intros Hm Hc (text & v & Ht & Hv & Hcase). exists text, v. rewrite Hm. split_and!; [done|done|].
  destruct Hcase as [?|(Hs & m & Hfrom & Hcov)]; [by left|right]. split; [done|]. exists m. split; [done|].
  eapply keeps_covers; [intros i _; apply Hc|done].
Qed.

Lemma same_at_keeps c w w' : same_at durable w w' -> keeps_ledger c w w'.
Proof.
  intros Hs. split; [apply Hs, manifest_durable|]. intros i _. apply Hs, segment_durable.
Qed.

Lemma write_segment_run i (segment : Segment) label w r w' :
  u64 i ->
  write_private_json (segment_directory root session) (fmt [pad20 i; ".json"]) segment label w
    = (r, w') ->
  same_at (outside root session) w w' /\ keeps_ledger i w w' /\
  (is_ok r = true -> stored (segment_path i) w' = Some segment).
Proof.
  intros Hu Hrun. apply write_private_json_run in Hrun; [|apply (segment_durable root session)].
  fold (segment_path i) in Hrun. destruct r.
  - destruct Hrun as [Hst Hs]. split_and!; [|split|done].
    + intros p (Hd & _ & Hp). by apply Hs.
    + apply Hs. split; [apply manifest_durable|]. apply not_eq_sym, segment_not_manifest.
    + intros j Hj. apply Hs. split; [apply segment_durable|].
      intros Heq%segment_path_inj; unfold u64 in *; lia.
  - split_and!; [by intros p [Hd _]; apply Hrun|by apply same_at_keeps|done].
Qed.

(** The ids of a segment move from the active set to the file. *)
Lemma sealed_covers m sha w w' cid segment :
  sg_confirmation_ids segment = take (Z.to_nat (mf_segment_capacity m)) (mf_active_confirmation_ids m) ->
  u64 (mf_segment_count m) -> keeps_ledger (mf_segment_count m) w w' ->
  stored (segment_path (mf_segment_count m)) w' = Some segment ->
  covers m w cid -> covers (sealed (mf_segment_count m + 1) sha m) w' cid.
Proof.
  intros Hids [Hu _] [_ Hs] Hst [Hin|(i & s & Hi & Hsi & ?)].
  - rewrite <-(take_drop (Z.to_nat (mf_segment_capacity m)) (mf_active_confirmation_ids m)) in Hin.
    apply in_app_iff in Hin as [?|?]; [right|by left].
    exists (mf_segment_count m), segment. cbn. rewrite Hids. split_and!; [lia..|done|done].
  - right. exists i, s. cbn. split_and!; [lia..| |done]. unfold stored in *. by rewrite Hs.
Qed.

Lemma seal_run fuel m w r w' :
  u64 (mf_segment_count m) -> seal_segments root session fuel m w = (r, w') ->
  same_at (outside root session) w w' /\ keeps_ledger (mf_segment_count m) w w' /\
  match r with
  | Ok m' => u64 (mf_segment_count m') /\ mf_schema m' = mf_schema m /\
             forall cid, covers m w cid -> covers m' w' cid
  | Err _ => True
  end.
Proof.
  revert m w. induction fuel as [|fuel IH]; intros m w Hu Hrun; cbn [seal_segments] in Hrun.
  { case_match; injection Hrun as <- <-; by split_and!. }
  case_match. { injection Hrun as <- <-; by split_and!. }
  apply sm_bind_inv in Hrun as [(t & w1 & [= <- <-] & Hrun)|(e & [=] & _)].
  set (segment := {| sg_schema := _ |}) in Hrun.
  apply sm_bind_inv in Hrun as [(sha & w2 & [_ ->]%sm_lift_ok & Hrun)|(e & [= _ <-] & ->)];
    [|by split_and!].
  apply sm_bind_inv in Hrun as [(u & w3 & Hw & Hrun)|(e & Hw & ->)];
    apply (write_segment_run _ _ _ (ticked w)) in Hw as (Ho & Hk & Hst); try done.
  specialize (Hst eq_refl).
  apply sm_bind_inv in Hrun as [(c & w4 & [Hc ->]%sm_lift_ok & Hrun)|(e & [= _ <-] & ->)];
    [|by split_and!].
  apply ok_or_ok, u64_checked_add_some in Hc as [-> Hmax].
  apply IH in Hrun as (Ho' & Hk' & Hr); [|cbn; unfold u64 in *; lia].
  split; [by etrans|]. split; [eapply keeps_ledger_trans; [|exact Hk|exact Hk']; cbn; lia|].
  destruct r as [m'|]; [|done]. destruct Hr as (? & ? & Hcov). split_and!; [done|done|].
  intros cid Hc. apply Hcov. by apply (sealed_covers m sha w w3 cid segment).
Qed.

(** The fuel is enough: the loop ends with an active set that fits. *)
Lemma seal_done fuel m w m' w' :
  0 < mf_segment_capacity m -> (length (mf_active_confirmation_ids m) <= fuel)%nat ->
  seal_segments root session fuel m w = (Ok m', w') ->
  usize_len (mf_active_confirmation_ids m') <= mf_segment_capacity m'.
Proof.
  revert m w. induction fuel as [|fuel IH]; intros m w Hcap Hlen Hrun; cbn [seal_segments] in Hrun;
    unfold usize_len in *; destruct (Z.leb_spec (Z.of_nat (length (mf_active_confirmation_ids m)))
      (mf_segment_capacity m)); try (injection Hrun as <- <-; lia).
  inv_ok. apply IH in Hrun; [done|done|]. cbn. rewrite length_drop. lia.
Qed.

Lemma retire_ids_ok ids active new ids' active' :
  retire_ids ids active new = Ok (ids', active') ->
  forall cid, In cid active' <-> In cid active \/ In cid new.
Proof.
  revert ids active. induction new as [|id new IH]; intros ids active; cbn.
  { intros [= -> ->] cid. tauto. }
  destruct (_ || _); [done|]. intros Hrun cid. rewrite (IH _ _ Hrun), btree_insert_In.
  intuition congruence.
Qed.

Context `{!ManifestFormat}.

(** What persisting relies on of the load it extends: it accounts for the ids
    that are retired, and is the manifest stored if there is one. *)
Record extends (l : LoadedTombstones) (w : Files) : Prop := {
  ex_covers : forall cid, retired cid w -> covers (migrated l) w cid;
  ex_stored : forall text v m, t_files w !! manifest_path = Some text -> from_slice text = Some v ->
    get_str v "schema" <> Some legacy_confirmation_tombstone_schema -> from_value v = Ok m ->
    migrated l = m;
  ex_schema : mf_schema (migrated l) = confirmation_tombstone_manifest_schema;
  ex_count : u64 (mf_segment_count (migrated l));
}.

Lemma load_extends w l w' :
  stat_reliable -> load_confirmation_tombstones root session w = (Ok l, w') -> extends l w.
Proof.
  intros Hst Hrun. pose proof (load_tombstones_ok _ _ _ Hst Hrun) as [_ Hl].
  assert (forall cid, retired cid w -> covers (migrated l) w cid) as Hcov by (intros; by apply Hl).
  unfold load_confirmation_tombstones in Hrun. inv_ok. unfold exists_ in Hm. rewrite Hst in Hm.
  injection Hm as <- <-. cbn [andb] in Hrun.
  destruct (bool_decide_reflect (is_Some (t_files w !! manifest_path))) as [Hin|Hn]; cbn [negb] in Hrun.
  2:{ inv_ok. split; [done| |done|by split].
      intros text v m Ht. destruct Hn. by eexists. }
  inv_ok. match goal with E : read_to_string _ _ _ = _ |- _ =>
    apply read_to_string_ok in E as [_ Htext] end.
  cbn [t_files ticked] in Htext.
  match goal with E : from_slice _ = Some ?x |- _ => rename E into Hv; rename x into v0 end.
  destruct (bool_decide_reflect (get_str v0 "schema" = Some legacy_confirmation_tombstone_schema))
    as [Hl'|Hl'].
  - unfold parse_legacy in Hrun. destruct (from_value v0) as [legacy|] eqn:Hm; [|done]. inv_ok.
    split; [done| |done|by split]. intros text v' m Ht Hv'. by simplify_eq.
  - unfold parse_manifest in Hrun. destruct (from_value v0) as [m|] eqn:Hm; [|done].
    pose proof (manifest_count _ _ Hm) as Hcount.
    inv_ok. unfold load_manifest in Hrun. inv_ok.
    match goal with x : list string * option string |- _ => destruct x as [ids previous] end. guards.
    match goal with E : check_manifest _ = _ |- _ => unfold check_manifest in E end. guards.
    cbn in *. split; [done| |done|done]. intros text v' m' Ht Hv' _ Hm'. simplify_eq.
    cbn. rewrite Hm in Hm'. by injection Hm'.
Qed.

Lemma extends_same l w w' : same w w' -> extends l w -> extends l w'.
Proof.
  intros Hs [Hc Hst Hsc Hn]. split; [| |done|done].
  - intros cid Hret. apply (keeps_covers _ w); [intros; by rewrite Hs|]. apply Hc.
    revert Hret. apply keeps_retired; intros; by rewrite Hs.
  - intros text v m. rewrite Hs. apply Hst.
Qed.

(** As long as the manifest and the segments it counts are kept, so is what is retired. *)
Lemma extends_keeps l w w' cid :
  extends l w -> keeps_ledger (mf_segment_count (migrated l)) w w' -> retired cid w -> retired cid w'.
Proof.
  intros Hex Hk (text & v & Ht & Hv & Hcase). exists text, v.
  rewrite (proj1 Hk). split_and!; [done|done|].
  destruct Hcase as [?|(Hs & m & Hfrom & Hcov)]; [by left|right]. split; [done|]. exists m.
  split; [done|]. eapply keeps_covers; [|done].
  rewrite <-(ex_stored _ _ Hex text v m) by done. apply Hk.
Qed.

(** A manifest that is stored retires the ids it accounts for. *)
Lemma stored_retires (m : Manifest) text w cid :
  t_files w !! manifest_path = Some text -> to_vec m = Some text ->
  mf_schema m <> legacy_confirmation_tombstone_schema -> covers m w cid -> retired cid w.
Proof.
  intros Ht Hm Hs Hc. destruct (manifest_text m text Hm) as (v & Hv & Hfrom & Hschema).
  exists text, v. split_and!; [done|done|]. right. split; [congruence|eauto].
Qed.

(** Whatever interrupts it, persisting keeps what was retired, and touches the
    ledger only; when it succeeds the new ids are retired too. *)
Lemma persist_run l new w r w' :
  extends l w -> persist_confirmation_tombstones root session l new w = (r, w') ->
  same_at (outside root session) w w' /\
  (forall cid, retired cid w -> retired cid w') /\
  (is_ok r = true -> forall cid, In cid new -> retired cid w').
Proof.
  intros Hex Hrun. unfold persist_confirmation_tombstones in Hrun.
  apply sm_bind_inv in Hrun as [([ids active] & w1 & [Hids ->]%sm_lift_ok & Hrun)|(e & [= _ <-] & ->)];
    [|by split_and!].
  pose proof (retire_ids_ok _ _ _ _ _ Hids) as Hactive.
  apply sm_bind_inv in Hrun as [(m & w2 & Hseal & Hrun)|(e & Hseal & ->)];
    (apply seal_run in Hseal as (Ho & Hk & Hm); [|apply (ex_count _ _ Hex)]);
    pose proof (fun cid => extends_keeps l w _ cid Hex Hk) as Hkept; [|by split_and!].
  destruct Hm as (_ & Hschema & Hcov).
  apply sm_bind_inv in Hrun as [(sha & w3 & [_ ->]%sm_lift_ok & Hrun)|(e & [= _ <-] & ->)];
    [|by split_and!].
  apply sm_bind_inv in Hrun as [(t & w4 & [= <- <-] & Hrun)|(e & [=] & _)].
  apply sm_bind_inv in Hrun as [(u & w5 & Hw & Hrun)|(e & Hw & ->)];
    (apply write_private_json_text in Hw; [|apply (manifest_durable root session)]);
    fold manifest_path in Hw.
  2:{ split_and!; [intros p Hp; rewrite (Hw p (proj1 Hp)); by apply Ho| |done].
      intros cid. eapply extends_keeps; [done|]. eapply keeps_ledger_trans; [|exact Hk|];
        [done|by apply (same_at_keeps (mf_segment_count (migrated l)))]. }
  destruct Hw as (text & Htext & Hat & Hs). pose proof (preserves_run _ _ _ _ _ load_frame Hrun) as Hsame.
  assert (forall cid, covers m w2 cid -> retired cid w') as Hret.
  { intros cid Hc. eapply (stored_retires _ text); [by rewrite Hsame|done| |].
    - cbn. rewrite Hschema. cbn. by rewrite (ex_schema _ _ Hex).
    - apply (keeps_covers m w2); [|done]. intros i _. rewrite Hsame. apply Hs.
      split; [apply segment_durable|apply segment_not_manifest]. }
  split_and!.
  - intros p Hp. rewrite Hsame, Hs by (by destruct Hp as (? & ? & _)). by apply Ho.
  - intros cid Hr. apply Hret, Hcov. destruct (ex_covers _ _ Hex cid Hr) as [?|?]; [left|by right].
    apply Hactive. by left.
  - intros _ cid Hin. apply Hret, Hcov. left. apply Hactive. by right.
Qed.
End tombstones.
End TombstoneProofs.

(** ** What the confirmations of task-authority controls guarantee

    What each operation on confirmations does to the files of a session, on
    every outcome, and the invariant of a decided confirmation. *)

Import TaskModel TaskIssue TaskProofs TaskPlan Tombstones TombstoneProofs TaskConfirm.
Local Open Scope Z_scope.

Module TaskConfirmProofs.

(** ** Paths *)

Section paths.
Context (root session : string).
#[local] Abbreviation pending := (pending_confirmation_path root session).
#[local] Abbreviation receipt name := (fmt [receipts_directory root session; "/"; name]).

Lemma pending_durable : durable pending.
Proof.
  change pending with (fmt [confirmation_root root session; "/"; fmt ["pending"; ".json"]]).
  by apply json_not_temporary.
Qed.
Lemma terminal_durable cid : durable (terminal_confirmation_path root session cid).
Proof. by apply json_not_temporary. Qed.
Lemma receipt_shape name :
  receipt name = confirmation_root root session +:+ ("/receipts/" +:+ name).
Proof.
  unfold receipts_directory. cbn [fmt foldr].
  by rewrite !string_app_nil_r, <-!string_app_assoc.
Qed.
Lemma receipt_not_pending name : receipt name <> pending.
Proof.
  rewrite receipt_shape. unfold pending_confirmation_path. cbn [fmt foldr].
  by intros Heq%string_app_inj_r.
Qed.
Lemma receipt_not_manifest name : receipt name <> confirmation_tombstones_path root session.
Proof.
  rewrite receipt_shape. unfold confirmation_tombstones_path. cbn [fmt foldr].
  by intros Heq%string_app_inj_r.
Qed.
Lemma receipt_not_segment name i : receipt name <> confirmation_tombstone_segment_path root session i.
Proof.
  rewrite receipt_shape. unfold confirmation_tombstone_segment_path, segment_directory.
  cbn [fmt foldr]. rewrite <-!string_app_assoc. by intros Heq%string_app_inj_r.
Qed.
Lemma pending_outside : outside root session pending.
Proof.
  split; [apply pending_durable|]. unfold confirmation_tombstones_path,
    confirmation_tombstone_segment_path, segment_directory, pending_confirmation_path.
  cbn [fmt foldr]. rewrite <-?string_app_assoc.
  split; [|intros i]; rewrite <-?string_app_assoc; by intros Heq%string_app_inj_r.
Qed.
Lemma receipt_outside name : durable (receipt name) -> outside root session (receipt name).
Proof. intros Hd. split_and!; [done|apply receipt_not_manifest|apply receipt_not_segment]. Qed.
Lemma ledger_not_pending :
  pending <> confirmation_tombstones_path root session /\
  forall i, pending <> confirmation_tombstone_segment_path root session i.
Proof. destruct pending_outside as (_ & ? & ?). done. Qed.
End paths.

Section confirm.
Context `{!Host, !Json, !JsonBuild, !Crypto, !Chrono, !Serde value, !Serde (list string),
          !Serde Manifest, !Serde Segment, !Serde TaskAuthorityConfirmationRecord,
          !SerdeValue LegacyTombstones, !SerdeValue Manifest, !SerdeValue TaskAuthorityIssuer,
          !ManifestFormat}.
Context (root session : string).
Context (reliable : stat_reliable).
#[local] Abbreviation pending := (pending_confirmation_path root session).
#[local] Abbreviation terminal := (terminal_confirmation_path root session).
#[local] Abbreviation manifest := (confirmation_tombstones_path root session).
#[local] Abbreviation segment := (confirmation_tombstone_segment_path root session).
#[local] Abbreviation record := TaskAuthorityConfirmationRecord.
#[local] Abbreviation held w path r := (stored (T:=TaskAuthorityConfirmationRecord) path w = Some r).

(** ** Reading and writing records *)

Lemma exists_run path w b w' :
  exists_ path w = (b, w') -> same w w' /\ b = Ok (bool_decide (is_Some (t_files w !! path))).
Proof. unfold exists_. rewrite (reliable (t_tick w)). by intros [= <- <-]. Qed.

Lemma read_record_frame path s : preserves same (read_confirmation_record path s).
Proof. unfold read_confirmation_record. frame. Qed.

Lemma read_record_ok path s w o w' :
  read_confirmation_record path s w = (Ok o, w') ->
  same w w' /\
  match o with
  | Some r => held w path r /\ validate_confirmation_record r s = Ok tt
  | None => t_files w !! path = None
  end.
Proof.
  intros Hrun. split; [exact (preserves_run _ _ _ _ _ (read_record_frame path s) Hrun)|].
  unfold read_confirmation_record in Hrun. inv_ok.
  match goal with E : read_json _ _ _ = _ |- _ => apply read_json_ok in E as [_ Ho] end.
  destruct v as [r|]; inv_ok; [|by apply Ho].
  match goal with u : unit |- _ => by destruct u end.
Qed.

Lemma validate_session r s : validate_confirmation_record r s = Ok tt -> cf_session_id r = s.
Proof.
  unfold validate_confirmation_record. intros Hrun. guards. congruence.
Qed.

Lemma held_file w path r : held w path r -> is_Some (t_files w !! path).
Proof. unfold stored. destruct (t_files w !! path); [by eexists|done]. Qed.

(** Archiving never replaces a receipt. *)
Lemma archive_run r w x w' :
  cf_session_id r = session -> archive_confirmation root r w = (x, w') ->
  same_at (fun p => durable p /\ p <> terminal (cf_confirmation_id r)) w w' /\
  (is_Some (t_files w !! terminal (cf_confirmation_id r)) -> same w w') /\
  match x with
  | Ok _ => held w' (terminal (cf_confirmation_id r)) r
  | Err _ => same_at durable w w'
  end.
Proof.
  intros <- Hrun. unfold archive_confirmation in Hrun.
  apply sm_bind_inv in Hrun as [(o & w1 & Hr & Hrun)|(e & Hr & ->)].
  2:{ apply (preserves_run _ _ _ _ _ (read_record_frame _ _)) in Hr.
      split_and!; [by apply same_same_at|done|by apply same_same_at]. }
  apply read_record_ok in Hr as [Hs Ho]. destruct o as [existing|].
  - destruct Ho as [Hh _]. destruct (bool_decide_reflect (existing = r)) as [->|];
      injection Hrun as <- <-; split_and!; try done; try by apply same_same_at.
    by rewrite (stored_same _ _ _ Hs).
  - pose proof (terminal_durable root (cf_session_id r) (cf_confirmation_id r)) as Hd.
    apply write_private_json_run in Hrun; [|exact Hd].
    split; [|split; [rewrite Ho; by intros []|]]; destruct x as [u|].
    + intros p Hp. rewrite <-Hs. by apply Hrun.
    + intros p [Hp _]. rewrite <-Hs. by apply Hrun.
    + apply Hrun.
    + intros p Hp. rewrite <-Hs. by apply Hrun.
Qed.

Lemma remove_file_run path e w x w' :
  remove_file path e w = (x, w') ->
  same_at (fun p => p <> path) w w' /\ (same w w' \/ t_files w' !! path = None) /\
  (is_ok x = true -> t_files w' !! path = None).
Proof.
  intros Hrun. apply sm_bind_inv in Hrun as [(u & w1 & Hs & Hrun)|(er & Hs & ->)];
    apply sys_inv in Hs as [-> _]; [|by split_and!; [|left|]].
  injection Hrun as <- <-. cbn. rewrite lookup_delete_eq. split_and!; [|by right|done].
  intros p Hp. cbn. by rewrite lookup_delete_ne.
Qed.

Lemma remove_present_run path e w x w' :
  (present ← exists_ path; if present : bool then remove_file path e else mret tt) w = (x, w') ->
  same_at (fun p => p <> path) w w' /\ (same w w' \/ t_files w' !! path = None) /\
  (is_ok x = true -> t_files w' !! path = None).
Proof.
  intros Hrun. apply sm_bind_inv in Hrun as [(b & w1 & He & Hrun)|(er & He & ->)];
    apply exists_run in He as [Hs Hb]; [|done]. injection Hb as ->.
  destruct (bool_decide_reflect (is_Some (t_files w !! path))) as [Hin|Hn].
  - apply remove_file_run in Hrun as (Hat & Hor & Hok). split_and!; [|destruct Hor; [left|by right]|done].
    + intros p Hp. rewrite <-Hs. by apply Hat.
    + by etrans.
  - injection Hrun as <- <-. split_and!; [by apply same_same_at|by left|].
    intros _. rewrite Hs. by apply eq_None_not_Some.
Qed.

Lemma remove_pending_run w x w' :
  remove_pending_confirmation root session w = (x, w') ->
  same_at (fun p => p <> pending) w w' /\ (same w w' \/ t_files w' !! pending = None) /\
  (is_ok x = true -> t_files w' !! pending = None).
Proof. apply remove_present_run. Qed.

(** ** How the files of a session evolve

    The operations but staging, finalizing and cleaning up leave the tombstone
    ledger and every receipt as they are; the pending confirmation may go. *)
Record evolves (w w' : Files) : Prop := {
  evo_manifest : t_files w' !! manifest = t_files w !! manifest;
  evo_segment : forall i, t_files w' !! segment i = t_files w !! segment i;
  evo_pending : t_files w' !! pending = t_files w !! pending \/ t_files w' !! pending = None;
  evo_terminal : forall cid text, t_files w !! terminal cid = Some text ->
    t_files w' !! terminal cid = Some text;
}.

#[local] Instance evolves_refl : Reflexive evolves.
Proof. intros w. split; auto. Qed.
#[local] Instance evolves_trans : Transitive evolves.
Proof.
  intros w1 w2 w3 [M1 S1 P1 T1] [M2 S2 P2 T2]. split.
  - by rewrite M2.
  - intros i. by rewrite S2.
  - destruct P2 as [->|]; auto.
  - auto.
Qed.
Lemma same_evolves w w' : same w w' -> evolves w w'.
Proof. intros Hs. split; intros; rewrite Hs; auto. Qed.

Lemma archive_evolves r w x w' :
  cf_session_id r = session -> archive_confirmation root r w = (x, w') -> evolves w w'.
Proof.
  intros Hsn (Hat & Hkeep & _)%archive_run; [|done].
  pose proof (receipt_not_pending root session (receipt_name (cf_confirmation_id r))) as Hp.
  split.
  - apply Hat. split; [apply manifest_durable|]. apply not_eq_sym, receipt_not_manifest.
  - intros i. apply Hat. split; [apply segment_durable|]. apply not_eq_sym, receipt_not_segment.
  - left. apply Hat. split; [apply pending_durable|]. by apply not_eq_sym.
  - intros cid text Ht. destruct (decide (terminal cid = terminal (cf_confirmation_id r))) as [He|Hne].
    + rewrite Hkeep; [done|]. rewrite <-He. by eexists.
    + rewrite Hat; [done|]. split; [apply terminal_durable|done].
Qed.

Lemma remove_pending_evolves w x w' :
  remove_pending_confirmation root session w = (x, w') -> evolves w w'.
Proof.
  intros (Hat & Hor & _)%remove_pending_run. split.
  - apply Hat, not_eq_sym, ledger_not_pending.
  - intros i. apply Hat, not_eq_sym, ledger_not_pending.
  - destruct Hor as [Hs|]; [left; by rewrite Hs|by right].
  - intros cid text Ht. by rewrite Hat by apply receipt_not_pending.
Qed.

Lemma expire_evolves r w x w' :
  cf_session_id r = session -> expire_pending_confirmation root r w = (x, w') -> evolves w w'.
Proof.
  intros Hsn Hrun. unfold expire_pending_confirmation in Hrun.
  cbn [cf_session_id set_outcome_fields] in Hrun. rewrite Hsn in Hrun.
  apply sm_bind_inv in Hrun as [(u & w1 & Ha & Hrun)|(e & Ha & ->)];
    apply archive_evolves in Ha; [|done|done|done]. etrans; [done|].
  by apply remove_pending_evolves in Hrun.
Qed.

(** ** The operations *)

(** What it takes for a confirmation to be loaded. *)
Definition loadable (w : Files) (r : record) : Prop :=
  held w pending r /\ validate_confirmation_record r session = Ok tt /\
  t_files w !! terminal (cf_confirmation_id r) = None.

Lemma load_run w x w' :
  load_task_authority_pending_confirmation root session w = (x, w') ->
  evolves w w' /\ forall r, x = Ok (Some r) -> same w w' /\ loadable w r.
Proof.
  intros Hrun. unfold load_task_authority_pending_confirmation in Hrun.
  apply sm_bind_inv in Hrun as [(o & w1 & Hr & Hrun)|(e & Hr & ->)].
  2:{ apply (preserves_run _ _ _ _ _ (read_record_frame _ _)) in Hr.
      split; [by apply same_evolves|done]. }
  apply read_record_ok in Hr as [Hs Ho]. destruct o as [r|].
  2:{ injection Hrun as <- <-. split; [by apply same_evolves|done]. }
  destruct Ho as [Hh Hv].
  apply sm_bind_inv in Hrun as [(b & w2 & He & Hrun)|(e & He & ->)];
    apply exists_run in He as [Hs2 Hb]; [|done]. injection Hb as ->.
  assert (same w w2) as Hs' by (by etrans). apply same_evolves in Hs' as Hev.
  destruct (bool_decide_reflect (is_Some (t_files w1 !! terminal (cf_confirmation_id r)))) as [Hin|Hn].
  - apply sm_bind_inv in Hrun as [(u & w3 & Hrm & Hrun)|(e & Hrm & ->)];
      apply remove_pending_evolves in Hrm; [|by split; [etrans|]].
    injection Hrun as <- <-. by split; [etrans|].
  - injection Hrun as <- <-. split; [done|]. intros r' [= ->]. split; [done|].
    split_and!; [done|done|]. apply eq_None_not_Some. by rewrite <-Hs.
Qed.

Lemma active_evolves w x w' :
  active_task_authority_pending_confirmation root session w = (x, w') -> evolves w w'.
Proof.
  intros Hrun. unfold active_task_authority_pending_confirmation in Hrun.
  apply sm_bind_inv in Hrun as [(o & w1 & Hl & Hrun)|(e & Hl & ->)];
    apply load_run in Hl as [Hev Hl]; [|done].
  destruct o as [r|]; [|by injection Hrun as <- <-].
  destruct (Hl r eq_refl) as (_ & _ & Hv & _). apply validate_session in Hv.
  apply sm_bind_inv in Hrun as [(t & w2 & [_ ->]%sm_lift_ok & Hrun)|(e & [= _ <-] & ->)]; [|done].
  apply sm_bind_inv in Hrun as [(at_ & w3 & [= <- <-] & Hrun)|(e & [=] & _)].
  assert (evolves w (ticked w1)) as Hev1 by (etrans; [done|by apply same_evolves]).
  destruct (_ <=? _); [|by injection Hrun as <- <-].
  apply sm_bind_inv in Hrun as [(u & w4 & He & Hrun)|(e & He & ->)];
    apply expire_evolves in He; [|done|by etrans|done]. etrans; [done|].
  by injection Hrun as <- <-.
Qed.

Lemma make_room_evolves w x w' : make_room root session w = (x, w') -> evolves w w'.
Proof.
  intros Hrun. unfold make_room in Hrun.
  apply sm_bind_inv in Hrun as [(o & w1 & Hr & Hrun)|(e & Hr & ->)].
  2:{ apply (preserves_run _ _ _ _ _ (read_record_frame _ _)) in Hr. by apply same_evolves. }
  apply read_record_ok in Hr as [Hs Ho]. apply same_evolves in Hs as Hev.
  destruct o as [r|]; [|by injection Hrun as <- <-]. destruct Ho as [_ Hv%validate_session].
  apply sm_bind_inv in Hrun as [(t & w2 & [_ ->]%sm_lift_ok & Hrun)|(e & [= _ <-] & ->)]; [|done].
  apply sm_bind_inv in Hrun as [(at_ & w3 & [= <- <-] & Hrun)|(e & [=] & _)].
  assert (evolves w (ticked w1)) as Hev1 by (etrans; [done|by apply same_evolves]).
  destruct (_ <? _); [by injection Hrun as <- <-|].
  apply expire_evolves in Hrun; [by etrans|done].
Qed.

(** A receipt is committed before the pending confirmation is consumed. *)
Lemma commit_run {A} r (y : res A) w x w' :
  cf_session_id r = session ->
  (archive_confirmation root r ≫= fun _ =>
   remove_pending_confirmation root session ≫= fun _ => sm_lift y) w = (x, w') ->
  evolves w w' /\
  (is_ok x = true ->
    x = y /\ held w' (terminal (cf_confirmation_id r)) r /\ t_files w' !! pending = None).
Proof.
  intros Hsn Hrun. apply sm_bind_inv in Hrun as [(u & w1 & Ha & Hrun)|(e & Ha & ->)].
  2:{ by apply archive_evolves in Ha. }
  apply archive_run in Ha as Ha'; [|done]. destruct Ha' as (_ & _ & Hheld).
  apply archive_evolves in Ha; [|done].
  apply sm_bind_inv in Hrun as [(u' & w2 & Hr & Hrun)|(e & Hr & ->)];
    apply remove_pending_run in Hr as Hrm; apply remove_pending_evolves in Hr; [|by split; [etrans|]].
  injection Hrun as <- <-. split; [by etrans|]. intros _. destruct Hrm as (Hat & _ & Hnone).
  split_and!; [done| |by apply Hnone]. unfold stored in *. rewrite Hat; [done|].
  apply receipt_not_pending.
Qed.

Lemma instant_ok t t' : instant t = Ok t' -> t' = t.
Proof. unfold instant. destruct (representable t); [by intros [= <-]|done]. Qed.

(** What a decision has checked of the pending record. *)
Record decidable (input : DecideTaskAuthorityConfirmation) (t : Z) (r : record) : Prop := {
  de_decision : In (dc_decision input) ["confirm"; "deny"]%string;
  de_actor : valid_actor (dc_decided_by input) = true;
  de_id : cf_confirmation_id r = dc_confirmation_id input;
  de_action : cf_action r = dc_expected_action input;
  de_requested_by : cf_requested_by r = dc_decided_by input;
  de_live : exists expires, parse_from_rfc3339 (cf_expires_at r) = Ok expires /\ t < expires;
  de_observed : dc_decision input = "confirm"%string ->
    dc_target_id input = Some (cf_target_id r) /\ dc_url input = Some (cf_url r);
  de_request : confirmation_request_sha256 (cf_command r) = Ok (cf_request_sha256 r);
}.

Lemma decision_mismatch_none r input expired :
  is_empty (cf_target_id r) = false -> is_empty (cf_url r) = false ->
  decision_mismatch r input expired = Ok None ->
  expired = false /\ cf_confirmation_id r = dc_confirmation_id input /\
  cf_action r = dc_expected_action input /\ cf_requested_by r = dc_decided_by input /\
  (dc_decision input = "confirm"%string ->
    dc_target_id input = Some (cf_target_id r) /\ dc_url input = Some (cf_url r)) /\
  confirmation_request_sha256 (cf_command r) = Ok (cf_request_sha256 r).
Proof.
  unfold decision_mismatch, is_empty. intros Ht Hu Hrun. destruct expired; [done|].
  repeat match goal with E : (if ?c then _ else _) = Ok None |- _ => destruct c eqn:?; [done|] end.
  inv_bool. inv_ok.
  destruct (bool_decide_reflect (v = cf_request_sha256 r)) as [->|]; [|done].
  split_and!; try done. intros Hd. rewrite bool_decide_true in * by done. cbn [andb] in *.
  destruct (dc_target_id input), (dc_url input); inv_bool; split; congruence.
Qed.

Lemma validate_nonempty r s :
  validate_confirmation_record r s = Ok tt ->
  is_empty (cf_target_id r) = false /\ is_empty (cf_url r) = false.
Proof.
  assert (forall s, is_empty (trim s) = false -> is_empty s = false) as Htrim.
  { intros t. unfold is_empty. destruct (bool_decide_reflect (t = "")) as [->|]; done. }
  unfold validate_confirmation_record. intros Hrun. guards. split; by apply Htrim.
Qed.

Lemma decide_run input w x w' :
  decide_task_authority_confirmation root session input w = (x, w') ->
  evolves w w' /\ forall decided, x = Ok decided ->
    exists r t decided_at, loadable w r /\ decidable input t r /\
      decided = set_decision (dc_decision input) (dc_decided_by input) decided_at r /\
      held w' (terminal (dc_confirmation_id input)) decided /\ t_files w' !! pending = None.
Proof.
  intros Hrun. unfold decide_task_authority_confirmation in Hrun.
  destruct (_ || _) eqn:Hg; [injection Hrun as <- <-; done|]. inv_bool.
  match goal with E : one_of _ _ = true |- _ => apply one_of_In in E as Hdecision end.
  apply sm_bind_inv in Hrun as [(o & w1 & Hl & Hrun)|(e & Hl & ->)];
    apply load_run in Hl as [Hev Hl]; [|done].
  apply sm_bind_inv in Hrun as [(r & w2 & [Ho%ok_or_ok ->]%sm_lift_ok & Hrun)|(e & [= _ <-] & ->)];
    [|done]. subst o. destruct (Hl r eq_refl) as (Hs & Hload). pose proof Hload as (_ & Hv & _).
  apply sm_bind_inv in Hrun as [(expires & w2 & [Hexp ->]%sm_lift_ok & Hrun)|(e & [= _ <-] & ->)];
    [|done].
  apply sm_bind_inv in Hrun as [(at_ & w3 & [= <- <-] & Hrun)|(e & [=] & _)].
  assert (evolves w (ticked w1)) as Hev1 by (etrans; [done|by apply same_evolves]).
  apply sm_bind_inv in Hrun as [(m & w3 & [Hmis ->]%sm_lift_ok & Hrun)|(e & [= _ <-] & ->)];
    [|done].
  assert (cf_session_id r = session) as Hsn by (by apply validate_session).
  destruct m as [reason|].
  { apply (commit_run _ (Err _)) in Hrun as [Hc Hok]; [|done]. split; [by etrans|].
    intros d ->. by destruct (Hok eq_refl) as [[=] _]. }
  apply sm_bind_inv in Hrun as [(now_ & w4 & [= <- <-] & Hrun)|(e & [=] & _)].
  apply (commit_run _ (Ok _)) in Hrun as [Hc Hok]; [|done].
  split; [etrans; [exact Hev1|etrans; [|exact Hc]; by apply same_evolves]|]. intros d ->.
  destruct (Hok eq_refl) as ([= ->] & Hheld & Hpend).
  apply validate_nonempty in Hv as [Ht Hu].
  apply decision_mismatch_none in Hmis as (Hexpired & Hid & ? & ? & ? & ?); [|done|done].
  exists r, (h_now (t_tick w1)). eexists. split; [done|]. split; [|split_and!; [done| |done]].
  - split; try done. exists expires. split; [|apply Z.leb_gt in Hexpired; done].
    unfold confirmation_expiry in Hexp. destruct (parse_from_rfc3339 _); [congruence|done].
  - by rewrite <-Hid.
Qed.

(** ** Staging *)

Lemma already_terminal_run cid w x w' :
  already_terminal root session cid w = (x, w') ->
  same w w' /\ (x = Ok false -> t_files w !! terminal cid = None /\ ~ retired root session cid w).
Proof.
  intros Hrun. unfold already_terminal in Hrun.
  apply sm_bind_inv in Hrun as [(b & w1 & He & Hrun)|(e & He & ->)];
    apply exists_run in He as [Hs Hb]; [|done]. injection Hb as ->.
  destruct (bool_decide_reflect (is_Some (t_files w !! terminal cid))) as [Hin|Hn].
  { by injection Hrun as <- <-. }
  apply sm_bind_inv in Hrun as [(l & w2 & Hl & Hrun)|(e & Hl & ->)].
  2:{ apply (preserves_run _ _ _ _ _ (load_frame root session)) in Hl. by split; [etrans|]. }
  apply (load_tombstones_ok root session) in Hl as [Hs2 Hl]; [|done]. injection Hrun as <- <-.
  split; [by etrans|]. intros [= Hone]. split; [by apply eq_None_not_Some|].
  intros Hret. apply not_true_iff_false in Hone. apply Hone, one_of_In, Hl.
  apply (keeps_retired root session w); [by rewrite Hs|intros i; by rewrite Hs|done].
Qed.

Lemma evolves_retired w w' cid : evolves w w' -> retired root session cid w -> retired root session cid w'.
Proof. intros Hev. apply keeps_retired; apply Hev. Qed.

(** A pending confirmation is displaced only once it expired. *)
Definition vacant (t : Z) (w : Files) : Prop :=
  forall r, held w pending r -> exists expires,
    parse_from_rfc3339 (cf_expires_at r) = Ok expires /\ expires <= t.

Lemma make_room_vacant w u w' :
  make_room root session w = (Ok u, w') -> exists t, vacant t w.
Proof.
  intros Hrun. unfold make_room in Hrun. inv_ok.
  match goal with E : read_confirmation_record _ _ _ = _ |- _ => apply read_record_ok in E as [_ Ho] end.
  destruct v as [existing|].
  2:{ exists 0. intros r [text Ht]%held_file. congruence. }
  destruct Ho as [Hh _]. inv_ok. unfold now in *. simplify_eq.
  match goal with E : confirmation_expiry _ = Ok ?e |- _ => rename e into expires; rename E into He end.
  destruct (Z.ltb_spec (h_now (t_tick w0)) expires); [done|]. exists (h_now (t_tick w0)).
  intros r Hr. assert (r = existing) as -> by congruence. exists expires. split; [|done].
  unfold confirmation_expiry in He. destruct (parse_from_rfc3339 _); [congruence|done].
Qed.

Record stages (input : StageTaskAuthorityConfirmation) (r : record) (w w' : Files) : Prop := {
  stg_action : In (st_action input) control_actions;
  stg_record : exists sha by_ t, confirmation_request_sha256 (st_command input) = Ok sha /\
    task_authority_confirmation_requester (st_action input) (st_command input) = Ok by_ /\
    r = staged_record session input sha by_ t (t + seconds (st_ttl_seconds input));
  stg_valid : validate_confirmation_record r session = Ok tt;
  stg_fresh : t_files w !! terminal (st_confirmation_id input) = None;
  stg_not_retired : ~ retired root session (st_confirmation_id input) w;
  stg_vacant : exists t, vacant t w;
  stg_pending : held w' pending r;
}.

Lemma stage_run input w x w' :
  stage_task_authority_confirmation root session input w = (x, w') ->
  exists w1, evolves w w1 /\
    match x with
    | Ok r => stages input r w w' /\ same_at (fun p => durable p /\ p <> pending) w1 w'
    | Err _ => same_at durable w1 w'
    end.
Proof.
  intros Hrun. unfold stage_task_authority_confirmation in Hrun.
  destruct (_ || _) eqn:Hg; [injection Hrun as <- <-; by exists w|]. inv_bool.
  match goal with E : one_of _ _ = true |- _ => apply one_of_In in E as Haction end.
  apply sm_bind_inv in Hrun as [(used & w1 & Hu & Hrun)|(e & Hu & ->)];
    apply already_terminal_run in Hu as [Hs Hfresh]; apply same_evolves in Hs as Hev; [|by eexists].
  destruct used; [injection Hrun as <- <-; by exists w1|].
  destruct (Hfresh eq_refl) as [Hnone Hret].
  apply sm_bind_inv in Hrun as [(u & w2 & Hroom & Hrun)|(e & Hroom & ->)];
    apply make_room_evolves in Hroom as Hev2; [|exists w'; split; [by etrans|done]].
  apply make_room_vacant in Hroom as [t Hvac]. exists w2. split; [by etrans|].
  apply sm_bind_inv in Hrun as [(at_ & w3 & [= <- <-] & Hrun)|(e & [=] & _)].
  destruct (_ <? _); [by injection Hrun as <- <-|].
  apply sm_bind_inv in Hrun as [(expires & w3 & [Hexp%instant_ok ->]%sm_lift_ok & Hrun)|(e & [= _ <-] & ->)];
    [|done]. subst expires.
  apply sm_bind_inv in Hrun as [(sha & w3 & [Hsha ->]%sm_lift_ok & Hrun)|(e & [= _ <-] & ->)]; [|done].
  apply sm_bind_inv in Hrun as [(by_ & w3 & [Hby ->]%sm_lift_ok & Hrun)|(e & [= _ <-] & ->)]; [|done].
  apply sm_bind_inv in Hrun as [(u' & w3 & [Hv ->]%sm_lift_ok & Hrun)|(e & [= _ <-] & ->)]; [|done].
  destruct u'. apply sm_bind_inv in Hrun as [(u' & w3 & Hw & Hrun)|(e & Hw & ->)];
    (apply write_private_json_run in Hw; [|apply (pending_durable root session)]); [|done].
  injection Hrun as <- <-. destruct Hw as [Hheld Hat]. split; [|exact Hat].
  split; try done; [by exists sha, by_; eexists|].
  exists t. intros r Hr. apply Hvac. unfold stored in *. by rewrite Hs.
Qed.

(** ** Finalizing *)

Lemma finalize_confirmation_run r outcome w x w' :
  cf_session_id r = session -> finalize_task_authority_confirmation root r outcome w = (x, w') ->
  match x with
  | Ok _ => held w (terminal (cf_confirmation_id r)) r /\
      (exists bytes t, to_vec outcome = Some bytes /\
        held w' (terminal (cf_confirmation_id r))
          (set_result (hex_encode (sha256 bytes)) (v ← jget outcome "success"; as_bool v)
             (to_rfc3339 t) r)) /\
      same_at (fun p => durable p /\ p <> terminal (cf_confirmation_id r)) w w'
  | Err _ => same_at durable w w'
  end.
Proof.
  intros Hsn Hrun. unfold finalize_task_authority_confirmation in Hrun. rewrite Hsn in Hrun.
  apply sm_bind_inv in Hrun as [(o & w1 & Hr & Hrun)|(e & Hr & ->)].
  2:{ apply (preserves_run _ _ _ _ _ (read_record_frame _ _)) in Hr. by apply same_same_at. }
  apply read_record_ok in Hr as [Hs Ho]. apply (same_same_at durable) in Hs as Hat.
  apply sm_bind_inv in Hrun as [(existing & w2 & [He%ok_or_ok ->]%sm_lift_ok & Hrun)|(e & [= _ <-] & ->)];
    [|done]. subst o.
  destruct (bool_decide_reflect (existing = r)) as [->|]; [|by injection Hrun as <- <-].
  apply sm_bind_inv in Hrun as [(bytes & w2 & [Hb%ok_or_ok ->]%sm_lift_ok & Hrun)|(e & [= _ <-] & ->)];
    [|done].
  apply sm_bind_inv in Hrun as [(t & w2 & [= <- <-] & Hrun)|(e & [=] & _)].
  apply write_private_json_run in Hrun; [|apply (terminal_durable root session)].
  destruct x as [u|]; [|intros p Hp; rewrite <-Hs; by apply Hrun].
  destruct Hrun as [Hheld Hw]. split_and!; [apply Ho|by exists bytes, (h_now (t_tick w1))|].
  intros p Hp. rewrite <-Hs. by apply Hw.
Qed.

(** ** Listing *)

Lemma read_receipts_frame {B} (f : string -> record -> SM Files (list B)) d s names :
  (forall path r, preserves same (f path r)) -> preserves same (read_receipts f d s names).
Proof.
  intros Hf. induction names as [|name names IH]; cbn [read_receipts]; frame.
  apply read_record_frame.
Qed.

Lemma list_receipts_frame {B} (f : string -> record -> SM Files (list B)) s :
  (forall path r, preserves same (f path r)) -> preserves same (list_receipts f root s).
Proof.
  intros Hf. unfold list_receipts. frame. by apply read_receipts_frame.
Qed.

Lemma read_receipts_ok {B} (f : string -> record -> SM Files (list B)) d s names w l w' b :
  (forall path r, preserves same (f path r)) ->
  read_receipts f d s names w = (Ok l, w') -> In b l ->
  exists name r w1 these w2, same w w1 /\ held w (fmt [d; "/"; name]) r /\
    validate_confirmation_record r s = Ok tt /\
    f (fmt [d; "/"; name]) r w1 = (Ok these, w2) /\ In b these.
Proof.
  intros Hf. revert w l. induction names as [|name names IH]; intros w l Hrun Hb;
    cbn [read_receipts] in Hrun; [inv_ok; by destruct Hb|].
  apply sm_bind_ok in Hrun as (u & w1 & Hsys & Hrun). apply sys_inv in Hsys as [-> _].
  destruct (negb _). { destruct (IH _ _ Hrun Hb) as (n & r & ?). by exists n, r. }
  apply sm_bind_ok in Hrun as (o & w1 & Hr & Hrun). apply read_record_ok in Hr as [Hs Ho].
  apply sm_bind_ok in Hrun as (these & w2 & Hthese & Hrun).
  apply sm_bind_ok in Hrun as (others & w3 & Hothers & Hrun). injection Hrun as <- <-.
  apply in_app_iff in Hb as [Hb|Hb].
  - destruct o as [r|]; [|by injection Hthese as <- <-]. destruct Ho as [Hh Hv].
    exists name, r, w1, these, w2. split_and!; done.
  - assert (same w w2) as Hs2.
    { etrans; [exact Hs|]. destruct o as [r|]; [|by injection Hthese as <- <-].
      exact (preserves_run _ _ _ _ _ (Hf _ _) Hthese). }
    destruct (IH _ _ Hothers Hb) as (n & r & w4 & t & w5 & Hs4 & Hh & Hrest).
    exists n, r, w4, t, w5. split; [by etrans|]. split; [|done]. by rewrite <-(stored_same _ _ _ Hs2).
Qed.

Lemma list_receipts_ok {B} (f : string -> record -> SM Files (list B)) s w l w' b :
  (forall path r, preserves same (f path r)) ->
  list_receipts f root s w = (Ok l, w') -> In b l ->
  exists name r w1 these w2, same w w1 /\
    held w (fmt [receipts_directory root s; "/"; name]) r /\
    validate_confirmation_record r s = Ok tt /\
    f (fmt [receipts_directory root s; "/"; name]) r w1 = (Ok these, w2) /\ In b these.
Proof.
  intros Hf Hrun Hb. unfold list_receipts in Hrun.
  apply sm_bind_ok in Hrun as (present & w1 & He & Hrun).
  apply (preserves_run _ _ _ _ _ (same_directory_exists _)) in He.
  destruct present; cbn [negb] in Hrun; [|inv_ok; by destruct Hb].
  apply sm_bind_ok in Hrun as (names & w2 & Hn & Hrun).
  apply (preserves_run _ _ _ _ _ (same_read_dir _ _)) in Hn.
  assert (same w w2) as Hs by (by etrans).
  destruct (read_receipts_ok _ _ _ _ _ _ _ _ Hf Hrun Hb) as (n & r & w3 & t & w4 & Hs3 & Hh & Hrest).
  exists n, r, w3, t, w4. split; [by etrans|]. split; [|done]. by rewrite <-(stored_same _ _ _ Hs).
Qed.

Lemma public_receipt_frame r : preserves same (confirmation_public_receipt r).
Proof. unfold confirmation_public_receipt. frame. Qed.

Lemma status_evolves w x w' :
  task_authority_confirmation_status root session w = (x, w') -> evolves w w'.
Proof.
  intros Hrun. unfold task_authority_confirmation_status in Hrun.
  apply sm_bind_inv in Hrun as [(p & w1 & Hl & Hrun)|(e & Hl & ->)];
    apply load_run in Hl as [Hev _]; [|done].
  etrans; [exact Hev|]. apply same_evolves. revert Hrun. apply preserves_run.
  pose proof public_receipt_frame. apply preserves_bind; [typeclasses eauto|frame; auto|intros first].
  apply preserves_bind; [typeclasses eauto|apply list_receipts_frame; intros; frame; auto|intros; frame].
Qed.

(** ** Cleaning up *)

(** A receipt that may be retired: it has a terminal state, a known outcome and
    the age the request asks for. *)
Definition retirable (cutoff : Z) (r : record) : Prop :=
  cf_state r <> "pending"%string /\ confirmation_receipt_is_indeterminate r = false /\
  exists anchor, confirmation_receipt_age_anchor r = Ok anchor /\ anchor <= cutoff.

Lemma classify_frame path r : preserves same (classify_receipt path r).
Proof. unfold classify_receipt. frame. Qed.

Lemma classify_ok path r w these w' b :
  classify_receipt path r w = (Ok these, w') -> In b these ->
  match b with
  | None => confirmation_receipt_is_indeterminate r = true
  | Some (anchor, path', r') => path' = path /\ r' = r /\ cf_state r <> "pending"%string /\
      confirmation_receipt_is_indeterminate r = false /\ confirmation_receipt_age_anchor r = Ok anchor
  end.
Proof.
  unfold classify_receipt. destruct (confirmation_receipt_is_indeterminate r) eqn:Hi.
  { intros [= <- <-] [<-|[]]. done. }
  destruct (bool_decide_reflect (cf_state r = "pending"%string)); cbn [negb].
  { by intros [= <- <-] []. }
  intros Hrun Hb. inv_ok. destruct Hb as [<-|[]]. by split_and!.
Qed.

Lemma candidates_ok (keep : nat) cutoff found candidates c :
  list_traverse candidate
    (List.filter (fun r : SafeRecord => r.1.1 <=? cutoff)
       (take keep (merge_sort older (omap id found)))) = Ok candidates ->
  In c candidates ->
  exists anchor r, In (Some (anchor, c.1.1, r)) found /\ anchor <= cutoff /\
    cf_confirmation_id r = c.1.2.
Proof.
  intros Hl%list_traverse_ok Hc. apply list_elem_of_In, list_elem_of_lookup in Hc as [i Hi].
  destruct (Forall2_lookup_r _ _ _ _ _ Hl Hi) as ([[anchor path] r] & Hs & Hcand).
  unfold candidate in Hcand. inv_ok. apply list_elem_of_lookup_2, list_elem_of_In, filter_In in Hs as [Hs Hle].
  exists anchor, r. cbn in Hle. split_and!; [|by apply Z.leb_le|done].
  apply list_elem_of_In in Hs. apply list_elem_of_In.
  assert (Hin : (anchor, path, r) ∈ merge_sort older (omap id found)).
  { rewrite <-(take_drop keep). apply elem_of_app. by left. }
  rewrite merge_sort_Permutation in Hin. apply list_elem_of_omap in Hin as (o & Ho & Hoe).
  change (o = Some (anchor, path, r)) in Hoe. by subst o.
Qed.

Lemma remove_all_run (cs : list (string * string * value)) w x w' :
  sm_iter (fun c => remove_receipt c.1.1) cs w = (x, w') ->
  forall p, t_files w' !! p = t_files w !! p \/
    (t_files w' !! p = None /\ exists c, In c cs /\ c.1.1 = p).
Proof.
  revert w. induction cs as [|c cs IH]; intros w Hrun p; cbn [sm_iter] in Hrun.
  { injection Hrun as <- <-. by left. }
  apply sm_bind_inv in Hrun as [(u & w1 & Hr & Hrun)|(e & Hr & ->)];
    apply remove_present_run in Hr as (Hat & Hor & _).
  - destruct (IH _ Hrun p) as [->|(Hn & c' & Hc & <-)]; [|right; split; [done|by exists c'; split; [right|]]].
    destruct (decide (p = c.1.1)) as [->|Hne]; [|left; by apply Hat].
    destruct Hor as [Hs|Hn]; [left; by rewrite Hs|right; split; [done|by exists c; split; [left|]]].
  - destruct (decide (p = c.1.1)) as [->|Hne]; [|left; by apply Hat].
    destruct Hor as [Hs|Hn]; [left; by rewrite Hs|right; split; [done|by exists c; split; [left|]]].
Qed.

(** The review digest that an applied cleanup must quote binds its candidates. *)
Definition reviewed (input : CleanupTaskAuthorityConfirmations) (cid : string) : Prop :=
  exists evidence candidates digest, cl_review_sha256 input = Some digest /\
    review_digest session input evidence (map snd candidates) = Ok digest /\
    exists c : string * string * value, In c candidates /\ c.1.2 = cid.

(** What a cleanup may do to a file of the session. *)
Record cleans (input : CleanupTaskAuthorityConfirmations) (w w' : Files) : Prop := {
  cln_retired : forall cid, retired root session cid w -> retired root session cid w';
  cln_pending : t_files w' !! pending = t_files w !! pending;
  cln_file : forall p, outside root session p ->
    t_files w' !! p = t_files w !! p \/
    (t_files w' !! p = None /\ cl_apply input = true /\
     exists r t, held w p r /\ validate_confirmation_record r session = Ok tt /\
       retirable (t - seconds (cl_min_age_seconds input)) r /\
       reviewed input (cf_confirmation_id r) /\ retired root session (cf_confirmation_id r) w');
}.

Lemma same_cleans input w w' : same w w' -> cleans input w w'.
Proof.
  intros Hs. split; [|by rewrite Hs|intros; left; by rewrite Hs].
  intros cid. apply keeps_retired; intros; by rewrite Hs.
Qed.

Lemma cleans_same input w1 w2 w3 w4 :
  same w1 w2 -> cleans input w2 w3 -> same w3 w4 -> cleans input w1 w4.
Proof.
  intros Hs1 [Hr Hp Hf] Hs2.
  assert (forall cid, retired root session cid w3 -> retired root session cid w4) as Hr2
    by (intros cid; apply keeps_retired; intros; by rewrite Hs2).
  split.
  - intros cid Hret. apply Hr2, Hr. revert Hret. apply keeps_retired; intros; by rewrite Hs1.
  - by rewrite Hs2, Hp, Hs1.
  - intros p Hout. rewrite Hs2, <-Hs1.
    destruct (Hf p Hout) as [?|(Hn & Ha & r & t & Hh & ? & ? & ? & ?)]; [by left|right].
    split_and!; [done|done|]. exists r, t. split; [by rewrite <-(stored_same _ _ _ Hs1)|].
    split_and!; try done. by apply Hr2.
Qed.

(** The tombstones are written first, then the receipts go. *)
Lemma retire_cleans input tombstones (cands : list (string * string * value)) w x w' :
  cl_apply input = true -> extends root session tombstones w ->
  (forall c, In c cands -> (exists name, c.1.1 = fmt [receipts_directory root session; "/"; name]) /\
    exists r t, held w c.1.1 r /\ validate_confirmation_record r session = Ok tt /\
      retirable (t - seconds (cl_min_age_seconds input)) r /\
      cf_confirmation_id r = c.1.2 /\ reviewed input c.1.2) ->
  retire root session tombstones cands w = (x, w') -> cleans input w w'.
Proof.
  intros Happly Hex Hcands Hrun. unfold retire in Hrun.
  apply sm_bind_inv in Hrun as [(final & w1 & Hp & Hrun)|(e & Hp & ->)];
    destruct (persist_run root session _ _ _ _ _ Hex Hp) as (Hout & Hkept & Hnew).
  2:{ split; [done| |by left; apply Hout]. apply Hout, pending_outside. }
  specialize (Hnew eq_refl).
  assert (exists y, sm_iter (fun c => remove_receipt c.1.1) cands w1 = (y, w')) as [y Hrm].
  { apply sm_bind_inv in Hrun as [(u & w2 & Hrm & [= <- <-])|(e & Hrm & ->)]; by eexists. }
  pose proof (remove_all_run _ _ _ _ Hrm) as Hfiles.
  assert (forall p, (forall name, fmt [receipts_directory root session; "/"; name] <> p) ->
    t_files w' !! p = t_files w1 !! p) as Hother.
  { intros p Hne. destruct (Hfiles p) as [?|(_ & c & Hc & <-)]; [done|].
    destruct (Hcands c Hc) as [[name Hname] _]. by destruct (Hne name). }
  assert (forall cid, retired root session cid w1 -> retired root session cid w') as Hret.
  { intros cid. apply keeps_retired; intros; apply Hother; intros name;
      [apply receipt_not_manifest|apply receipt_not_segment]. }
  split; [by auto| |].
  - rewrite Hother by apply receipt_not_pending. apply Hout, pending_outside.
  - intros p Ho. rewrite <-(Hout p Ho). destruct (Hfiles p) as [?|(Hn & c & Hc & <-)]; [by left|right].
    destruct (Hcands c Hc) as (_ & r & t & Hh & Hv & Hretirable & Hid & Hrev).
    split_and!; [done|done|]. exists r, t. rewrite Hid. split_and!; try done.
    apply Hret, Hnew. apply in_map_iff. by exists c.
Qed.

Lemma cleanup_run input w x w' :
  cleanup_task_authority_confirmations root session input w = (x, w') -> cleans input w w'.
Proof.
  intros Hrun. unfold cleanup_task_authority_confirmations in Hrun.
  destruct (negb (valid_actor _)); [injection Hrun as <- <-; by apply same_cleans|].
  apply sm_bind_inv in Hrun as [(at_ & w1 & [= <- <-] & Hrun)|(e & [=] & _)].
  destruct (_ <? _); [injection Hrun as <- <-; by apply same_cleans|].
  apply sm_bind_inv in Hrun as [(cutoff & w1 & [Hcut%instant_ok ->]%sm_lift_ok & Hrun)|(e & [= _ <-] & ->)];
    [|by apply same_cleans]. subst cutoff.
  apply sm_bind_inv in Hrun as [(found & w1 & Hl & Hrun)|(e & Hl & ->)];
    apply (preserves_run _ _ _ _ _ (list_receipts_frame _ _ classify_frame)) in Hl as Hs;
    [|by apply same_cleans].
  cbv zeta in Hrun.
  apply sm_bind_inv in Hrun as [(cands & w2 & [Hc ->]%sm_lift_ok & Hrun)|(e & [= _ <-] & ->)];
    [|by apply same_cleans].
  apply sm_bind_inv in Hrun as [(tombstones & w2 & Ht & Hrun)|(e & Ht & ->)];
    apply (preserves_run _ _ _ _ _ (load_frame root session)) in Ht as Hs2;
    [|by apply same_cleans; etrans].
  assert (same w w2) as Hsw by (etrans; [exact Hs|exact Hs2]).
  apply sm_bind_inv in Hrun as [(evidence & w3 & [He ->]%sm_lift_ok & Hrun)|(e & [= _ <-] & ->)];
    [|by apply same_cleans].
  apply sm_bind_inv in Hrun as [(review & w3 & [Hreview ->]%sm_lift_ok & Hrun)|(e & [= _ <-] & ->)];
    [|by apply same_cleans].
  assert (forall m (k : LoadedTombstones * list string -> SM Files CleanupReceipt),
    (forall y w4, m w2 = (y, w4) -> cleans input w2 w4) -> (forall d, preserves same (k d)) ->
    (m ≫= k) w2 = (x, w') -> cleans input w w') as Htail.
  { intros m k Hm Hk [(d & w4 & Hd & Hrun')|(e & Hd & _)]%sm_bind_inv; apply Hm in Hd.
    - eapply cleans_same; [exact Hsw|exact Hd|]. exact (preserves_run _ _ _ _ _ (Hk d) Hrun').
    - by eapply cleans_same. }
  destruct (cl_apply input && _) eqn:Hgate in Hrun; [injection Hrun as <- <-; by apply same_cleans|].
  revert Hrun. apply Htail; [|intros [final removed]; frame]. intros y w4 Hy.
  destruct (cl_apply input && _) eqn:Hdo in Hy; [|injection Hy as <- <-; by apply same_cleans].
  apply andb_true_iff in Hdo as [Happly _]. rewrite Happly in Hgate. cbn [andb] in Hgate. inv_bool.
  eapply retire_cleans; [done| | |exact Hy].
  { apply (extends_same root session _ w1); [done|]. by apply (load_extends root session _ _ w2). }
  intros c Hin. destruct (candidates_ok _ _ _ _ _ Hc Hin) as (anchor & r & Hfound & Hle & Hid).
  destruct (list_receipts_ok _ _ _ _ _ _ classify_frame Hl Hfound)
    as (name & r' & w5 & these & w6 & Hs5 & Hh & Hv & Hcl & Hthese).
  destruct (classify_ok _ _ _ _ _ _ Hcl Hthese) as (Hpath & <- & ? & ? & ?).
  split; [by eexists|]. exists r, (h_now (t_tick w)). split_and!; try done.
  - rewrite Hpath, (stored_same _ _ _ Hs2), (stored_same _ _ _ Hs). exact Hh.
  - split_and!; [done|done|]. by exists anchor.
  - exists evidence, cands, review. split_and!; [done|done|]. by exists c.
Qed.

(** ** Histories *)

Definition confirmation_file (p : string) : Prop :=
  p = pending \/ p = manifest \/ (exists i, p = segment i) \/ exists cid, p = terminal cid.

(** A step: an operation on the confirmations of the session, whatever its
    outcome, or any change that leaves their files alone. *)
Inductive step (w w' : Files) : Prop :=
| step_stage input x : stage_task_authority_confirmation root session input w = (x, w') -> step w w'
| step_load x : load_task_authority_pending_confirmation root session w = (x, w') -> step w w'
| step_active x : active_task_authority_pending_confirmation root session w = (x, w') -> step w w'
| step_decide input x :
    decide_task_authority_confirmation root session input w = (x, w') -> step w w'
| step_finalize r outcome x : cf_session_id r = session ->
    finalize_task_authority_confirmation root r outcome w = (x, w') -> step w w'
| step_status x : task_authority_confirmation_status root session w = (x, w') -> step w w'
| step_cleanup input x :
    cleanup_task_authority_confirmations root session input w = (x, w') -> step w w'
| step_elsewhere : same_at confirmation_file w w' -> step w w'.

(** A decided confirmation: its receipt or its tombstone is there, and it is
    not pending. *)
Definition consumed (cid : string) (w : Files) : Prop :=
  ((exists r, held w (terminal cid) r /\ cf_confirmation_id r = cid) \/ retired root session cid w) /\
  forall r, held w pending r -> cf_confirmation_id r <> cid.

Lemma consumed_evolves cid w w' : evolves w w' -> consumed cid w -> consumed cid w'.
Proof.
  intros Hev [Hdone Hpend]. split.
  - destruct Hdone as [(r & Hh & Hid)|Hret]; [left; exists r; split; [|done]|right; by eapply evolves_retired].
    apply held_file in Hh as Hin. destruct Hin as [text Ht]. unfold stored in *.
    by rewrite (evo_terminal _ _ Hev _ _ Ht), <-Ht.
  - intros r Hr. apply Hpend. unfold stored in *. destruct (evo_pending _ _ Hev) as [He|He].
    + by rewrite <-He.
    + by rewrite He in Hr.
Qed.

Lemma consumed_same_at cid w w' :
  same_at confirmation_file w w' -> consumed cid w -> consumed cid w'.
Proof.
  intros Hat. apply consumed_evolves. split.
  - apply Hat. by right; left.
  - intros i. apply Hat. right; right; left. by exists i.
  - left. apply Hat. by left.
  - intros c text <-. apply Hat. right; right; right. by exists c.
Qed.

Lemma confirmation_file_durable p : confirmation_file p -> durable p.
Proof.
  intros [->|[->|[[i ->]|[cid ->]]]];
    [apply pending_durable|apply manifest_durable|apply segment_durable|apply terminal_durable].
Qed.
Lemma durable_same_at w w' : same_at durable w w' -> same_at confirmation_file w w'.
Proof. intros Hat p Hp. by apply Hat, confirmation_file_durable. Qed.

(** A write that changes one confirmation file. *)
Lemma consumed_ledger cid w w' :
  t_files w' !! manifest = t_files w !! manifest ->
  (forall i, t_files w' !! segment i = t_files w !! segment i) ->
  ((exists r, held w (terminal cid) r /\ cf_confirmation_id r = cid) ->
    exists r, held w' (terminal cid) r /\ cf_confirmation_id r = cid) ->
  (forall r, held w' pending r -> cf_confirmation_id r <> cid) ->
  consumed cid w -> consumed cid w'.
Proof.
  intros Hm Hs Ht Hp [[Hh|Hret] _]; split; try done; [left; auto|right].
  by apply (keeps_retired root session w).
Qed.

Lemma consumed_stage cid input w x w' :
  stage_task_authority_confirmation root session input w = (x, w') -> consumed cid w ->
  consumed cid w' /\ (is_ok x = true -> st_confirmation_id input <> cid).
Proof.
  intros (w1 & Hev & Hx)%stage_run Hc. pose proof (consumed_evolves _ _ _ Hev Hc) as Hc1.
  destruct x as [r|]; [|split; [|done]; by eapply consumed_same_at, Hc1; apply durable_same_at].
  destruct Hx as [Hst Hat].
  assert (st_confirmation_id input <> cid) as Hne.
  { intros <-. destruct Hc as [[(r' & Hh & _)|Hret] _].
    - apply held_file in Hh as [text Ht]. by rewrite (stg_fresh _ _ _ _ Hst) in Ht.
    - by apply (stg_not_retired _ _ _ _ Hst). }
  split; [|done]. revert Hc1. apply consumed_ledger.
  - apply Hat. split; [apply manifest_durable|]. apply not_eq_sym, ledger_not_pending.
  - intros i. apply Hat. split; [apply segment_durable|]. apply not_eq_sym, ledger_not_pending.
  - intros (r' & Hh & Hid). exists r'. split; [|done]. unfold stored in *. rewrite Hat; [done|].
    split; [apply terminal_durable|apply receipt_not_pending].
  - intros r' Hr'. pose proof (stg_pending _ _ _ _ Hst) as Hp.
    destruct (stg_record _ _ _ _ Hst) as (sha & by_ & t & _ & _ & Heq).
    assert (r' = r) as -> by congruence. by rewrite Heq.
Qed.

Lemma consumed_finalize cid r outcome w x w' :
  cf_session_id r = session -> finalize_task_authority_confirmation root r outcome w = (x, w') ->
  consumed cid w -> consumed cid w'.
Proof.
  intros Hsn Hrun Hc. apply finalize_confirmation_run in Hrun; [|done].
  destruct x as [u|]; [|by eapply consumed_same_at, Hc; apply durable_same_at].
  destruct Hrun as (Hh & (bytes & t & _ & Hh') & Hat). pose proof (proj2 Hc) as Hpend.
  revert Hc. apply consumed_ledger.
  - apply Hat. split; [apply manifest_durable|]. apply not_eq_sym, receipt_not_manifest.
  - intros i. apply Hat. split; [apply segment_durable|]. apply not_eq_sym, receipt_not_segment.
  - intros (r' & Hr' & Hid).
    destruct (decide (terminal cid = terminal (cf_confirmation_id r))) as [He|Hne].
    + rewrite He in *. eexists. split; [exact Hh'|]. cbn. congruence.
    + exists r'. split; [|done]. unfold stored in *. rewrite Hat; [done|].
      split; [apply terminal_durable|done].
  - intros r' Hr'. apply Hpend. unfold stored in *. rewrite Hat in Hr'; [done|].
    split; [apply pending_durable|]. apply not_eq_sym, receipt_not_pending.
Qed.

Lemma consumed_cleanup cid input w x w' :
  cleanup_task_authority_confirmations root session input w = (x, w') ->
  consumed cid w -> consumed cid w'.
Proof.
  intros Hcl%cleanup_run [Hdone Hpend]. split.
  - destruct Hdone as [(r & Hh & Hid)|Hret]; [|right; by apply (cln_retired _ _ _ Hcl)].
    destruct (cln_file _ _ _ Hcl (terminal cid)) as [He|(_ & _ & r' & t & Hh' & _ & _ & _ & Hret)].
    + apply receipt_outside, terminal_durable.
    + left. exists r. split; [|done]. unfold stored in *. by rewrite He.
    + right. assert (r' = r) as -> by congruence. by rewrite <-Hid.
  - intros r Hr. apply Hpend. unfold stored in *. by rewrite <-(cln_pending _ _ _ Hcl).
Qed.

Lemma consumed_step cid w w' : step w w' -> consumed cid w -> consumed cid w'.
Proof.
  intros Hstep Hc. destruct Hstep as [i x Hr|x Hr|x Hr|i x Hr|r o x Hsn Hr|x Hr|i x Hr|Hr].
  - by eapply consumed_stage.
  - apply load_run in Hr as [Hev _]. by eapply consumed_evolves.
  - apply active_evolves in Hr. by eapply consumed_evolves.
  - apply decide_run in Hr as [Hev _]. by eapply consumed_evolves.
  - by eapply consumed_finalize.
  - apply status_evolves in Hr. by eapply consumed_evolves.
  - by eapply consumed_cleanup.
  - by eapply consumed_same_at.
Qed.

Lemma consumed_decided input w decided w' :
  decide_task_authority_confirmation root session input w = (Ok decided, w') ->
  consumed (dc_confirmation_id input) w'.
Proof.
  intros Hrun. apply decide_run in Hrun as [_ Hok].
  destruct (Hok _ eq_refl) as (r & t & at_ & _ & Hd & -> & Hh & Hnone). split.
  - left. eexists. split; [exact Hh|]. apply (de_id _ _ _ Hd).
  - intros r' Hr'. unfold stored in Hr'. by rewrite Hnone in Hr'.
Qed.

Lemma consumed_not_decided cid input w decided w' :
  consumed cid w -> decide_task_authority_confirmation root session input w = (Ok decided, w') ->
  dc_confirmation_id input <> cid.
Proof.
  intros [_ Hpend] Hrun. apply decide_run in Hrun as [_ Hok].
  destruct (Hok _ eq_refl) as (r & t & at_ & (Hp & _) & Hd & _).
  rewrite <-(de_id _ _ _ Hd). by apply Hpend.
Qed.
End confirm.

End TaskConfirmProofs.
