(* ===== verification/TaskConfirmTheorems.v ===== *)
(** * The theorems on confirmations

    A decision is taken at most once and only on what was requested, it is
    always resolved, a cleanup keeps what it must, and the ledger of retired
    ids is sealed by a loop that ends. *)

From S2P Require Import Prelude RustStr Env TaskModel TaskIssue TaskProofs.
From S2P Require Import Tombstones TombstoneProofs TaskConfirm.
From Stdlib Require Import Ascii.
From stdpp Require Import sorting.
Import TaskModel TaskIssue TaskProofs Tombstones TombstoneProofs TaskConfirm TaskConfirmProofs.

Local Open Scope Z_scope.

Module TaskConfirmTheorems.

Section confirm.
Context `{!Host, !Json, !JsonBuild, !Crypto, !Chrono, !Serde value, !Serde (list string),
          !Serde Manifest, !Serde Segment, !Serde TaskAuthorityConfirmationRecord,
          !SerdeValue LegacyTombstones, !SerdeValue Manifest, !SerdeValue TaskAuthorityIssuer}.
Context (root session : string).
#[local] Abbreviation pending := (pending_confirmation_path root session).
#[local] Abbreviation terminal := (terminal_confirmation_path root session).
#[local] Abbreviation record := TaskAuthorityConfirmationRecord.
#[local] Abbreviation held w path r := (stored (T:=TaskAuthorityConfirmationRecord) path w = Some r).

(** ** Sealing segments *)

Lemma seal_segments_fuel fuel fuel' m w :
  0 < mf_segment_capacity m -> (length (mf_active_confirmation_ids m) <= fuel)%nat ->
  (length (mf_active_confirmation_ids m) <= fuel')%nat ->
  seal_segments root session fuel m w = seal_segments root session fuel' m w.
Proof.
  revert fuel' m w. induction fuel as [|fuel IH]; intros [|fuel'] m w Hcap Hl Hl';
    cbn [seal_segments]; unfold usize_len in *;
    destruct (Z.leb_spec (Z.of_nat (length (mf_active_confirmation_ids m))) (mf_segment_capacity m));
    try done; try lia.
  apply sm_bind_ext. intros t w1. apply sm_bind_ext. intros sha w2.
  apply sm_bind_ext. intros _ w3. apply sm_bind_ext. intros count w4.
  apply IH; [done|cbn; rewrite length_drop; lia..].
Qed.

(** C38. The loop that seals full segments ends: the fuel the model gives it, one
    pass for each active id, is enough, since more fuel changes neither the
    result nor the files, and when it succeeds the active ids that are left fit
    in one segment. *)
Theorem seal_segments_terminates (m : Manifest) (extra : nat) (w : Files) :
  0 < mf_segment_capacity m ->
  let run := seal_segments root session (length (mf_active_confirmation_ids m)) m w in
  seal_segments root session (length (mf_active_confirmation_ids m) + extra) m w = run /\
  forall m' w', run = (Ok m', w') ->
    usize_len (mf_active_confirmation_ids m') <= mf_segment_capacity m'.
Proof.
  intros Hcap. split; [apply seal_segments_fuel; [done|lia..]|].
  intros m' w' Hrun. by eapply seal_done in Hrun.
Qed.
End confirm.

Section decisions.
Context `{!Host, !Json, !JsonBuild, !Crypto, !Chrono, !Serde value, !Serde (list string),
          !Serde Manifest, !Serde Segment, !Serde TaskAuthorityConfirmationRecord,
          !SerdeValue LegacyTombstones, !SerdeValue Manifest, !SerdeValue TaskAuthorityIssuer,
          !ManifestFormat}.
Context (root session : string).
#[local] Abbreviation pending := (pending_confirmation_path root session).
#[local] Abbreviation terminal := (terminal_confirmation_path root session).
#[local] Abbreviation record := TaskAuthorityConfirmationRecord.
#[local] Abbreviation held w path r := (stored (T:=TaskAuthorityConfirmationRecord) path w = Some r).
(** C7. Where no metadata call fails (hypothesis [stat_reliable]: [Path::exists] takes such
    a failure for an absent file, and the ids and receipts there are then overlooked), a
    confirmation is decided at most once. A decision that was returned is stored as the
    receipt of its confirmation, and after any sequence of operations on the
    confirmations of the session, cleanups included, and those that fail at any other
    system call, no decision is returned for that id again, and no confirmation is
    staged under it. *)
Theorem confirm_once (input : DecideTaskAuthorityConfirmation) (w w1 w2 : Files) decided :
  stat_reliable ->
  decide_task_authority_confirmation root session input w = (Ok decided, w1) ->
  rtc (step root session) w1 w2 ->
  held w1 (terminal (dc_confirmation_id input)) decided /\
  (forall again r w3, decide_task_authority_confirmation root session again w2 = (Ok r, w3) ->
    dc_confirmation_id again <> dc_confirmation_id input) /\
  (forall again r w3, stage_task_authority_confirmation root session again w2 = (Ok r, w3) ->
    st_confirmation_id again <> dc_confirmation_id input).
Proof.
  intros reliable Hrun Hsteps. pose proof (consumed_decided root session reliable _ _ _ _ Hrun) as Hc.
  assert (consumed root session (dc_confirmation_id input) w2) as Hc2.
  { clear Hrun. induction Hsteps as [|w1 wm w2 Hs _ IH]; [done|].
    apply IH. by eapply consumed_step. }
  split_and!.
  - apply (decide_run root session reliable) in Hrun as [_ Hok].
    by destruct (Hok _ eq_refl) as (r & t & at_ & _ & _ & _ & Hh & _).
  - intros again r w3 Hagain. by eapply consumed_not_decided.
  - intros again r w3 Hagain. by eapply consumed_stage in Hagain as [_ Hne]; [apply Hne| |].
Qed.

(** Where no metadata call fails, a confirmation is staged under a fresh id, for a control action, in the
    name of the principal of the request, over no confirmation that is still
    live; it is the pending record, its request hash is that of its command. *)
Theorem stage_sound (input : StageTaskAuthorityConfirmation) (w w' : Files) (r : record) :
  stat_reliable ->
  stage_task_authority_confirmation root session input w = (Ok r, w') ->
  In (st_action input) control_actions /\
  held w' pending r /\ validate_confirmation_record r session = Ok tt /\
  cf_confirmation_id r = st_confirmation_id input /\ cf_command r = st_command input /\
  confirmation_request_sha256 (st_command input) = Ok (cf_request_sha256 r) /\
  task_authority_confirmation_requester (st_action input) (st_command input) = Ok (cf_requested_by r) /\
  t_files w !! terminal (st_confirmation_id input) = None /\
  ~ retired root session (st_confirmation_id input) w /\
  (exists t, forall p, held w pending p -> exists expires,
    parse_from_rfc3339 (cf_expires_at p) = Ok expires /\ expires <= t).
Proof.
  intros reliable (w1 & _ & Hst & _)%(stage_run root session reliable). destruct Hst
    as [? Hrec ? ? ? ? ?].
  destruct Hrec as (sha & by_ & t & ? & ? & ->). split_and!; done.
Qed.

(** C24. Where no metadata call fails (hypothesis [stat_reliable]; otherwise the pending
    record may stay and a receipt be replaced), a decision is returned only for the
    pending confirmation that the input names: its action, the principal who requested
    it, before it expires, and to confirm it the target and URL it was requested for; the
    command is the one that was hashed. The receipt is stored, and nothing is pending. *)
Theorem decide_sound (input : DecideTaskAuthorityConfirmation) (w w' : Files) (decided : record) :
  stat_reliable ->
  decide_task_authority_confirmation root session input w = (Ok decided, w') ->
  held w' (terminal (dc_confirmation_id input)) decided /\ t_files w' !! pending = None /\
  exists r t decided_at,
    held w pending r /\ t_files w !! terminal (dc_confirmation_id input) = None /\
    decidable input t r /\
    decided = set_decision (dc_decision input) (dc_decided_by input) decided_at r.
Proof.
  intros reliable (_ & Hok)%(decide_run root session reliable).
  destruct (Hok _ eq_refl) as (r & t & at_ & (Hp & _ & Hn) & Hd & -> & Hh & Hnone).
  split_and!; [done|done|]. exists r, t, at_. rewrite <-(de_id _ _ _ Hd). done.
Qed.

(** C32. Whatever its outcome, failures of any system call included but for the metadata
    calls behind [Path::exists] (hypothesis [stat_reliable]: where one fails, the ids
    retired so far may be overwritten), a cleanup keeps the pending confirmation, every
    receipt that is pending or whose outcome is unknown, and every id retired so far. A
    file it removes held a receipt that was old enough, was part of
    the review whose digest was quoted, and whose id is now retired. *)
Theorem cleanup_safe (input : CleanupTaskAuthorityConfirmations) (w w' : Files) x :
  stat_reliable ->
  cleanup_task_authority_confirmations root session input w = (x, w') ->
  t_files w' !! pending = t_files w !! pending /\
  (forall cid, retired root session cid w -> retired root session cid w') /\
  (forall p, outside root session p -> t_files w' !! p <> t_files w !! p ->
    t_files w' !! p = None /\ cl_apply input = true /\
    exists r t, held w p r /\ retirable (t - seconds (cl_min_age_seconds input)) r /\
      reviewed session input (cf_confirmation_id r) /\
      retired root session (cf_confirmation_id r) w').
Proof.
  intros reliable Hcl%(cleanup_run root session reliable). split_and!; [apply Hcl|apply Hcl|].
  intros p Hout Hne.
  destruct (cln_file _ _ _ _ _ Hcl p Hout) as [?|(? & ? & r & t & ? & _ & ? & ? & ?)]; [done|].
  split_and!; [done|done|]. by exists r, t.
Qed.
End decisions.

(** ** Progress *)

Section progress.
Context `{!Host, !Json, !JsonBuild, !Crypto, !Chrono, !Serde value, !Serde (list string),
          !Serde Manifest, !Serde Segment, !Serde TaskAuthorityConfirmationRecord,
          !SerdeValue LegacyTombstones, !SerdeValue Manifest, !SerdeValue TaskAuthorityIssuer}.
Context (root session : string).
#[local] Abbreviation pending := (pending_confirmation_path root session).
#[local] Abbreviation terminal := (terminal_confirmation_path root session).
#[local] Abbreviation record := TaskAuthorityConfirmationRecord.
#[local] Abbreviation held w path r := (stored (T:=TaskAuthorityConfirmationRecord) path w = Some r).
(** Nothing fails: system calls succeed, [exists] is right, records serialize. *)
Context (reliable : stat_reliable).
Context (running : forall t, h_sys t = true).
Context (encodes : forall r : record, is_Some (to_vec r)).

Lemma sys_live e w : sys e w = (Ok tt, ticked w).
Proof. unfold sys. by rewrite running. Qed.

Lemma write_live directory name (r : record) label w :
  exists w', write_private_json directory name r label w = (Ok tt, w').
Proof.
  destruct (encodes r) as [text Ht]. unfold write_private_json, sm_modify, uuid.
  repeat (unfold mbind at 1, sm_bind at 1; rewrite ?sys_live, ?Ht; cbn [sm_lift ok_or]).
  by eexists.
Qed.

Lemma read_missing path s w :
  t_files w !! path = None -> read_confirmation_record path s w = (Ok None, ticked w).
Proof.
  intros Hn. unfold read_confirmation_record, read_json, exists_, mbind, sm_bind.
  by rewrite Hn, andb_false_r.
Qed.

Lemma commit_live r w :
  cf_session_id r = session -> t_files w !! terminal (cf_confirmation_id r) = None ->
  exists w', forall A (y : res A), (archive_confirmation root r ≫= fun _ =>
    remove_pending_confirmation root session ≫= fun _ => sm_lift y) w = (y, w').
Proof.
  intros Hs Hn. unfold archive_confirmation. rewrite Hs.
  assert (exists w1, (o ← read_confirmation_record (terminal (cf_confirmation_id r)) session;
    match o with
    | Some existing => if existing == r then mret tt
        else sm_err "Task authority confirmation already has a different decision receipt"
    | None => write_private_json (receipts_directory root session)
        (receipt_name (cf_confirmation_id r)) r "task authority confirmation receipt"
    end) w = (Ok tt, w1)) as [w1 Hw].
  { erewrite sm_bind_run by by apply read_missing. apply write_live. }
  unfold remove_pending_confirmation.
  assert (exists w2, (present ← exists_ pending;
    if present : bool then remove_file pending "Failed to consume task authority confirmation"
    else mret tt) w1 = (Ok tt, w2)) as [w2 Hr].
  { unfold exists_, remove_file, sm_modify. unfold mbind at 1, sm_bind at 1.
    destruct (_ && _); [|by eexists]. unfold mbind, sm_bind. rewrite sys_live. by eexists. }
  exists w2. intros A y. erewrite sm_bind_run by exact Hw. by erewrite sm_bind_run by exact Hr.
Qed.

(** A record that loads is checked against the input without an error. *)
Lemma decision_mismatch_iff r input expires t :
  In (dc_decision input) ["confirm"; "deny"]%string -> valid_actor (dc_decided_by input) = true ->
  validate_confirmation_record r session = Ok tt ->
  parse_from_rfc3339 (cf_expires_at r) = Ok expires ->
  exists m, decision_mismatch r input (expires <=? t) = Ok m /\ (m = None <-> decidable input t r).
Proof.
  intros Hin Hactor Hv Hexp.
  assert (confirmation_request_sha256 (cf_command r) = Ok (cf_request_sha256 r)) as Hsha.
  { unfold validate_confirmation_record in Hv. guards. congruence. }
  pose proof (validate_nonempty _ _ Hv) as [Ht Hu].
  destruct (decision_mismatch r input (expires <=? t)) as [m|e] eqn:Hm.
  2:{ unfold decision_mismatch in Hm. rewrite Hsha in Hm.
      repeat match goal with E : (if ?c then _ else _) = Err _ |- _ => destruct c; [done|] end. done. }
  exists m. split; [done|]. split.
  - intros ->. apply decision_mismatch_none in Hm as (He%Z.leb_gt & ? & ? & ? & ? & ?); [|done|done].
    split; try done. by exists expires.
  - intros [_ _ Hid Ha Hr (e & He & Hlt) Hobs _]. assert (e = expires) as -> by congruence.
    revert Hm. unfold decision_mismatch. rewrite (proj2 (Z.leb_gt _ _) Hlt), Hsha, Hid, Ha, Hr.
    rewrite !bool_decide_true by done. cbn [negb].
    destruct (bool_decide_reflect (dc_decision input = "confirm"%string)) as [Hc|]; cbn [andb];
      [destruct (Hobs Hc) as [-> ->]; rewrite !bool_decide_true by done; cbn [negb]|];
      cbn; rewrite bool_decide_true by done; by intros [= <-].
Qed.

(** C36. With no system failure, whatever a valid actor decides about a confirmation
    that loads, the confirmation is resolved: nothing is pending, and its
    receipt is stored: the decision, when the input matches the request before
    it expires, and otherwise an expired or invalidated record, with an error. *)
Theorem decide_resolves (input : DecideTaskAuthorityConfirmation) (w w1 : Files) (r : record) :
  In (dc_decision input) ["confirm"; "deny"]%string -> valid_actor (dc_decided_by input) = true ->
  load_task_authority_pending_confirmation root session w = (Ok (Some r), w1) ->
  exists x w' receipt,
    decide_task_authority_confirmation root session input w = (x, w') /\
    t_files w' !! pending = None /\ held w' (terminal (cf_confirmation_id r)) receipt /\
    cf_confirmation_id receipt = cf_confirmation_id r /\
    (x = Ok receipt /\ decidable input (h_now (t_tick w1)) r \/
     is_ok x = false /\ ~ decidable input (h_now (t_tick w1)) r /\
     In (cf_state receipt) ["expired"; "invalidated"]%string).
Proof.
  intros Hin Hactor Hl. apply (load_run root session reliable) in Hl as Hrun.
  destruct Hrun as [_ Hload]. destruct (Hload r eq_refl) as (Hs & Hheld & Hv & Hnone).
  pose proof (validate_session _ _ Hv) as Hsn.
  assert (exists expires, parse_from_rfc3339 (cf_expires_at r) = Ok expires) as [expires Hexp].
  { unfold validate_confirmation_record in Hv. guards.
    destruct (parse_from_rfc3339 (cf_expires_at r)) as [e|]; [by exists e|done]. }
  destruct (decision_mismatch_iff r input expires (h_now (t_tick w1))) as (m & Hm & Hiff); try done.
  assert (forall r' w2, same w1 w2 -> cf_session_id r' = session ->
    cf_confirmation_id r' = cf_confirmation_id r ->
    exists w', (forall A (y : res A), (archive_confirmation root r' ≫= fun _ =>
      remove_pending_confirmation root session ≫= fun _ => sm_lift y) w2 = (y, w')) /\
      t_files w' !! pending = None /\ held w' (terminal (cf_confirmation_id r)) r') as Hcommit.
  { intros r' w2 Hs2 Hsn' Hid. destruct (commit_live r' w2) as [w' Hw']; [done| |].
    { by rewrite Hid, Hs2, Hs. }
    exists w'. split; [exact Hw'|].
    destruct (commit_run root session reliable r' (Ok tt) _ _ _ Hsn' (Hw' _ _)) as [_ Hok].
    rewrite <-Hid. by destruct (Hok eq_refl) as (_ & ? & ?). }
  unfold decide_task_authority_confirmation. rewrite (proj2 (one_of_In _ _) Hin), Hactor. cbn [negb orb].
  erewrite sm_bind_run by exact Hl. erewrite sm_bind_run by done.
  erewrite sm_bind_run by (unfold confirmation_expiry; by rewrite Hexp).
  erewrite sm_bind_run by done. erewrite sm_bind_run by (by rewrite Hm).
  destruct m as [reason|].
  - match goal with |- context [archive_confirmation root ?r'] => set (receipt := r') end.
    destruct (Hcommit receipt (ticked w1)) as (w' & Hrun & Hp & Hh); [done|exact Hsn|done|].
    exists (Err (fmt ["Task authority confirmation failed closed: "; reason])), w', receipt.
    split; [apply (Hrun _ (Err _))|]. split_and!; [done|exact Hh|done|right].
    split_and!; [done|by intros Hd; apply Hiff in Hd|]. cbn. case_match; auto.
  - erewrite sm_bind_run by done.
    match goal with |- context [archive_confirmation root ?r'] => set (receipt := r') end.
    destruct (Hcommit receipt (ticked (ticked w1))) as (w' & Hrun & Hp & Hh); [done|exact Hsn|done|].
    exists (Ok receipt), w', receipt. split; [apply (Hrun _ (Ok _))|].
    split_and!; [done|exact Hh|done|left]. split; [done|by apply Hiff].
Qed.
End progress.

(** ** How many receipts go *)

Section retention.
Context `{!Host, !Json, !JsonBuild, !Crypto, !Chrono, !Serde value, !Serde (list string),
          !Serde Manifest, !Serde Segment, !Serde TaskAuthorityConfirmationRecord,
          !SerdeValue LegacyTombstones, !SerdeValue Manifest, !SerdeValue TaskAuthorityIssuer}.
Context (root session : string).

Lemma candidates_bound (keep : nat) cutoff (safe : list SafeRecord) candidates :
  list_traverse candidate (List.filter (fun r : SafeRecord => r.1.1 <=? cutoff) (take keep safe))
    = Ok candidates -> (length candidates <= keep)%nat.
Proof.
  intros Hl%list_traverse_ok%Forall2_length. rewrite <-Hl.
  etrans; [apply filter_length_le|]. rewrite length_take. lia.
Qed.

(** A cleanup removes nothing unless asked to apply, and leaves at least
    [retain_count] of the receipts with a known outcome. *)
Theorem cleanup_retains (input : CleanupTaskAuthorityConfirmations) (w w' : Files) (c : CleanupReceipt) :
  cleanup_task_authority_confirmations root session input w = (Ok c, w') ->
  (cl_apply input = false -> cr_removed_confirmation_ids c = []) /\
  (length (cr_removed_confirmation_ids c) <= length (cr_candidates c))%nat /\
  usize_len (cr_candidates c) <=
    Z.max 0 (cr_terminal_receipt_count c - cr_indeterminate_preserved_count c - cl_retain_count input).
Proof.
  intros Hrun. unfold cleanup_task_authority_confirmations in Hrun. guards.
  match goal with E : list_traverse candidate _ = Ok ?x |- _ =>
    pose proof (candidates_bound _ _ _ _ E) as Hb; rename x into candidates end.
  match goal with E : (if _ then retire _ _ _ _ else _) _ = (Ok ?d, _) |- _ =>
    rename E into Hdo; destruct d as [final removed] end.
  assert (removed = [] \/ cl_apply input = true /\ removed = map (fun c => c.1.2) candidates) as Hremoved.
  { destruct (cl_apply input && _) eqn:Happly in Hdo; [|injection Hdo; by left].
    apply andb_true_iff in Happly as [? _]. unfold retire in Hdo. inv_ok. by right. }
  inv_ok. cbn. unfold usize_len, u64_saturating_sub in *. split_and!.
  - by intros Hno; destruct Hremoved as [->|[Happly _]]; [|rewrite Hno in Happly].
  - destruct Hremoved as [->|[_ ->]]; cbn; rewrite ?length_map; lia.
  - rewrite length_map. lia.
Qed.
End retention.

End TaskConfirmTheorems.
