(* ===== verification/Cancellation.v ===== *)
(** * The cancellation token

    [cli/src/native/cancellation.rs]: a flag and a tokio [Notify]. Cancelling
    stores the flag and then wakes the registered waiters; waiting reads the flag
    and then registers. The two run on different threads. *)

From S2P Require Import Prelude.

Module Cancellation.

(** [notify_waiters] wakes the [Notified] futures that exist when it is called;
    a future remembers how many calls there were when it was created. *)
Record CancellationToken := {
  cancelled : bool;
  notified_calls : nat;
}.
Definition new : CancellationToken := {| cancelled := false; notified_calls := 0 |}.
Definition store_cancelled (t : CancellationToken) : CancellationToken :=
  {| cancelled := true; notified_calls := notified_calls t |}.
Definition notify_waiters (t : CancellationToken) : CancellationToken :=
  {| cancelled := cancelled t; notified_calls := S (notified_calls t) |}.
Definition is_cancelled (t : CancellationToken) : bool := cancelled t.

(** A call of [cancelled()]. *)
Inductive waiter :=
| Checking
| Registering
| Waiting (calls : nat)
| Returned.
Definition check (t : CancellationToken) : waiter := if is_cancelled t then Returned else Registering.
Definition register (t : CancellationToken) : waiter := Waiting (notified_calls t).
(** Polling the future. *)
Definition poll (t : CancellationToken) (calls : nat) : option waiter :=
  if (calls <? notified_calls t)%nat then Some Returned else None.

(** The token, the calls of [cancel] between their two effects, the waiter, and
    whether waiters were notified between its check and its registration. *)
Record state := {
  token : CancellationToken;
  pending : nat;
  caller : waiter;
  missed : bool;
}.
Definition initial : state :=
  {| token := new; pending := 0; caller := Checking; missed := false |}.

Inductive step : state -> state -> Prop :=
| step_store t p w m :
    step {| token := t; pending := p; caller := w; missed := m |}
         {| token := store_cancelled t; pending := S p; caller := w; missed := m |}
| step_notify t p w m :
    step {| token := t; pending := S p; caller := w; missed := m |}
         {| token := notify_waiters t; pending := p; caller := w;
            missed := match w with Registering => true | _ => m end |}
| step_check t p m :
    step {| token := t; pending := p; caller := Checking; missed := m |}
         {| token := t; pending := p; caller := check t; missed := m |}
| step_register t p m :
    step {| token := t; pending := p; caller := Registering; missed := m |}
         {| token := t; pending := p; caller := register t; missed := m |}
| step_poll t p c w m :
    poll t c = Some w ->
    step {| token := t; pending := p; caller := Waiting c; missed := m |}
         {| token := t; pending := p; caller := w; missed := m |}.

Definition reachable (s : state) : Prop := rtc step initial s.

Record ok (s : state) : Prop := {
  ok_flag : cancelled (token s) = false -> notified_calls (token s) = 0%nat;
  ok_flying : cancelled (token s) = true -> pending s = 0%nat -> (0 < notified_calls (token s))%nat;
  ok_registering : caller s = Registering -> missed s = false -> notified_calls (token s) = 0%nat;
  ok_waiting : forall c, caller s = Waiting c -> missed s = false -> c = 0%nat;
  ok_pending : (0 < pending s)%nat -> cancelled (token s) = true;
}.

Lemma step_ok s s' : step s s' -> ok s -> ok s'.
Proof.
  intros Hstep [Hflag Hfly Hreg Hw Hp].
  destruct Hstep as [| | | |t p c w m Hpoll]; cbn in *; split; cbn; try done; try lia.
  - intros Hf. rewrite Hp in Hf by lia. done.
  - intros ->. done.
  - intros c ->. by apply (Hw c).
  - intros _. apply Hp. lia.
  - unfold check, is_cancelled. destruct (cancelled t); [done|]. auto.
  - unfold check, is_cancelled. by destruct (cancelled t).
  - intros c [= <-] Hm. by apply Hreg.
  - unfold poll in Hpoll. case_match; by simplify_eq.
  - unfold poll in Hpoll. case_match; by simplify_eq.
Qed.
Lemma reachable_ok s : reachable s -> ok s.
Proof.
  intros Hrun. assert (ok initial) as Hinit by (split; cbn; done || lia).
  induction Hrun as [|s1 s2 s3 Hstep _ IH]; [done|]. by apply IH, (step_ok s1 s2).
Qed.

(** A caller of [cancelled] is woken by a cancellation: once every call of
    [cancel] has finished, it has returned or its next poll returns, unless the
    waiters were notified in the instant between its test of the flag and its
    registration. *)
Theorem cancellation_wakes s :
  reachable s -> cancelled (token s) = true -> pending s = 0%nat -> missed s = false ->
  match caller s with
  | Checking => check (token s) = Returned
  | Registering => False
  | Waiting calls => poll (token s) calls = Some Returned
  | Returned => True
  end.
Proof.
  intros Hreach%reachable_ok Hc Hp Hm. destruct Hreach as [_ Hfly Hreg Hw _].
  specialize (Hfly Hc Hp). destruct (caller s) as [| |calls|]; [|..|done].
  - unfold check, is_cancelled. by rewrite Hc.
  - specialize (Hreg eq_refl Hm). lia.
  - rewrite (Hw _ eq_refl Hm). unfold poll. by destruct (notified_calls (token s)); [lia|].
Qed.

(** A cancellation before the caller looks. *)
Definition cancelled_first : state :=
  {| token := notify_waiters (store_cancelled new); pending := 0; caller := Checking;
     missed := false |}.
Lemma cancellation_wakes_witness : check (token cancelled_first) = Returned.
Proof.
  apply (cancellation_wakes cancelled_first); [|reflexivity..].
  eapply rtc_l; [apply step_store|]. eapply rtc_l; [apply step_notify|]. apply rtc_refl.
Defined.

(** The instant in which a cancellation is lost: the token is cancelled, nobody
    is going to notify, and the caller is not woken by anything but another
    cancellation. *)
Definition lost : state :=
  {| token := notify_waiters (store_cancelled new); pending := 0; caller := Waiting 1;
     missed := true |}.
Lemma wakeup_lost :
  reachable lost /\ cancelled (token lost) = true /\ pending lost = 0%nat /\
  forall s, step lost s -> caller s = caller lost /\ pending s = 1%nat.
Proof.
  split_and!; [|done|done|].
  - eapply rtc_l; [apply step_check|]. eapply rtc_l; [apply step_store|].
    eapply rtc_l; [apply step_notify|]. eapply rtc_l; [apply step_register|]. apply rtc_refl.
  - intros s Hstep. unfold lost in Hstep. inversion Hstep; subst; [done|].
    unfold poll in *. by simplify_eq.
Qed.

End Cancellation.
