(* ===== verification/RemoteLease.v ===== *)
(** * The lifecycle of a remote-view acquisition lease

    Model of [cli/src/native/remote_view_lease.rs] and of the operator-visible
    readiness of [cli/src/native/remote_view_proof.rs]. *)

From S2P Require Import Prelude RustStr.

Module RemoteLease.

Inductive RouteBoundLeaseState :=
| Requested
| Planned
| Reserved
| DisplayReady
| BrowserAttached
| TabAcquired
| ProofReady
| Finalized
| RolledBack
| FailedDiagnostic.

#[export] Instance lease_state_eq_dec : EqDecision RouteBoundLeaseState.
Proof. solve_decision. Defined.

Definition as_state_phase (self : RouteBoundLeaseState) : string * string :=
  match self with
  | Requested => ("pending", "requested")
  | Planned => ("pending", "planned")
  | Reserved => ("pending", "reserved")
  | DisplayReady => ("pending", "display_ready")
  | BrowserAttached => ("pending", "browser_attached")
  | TabAcquired => ("pending", "tab_acquired")
  | ProofReady => ("pending", "proof_ready")
  | Finalized => ("completed", "checked_out")
  | RolledBack => ("failed", "rollback_complete")
  | FailedDiagnostic => ("failed", "failed_diagnostic")
  end%string.

Definition from_state_phase (state phase : string) : option RouteBoundLeaseState :=
  if (state == "pending") && (phase == "requested") then Some Requested
  else if (state == "pending") && (phase == "planned") then Some Planned
  else if (state == "pending") && (phase == "reserved") then Some Reserved
  else if (state == "pending") && (phase == "display_ready") then Some DisplayReady
  else if (state == "pending") && (phase == "browser_attached") then Some BrowserAttached
  else if (state == "pending") && (phase == "tab_acquired") then Some TabAcquired
  else if (state == "pending") && (phase == "proof_ready") then Some ProofReady
  else if (state == "completed") && (phase == "checked_out") then Some Finalized
  else if (state == "failed") && (phase == "rollback_complete") then Some RolledBack
  else if (state == "failed") && (phase == "failed_diagnostic") then Some FailedDiagnostic
  else None.

Definition can_transition_to (self next : RouteBoundLeaseState) : bool :=
  match self, next with
  | Requested, Planned
  | Planned, Reserved
  | Reserved, DisplayReady
  | DisplayReady, BrowserAttached
  | BrowserAttached, TabAcquired
  | TabAcquired, ProofReady
  | ProofReady, Finalized
  | (Requested | Planned | Reserved | DisplayReady | BrowserAttached | TabAcquired | ProofReady),
    (RolledBack | FailedDiagnostic) => true
  | _, _ => false
  end.

Definition can_publish_live_control_row (self : RouteBoundLeaseState) : bool := self == Finalized.

Definition failure_publishable_as_live_control (self : RouteBoundLeaseState) : bool :=
  match self with
  | RolledBack | FailedDiagnostic => can_publish_live_control_row self
  | _ => false
  end.

(** [RouteBoundLeaseTransitionError], and its [Display] through [{:?}]. *)
Record RouteBoundLeaseTransitionError := {
  current : RouteBoundLeaseState;
  next : RouteBoundLeaseState;
}.
Definition debug_name (self : RouteBoundLeaseState) : string :=
  match self with
  | Requested => "Requested"
  | Planned => "Planned"
  | Reserved => "Reserved"
  | DisplayReady => "DisplayReady"
  | BrowserAttached => "BrowserAttached"
  | TabAcquired => "TabAcquired"
  | ProofReady => "ProofReady"
  | Finalized => "Finalized"
  | RolledBack => "RolledBack"
  | FailedDiagnostic => "FailedDiagnostic"
  end%string.
Definition to_string (error : RouteBoundLeaseTransitionError) : string :=
  fmt ["invalid_route_bound_lease_transition: "; debug_name (current error); " -> ";
       debug_name (next error)].

(** [RouteBoundLeaseLifecycle]: a lifecycle is the state it is in. *)
Record RouteBoundLeaseLifecycle := { state : RouteBoundLeaseState }.
Definition new : RouteBoundLeaseLifecycle := {| state := Requested |}.
Definition lifecycle_from_state_phase (st phase : string) : option RouteBoundLeaseLifecycle :=
  (fun s => {| state := s |}) <$> from_state_phase st phase.
(** The lifecycle after the call is returned next to the result. *)
Definition transition_to (self : RouteBoundLeaseLifecycle) (nxt : RouteBoundLeaseState)
    : result RouteBoundLeaseTransitionError unit * RouteBoundLeaseLifecycle :=
  if can_transition_to (state self) nxt then (Ok tt, {| state := nxt |})
  else (Err {| current := state self; next := nxt |}, self).
Definition state_phase (self : RouteBoundLeaseLifecycle) : string * string :=
  as_state_phase (state self).

(** ** Operator-visible readiness *)

Definition remote_view_target_component_state (tab_present : bool) (target_id : option string)
    (url_readiness : string) : string :=
  if negb tab_present then "not_checked"
  else match target_id with
       | None => "cdp_target_unavailable"
       | Some _ =>
           if one_of url_readiness ["wrong_tab"; "target_url_missing"]
           then if url_readiness == "wrong_tab" then "wrong_tab" else "target_url_missing"
           else "ready"
       end%string.

Definition remote_view_operator_visible_state
    (route_state display_state target_state guacamole_state operator_access_state : string) : string :=
  if (route_state == "ready") && (display_state == "ready") && (target_state == "ready")
     && (guacamole_state == "ready") && (operator_access_state == "ready") then "ready"
  else if route_state != "ready" then route_state
  else if (display_state == "ready") && (target_state == "ready") && (guacamole_state == "ready")
  then operator_access_state
  else if (display_state == "ready") && (target_state == "ready") then guacamole_state
  else if display_state == "ready" then target_state else display_state.

Definition remote_view_operator_visible_ready
    (route_state display_state target_state guacamole_state operator_access_state : string) : bool :=
  remote_view_operator_visible_state route_state display_state target_state guacamole_state
    operator_access_state == "ready"%string.

(** ** Traces *)

(** The lifecycle after a sequence of requested transitions, refused ones
    leaving it as it is. *)
Definition drive (self : RouteBoundLeaseLifecycle) (path : list RouteBoundLeaseState)
    : RouteBoundLeaseLifecycle :=
  fold_left (fun l nxt => (transition_to l nxt).2) path self.

(** The requests of a sequence that succeeded. *)
Fixpoint accepted (self : RouteBoundLeaseLifecycle) (path : list RouteBoundLeaseState)
    : list RouteBoundLeaseState :=
  match path with
  | [] => []
  | nxt :: rest =>
      let '(r, self') := transition_to self nxt in
      (if is_ok r then [nxt] else []) ++ accepted self' rest
  end.

Definition phases : list RouteBoundLeaseState :=
  [Planned; Reserved; DisplayReady; BrowserAttached; TabAcquired; ProofReady; Finalized].

Definition terminal (s : RouteBoundLeaseState) : Prop :=
  s = Finalized \/ s = RolledBack \/ s = FailedDiagnostic.

(** Where in [phases] a pending state stands. *)
Definition progress (s : RouteBoundLeaseState) : option nat :=
  match s with
  | Requested => Some 0
  | Planned => Some 1
  | Reserved => Some 2
  | DisplayReady => Some 3
  | BrowserAttached => Some 4
  | TabAcquired => Some 5
  | ProofReady => Some 6
  | _ => None
  end%nat.

Lemma terminal_stuck s nxt : terminal s -> can_transition_to s nxt = false.
Proof. intros [->|[->| ->]]; by destruct nxt. Qed.

Lemma drive_terminal self path : terminal (state self) -> drive self path = self.
Proof.
  intros Ht. induction path as [|nxt path IH]; [done|]. cbn.
  unfold transition_to. by rewrite terminal_stuck.
Qed.
Lemma accepted_terminal self path : terminal (state self) -> accepted self path = [].
Proof.
  intros Ht. induction path as [|nxt path IH]; [done|]. cbn.
  unfold transition_to. rewrite terminal_stuck by done. cbn. apply IH.
Qed.

Lemma transition_progress s nxt n :
  progress s = Some n -> can_transition_to s nxt = true ->
  phases !! n = Some nxt /\ (progress nxt = Some (S n) \/ nxt = Finalized) \/
  nxt = RolledBack \/ nxt = FailedDiagnostic.
Proof. destruct s, nxt; cbn; intros [= <-]; try done; auto. Qed.

Lemma accepted_phases path self n :
  progress (state self) = Some n -> state (drive self path) = Finalized ->
  accepted self path = drop n phases.
Proof.
  revert self n. induction path as [|nxt path IH]; intros self n Hn Hf.
  { cbn in Hf. rewrite Hf in Hn. done. }
  cbn [drive fold_left] in Hf. fold (drive (transition_to self nxt).2 path) in Hf.
  cbn [accepted]. destruct (transition_to self nxt) as [r self'] eqn:Ht. cbn [snd] in Hf.
  unfold transition_to in Ht. destruct (can_transition_to (state self) nxt) eqn:Hc; simplify_eq.
  - cbn [is_ok]. destruct (transition_progress _ _ _ Hn Hc) as [[Hp [Hs| ->]]|[-> | ->]].
    + rewrite (IH {| state := nxt |} (S n)) by done. by rewrite (drop_S _ _ _ Hp).
    + rewrite accepted_terminal by (by left). rewrite (drop_S _ _ _ Hp). f_equal.
      destruct (state self); cbn in Hn; simplify_eq; done.
    + rewrite drive_terminal in Hf by (right; by left). done.
    + rewrite drive_terminal in Hf by (right; by right). done.
  - cbn. by apply IH.
Qed.

(** The stored pair of a lease state determines it: [from_state_phase]
    accepts exactly the ten pairs [as_state_phase] writes and inverts it. *)
Theorem from_state_phase_iff st phase s :
  from_state_phase st phase = Some s <-> as_state_phase s = (st, phase).
Proof.
  unfold from_state_phase. split.
  - intros Hs. repeat match type of Hs with
      | (if ?c then _ else _) = _ => destruct c eqn:?
      end; inv_bool; by simplify_eq.
  - by destruct s; intros [= <- <-].
Qed.

(** A lease that becomes live has been through every phase: whatever
    transitions are requested of a new lease, refused ones included, it can
    publish a live control row only after the seven phases were accepted, each
    once and in order; then, as after a failure, it accepts no transition, and a
    failed lease never publishes. *)
Theorem live_only_after_every_phase path :
  let l := drive new path in
  (can_publish_live_control_row (state l) = true -> accepted new path = phases) /\
  (terminal (state l) -> forall more, drive l more = l /\ accepted l more = []) /\
  failure_publishable_as_live_control (state l) = false.
Proof.
  intros l. split_and!.
  - intros Hp%bool_decide_eq_true. by apply (accepted_phases path new 0).
  - intros Ht more. split; [by apply drive_terminal|by apply accepted_terminal].
  - by destruct (state l).
Qed.

(** The operator sees a route as ready exactly when every component is, and
    otherwise sees the state of a component that is not. *)
Theorem operator_visible_ready_iff route display target guacamole access :
  let components := [route; display; target; guacamole; access] in
  let visible := remote_view_operator_visible_state route display target guacamole access in
  (remote_view_operator_visible_ready route display target guacamole access = true <->
     Forall (fun c => c = "ready"%string) components) /\
  In visible components.
Proof.
  unfold remote_view_operator_visible_ready, remote_view_operator_visible_state.
  rewrite !Forall_cons, Forall_nil.
  repeat match goal with |- context [bool_decide (?x = "ready"%string)] =>
    is_var x; destruct (bool_decide_reflect (x = "ready"%string)) as [->|] end;
    cbn; rewrite ?bool_decide_eq_true; (split; [split; [intros; split_and!; try done|intros; destruct_and?; done]|tauto]).
Qed.

End RemoteLease.
