(* ===== verification/RemoteRoute.v ===== *)
(** * Finalizing a route-bound acquisition

    Model of [cli/src/native/remote_view_finalization.rs] over the part of
    [ServiceState] ([cli/src/native/service_model.rs]) it touches: routes, display
    allocations, the route pool, acquisition leases and browsers. *)

From S2P Require Import Prelude RustStr Env RemoteLease.
From stdpp Require Import sorting.
Import RemoteLease.RemoteLease.

Module RemoteRoute.

(** ** Records of the service model *)

Inductive ViewStreamProvider :=
| CdpScreencast | ChromeTabWebrtc | VirtualDisplayWebrtc | Novnc | RdpGateway | ExternalUrl.
Inductive ControlInputProvider := CdpInput | WebrtcInput | VncInput | ManualAttachedDesktop.
Inductive BrowserHost :=
| LocalHeadless | LocalHeaded | DockerHeaded | RemoteHeaded | CloudProvider | AttachedExisting.
Inductive BrowserHealth :=
| NotStarted | Launching | Ready | Degraded | Unreachable | ProcessExited | CdpDisconnected
| Reconnecting | Closing | Faulted.

#[export] Instance provider_eq_dec : EqDecision ViewStreamProvider.
Proof. solve_decision. Defined.
#[export] Instance host_eq_dec : EqDecision BrowserHost.
Proof. solve_decision. Defined.
#[global] Instance BrowserHealth_eq_dec : EqDecision BrowserHealth.
Proof. solve_decision. Defined.

Section model.
Context `{!Json}.

Record DisplayAllocation := {
  da_id : string;
  da_display_name : option string;
  da_display_isolation : string;
  da_owner_browser_id : option string;
  da_owner_session_id : option string;
  da_profile_id : option string;
  da_browser_build : option string;
  da_host : option BrowserHost;
  da_state : string;
  da_pid_hints : option value;
  da_route_ids : list string;
  da_created_at : option string;
  da_updated_at : option string;
  da_last_health_check_at : option string;
  da_readiness : option value;
}.

Record RemoteViewRoute := {
  rt_id : string;
  rt_provider : ViewStreamProvider;
  rt_display_allocation_id : option string;
  rt_browser_id : option string;
  rt_session_id : option string;
  rt_route_source : string;
  rt_connection_id : option string;
  rt_connection_name : option string;
  rt_route_template : option string;
  rt_frame_url : option string;
  rt_external_url : option string;
  rt_route_descriptor : option value;
  rt_read_only : bool;
  rt_control_input : option ControlInputProvider;
  rt_provider_mode : string;
  rt_state : string;
  rt_viewer_lease_ids : list string;
  rt_controller_lease_id : option string;
  rt_last_provider_event : option string;
  rt_readiness : option value;
}.

Record RoutePoolEntry := {
  pe_id : string;
  pe_provider : ViewStreamProvider;
  pe_route_id : string;
  pe_connection_id : option string;
  pe_connection_name : option string;
  pe_frame_url : option string;
  pe_external_url : option string;
  pe_route_descriptor : option value;
  pe_target : value;
  pe_provider_mode : string;
  pe_state : string;
  pe_current_route_allocation_id : option string;
  pe_readiness : option value;
}.

Record RemoteViewAcquisitionLease := {
  al_id : string;
  al_browser_id : string;
  al_session_id : string;
  al_route_id : string;
  al_display_allocation_id : string;
  al_route_pool_entry_id : option string;
  al_state : string;
  al_phase : string;
  al_created_at : option string;
  al_updated_at : option string;
  al_completed_at : option string;
  al_failed_at : option string;
  al_failure_reason : option string;
  al_cleanup : option value;
  al_previous_route_pool_entry : option RoutePoolEntry;
  al_previous_display_allocation : option DisplayAllocation;
  al_previous_remote_view_route : option RemoteViewRoute;
  al_previous_browser_display_allocation_id : option string;
}.

Record ViewStream := {
  vs_id : string;
  vs_provider : ViewStreamProvider;
  vs_control_input : option ControlInputProvider;
  vs_url : option string;
  vs_frame_url : option string;
  vs_external_url : option string;
  vs_route_descriptor : option value;
  vs_route_id : option string;
  vs_display_allocation_id : option string;
  vs_connection_id : option string;
  vs_connection_name : option string;
  vs_route_source : option string;
  vs_provider_mode : option string;
  vs_viewer_lease_ids : list string;
  vs_controller_lease_id : option string;
  vs_read_only : bool;
  vs_readiness : option value;
  vs_remote_readiness : option value;
  vs_attachability : option value;
}.

Record ViewerLease := {
  vl_id : string;
  vl_route_id : option string;
  vl_browser_id : option string;
  vl_viewer_id : option string;
  vl_viewer_name : option string;
  vl_viewer_role : string;
  vl_open_mode : string;
  vl_state : string;
  vl_last_viewer_event : option string;
  vl_expires_at : option string;
  vl_created_at : option string;
  vl_updated_at : option string;
  vl_last_heartbeat_at : option string;
  vl_service_event_id : option string;
}.

(** [bp_other]: [browser_build], [executable_path], [browser_build_proof],
    [display_isolation], [pid], [cdp_endpoint], [tab_handles], [last_error] and
    [last_health_observation]; [st_other]: every other collection of the service
    state. No operation modelled here reads or writes them. *)
Context {Other StOther : Type}.

Record BrowserProcess := {
  bp_id : string;
  bp_profile_id : option string;
  bp_host : BrowserHost;
  bp_health : BrowserHealth;
  bp_display_name : option string;
  bp_display_allocation_id : option string;
  bp_view_streams : list ViewStream;
  bp_attachability : option value;
  bp_active_session_ids : list string;
  bp_other : Other;
}.

Record ServiceState := {
  display_allocations : gmap string DisplayAllocation;
  remote_view_routes : gmap string RemoteViewRoute;
  route_pool : gmap string RoutePoolEntry;
  remote_view_acquisition_leases : gmap string RemoteViewAcquisitionLease;
  viewer_leases : gmap string ViewerLease;
  browsers : gmap string BrowserProcess;
  st_other : StOther;
}.

(** ** Defaults *)

Definition default_display_allocation : DisplayAllocation := {|
  da_id := ""; da_display_name := None; da_display_isolation := "private_virtual_display";
  da_owner_browser_id := None; da_owner_session_id := None; da_profile_id := None;
  da_browser_build := None; da_host := Some RemoteHeaded; da_state := "allocating";
  da_pid_hints := None; da_route_ids := []; da_created_at := None; da_updated_at := None;
  da_last_health_check_at := None; da_readiness := None |}.

Definition default_route : RemoteViewRoute := {|
  rt_id := ""; rt_provider := RdpGateway; rt_display_allocation_id := None;
  rt_browser_id := None; rt_session_id := None; rt_route_source := "unknown";
  rt_connection_id := None; rt_connection_name := None; rt_route_template := None;
  rt_frame_url := None; rt_external_url := None; rt_route_descriptor := None;
  rt_read_only := false; rt_control_input := Some ManualAttachedDesktop;
  rt_provider_mode := "unknown"; rt_state := "allocating"; rt_viewer_lease_ids := [];
  rt_controller_lease_id := None; rt_last_provider_event := None; rt_readiness := None |}.

(** ** Finalization *)

Context `{!JsonBuild, !SerdeValue RemoteViewRoute, !SerdeValue RoutePoolEntry}.

Record FinalizedRouteFacts := {
  f_route_id : string;
  f_display_allocation_id : string;
  f_route_pool_entry_id : option string;
  f_browser_id : string;
  f_session_id : string;
}.

Definition first_some {A} (a b : option A) : option A := match a with Some _ => a | None => b end.
Definition unwrap_or {A} (d : A) (o : option A) : A := match o with Some a => a | None => d end.
Definition str_field (v : value) (field : string) : option string := x ← jget v field; as_str x.

Definition finalized_facts (checkout : value) (lease : RemoteViewAcquisitionLease)
    : FinalizedRouteFacts := {|
  f_route_id := unwrap_or (al_route_id lease)
    (x ← first_some (jget checkout "remoteViewRouteId") (jget checkout "routeId"); as_str x);
  f_display_allocation_id := unwrap_or (al_display_allocation_id lease)
    (str_field checkout "displayAllocationId");
  f_route_pool_entry_id := first_some (str_field checkout "routePoolEntryId")
    (al_route_pool_entry_id lease);
  f_browser_id := unwrap_or (al_browser_id lease) (str_field checkout "browserId");
  f_session_id := unwrap_or (al_session_id lease) (str_field checkout "sessionName") |}.

Definition finalized_readiness (checkout : value) (observed_at : string) : value :=
  unwrap_or
    (jobject [("state", jstring "ready"); ("component", jstring "route_bound_finalization");
              ("updatedAt", jstring observed_at)])
    (first_some (route ← jget checkout "remoteViewRoute"; jget route "readiness")
       (jget checkout "readiness")).

Definition finalized_route (state : ServiceState) (checkout : value)
    (route_id display_allocation_id browser_id session_id : string) (readiness : value)
    : RemoteViewRoute :=
  let route := unwrap_or default_route
    (first_some
       (v ← jget checkout "remoteViewRoute";
        match from_value v with Ok route => Some route | Err _ => None end)
       (remote_view_routes state !! route_id)) in
  {| rt_id := route_id; rt_provider := rt_provider route;
     rt_display_allocation_id := Some display_allocation_id; rt_browser_id := Some browser_id;
     rt_session_id := Some session_id; rt_route_source := rt_route_source route;
     rt_connection_id := rt_connection_id route; rt_connection_name := rt_connection_name route;
     rt_route_template := rt_route_template route; rt_frame_url := rt_frame_url route;
     rt_external_url := rt_external_url route; rt_route_descriptor := rt_route_descriptor route;
     rt_read_only := rt_read_only route; rt_control_input := rt_control_input route;
     rt_provider_mode := rt_provider_mode route; rt_state := "ready";
     rt_viewer_lease_ids := rt_viewer_lease_ids route;
     rt_controller_lease_id := rt_controller_lease_id route;
     rt_last_provider_event := Some "route_bound_finalized"%string;
     rt_readiness := Some readiness |}.

Definition push_unique (x : string) (l : list string) : list string :=
  if one_of x l then l else l ++ [x].

Definition finalized_display (checkout : value) (facts : FinalizedRouteFacts) (readiness : value)
    (observed_at : string) (allocation : DisplayAllocation) : DisplayAllocation :=
  let binding := jget checkout "routeBinding" in
  {| da_id := da_id allocation;
     da_display_name := (b ← binding;
       x ← first_some (jget b "launchDisplayName") (jget b "displayName"); as_str x);
     da_display_isolation := unwrap_or "shared_display"%string
       (b ← binding; str_field b "displayIsolation");
     da_owner_browser_id := Some (f_browser_id facts);
     da_owner_session_id := Some (f_session_id facts);
     da_profile_id := da_profile_id allocation; da_browser_build := da_browser_build allocation;
     da_host := da_host allocation; da_state := "ready"; da_pid_hints := da_pid_hints allocation;
     da_route_ids := push_unique (f_route_id facts) (da_route_ids allocation);
     da_created_at := da_created_at allocation; da_updated_at := Some observed_at;
     da_last_health_check_at := da_last_health_check_at allocation;
     da_readiness := Some readiness |}.

Definition new_display (id observed_at : string) : DisplayAllocation :=
  let d := default_display_allocation in
  {| da_id := id; da_display_name := da_display_name d;
     da_display_isolation := da_display_isolation d; da_owner_browser_id := da_owner_browser_id d;
     da_owner_session_id := da_owner_session_id d; da_profile_id := da_profile_id d;
     da_browser_build := da_browser_build d; da_host := da_host d; da_state := da_state d;
     da_pid_hints := da_pid_hints d; da_route_ids := da_route_ids d;
     da_created_at := Some observed_at; da_updated_at := da_updated_at d;
     da_last_health_check_at := da_last_health_check_at d; da_readiness := da_readiness d |}.

Definition finalize_display_allocation (checkout : value) (facts : FinalizedRouteFacts)
    (readiness : value) (observed_at : string) (allocations : gmap string DisplayAllocation)
    : gmap string DisplayAllocation :=
  let id := f_display_allocation_id facts in
  <[id := finalized_display checkout facts readiness observed_at
            (unwrap_or (new_display id observed_at) (allocations !! id))]> allocations.

Definition checked_out (route_id : string) (readiness : value) (entry : RoutePoolEntry)
    : RoutePoolEntry :=
  {| pe_id := pe_id entry; pe_provider := pe_provider entry; pe_route_id := pe_route_id entry;
     pe_connection_id := pe_connection_id entry; pe_connection_name := pe_connection_name entry;
     pe_frame_url := pe_frame_url entry; pe_external_url := pe_external_url entry;
     pe_route_descriptor := pe_route_descriptor entry; pe_target := pe_target entry;
     pe_provider_mode := pe_provider_mode entry; pe_state := "checked_out";
     pe_current_route_allocation_id := Some route_id; pe_readiness := Some readiness |}.

Definition finalize_route_pool_entry (checkout : value) (entry_id route_id : string)
    (readiness : value) (observed_at : string) (pool : gmap string RoutePoolEntry)
    : gmap string RoutePoolEntry :=
  match (v ← jget checkout "routePoolEntry";
         match from_value v with Ok entry => Some entry | Err _ => None end) with
  | Some entry =>
      <[entry_id := checked_out route_id (unwrap_or readiness (pe_readiness entry)) entry]> pool
  | None =>
      match pool !! entry_id with
      | Some entry =>
          <[entry_id := checked_out route_id
              (jobject [("state", jstring "ready");
                        ("component", jstring "route_bound_finalization");
                        ("routeId", jstring route_id); ("updatedAt", jstring observed_at);
                        ("proof", readiness)]) entry]> pool
      | None => pool
      end
  end.

Definition finalize_browser (display_allocation_id session_id : string)
    (browser : BrowserProcess) : BrowserProcess :=
  {| bp_id := bp_id browser; bp_profile_id := bp_profile_id browser; bp_host := bp_host browser;
     bp_health := bp_health browser; bp_display_name := bp_display_name browser;
     bp_display_allocation_id := Some display_allocation_id;
     bp_view_streams := bp_view_streams browser; bp_attachability := bp_attachability browser;
     bp_active_session_ids :=
       if one_of session_id (bp_active_session_ids browser) then bp_active_session_ids browser
       else merge_sort str_le (bp_active_session_ids browser ++ [session_id]);
     bp_other := bp_other browser |}.

Definition finalized_lease (facts : FinalizedRouteFacts) (state_phase : string * string)
    (observed_at : string) (lease : RemoteViewAcquisitionLease) : RemoteViewAcquisitionLease :=
  {| al_id := al_id lease; al_browser_id := f_browser_id facts;
     al_session_id := f_session_id facts; al_route_id := f_route_id facts;
     al_display_allocation_id := f_display_allocation_id facts;
     al_route_pool_entry_id := f_route_pool_entry_id facts; al_state := state_phase.1;
     al_phase := state_phase.2; al_created_at := al_created_at lease;
     al_updated_at := Some observed_at; al_completed_at := Some observed_at;
     al_failed_at := al_failed_at lease; al_failure_reason := al_failure_reason lease;
     al_cleanup := al_cleanup lease;
     al_previous_route_pool_entry := al_previous_route_pool_entry lease;
     al_previous_display_allocation := al_previous_display_allocation lease;
     al_previous_remote_view_route := al_previous_remote_view_route lease;
     al_previous_browser_display_allocation_id :=
       al_previous_browser_display_allocation_id lease |}.

(** The five transitions, each of which may fail. *)
Fixpoint transitions (lifecycle : RouteBoundLeaseLifecycle) (nexts : list RouteBoundLeaseState)
    : res RouteBoundLeaseLifecycle :=
  match nexts with
  | [] => Ok lifecycle
  | nxt :: rest =>
      match transition_to lifecycle nxt with
      | (Ok _, lifecycle) => transitions lifecycle rest
      | (Err error, _) => Err (to_string error)
      end
  end.

Definition missing (lease_id : string) : string :=
  fmt ["remote_view_acquisition_lease_missing: "; lease_id].

Definition finalize_route_bound_acquisition (lease_id : string) (checkout : value)
    (observed_at : string) (state : ServiceState)
    : res RemoteViewAcquisitionLease * ServiceState :=
  match remote_view_acquisition_leases state !! lease_id with
  | None => (Err (missing lease_id), state)
  | Some snapshot =>
      match lifecycle_from_state_phase (al_state snapshot) (al_phase snapshot) with
      | None => (Err (fmt ["invalid_route_bound_lease_state: lease '"; al_id snapshot;
                           "' has state='"; al_state snapshot; "' phase='"; al_phase snapshot;
                           "'"]), state)
      | Some lifecycle =>
          match transitions lifecycle
                  [DisplayReady; BrowserAttached; TabAcquired; ProofReady; Finalized] with
          | Err error => (Err error, state)
          | Ok lifecycle =>
              let facts := finalized_facts checkout snapshot in
              let readiness := finalized_readiness checkout observed_at in
              let route := finalized_route state checkout (f_route_id facts)
                             (f_display_allocation_id facts) (f_browser_id facts)
                             (f_session_id facts) readiness in
              let lease := finalized_lease facts (state_phase lifecycle) observed_at snapshot in
              (Ok lease,
               {| display_allocations := finalize_display_allocation checkout facts readiness
                    observed_at (display_allocations state);
                  remote_view_routes := <[f_route_id facts := route]> (remote_view_routes state);
                  route_pool :=
                    match f_route_pool_entry_id facts with
                    | Some entry_id => finalize_route_pool_entry checkout entry_id
                        (f_route_id facts) readiness observed_at (route_pool state)
                    | None => route_pool state
                    end;
                  remote_view_acquisition_leases :=
                    <[lease_id := lease]> (remote_view_acquisition_leases state);
                  viewer_leases := viewer_leases state;
                  browsers := alter (finalize_browser (f_display_allocation_id facts)
                                       (f_session_id facts)) (f_browser_id facts) (browsers state);
                  st_other := st_other state |})
          end
      end
  end.

(** ** What finalization establishes *)

Lemma transitions_finalized l l' :
  transitions l [DisplayReady; BrowserAttached; TabAcquired; ProofReady; Finalized] = Ok l' <->
  RemoteLease.state l = Reserved /\ RemoteLease.state l' = Finalized.
Proof.
  destruct l as [s]. cbn [transitions transition_to RemoteLease.state].
  destruct s; cbn; (split; [intros [= <-]; done|intros [? ?]; simplify_eq]).
  destruct l' as [s']. cbn in *. by subst.
Qed.
Lemma lifecycle_reserved st phase l :
  lifecycle_from_state_phase st phase = Some l ->
  (RemoteLease.state l = Reserved <-> st = "pending" /\ phase = "reserved")%string.
Proof.
  unfold lifecycle_from_state_phase, from_state_phase. intros Hl. split.
  - intros Hs. repeat match type of Hl with context [if ?c then _ else _] =>
      destruct c eqn:?; inv_bool; simplify_eq/=; try done end.
  - intros [-> ->]. vm_compute in Hl. by injection Hl as <-.
Qed.

(** A lease that may be finalized. *)
Definition reserved (lease : RemoteViewAcquisitionLease) : Prop :=
  al_state lease = "pending"%string /\ al_phase lease = "reserved"%string.

(** Finalization is atomic: it succeeds exactly for a stored lease that is
    reserved, and leaves the service state untouched otherwise. *)
Theorem finalize_atomic lease_id checkout observed_at st :
  let '(r, st') := finalize_route_bound_acquisition lease_id checkout observed_at st in
  match r with
  | Ok _ => exists lease, remote_view_acquisition_leases st !! lease_id = Some lease /\
              reserved lease
  | Err _ => st' = st /\ forall lease,
      remote_view_acquisition_leases st !! lease_id = Some lease -> ~ reserved lease
  end.
Proof.
  unfold finalize_route_bound_acquisition, reserved.
  destruct (remote_view_acquisition_leases st !! lease_id) as [snapshot|] eqn:Hl; [|done].
  destruct (lifecycle_from_state_phase _ _) as [l|] eqn:Hlc.
  - destruct (transitions l _) as [l'|e] eqn:Ht.
    + apply transitions_finalized in Ht as [Hs _]. exists snapshot. split; [done|].
      by apply (lifecycle_reserved _ _ _ Hlc).
    + split; [done|]. intros lease [= <-] Hr. apply (lifecycle_reserved _ _ _ Hlc) in Hr.
      pose proof (proj2 (transitions_finalized l {| RemoteLease.state := Finalized |})) as Hok.
      rewrite Ht in Hok. by discriminate Hok.
  - split; [done|]. intros lease [= <-] [Hst Hph]. by rewrite Hst, Hph in Hlc.
Qed.

Lemma finalize_ok lease_id checkout observed_at st lease st' :
  finalize_route_bound_acquisition lease_id checkout observed_at st = (Ok lease, st') ->
  exists snapshot l, remote_view_acquisition_leases st !! lease_id = Some snapshot /\
    RemoteLease.state l = Finalized /\
    let facts := finalized_facts checkout snapshot in
    let readiness := finalized_readiness checkout observed_at in
    lease = finalized_lease facts (state_phase l) observed_at snapshot /\
    st' = {| display_allocations := finalize_display_allocation checkout facts readiness
               observed_at (display_allocations st);
             remote_view_routes := <[f_route_id facts :=
               finalized_route st checkout (f_route_id facts) (f_display_allocation_id facts)
                 (f_browser_id facts) (f_session_id facts) readiness]> (remote_view_routes st);
             route_pool := match f_route_pool_entry_id facts with
               | Some entry_id => finalize_route_pool_entry checkout entry_id
                   (f_route_id facts) readiness observed_at (route_pool st)
               | None => route_pool st
               end;
             remote_view_acquisition_leases :=
               <[lease_id := lease]> (remote_view_acquisition_leases st);
             viewer_leases := viewer_leases st;
             browsers := alter (finalize_browser (f_display_allocation_id facts)
                                  (f_session_id facts)) (f_browser_id facts) (browsers st);
             st_other := st_other st |}.
Proof.
  unfold finalize_route_bound_acquisition. intros Hrun.
  destruct (remote_view_acquisition_leases st !! lease_id) as [snapshot|]; [|done].
  destruct (lifecycle_from_state_phase _ _) as [l|]; [|done].
  destruct (transitions l _) as [l'|e] eqn:Ht; [|done]. injection Hrun as <- <-.
  apply transitions_finalized in Ht as [_ Hs]. exists snapshot, l'. done.
Qed.

Lemma push_unique_In x l : In x (push_unique x l).
Proof.
  unfold push_unique. destruct (one_of x l) eqn:Hx; [by apply one_of_In|].
  apply in_app_iff. right. by left.
Qed.
Lemma finalize_pool_entry checkout e route readiness at_ pool :
  let pool' := finalize_route_pool_entry checkout e route readiness at_ pool in
  delete e pool' = delete e pool /\
  forall entry, pool' !! e = Some entry ->
    pe_state entry = "checked_out"%string /\ pe_current_route_allocation_id entry = Some route.
Proof.
  unfold finalize_route_pool_entry. cbv zeta.
  repeat match goal with |- context [match ?x with Some _ => _ | None => _ end] =>
    destruct x eqn:? end;
    (split; [by rewrite ?delete_insert_eq|intros entry; rewrite ?lookup_insert_eq]); try congruence;
    intros [= <-]; done.
Qed.
Lemma active_after session b d :
  In session (bp_active_session_ids (finalize_browser d session b)).
Proof.
  cbn. destruct (one_of session (bp_active_session_ids b)) eqn:Hx; [by apply one_of_In|].
  apply list_elem_of_In. rewrite merge_sort_Permutation. set_solver.
Qed.

(** A finalized acquisition is one consistent ownership: the lease is
    completed and checked out; its route is ready and names the lease's display,
    browser and session; its display allocation is ready, owned by that browser
    and session and lists the route; the pool entry it names is checked out by
    that route; the browser, if known, shows that display and session; and no
    other route, display, pool entry, lease, browser or collection changes. *)
Theorem finalize_consistent lease_id checkout observed_at st lease st' :
  finalize_route_bound_acquisition lease_id checkout observed_at st = (Ok lease, st') ->
  let route := al_route_id lease in
  let display := al_display_allocation_id lease in
  let browser := al_browser_id lease in
  let session := al_session_id lease in
  (al_state lease, al_phase lease) = ("completed", "checked_out")%string /\
  remote_view_acquisition_leases st' = <[lease_id := lease]> (remote_view_acquisition_leases st) /\
  (exists r, remote_view_routes st' = <[route := r]> (remote_view_routes st) /\
     rt_id r = route /\ rt_state r = "ready"%string /\
     rt_display_allocation_id r = Some display /\ rt_browser_id r = Some browser /\
     rt_session_id r = Some session) /\
  (exists d, display_allocations st' = <[display := d]> (display_allocations st) /\
     da_state d = "ready"%string /\ In route (da_route_ids d) /\
     da_owner_browser_id d = Some browser /\ da_owner_session_id d = Some session) /\
  match al_route_pool_entry_id lease with
  | Some e => delete e (route_pool st') = delete e (route_pool st) /\
      forall entry, route_pool st' !! e = Some entry ->
        pe_state entry = "checked_out"%string /\
        pe_current_route_allocation_id entry = Some route
  | None => route_pool st' = route_pool st
  end /\
  delete browser (browsers st') = delete browser (browsers st) /\
  (forall b, browsers st' !! browser = Some b ->
     bp_display_allocation_id b = Some display /\ In session (bp_active_session_ids b)) /\
  viewer_leases st' = viewer_leases st /\ st_other st' = st_other st.
Proof.
  intros (snapshot & [s] & _ & Hl & -> & ->)%finalize_ok. cbn in Hl. subst s.
  generalize (finalized_facts checkout snapshot), (finalized_readiness checkout observed_at).
  intros facts readiness. cbn.
  split_and!; try done.
  - by eexists.
  - eexists. split_and!; try done. apply push_unique_In.
  - destruct (f_route_pool_entry_id facts); [apply finalize_pool_entry|done].
  - apply delete_alter_eq.
  - intros b. rewrite lookup_alter_eq. intros (b0 & Hb & ->)%fmap_Some.
    split; [done|apply active_after].
Qed.
End model.
End RemoteRoute.
