(* ===== verification/ServiceJobs.v ===== *)
(** * Service jobs

    The job records of [cli/src/native/service_model.rs] and the operations of
    [cli/src/native/service_jobs.rs] on the jobs of the persisted service state:
    cancelling, loading, and pruning to the newest 200. *)

From Stdlib Require Import Ascii.
From stdpp Require Import sorting.
From S2P Require Import Prelude RustStr Env RemoteRoute.

Local Open Scope Z_scope.

Module ServiceJobs.

Notation BrowserHealth := RemoteRoute.BrowserHealth.

Inductive JobState :=
| Queued | WaitingProfileLease | Running | Succeeded | Failed | Cancelled | TimedOut.
Inductive JobPriority := LowPriority | NormalPriority | LifecyclePriority.
Inductive JobControlPlaneMode := CdpMode | CdpFreeMode | ServiceMode.
Inductive JobTarget :=
| TargetService | TargetBrowser (id : string) | TargetTab (id : string)
| TargetProfile (id : string) | TargetMonitor (id : string) | TargetChallenge (id : string).
Inductive ServiceEventKind :=
| Reconciliation | BrowserLaunchRecorded | BrowserHealthChanged | BrowserRecoveryStarted
| BrowserRecoveryOverride | TabLifecycleChanged | ProfileLeaseWaitStarted | ProfileLeaseWaitEnded
| ViewerTakeoverRequested | ViewerConnected | ViewerDisconnected | ControllerRequested
| ControllerGranted | ControllerDenied | RouteReleased | ReconciliationError
| IncidentAcknowledged | IncidentResolved.
Inductive ServiceActor :=
| ActorAgent (name : string) | ActorHuman (name : string) | ActorApiClient (name : string)
| ActorSystem.

#[export] Instance JobState_eq_dec : EqDecision JobState.
Proof. solve_decision. Defined.
#[export] Instance JobPriority_eq_dec : EqDecision JobPriority.
Proof. solve_decision. Defined.
#[export] Instance JobControlPlaneMode_eq_dec : EqDecision JobControlPlaneMode.
Proof. solve_decision. Defined.

Definition MAX_SERVICE_JOBS : nat := 200.

Section jobs.
Context `{!Json, !JsonBuild}.

Record ServiceJob := {
  sj_id : string;
  sj_action : string;
  sj_service_name : option string;
  sj_agent_name : option string;
  sj_task_name : option string;
  sj_target_service_id : option string;
  sj_site_id : option string;
  sj_login_id : option string;
  sj_target_service_ids : list string;
  sj_naming_warnings : list string;
  sj_has_naming_warning : bool;
  sj_control_plane_mode : JobControlPlaneMode;
  sj_lifecycle_only : bool;
  sj_display_isolation : option string;
  sj_requested_display_allocation_id : option string;
  sj_display_allocation_id : option string;
  sj_requested_remote_view_route_id : option string;
  sj_remote_view_route_id : option string;
  sj_route_pool_entry_id : option string;
  sj_viewer_lease_id : option string;
  sj_controller_lease_id : option string;
  sj_target : JobTarget;
  sj_owner : ServiceActor;
  sj_state : JobState;
  sj_priority : JobPriority;
  sj_submitted_at : option string;
  sj_started_at : option string;
  sj_completed_at : option string;
  sj_timeout_ms : option Z;
  sj_result : option value;
  sj_error : option string;
}.

(** The jobs of a service state, a [BTreeMap] by id. *)
Notation Jobs := (gmap string ServiceJob).

Record ServiceEvent := {
  ev_id : string;
  ev_timestamp : string;
  ev_kind : ServiceEventKind;
  ev_message : string;
  ev_browser_id : option string;
  ev_profile_id : option string;
  ev_session_id : option string;
  ev_service_name : option string;
  ev_agent_name : option string;
  ev_task_name : option string;
  ev_previous_health : option BrowserHealth;
  ev_current_health : option BrowserHealth;
  ev_details : option value;
}.

(** The part of [ServiceState] the control plane keeps. *)
Record JobStore := {
  st_jobs : Jobs;
  st_events : list ServiceEvent;
}.
Definition with_jobs (jobs : Jobs) (st : JobStore) : JobStore :=
  {| st_jobs := jobs; st_events := st_events st |}.
Definition with_events (events : list ServiceEvent) (st : JobStore) : JobStore :=
  {| st_jobs := st_jobs st; st_events := events |}.

Definition job_state_name (s : JobState) : string :=
  match s with
  | Queued => "queued"
  | WaitingProfileLease => "waiting_profile_lease"
  | Running => "running"
  | Succeeded => "succeeded"
  | Failed => "failed"
  | Cancelled => "cancelled"
  | TimedOut => "timed_out"
  end.

(** ** Cancelling *)

Definition set_cancelled (now : string) (reason : option string) (job : ServiceJob) : ServiceJob :=
  {| sj_id := sj_id job; sj_action := sj_action job; sj_service_name := sj_service_name job;
     sj_agent_name := sj_agent_name job; sj_task_name := sj_task_name job;
     sj_target_service_id := sj_target_service_id job; sj_site_id := sj_site_id job;
     sj_login_id := sj_login_id job; sj_target_service_ids := sj_target_service_ids job;
     sj_naming_warnings := sj_naming_warnings job;
     sj_has_naming_warning := sj_has_naming_warning job;
     sj_control_plane_mode := sj_control_plane_mode job;
     sj_lifecycle_only := sj_lifecycle_only job; sj_display_isolation := sj_display_isolation job;
     sj_requested_display_allocation_id := sj_requested_display_allocation_id job;
     sj_display_allocation_id := sj_display_allocation_id job;
     sj_requested_remote_view_route_id := sj_requested_remote_view_route_id job;
     sj_remote_view_route_id := sj_remote_view_route_id job;
     sj_route_pool_entry_id := sj_route_pool_entry_id job;
     sj_viewer_lease_id := sj_viewer_lease_id job;
     sj_controller_lease_id := sj_controller_lease_id job; sj_target := sj_target job;
     sj_owner := sj_owner job; sj_state := Cancelled; sj_priority := sj_priority job;
     sj_submitted_at := sj_submitted_at job; sj_started_at := sj_started_at job;
     sj_completed_at := Some now; sj_timeout_ms := sj_timeout_ms job;
     sj_result := Some (jobject [("success", jbool false); ("cancelled", jbool true)]%string);
     sj_error := Some (match reason with
                       | Some r => if is_empty (trim r) then "Cancelled by operator" else r
                       | None => "Cancelled by operator"
                       end)%string |}.

(** The mutator of [cancel_service_job_in_repository]. *)
Definition cancel_service_job (now job_id : string) (reason : option string) (jobs : Jobs)
    : res (ServiceJob * Jobs) :=
  job ← ok_or (fmt ["Service job not found: "; job_id]) (jobs !! job_id);
  match sj_state job with
  | Queued | WaitingProfileLease =>
      let job := set_cancelled now reason job in Ok (job, <[job_id := job]> jobs)
  | Cancelled => Ok (job, jobs)
  | Running =>
      Err (fmt ["Service job "; job_id; " is already running and cannot be cancelled safely"])
  | Succeeded | Failed | TimedOut =>
      Err (fmt ["Service job "; job_id; " is already terminal with state ";
                job_state_name (sj_state job)])
  end.

Definition cancel_persisted_service_job_response_error (err : string) : string :=
  if starts_with "Failed to" err || starts_with "Invalid service state" err
  then fmt ["Unable to load service state: "; err] else err.

(** ** Pruning *)

(** What the source sorts: the submission time and the id. *)
Definition job_key (job : ServiceJob) : string * string :=
  (match sj_submitted_at job with Some t => t | None => ""%string end, sj_id job).
Definition job_key_le (a b : string * string) : Prop :=
  a.1 <> b.1 /\ str_le a.1 b.1 \/ a.1 = b.1 /\ str_le a.2 b.2.
#[export] Instance job_key_le_dec a b : Decision (job_key_le a b).
Proof. unfold job_key_le. apply _. Defined.

Definition prune_service_jobs (jobs : Jobs) : Jobs :=
  if (size jobs <=? MAX_SERVICE_JOBS)%nat then jobs else
  let keys := merge_sort job_key_le (map (fun p => job_key p.2) (map_to_list jobs)) in
  foldl (fun jobs key => delete key.2 jobs) jobs (take (size jobs - MAX_SERVICE_JOBS) keys).

(** ** The repository

    [mutate] loads the state, runs the mutator and saves, under a lock; a load
    or a save that fails leaves the persisted state as it was. *)
Record Faults := {
  fl_load : option string;
  fl_save : option string;
}.
Definition no_faults : Faults := {| fl_load := None; fl_save := None |}.

Definition repository_mutate {R} (faults : Faults) (mutator : JobStore -> res (R * JobStore))
    (st : JobStore) : res R * JobStore :=
  match fl_load faults with
  | Some error => (Err error, st)
  | None =>
      match mutator st with
      | Err error => (Err error, st)
      | Ok (r, st') =>
          match fl_save faults with Some error => (Err error, st) | None => (Ok r, st') end
      end
  end.

Definition cancel_service_job_in_repository (faults : Faults) (now job_id : string)
    (reason : option string) : JobStore -> res ServiceJob * JobStore :=
  repository_mutate faults (fun st =>
    '(job, jobs) ← cancel_service_job now job_id reason (st_jobs st);
    Ok (job, with_jobs jobs st)).

Definition cancel_persisted_service_job (faults : Faults) (now job_id : string)
    (reason : option string) (st : JobStore) : res ServiceJob * JobStore :=
  let '(r, st') := cancel_service_job_in_repository faults now job_id reason st in
  (match r with
   | Ok job => Ok job
   | Err error => Err (cancel_persisted_service_job_response_error error)
   end, st').

Definition mutate_service_jobs_in_repository (faults : Faults) (mutator : JobStore -> JobStore)
    : JobStore -> res unit * JobStore :=
  repository_mutate faults (fun st =>
    let st := mutator st in Ok (tt, with_jobs (prune_service_jobs (st_jobs st)) st)).

(** Errors are dropped. *)
Definition mutate_persisted_service_jobs (faults : Faults) (mutator : JobStore -> JobStore)
    (st : JobStore) : JobStore :=
  (mutate_service_jobs_in_repository faults mutator st).2.

Definition load_service_job (faults : Faults) (id : string) (st : JobStore) : option ServiceJob :=
  match fl_load faults with Some _ => None | None => st_jobs st !! id end.

End jobs.

Notation Jobs := (gmap string ServiceJob).

End ServiceJobs.

(** ** What the operations on service jobs guarantee

    A cancellation changes a waiting job only; pruning keeps the newest 200. *)

Import ServiceJobs.
Local Open Scope Z_scope.

Module ServiceJobsProofs.

#[export] Instance job_key_le_total : Total job_key_le.
Proof.
  intros [a1 a2] [b1 b2]. unfold job_key_le. cbn.
  destruct (decide (a1 = b1)) as [->|Hne].
  - destruct (total str_le a2 b2); auto.
  - destruct (total str_le a1 b1); [auto|]. right. left. auto.
Qed.
#[export] Instance job_key_le_trans : Transitive job_key_le.
Proof.
  intros [a1 a2] [b1 b2] [c1 c2]. unfold job_key_le. cbn.
  intros [[Hab H1]|[-> H1]] [[Hbc H2]|[-> H2]]; auto.
  - left. split; [|by etrans]. intros ->. by destruct Hab; apply (anti_symm str_le).
  - right. split; [done|]. by etrans.
Qed.

(** A prefix of a sorted list is below the rest. *)
Lemma sorted_take_drop {A} (R : relation A) (l : list A) n x y :
  StronglySorted R l -> x ∈ take n l -> y ∈ drop n l -> R x y.
Proof.
  intros Hs Hx Hy. rewrite <-(take_drop n l) in Hs.
  by apply (StronglySorted_app_1_elem_of R (take n l) (drop n l)).
Qed.

Section jobs.
Context `{!Json, !JsonBuild}.

(** The jobs are filed under their ids. *)
Definition keyed (jobs : Jobs) : Prop := forall k j, jobs !! k = Some j -> sj_id j = k.

Definition sorted_keys (jobs : Jobs) : list (string * string) :=
  merge_sort job_key_le (map (fun p => job_key p.2) (map_to_list jobs)).

Lemma sorted_keys_perm jobs :
  sorted_keys jobs ≡ₚ map (fun p => job_key p.2) (map_to_list jobs).
Proof. apply merge_sort_Permutation. Qed.
Lemma elem_of_sorted_keys jobs k j : jobs !! k = Some j -> job_key j ∈ sorted_keys jobs.
Proof.
  intros Hk. rewrite sorted_keys_perm. apply list_elem_of_fmap. exists (k, j).
  split; [done|]. by rewrite elem_of_map_to_list.
Qed.
Lemma sorted_keys_ids jobs : keyed jobs -> map snd (sorted_keys jobs) ≡ₚ map fst (map_to_list jobs).
Proof.
  intros Hk. rewrite sorted_keys_perm, map_map. apply Permutation_refl', map_ext_in.
  intros [k j] Hin%list_elem_of_In. apply elem_of_map_to_list in Hin. by apply Hk.
Qed.
Lemma sorted_keys_NoDup jobs : keyed jobs -> NoDup (map snd (sorted_keys jobs)).
Proof. intros Hk. rewrite sorted_keys_ids by done. apply NoDup_fst_map_to_list. Qed.

Lemma lookup_delete_all (l : list (string * string)) (jobs : Jobs) k :
  foldl (fun jobs key => delete key.2 jobs) jobs l !! k
    = if decide (k ∈ map snd l) then None else jobs !! k.
Proof.
  revert jobs. induction l as [|[a b] l IH]; intros jobs; cbn [foldl map snd]; [done|].
  rewrite IH. destruct (decide (k ∈ map snd l)) as [Hin|Hn].
  - rewrite decide_True; [done|]. by apply elem_of_cons; right.
  - destruct (decide (k = b)) as [->|Hne].
    + rewrite lookup_delete_eq, decide_True; [done|]. by apply elem_of_cons; left.
    + rewrite lookup_delete_ne by done. rewrite decide_False; [done|].
      by intros [?|?]%elem_of_cons.
Qed.

Lemma size_delete_all (l : list (string * string)) (jobs : Jobs) :
  NoDup (map snd l) -> (forall k, k ∈ map snd l -> is_Some (jobs !! k)) ->
  size (foldl (fun jobs key => delete key.2 jobs) jobs l) = (size jobs - length l)%nat.
Proof.
  revert jobs. induction l as [|[a b] l IH]; intros jobs; cbn [foldl map snd length].
  { intros _ _. lia. }
  intros [Hb Hl]%NoDup_cons Hin. rewrite IH; [|done|].
  - destruct (Hin b) as [j Hj]; [by apply elem_of_cons; left|].
    rewrite map_size_delete, Hj. lia.
  - intros k Hk. rewrite lookup_delete_ne by (intros <-; contradiction).
    apply Hin. by apply elem_of_cons; right.
Qed.

Lemma prune_lookup jobs k :
  prune_service_jobs jobs !! k = jobs !! k \/ prune_service_jobs jobs !! k = None.
Proof.
  unfold prune_service_jobs. destruct (_ <=? _)%nat; [by left|]. rewrite lookup_delete_all.
  case_decide; auto.
Qed.

Lemma prune_small jobs : (size jobs <= MAX_SERVICE_JOBS)%nat -> prune_service_jobs jobs = jobs.
Proof. intros Hs. unfold prune_service_jobs. by rewrite (proj2 (Nat.leb_le _ _) Hs). Qed.

Lemma length_sorted_keys jobs : length (sorted_keys jobs) = size jobs.
Proof. rewrite sorted_keys_perm, length_map. apply length_map_to_list. Qed.

Lemma prune_keyed jobs : keyed jobs -> keyed (prune_service_jobs jobs).
Proof. intros Hk k j Hj. destruct (prune_lookup jobs k) as [He|He]; rewrite He in Hj; [auto|done]. Qed.

Definition excess (jobs : Jobs) : nat := size jobs - MAX_SERVICE_JOBS.

Lemma prune_large jobs :
  (MAX_SERVICE_JOBS < size jobs)%nat ->
  prune_service_jobs jobs
    = foldl (fun jobs key => delete key.2 jobs) jobs (take (excess jobs) (sorted_keys jobs)).
Proof. intros Hs. unfold prune_service_jobs. by rewrite (proj2 (Nat.leb_gt _ _) Hs). Qed.

(** The ids that go are distinct ids of jobs. *)
Lemma removed_ids jobs n :
  keyed jobs ->
  NoDup (map snd (take n (sorted_keys jobs))) /\
  forall k, k ∈ map snd (take n (sorted_keys jobs)) -> is_Some (jobs !! k).
Proof.
  intros Hk. pose proof (sorted_keys_NoDup jobs Hk) as Hn. pose proof (sorted_keys_ids jobs Hk) as Hp.
  rewrite <-(take_drop n (sorted_keys jobs)), map_app in Hn, Hp.
  split; [by apply NoDup_app in Hn as (? & _)|]. intros k Hin.
  assert (k ∈ map fst (map_to_list jobs)) as Hin'.
  { rewrite <-Hp. apply elem_of_app. by left. }
  apply list_elem_of_fmap in Hin' as ([k' j] & -> & Hin'%elem_of_map_to_list). by exists j.
Qed.

(** Which jobs go, by their keys. *)
Lemma prune_lookup_None jobs k j :
  keyed jobs -> jobs !! k = Some j ->
  (prune_service_jobs jobs !! k = None
   <-> (MAX_SERVICE_JOBS < size jobs)%nat /\ job_key j ∈ take (excess jobs) (sorted_keys jobs)).
Proof.
  intros Hk Hj. destruct (Nat.ltb_spec MAX_SERVICE_JOBS (size jobs)) as [Hs|Hs].
  2:{ rewrite prune_small by done. split; [congruence|lia]. }
  rewrite prune_large, lookup_delete_all by done. split.
  - case_decide as Hin; [|congruence]. intros _. split; [done|].
    apply list_elem_of_fmap in Hin as ([t i] & -> & Hin). cbn in *.
    assert ((t, i) ∈ sorted_keys jobs) as Hin'.
    { rewrite <-(take_drop (excess jobs) (sorted_keys jobs)). apply elem_of_app. by left. }
    rewrite sorted_keys_perm in Hin'. apply list_elem_of_fmap in Hin' as ([i' j'] & He & Hm).
    apply elem_of_map_to_list in Hm. pose proof (Hk _ _ Hm). cbn in He.
    injection He as -> Hi. assert (i = i') as -> by congruence.
    rewrite Hj in Hm. injection Hm as ->. unfold job_key. by rewrite <-Hi.
  - intros [_ Hin]. rewrite decide_True; [done|]. apply list_elem_of_fmap.
    exists (job_key j). split; [|done]. symmetry. by apply Hk.
Qed.

(** Pruning bounds the persisted jobs: at most 200 are left, exactly 200
    when there were more; every job that is left is unchanged, and none that was
    removed is later, in the order of the submission texts, than one that was
    kept. *)
Theorem prune_keeps_newest (jobs : Jobs) :
  keyed jobs ->
  size (prune_service_jobs jobs) = Nat.min (size jobs) MAX_SERVICE_JOBS /\
  prune_service_jobs jobs ⊆ jobs /\
  forall k j k' j', prune_service_jobs jobs !! k = Some j -> jobs !! k' = Some j' ->
    prune_service_jobs jobs !! k' = None -> job_key_le (job_key j') (job_key j).
Proof.
  intros Hk. split_and!.
  - destruct (Nat.ltb_spec MAX_SERVICE_JOBS (size jobs)).
    2:{ rewrite prune_small by done. lia. }
    rewrite prune_large, size_delete_all by (done || by apply removed_ids).
    rewrite length_take, length_sorted_keys. unfold excess. lia.
  - apply map_subseteq_spec. intros k j Hj. destruct (prune_lookup jobs k) as [He|He]; congruence.
  - intros k j k' j' Hkept Hj' Hgone.
    assert (jobs !! k = Some j) as Hj by (destruct (prune_lookup jobs k); congruence).
    apply (prune_lookup_None _ _ j') in Hgone as [Hs Hgone]; [|done..].
    apply (sorted_take_drop job_key_le (sorted_keys jobs) (excess jobs)); [|done|].
    + apply StronglySorted_merge_sort; apply _.
    + pose proof (elem_of_sorted_keys _ _ _ Hj) as Hin.
      rewrite <-(take_drop (excess jobs) (sorted_keys jobs)) in Hin.
      apply elem_of_app in Hin as [Hin|Hin]; [|done].
      rewrite (proj2 (prune_lookup_None jobs k j Hk Hj)) in Hkept; done.
Qed.

(** ** Cancelling *)

Definition cancellable (job : ServiceJob) : bool :=
  match sj_state job with Queued | WaitingProfileLease => true | _ => false end.

(** The mutator on its own. *)
Lemma cancel_cases now job_id reason jobs :
  match cancel_service_job now job_id reason jobs with
  | Ok (job, jobs') =>
      exists old, jobs !! job_id = Some old /\ sj_state job = Cancelled /\
      jobs' = <[job_id := job]> jobs /\
      (cancellable old = true /\ job = set_cancelled now reason old \/
       sj_state old = Cancelled /\ job = old)
  | Err _ =>
      forall old, jobs !! job_id = Some old ->
        sj_state old ∈ [Running; Succeeded; Failed; TimedOut]
  end.
Proof.
  unfold cancel_service_job, ok_or. destruct (jobs !! job_id) as [old|] eqn:Hold; cbn; [|done].
  destruct (sj_state old) eqn:Hs;
    try solve [intros ? [= <-]; rewrite Hs; set_solver].
  1,2: exists old; unfold cancellable; rewrite Hs; eauto 10.
  exists old. rewrite insert_id by done. eauto 10.
Qed.

(** A cancellation that succeeds leaves the job recorded as cancelled, with
    its result and reason when it was still waiting, and touches nothing else;
    a cancellation that fails changes nothing, and a job that is running or
    terminal, or does not exist, is never cancelled. *)
Theorem cancel_job_spec faults now job_id reason st :
  let '(r, st') := cancel_persisted_service_job faults now job_id reason st in
  match r with
  | Ok job =>
      exists old, st_jobs st !! job_id = Some old /\
      sj_state job = Cancelled /\
      st' = with_jobs (<[job_id := job]> (st_jobs st)) st /\
      (cancellable old = true /\ job = set_cancelled now reason old \/
       sj_state old = Cancelled /\ job = old)
  | Err _ =>
      st' = st /\
      (fl_load faults = None -> fl_save faults = None ->
       forall old, st_jobs st !! job_id = Some old ->
         sj_state old ∈ [Running; Succeeded; Failed; TimedOut])
  end.
Proof.
  unfold cancel_persisted_service_job, cancel_service_job_in_repository, repository_mutate.
  destruct (fl_load faults); [by split|].
  pose proof (cancel_cases now job_id reason (st_jobs st)) as Hc.
  destruct (cancel_service_job _ _ _ _) as [[job jobs']|e]; cbn.
  - destruct Hc as (old & Hold & Hs & -> & Hc). destruct (fl_save faults); cbn; [by split|].
    by exists old.
  - by split.
Qed.
End jobs.
End ServiceJobsProofs.
