(* ===== verification/ControlJobs.v ===== *)
(** * The job records of the control plane

    The helpers of [cli/src/native/control_plane.rs] that build a request from a
    command, describe it as a service job, and persist each phase of its life. *)

From S2P Require Import Prelude RustStr Env ServiceJobs.
From Stdlib Require Import Ascii.
From stdpp Require Import pretty.
Import ServiceJobs.

Local Open Scope Z_scope.

Module ControlJobs.

Definition MAX_SERVICE_EVENTS : nat := 100.
Definition SERVICE_MONITORS_RUN_DUE_ACTION : string := "service_monitors_run_due".

Inductive ControlPriority := PriorityNormal | PriorityLifecycle.
#[export] Instance ControlPriority_eq_dec : EqDecision ControlPriority.
Proof. solve_decision. Defined.

Section jobs.
Context `{!Json, !JsonBuild, !JsonTree}.

(** The response channel and the cancellation token of a request are the number
    of the request. *)
Record ControlRequest := {
  rq_id : string;
  rq_job_id : string;
  rq_action : string;
  rq_service_name : option string;
  rq_agent_name : option string;
  rq_task_name : option string;
  rq_naming_warnings : list string;
  rq_command : value;
  rq_priority : ControlPriority;
  rq_timeout_ms : option Z;
  rq_submitted_at_wall : string;
  rq_submitted_at_mono : Z;
  rq_profile_lease_wait_started_at : option Z;
  rq_profile_lease_wait_profile_id : option string;
  rq_profile_lease_wait_conflict_session_ids : list string;
  rq_profile_lease_wait_retry_after_ms : option Z;
  rq_ticket : nat;
}.

(** ** Reading the command *)

Definition optional_command_string (command : value) (name : string) : option string :=
  v ← jget command name; s ← as_str v;
  if is_empty (trim s) then None else Some (trim s).

Definition command_with_service_job_id (command : value) (job_id : string) : value :=
  match jinsert "serviceJobId" (jstring job_id) command with
  | Some command => command
  | None => command
  end.

Definition request_naming_warnings (service_name agent_name task_name : option string)
    : list string :=
  match service_name with None => ["missing_service_name"%string] | Some _ => [] end ++
  match agent_name with None => ["missing_agent_name"%string] | Some _ => [] end ++
  match task_name with None => ["missing_task_name"%string] | Some _ => [] end.

Definition service_job_id (request : ControlRequest) : string := rq_job_id request.

Definition service_job_priority (priority : ControlPriority) : JobPriority :=
  match priority with PriorityNormal => NormalPriority | PriorityLifecycle => LifecyclePriority end.

Definition service_job_control_plane_mode (request : ControlRequest) : JobControlPlaneMode :=
  if (rq_action request == "cdp_free_launch"%string)
     || ((jget (rq_command request) "requiresCdpFree" ≫= as_bool) == Some true) then CdpFreeMode
  else if (rq_priority request == PriorityLifecycle)
     || (rq_action request == "view_takeover"%string)
     || starts_with "service_" (rq_action request) then ServiceMode
  else CdpMode.

Definition service_job_lifecycle_only (request : ControlRequest) : bool :=
  match service_job_control_plane_mode request with
  | CdpFreeMode | ServiceMode => true
  | CdpMode => false
  end.

Definition normalize_service_job_display_isolation (value : string) : option string :=
  let t := trim value in
  if one_of t ["private_virtual_display"; "private-virtual-display"; "private"]%string
  then Some "private_virtual_display"%string
  else if one_of t ["shared_display"; "shared-display"; "shared"]%string
  then Some "shared_display"%string
  else if one_of t ["ambient_display"; "ambient-display"; "ambient"]%string
  then Some "ambient_display"%string
  else None.

(** [Option::or_else] *)
Definition or_else {A} (o : option A) (o' : option A) : option A :=
  match o with Some _ => o | None => o' end.

(** The source recurses into the [params] of the command; [jsize] bounds it. *)
Fixpoint display_isolation_from (fuel : nat) (command : value) : option string :=
  match fuel with
  | O => None
  | S fuel =>
      or_else (optional_command_string command "displayIsolation")
        (or_else (optional_command_string command "displayAllocation")
           (or_else (optional_command_string command "displayAllocationPolicy")
              (jget command "params" ≫= display_isolation_from fuel)))
      ≫= normalize_service_job_display_isolation
  end.
Definition service_job_display_isolation_from_command (command : value) : option string :=
  display_isolation_from (S (jsize command)) command.
Definition service_job_display_isolation (request : ControlRequest) : option string :=
  service_job_display_isolation_from_command (rq_command request).

(** The first of the keys that holds a string. *)
Fixpoint string_any (object : value) (keys : list string) : option string :=
  match keys with
  | [] => None
  | key :: keys => or_else (optional_command_string object key) (string_any object keys)
  end.
Definition service_job_command_string_any (command : value) (keys : list string) : option string :=
  or_else (string_any command keys)
    (params ← jget command "params"; string_any params keys).
Definition service_job_response_string_any (response : option value) (keys : list string)
    : option string :=
  response ← response;
  or_else (data ← jget response "data"; string_any data keys) (string_any response keys).

Record ServiceJobAllocationRefs := {
  requested_display_allocation_id : option string;
  display_allocation_id : option string;
  requested_remote_view_route_id : option string;
  remote_view_route_id : option string;
  route_pool_entry_id : option string;
  viewer_lease_id : option string;
  controller_lease_id : option string;
}.

Definition service_job_allocation_refs (request : ControlRequest) (response : option value)
    : ServiceJobAllocationRefs :=
  let command := rq_command request in
  let requested_display := service_job_command_string_any command
    ["requestedDisplayAllocationId"; "displayAllocationId"; "displayAllocation"]%string in
  let requested_route := service_job_command_string_any command
    ["requestedRemoteViewRouteId"; "remoteViewRouteId"; "routeId"; "viewStreamRouteId"]%string in
  let requested_viewer := service_job_command_string_any command
    ["viewerLeaseId"; "requestedViewerLeaseId"]%string in
  let requested_controller := service_job_command_string_any command
    ["controllerLeaseId"; "requestedControllerLeaseId"]%string in
  {| display_allocation_id := or_else (service_job_response_string_any response
       ["displayAllocationId"; "resolvedDisplayAllocationId"]%string) requested_display;
     remote_view_route_id := or_else (service_job_response_string_any response
       ["remoteViewRouteId"; "routeId"; "resolvedRemoteViewRouteId"]%string) requested_route;
     route_pool_entry_id := or_else
       (service_job_response_string_any response ["routePoolEntryId"]%string)
       (service_job_command_string_any command ["routePoolEntryId"]%string);
     viewer_lease_id := or_else
       (service_job_response_string_any response ["viewerLeaseId"]%string) requested_viewer;
     controller_lease_id := or_else
       (service_job_response_string_any response ["controllerLeaseId"]%string)
       requested_controller;
     requested_display_allocation_id := requested_display;
     requested_remote_view_route_id := requested_route |}.

Definition service_job_optional_command_string (request : ControlRequest) (name : string)
    : option string := optional_command_string (rq_command request) name.

Definition merge_service_job_target_service_id (values : list string) (value : string)
    : list string :=
  let trimmed := trim value in
  if negb (is_empty trimmed) && negb (existsb (fun existing => existing == trimmed) values)
  then values ++ [trimmed] else values.

Definition service_job_target_service_ids (request : ControlRequest) : list string :=
  let command := rq_command request in
  let values := foldl (fun values key =>
      match jget command key ≫= as_str with
      | Some value => merge_service_job_target_service_id values value
      | None => values
      end) []
    ["targetServiceId"; "targetService"; "siteId"; "loginId"; "accountId"; "account";
     "target_service_id"; "site_id"; "login_id"; "account_id"]%string in
  foldl (fun values key =>
      match jget command key ≫= as_array with
      | Some raw_values =>
          foldl merge_service_job_target_service_id values (omap as_str raw_values)
      | None => values
      end) values
    ["targetServiceIds"; "targetServices"; "siteIds"; "loginIds"; "accountIds"; "accounts";
     "target_service_ids"; "site_ids"; "login_ids"; "account_ids"]%string.

(** ** Building a request *)

(** The timeout of a command, else the configured one. *)
Definition request_timeout_ms (service_job_timeout_ms : option Z) (command : value) : option Z :=
  or_else (ms ← jget command "jobTimeoutMs" ≫= as_u64; if 0 <? ms then Some ms else None)
          service_job_timeout_ms.

Definition str_of (command : value) (key : string) : string :=
  match jget command key ≫= as_str with Some s => s | None => ""%string end.

(** The request of [submit]; [uuid], [wall], [mono] and the number of the request
    come from the environment. *)
Definition submitted_request (service_job_timeout_ms : option Z) (uuid wall : string) (mono : Z)
    (ticket : nat) (command : value) : ControlRequest :=
  let id := str_of command "id" in
  let job_id := if is_empty id then fmt ["job-"; uuid] else id in
  let command' := command_with_service_job_id command job_id in
  let service_name := optional_command_string command' "serviceName" in
  let agent_name := optional_command_string command' "agentName" in
  let task_name := optional_command_string command' "taskName" in
  {| rq_id := id;
     rq_job_id := job_id;
     rq_action := str_of command "action";
     rq_service_name := service_name;
     rq_agent_name := agent_name;
     rq_task_name := task_name;
     rq_naming_warnings := request_naming_warnings service_name agent_name task_name;
     rq_command := command';
     rq_priority := PriorityNormal;
     rq_timeout_ms := request_timeout_ms service_job_timeout_ms command';
     rq_submitted_at_wall := wall;
     rq_submitted_at_mono := mono;
     rq_profile_lease_wait_started_at := None;
     rq_profile_lease_wait_profile_id := None;
     rq_profile_lease_wait_conflict_session_ids := [];
     rq_profile_lease_wait_retry_after_ms := None;
     rq_ticket := ticket |}.

(** The request of [enqueue_due_monitor_run]. *)
Definition monitor_request (service_job_timeout_ms : option Z) (uuid wall : string) (mono : Z)
    (ticket : nat) : ControlRequest :=
  let id := fmt ["service-monitor-run-"; uuid]%string in
  {| rq_id := id;
     rq_job_id := id;
     rq_action := SERVICE_MONITORS_RUN_DUE_ACTION;
     rq_service_name := Some "agent-browser"%string;
     rq_agent_name := Some "service-monitor-scheduler"%string;
     rq_task_name := Some "run-due-monitors"%string;
     rq_naming_warnings := [];
     rq_command := jobject [("id", jstring id);
       ("action", jstring SERVICE_MONITORS_RUN_DUE_ACTION)]%string;
     rq_priority := PriorityLifecycle;
     rq_timeout_ms := service_job_timeout_ms;
     rq_submitted_at_wall := wall;
     rq_submitted_at_mono := mono;
     rq_profile_lease_wait_started_at := None;
     rq_profile_lease_wait_profile_id := None;
     rq_profile_lease_wait_conflict_session_ids := [];
     rq_profile_lease_wait_retry_after_ms := None;
     rq_ticket := ticket |}.

(** ** The record of each phase

    What the seven records share: everything the request and the response
    determine, for the fields the source sets from [ServiceJob::default]
    otherwise. *)
Definition job_record (request : ControlRequest) (response : option value) (state : JobState)
    (priority : JobPriority) (submitted_at started_at completed_at : option string)
    (timeout_ms : option Z) (result : option value) (error : option string) : ServiceJob :=
  let refs := service_job_allocation_refs request response in
  {| sj_id := service_job_id request;
     sj_action := rq_action request;
     sj_service_name := rq_service_name request;
     sj_agent_name := rq_agent_name request;
     sj_task_name := rq_task_name request;
     sj_target_service_id := service_job_optional_command_string request "targetServiceId";
     sj_site_id := service_job_optional_command_string request "siteId";
     sj_login_id := service_job_optional_command_string request "loginId";
     sj_target_service_ids := service_job_target_service_ids request;
     sj_naming_warnings := rq_naming_warnings request;
     sj_has_naming_warning := match rq_naming_warnings request with [] => false | _ => true end;
     sj_control_plane_mode := service_job_control_plane_mode request;
     sj_lifecycle_only := service_job_lifecycle_only request;
     sj_display_isolation := service_job_display_isolation request;
     sj_requested_display_allocation_id := requested_display_allocation_id refs;
     sj_display_allocation_id := display_allocation_id refs;
     sj_requested_remote_view_route_id := requested_remote_view_route_id refs;
     sj_remote_view_route_id := remote_view_route_id refs;
     sj_route_pool_entry_id := route_pool_entry_id refs;
     sj_viewer_lease_id := viewer_lease_id refs;
     sj_controller_lease_id := controller_lease_id refs;
     sj_target := TargetService;
     sj_owner := ActorSystem;
     sj_state := state;
     sj_priority := priority;
     sj_submitted_at := submitted_at;
     sj_started_at := started_at;
     sj_completed_at := completed_at;
     sj_timeout_ms := timeout_ms;
     sj_result := result;
     sj_error := error |}.

Definition queued_job (request : ControlRequest) : ServiceJob :=
  job_record request None Queued (service_job_priority (rq_priority request))
    (Some (rq_submitted_at_wall request)) None None (rq_timeout_ms request) None None.

Definition waiting_profile_lease_job (request : ControlRequest) (retry_after_ms : Z)
    (profile_id : string) (conflict_session_ids : list string) : ServiceJob :=
  job_record request None WaitingProfileLease (service_job_priority (rq_priority request))
    (Some (rq_submitted_at_wall request)) None None (rq_timeout_ms request)
    (Some (jobject [("waitingProfileLease", jbool true); ("profileId", jstring profile_id);
       ("conflictSessionIds", jarray (map jstring conflict_session_ids));
       ("retryAfterMs", jnumber retry_after_ms)]%string)) None.

Definition running_job (request : ControlRequest) (now : string) : ServiceJob :=
  job_record request None Running (service_job_priority (rq_priority request))
    (Some (rq_submitted_at_wall request)) (Some now) None (rq_timeout_ms request) None None.

(** [load_service_job(..).and_then(|job| job.started_at).unwrap_or_else(now)] *)
Definition started_or_now (loaded : option ServiceJob) (now : string) : string :=
  match loaded ≫= sj_started_at with Some t => t | None => now end.

Definition finished_job (request : ControlRequest) (response : value) (started_at now : string)
    : ServiceJob :=
  let success := match jget response "success" ≫= as_bool with Some b => b | None => false end in
  job_record request (Some response) (if success then Succeeded else Failed)
    (service_job_priority (rq_priority request)) (Some (rq_submitted_at_wall request))
    (Some started_at) (Some now) (rq_timeout_ms request)
    (Some (jobject [("success", jbool success)]%string)) (jget response "error" ≫= as_str).

Definition timed_out_job (request : ControlRequest) (started_at now : string) : ServiceJob :=
  let timeout_ms := match rq_timeout_ms request with Some ms => ms | None => 0 end in
  job_record request None TimedOut (service_job_priority (rq_priority request))
    (Some (rq_submitted_at_wall request)) (Some started_at) (Some now) (rq_timeout_ms request)
    (Some (jobject [("success", jbool false); ("timedOut", jbool true);
       ("timeoutMs", jnumber timeout_ms)]%string))
    (Some (fmt ["Service job timed out after "; pretty timeout_ms; "ms"])).

Definition cancelled_job (request : ControlRequest) (reason started_at now : string)
    : ServiceJob :=
  job_record request None Cancelled (service_job_priority (rq_priority request))
    (Some (rq_submitted_at_wall request)) (Some started_at) (Some now) (rq_timeout_ms request)
    (Some (jobject [("success", jbool false); ("cancelled", jbool true)]%string)) (Some reason).

Definition submitted_or_now (loaded : option ServiceJob) (now : string) : string :=
  match loaded ≫= sj_submitted_at with Some t => t | None => now end.

Definition failed_to_enqueue_job (request : ControlRequest) (error submitted_at now : string)
    : ServiceJob :=
  job_record request None Failed NormalPriority (Some submitted_at) None (Some now) None
    (Some (jobject [("success", jbool false)]%string)) (Some error).

(** The mutator of [persist_service_job]. *)
Definition insert_job (job : ServiceJob) (st : JobStore) : JobStore :=
  with_jobs (<[sj_id job := job]> (st_jobs st)) st.

(** ** The events of a wait for a profile lease *)

Record ProfileLeaseWaitEvent := {
  we_kind : ServiceEventKind;
  we_outcome : string;
  we_profile_id : option string;
  we_conflict_session_ids : list string;
  we_retry_after_ms : option Z;
  we_waited_ms : option Z;
  we_error : option string;
}.

Definition profile_lease_wait_event_message (request : ControlRequest) (outcome : string)
    (profile_id : option string) : string :=
  let profile := match profile_id with Some p => p | None => "unknown profile"%string end in
  if outcome == "started"%string
  then fmt ["Service job "; service_job_id request; " started waiting for profile lease "; profile]
  else fmt ["Service job "; service_job_id request; " ended profile lease wait for "; profile;
            " with outcome "; outcome].

Definition json_option {A} (f : A -> value) (o : option A) : value :=
  match o with Some a => f a | None => jnull end.

Definition push_event (event : ServiceEvent) (events : list ServiceEvent) : list ServiceEvent :=
  let events := events ++ [event] in drop (length events - MAX_SERVICE_EVENTS) events.

(** The mutator of [record_profile_lease_wait_event]. *)
Definition record_profile_lease_wait_event (uuid now : string) (request : ControlRequest)
    (event : ProfileLeaseWaitEvent) (st : JobStore) : JobStore :=
  let details := jobject ([("jobId", jstring (service_job_id request));
      ("action", jstring (rq_action request));
      ("outcome", jstring (we_outcome event));
      ("profileId", json_option jstring (we_profile_id event));
      ("conflictSessionIds", jarray (map jstring (we_conflict_session_ids event)));
      ("retryAfterMs", json_option jnumber (we_retry_after_ms event));
      ("waitedMs", json_option jnumber (we_waited_ms event))]%string ++
      match we_error event with
      | Some error => [("error"%string, jstring error)]
      | None => []
      end) in
  with_events (push_event
    {| ev_id := fmt ["event-"; uuid]%string;
       ev_timestamp := now;
       ev_kind := we_kind event;
       ev_message :=
         profile_lease_wait_event_message request (we_outcome event) (we_profile_id event);
       ev_browser_id := None;
       ev_profile_id := we_profile_id event;
       ev_session_id := None;
       ev_service_name := rq_service_name request;
       ev_agent_name := rq_agent_name request;
       ev_task_name := rq_task_name request;
       ev_previous_health := None;
       ev_current_health := None;
       ev_details := Some details |} (st_events st)) st.

Definition wait_started_event (profile_id : string) (conflict_session_ids : list string)
    (retry_after_ms : Z) : ProfileLeaseWaitEvent :=
  {| we_kind := ProfileLeaseWaitStarted; we_outcome := "started";
     we_profile_id := Some profile_id; we_conflict_session_ids := conflict_session_ids;
     we_retry_after_ms := Some retry_after_ms; we_waited_ms := None; we_error := None |}.

Definition wait_ended_event (request : ControlRequest) (mono : Z) (outcome : string)
    (error : option string) : ProfileLeaseWaitEvent :=
  {| we_kind := ProfileLeaseWaitEnded; we_outcome := outcome;
     we_profile_id := rq_profile_lease_wait_profile_id request;
     we_conflict_session_ids := rq_profile_lease_wait_conflict_session_ids request;
     we_retry_after_ms := rq_profile_lease_wait_retry_after_ms request;
     we_waited_ms :=
       (fun started => (mono - started) mod 2 ^ 64) <$> rq_profile_lease_wait_started_at request;
     we_error := error |}.

(** ** The profile lease gate

    [service_profile_lease_gate] belongs to the dispatcher; what the scheduler
    does with its answer. *)
Inductive ServiceProfileLeaseGate :=
| GateReady
| GateReject (error : string)
| GateWait (retry_after_ms : Z) (profile_id : string) (conflict_session_ids : list string).
Inductive SchedulerLeaseDecision :=
| LeaseReady
| LeaseReject (error : string)
| LeaseWait (retry_after_ms : Z) (profile_id : string) (conflict_session_ids : list string)
    (first_wait : bool).

Definition scheduler_profile_lease_gate (mono : Z) (gate : res ServiceProfileLeaseGate)
    (request : ControlRequest) : SchedulerLeaseDecision * ControlRequest :=
  match gate with
  | Ok GateReady => (LeaseReady, request)
  | Ok (GateReject error) => (LeaseReject error, request)
  | Ok (GateWait retry_after_ms profile_id conflict_session_ids) =>
      let first_wait :=
        match rq_profile_lease_wait_started_at request with None => true | Some _ => false end in
      (LeaseWait retry_after_ms profile_id conflict_session_ids first_wait,
       {| rq_id := rq_id request; rq_job_id := rq_job_id request; rq_action := rq_action request;
          rq_service_name := rq_service_name request; rq_agent_name := rq_agent_name request;
          rq_task_name := rq_task_name request; rq_naming_warnings := rq_naming_warnings request;
          rq_command := rq_command request; rq_priority := rq_priority request;
          rq_timeout_ms := rq_timeout_ms request;
          rq_submitted_at_wall := rq_submitted_at_wall request;
          rq_submitted_at_mono := rq_submitted_at_mono request;
          rq_profile_lease_wait_started_at :=
            if first_wait then Some mono else rq_profile_lease_wait_started_at request;
          rq_profile_lease_wait_profile_id := Some profile_id;
          rq_profile_lease_wait_conflict_session_ids := conflict_session_ids;
          rq_profile_lease_wait_retry_after_ms := Some retry_after_ms;
          rq_ticket := rq_ticket request |})
  | Err error => (LeaseReject error, request)
  end.

(** More fuel than the size of the command changes nothing: the function below
    is the recursive one of the source. *)
Lemma display_isolation_fuel fuel command :
  (jsize command < fuel)%nat ->
  display_isolation_from fuel command = service_job_display_isolation_from_command command.
Proof.
  unfold service_job_display_isolation_from_command.
  enough (Hgen : forall n m command, (jsize command < n)%nat -> (jsize command < m)%nat ->
    display_isolation_from n command = display_isolation_from m command)
    by (intros; apply Hgen; lia).
  clear fuel command. induction n as [|n IH]; intros m command Hn Hm; [lia|].
  destruct m as [|m]; [lia|]. cbn [display_isolation_from].
  destruct (jget command "params") as [params|] eqn:Hp; [|done].
  apply jget_smaller in Hp. cbn. rewrite (IH m params) by lia. done.
Qed.

(** The equation [service_job_display_isolation_from_command] satisfies. *)
Lemma display_isolation_equation command :
  service_job_display_isolation_from_command command =
  (or_else (optional_command_string command "displayIsolation")
     (or_else (optional_command_string command "displayAllocation")
        (or_else (optional_command_string command "displayAllocationPolicy")
           (jget command "params" ≫= service_job_display_isolation_from_command)))
   ≫= normalize_service_job_display_isolation).
Proof.
  unfold service_job_display_isolation_from_command at 1. cbn [display_isolation_from].
  destruct (jget command "params") as [params|] eqn:Hp; [|done].
  apply jget_smaller in Hp. cbn. rewrite display_isolation_fuel by lia. done.
Qed.

End jobs.

End ControlJobs.
