(* ===== verification/ControlPlane.v ===== *)
(** * The control plane

    The single worker of [cli/src/native/control_plane.rs], the clients that
    submit to its queue and cancel its jobs, and the timers of requests that wait
    for a profile lease.

    Each of them is a program: a tree of atomic effects on the shared state, in
    the order in which the source performs them. The system interleaves the
    programs one effect at a time. *)

From S2P Require Import Prelude RustStr Env ServiceJobs ControlJobs.
From Stdlib Require Import Ascii.
From stdpp Require Import pretty gmap.
Import ServiceJobs ControlJobs.

Local Open Scope Z_scope.

Module ControlPlane.

Definition DEFAULT_QUEUE_CAPACITY : nat := 256.

Inductive WorkerState := Starting | Ready | Busy | Draining | Closing | Stopped | Faulted.
Inductive BrowserHealth :=
| NotStarted | Launching | HealthReady | Unreachable | ProcessExited | CdpDisconnected
| HealthClosing.

Definition worker_state_as_str (s : WorkerState) : string :=
  match s with
  | Starting => "Starting"
  | Ready => "Ready"
  | Busy => "Busy"
  | Draining => "Draining"
  | Closing => "Closing"
  | Stopped => "Stopped"
  | Faulted => "Faulted"
  end.
Definition browser_health_as_str (h : BrowserHealth) : string :=
  match h with
  | NotStarted => "NotStarted"
  | Launching => "Launching"
  | HealthReady => "Ready"
  | Unreachable => "Unreachable"
  | ProcessExited => "ProcessExited"
  | CdpDisconnected => "CdpDisconnected"
  | HealthClosing => "Closing"
  end.

Section control.
Context `{!Json, !JsonBuild, !JsonTree}.

(** The second component of a private request is its response channel; what it
    carries is the business of the private modules. *)
Inductive WorkerMessage :=
| Request (request : ControlRequest)
| Private (ticket : nat)
| PrivatePreflight (ticket : nat)
| Shutdown (ticket : nat).

(** What is sent on a response channel. *)
Inductive reply :=
| Response (v : value)
| PrivateResult (r : res unit)
| ShutdownDone.

(** Observations of the browser and of private requests, made by code outside
    the control plane. *)
Inductive question :=
| LeaseGranted | HasBrowser | HasProcessExited | ConnectionAlive | OwnedBrowserRecovered
| IsCdpConnection | PageReplaced | ReceiverClosed | HandoffCurrent | BindingValid
| DueMonitorWork.

Inductive send_result := Sent | Full | Closed.
Inductive run_result := Finished (response : value) | Interrupted | Elapsed (ms : Z).

(** ** Effects *)

Inductive eff :=
| FetchAdd
| FetchSub
| LoadDepth
| LoadState
| SetState (s : WorkerState)
| LoadHealth
| SetHealth (h : BrowserHealth)
| Now
| Mono
| Uuid
| LoadJob (id : string)
| MutateJobs (mutator : JobStore -> JobStore)
| CancelPersisted (now job_id : string) (reason : option string)
| TrySend (m : WorkerMessage)
| SendWait (m : WorkerMessage)
| SpawnRetry (request : ControlRequest)
| LeaseGate (command : value) (waited_ms : option Z)
| RunningInsert (job_id : string) (token : nat)
| RunningRemove (job_id : string)
| RunningGet (job_id : string)
| CancelToken (token : nat)
| Execute (request : ControlRequest) (timeout_ms : option Z)
| RunPrivate (ticket : nat)
| Ask (q : question)
| Send (ticket : nat) (r : reply)
| DropSender (ticket : nat)
| Panic (ticket : nat)
| CloseQueue.

Definition resp (e : eff) : Type :=
  match e with
  | LoadDepth => Z
  | LoadState => WorkerState
  | LoadHealth => BrowserHealth
  | Now | Uuid => string
  | Mono => Z
  | LoadJob _ => option ServiceJob
  | CancelPersisted _ _ _ => res ServiceJob
  | TrySend _ | SendWait _ => send_result
  | LeaseGate _ _ => res ServiceProfileLeaseGate
  | RunningGet _ => option nat
  | Execute _ _ => run_result
  | RunPrivate _ => res unit
  | Ask _ => bool
  | Panic _ => Empty_set
  | _ => unit
  end.

Inductive prog (A : Type) : Type :=
| Ret (a : A)
| Do (e : eff) (k : resp e -> prog A).
#[global] Arguments Ret {A} _.
#[global] Arguments Do {A} _ _.

Fixpoint prog_bind {A B} (f : A -> prog B) (p : prog A) : prog B :=
  match p with
  | Ret a => f a
  | Do e k => Do e (fun r => prog_bind f (k r))
  end.
#[global] Instance prog_mret : MRet prog := fun A => Ret.
#[global] Instance prog_mbind : MBind prog := fun A B => prog_bind.

(** One effect as a program. *)
Definition perform (e : eff) : prog (resp e) := Do e (fun r => Ret r).
Definition done_ : prog unit := Ret tt.

(** ** Persisting a phase *)

Definition persist_service_job (job : ServiceJob) : prog unit :=
  perform (MutateJobs (insert_job job)).
Definition persist_service_job_queued (request : ControlRequest) : prog unit :=
  persist_service_job (queued_job request).
Definition persist_service_job_waiting_profile_lease (request : ControlRequest)
    (retry_after_ms : Z) (profile_id : string) (conflict_session_ids : list string) : prog unit :=
  persist_service_job
    (waiting_profile_lease_job request retry_after_ms profile_id conflict_session_ids).
Definition persist_service_job_running (request : ControlRequest) : prog unit :=
  now ← perform Now; persist_service_job (running_job request now).
Definition persist_service_job_finished (request : ControlRequest) (response : value)
    : prog unit :=
  loaded ← perform (LoadJob (service_job_id request)); now ← perform Now;
  now' ← perform Now;
  persist_service_job (finished_job request response (started_or_now loaded now) now').
Definition persist_service_job_timed_out (request : ControlRequest) : prog unit :=
  loaded ← perform (LoadJob (service_job_id request)); now ← perform Now;
  now' ← perform Now;
  persist_service_job (timed_out_job request (started_or_now loaded now) now').
Definition persist_service_job_cancelled (request : ControlRequest) (reason : string)
    : prog unit :=
  loaded ← perform (LoadJob (service_job_id request)); now ← perform Now;
  now' ← perform Now;
  persist_service_job (cancelled_job request reason (started_or_now loaded now) now').
Definition persist_service_job_failed_to_enqueue (request : ControlRequest) (error : string)
    : prog unit :=
  loaded ← perform (LoadJob (service_job_id request)); now ← perform Now;
  now' ← perform Now;
  persist_service_job (failed_to_enqueue_job request error (submitted_or_now loaded now) now').

Definition service_job_cancelled (job_id : string) : prog bool :=
  loaded ← perform (LoadJob job_id);
  Ret (match loaded with Some job => sj_state job == Cancelled | None => false end).

Definition record_event (request : ControlRequest) (event : ProfileLeaseWaitEvent) : prog unit :=
  uuid ← perform Uuid; now ← perform Now;
  perform (MutateJobs (record_profile_lease_wait_event uuid now request event)).
Definition record_profile_lease_wait_started_event (request : ControlRequest)
    (profile_id : string) (conflict_session_ids : list string) (retry_after_ms : Z) : prog unit :=
  record_event request (wait_started_event profile_id conflict_session_ids retry_after_ms).
Definition record_profile_lease_wait_ended_event (request : ControlRequest) (outcome : string)
    (error : option string) : prog unit :=
  mono ← perform Mono; record_event request (wait_ended_event request mono outcome error).
(** [if request.profile_lease_wait_started_at.is_some() { .. }] *)
Definition end_wait_if_started (request : ControlRequest) (outcome : string)
    (error : option string) : prog unit :=
  match rq_profile_lease_wait_started_at request with
  | Some _ => record_profile_lease_wait_ended_event request outcome error
  | None => done_
  end.

(** ** Clients *)

Definition error_reply (id error : string) (data : list (string * value)) : reply :=
  Response (jobject ([("id", jstring id); ("success", jbool false); ("error", jstring error)]%string
    ++ match data with [] => [] | _ => [("data"%string, jobject data)] end)).

Definition status_data (with_depth : bool) : prog (list (string * value)) :=
  depth ← (if with_depth then depth ← perform LoadDepth; Ret [("queue_depth"%string, jnumber depth)]
           else Ret []);
  state ← perform LoadState; health ← perform LoadHealth;
  Ret (depth ++ [("worker_state", jstring (worker_state_as_str state));
                 ("browser_health", jstring (browser_health_as_str health))]%string).

(** [submit] up to the wait for the response: what the caller gets back when the
    request cannot be queued is sent on the request's own channel. *)
Definition submit (request : ControlRequest) : prog unit :=
  perform FetchAdd;; persist_service_job_queued request;;
  sent ← perform (TrySend (Request request));
  match sent with
  | Sent => done_
  | Full =>
      perform FetchSub;;
      persist_service_job_failed_to_enqueue request "Control queue is full";;
      data ← status_data true;
      perform (Send (rq_ticket request)
        (error_reply (rq_id request) "Control queue is full" data))
  | Closed =>
      perform FetchSub;;
      persist_service_job_failed_to_enqueue request "Control plane worker is stopped";;
      data ← status_data false;
      perform (Send (rq_ticket request)
        (error_reply (rq_id request) "Control plane worker is stopped" data))
  end.

(** [enqueue_due_monitor_run]; the receiver of the response is dropped at once,
    so what happens to its sender is not observed. *)
Definition enqueue_due_monitor_run (request : ControlRequest) : prog unit :=
  pending ← perform (Ask DueMonitorWork);
  if negb pending then perform (DropSender (rq_ticket request)) else
  perform FetchAdd;; persist_service_job_queued request;;
  sent ← perform (TrySend (Request request));
  match sent with
  | Sent => done_
  | Full =>
      perform FetchSub;;
      persist_service_job_failed_to_enqueue request "Control queue is full";;
      perform (DropSender (rq_ticket request))
  | Closed =>
      perform FetchSub;;
      persist_service_job_failed_to_enqueue request "Control plane worker is stopped";;
      perform (DropSender (rq_ticket request))
  end.

(** [enqueue_private] *)
Definition enqueue_private (ticket : nat) : prog unit :=
  current ← perform (Ask HandoffCurrent);
  if negb current
  then perform (Send ticket (PrivateResult (Err "private_handoff_expired"))) else
  perform FetchAdd;;
  sent ← perform (TrySend (Private ticket));
  match sent with
  | Sent => done_
  | Full | Closed =>
      perform FetchSub;;
      perform (Send ticket (PrivateResult (Err "private_worker_unavailable")))
  end.

Definition private_preflight (ticket : nat) : prog unit :=
  sent ← perform (TrySend (PrivatePreflight ticket));
  match sent with
  | Sent => done_
  | Full | Closed => perform (Send ticket (PrivateResult (Err "private_preflight_failed")))
  end.

(** [cancel_job_response]; [Send] is the return. The job of the response is
    represented by its id and state. *)
Definition job_json (job : ServiceJob) : value :=
  jobject [("id", jstring (sj_id job)); ("state", jstring (job_state_name (sj_state job)))]%string.
Definition cancel_requested_reply (id job_id : string) : reply :=
  Response (jobject [("id", jstring id); ("success", jbool true);
    ("data", jobject [("cancelled", jbool false); ("cancellationRequested", jbool true);
                      ("jobId", jstring job_id)])]%string).
Definition cancelled_reply (id : string) (job : ServiceJob) : reply :=
  Response (jobject [("id", jstring id); ("success", jbool true);
    ("data", jobject [("cancelled", jbool true); ("job", job_json job)])]%string).
Definition cancel_job_response (ticket : nat) (id job_id : string) (reason : option string)
    : prog unit :=
  running ← perform (RunningGet job_id);
  match running with
  | Some token =>
      perform (CancelToken token);;
      perform (Send ticket (cancel_requested_reply id job_id))
  | None =>
      now ← perform Now;
      cancelled ← perform (CancelPersisted now job_id reason);
      match cancelled with
      | Ok job => perform (Send ticket (cancelled_reply id job))
      | Err error => perform (Send ticket (error_reply id error []))
      end
  end.

Definition shutdown (ticket : nat) : prog unit :=
  sent ← perform (SendWait (Shutdown ticket));
  match sent with Sent => done_ | Full | Closed => perform (DropSender ticket) end.

(** ** The timer of a request that waits for a profile lease *)

Definition retry_timer (request : ControlRequest) : prog unit :=
  let error :=
    "Control plane worker is stopped while waiting for profile lease"%string in
  sent ← perform (SendWait (Request request));
  match sent with
  | Sent => done_
  | Full | Closed =>
      perform FetchSub;;
      persist_service_job_failed_to_enqueue request error;;
      end_wait_if_started request "worker_stopped" (Some error);;
      perform (Send (rq_ticket request) (error_reply (rq_id request) error []))
  end.

(** ** The worker *)

(** [cleanup_exited_browser]'s effects on the status: none. *)
Definition refresh_browser_health : prog unit :=
  lease ← perform (Ask LeaseGranted); if negb lease then done_ else
  browser ← perform (Ask HasBrowser);
  if negb browser then perform (SetHealth NotStarted) else
  exited ← perform (Ask HasProcessExited);
  if (exited : bool) then perform (SetHealth ProcessExited) else
  alive ← perform (Ask ConnectionAlive);
  if (alive : bool) then perform (SetHealth HealthReady) else
  perform (SetHealth CdpDisconnected);;
  recovered ← perform (Ask OwnedBrowserRecovered);
  if (recovered : bool) then perform (SetHealth HealthReady) else done_.

Definition command_requires_post_timeout_renderer_circuit (command : value) : bool :=
  match jget command "serviceTabHandle" with
  | Some _ => false
  | None => one_of (str_of command "action") ["navigate"; "evaluate"; "snapshot"; "screenshot";
      "content"; "title"; "url"; "wait"]%string
  end.

Definition run_post_timeout_health_circuit (command : value) : prog unit :=
  lease ← perform (Ask LeaseGranted); if negb lease then done_ else
  if negb (command_requires_post_timeout_renderer_circuit command)
  then refresh_browser_health else
  browser ← perform (Ask HasBrowser);
  if negb browser then perform (SetHealth NotStarted) else
  exited ← perform (Ask HasProcessExited);
  if (exited : bool) then perform (SetHealth ProcessExited) else
  alive ← perform (Ask ConnectionAlive);
  if negb alive then
    perform (SetHealth CdpDisconnected);;
    recovered ← perform (Ask OwnedBrowserRecovered);
    if (recovered : bool) then perform (SetHealth HealthReady) else done_
  else
  cdp ← perform (Ask IsCdpConnection);
  if (cdp : bool) then perform (SetHealth HealthReady) else
  replaced ← perform (Ask PageReplaced);
  if (replaced : bool) then perform (SetHealth HealthReady)
  else perform (SetHealth CdpDisconnected).

Definition flag_at (response : value) (key : string) : bool :=
  (data ← jget response "data"; jget data key ≫= as_bool) == Some true.

Definition interrupted_reply (request : ControlRequest) : value :=
  jobject [("id", jstring (rq_id request)); ("success", jbool false);
    ("error", jstring "Service job was cancelled while running");
    ("data", jobject [("cancelled", jbool true)])]%string.
Definition elapsed_reply (request : ControlRequest) (ms : Z) : value :=
  jobject [("id", jstring (rq_id request)); ("success", jbool false);
    ("error", jstring (fmt ["Service job timed out after "; pretty ms; "ms"]));
    ("data", jobject [("timedOut", jbool true); ("timeoutMs", jnumber ms)])]%string.

(** The timings the worker adds to a response; [None] when indexing panics. *)
Definition add_timings (queue_wait_ms : Z) (response : value) : option value :=
  let daemon_total_ms := match timings ← jget response "timings";
                               jget timings "daemonTotalMs" ≫= as_u64 with
                         | Some ms => ms | None => 0 end in
  let timings := match jget response "timings" with Some t => t | None => jnull end in
  timings ← jindex_set "queueWaitMs" (jnumber queue_wait_ms) timings;
  timings ← jindex_set "totalMs"
    (jnumber (Z.min (queue_wait_ms + daemon_total_ms) (2 ^ 64 - 1))) timings;
  jindex_set "timings" timings response.
Definition include_timings (command : value) : bool :=
  match jget command "includeTimings" ≫= as_bool with Some b => b | None => false end.

(** Running an admitted request: from [status.set_state(Busy)] on. *)
Definition run_request (service_job_timeout_ms : option Z) (queue_wait_ms : Z)
    (request : ControlRequest) : prog unit :=
  perform (SetState Busy);;
  persist_service_job_running request;;
  perform (RunningInsert (rq_job_id request) (rq_ticket request));;
  ran ← perform (Execute request (or_else (rq_timeout_ms request) service_job_timeout_ms));
  response ← match ran with
             | Finished response => Ret response
             | Interrupted =>
                 persist_service_job_cancelled request "Service job was cancelled while running";;
                 Ret (interrupted_reply request)
             | Elapsed ms =>
                 persist_service_job_timed_out request;; Ret (elapsed_reply request ms)
             end;
  let response := if include_timings (rq_command request)
                  then add_timings queue_wait_ms response else Some response in
  match response with
  | None => _ ← perform (Panic (rq_ticket request)); done_
  | Some response =>
      perform (RunningRemove (rq_job_id request));;
      let timed_out := flag_at response "timedOut" in
      let cancelled := flag_at response "cancelled" in
      (if (cancelled : bool) then
         persist_service_job_cancelled request "Service job was cancelled while running"
       else done_);;
      (if negb timed_out && negb cancelled then persist_service_job_finished request response
       else done_);;
      perform (Send (rq_ticket request) (Response response));;
      (if (timed_out : bool) then run_post_timeout_health_circuit (rq_command request)
       else refresh_browser_health);;
      perform (SetState Ready)
  end.

Definition handle_request (service_job_timeout_ms : option Z) (request : ControlRequest)
    : prog unit :=
  mono ← perform Mono;
  let queue_wait_ms := Z.min (mono - rq_submitted_at_mono request) (2 ^ 64 - 1) in
  perform FetchSub;;
  cancelled ← service_job_cancelled (rq_job_id request);
  if (cancelled : bool) then
    let error := "Service job was cancelled before dispatch"%string in
    end_wait_if_started request "cancelled" (Some error);;
    perform (Send (rq_ticket request) (error_reply (rq_id request) error []))
  else
  mono ← perform Mono;
  let waited_ms :=
    (fun started => (mono - started) mod 2 ^ 64) <$> rq_profile_lease_wait_started_at request in
  gate ← perform (LeaseGate (rq_command request) waited_ms);
  mono ← perform Mono;
  let '(decision, request) := scheduler_profile_lease_gate mono gate request in
  match decision with
  | LeaseReady =>
      end_wait_if_started request "ready" None;;
      run_request service_job_timeout_ms queue_wait_ms request
  | LeaseReject error =>
      end_wait_if_started request "timed_out" (Some error);;
      persist_service_job_failed_to_enqueue request error;;
      perform (Send (rq_ticket request) (error_reply (rq_id request) error []))
  | LeaseWait retry_after_ms profile_id conflict_session_ids first_wait =>
      persist_service_job_waiting_profile_lease request retry_after_ms profile_id
        conflict_session_ids;;
      (if (first_wait : bool) then
         record_profile_lease_wait_started_event request profile_id conflict_session_ids
           retry_after_ms
       else done_);;
      perform FetchAdd;;
      perform (SpawnRetry request)
  end.

Definition handle_private (ticket : nat) : prog unit :=
  perform FetchSub;;
  closed ← perform (Ask ReceiverClosed);
  if (closed : bool) then perform (DropSender ticket) else
  current ← perform (Ask HandoffCurrent);
  if negb current then perform (Send ticket (PrivateResult (Err "private_handoff_expired"))) else
  valid ← perform (Ask BindingValid);
  if negb valid
  then perform (Send ticket (PrivateResult (Err "private_worker_failed_closed"))) else
  perform (SetState Busy);;
  result ← perform (RunPrivate ticket);
  perform (SetState Faulted);;
  perform (Send ticket (PrivateResult (map_err "private_worker_failed_closed" result))).

Definition handle_preflight (ticket : nat) : prog unit :=
  closed ← perform (Ask ReceiverClosed);
  if (closed : bool) then perform (DropSender ticket) else
  result ← perform (RunPrivate ticket);
  perform (Send ticket (PrivateResult result)).

(** The loop breaks; leaving [run_worker] drops the receiver. *)
Definition handle_shutdown (ticket : nat) : prog unit :=
  perform (SetState Closing);;
  perform (Send ticket ShutdownDone);;
  perform (SetState Stopped);;
  perform CloseQueue.

Definition handle (service_job_timeout_ms : option Z) (message : WorkerMessage) : prog unit :=
  match message with
  | Request request => handle_request service_job_timeout_ms request
  | Private ticket => handle_private ticket
  | PrivatePreflight ticket => handle_preflight ticket
  | Shutdown ticket => handle_shutdown ticket
  end.

(** A tick of [drain_interval]. *)
Definition drain_tick : prog unit :=
  lease ← perform (Ask LeaseGranted); if negb lease then done_ else
  browser ← perform (Ask HasBrowser); if negb browser then done_ else
  perform (SetState Draining);;
  exited ← perform (Ask HasProcessExited);
  perform (SetHealth (if (exited : bool) then ProcessExited else HealthReady));;
  perform (SetState Ready).

End control.

End ControlPlane.
