(* ===== verification/ControlSystem.v ===== *)
(** * The control plane as a transition system

    The shared state of [cli/src/native/control_plane.rs], what each effect does
    to it, and the interleavings of the worker, its clients and its timers. *)

From S2P Require Import Prelude RustStr Env ServiceJobs ControlJobs ControlPlane.
From Stdlib Require Import Ascii.
From stdpp Require Import gmap.
Import ServiceJobs ControlJobs ControlPlane.

Local Open Scope Z_scope.

Module ControlSystem.

Section system.
Context `{!Json, !JsonBuild, !JsonTree}.

(** The status, the channel, the registry of running jobs and the persisted
    store; then the history of the replies, of the dropped response channels, of
    the executed requests, and of the requests lost with the channel. *)
Record plane := {
  cp_store : JobStore;
  cp_queue : list WorkerMessage;
  cp_closed : bool;
  cp_depth : Z;
  cp_state : WorkerState;
  cp_health : BrowserHealth;
  cp_running : gmap string nat;
  cp_cancelled : list nat;
  cp_replies : list (nat * reply);
  cp_dropped : list nat;
  cp_executed : list ControlRequest;
  cp_lost : nat;
}.

Definition message_ticket (m : WorkerMessage) : nat :=
  match m with
  | Request request => rq_ticket request
  | Private ticket | PrivatePreflight ticket | Shutdown ticket => ticket
  end.
(** The messages [queue_depth] counts. *)
Definition counted (m : WorkerMessage) : nat :=
  match m with Request _ | Private _ => 1 | PrivatePreflight _ | Shutdown _ => 0 end.

Definition on_store (f : JobStore -> JobStore) (s : plane) : plane :=
  {| cp_store := f (cp_store s); cp_queue := cp_queue s; cp_closed := cp_closed s;
     cp_depth := cp_depth s; cp_state := cp_state s; cp_health := cp_health s;
     cp_running := cp_running s; cp_cancelled := cp_cancelled s; cp_replies := cp_replies s;
     cp_dropped := cp_dropped s; cp_executed := cp_executed s; cp_lost := cp_lost s |}.
Definition on_depth (f : Z -> Z) (s : plane) : plane :=
  {| cp_store := cp_store s; cp_queue := cp_queue s; cp_closed := cp_closed s;
     cp_depth := f (cp_depth s) mod 2 ^ 64; cp_state := cp_state s; cp_health := cp_health s;
     cp_running := cp_running s; cp_cancelled := cp_cancelled s; cp_replies := cp_replies s;
     cp_dropped := cp_dropped s; cp_executed := cp_executed s; cp_lost := cp_lost s |}.
Definition on_status (state : WorkerState) (health : BrowserHealth) (s : plane) : plane :=
  {| cp_store := cp_store s; cp_queue := cp_queue s; cp_closed := cp_closed s;
     cp_depth := cp_depth s; cp_state := state; cp_health := health;
     cp_running := cp_running s; cp_cancelled := cp_cancelled s; cp_replies := cp_replies s;
     cp_dropped := cp_dropped s; cp_executed := cp_executed s; cp_lost := cp_lost s |}.
Definition on_queue (f : list WorkerMessage -> list WorkerMessage) (s : plane) : plane :=
  {| cp_store := cp_store s; cp_queue := f (cp_queue s); cp_closed := cp_closed s;
     cp_depth := cp_depth s; cp_state := cp_state s; cp_health := cp_health s;
     cp_running := cp_running s; cp_cancelled := cp_cancelled s; cp_replies := cp_replies s;
     cp_dropped := cp_dropped s; cp_executed := cp_executed s; cp_lost := cp_lost s |}.
Definition on_running (f : gmap string nat -> gmap string nat) (s : plane) : plane :=
  {| cp_store := cp_store s; cp_queue := cp_queue s; cp_closed := cp_closed s;
     cp_depth := cp_depth s; cp_state := cp_state s; cp_health := cp_health s;
     cp_running := f (cp_running s); cp_cancelled := cp_cancelled s; cp_replies := cp_replies s;
     cp_dropped := cp_dropped s; cp_executed := cp_executed s; cp_lost := cp_lost s |}.
Definition on_history (cancelled : list nat) (replies : list (nat * reply)) (dropped : list nat)
    (executed : list ControlRequest) (s : plane) : plane :=
  {| cp_store := cp_store s; cp_queue := cp_queue s; cp_closed := cp_closed s;
     cp_depth := cp_depth s; cp_state := cp_state s; cp_health := cp_health s;
     cp_running := cp_running s; cp_cancelled := cp_cancelled s ++ cancelled;
     cp_replies := cp_replies s ++ replies; cp_dropped := cp_dropped s ++ dropped;
     cp_executed := cp_executed s ++ executed; cp_lost := cp_lost s |}.
(** The receiver goes: the messages that are still queued go with it. *)
Definition close_queue (s : plane) : plane :=
  {| cp_store := cp_store s; cp_queue := []; cp_closed := true;
     cp_depth := cp_depth s; cp_state := cp_state s; cp_health := cp_health s;
     cp_running := cp_running s; cp_cancelled := cp_cancelled s; cp_replies := cp_replies s;
     cp_dropped := cp_dropped s ++ map message_ticket (cp_queue s);
     cp_executed := cp_executed s;
     cp_lost := cp_lost s + sum_list_with counted (cp_queue s) |}.

(** Whether repository operations may fail, the capacity of the channel, and the
    configured timeout. *)
Context (may_fail : bool) (capacity : nat) (service_job_timeout_ms : option Z).

Definition possible (faults : Faults) : Prop := may_fail = false -> faults = no_faults.

(** Sending when a slot is free; a slot may be free and reserved for another
    sender, so [Full] is possible at any time. *)
Definition send_message (m : WorkerMessage) (s : plane) (r : send_result) (s' : plane) : Prop :=
  match r with
  | Sent => cp_closed s = false /\ (length (cp_queue s) < capacity)%nat /\
            s' = on_queue (fun q => q ++ [m]) s
  | Full => cp_closed s = false /\ s' = s
  | Closed => cp_closed s = true /\ s' = s
  end.

(** [exec e s r s' spawned]: the effect [e] in [s] answers [r] and leaves [s'];
    it may start a timer. *)
Definition exec (e : eff) (s : plane) : resp e -> plane -> list (prog unit) -> Prop :=
  match e as e return resp e -> plane -> list (prog unit) -> Prop with
  | FetchAdd => fun _ s' new => s' = on_depth (Z.add 1) s /\ new = []
  | FetchSub => fun _ s' new => s' = on_depth (Z.add (-1)) s /\ new = []
  | LoadDepth => fun r s' new => r = cp_depth s /\ s' = s /\ new = []
  | LoadState => fun r s' new => r = cp_state s /\ s' = s /\ new = []
  | SetState state => fun _ s' new => s' = on_status state (cp_health s) s /\ new = []
  | LoadHealth => fun r s' new => r = cp_health s /\ s' = s /\ new = []
  | SetHealth health => fun _ s' new => s' = on_status (cp_state s) health s /\ new = []
  | Now | Mono | Uuid | LeaseGate _ _ | RunPrivate _ | Ask _ => fun _ s' new => s' = s /\ new = []
  | LoadJob id => fun r s' new =>
      (exists faults, possible faults /\ r = load_service_job faults id (cp_store s)) /\
      s' = s /\ new = []
  | MutateJobs mutator => fun _ s' new =>
      (exists faults, possible faults /\
        s' = on_store (mutate_persisted_service_jobs faults mutator) s) /\ new = []
  | CancelPersisted now job_id reason => fun r s' new =>
      (exists faults, possible faults /\
        let '(result, store) := cancel_persisted_service_job faults now job_id reason (cp_store s) in
        r = result /\ s' = on_store (fun _ => store) s) /\ new = []
  | TrySend m => fun r s' new => send_message m s r s' /\ new = []
  | SendWait m => fun r s' new => r <> Full /\ send_message m s r s' /\ new = []
  | SpawnRetry request => fun _ s' new => s' = s /\ new = [retry_timer request]
  | RunningInsert job_id token => fun _ s' new => s' = on_running (<[job_id := token]>) s /\ new = []
  | RunningRemove job_id => fun _ s' new => s' = on_running (delete job_id) s /\ new = []
  | RunningGet job_id => fun r s' new => r = cp_running s !! job_id /\ s' = s /\ new = []
  | CancelToken token => fun _ s' new => s' = on_history [token] [] [] [] s /\ new = []
  | Execute request timeout => fun r s' new =>
      match r with
      | Finished _ => True
      | Interrupted => rq_ticket request ∈ cp_cancelled s
      | Elapsed ms => timeout = Some ms /\ 0 < ms
      end /\ s' = on_history [] [] [] [request] s /\ new = []
  | Send ticket r => fun _ s' new => s' = on_history [] [(ticket, r)] [] [] s /\ new = []
  | DropSender ticket => fun _ s' new => s' = on_history [] [] [ticket] [] s /\ new = []
  | Panic _ => fun _ _ _ => False
  | CloseQueue => fun _ s' new => s' = close_queue s /\ new = []
  end.

(** ** The system *)

Inductive worker_phase := WorkerIdle | Working (p : prog unit) | WorkerStopped.

Record system := {
  sy_plane : plane;
  sy_worker : worker_phase;
  sy_threads : list (prog unit);
  (** the number of response channels made so far *)
  sy_tickets : nat;
}.

Definition initial (store : JobStore) : system :=
  {| sy_plane := {| cp_store := store; cp_queue := [];
       cp_closed := false; cp_depth := 0; cp_state := Ready; cp_health := NotStarted;
       cp_running := ∅; cp_cancelled := []; cp_replies := []; cp_dropped := [];
       cp_executed := []; cp_lost := 0 |};
     sy_worker := WorkerIdle; sy_threads := []; sy_tickets := 0 |}.

(** What a client can call; its response channel gets the next number. *)
Inductive client_call : nat -> prog unit -> Prop :=
| call_submit ticket uuid wall mono command :
    client_call ticket
      (submit (submitted_request service_job_timeout_ms uuid wall mono ticket command))
| call_private ticket : client_call ticket (enqueue_private ticket)
| call_preflight ticket : client_call ticket (private_preflight ticket)
| call_cancel ticket id job_id reason :
    client_call ticket (cancel_job_response ticket id job_id reason)
| call_shutdown ticket : client_call ticket (shutdown ticket).

(** Panics happen in the code that runs a command. *)
Definition panics (e : eff) : option nat :=
  match e with
  | Execute request _ => Some (rq_ticket request)
  | Panic ticket => Some ticket
  | _ => None
  end.

Inductive step : system -> system -> Prop :=
| step_call s worker threads ticket call :
    client_call ticket call ->
    step {| sy_plane := s; sy_worker := worker; sy_threads := threads; sy_tickets := ticket |}
         {| sy_plane := s; sy_worker := worker; sy_threads := threads ++ [call];
            sy_tickets := S ticket |}
| step_thread s s' worker before after e k r new tickets :
    exec e s r s' new ->
    step {| sy_plane := s; sy_worker := worker; sy_threads := before ++ Do e k :: after;
            sy_tickets := tickets |}
         {| sy_plane := s'; sy_worker := worker;
            sy_threads := before ++ k r :: after ++ new; sy_tickets := tickets |}
| step_receive s s' message queue threads tickets :
    cp_queue s = message :: queue -> s' = on_queue (fun _ => queue) s ->
    step {| sy_plane := s; sy_worker := WorkerIdle; sy_threads := threads; sy_tickets := tickets |}
         {| sy_plane := s'; sy_worker := Working (handle service_job_timeout_ms message);
            sy_threads := threads; sy_tickets := tickets |}
| step_drain_tick s threads tickets :
    step {| sy_plane := s; sy_worker := WorkerIdle; sy_threads := threads; sy_tickets := tickets |}
         {| sy_plane := s; sy_worker := Working drain_tick; sy_threads := threads;
            sy_tickets := tickets |}
| step_monitor_tick s threads ticket uuid wall mono :
    step {| sy_plane := s; sy_worker := WorkerIdle; sy_threads := threads; sy_tickets := ticket |}
         {| sy_plane := s;
            sy_worker := Working (enqueue_due_monitor_run
              (monitor_request service_job_timeout_ms uuid wall mono ticket));
            sy_threads := threads; sy_tickets := S ticket |}
| step_worker s s' threads e k r new tickets :
    exec e s r s' new ->
    step {| sy_plane := s; sy_worker := Working (Do e k); sy_threads := threads;
            sy_tickets := tickets |}
         {| sy_plane := s'; sy_worker := Working (k r); sy_threads := threads ++ new;
            sy_tickets := tickets |}
| step_handled s threads tickets :
    step {| sy_plane := s; sy_worker := Working (Ret tt); sy_threads := threads;
            sy_tickets := tickets |}
         {| sy_plane := s; sy_worker := if cp_closed s then WorkerStopped else WorkerIdle;
            sy_threads := threads; sy_tickets := tickets |}
| step_panic s threads e k ticket tickets :
    panics e = Some ticket ->
    step {| sy_plane := s; sy_worker := Working (Do e k); sy_threads := threads;
            sy_tickets := tickets |}
         {| sy_plane := close_queue (on_history [] [] [ticket] [] s); sy_worker := WorkerStopped;
            sy_threads := threads; sy_tickets := tickets |}
(** Code outside the control plane writes the events of the store. *)
| step_events s events worker threads tickets :
    step {| sy_plane := s; sy_worker := worker; sy_threads := threads; sy_tickets := tickets |}
         {| sy_plane := on_store (with_events events) s; sy_worker := worker;
            sy_threads := threads; sy_tickets := tickets |}.

Definition reachable (y : system) : Prop := exists store, rtc step (initial store) y.

End system.

End ControlSystem.
