(* ===== verification/ControlProofs.v ===== *)
(** * Reasoning about the programs of the control plane

    A predicate transformer for programs, and what a program owns while it runs:
    a response channel, a part of the queue depth, an entry of the registry of
    running jobs. Every program of the source gives back what it owns. *)

From Stdlib Require Import Ascii.
From stdpp Require Import gmap.
From stdpp Require Import gmap list_tactics.
From S2P Require Import Prelude RustStr Env ServiceJobs ControlJobs ControlPlane ControlSystem.
Import ServiceJobs ControlJobs ControlPlane ControlSystem.
Local Open Scope Z_scope.

Module ControlProofs.

Section wp.
Context `{!Json, !JsonBuild, !JsonTree}.
Context {S : Type} (T : forall e : eff, (resp e -> S -> Prop) -> S -> Prop).

(** Whatever the effects answer, [p] respects the rules [T] of the effects and
    ends in [Q]. *)
Fixpoint wp {A} (p : prog A) (Q : A -> S -> Prop) (s : S) : Prop :=
  match p with
  | Ret a => Q a s
  | Do e k => T e (fun r => wp (k r) Q) s
  end.

Definition monotone : Prop := forall e (Q Q' : resp e -> S -> Prop) s,
  (forall r s', Q r s' -> Q' r s') -> T e Q s -> T e Q' s.

Context (HT : monotone).

Lemma wp_mono {A} (p : prog A) (Q Q' : A -> S -> Prop) s :
  (forall a s', Q a s' -> Q' a s') -> wp p Q s -> wp p Q' s.
Proof.
  intros Himp. revert s. induction p as [a|e k IH]; intros s; cbn; [apply Himp|].
  apply HT. intros r s'. apply IH.
Qed.

Lemma wp_bind {A B} (p : prog A) (f : A -> prog B) Q s :
  wp p (fun a s' => wp (f a) Q s') s -> wp (p ≫= f) Q s.
Proof.
  revert s. induction p as [a|e k IH]; intros s; cbn; [done|].
  apply HT. intros r s'. apply IH.
Qed.

Lemma wp_perform e Q s : T e Q s -> wp (perform e) Q s.
Proof. done. Qed.
End wp.

(** ** Ownership *)

Record share := {
  (** the response channel, and whether its request has been executed *)
  sh_ticket : option (nat * bool);
  (** the part of the queue depth that is still to be subtracted *)
  sh_due : nat;
  sh_running : option (string * nat);
  (** whether the program is the worker's *)
  sh_worker : bool;
}.

Section shares.
Context `{!Json, !JsonBuild, !JsonTree}.

Definition with_ticket (t : option (nat * bool)) (h : share) : share :=
  {| sh_ticket := t; sh_due := sh_due h; sh_running := sh_running h; sh_worker := sh_worker h |}.
Definition with_due (d : nat) (h : share) : share :=
  {| sh_ticket := sh_ticket h; sh_due := d; sh_running := sh_running h; sh_worker := sh_worker h |}.
Definition with_running (r : option (string * nat)) (h : share) : share :=
  {| sh_ticket := sh_ticket h; sh_due := sh_due h; sh_running := r; sh_worker := sh_worker h |}.
Definition retired (h : share) : share :=
  {| sh_ticket := sh_ticket h; sh_due := sh_due h; sh_running := sh_running h; sh_worker := false |}.
Definition nothing (worker : bool) : share :=
  {| sh_ticket := None; sh_due := 0; sh_running := None; sh_worker := worker |}.
(** The share of a message that is in the hands of a program. *)
Definition message_share (worker : bool) (m : WorkerMessage) : share :=
  {| sh_ticket := Some (message_ticket m, false); sh_due := counted m; sh_running := None;
     sh_worker := worker |}.
Definition fresh_share (worker : bool) (ticket : nat) : share :=
  {| sh_ticket := Some (ticket, false); sh_due := 0; sh_running := None; sh_worker := worker |}.

Definition share_spec (e : eff) : (resp e -> share -> Prop) -> share -> Prop :=
  match e as e return (resp e -> share -> Prop) -> share -> Prop with
  | FetchAdd => fun Q h =>
      sh_due h = 0%nat /\ (exists t, sh_ticket h = Some t) /\ Q tt (with_due 1 h)
  | FetchSub => fun Q h => exists d, sh_due h = S d /\ Q tt (with_due d h)
  | TrySend m | SendWait m => fun Q h =>
      h = message_share (sh_worker h) m /\ Q Sent (nothing (sh_worker h)) /\ Q Full h /\ Q Closed h
  | SpawnRetry request => fun Q h =>
      h = message_share (sh_worker h) (Request request) /\ Q tt (nothing (sh_worker h))
  | RunningInsert job_id token => fun Q h =>
      sh_worker h = true /\ sh_running h = None /\ sh_ticket h = Some (token, false) /\
      Q tt (with_running (Some (job_id, token)) h)
  | RunningRemove job_id => fun Q h =>
      sh_worker h = true /\ (exists token, sh_running h = Some (job_id, token)) /\
      Q tt (with_running None h)
  | Execute request timeout => fun Q h =>
      sh_worker h = true /\ sh_ticket h = Some (rq_ticket request, false) /\ sh_due h = 0%nat /\
      sh_running h = Some (rq_job_id request, rq_ticket request) /\
      forall r, Q r (with_ticket (Some (rq_ticket request, true)) h)
  | Send ticket _ | DropSender ticket => fun Q h =>
      sh_running h = None /\ sh_due h = 0%nat /\ (exists b, sh_ticket h = Some (ticket, b)) /\
      Q tt (with_ticket None h)
  | Panic ticket => fun Q h => sh_due h = 0%nat /\ exists b, sh_ticket h = Some (ticket, b)
  | CloseQueue => fun Q h => sh_worker h = true /\ sh_running h = None /\ Q tt (retired h)
  | e => fun Q h => forall r, Q r h
  end.

Lemma share_mono : monotone share_spec.
Proof. intros e Q Q' s Himp. destruct e; cbn; intros; destruct_and?; naive_solver. Qed.

(** A program that only reads and persists owns what it owned before. *)
Definition neutral {A} (p : prog A) : Prop :=
  forall (Q : A -> share -> Prop) h, (forall a, Q a h) -> wp share_spec p Q h.

Lemma neutral_bind {A B} (p : prog A) (f : A -> prog B) :
  neutral p -> (forall a, neutral (f a)) -> neutral (p ≫= f).
Proof.
  intros Hp Hf Q h HQ. apply (wp_bind _ share_mono), Hp. intros a. by apply Hf.
Qed.
Lemma neutral_ret {A} (a : A) : neutral (Ret a).
Proof. intros Q h HQ. apply HQ. Qed.
Lemma neutral_if {A} (b : bool) (p q : prog A) : neutral p -> neutral q -> neutral (if b then p else q).
Proof. by destruct b. Qed.
Lemma wp_neutral {A B} (p : prog A) (f : A -> prog B) Q h :
  neutral p -> (forall a, wp share_spec (f a) Q h) -> wp share_spec (p ≫= f) Q h.
Proof. intros Hp Hf. by apply (wp_bind _ share_mono), Hp. Qed.

End shares.

Create HintDb neutral.
#[export] Hint Resolve neutral_bind neutral_ret neutral_if : neutral.
#[export] Hint Extern 1 (neutral (perform _)) => (intros ? ? ?; cbn; auto) : neutral.

Section programs.
Context `{!Json, !JsonBuild, !JsonTree}.

Lemma neutral_persist job : neutral (persist_service_job job).
Proof. unfold persist_service_job. auto with neutral. Qed.
#[local] Hint Resolve neutral_persist : neutral.
Lemma neutral_failed request error : neutral (persist_service_job_failed_to_enqueue request error).
Proof. unfold persist_service_job_failed_to_enqueue. auto 10 with neutral. Qed.
Lemma neutral_end request outcome error : neutral (end_wait_if_started request outcome error).
Proof.
  unfold end_wait_if_started, record_profile_lease_wait_ended_event, record_event, done_.
  destruct (rq_profile_lease_wait_started_at request); auto 10 with neutral.
Qed.
Lemma neutral_refresh : neutral refresh_browser_health.
Proof. unfold refresh_browser_health, done_. auto 20 with neutral. Qed.
Lemma neutral_circuit command : neutral (run_post_timeout_health_circuit command).
Proof.
  pose proof neutral_refresh. unfold run_post_timeout_health_circuit, done_. auto 20 with neutral.
Qed.
#[local] Hint Resolve neutral_failed neutral_end neutral_refresh neutral_circuit : neutral.

Lemma neutral_status b : neutral (status_data b).
Proof. unfold status_data. destruct b; auto 10 with neutral. Qed.
Lemma neutral_running request : neutral (persist_service_job_running request).
Proof. unfold persist_service_job_running. auto with neutral. Qed.
Lemma neutral_cancelled request reason : neutral (persist_service_job_cancelled request reason).
Proof. unfold persist_service_job_cancelled. auto 10 with neutral. Qed.
Lemma neutral_timed_out request : neutral (persist_service_job_timed_out request).
Proof. unfold persist_service_job_timed_out. auto 10 with neutral. Qed.
Lemma neutral_finished request response : neutral (persist_service_job_finished request response).
Proof. unfold persist_service_job_finished. auto 10 with neutral. Qed.
Lemma neutral_started request profile_id ids ms :
  neutral (record_profile_lease_wait_started_event request profile_id ids ms).
Proof. unfold record_profile_lease_wait_started_event, record_event. auto 10 with neutral. Qed.
Lemma neutral_check job_id : neutral (service_job_cancelled job_id).
Proof. unfold service_job_cancelled. auto 10 with neutral. Qed.
#[local] Hint Resolve neutral_status neutral_running neutral_cancelled neutral_timed_out
  neutral_finished neutral_started neutral_check : neutral.

(** A program that is over owns nothing. *)
Definition finished (_ : unit) (h : share) : Prop :=
  sh_ticket h = None /\ sh_due h = 0%nat /\ sh_running h = None.
Definition owned (p : prog unit) : share -> Prop := wp share_spec p finished.

(** One step of a program: a neutral part, a test, or an effect. *)
Ltac own_step :=
  match goal with
  | |- owned _ _ => unfold owned
  | |- finished _ _ => repeat split; reflexivity
  | |- wp _ (mbind _ _) _ _ =>
      first [apply wp_neutral; [solve [unfold persist_service_job_queued,
               persist_service_job_waiting_profile_lease, done_; auto with neutral]|intros ?]
            |apply (wp_bind _ share_mono)]
  | |- wp _ ?p _ _ => lazymatch p with
      perform ?e => refine (wp_perform share_spec e _ _ _); cbn [share_spec] end
  | |- wp _ (Ret _) _ _ => cbn [wp]
  | |- wp _ done_ _ _ => unfold done_; cbn [wp]
  | |- wp _ (if ?b then _ else _) _ _ => destruct b eqn:?
  | |- wp _ (match ?r with _ => _ end) _ _ => destruct r eqn:?
  | |- _ /\ _ => split
  | |- exists _, _ = _ => eexists; reflexivity
  | |- exists _, _ = _ /\ _ => eexists; split; [reflexivity|]
  | |- forall _, _ => intros ?
  | |- _ = _ => reflexivity
  end.
Ltac own := repeat own_step.

Lemma submit_owned w request : owned (submit request) (fresh_share w (rq_ticket request)).
Proof. unfold submit. own. Qed.
Lemma monitor_owned w request :
  owned (enqueue_due_monitor_run request) (fresh_share w (rq_ticket request)).
Proof. unfold enqueue_due_monitor_run. own. Qed.
Lemma call_owned timeout ticket call :
  client_call timeout ticket call -> owned call (fresh_share false ticket).
Proof.
  intros Hcall. destruct Hcall.
  - apply (submit_owned false (submitted_request timeout uuid wall mono ticket command)).
  - unfold enqueue_private. own.
  - unfold private_preflight. own.
  - unfold cancel_job_response. own.
  - unfold shutdown. own.
Qed.
Lemma retry_owned w request : owned (retry_timer request) (message_share w (Request request)).
Proof. unfold retry_timer. own. Qed.
Lemma drain_owned w : owned drain_tick (nothing w).
Proof. unfold drain_tick. own. Qed.

Lemma run_owned timeout queue_wait_ms request :
  owned (run_request timeout queue_wait_ms request) (fresh_share true (rq_ticket request)).
Proof. unfold run_request. own. Qed.
Lemma gate_request mono gate request decision request' :
  scheduler_profile_lease_gate mono gate request = (decision, request') ->
  rq_ticket request' = rq_ticket request /\ rq_job_id request' = rq_job_id request.
Proof. unfold scheduler_profile_lease_gate. repeat case_match; intros; simplify_eq; done. Qed.
Lemma handle_owned timeout m : owned (handle timeout m) (message_share true m).
Proof.
  destruct m; cbn [handle].
  - unfold handle_request. own; (destruct (gate_request _ _ _ _ _ Heqp) as [Ht _]).
    + pose proof (run_owned timeout (Z.min (a - rq_submitted_at_mono request) (2 ^ 64 - 1)) c)
        as Hrun. rewrite Ht in Hrun. apply Hrun.
    + exists false. by rewrite Ht.
    + unfold message_share, with_due. cbn. by rewrite Ht.
  - unfold handle_private. own.
  - unfold handle_preflight. own.
  - unfold handle_shutdown. own.
Qed.
End programs.

End ControlProofs.

(** ** The invariant of the control plane

    In every reachable state the queue depth, the response channels, the executed
    requests and the registry of running jobs are accounted for by what the
    programs own. *)

Import ServiceJobs ControlJobs ControlPlane ControlSystem ControlProofs.
Local Open Scope Z_scope.

Module ControlInvariant.

Section invariant.
Context `{!Json, !JsonBuild, !JsonTree}.
Context (may_fail : bool) (capacity : nat) (timeout : option Z).
Local Abbreviation exec := (exec may_fail capacity).
Local Abbreviation step := (step may_fail capacity timeout).

(** What is left of a share after an effect. *)
Definition share_after (e : eff) : resp e -> share -> share :=
  match e as e return resp e -> share -> share with
  | FetchAdd => fun _ h => with_due 1 h
  | FetchSub => fun _ h => with_due (pred (sh_due h)) h
  | TrySend _ | SendWait _ => fun r h =>
      match r with Sent => nothing (sh_worker h) | Full | Closed => h end
  | SpawnRetry _ => fun _ h => nothing (sh_worker h)
  | RunningInsert job_id token => fun _ h => with_running (Some (job_id, token)) h
  | RunningRemove _ => fun _ h => with_running None h
  | Execute request _ => fun _ h => with_ticket (Some (rq_ticket request, true)) h
  | Send _ _ | DropSender _ => fun _ h => with_ticket None h
  | CloseQueue => fun _ h => retired h
  | _ => fun _ h => h
  end.

(** What a program needs to own for an effect. *)
Definition share_pre (e : eff) (h : share) : Prop :=
  match e with
  | FetchAdd => sh_due h = 0%nat /\ exists t, sh_ticket h = Some t
  | FetchSub => (0 < sh_due h)%nat
  | TrySend m | SendWait m => h = message_share (sh_worker h) m
  | SpawnRetry request => h = message_share (sh_worker h) (Request request)
  | RunningInsert job_id token =>
      sh_worker h = true /\ sh_running h = None /\ sh_ticket h = Some (token, false)
  | RunningRemove job_id => sh_worker h = true /\ exists token, sh_running h = Some (job_id, token)
  | Execute request _ =>
      sh_worker h = true /\ sh_ticket h = Some (rq_ticket request, false) /\ sh_due h = 0%nat /\
      sh_running h = Some (rq_job_id request, rq_ticket request)
  | Send ticket _ | DropSender ticket =>
      sh_running h = None /\ sh_due h = 0%nat /\ exists b, sh_ticket h = Some (ticket, b)
  | Panic ticket => sh_due h = 0%nat /\ exists b, sh_ticket h = Some (ticket, b)
  | CloseQueue => sh_worker h = true /\ sh_running h = None
  | _ => True
  end.

Lemma share_spec_pre e Q h : share_spec e Q h -> share_pre e h.
Proof. destruct e; cbn; intros Hs; destruct_and?; auto. destruct Hs as (d & -> & _). lia. Qed.
Lemma share_spec_after e Q h (r : resp e) :
  share_spec e Q h -> Q r (share_after e r h).
Proof.
  destruct e; cbn; intros Hs; try by auto.
  all: try solve [destruct_and?; by destruct r].
  destruct Hs as (d & Hd & HQ). destruct r. by rewrite Hd.
Qed.

(** ** Balance *)

Definition sum_due (hs : list share) : nat := sum_list_with sh_due hs.
Definition sum_counted (q : list WorkerMessage) : nat := sum_list_with counted q.
(** The requests that wait: in the channel, in the hands of a program, or lost
    with the channel. *)
Definition waiting (s : plane) (hs : list share) : nat :=
  cp_lost s + sum_counted (cp_queue s) + sum_due hs.
Definition held (hs : list share) : list (nat * bool) := omap sh_ticket hs.
Definition queued (s : plane) : list nat := map message_ticket (cp_queue s).
Definition executed (s : plane) : list nat := map rq_ticket (cp_executed s).

(** A program owes at most one subtraction, for the request it holds. *)
Definition due_ok (h : share) : Prop :=
  (sh_due h <= length (option_list (sh_ticket h)))%nat.

#[local] Arguments sum_due : simpl never.
#[local] Arguments sum_counted : simpl never.
#[local] Arguments waiting : simpl never.
#[local] Arguments held : simpl never.

Record balanced (s : plane) (hs : list share) (n : nat) : Prop := {
  b_depth : cp_depth s = Z.of_nat (waiting s hs) mod 2 ^ 64;
  b_tickets : map fst (held hs) ++ queued s ++ map fst (cp_replies s) ++ cp_dropped s ≡ₚ seq 0 n;
  b_executed : NoDup (executed s);
  b_fresh : forall t, t ∈ executed s ->
    (t < n)%nat /\ t ∉ queued s /\ (t, false) ∉ held hs;
  b_capacity : (length (cp_queue s) <= capacity)%nat;
  b_closed : cp_closed s = true -> cp_queue s = [];
  b_lost : cp_closed s = false -> cp_lost s = 0%nat;
  b_due : Forall due_ok hs;
  b_dropped : (cp_lost s <= length (cp_dropped s))%nat;
}.

#[export] Instance sum_due_proper : Proper ((≡ₚ) ==> eq) sum_due.
Proof. intros l l' Hl. unfold sum_due. by rewrite Hl. Qed.

#[export] Instance balanced_proper s : Proper ((≡ₚ) ==> eq ==> impl) (balanced s).
Proof.
  intros hs hs' Hp n ? <- [Hd Ht He Hf Hc Hq Hl Hu Hg]. unfold waiting in Hd. split; try done.
  - unfold waiting. by rewrite <-Hp.
  - rewrite <-Ht. unfold held. by rewrite Hp.
  - intros t Hin. destruct (Hf t Hin) as (? & ? & ?). split_and!; [done..|].
    unfold held. by rewrite <-Hp.
  - by rewrite <-Hp.
Qed.

(** The shares of the timers an effect starts. *)
Definition share_new (e : eff) : list share :=
  match e with SpawnRetry request => [message_share false (Request request)] | _ => [] end.

Lemma waiting_cons s h hs :
  waiting s (h :: hs) = (cp_lost s + sum_counted (cp_queue s) + sum_due hs + sh_due h)%nat.
Proof. unfold waiting, sum_due. cbn. lia. Qed.
Lemma sum_counted_app q q' : sum_counted (q ++ q') = (sum_counted q + sum_counted q')%nat.
Proof. apply sum_list_with_app. Qed.
Lemma sum_counted_cons m q : sum_counted (m :: q) = (counted m + sum_counted q)%nat.
Proof. done. Qed.
Lemma sum_due_cons h hs : sum_due (h :: hs) = (sh_due h + sum_due hs)%nat.
Proof. done. Qed.
Lemma held_cons h hs :
  held (h :: hs) = match sh_ticket h with Some t => [t] | None => [] end ++ held hs.
Proof. unfold held. cbn. by destruct (sh_ticket h). Qed.
Lemma due_nothing w : due_ok (nothing w).
Proof. unfold due_ok. cbn. lia. Qed.
Lemma due_message w m : due_ok (message_share w m).
Proof. unfold due_ok. destruct m; cbn; lia. Qed.
Lemma due_replace h h' hs : Forall due_ok (h :: hs) -> due_ok h' -> Forall due_ok (h' :: hs).
Proof. intros [_ Hs]%Forall_cons Hh. by constructor. Qed.
Lemma mod_add z w : (z + w mod 2 ^ 64) mod 2 ^ 64 = (z + w) mod 2 ^ 64.
Proof. apply Z.add_mod_idemp_r. lia. Qed.

Lemma balanced_add s h hs n :
  sh_due h = 0%nat -> (exists t, sh_ticket h = Some t) ->
  balanced s (h :: hs) n -> balanced (on_depth (Z.add 1) s) (with_due 1 h :: hs) n.
Proof.
  intros Hdue [t Hh] [Hd Ht He Hf Hc Hq Hl Hu Hg]. apply Forall_cons in Hu as [_ Hu].
  split; try done.
  - rewrite waiting_cons in *. cbn. rewrite Hd, mod_add. f_equal. lia.
  - constructor; [|done]. unfold due_ok. cbn. by rewrite Hh.
Qed.
Lemma balanced_sub s h hs n :
  (0 < sh_due h)%nat -> balanced s (h :: hs) n ->
  balanced (on_depth (Z.add (-1)) s) (with_due (pred (sh_due h)) h :: hs) n.
Proof.
  intros Hdue [Hd Ht He Hf Hc Hq Hl Hu Hg]. apply Forall_cons in Hu as [Hh Hu].
  split; try done.
  - rewrite waiting_cons in *. cbn [on_depth cp_depth cp_lost cp_queue with_due sh_due].
    rewrite Hd, mod_add. f_equal. lia.
  - constructor; [|done]. unfold due_ok in *. cbn. lia.
Qed.

Lemma balanced_enqueue w m s hs n :
  cp_closed s = false -> (length (cp_queue s) < capacity)%nat ->
  balanced s (message_share w m :: hs) n ->
  balanced (on_queue (fun q => q ++ [m]) s) (nothing w :: hs) n.
Proof.
  intros Hopen Hroom [Hd Ht He Hf Hc Hq Hl Hu Hg]. rewrite waiting_cons, held_cons in *.
  split; unfold queued in *; cbn in *; try done.
  - rewrite waiting_cons. cbn. rewrite sum_counted_app, Hd. f_equal.
    rewrite sum_counted_cons. change (sum_counted []) with 0%nat. lia.
  - rewrite <-Ht, map_app. cbn. solve_Permutation.
  - intros t Hin. destruct (Hf t Hin) as (Hlt & Hnq & Hnh). split_and!; [done| |].
    + rewrite map_app. intros [?|Hm%list_elem_of_singleton]%elem_of_app; [done|].
      apply Hnh. rewrite Hm. apply elem_of_cons. by left.
    + intros ?. apply Hnh. apply elem_of_cons. by right.
  - rewrite length_app. cbn. lia.
  - congruence.
  - by eapply due_replace, due_nothing.
Qed.

Lemma balanced_receive w m q s hs n :
  cp_queue s = m :: q -> balanced s (nothing w :: hs) n ->
  balanced (on_queue (fun _ => q) s) (message_share w m :: hs) n.
Proof.
  intros Hm [Hd Ht He Hf Hc Hq Hl Hu Hg]. rewrite waiting_cons, held_cons in *.
  unfold queued in *. rewrite Hm in *. cbn in *.
  split; unfold queued; cbn in *; try done.
  - rewrite waiting_cons. cbn. rewrite Hd, sum_counted_cons. f_equal. lia.
  - rewrite <-Ht. solve_Permutation.
  - intros t Hin. destruct (Hf t Hin) as (Hlt & Hnq & Hnh). rewrite not_elem_of_cons in Hnq.
    destruct Hnq as [Hne Hnq]. split_and!; [done..|]. rewrite held_cons. cbn.
    intros [?|?]%elem_of_cons; [congruence|done].
  - lia.
  - intros Hclosed. by specialize (Hq Hclosed).
  - by eapply due_replace, due_message.
Qed.

(** The response channel goes, with a reply or without. *)
Lemma balanced_send ticket b replies dropped s h hs n :
  sh_ticket h = Some (ticket, b) -> sh_due h = 0%nat -> map fst replies ++ dropped = [ticket] ->
  balanced s (h :: hs) n ->
  balanced (on_history [] replies dropped [] s) (with_ticket None h :: hs) n.
Proof.
  intros Hh Hdue Hone [Hd Ht He Hf Hc Hq Hl Hu Hg]. rewrite held_cons, Hh in *. cbn in Ht.
  split; unfold executed, queued in *; cbn in *; rewrite ?app_nil_r; try done.
  - rewrite <-Ht, held_cons, (map_app fst (cp_replies s)). cbn.
    replace (ticket :: map fst (held hs) ++ map message_ticket (cp_queue s) ++
      map fst (cp_replies s) ++ cp_dropped s)
      with (([ticket] ++ map fst (held hs)) ++ map message_ticket (cp_queue s) ++
        map fst (cp_replies s) ++ cp_dropped s) by done.
    rewrite <-Hone. solve_Permutation.
  - intros t Hin. destruct (Hf t Hin) as (? & ? & Hn). split_and!; [done..|].
    rewrite held_cons. cbn. intros ?. apply Hn. by apply elem_of_cons; right.
  - eapply due_replace; [done|]. unfold due_ok. cbn. lia.
  - rewrite length_app. lia.
Qed.

Lemma held_NoDup s hs n : balanced s hs n -> NoDup (map fst (held hs) ++ queued s).
Proof.
  intros [_ Ht _ _ _ _ _ _ _]. pose proof (NoDup_seq 0 n) as Hn. rewrite <-Ht, app_assoc in Hn.
  by apply NoDup_app in Hn as (? & _).
Qed.
Lemma held_known s hs n t b : balanced s hs n -> (t, b) ∈ held hs -> (t < n)%nat.
Proof.
  intros [_ Ht _ _ _ _ _ _ _] Hin. assert (t ∈ seq 0 n) as Hs%elem_of_seq; [|lia].
  rewrite <-Ht. apply elem_of_app. left. apply list_elem_of_fmap. by exists (t, b).
Qed.

Lemma balanced_execute request s h hs n :
  sh_ticket h = Some (rq_ticket request, false) -> balanced s (h :: hs) n ->
  balanced (on_history [] [] [] [request] s)
    (with_ticket (Some (rq_ticket request, true)) h :: hs) n.
Proof.
  intros Hh Hb. pose proof (held_NoDup _ _ _ Hb) as Hn.
  assert (rq_ticket request < n)%nat as Hlt.
  { eapply held_known; [done|]. rewrite held_cons, Hh. apply elem_of_cons. by left. }
  destruct Hb as [Hd Ht He Hf Hc Hq Hl Hu Hg]. rewrite held_cons, Hh in *. cbn in *.
  apply NoDup_cons in Hn as [Hnew Hn]. rewrite not_elem_of_app in Hnew.
  split; unfold executed, queued in *; cbn in *; rewrite ?app_nil_r; try done.
  - rewrite map_app. apply NoDup_app. split_and!; [done| |apply NoDup_singleton].
    intros t Hin. destruct (Hf t Hin) as (_ & _ & Hnot).
    intros ->%list_elem_of_singleton. apply Hnot, elem_of_cons. by left.
  - intros t. rewrite map_app, elem_of_app. intros [Hin|Hin%list_elem_of_singleton].
    + destruct (Hf t Hin) as (? & ? & Hnot). split_and!; [done..|]. rewrite held_cons. cbn.
      intros [?|?]%elem_of_cons; [done|]. apply Hnot, elem_of_cons. by right.
    + subst t. destruct Hnew as [Hnh Hnq]. split_and!; [done..|]. rewrite held_cons. cbn.
      intros [?|Hin]%elem_of_cons; [done|]. apply Hnh, list_elem_of_fmap. by eexists (_, _).
  - eapply due_replace; [done|]. apply Forall_cons in Hu as [Hu _]. unfold due_ok in *.
    rewrite Hh in Hu. done.
Qed.

Lemma balanced_close s hs n : balanced s hs n -> balanced (close_queue s) hs n.
Proof.
  intros [Hd Ht He Hf Hc Hq Hl Hu Hg]. split; unfold executed, queued in *; cbn in *; try done.
  - rewrite Hd. f_equal. unfold waiting, sum_counted. cbn. lia.
  - rewrite <-Ht. solve_Permutation.
  - intros t Hin. destruct (Hf t Hin) as (? & _ & ?). split_and!; [done|set_solver|done].
  - lia.
  - rewrite length_app, length_map.
    assert (sum_counted (cp_queue s) <= length (cp_queue s))%nat; [|unfold sum_counted in *; lia].
    clear. induction (cp_queue s) as [|[] q IH]; [done|..]; rewrite sum_counted_cons; cbn; lia.
Qed.
(** A change of the plane that is not accounted for. *)
Definition same_accounts (s s' : plane) : Prop :=
  cp_depth s' = cp_depth s /\ cp_queue s' = cp_queue s /\ cp_closed s' = cp_closed s /\
  cp_replies s' = cp_replies s /\ cp_dropped s' = cp_dropped s /\
  cp_executed s' = cp_executed s /\ cp_lost s' = cp_lost s.
Lemma balanced_same s s' hs n : same_accounts s s' -> balanced s hs n -> balanced s' hs n.
Proof.
  intros (E1 & E2 & E3 & E4 & E5 & E6 & E7) [Hd Ht He Hf Hc Hq Hl Hu Hg].
  split; unfold waiting, queued, executed in *; by rewrite ?E1, ?E2, ?E3, ?E4, ?E5, ?E6, ?E7.
Qed.
Lemma balanced_share s h h' hs n :
  sh_ticket h' = sh_ticket h -> sh_due h' = sh_due h ->
  balanced s (h :: hs) n -> balanced s (h' :: hs) n.
Proof.
  intros Ht' Hd' [Hd Ht He Hf Hc Hq Hl Hu Hg].
  split; rewrite ?waiting_cons, ?held_cons, ?Ht', ?Hd' in *; try done.
  eapply due_replace; [done|]. apply Forall_cons in Hu as [Hu _].
  unfold due_ok in *. by rewrite Ht', Hd'.
Qed.

Lemma balanced_send_message m s r s' h hs n :
  send_message capacity m s r s' -> h = message_share (sh_worker h) m ->
  balanced s (h :: hs) n ->
  balanced s' (match r with Sent => nothing (sh_worker h) | Full | Closed => h end :: hs) n.
Proof.
  intros Hsend Hh Hb. destruct r; cbn in Hsend; destruct_and?; subst s'; [|done..].
  rewrite Hh in Hb. by eapply balanced_enqueue.
Qed.

Lemma balanced_spawn request s w hs n :
  balanced s (message_share w (Request request) :: hs) n ->
  balanced s (nothing w :: message_share false (Request request) :: hs) n.
Proof.
  intros Hb. rewrite Permutation_swap.
  destruct Hb as [Hd Ht He Hf Hc Hq Hl Hu Hg]. split; rewrite ?waiting_cons, ?held_cons in *; cbn in *.
  all: try done.
  apply Forall_cons in Hu as [_ Hu]. constructor; [apply due_message|].
  constructor; [apply due_nothing|done].
Qed.

Lemma exec_balanced e s (r : resp e) s' new h hs n :
  exec e s r s' new -> share_pre e h -> balanced s (h :: hs) n ->
  balanced s' (share_after e r h :: share_new e ++ hs) n.
Proof.
  intros Hexec Hpre Hb.
  destruct e; cbn in *; try (destruct Hexec as [Hexec ->]);
    try solve [destruct_and?; subst; first [done | eapply balanced_same; [|exact Hb]; done]].
  - destruct Hpre. subst. by apply balanced_add.
  - subst. by apply balanced_sub.
  - destruct Hexec as (faults & _ & ->). eapply balanced_same; [|exact Hb]. done.
  - destruct Hexec as (faults & _ & Hc). destruct (cancel_persisted_service_job _ _ _ _ _).
    destruct Hc as [_ ->]. eapply balanced_same; [|exact Hb]. done.
  - by eapply balanced_send_message.
  - destruct Hexec as (_ & Hexec & ->). by eapply balanced_send_message.
  - destruct Hexec as [-> _]. rewrite Hpre in Hb |- *. by apply balanced_spawn.
  - subst. eapply balanced_share; [..|eapply balanced_same; [|exact Hb]]; done.
  - subst. eapply balanced_share; [..|eapply balanced_same; [|exact Hb]]; done.
  - subst. eapply balanced_same; [|exact Hb]. split_and!; cbn; rewrite ?app_nil_r; done.
  - destruct_and?. subst. by apply balanced_execute.
  - destruct Hpre as (_ & ? & b & Hh). subst. by eapply balanced_send.
  - destruct Hpre as (_ & ? & b & Hh). subst. by eapply balanced_send.
  - subst. eapply balanced_share; [..|by apply balanced_close]; done.
Qed.

Lemma exec_new e s (r : resp e) s' new :
  exec e s r s' new -> Forall2 owned new (share_new e).
Proof.
  intros Hexec. destruct e; cbn in *; destruct_and?; subst; try done; try by constructor.
  constructor; [|constructor]. apply retry_owned.
Qed.

(** ** The registry of running jobs *)

Definition registry (hw : share) : gmap string nat :=
  match sh_running hw with Some (job_id, token) => {[job_id := token]} | None => ∅ end.

(** A program that is not the worker's does not touch the registry, the receiver
    or the executed requests. *)
Lemma exec_client e s (r : resp e) s' new h :
  exec e s r s' new -> share_pre e h -> sh_worker h = false -> sh_running h = None ->
  cp_closed s' = cp_closed s /\ cp_running s' = cp_running s /\
  sh_worker (share_after e r h) = false /\ sh_running (share_after e r h) = None.
Proof.
  intros Hexec Hpre Hw Hr.
  destruct e; cbn in *; destruct_and?; subst; try done; try congruence.
  - by destruct H2 as (faults & _ & ->).
  - destruct H2 as (faults & _ & Hc). destruct (cancel_persisted_service_job _ _ _ _ _).
    by destruct Hc as [_ ->].
  - destruct r; cbn in *; destruct_and?; by subst.
  - destruct r; cbn in *; destruct_and?; by subst.
Qed.

Record worker_ok (s : plane) (hw : share) : Prop := {
  w_open : cp_closed s = negb (sh_worker hw);
  w_running : cp_closed s = false -> cp_running s = registry hw;
  w_ticket : forall job_id token, sh_running hw = Some (job_id, token) ->
    exists b, sh_ticket hw = Some (token, b);
}.

Lemma worker_ok_send m s r s' h :
  send_message capacity m s r s' -> h = message_share (sh_worker h) m -> worker_ok s h ->
  worker_ok s' (match r with Sent => nothing (sh_worker h) | Full | Closed => h end).
Proof.
  intros Hsend Hh [Ho Hr Ht]. destruct r; cbn in Hsend; destruct_and?; subst s'; [|by split..].
  split; [done| |done]. intros Hopen. rewrite Hh in Hr. by apply Hr.
Qed.
Lemma exec_worker_ok e s (r : resp e) s' new h :
  exec e s r s' new -> share_pre e h -> worker_ok s h -> worker_ok s' (share_after e r h).
Proof.
  intros Hexec Hpre [Ho Hr Ht].
  destruct e; cbn in *; destruct_and?; subst; try done; try by split.
  - by destruct H2 as (faults & _ & ->).
  - destruct H2 as (faults & _ & Hc). destruct (cancel_persisted_service_job _ _ _ _ _).
    by destruct Hc as [_ ->].
  - by eapply worker_ok_send.
  - by eapply worker_ok_send.
  - split; [done| |done]. intros Hopen. rewrite Hpre in Hr. by apply Hr.
  - split; cbn; [done| |intros; simplify_eq; eauto].
    intros Hopen. rewrite (Hr Hopen). unfold registry. by simplify_option_eq.
  - split; cbn; [done| |done]. intros Hopen. rewrite (Hr Hopen). unfold registry.
    match goal with Hex : exists _, _ |- _ => destruct Hex as [token ->] end.
    apply delete_singleton_eq.
  - split; cbn; [done..|]. intros job_id token Hrun.
    destruct (Ht _ _ Hrun) as [b Hb]. exists true. congruence.
  - split; cbn; [done..|]. congruence.
  - split; cbn; [done..|]. congruence.
Qed.

(** ** The system *)

Record invariant (y : system) (hw : share) (hs : list share) : Prop := {
  i_balanced : balanced (sy_plane y) (hw :: hs) (sy_tickets y);
  i_worker_ok : worker_ok (sy_plane y) hw;
  i_worker : match sy_worker y with
             | WorkerIdle => hw = nothing true
             | Working p => owned p hw
             | WorkerStopped => hw = nothing false
             end;
  i_threads : Forall2 (fun p h => owned p h /\ sh_worker h = false /\ sh_running h = None)
    (sy_threads y) hs;
}.

Lemma balanced_fresh s w hs n :
  balanced s hs n -> balanced s (fresh_share w n :: hs) (S n).
Proof.
  intros [Hd Ht He Hf Hc Hq Hl Hu Hg]. split; rewrite ?waiting_cons, ?held_cons; cbn; try done.
  - rewrite Hd. unfold waiting. by rewrite Nat.add_0_r.
  - rewrite Ht, Permutation_cons_append. change (n :: nil) with (seq (0 + n) 1).
    by rewrite <-seq_app, Nat.add_1_r.
  - intros t Hin. destruct (Hf t Hin) as (? & ? & ?). split_and!; [lia|done|].
    intros [?|?]%elem_of_cons; [simplify_eq; lia|done].
  - constructor; [|done]. unfold due_ok. cbn. lia.
Qed.

Lemma balanced_nothing s w hs n : balanced s (nothing w :: hs) n -> balanced s hs n.
Proof.
  intros [Hd Ht He Hf Hc Hq Hl Hu Hg]. rewrite waiting_cons, held_cons in *. cbn in *.
  split; try done; [|by apply Forall_cons in Hu as [_ Hu]].
  rewrite Hd. unfold waiting. by rewrite Nat.add_0_r.
Qed.

Lemma threads_new (new : list (prog unit)) hs :
  Forall2 owned new hs -> (forall h, h ∈ hs -> sh_worker h = false /\ sh_running h = None) ->
  Forall2 (fun p h => owned p h /\ sh_worker h = false /\ sh_running h = None) new hs.
Proof.
  induction 1 as [|p h ps hs Hp _ IH]; intros Hall; constructor.
  - split; [done|]. apply Hall, elem_of_cons. by left.
  - apply IH. intros h' Hin. apply Hall, elem_of_cons. by right.
Qed.
Lemma share_new_client e h : h ∈ share_new e -> sh_worker h = false /\ sh_running h = None.
Proof. destruct e; cbn; try by intros ?%not_elem_of_nil. by intros ->%list_elem_of_singleton. Qed.

Lemma initial_invariant store : invariant (initial store) (nothing true) [].
Proof.
  split; [|by split|done|constructor].
  split; cbn; try done; [constructor|set_solver|lia|].
  constructor; [apply due_nothing|done].
Qed.

Lemma owned_step e k h (r : resp e) :
  owned (Do e k) h -> share_pre e h /\ owned (k r) (share_after e r h).
Proof.
  intros Ho. split; [by eapply share_spec_pre|].
  exact (share_spec_after e (fun r => wp share_spec (k r) finished) h r Ho).
Qed.

Lemma thread_step s s' worker before after e k (r : resp e) new tickets hw hs :
  exec e s r s' new ->
  invariant {| sy_plane := s; sy_worker := worker; sy_threads := before ++ Do e k :: after;
               sy_tickets := tickets |} hw hs ->
  exists hs', invariant {| sy_plane := s'; sy_worker := worker;
    sy_threads := before ++ k r :: after ++ new; sy_tickets := tickets |} hw hs'.
Proof.
  intros Hexec [Hb [Ho Hr Hk] Hp Ht]. cbn in *.
  apply Forall2_app_inv_l in Ht as (hb & ha & Hbefore & Hafter & ->).
  apply Forall2_cons_inv_l in Hafter as (h & ha' & (Hown & Hwf & Hrf) & Hafter & ->).
  destruct (owned_step e k h r Hown) as [Hpre Hown'].
  destruct (exec_client _ _ _ _ _ _ Hexec Hpre Hwf Hrf) as (Hc & Hrun & Hwf' & Hrf').
  exists (hb ++ share_after e r h :: ha' ++ share_new e). split; cbn.
  - assert (hw :: hb ++ h :: ha' ≡ₚ h :: hw :: hb ++ ha') as Hperm by solve_Permutation.
    rewrite Hperm in Hb. apply (exec_balanced _ _ _ _ _ _ _ _ Hexec Hpre) in Hb.
    eapply balanced_proper; [|reflexivity|exact Hb]. solve_Permutation.
  - split; rewrite ?Hc, ?Hrun; done.
  - done.
  - apply Forall2_app; [done|]. constructor; [done|]. apply Forall2_app; [done|].
    apply threads_new; [by eapply exec_new|]. apply share_new_client.
Qed.

Lemma worker_step s s' e k (r : resp e) new threads tickets hw hs :
  exec e s r s' new ->
  invariant {| sy_plane := s; sy_worker := Working (Do e k); sy_threads := threads;
               sy_tickets := tickets |} hw hs ->
  exists hw' hs', invariant {| sy_plane := s'; sy_worker := Working (k r);
    sy_threads := threads ++ new; sy_tickets := tickets |} hw' hs'.
Proof.
  intros Hexec [Hb Hw Hp Ht]. cbn in *. destruct (owned_step e k hw r Hp) as [Hpre Hown'].
  exists (share_after e r hw), (hs ++ share_new e). split; cbn.
  - apply (exec_balanced _ _ _ _ _ _ _ _ Hexec Hpre) in Hb.
    eapply balanced_proper; [|reflexivity|exact Hb]. solve_Permutation.
  - by eapply exec_worker_ok.
  - done.
  - apply Forall2_app; [done|].
    apply threads_new; [by eapply exec_new|]. apply share_new_client.
Qed.

Lemma finished_nothing h : finished tt h -> h = nothing (sh_worker h).
Proof. destruct h. intros (Ht & Hd & Hr). cbn in *. by rewrite Ht, Hd, Hr. Qed.

Lemma panic_step s threads e k ticket tickets hw hs :
  panics e = Some ticket ->
  invariant {| sy_plane := s; sy_worker := Working (Do e k); sy_threads := threads;
               sy_tickets := tickets |} hw hs ->
  invariant {| sy_plane := close_queue (on_history [] [] [ticket] [] s);
               sy_worker := WorkerStopped; sy_threads := threads; sy_tickets := tickets |}
    (nothing false) hs.
Proof.
  intros Hpanic [Hb Hw Hp Ht]. cbn in *. apply share_spec_pre in Hp.
  assert (sh_due hw = 0%nat /\ exists b, sh_ticket hw = Some (ticket, b)) as (Hd & b & Hh).
  { destruct e; cbn in *; simplify_eq; destruct_and?; eauto. }
  split; cbn; [|by split|done|done].
  apply balanced_close. apply (balanced_send ticket b [] [ticket]) in Hb; [|done..].
  by eapply balanced_share; [..|exact Hb].
Qed.

Lemma step_invariant y y' hw hs :
  step y y' -> invariant y hw hs -> exists hw' hs', invariant y' hw' hs'.
Proof.
  intros Hstep Hinv. destruct Hstep.
  - destruct Hinv as [Hb Hw Hp Ht]. cbn in *.
    exists hw, (hs ++ [fresh_share false ticket]). split; cbn; [|done..|].
    + rewrite <-(Permutation_cons_append hs), Permutation_swap. by apply balanced_fresh.
    + apply Forall2_app; [done|]. constructor; [|constructor]. split; [|done].
      by eapply call_owned.
  - exists hw. by eapply thread_step.
  - destruct Hinv as [Hb Hw Hp Ht]. cbn in *. subst hw.
    exists (message_share true message), hs. split; cbn; [| |apply handle_owned|done].
    + subst. by eapply balanced_receive.
    + destruct Hw. by subst.
  - destruct Hinv as [Hb Hw Hp Ht]. cbn in *. subst hw.
    exists (nothing true), hs. split; cbn; [done..|apply drain_owned|done].
  - destruct Hinv as [Hb Hw Hp Ht]. cbn in *. subst hw.
    exists (fresh_share true ticket), hs. split; cbn; [| | |done].
    + apply balanced_fresh. by eapply balanced_nothing.
    + destruct Hw. by split.
    + exact (monitor_owned true (monitor_request timeout uuid wall mono ticket)).
  - by eapply worker_step.
  - destruct Hinv as [Hb Hw Hp Ht]. cbn in *. exists hw, hs. split; cbn; [done..| |done].
    apply finished_nothing in Hp. destruct Hw as [Ho _ _]. rewrite Ho.
    by destruct (sh_worker hw).
  - exists (nothing false), hs. by eapply panic_step.
  - destruct Hinv as [Hb Hw Hp Ht]. cbn in *. exists hw, hs. split; cbn; [|by destruct Hw|done..].
    by eapply balanced_same; [|exact Hb].
Qed.

Lemma reachable_invariant y :
  reachable may_fail capacity timeout y -> exists hw hs, invariant y hw hs.
Proof.
  intros [store Hrun]. assert (exists hw hs, invariant (initial store) hw hs) as Hinit.
  { eexists _, _. apply initial_invariant. }
  induction Hrun as [y|y y' y'' Hstep _ IH]; [done|]. apply IH.
  destruct Hinit as (hw & hs & Hinv). by eapply step_invariant.
Qed.

End invariant.
End ControlInvariant.
