(* ===== verification/ControlTheorems.v ===== *)
(** * What the control plane guarantees

    The queue depth counts what waits; every response channel is answered or
    dropped once; no request is executed twice; the registry holds at most the
    job that runs. *)

From Stdlib Require Import Ascii.
From stdpp Require Import gmap.
From S2P Require Import Prelude RustStr Env ServiceJobs ControlJobs ControlPlane ControlSystem ControlProofs.
From S2P Require Import Prelude RustStr Env ServiceJobs ControlJobs ControlPlane ControlSystem ControlProofs.
Import ServiceJobs ControlJobs ControlPlane ControlSystem ControlProofs ControlInvariant.
Local Open Scope Z_scope.

Module ControlTheorems.

Section theorems.
Context `{!Json, !JsonBuild, !JsonTree}.
Context (may_fail : bool) (capacity : nat) (timeout : option Z).

(** The next effect of one of the programs. *)
Definition about_to (e : eff) (y : system) : Prop :=
  exists k, sy_worker y = Working (Do e k) \/ Do e k ∈ sy_threads y.

(** No program has anything left to do. *)
Definition idle (y : system) : Prop :=
  match sy_worker y with WorkerIdle | WorkerStopped => True | Working p => p = Ret tt end /\
  forall p, p ∈ sy_threads y -> p = Ret tt.

Lemma sum_due_held hs : Forall due_ok hs -> (sum_due hs <= length (held hs))%nat.
Proof.
  induction 1 as [|h hs Hh _ IH]; [unfold sum_due; cbn; lia|].
  rewrite sum_due_cons, held_cons, length_app. unfold due_ok in Hh.
  destruct (sh_ticket h); cbn in *; lia.
Qed.
Lemma sum_counted_length q : (sum_counted q <= length q)%nat.
Proof. induction q as [|[] q IH]; [done|..]; rewrite sum_counted_cons; cbn; lia. Qed.

Lemma waiting_bound s hs n : balanced capacity s hs n -> (waiting s hs <= n)%nat.
Proof.
  intros [_ Ht _ _ _ _ _ Hu Hg]. apply Permutation_length in Ht.
  rewrite !length_app, !length_map, length_seq in Ht. unfold queued in Ht.
  rewrite length_map in Ht. pose proof (sum_due_held _ Hu).
  pose proof (sum_counted_length (cp_queue s)). unfold waiting. lia.
Qed.
Lemma waiting_depth s hs n :
  balanced capacity s hs n -> Z.of_nat n < 2 ^ 64 -> cp_depth s = Z.of_nat (waiting s hs).
Proof.
  intros Hb Hn. pose proof (waiting_bound _ _ _ Hb). rewrite (b_depth _ _ _ _ Hb).
  apply Z.mod_small. lia.
Qed.

Lemma sum_due_in h hs : h ∈ hs -> (sh_due h <= sum_due hs)%nat.
Proof.
  induction hs as [|h' hs IH]; [by intros ?%not_elem_of_nil|].
  rewrite sum_due_cons. intros [->|Hin]%elem_of_cons; [lia|]. specialize (IH Hin). lia.
Qed.
Lemma finished_all (threads : list (prog unit)) hs :
  Forall2 (fun p h => owned p h /\ sh_worker h = false /\ sh_running h = None) threads hs ->
  (forall p, p ∈ threads -> p = Ret tt) -> Forall (fun h => h = nothing false) hs.
Proof.
  induction 1 as [|p h ps hs (Hp & Hw & _) _ IH]; intros Hall; constructor.
  - rewrite (Hall p) in Hp by (apply elem_of_cons; by left).
    apply finished_nothing in Hp. by rewrite Hw in Hp.
  - apply IH. intros p' Hin. apply Hall, elem_of_cons. by right.
Qed.
Lemma nothing_due hs : Forall (fun h => h = nothing false) hs -> sum_due hs = 0%nat /\ held hs = [].
Proof. induction 1 as [|h hs -> _ [IH1 IH2]]; [done|]. by rewrite sum_due_cons, held_cons, IH1, IH2. Qed.

(** When nothing is being done, the programs own nothing. *)
Lemma idle_shares y hw hs :
  invariant capacity y hw hs -> idle y ->
  sum_due (hw :: hs) = 0%nat /\ held (hw :: hs) = [] /\ sh_running hw = None.
Proof.
  intros [Hb _ Hp Ht] [Hw Hall]. apply finished_all, nothing_due in Ht as [Hd Hh]; [|done].
  rewrite sum_due_cons, held_cons, Hd, Hh.
  destruct (sy_worker y); [by rewrite Hp| |by rewrite Hp].
  rewrite Hw in Hp. destruct Hp as (-> & -> & ->). done.
Qed.

(** C26. The queue depth is exact. As long as fewer than 2^64 calls were made, no
    interleaving of clients, timers and the worker takes it below zero or wraps
    it; it never exceeds the number of calls, and when nobody is in the middle
    of an operation it is the number of requests in the channel plus those that
    were lost when the worker stopped. The channel never exceeds its capacity. *)
Theorem queue_depth_exact y :
  reachable may_fail capacity timeout y -> Z.of_nat (sy_tickets y) < 2 ^ 64 ->
  (about_to FetchSub y -> 0 < cp_depth (sy_plane y)) /\
  0 <= cp_depth (sy_plane y) <= Z.of_nat (sy_tickets y) /\
  (idle y -> cp_depth (sy_plane y)
    = Z.of_nat (cp_lost (sy_plane y) + sum_counted (cp_queue (sy_plane y)))) /\
  (cp_closed (sy_plane y) = false -> cp_lost (sy_plane y) = 0%nat) /\
  (length (cp_queue (sy_plane y)) <= capacity)%nat.
Proof.
  intros Hreach Hn. apply reachable_invariant in Hreach as (hw & hs & Hinv).
  pose proof (i_balanced _ _ _ _ Hinv) as Hb.
  pose proof (waiting_bound _ _ _ Hb) as Hle. rewrite (waiting_depth _ _ _ Hb Hn).
  split_and!; [|lia|lia| |apply Hb|apply Hb].
  - intros (k & Hk). assert (0 < sum_due (hw :: hs))%nat; [|unfold waiting; lia].
    destruct Hinv as [_ _ Hp Ht]. destruct Hk as [Hk|Hk].
    + rewrite Hk in Hp. apply owned_step with (r := tt) in Hp as [Hp _]. cbn in Hp.
      rewrite sum_due_cons. lia.
    + apply list_elem_of_lookup in Hk as [i Hi].
      destruct (Forall2_lookup_l _ _ _ _ _ Ht Hi) as (h & Hh & Hown & _).
      apply owned_step with (r := tt) in Hown as [Hown _]. cbn in Hown.
      apply list_elem_of_lookup_2, sum_due_in in Hh. rewrite sum_due_cons. lia.
  - intros Hidle. destruct (idle_shares _ _ _ Hinv Hidle) as (Hd & _ & _).
    unfold waiting. rewrite Hd. lia.
Qed.

(** C19. Every call is answered at most once and none is forgotten: the numbers
    of the response channels that were answered or dropped are distinct calls,
    and when nobody is in the middle of an operation every call is answered,
    dropped, or still in the channel; once the worker has stopped the channel is
    empty. *)
Theorem replies_exactly_once y :
  reachable may_fail capacity timeout y ->
  let s := sy_plane y in
  let settled := map fst (cp_replies s) ++ cp_dropped s in
  NoDup (settled ++ queued s) /\
  (forall t, t ∈ settled ++ queued s -> (t < sy_tickets y)%nat) /\
  (idle y -> settled ++ queued s ≡ₚ seq 0 (sy_tickets y)) /\
  (cp_closed s = true -> queued s = []).
Proof.
  intros Hreach. apply reachable_invariant in Hreach as (hw & hs & Hinv). cbn zeta.
  pose proof (i_balanced _ _ _ _ Hinv) as [_ Ht _ _ _ Hq _ _ _].
  rewrite (Permutation_app_comm (queued _)) in Ht.
  split_and!.
  - pose proof (NoDup_seq 0 (sy_tickets y)) as Hn. rewrite <-Ht in Hn.
    by apply NoDup_app in Hn as (_ & _ & Hn).
  - intros t Hin. assert (t ∈ seq 0 (sy_tickets y)) as Hs%elem_of_seq; [|lia].
    rewrite <-Ht. apply elem_of_app. by right.
  - intros Hidle. destruct (idle_shares _ _ _ Hinv Hidle) as (_ & Hh & _).
    by rewrite Hh in Ht.
  - intros Hclosed. unfold queued. by rewrite (Hq Hclosed).
Qed.

(** C20. No command is ever replayed: however often a request is put back into
    the queue to wait for a profile lease, and whatever times out, it is executed
    at most once, and a request that was executed is never in the queue again. *)
Theorem no_command_replayed y :
  reachable may_fail capacity timeout y ->
  NoDup (executed (sy_plane y)) /\
  forall t, t ∈ executed (sy_plane y) -> (t < sy_tickets y)%nat /\ t ∉ queued (sy_plane y).
Proof.
  intros Hreach. apply reachable_invariant in Hreach as (hw & hs & Hinv).
  destruct (i_balanced _ _ _ _ Hinv) as [_ _ He Hf _ _ _ _ _]. split; [done|].
  intros t Hin. destruct (Hf t Hin) as (? & ? & _). done.
Qed.

(** The registry of running jobs holds at most one job, that of a request
    the worker is working on and has not answered: a cancellation is never
    delivered to a request that waits, and between two messages the registry is
    empty. *)
Theorem registry_is_running_job y :
  reachable may_fail capacity timeout y -> cp_closed (sy_plane y) = false ->
  cp_running (sy_plane y) = ∅ \/
  exists job_id token p, cp_running (sy_plane y) = {[job_id := token]} /\
    sy_worker y = Working p /\ p <> Ret tt /\ (token < sy_tickets y)%nat /\
    token ∉ queued (sy_plane y) ++ map fst (cp_replies (sy_plane y)) ++ cp_dropped (sy_plane y).
Proof.
  intros Hreach Hopen. apply reachable_invariant in Hreach as (hw & hs & Hinv).
  destruct Hinv as [Hb [_ Hr Hk] Hp _]. rewrite (Hr Hopen). unfold registry.
  destruct (sh_running hw) as [[job_id token]|] eqn:Hrun; [right|by left].
  destruct (Hk _ _ eq_refl) as [b Hh]. exists job_id, token.
  destruct (sy_worker y) as [|p|]; [by subst| |by subst].
  exists p. split_and!; [done..| | |].
  - intros ->. destruct Hp as (Hnone & _ & _). congruence.
  - eapply held_known; [done|]. rewrite held_cons, Hh. apply elem_of_cons. by left.
  - destruct Hb as [_ Ht _ _ _ _ _ _ _]. pose proof (NoDup_seq 0 (sy_tickets y)) as Hn.
    rewrite <-Ht, held_cons, Hh in Hn. cbn in Hn. apply NoDup_cons in Hn as [Hn _].
    intros Hin. apply Hn, elem_of_app. by right.
Qed.

End theorems.
End ControlTheorems.

(** ** A cancelled job is not run

    The programs of the control plane leave the record of a cancelled job alone,
    and the worker drops its request when it reaches it. *)

Import ServiceJobs ServiceJobsProofs ControlJobs ControlPlane ControlSystem ControlProofs.
Import ControlInvariant.
Local Open Scope Z_scope.

Module ControlCancel.

Section cancel.
Context `{!Json, !JsonBuild, !JsonTree}.
Context (j : string).

Definition recorded_cancelled (st : JobStore) : Prop :=
  exists job, st_jobs st !! j = Some job /\ sj_state job = Cancelled.
(** Room for one more job: nothing is pruned. *)
Definition room (st : JobStore) : Prop := (size (st_jobs st) < MAX_SERVICE_JOBS)%nat.

Definition keeps (mutator : JobStore -> JobStore) : Prop := forall st,
  recorded_cancelled st -> room st ->
  recorded_cancelled (mutate_persisted_service_jobs no_faults mutator st).

Lemma keeps_event uuid now request event :
  keeps (record_profile_lease_wait_event uuid now request event).
Proof.
  intros st Hc Hr. unfold mutate_persisted_service_jobs, mutate_service_jobs_in_repository. cbn.
  unfold recorded_cancelled in *. cbn. unfold room in Hr. by rewrite prune_small by lia.
Qed.
Lemma keeps_insert job : sj_id job <> j -> keeps (insert_job job).
Proof.
  intros Hne st (c & Hc & Hs) Hr. exists c. split; [|done].
  unfold mutate_persisted_service_jobs, mutate_service_jobs_in_repository. cbn.
  unfold room in Hr. rewrite prune_small; [by rewrite lookup_insert_ne|].
  rewrite map_size_insert. destruct (st_jobs st !! sj_id job); cbn; lia.
Qed.

(** The rules of a program that leaves the cancelled job [j] alone, as long as
    the worker runs. *)
Definition calm_spec (e : eff) : (resp e -> unit -> Prop) -> unit -> Prop :=
  match e as e return (resp e -> unit -> Prop) -> unit -> Prop with
  | LoadJob id => fun Q _ =>
      forall r, (id = j -> exists job, r = Some job /\ sj_state job = Cancelled) -> Q r tt
  | MutateJobs mutator => fun Q _ => keeps mutator /\ Q tt tt
  | TrySend _ => fun Q _ => Q Sent tt /\ Q Full tt
  | SendWait _ => fun Q _ => Q Sent tt
  | Execute request _ => fun Q _ => rq_job_id request <> j /\ forall r, Q r tt
  | CloseQueue => fun _ _ => True
  | e => fun Q _ => forall r, Q r tt
  end.
Lemma calm_mono : monotone calm_spec.
Proof. intros e Q Q' s Himp. destruct e; cbn; naive_solver. Qed.

Definition calm (p : prog unit) : Prop := wp calm_spec p (fun _ _ => True) tt.

Definition calmly {A} (p : prog A) : Prop :=
  forall Q : A -> unit -> Prop, (forall a, Q a tt) -> wp calm_spec p Q tt.
Lemma calmly_bind {A B} (p : prog A) (f : A -> prog B) :
  calmly p -> (forall a, calmly (f a)) -> calmly (p ≫= f).
Proof. intros Hp Hf Q HQ. apply (wp_bind _ calm_mono), Hp. intros a. by apply Hf. Qed.
Lemma calmly_ret {A} (a : A) : calmly (Ret a).
Proof. intros Q HQ. apply HQ. Qed.
Lemma calmly_if {A} (b : bool) (p q : prog A) : calmly p -> calmly q -> calmly (if b then p else q).
Proof. by destruct b. Qed.
Lemma calmly_calm p : calmly p -> calm p.
Proof. intros Hp. by apply Hp. Qed.
Lemma calmly_then {A} (p : prog A) (f : A -> prog unit) :
  calmly p -> (forall a, calm (f a)) -> calm (p ≫= f).
Proof. intros Hp Hf. apply (wp_bind _ calm_mono), Hp. intros a. apply Hf. Qed.
Lemma calmly_insert job : sj_id job <> j -> calmly (persist_service_job job).
Proof. intros Hne Q HQ. cbn. split; [by apply keeps_insert|apply HQ]. Qed.
Lemma calmly_event uuid now request event :
  calmly (perform (MutateJobs (record_profile_lease_wait_event uuid now request event))).
Proof. intros Q HQ. cbn. split; [apply keeps_event|apply HQ]. Qed.
End cancel.

Create HintDb calm.
#[export] Hint Resolve calmly_bind calmly_ret calmly_if calmly_calm : calm.
#[export] Hint Extern 2 (calmly _ ?p) =>
  lazymatch p with
  | perform (MutateJobs _) => apply calmly_event
  | perform (Execute _ _) => intros ? ?; cbn; split; [assumption|auto]
  | perform _ => intros ? ?; cbn; auto
  | persist_service_job _ => apply calmly_insert; assumption
  end : calm.

Section programs.
Context `{!Json, !JsonBuild, !JsonTree}.
Context (j : string).
Local Abbreviation calmly := (calmly j).
Local Abbreviation calm := (calm j).

Ltac calm_with := intros; auto 30 with calm.

Lemma calm_end request outcome error : calmly (end_wait_if_started request outcome error).
Proof.
  unfold end_wait_if_started, record_profile_lease_wait_ended_event, record_event, done_.
  destruct (rq_profile_lease_wait_started_at request); calm_with.
Qed.
Lemma calm_status b : calmly (status_data b).
Proof. unfold status_data. destruct b; calm_with. Qed.
Lemma calm_refresh : calmly refresh_browser_health.
Proof. unfold refresh_browser_health, done_. calm_with. Qed.
#[local] Hint Resolve calm_end calm_status calm_refresh : calm.
Lemma calm_circuit command : calmly (run_post_timeout_health_circuit command).
Proof. unfold run_post_timeout_health_circuit, done_. calm_with. Qed.
#[local] Hint Resolve calm_circuit : calm.

Section other_job.
Context (request : ControlRequest) (Hother : rq_job_id request <> j).
Lemma calm_failed error : calmly (persist_service_job_failed_to_enqueue request error).
Proof. unfold persist_service_job_failed_to_enqueue. calm_with. Qed.
Lemma calm_running : calmly (persist_service_job_running request).
Proof. unfold persist_service_job_running. calm_with. Qed.
Lemma calm_cancelled reason : calmly (persist_service_job_cancelled request reason).
Proof. unfold persist_service_job_cancelled. calm_with. Qed.
Lemma calm_timed_out : calmly (persist_service_job_timed_out request).
Proof. unfold persist_service_job_timed_out. calm_with. Qed.
Lemma calm_finished response : calmly (persist_service_job_finished request response).
Proof. unfold persist_service_job_finished. calm_with. Qed.
#[local] Hint Resolve calm_failed calm_running calm_cancelled calm_timed_out calm_finished : calm.

Lemma calm_submit : calm (submit request).
Proof.
  apply calmly_calm. unfold submit, persist_service_job_queued, done_.
  repeat (apply calmly_bind; [solve [calm_with]|intros ?]). case_match; calm_with.
Qed.
Lemma calm_monitor : calm (enqueue_due_monitor_run request).
Proof.
  apply calmly_calm. unfold enqueue_due_monitor_run, persist_service_job_queued, done_.
  apply calmly_bind; [solve [calm_with]|intros ?]. apply calmly_if; [calm_with|].
  repeat (apply calmly_bind; [solve [calm_with]|intros ?]). case_match; calm_with.
Qed.
Lemma calm_run timeout queue_wait_ms : calmly (run_request timeout queue_wait_ms request).
Proof.
  unfold run_request, done_. repeat (apply calmly_bind; [solve [calm_with]|intros ?]).
  apply calmly_bind; [case_match; calm_with|intros ?]. case_match; calm_with.
Qed.
End other_job.
#[local] Hint Resolve calm_failed calm_run : calm.

Lemma check_cancelled (Q : bool -> unit -> Prop) :
  Q true tt -> wp (calm_spec j) (service_job_cancelled j) Q tt.
Proof.
  intros HQ. unfold service_job_cancelled. cbn. intros r Hr.
  destruct (Hr eq_refl) as (job & -> & Hs). by rewrite bool_decide_true.
Qed.
Lemma calm_check id : calmly (service_job_cancelled id).
Proof. unfold service_job_cancelled. calm_with. Qed.

Lemma calm_dispatch timeout request : rq_job_id request <> j -> calmly (handle_request timeout request).
Proof.
  intros Hne. unfold handle_request, done_, persist_service_job_waiting_profile_lease,
    record_profile_lease_wait_started_event, record_event.
  do 2 (apply calmly_bind; [solve [calm_with]|intros ?]).
  apply calmly_bind; [apply calm_check|intros ?]. apply calmly_if; [calm_with|].
  do 3 (apply calmly_bind; [solve [calm_with]|intros ?]).
  destruct (scheduler_profile_lease_gate _ _ _) as [decision request'] eqn:Hgate.
  destruct (gate_request _ _ _ _ _ Hgate) as [_ Hid].
  assert (rq_job_id request' <> j) as Hne' by congruence. case_match; calm_with.
Qed.
(** The request of the cancelled job is answered without being run. *)
Lemma calm_drop timeout request : rq_job_id request = j -> calm (handle_request timeout request).
Proof.
  intros Hj. unfold handle_request. do 2 (apply calmly_then; [solve [calm_with]|intros ?]).
  apply (wp_bind _ (calm_mono j)). rewrite Hj. apply check_cancelled.
  apply calmly_calm. calm_with.
Qed.
Lemma calm_handle timeout m : calm (handle timeout m).
Proof.
  destruct m; cbn [handle].
  - destruct (decide (rq_job_id request = j)); [by apply calm_drop|].
    by apply calmly_calm, calm_dispatch.
  - apply calmly_calm. unfold handle_private. calm_with.
  - apply calmly_calm. unfold handle_preflight. calm_with.
  - done.
Qed.
Lemma calm_retry request : calm (retry_timer request).
Proof. done. Qed.
Lemma calm_drain : calm drain_tick.
Proof. apply calmly_calm. unfold drain_tick, done_. calm_with. Qed.
Lemma calm_cancel ticket id job_id reason : calm (cancel_job_response ticket id job_id reason).
Proof.
  apply calmly_calm. unfold cancel_job_response.
  apply calmly_bind; [calm_with|intros r]. destruct (r : option nat); [calm_with|].
  do 2 (apply calmly_bind; [solve [calm_with]|intros ?]). case_match; calm_with.
Qed.

(** ** The system *)

Context (capacity : nat) (timeout : option Z).
Local Abbreviation exec := (exec false capacity).
Local Abbreviation step := (step false capacity timeout).

(** Nobody submits a request under the id [j], and nothing is pruned. *)
Definition undisturbed (y : system) : Prop :=
  room (cp_store (sy_plane y)) /\
  (forall request, rq_job_id request = j -> submit request ∉ sy_threads y) /\
  (forall request, rq_job_id request = j ->
     sy_worker y <> Working (enqueue_due_monitor_run request)).

Definition programs (y : system) : list (prog unit) :=
  match sy_worker y with Working p => [p] | WorkerIdle | WorkerStopped => [] end ++ sy_threads y.

(** The job is recorded as cancelled and every program leaves it alone. *)
Definition at_rest (y : system) : Prop :=
  recorded_cancelled j (cp_store (sy_plane y)) /\ Forall calm (programs y).

Lemma calm_call ticket call :
  client_call timeout ticket call ->
  (forall request, rq_job_id request = j -> call <> submit request) -> calm call.
Proof.
  intros Hcall Hne. destruct Hcall.
  - apply calm_submit. intros Hj. by apply (Hne _ Hj).
  - apply calmly_calm. unfold enqueue_private, done_.
    apply calmly_bind; [calm_with|intros ?]. apply calmly_if; [calm_with|].
    do 2 (apply calmly_bind; [solve [calm_with]|intros ?]). case_match; calm_with.
  - apply calmly_calm. unfold private_preflight, done_.
    apply calmly_bind; [calm_with|intros ?]. case_match; calm_with.
  - apply calm_cancel.
  - done.
Qed.

Definition ran (e : eff) : list ControlRequest :=
  match e with Execute request _ => [request] | _ => [] end.

Lemma exec_history e s (r : resp e) s' new :
  exec e s r s' new ->
  cp_executed s' = cp_executed s ++ ran e /\ (cp_closed s = true -> cp_closed s' = true).
Proof.
  intros Hexec. destruct e; cbn in *; rewrite ?app_nil_r; destruct_and?; subst; cbn;
    rewrite ?app_nil_r; try done.
  - by destruct H2 as (faults & _ & ->).
  - destruct H2 as (faults & _ & Hc). destruct (cancel_persisted_service_job _ _ _ _ _).
    by destruct Hc as [_ ->].
  - destruct r; cbn in *; destruct_and?; by subst.
  - destruct r; cbn in *; destruct_and?; by subst.
Qed.

Lemma cancel_keeps now job_id reason st :
  recorded_cancelled j st ->
  recorded_cancelled j (cancel_persisted_service_job no_faults now job_id reason st).2.
Proof.
  intros (job & Hjob & Hs).
  unfold cancel_persisted_service_job, cancel_service_job_in_repository, repository_mutate. cbn.
  pose proof (cancel_cases now job_id reason (st_jobs st)) as Hc.
  destruct (cancel_service_job _ _ _ _) as [[job' jobs']|e]; cbn; [|by exists job].
  destruct Hc as (old & Hold & Hs' & -> & _). unfold recorded_cancelled. cbn.
  destruct (decide (job_id = j)) as [->|Hne].
  - exists job'. by rewrite lookup_insert_eq.
  - exists job. by rewrite lookup_insert_ne.
Qed.

(** An effect of a program that leaves the job alone. *)
Lemma exec_calm e k s (r : resp e) s' new :
  exec e s r s' new -> calm (Do e k) -> recorded_cancelled j (cp_store s) -> room (cp_store s) ->
  cp_closed s = false ->
  (forall request, request ∈ ran e -> rq_job_id request <> j) /\
  (cp_closed s' = true \/
   recorded_cancelled j (cp_store s') /\ calm (k r) /\ Forall calm new).
Proof.
  intros Hexec Hcalm Hc Hroom Hopen. unfold calm, ControlCancel.calm in Hcalm.
  destruct e; cbn in Hexec, Hcalm |- *; destruct_and?; subst;
    (split; [try by intros ? ?%not_elem_of_nil|]); auto.
  all: try solve [right; split_and!; [done|apply Hcalm|by constructor]].
  - right. split_and!; [done| |by constructor]. apply Hcalm. intros ->.
    match goal with Hex : exists _, _ |- _ => destruct Hex as (faults & Hf & ->) end.
    by rewrite (Hf eq_refl).
  - right. match goal with Hex : exists _, _ |- _ => destruct Hex as (faults & Hf & ->) end.
    destruct r. rewrite (Hf eq_refl). match goal with Hk : keeps _ _ |- _ =>
      split_and!; [by apply Hk|done|by constructor] end.
  - right. match goal with Hex : exists _, _ |- _ => destruct Hex as (faults & Hf & Hx) end.
    rewrite (Hf eq_refl) in Hx. pose proof (cancel_keeps now job_id reason _ Hc) as Hkeep.
    destruct (cancel_persisted_service_job _ _ _ _ _). destruct Hx as [-> ->].
    split_and!; [done|apply Hcalm|by constructor].
  - right. destruct r; cbn in *; destruct_and?; subst; try congruence; auto using Forall_nil_2.
  - right. destruct r; cbn in *; destruct_and?; subst; try congruence; auto using Forall_nil_2.
  - by intros request' ->%list_elem_of_singleton.
  - right. split_and!; [done| |by constructor].
    match goal with Hk : forall _, wp _ _ _ _ |- _ => apply Hk end.
Qed.

(** What every step keeps, from a state in which the job is at rest. *)
Definition never_run (y y' : system) : Prop :=
  exists requests, cp_executed (sy_plane y') = cp_executed (sy_plane y) ++ requests /\
    forall request, request ∈ requests -> rq_job_id request <> j.
Definition calm_or_closed (y : system) : Prop :=
  cp_closed (sy_plane y) = true \/ at_rest y.

Lemma never_run_refl y : never_run y y.
Proof. exists []. rewrite app_nil_r. split; [done|]. by intros ? ?%not_elem_of_nil. Qed.
Lemma never_run_trans y y' y'' : never_run y y' -> never_run y' y'' -> never_run y y''.
Proof.
  intros (l & Hl & Hn) (l' & Hl' & Hn'). exists (l ++ l'). rewrite Hl', Hl, app_assoc.
  split; [done|]. intros request [?|?]%elem_of_app; auto.
Qed.

(** A step that only replaces programs by calm ones. *)
Lemma same_plane_step y y' :
  cp_store (sy_plane y') = cp_store (sy_plane y) ->
  cp_closed (sy_plane y') = cp_closed (sy_plane y) ->
  cp_executed (sy_plane y') = cp_executed (sy_plane y) ->
  (at_rest y -> Forall calm (programs y')) ->
  calm_or_closed y -> calm_or_closed y' /\ never_run y y'.
Proof.
  intros Hs Hc He Hp Hy. split.
  - destruct Hy as [Hy|Hy]; [left; congruence|right]. split; [|auto]. rewrite Hs. apply Hy.
  - exists []. rewrite app_nil_r. split; [done|]. by intros ? ?%not_elem_of_nil.
Qed.

Lemma exec_step e k s (r : resp e) s' new h y y' :
  exec e s r s' new -> owned (Do e k) h -> (cp_closed s = true -> sh_worker h = false) ->
  sy_plane y = s -> sy_plane y' = s' -> room (cp_store s) ->
  Do e k ∈ programs y ->
  (forall p, p ∈ programs y' -> p ∈ programs y \/ p = k r \/ p ∈ new) ->
  calm_or_closed y -> calm_or_closed y' /\ never_run y y'.
Proof.
  intros Hexec Hown Hflag Hy Hy' Hroom Hin Hprogs Hcalm.
  destruct (exec_history _ _ _ _ _ Hexec) as [Hran Hclosed].
  unfold calm_or_closed, never_run, at_rest in *. rewrite Hy, Hy' in *.
  destruct (cp_closed s) eqn:Hopen.
  { split; [left; auto|]. exists (ran e). split; [done|].
    destruct (owned_step e k h r Hown) as [Hpre _]. specialize (Hflag eq_refl).
    destruct e; try by intros ? ?%not_elem_of_nil. destruct Hpre. congruence. }
  destruct Hcalm as [?|[Hrec Hall]]; [done|].
  rewrite Forall_forall in Hall.
  destruct (exec_calm _ _ _ _ _ _ Hexec (Hall _ Hin) Hrec Hroom Hopen) as [Hne Hnext].
  split; [|by exists (ran e)].
  destruct Hnext as [?|(Hrec' & Hk & Hnew)]; [by left|right]. split; [done|].
  rewrite Forall_forall in *. intros p Hp. destruct (Hprogs p Hp) as [?|[->|?]]; auto.
Qed.

Lemma step_never_run y y' hw hs :
  step y y' -> undisturbed y -> undisturbed y' -> invariant capacity y hw hs ->
  calm_or_closed y -> calm_or_closed y' /\ never_run y y'.
Proof.
  intros Hstep [Hroom _] (_ & Hsub & Hmon) Hinv Hcalm. destruct Hstep.
  - apply same_plane_step; [done..| |done]. intros [_ Hall].
    unfold programs in *. cbn in *. rewrite app_assoc. apply Forall_app. split; [done|].
    constructor; [|constructor]. eapply calm_call; [done|]. intros request Hj ->.
    apply (Hsub request Hj), elem_of_app. right. apply elem_of_cons. by left.
  - destruct Hinv as [_ [Ho _ _] _ Ht]. cbn in *.
    apply Forall2_app_inv_l in Ht as (hb & ha & _ & Hafter & ->).
    apply Forall2_cons_inv_l in Hafter as (h & ha' & (Hown & Hwf & _) & _ & ->).
    eapply exec_step; [done|done|done|reflexivity|reflexivity|done| | |done];
      unfold programs; cbn; set_solver.
  - subst. apply same_plane_step; [done..| |done]. intros [_ Hall].
    constructor; [apply calm_handle|done].
  - apply same_plane_step; [done..| |done]. intros [_ Hall]. constructor; [apply calm_drain|done].
  - apply same_plane_step; [done..| |done]. intros [_ Hall].
    constructor; [|done]. apply calm_monitor. intros Hj. by apply (Hmon _ Hj).
  - destruct Hinv as [_ [Ho _ _] Hp _]. cbn in *.
    eapply exec_step; [done|done| |reflexivity|reflexivity|done| | |done];
      [|unfold programs; cbn; set_solver..].
    rewrite Ho. by destruct (sh_worker hw).
  - apply same_plane_step; [done..| |done]. intros [_ Hall]. cbn in Hall.
    unfold programs in *. cbn in *. apply Forall_cons in Hall as [_ Hall].
    by destruct (cp_closed s).
  - split; [by left|]. exists []. cbn. rewrite !app_nil_r. split; [done|].
    by intros ? ?%not_elem_of_nil.
  - split; [destruct Hcalm as [?|[Hrec Hall]]; [by left|right]; split; [|done]; apply Hrec|].
    exists []. rewrite app_nil_r. split; [done|]. by intros ? ?%not_elem_of_nil.
Qed.

(** Runs along which the job is not submitted again and nothing is pruned. *)
Definition quiet_step (y y' : system) : Prop := step y y' /\ undisturbed y'.

(** C16. A cancellation that reaches a job before the worker does is final. Once
    the record of a job is cancelled and no program is in the middle of an
    operation on it, its request may be in the channel or asleep in a timer: in
    no continuation of the run is a request of the job executed, as long as the
    repository works, nobody submits the same id again and no record is pruned. *)
Theorem cancelled_never_runs y y' :
  reachable false capacity timeout y -> undisturbed y -> at_rest y ->
  rtc quiet_step y y' ->
  exists requests, cp_executed (sy_plane y') = cp_executed (sy_plane y) ++ requests /\
    forall request, request ∈ requests -> rq_job_id request <> j.
Proof.
  intros Hreach Hquiet Hrest Hrun. fold (never_run y y').
  apply reachable_invariant in Hreach. assert (calm_or_closed y) as Hcalm by by right.
  clear Hrest. induction Hrun as [y|y y' y'' [Hstep Hquiet'] _ IH]; [apply never_run_refl|].
  destruct Hreach as (hw & hs & Hinv).
  destruct (step_never_run _ _ _ _ Hstep Hquiet Hquiet' Hinv Hcalm) as [Hcalm' Hnever].
  eapply never_run_trans; [exact Hnever|]. apply IH; [|done..]. by eapply step_invariant.
Qed.
End programs.

End ControlCancel.
