(* ===== verification/RemoteAttach.v ===== *)
(** * Remote-view attachability

    Model of [cli/src/native/remote_view_attachability.rs]: what a stream and a
    browser are reported as, and the refresh of a service state. *)

From S2P Require Import Prelude RustStr Env RemoteRoute.
From stdpp Require Import sorting.
Import RemoteRoute.RemoteRoute.

Module RemoteAttach.

Definition is_terminal_browser_health (health : BrowserHealth) : bool :=
  match health with NotStarted | ProcessExited | Closing | Faulted => true | _ => false end.

(** The derived serialization of [BrowserHealth]. *)
Definition health_name (health : BrowserHealth) : string :=
  match health with
  | NotStarted => "not_started"
  | Launching => "launching"
  | Ready => "ready"
  | Degraded => "degraded"
  | Unreachable => "unreachable"
  | ProcessExited => "process_exited"
  | CdpDisconnected => "cdp_disconnected"
  | Reconnecting => "reconnecting"
  | Closing => "closing"
  | Faulted => "faulted"
  end%string.

Definition ACTIVE_VIEWER_LEASE_STATES : list string := ["observing"; "controlling"]%string.

Section attach.
Context `{!Json, !JsonBuild} {Other StOther : Type}.
Local Abbreviation BrowserProcess := (@BrowserProcess _ Other).
Local Abbreviation ServiceState := (@ServiceState _ Other StOther).

(** [Iterator::find_map] *)
Fixpoint find_map {A B} (f : A -> option B) (l : list A) : option B :=
  match l with
  | [] => None
  | a :: l' => match f a with Some b => Some b | None => find_map f l' end
  end.
(** [.values()] of a [BTreeMap]: the values in the order of the keys. *)
Definition key_le {A} (p q : string * A) : Prop := str_le p.1 q.1.
#[local] Instance key_le_dec {A} (p q : string * A) : Decision (key_le p q).
Proof. unfold key_le. apply _. Defined.
Definition values {A} (m : gmap string A) : list A :=
  map snd (merge_sort key_le (map_to_list m)).

Definition opt_str (o : option string) : value :=
  match o with Some s => jstring s | None => jnull end.

Definition display_content_state (stream : ViewStream) (route : option RemoteViewRoute)
    (display_allocation : option DisplayAllocation) : string :=
  unwrap_or "not_checked"%string
    (find_map (fun o => v ← o; str_field v "state")
       [(v ← vs_remote_readiness stream; jget v "displayContent");
        (v ← vs_readiness stream; jget v "displayContent");
        (r ← route; v ← rt_readiness r; jget v "displayContent");
        (d ← display_allocation; v ← da_readiness d; jget v "displayContent")]).

Definition normalized_proof_state (stream : ViewStream) (route : option RemoteViewRoute)
    (display_allocation : option DisplayAllocation) : string :=
  let display_state := display_content_state stream route display_allocation in
  if display_state == "browser_window_visible"%string then "ready"%string else
  unwrap_or display_state
    (find_map (fun o => v ← o; str_field v "state")
       [vs_remote_readiness stream; vs_readiness stream; (r ← route; rt_readiness r);
        (d ← display_allocation; da_readiness d)]).

Definition route_pool_entry_for_stream (stream : ViewStream) (route : option RemoteViewRoute)
    (state : ServiceState) : option RoutePoolEntry :=
  List.find (fun entry =>
    match vs_route_id stream with
    | Some route_id => (pe_current_route_allocation_id entry == Some route_id)
                       || (pe_route_id entry == route_id)
    | None => false
    end
    || match (r ← route; rt_connection_id r) with
       | Some connection_id => pe_connection_id entry == Some connection_id
       | None => false
       end) (values (route_pool state)).

(** The observations the classification is made of. *)
Record Observed := {
  ob_route : option RemoteViewRoute;
  ob_display_allocation_id : option string;
  ob_display_allocation : option DisplayAllocation;
  ob_route_pool_entry : option RoutePoolEntry;
  ob_display_content_state : string;
  ob_proof_state : string;
  ob_route_state : string;
  ob_route_pool_state : string;
  ob_display_agrees : bool;
  ob_browser_agrees : bool;
  ob_has_active_viewer : bool;
}.

Definition observe (browser : BrowserProcess) (stream : ViewStream) (state : ServiceState)
    : Observed :=
  let route := id ← vs_route_id stream; remote_view_routes state !! id in
  let display_allocation_id :=
    first_some (vs_display_allocation_id stream) (bp_display_allocation_id browser) in
  let display_allocation := id ← display_allocation_id; display_allocations state !! id in
  let route_pool_entry := route_pool_entry_for_stream stream route state in
  {| ob_route := route;
     ob_display_allocation_id := display_allocation_id;
     ob_display_allocation := display_allocation;
     ob_route_pool_entry := route_pool_entry;
     ob_display_content_state := display_content_state stream route display_allocation;
     ob_proof_state := normalized_proof_state stream route display_allocation;
     ob_route_state := match route with Some r => rt_state r | None => "missing"%string end;
     ob_route_pool_state :=
       match route_pool_entry with Some e => pe_state e | None => "missing"%string end;
     ob_display_agrees :=
       match display_allocation_id, (r ← route; rt_display_allocation_id r) with
       | Some stream_display, Some route_display => stream_display == route_display
       | Some _, None => true
       | None, _ => false
       end;
     ob_browser_agrees :=
       match (r ← route; rt_browser_id r) with
       | Some route_browser => route_browser == bp_id browser
       | None => true
       end;
     ob_has_active_viewer :=
       existsb (fun id => match viewer_leases state !! id with
                          | Some lease => one_of (vl_state lease) ACTIVE_VIEWER_LEASE_STATES
                          | None => false
                          end)
         (vs_viewer_lease_ids stream
          ++ match vs_controller_lease_id stream with Some id => [id] | None => [] end) |}.

(** State, recommended action and reason. *)
Definition classify (browser : BrowserProcess) (stream : ViewStream) (o : Observed)
    : string * string * string :=
  if is_terminal_browser_health (bp_health browser)
  then ("not_reattachable_closed", "open_new_remote_view_browser", "browser health is terminal")
  else if vs_route_id stream == None
  then ("reattachable_no_route", "service_remote_view_browser_reattach",
        "browser is live but no remote-view route is selected")
  else if negb (ob_display_agrees o) || negb (ob_browser_agrees o)
  then ("reattachable_stale_route", "service_remote_view_browser_reattach",
        "route ownership does not match browser display ownership")
  else if one_of (ob_route_state o) ["orphaned"; "pending"; "released"; "failed"; "missing"]
          || one_of (ob_route_pool_state o) ["pending"]
  then ("reattachable_stale_route", "service_remote_view_browser_reattach",
        "route or route-pool state is not attached-ready")
  else if (ob_route_state o == "ready") && (ob_proof_state o == "ready")
  then if ob_has_active_viewer o || (match vs_viewer_lease_ids stream with [] => true | _ => false end)
       then ("attached_ready", "open_existing_remote_view_route",
             "route, browser, display, and proof agree")
       else ("reattachable_viewer_disconnected", "service_viewer_lease_request",
             "route is ready but retained viewer leases are disconnected")
  else ("reattachable_stale_route", "service_remote_view_browser_reattach",
        "operator-visible proof is not ready")%string.

Definition stream_fields (browser : BrowserProcess) (stream : ViewStream) (o : Observed)
    : list (string * value) :=
  let '(attachability_state, recommended_action, reason) := classify browser stream o in
  [("state", jstring attachability_state); ("recommendedAction", jstring recommended_action);
   ("reason", jstring reason); ("browserId", jstring (bp_id browser));
   ("profileId", opt_str (bp_profile_id browser));
   ("sessionName", opt_str (head (bp_active_session_ids browser)));
   ("browserHealth", jstring (health_name (bp_health browser)));
   ("displayAllocationId", opt_str (ob_display_allocation_id o));
   ("displayName", opt_str (first_some (d ← ob_display_allocation o; da_display_name d)
                              (bp_display_name browser)));
   ("routeId", opt_str (vs_route_id stream));
   ("routePoolEntryId", opt_str (pe_id <$> ob_route_pool_entry o));
   ("connectionId", opt_str (vs_connection_id stream));
   ("frameUrl", opt_str (vs_frame_url stream));
   ("externalUrl", opt_str (vs_external_url stream));
   ("routeState", jstring (ob_route_state o)); ("routePoolState", jstring (ob_route_pool_state o));
   ("proofState", jstring (ob_proof_state o));
   ("displayContentState", jstring (ob_display_content_state o));
   ("displayAgrees", jbool (ob_display_agrees o)); ("browserAgrees", jbool (ob_browser_agrees o));
   ("hasActiveViewer", jbool (ob_has_active_viewer o))]%string.

Definition derive_stream_attachability (browser : BrowserProcess) (stream : ViewStream)
    (state : ServiceState) : value :=
  jobject (stream_fields browser stream (observe browser stream state)).

Definition is_rdp_entry (entry : RoutePoolEntry) : bool := pe_provider entry == RdpGateway.

(** The loop over the RDP entries of the pool. *)
Fixpoint occupied_loop (browser : BrowserProcess) (state : ServiceState)
    (has_rdp_route_pool : bool) (entries : list RoutePoolEntry) : bool :=
  match entries with
  | [] => has_rdp_route_pool
  | entry :: rest =>
      if pe_state entry == "available"%string then false
      else if match pe_current_route_allocation_id entry with
              | Some route_id =>
                  (r ← remote_view_routes state !! route_id; rt_browser_id r)
                    == Some (bp_id browser)
              | None => false
              end
      then false else occupied_loop browser state true rest
  end.
Definition route_pool_capacity_occupied (browser : BrowserProcess) (state : ServiceState) : bool :=
  occupied_loop browser state false (List.filter is_rdp_entry (values (route_pool state))).

Definition browser_base_state (browser : BrowserProcess) (state : ServiceState) : string :=
  if is_terminal_browser_health (bp_health browser) then "not_reattachable_closed"
  else if route_pool_capacity_occupied browser state then "reattachable_route_occupied"
  else "reattachable_no_route".

Definition browser_base_attachability (browser : BrowserProcess) (state : ServiceState)
    : option value :=
  if negb (bp_host browser == RemoteHeaded)
     && negb (existsb (fun stream => vs_provider stream == RdpGateway) (bp_view_streams browser))
  then None else
  let state_value := browser_base_state browser state in
  Some (jobject
    [("state", jstring state_value);
     ("recommendedAction", jstring
       (if state_value == "reattachable_no_route" then "service_remote_view_browser_reattach"
        else if state_value == "reattachable_route_occupied"
        then "service_remote_view_route_switch" else "repair_browser_before_reattach"));
     ("reason", jstring
       (if state_value == "reattachable_no_route"
        then "remote-headed browser is live without an attached route"
        else if state_value == "reattachable_route_occupied"
        then "remote-headed browser is live but all RDP gateway routes are occupied"
        else "browser is closed or terminal"));
     ("browserId", jstring (bp_id browser)); ("profileId", opt_str (bp_profile_id browser));
     ("sessionName", opt_str (head (bp_active_session_ids browser)));
     ("browserHealth", jstring (health_name (bp_health browser)));
     ("displayAllocationId", opt_str (bp_display_allocation_id browser)); ("routeId", jnull);
     ("routeState", jstring "missing"); ("routePoolState", jstring "missing");
     ("proofState", jstring "not_checked"); ("displayContentState", jstring "not_checked");
     ("availableRoutePoolEntries", jarray (map (fun entry => jstring (pe_id entry))
        (List.filter (fun entry => is_rdp_entry entry && (pe_state entry == "available"))
           (values (route_pool state)))))])%string.

Definition attachability_rank (v : value) : nat :=
  let s := unwrap_or ""%string (str_field v "state") in
  if s == "attached_ready" then 100
  else if s == "reattachable_viewer_disconnected" then 80
  else if s == "reattachable_stale_route" then 70
  else if s == "reattachable_no_route" then 60
  else if s == "reattachable_route_occupied" then 50
  else if s == "not_reattachable_faulted" then 20
  else if s == "not_reattachable_closed" then 10
  else 0%string.

Definition set_attachability (a : value) (s : ViewStream) : ViewStream :=
  {| vs_id := vs_id s; vs_provider := vs_provider s; vs_control_input := vs_control_input s;
     vs_url := vs_url s; vs_frame_url := vs_frame_url s; vs_external_url := vs_external_url s;
     vs_route_descriptor := vs_route_descriptor s; vs_route_id := vs_route_id s;
     vs_display_allocation_id := vs_display_allocation_id s; vs_connection_id := vs_connection_id s;
     vs_connection_name := vs_connection_name s; vs_route_source := vs_route_source s;
     vs_provider_mode := vs_provider_mode s; vs_viewer_lease_ids := vs_viewer_lease_ids s;
     vs_controller_lease_id := vs_controller_lease_id s; vs_read_only := vs_read_only s;
     vs_readiness := vs_readiness s; vs_remote_readiness := vs_remote_readiness s;
     vs_attachability := Some a |}.

(** The best of the current candidate and a new one; the current one wins ties. *)
Definition better (current : option value) (a : value) : option value :=
  match current with
  | None => Some a
  | Some c => if (attachability_rank c <? attachability_rank a)%nat then Some a else Some c
  end.

(** The loop over the streams of a browser. *)
Fixpoint refresh_streams (browser : BrowserProcess) (state : ServiceState)
    (best : option value) (streams : list ViewStream) : option value * list ViewStream :=
  match streams with
  | [] => (best, [])
  | stream :: rest =>
      if negb (vs_provider stream == RdpGateway)
      then let '(best', rest') := refresh_streams browser state best rest in
           (best', stream :: rest')
      else
        let a := derive_stream_attachability browser stream state in
        let '(best', rest') := refresh_streams browser state (better best a) rest in
        (best', set_attachability a stream :: rest')
  end.

Definition refresh_browser (state : ServiceState) (browser : BrowserProcess) : BrowserProcess :=
  let '(best, streams) := refresh_streams browser state
    (browser_base_attachability browser state) (bp_view_streams browser) in
  {| bp_id := bp_id browser; bp_profile_id := bp_profile_id browser; bp_host := bp_host browser;
     bp_health := bp_health browser; bp_display_name := bp_display_name browser;
     bp_display_allocation_id := bp_display_allocation_id browser;
     bp_view_streams := streams; bp_attachability := best;
     bp_active_session_ids := bp_active_session_ids browser; bp_other := bp_other browser |}.

Definition refresh_remote_view_attachability (state : ServiceState) : ServiceState :=
  {| display_allocations := display_allocations state;
     remote_view_routes := remote_view_routes state; route_pool := route_pool state;
     remote_view_acquisition_leases := remote_view_acquisition_leases state;
     viewer_leases := viewer_leases state;
     browsers := refresh_browser state <$> browsers state; st_other := st_other state |}.

(** ** What a report says *)

Lemma stream_fields_keys browser stream o : NoDup (map fst (stream_fields browser stream o)).
Proof.
  unfold stream_fields. destruct (classify browser stream o) as [[st action] reason]. cbn.
  apply (bool_decide_unpack _). vm_compute. exact I.
Qed.
Lemma derive_state browser stream state :
  str_field (derive_stream_attachability browser stream state) "state"
    = Some (classify browser stream (observe browser stream state)).1.1.
Proof.
  unfold str_field, derive_stream_attachability.
  rewrite (jget_jobject _ "state"%string
    (jstring (classify browser stream (observe browser stream state)).1.1)).
  - cbn. apply as_str_jstring.
  - apply stream_fields_keys.
  - unfold stream_fields. destruct (classify _ _ _) as [[st action] reason]. by left.
Qed.

(** The selected route and the display it must agree on. *)
Definition attached (browser : BrowserProcess) (stream : ViewStream) (state : ServiceState)
    (route : RemoteViewRoute) : Prop :=
  (exists id, vs_route_id stream = Some id /\ remote_view_routes state !! id = Some route) /\
  rt_state route = "ready"%string /\
  (exists display, first_some (vs_display_allocation_id stream) (bp_display_allocation_id browser)
       = Some display /\
     (rt_display_allocation_id route = None \/ rt_display_allocation_id route = Some display)) /\
  (rt_browser_id route = None \/ rt_browser_id route = Some (bp_id browser)).

Definition watched (stream : ViewStream) (state : ServiceState) : Prop :=
  vs_viewer_lease_ids stream = [] \/
  exists id lease, (In id (vs_viewer_lease_ids stream) \/ vs_controller_lease_id stream = Some id) /\
    viewer_leases state !! id = Some lease /\ In (vl_state lease) ACTIVE_VIEWER_LEASE_STATES.

Lemma active_viewer_iff browser stream state :
  ob_has_active_viewer (observe browser stream state)
    || (match vs_viewer_lease_ids stream with [] => true | _ => false end) = true <->
  watched stream state.
Proof.
  unfold watched. rewrite orb_true_iff. cbn [observe ob_has_active_viewer].
  rewrite existsb_exists. setoid_rewrite in_app_iff. split.
  - intros [(id & Hin & Hid)|Hnil].
    + right. destruct (viewer_leases state !! id) as [lease|] eqn:Hl; [|done].
      exists id, lease. split_and!; [|done|by apply one_of_In].
      destruct Hin as [|Hc]; [by left|right].
      destruct (vs_controller_lease_id stream); [|done]. by destruct Hc as [->|[]].
    + left. by destruct (vs_viewer_lease_ids stream).
  - intros [->|(id & lease & Hin & Hl & Hs)]; [by right|]. left. exists id. split.
    + destruct Hin as [|Hc]; [by left|right]. rewrite Hc. by left.
    + rewrite Hl. by apply one_of_In.
Qed.

Lemma agrees_iff browser stream state route :
  (exists id, vs_route_id stream = Some id /\ remote_view_routes state !! id = Some route) ->
  let o := observe browser stream state in
  ob_display_agrees o && ob_browser_agrees o = true <->
  (exists display, first_some (vs_display_allocation_id stream) (bp_display_allocation_id browser)
       = Some display /\
     (rt_display_allocation_id route = None \/ rt_display_allocation_id route = Some display)) /\
  (rt_browser_id route = None \/ rt_browser_id route = Some (bp_id browser)).
Proof.
  intros (id & Hid & Hr) o. subst o. cbn [observe ob_display_agrees ob_browser_agrees].
  rewrite Hid. cbn. rewrite Hr. cbn. rewrite andb_true_iff.
  destruct (first_some _ _) as [d|], (rt_display_allocation_id route) as [rd|],
    (rt_browser_id route) as [rb|]; rewrite ?bool_decide_eq_true; naive_solver.
Qed.

(** A stream is reported attached exactly when the browser is live, the
    selected route exists, is ready, agrees with the browser and its display, its
    pool entry is not pending, the operator-visible proof is ready, and the route
    is being watched or has no retained viewer. *)
Theorem attached_ready_iff browser stream state :
  str_field (derive_stream_attachability browser stream state) "state"
    = Some "attached_ready"%string <->
  is_terminal_browser_health (bp_health browser) = false /\
  (exists route, attached browser stream state route) /\
  ob_route_pool_state (observe browser stream state) <> "pending"%string /\
  ob_proof_state (observe browser stream state) = "ready"%string /\
  watched stream state.
Proof.
  rewrite derive_state, <-(active_viewer_iff browser). unfold classify.
  destruct (is_terminal_browser_health (bp_health browser)); [naive_solver|].
  destruct (vs_route_id stream) as [id|] eqn:Hid.
  2:{ rewrite bool_decide_true by done. split; [done|].
      intros (_ & (r & (? & ? & _) & _) & _). congruence. }
  rewrite bool_decide_false by done.
  destruct (remote_view_routes state !! id) as [route|] eqn:Hr.
  2:{ assert (ob_route_state (observe browser stream state) = "missing"%string) as ->
        by (cbn; rewrite Hid; cbn; by rewrite Hr).
      split; [by destruct (negb _ || _)|]. intros (_ & (r & (? & ? & ?) & _) & _). congruence. }
  assert (exists id, vs_route_id stream = Some id /\ remote_view_routes state !! id = Some route)
    as Hroute by eauto.
  assert ((exists r, attached browser stream state r) <->
    rt_state route = "ready"%string /\
    ob_display_agrees (observe browser stream state)
      && ob_browser_agrees (observe browser stream state) = true) as ->.
  { rewrite (agrees_iff _ _ _ _ Hroute). split.
    - intros (r & (id' & Hid' & Hr') & ? & ? & ?). assert (r = route) as -> by congruence. done.
    - intros (? & ? & ?). by exists route. }
  assert (ob_route_state (observe browser stream state) = rt_state route) as ->
    by (cbn; rewrite Hid; cbn; by rewrite Hr).
  set (o := observe browser stream state). clearbody o.
  destruct (ob_display_agrees o), (ob_browser_agrees o); cbn [negb orb andb];
    [|split; [discriminate|intros; destruct_and?; discriminate]..].
  destruct (bool_decide_reflect (rt_state route = "ready"%string)) as [->|Hne].
  - cbn [one_of existsb]. destruct (bool_decide_reflect (ob_route_pool_state o = "pending"%string));
      [naive_solver|]. cbn.
    destruct (bool_decide_reflect (ob_proof_state o = "ready"%string)); [|naive_solver].
    destruct (ob_has_active_viewer o || _) eqn:Hw; split; try discriminate; intros;
      destruct_and?; try done; by split_and!.
  - split; [by destruct (_ || _)|intros; destruct_and?; done].
Qed.

(** ** The refresh *)

Definition derived (browser : BrowserProcess) (state : ServiceState) (stream : ViewStream) : value :=
  derive_stream_attachability browser stream state.
Definition refreshed (browser : BrowserProcess) (state : ServiceState) (s s' : ViewStream) : Prop :=
  s' = if vs_provider s == RdpGateway then set_attachability (derived browser state s) s else s.

Definition rank_of (o : option value) : nat :=
  match o with Some v => attachability_rank v | None => 0 end.

Lemma better_rank current a :
  (rank_of current <= rank_of (better current a) /\
   attachability_rank a <= rank_of (better current a))%nat /\
  (better current a = Some a \/ better current a = current) /\ better current a <> None.
Proof.
  destruct current as [c|]; cbn [better rank_of]; [|split_and!; auto; lia].
  destruct (Nat.ltb_spec (attachability_rank c) (attachability_rank a)); cbn [rank_of];
    split_and!; try lia; auto.
Qed.

Lemma refresh_streams_spec browser state best streams best' streams' :
  refresh_streams browser state best streams = (best', streams') ->
  Forall2 (refreshed browser state) streams streams' /\
  (rank_of best <= rank_of best')%nat /\
  (forall s, In s streams -> vs_provider s = RdpGateway ->
     best' <> None /\ (attachability_rank (derived browser state s) <= rank_of best')%nat) /\
  (best <> None -> best' <> None) /\
  (best' = best \/ exists s, In s streams /\ vs_provider s = RdpGateway /\
     best' = Some (derived browser state s)).
Proof.
  revert best best' streams'. induction streams as [|s streams IH]; intros best best' streams'; cbn.
  { intros [= <- <-]. split_and!; [constructor|lia|done|done|by left]. }
  unfold refreshed. destruct (bool_decide_reflect (vs_provider s = RdpGateway)) as [Hp|Hp]; cbn [negb].
  - destruct (refresh_streams _ _ (better best _) streams) as [b l] eqn:Hrec.
    intros [= <- <-]. apply IH in Hrec as (Hl & Hle & Hin & Hne & Hor).
    destruct (better_rank best (derived browser state s)) as ([Hb1 Hb2] & Hb3 & Hb4).
    unfold derived in *. split_and!.
    + constructor; [|done]. by rewrite bool_decide_true.
    + lia.
    + intros s' [->|Hs'] Hp'; [split; [by apply Hne|lia]|by apply Hin].
    + intros _. by apply Hne.
    + destruct Hor as [->|(s' & ? & ? & ?)]; [|right; exists s'; auto].
      destruct Hb3 as [->| ->]; [right; exists s; auto|by left].
  - destruct (refresh_streams _ _ best streams) as [b l] eqn:Hrec.
    intros [= <- <-]. apply IH in Hrec as (Hl & Hle & Hin & Hne & Hor). split_and!.
    + constructor; [|done]. by rewrite bool_decide_false.
    + done.
    + intros s' [->|Hs'] Hp'; [done|by apply Hin].
    + done.
    + destruct Hor as [->|(s' & ? & ? & ?)]; [by left|right; exists s'; auto].
Qed.

(** A refresh reports every RDP stream by its own classification, other
    streams unchanged, and the browser by the best-ranked report among those and
    its base report; nothing else in the service state changes. *)
Theorem refresh_spec state id browser :
  browsers state !! id = Some browser ->
  exists browser', browsers (refresh_remote_view_attachability state) !! id = Some browser' /\
    Forall2 (refreshed browser state) (bp_view_streams browser) (bp_view_streams browser') /\
    (forall s, In s (bp_view_streams browser) -> vs_provider s = RdpGateway ->
       exists a, bp_attachability browser' = Some a /\
         (attachability_rank (derived browser state s) <= attachability_rank a)%nat) /\
    (rank_of (browser_base_attachability browser state)
       <= rank_of (bp_attachability browser'))%nat /\
    (bp_attachability browser' = browser_base_attachability browser state \/
     exists s, In s (bp_view_streams browser) /\ vs_provider s = RdpGateway /\
       bp_attachability browser' = Some (derived browser state s)).
Proof.
  intros Hb. exists (refresh_browser state browser). split.
  { cbn. by rewrite lookup_fmap, Hb. }
  unfold refresh_browser. destruct (refresh_streams _ _ _ _) as [best streams] eqn:Hrun.
  apply refresh_streams_spec in Hrun as (Hl & Hle & Hin & _ & Hor). cbn. split_and!; try done.
  intros s Hs Hp. destruct (Hin s Hs Hp) as [Hne Hrank]. destruct best as [a|]; [|done]. eauto.
Qed.
End attach.
End RemoteAttach.
