(* ===== verification/ServiceResources.v ===== *)
(** * Process resources and their collection

    Model of [cli/src/native/service_resources.rs]: processes are matched with
    the browsers, profiles and displays of the service state, classified, and
    the ones that are safe to collect are terminated after a review. *)

From S2P Require Import Prelude RustStr Env RemoteRoute.
From Stdlib Require Import Ascii.
From stdpp Require Import sorting pretty.

Local Open Scope Z_scope.

Module ServiceResources.

Definition TEMP_PROFILE_MIN_AGE_SECONDS : Z := 30 * 60.
Definition GC_REVIEW_TOKEN_TTL_SECONDS : Z := 10 * 60.

Abbreviation BrowserHealth := RemoteRoute.BrowserHealth.

Record ProcessSample := {
  ps_pid : Z;
  ps_ppid : option Z;
  ps_process_group_id : option Z;
  ps_executable : option string;
  ps_command : list string;
  ps_rss_bytes : option Z;
  ps_cpu_seconds : option Z;
  ps_age_seconds : option Z;
}.

(** The fields of the service state that are read here. *)
Record Browser := {
  bw_profile_id : option string;
  bw_health : BrowserHealth;
  bw_display_name : option string;
  bw_display_allocation_id : option string;
  bw_pid : option Z;
  bw_cdp_endpoint : option string;
  bw_active_session_ids : list string;
}.
Record Profile := {
  pf_name : string;
  pf_user_data_dir : option string;
  pf_persistent : bool;
}.
Record ServiceState := {
  browsers : gmap string Browser;
  profiles : gmap string Profile;
  (** the display name of each allocation *)
  display_allocations : gmap string (option string);
}.

Record ResourceCorrelation := {
  rc_browser_id : option string;
  rc_profile_id : option string;
  rc_session_ids : list string;
  rc_display_allocation_id : option string;
  rc_display_name : option string;
  rc_cdp_port : option Z;
  rc_profile_path : option string;
}.
Inductive ResourceKind := AgentBrowser | BrowserKind | RemoteDisplay | OtherKind.
Inductive ResourceDisposition := Protected | Candidate | Observed.
#[export] Instance ResourceKind_eq_dec : EqDecision ResourceKind.
Proof. solve_decision. Defined.
#[export] Instance ResourceDisposition_eq_dec : EqDecision ResourceDisposition.
Proof. solve_decision. Defined.

Record GcCandidateIdentity := {
  gi_pid : Z;
  gi_process_group_id : option Z;
  gi_kind : string;
  gi_action : string;
  gi_command_digest : string;
  gi_browser_id : option string;
  gi_profile_id : option string;
  gi_display_allocation_id : option string;
  gi_profile_path : option string;
}.
#[export] Instance GcCandidateIdentity_eq_dec : EqDecision GcCandidateIdentity.
Proof. solve_decision. Defined.

Record ResourceRecord := {
  rr_pid : Z;
  rr_ppid : option Z;
  rr_process_group_id : option Z;
  rr_executable : option string;
  rr_command_preview : string;
  rr_kind : ResourceKind;
  rr_correlation : ResourceCorrelation;
  rr_rss_bytes : option Z;
  rr_cpu_seconds : option Z;
  rr_age_seconds : option Z;
  rr_disposition : ResourceDisposition;
  rr_reasons : list string;
  rr_gc_action : option string;
  rr_candidate_identity : option GcCandidateIdentity;
}.

Record ResourceSummary := {
  sm_total_processes : nat;
  sm_correlated_processes : nat;
  sm_candidate_count : nat;
  sm_protected_count : nat;
  sm_observed_count : nat;
  sm_candidate_rss_bytes : Z;
  sm_total_rss_bytes : Z;
}.

(** ** Reading a command line *)

Fixpoint command_arg_value (command : list string) (flag : string) : option string :=
  match command with
  | [] => None
  | arg :: rest =>
      if arg == flag then head rest
      else match RustStr.strip_prefix (flag +:+ "=") arg with
           | Some value => Some value
           | None => command_arg_value rest flag
           end
  end.

Definition sanitize_command_preview (command : list string) : string :=
  str_join " " (map (fun arg =>
    if contains "token=" arg || contains "password" arg || contains "secret" arg
       || contains "Authorization" arg then "<redacted>"%string else arg)
    (take 16 command)).

Definition u16_max : Z := 65535.
Definition port_from_endpoint (endpoint : string) : option Z :=
  host_port ← head (split_on "/" endpoint);
  parse_unsigned u16_max
    (match rsplit_once ":" host_port with Some (_, port) => port | None => host_port end).

Definition same_pathish (a b : string) : bool :=
  let a := trim_end_matches "/" a in let b := trim_end_matches "/" b in
  (a == b) || ends_with b a || ends_with a b.

Definition temporary_profile_path (path : option string) : bool :=
  match path with
  | None => false
  | Some path =>
      starts_with "/tmp/" path || contains "/tmp/" path || contains "agent-browser-plan" path
      || contains "agent-browser-smoke" path || contains "chromium-stealthcdp" path
  end.

Definition unwrap_or {A} (d : A) (o : option A) : A := match o with Some a => a | None => d end.

Definition resource_kind (process : ProcessSample) (command_text : string)
    (profile_path : option string) (cdp_port : option Z) : ResourceKind :=
  let executable := str_map to_ascii_lowercase
    (match ps_executable process with
     | Some e => e
     | None => unwrap_or ""%string (head (ps_command process))
     end) in
  if contains "xvfb" executable || contains "Xvfb" command_text then RemoteDisplay
  else if contains "agent-browser" executable then AgentBrowser
  else if contains "chrome" executable || contains "chromium" executable
          || bool_decide (is_Some profile_path) || bool_decide (is_Some cdp_port)
  then BrowserKind else OtherKind.

Definition resource_kind_name (kind : ResourceKind) : string :=
  match kind with
  | AgentBrowser => "agent_browser"
  | BrowserKind => "browser"
  | RemoteDisplay => "remote_display"
  | OtherKind => "other"
  end.

(** ** Correlation with the service state *)

Definition correlated (browser_id : string) (browser : Browser) (cdp_port : option Z)
    (profile_path : option string) : ResourceCorrelation :=
  {| rc_browser_id := Some browser_id;
     rc_profile_id := bw_profile_id browser;
     rc_session_ids := bw_active_session_ids browser;
     rc_display_allocation_id := bw_display_allocation_id browser;
     rc_display_name := bw_display_name browser;
     rc_cdp_port := cdp_port;
     rc_profile_path := profile_path |}.
Definition uncorrelated (cdp_port : option Z) (profile_path : option string)
    : ResourceCorrelation :=
  {| rc_browser_id := None; rc_profile_id := None; rc_session_ids := [];
     rc_display_allocation_id := None; rc_display_name := None; rc_cdp_port := cdp_port;
     rc_profile_path := profile_path |}.

Definition correlate_port (state : ServiceState) (cdp_port : option Z)
    (profile_path : option string) : ResourceCorrelation :=
  match cdp_port with
  | Some port =>
      match List.find (fun p => (bw_cdp_endpoint p.2 ≫= port_from_endpoint) == Some port)
              (btree_entries (browsers state)) with
      | Some (browser_id, browser) => correlated browser_id browser cdp_port profile_path
      | None => uncorrelated cdp_port profile_path
      end
  | None => uncorrelated cdp_port profile_path
  end.

Definition correlate_profile (state : ServiceState) (c : ResourceCorrelation)
    : ResourceCorrelation :=
  match rc_profile_id c, rc_profile_path c with
  | None, Some path =>
      match List.find (fun p => match pf_user_data_dir p.2 with
                                | Some user_data_dir => same_pathish user_data_dir path
                                | None => false
                                end) (btree_entries (profiles state)) with
      | Some (profile_id, _) =>
          {| rc_browser_id := rc_browser_id c; rc_profile_id := Some profile_id;
             rc_session_ids := rc_session_ids c;
             rc_display_allocation_id := rc_display_allocation_id c;
             rc_display_name := rc_display_name c; rc_cdp_port := rc_cdp_port c;
             rc_profile_path := rc_profile_path c |}
      | None => c
      end
  | _, _ => c
  end.

Definition correlate_display (state : ServiceState) (command : list string)
    (c : ResourceCorrelation) : ResourceCorrelation :=
  match rc_display_allocation_id c with
  | Some _ => c
  | None =>
      let command_text := str_join " " command in
      match List.find (fun p => match p.2 with
                                | Some display_name => contains display_name command_text
                                | None => false
                                end) (btree_entries (display_allocations state)) with
      | Some (display_id, display_name) =>
          {| rc_browser_id := rc_browser_id c; rc_profile_id := rc_profile_id c;
             rc_session_ids := rc_session_ids c;
             rc_display_allocation_id := Some display_id;
             rc_display_name := display_name; rc_cdp_port := rc_cdp_port c;
             rc_profile_path := rc_profile_path c |}
      | None => c
      end
  end.

Definition correlate_process (state : ServiceState) (process : ProcessSample)
    (profile_path : option string) (cdp_port : option Z) : ResourceCorrelation :=
  match List.find (fun p => bw_pid p.2 == Some (ps_pid process))
          (btree_entries (browsers state)) with
  | Some (browser_id, browser) => correlated browser_id browser cdp_port profile_path
  | None =>
      correlate_display state (ps_command process)
        (correlate_profile state (correlate_port state cdp_port profile_path))
  end.

Definition retained_browser_pid_is_active (state : ServiceState) (browser_id : option string)
    : bool :=
  match browser_id ≫= fun id => browsers state !! id with
  | Some browser =>
      match bw_health browser with
      | RemoteRoute.NotStarted | RemoteRoute.ProcessExited | RemoteRoute.Faulted => false
      | _ => true
      end
  | None => false
  end.

Definition retained_profile_is_named_or_persistent (state : ServiceState) (profile_id : string)
    : bool :=
  match profiles state !! profile_id with
  | Some profile =>
      pf_persistent profile || negb (is_empty (trim (pf_name profile)))
      || match pf_user_data_dir profile with
         | Some path => negb (temporary_profile_path (Some path))
         | None => false
         end
  | None => false
  end.

(** ** Classification *)

Section gc.
Context `{!Crypto} `{!Serde GcCandidateIdentity}.

Definition digest_string (bytes : string) : string := hex_encode (sha256 bytes).
Definition command_digest (command : list string) : string :=
  digest_string (str_join (String "000" "") command).

(** The reasons for which a process is protected, in the order of the tests. *)
Definition protections (state : ServiceState) (dashboard_main_pid : option Z) (pid : Z)
    (c : ResourceCorrelation) : list string :=
  (if Some pid == dashboard_main_pid then ["dashboard_main_pid"%string] else []) ++
  (if bool_decide (is_Some (rc_browser_id c))
      && retained_browser_pid_is_active state (rc_browser_id c)
   then ["retained_active_browser"%string] else []) ++
  (if match rc_profile_id c with
      | Some profile_id => retained_profile_is_named_or_persistent state profile_id
      | None => false
      end then ["retained_named_or_persistent_profile"%string] else []) ++
  (if match rc_display_allocation_id c with
      | Some display_id => bool_decide (is_Some (display_allocations state !! display_id))
      | None => false
      end then ["retained_display_allocation"%string] else []).

Definition classify_process (state : ServiceState) (dashboard_main_pid : option Z)
    (process : ProcessSample) : option ResourceRecord :=
  let command_text := str_join " " (ps_command process) in
  let profile_path := command_arg_value (ps_command process) "--user-data-dir" in
  let cdp_port :=
    command_arg_value (ps_command process) "--remote-debugging-port" ≫= parse_unsigned u16_max in
  let kind := resource_kind process command_text profile_path cdp_port in
  if kind == OtherKind then None else
  let correlation := correlate_process state process profile_path cdp_port in
  let protected := protections state dashboard_main_pid (ps_pid process) correlation in
  let '(disposition, reasons, gc_action) :=
    match protected with
    | _ :: _ => (Protected, protected, None)
    | [] =>
        if temporary_profile_path (rc_profile_path correlation)
           && match ps_age_seconds process with
              | Some age => TEMP_PROFILE_MIN_AGE_SECONDS <=? age
              | None => false
              end
        then (Candidate, ["old_temporary_profile_process"%string], Some "terminate_process"%string)
        else if kind == RemoteDisplay
        then (Observed, ["unowned_remote_display_requires_manual_review"%string], None)
        else if bool_decide (rc_browser_id correlation = None) && (kind == AgentBrowser)
        then (Observed, ["agent_browser_process_unowned_by_service_state"%string], None)
        else if temporary_profile_path (rc_profile_path correlation)
        then (Observed, ["temporary_profile_too_fresh_or_unknown_age"%string], None)
        else (Observed, ["no_safe_gc_predicate_matched"%string], None)
    end in
  let candidate_identity :=
    (fun action =>
       {| gi_pid := ps_pid process;
          gi_process_group_id := ps_process_group_id process;
          gi_kind := resource_kind_name kind;
          gi_action := action;
          gi_command_digest := command_digest (ps_command process);
          gi_browser_id := rc_browser_id correlation;
          gi_profile_id := rc_profile_id correlation;
          gi_display_allocation_id := rc_display_allocation_id correlation;
          gi_profile_path := rc_profile_path correlation |}) <$> gc_action in
  Some {| rr_pid := ps_pid process;
          rr_ppid := ps_ppid process;
          rr_process_group_id := ps_process_group_id process;
          rr_executable := ps_executable process;
          rr_command_preview := sanitize_command_preview (ps_command process);
          rr_kind := kind;
          rr_correlation := correlation;
          rr_rss_bytes := ps_rss_bytes process;
          rr_cpu_seconds := ps_cpu_seconds process;
          rr_age_seconds := ps_age_seconds process;
          rr_disposition := disposition;
          rr_reasons := reasons;
          rr_gc_action := gc_action;
          rr_candidate_identity := candidate_identity |}.

Definition count (p : ResourceRecord -> bool) (records : list ResourceRecord) : nat :=
  length (List.filter p records).
Definition sum_rss (records : list ResourceRecord) : Z :=
  foldr Z.add 0 (omap rr_rss_bytes records).
Definition has_disposition (d : ResourceDisposition) (record : ResourceRecord) : bool :=
  rr_disposition record == d.

Definition summarize_resources (records : list ResourceRecord) : ResourceSummary :=
  {| sm_total_processes := length records;
     sm_correlated_processes := count (fun record =>
       let c := rr_correlation record in
       bool_decide (is_Some (rc_browser_id c)) || bool_decide (is_Some (rc_profile_id c))
       || bool_decide (is_Some (rc_display_allocation_id c))) records;
     sm_candidate_count := count (has_disposition Candidate) records;
     sm_protected_count := count (has_disposition Protected) records;
     sm_observed_count := count (has_disposition Observed) records;
     sm_candidate_rss_bytes := sum_rss (List.filter (has_disposition Candidate) records);
     sm_total_rss_bytes := sum_rss records |}.

(** [records.sort_by_key(|record| record.pid)] *)
Definition pid_le (a b : ResourceRecord) : Prop := rr_pid a <= rr_pid b.
#[export] Instance pid_le_dec a b : Decision (pid_le a b).
Proof. unfold pid_le. apply _. Defined.
Definition service_resource_authority (state : ServiceState) (dashboard_main_pid : option Z)
    (processes : list ProcessSample) : list ResourceRecord :=
  merge_sort pid_le (omap (classify_process state dashboard_main_pid) processes).

(** ** Review tokens *)

(** The records stand for the JSON the source makes of them. *)
Definition candidates_from (records : list ResourceRecord) : list ResourceRecord :=
  List.filter (has_disposition Candidate) records.

Definition canonical_json (identity : option GcCandidateIdentity) : string :=
  match identity ≫= to_vec with Some text => text | None => "null" end.
Definition candidate_digest (candidates : list ResourceRecord) : string :=
  digest_string (str_join (String "010" "")
    (merge_sort str_le (map (fun c => canonical_json (rr_candidate_identity c)) candidates))).

Definition review_token_for_candidates (candidates : list ResourceRecord) (issued_at : Z)
    : string :=
  fmt ["abgc1:"; pretty issued_at; ":"; candidate_digest candidates].

Definition validate_review_token (candidates : list ResourceRecord) (token : string) (now : Z)
    : res unit :=
  match split_on ":" token with
  | [] => Err "missing_review_token_prefix"
  | prefix :: parts =>
      match head parts ≫= parse_unsigned u64_max with
      | None => Err "invalid_review_token_timestamp"
      | Some issued_at =>
          match tail parts with
          | [] => Err "missing_review_token_digest"
          | digest :: more =>
              _ ← reject_if ((prefix != "abgc1"%string)
                             || match more with [] => false | _ => true end)
                    "invalid_review_token_format"%string;
              _ ← reject_if (now <? issued_at) "review_token_from_future"%string;
              _ ← reject_if (GC_REVIEW_TOKEN_TTL_SECONDS <? u64_saturating_sub now issued_at)
                    "review_token_expired"%string;
              reject_if (digest != candidate_digest candidates)
                "review_token_candidate_mismatch"%string
          end
      end
  end.

(** ** Applying a collection *)

(** Signals of [terminate_pid]: what the process table and [kill] answer. *)
Record Signals := {
  sg_running : bool;
  sg_sigterm : bool;
  sg_running_after_term : bool;
  sg_sigkill : bool;
  sg_running_after_kill : bool;
}.
Inductive Outcome :=
| AlreadyExited | TerminatedBy (signal : string) | FailedOutcome (reason : string).
Definition terminate_pid (s : Signals) : Outcome :=
  if negb (sg_running s) then AlreadyExited
  else if negb (sg_sigterm s) then FailedOutcome "sigterm_failed"
  else if negb (sg_running_after_term s) then TerminatedBy "SIGTERM"
  else if negb (sg_sigkill s) then FailedOutcome "sigkill_failed"
  else if sg_running_after_kill s then FailedOutcome "process_survived_sigkill"
  else TerminatedBy "SIGKILL".

(** What the environment answers at each candidate in turn: the dashboard's pid,
    a fresh sample of the process, and the effect of the signals. *)
Record Moment := {
  mo_dashboard_main_pid : option Z;
  mo_sample : Z -> option ProcessSample;
  mo_signals : Signals;
}.

Definition candidate_identity_still_matches (state : ServiceState) (moment : Moment)
    (candidate : ResourceRecord) (expected : option GcCandidateIdentity) : bool :=
  match mo_sample moment (rr_pid candidate) with
  | None => false
  | Some sample =>
      match classify_process state (mo_dashboard_main_pid moment) sample with
      | Some current =>
          (rr_disposition current == Candidate)
          && bool_decide (is_Some (rr_candidate_identity current))
          && (rr_candidate_identity current == expected)
      | None => false
      end
  end.

Inductive Step :=
| Terminated (pid : Z) (outcome : Outcome)
| Skipped (pid : Z) (reason : string)
| FailedStep (pid : Z) (outcome : Outcome).
Definition signalled (step : Step) : option Z :=
  match step with Terminated pid _ | FailedStep pid _ => Some pid | Skipped _ _ => None end.

(** [terminator.terminate] takes an [i32]. *)
Definition i32_max : Z := 2147483647.
Definition gc_candidate (state : ServiceState) (moment : Moment) (candidate : ResourceRecord)
    : Step :=
  let identity := rr_candidate_identity candidate in
  if negb (candidate_identity_still_matches state moment candidate identity)
  then Skipped (rr_pid candidate) "candidate_identity_changed"
  else if i32_max <? rr_pid candidate then Skipped (rr_pid candidate) "missing_pid"
  else
    let outcome := terminate_pid (mo_signals moment) in
    match outcome with
    | AlreadyExited | TerminatedBy _ => Terminated (rr_pid candidate) outcome
    | FailedOutcome _ => FailedStep (rr_pid candidate) outcome
    end.

Inductive GcResponse :=
| Refused (candidate_count : nat) (error : string)
| Applied (applied : bool) (mode : string) (steps : list Step).

Definition is_failed (step : Step) : bool :=
  match step with FailedStep _ _ => true | _ => false end.

(** The environment's answers, one for each candidate. *)
Definition service_gc_apply (state : ServiceState) (dashboard_main_pid : option Z)
    (processes : list ProcessSample) (review_token : option string) (force_without_review : bool)
    (now : Z) (moments : nat -> Moment) : GcResponse :=
  let candidates :=
    candidates_from (service_resource_authority state dashboard_main_pid processes) in
  let mode :=
    if force_without_review then Ok "force_without_review"%string else
    match review_token with
    | Some token =>
        _ ← validate_review_token candidates token now; Ok "review_token"%string
    | None => Err "review_token_required"%string
    end in
  match mode with
  | Err error => Refused (length candidates) error
  | Ok mode =>
      let steps := imap (fun i => gc_candidate state (moments i)) candidates in
      Applied (negb (existsb is_failed steps)) mode steps
  end.

(** [service_gc_dry_run_response]: the candidates and their token. *)
Definition service_gc_dry_run (state : ServiceState) (dashboard_main_pid : option Z)
    (processes : list ProcessSample) (issued_at : Z) : list ResourceRecord * string :=
  let candidates :=
    candidates_from (service_resource_authority state dashboard_main_pid processes) in
  (candidates, review_token_for_candidates candidates issued_at).

End gc.

End ServiceResources.
