(* ===== verification/ServiceResourcesProofs.v ===== *)
(** * What the collection of processes guarantees

    Only processes that are safe to collect at that very moment are signalled,
    and only after a review of exactly these processes. *)

From S2P Require Import Prelude RustStr Env Toy RemoteRoute ServiceResources.
From Stdlib Require Import Ascii.
From stdpp Require Import sorting pretty.
Import ServiceResources.

Local Open Scope Z_scope.

Module ServiceResourcesProofs.

Section gc.
Context `{!Crypto} `{!Serde GcCandidateIdentity}.

#[local] Opaque temporary_profile_path.

(** ** Classification *)

(** A process that the service state vouches for. *)
Definition vouched (state : ServiceState) (dashboard_main_pid : option Z) (pid : Z)
    (c : ResourceCorrelation) : Prop :=
  dashboard_main_pid = Some pid \/
  (exists id browser, rc_browser_id c = Some id /\ browsers state !! id = Some browser /\
     bw_health browser ∉ [RemoteRoute.NotStarted; RemoteRoute.ProcessExited; RemoteRoute.Faulted]) \/
  (exists id profile, rc_profile_id c = Some id /\ profiles state !! id = Some profile /\
     (pf_persistent profile = true \/ trim (pf_name profile) <> ""%string \/
      exists path, pf_user_data_dir profile = Some path /\
        temporary_profile_path (Some path) = false)) \/
  (exists id, rc_display_allocation_id c = Some id /\ is_Some (display_allocations state !! id)).

(** An old process on a temporary profile. *)
Definition stale (process : ProcessSample) (c : ResourceCorrelation) : Prop :=
  temporary_profile_path (rc_profile_path c) = true /\
  exists age, ps_age_seconds process = Some age /\ TEMP_PROFILE_MIN_AGE_SECONDS <= age.

Lemma active_iff state id :
  retained_browser_pid_is_active state id = true <->
  exists i browser, id = Some i /\ browsers state !! i = Some browser /\
    bw_health browser ∉ [RemoteRoute.NotStarted; RemoteRoute.ProcessExited; RemoteRoute.Faulted].
Proof.
  unfold retained_browser_pid_is_active. destruct id as [i|]; cbn; [|naive_solver].
  destruct (browsers state !! i) as [browser|] eqn:Hb; [|naive_solver]. split.
  - intros Hh. exists i, browser. split_and!; [done..|].
    destruct (bw_health browser); try done; set_solver.
  - intros (i' & browser' & [= <-] & Hb' & Hh). simplify_eq.
    destruct (bw_health _); try done; set_solver.
Qed.
Lemma named_iff state id :
  retained_profile_is_named_or_persistent state id = true <->
  exists profile, profiles state !! id = Some profile /\
    (pf_persistent profile = true \/ trim (pf_name profile) <> ""%string \/
     exists path, pf_user_data_dir profile = Some path /\
       temporary_profile_path (Some path) = false).
Proof.
  unfold retained_profile_is_named_or_persistent, is_empty.
  destruct (profiles state !! id) as [profile|]; [|naive_solver].
  rewrite !orb_true_iff, negb_true_iff, bool_decide_eq_false.
  transitivity (pf_persistent profile = true \/ trim (pf_name profile) <> ""%string \/
    exists path, pf_user_data_dir profile = Some path /\ temporary_profile_path (Some path) = false).
  2:{ split; [intros Hp; by exists profile|]. by intros (p & [= <-] & Hp). }
  rewrite Logic.or_assoc. do 2 f_equiv. destruct (pf_user_data_dir profile) as [path|].
  - rewrite negb_true_iff. split; [by exists path|]. by intros (path' & [= <-] & Hp).
  - split; [done|]. by intros (path & ? & _).
Qed.

Lemma test_app (b : bool) (x : string) (l : list string) :
  (if b then [x] else []) ++ l <> [] <-> b = true \/ l <> [].
Proof. destruct b; naive_solver. Qed.
Lemma test_only (b : bool) (x : string) : (if b then [x] else []) <> [] <-> b = true.
Proof. destruct b; naive_solver. Qed.

Lemma protections_iff state dash pid c :
  protections state dash pid c <> [] <-> vouched state dash pid c.
Proof.
  unfold protections, vouched. rewrite !test_app, test_only, bool_decide_eq_true.
  f_equiv; [naive_solver|]. f_equiv; [|f_equiv].
  - rewrite andb_true_iff, active_iff, bool_decide_eq_true. split; [by intros [_ ?]|].
    intros (i & b & Hi & Hb). split; [by rewrite Hi|]. by exists i, b.
  - destruct (rc_profile_id c) as [id|]; [rewrite named_iff|]; naive_solver.
  - destruct (rc_display_allocation_id c) as [id|]; [rewrite bool_decide_eq_true|]; naive_solver.
Qed.

Lemma protections_nil state dash pid c :
  protections state dash pid c = [] <-> ~ vouched state dash pid c.
Proof. rewrite <-protections_iff. destruct (protections _ _ _ _); naive_solver. Qed.

Lemma stale_iff process c :
  temporary_profile_path (rc_profile_path c)
  && match ps_age_seconds process with
     | Some age => TEMP_PROFILE_MIN_AGE_SECONDS <=? age
     | None => false
     end = true <-> stale process c.
Proof.
  unfold stale. rewrite andb_true_iff. f_equiv. destruct (ps_age_seconds process) as [age|].
  - rewrite Z.leb_le. split; [by exists age|]. by intros (age' & [= <-] & ?).
  - split; [done|]. by intros (age & ? & _).
Qed.

(** What a record says of the process it was made of. *)
Lemma classify_inv state dash process record :
  classify_process state dash process = Some record ->
  let c := rr_correlation record in
  rr_pid record = ps_pid process /\
  (rr_disposition record = Protected <-> vouched state dash (ps_pid process) c) /\
  (rr_disposition record = Candidate
   <-> ~ vouched state dash (ps_pid process) c /\ stale process c) /\
  (is_Some (rr_candidate_identity record) <-> rr_disposition record = Candidate) /\
  (forall identity, rr_candidate_identity record = Some identity ->
     gi_pid identity = ps_pid process /\
     gi_command_digest identity = command_digest (ps_command process)).
Proof.
  unfold classify_process. destruct (bool_decide _); [done|].
  set (c := correlate_process _ _ _ _).
  pose proof (protections_iff state dash (ps_pid process) c) as Hv.
  pose proof (stale_iff process c) as Hs.
  destruct (protections _ _ _ _) as [|x l].
  - assert (~ vouched state dash (ps_pid process) c) as Hn by (rewrite <-Hv; naive_solver).
    destruct (_ && _) eqn:Hb.
    + intros [= <-]. cbn.
      split; [done|split; [naive_solver|split; [|split; [split; eauto|naive_solver]]]].
      split; [|done]. intros _. split; [done|by apply Hs].
    + assert (~ stale process c) as Hns by (rewrite <-Hs; congruence).
      match goal with |- context [if ?a then ?x else ?y] =>
        assert (exists reasons, (if a then x else y) = (Observed, reasons, None)) as [reasons ->]
          by (repeat match goal with |- context [if ?b then _ else _] => destruct b end; eauto)
      end. intros [= <-]. cbn.
      split; [done|split; [naive_solver|split; [naive_solver|split; [|done]]]].
      split; [by intros [? ?]|done].
  - assert (vouched state dash (ps_pid process) c) as Hy by (apply Hv; done).
    intros [= <-]. cbn.
    split; [done|split; [naive_solver|split; [naive_solver|split; [|done]]]].
    split; [by intros [? ?]|done].
Qed.

(** A process is a candidate for collection exactly when nothing in the
    service state vouches for it - it is not the dashboard, its browser is not
    active, its profile is neither named nor persistent nor kept outside the
    temporary directories, its display is not retained - and it is at least half
    an hour old on a temporary profile. Only a candidate has an identity that can
    be reviewed. *)
Theorem candidate_iff state dash process record :
  classify_process state dash process = Some record ->
  let c := rr_correlation record in
  (rr_disposition record = Candidate <-> ~ vouched state dash (ps_pid process) c /\ stale process c) /\
  (rr_disposition record = Protected <-> vouched state dash (ps_pid process) c) /\
  (is_Some (rr_candidate_identity record) <-> rr_disposition record = Candidate).
Proof. intros Hr. destruct (classify_inv _ _ _ _ Hr) as (_ & Hp & Hc & Hi & _). done. Qed.

(** ** Review tokens *)

Lemma token_parts candidates issued_at :
  0 <= issued_at ->
  split_on ":" (review_token_for_candidates candidates issued_at)
    = ["abgc1"%string; pretty issued_at; candidate_digest candidates].
Proof.
  intros Ht. destruct (pretty_digits issued_at Ht) as (Hd & _ & _).
  unfold review_token_for_candidates, fmt. cbn [foldr].
  change ("abgc1:" +:+ ?s) with ("abgc1" +:+ String ":" s).
  rewrite split_on_app by reflexivity. f_equal.
  change (":" +:+ ?s) with (String ":" s).
  rewrite split_on_app by (by apply (lacks_impl is_ascii_digit)). f_equal.
  rewrite string_app_nil_r.
  apply split_on_last, (lacks_impl is_lower_hex); [done|]. apply hex_encode_lower.
Qed.

(** A review token admits exactly what was reviewed, for ten minutes. A
    token that was issued for the candidates of a dry run is accepted if and only
    if it is presented no earlier than it was issued and at most 600 seconds
    later, and the digest of the identities of the present candidates is the one
    that was reviewed; the same candidates in any order have the same digest.
    The refusals come in the order of the source. *)
Theorem review_token_spec candidates current issued_at now :
  u64 issued_at -> u64 now ->
  validate_review_token current (review_token_for_candidates candidates issued_at) now
    = (if now <? issued_at then Err "review_token_from_future"%string
       else if GC_REVIEW_TOKEN_TTL_SECONDS <? now - issued_at
       then Err "review_token_expired"%string
       else if candidate_digest candidates == candidate_digest current then Ok tt
       else Err "review_token_candidate_mismatch"%string) /\
  (candidates ≡ₚ current -> candidate_digest candidates = candidate_digest current).
Proof.
  intros Ht Hn. split.
  - unfold validate_review_token. rewrite token_parts by (unfold u64 in Ht; lia). cbn [head tail].
    cbn [mbind option_bind]. rewrite parse_unsigned_pretty by done. cbn.
    destruct (Z.ltb_spec now issued_at); cbn; [done|].
    unfold u64_saturating_sub. rewrite Z.max_r by lia.
    destruct (_ <? _); cbn; [done|]. by destruct (bool_decide _).
  - intros Hp. unfold candidate_digest. do 2 f_equal. apply sort_texts_perm. by rewrite Hp.
Qed.

(** ** Collecting *)

Lemma still_matches state moment candidate :
  candidate_identity_still_matches state moment candidate (rr_candidate_identity candidate) = true ->
  exists sample current, mo_sample moment (rr_pid candidate) = Some sample /\
    classify_process state (mo_dashboard_main_pid moment) sample = Some current /\
    rr_disposition current = Candidate /\ is_Some (rr_candidate_identity current) /\
    rr_candidate_identity current = rr_candidate_identity candidate.
Proof.
  unfold candidate_identity_still_matches.
  destruct (mo_sample _ _) as [sample|]; [|done].
  destruct (classify_process _ _ _) as [current|] eqn:Hc; [|done].
  rewrite !andb_true_iff, !bool_decide_eq_true. intros [[Hd Hi] He]. eauto 10.
Qed.

Lemma signalled_inv state moment candidate pid :
  signalled (gc_candidate state moment candidate) = Some pid ->
  pid = rr_pid candidate /\
  candidate_identity_still_matches state moment candidate (rr_candidate_identity candidate) = true.
Proof.
  unfold gc_candidate.
  destruct (candidate_identity_still_matches _ _ _ _); cbn; [|done].
  destruct (_ <? _); cbn; [done|]. destruct (terminate_pid _); cbn; by intros [= <-].
Qed.

(** C33. The collection signals only what may be signalled. Nothing is signalled
    without a review token that is valid for the present candidates, unless the
    review was waived; and each process that is signalled was sampled again
    immediately before: at that moment it was a candidate, with the same identity
    (process, group, command line, browser, profile and display) as the candidate
    of the review, so nothing in the service state vouched for it and it was
    stale. *)
Theorem gc_signals_only_candidates state dash processes token force now moments applied mode steps :
  service_gc_apply state dash processes token force now moments = Applied applied mode steps ->
  let candidates := candidates_from (service_resource_authority state dash processes) in
  (force = true \/
   exists t, token = Some t /\ validate_review_token candidates t now = Ok tt) /\
  forall i step pid, steps !! i = Some step -> signalled step = Some pid ->
    exists candidate sample current,
      candidates !! i = Some candidate /\ rr_pid candidate = pid /\
      mo_sample (moments i) pid = Some sample /\
      classify_process state (mo_dashboard_main_pid (moments i)) sample = Some current /\
      rr_candidate_identity current = rr_candidate_identity candidate /\
      ~ vouched state (mo_dashboard_main_pid (moments i)) (ps_pid sample) (rr_correlation current) /\
      stale sample (rr_correlation current).
Proof.
  unfold service_gc_apply. cbn zeta.
  set (candidates := candidates_from _). intros Happly.
  assert (exists m, (if force then Ok "force_without_review"%string else
      match token with
      | Some t => _ ← validate_review_token candidates t now; Ok "review_token"%string
      | None => Err "review_token_required"%string
      end) = Ok m /\ steps = imap (fun i => gc_candidate state (moments i)) candidates)
    as (m & Hm & ->).
  { destruct (if force then _ else _) as [m|e]; [|done]. simplify_eq. by eexists. }
  split.
  - destruct force; [by left|right]. destruct token as [t|]; [|done]. exists t. split; [done|].
    apply result_bind_ok in Hm as ([] & Hv & _). done.
  - intros i step pid Hi Hpid. rewrite list_lookup_imap in Hi.
    apply fmap_Some in Hi as (candidate & Hc & ->).
    apply signalled_inv in Hpid as [-> Hmatch].
    apply still_matches in Hmatch as (sample & current & Hs & Hcl & Hd & _ & Hid).
    exists candidate, sample, current.
    destruct (classify_inv _ _ _ _ Hcl) as (_ & _ & Hcand & _).
    apply Hcand in Hd as [? ?]. done.
Qed.

(** ** The summary *)

Lemma count_cons p r l : count p (r :: l) = ((if p r then 1 else 0) + count p l)%nat.
Proof. unfold count. cbn. by destruct (p r). Qed.
Lemma count_le p l : (count p l <= length l)%nat.
Proof. induction l as [|r l IH]; [done|]. rewrite count_cons. cbn. destruct (p r); lia. Qed.
Lemma count_partition l :
  (count (has_disposition Candidate) l + count (has_disposition Protected) l
   + count (has_disposition Observed) l)%nat = length l.
Proof.
  induction l as [|r l IH]; [done|]. rewrite !count_cons. cbn [length]. rewrite <-IH. unfold has_disposition.
  destruct (rr_disposition r); repeat case_bool_decide; try congruence; lia.
Qed.
Lemma sum_rss_cons r l :
  sum_rss (r :: l) = match rr_rss_bytes r with Some rss => rss | None => 0 end + sum_rss l.
Proof. unfold sum_rss. cbn. by destruct (rr_rss_bytes r). Qed.
Lemma sum_rss_filter p l :
  (forall r rss, r ∈ l -> rr_rss_bytes r = Some rss -> 0 <= rss) ->
  0 <= sum_rss (List.filter p l) <= sum_rss l.
Proof.
  induction l as [|r l IH]; intros Hl; [done|]. cbn [List.filter].
  specialize (IH (fun r' rss Hr => Hl r' rss (proj2 (elem_of_cons _ _ _) (or_intror Hr)))).
  pose proof (fun rss => Hl r rss (proj2 (elem_of_cons _ _ _) (or_introl eq_refl))) as Hr.
  rewrite (sum_rss_cons r l).
  assert (0 <= match rr_rss_bytes r with Some rss => rss | None => 0 end)
    by (destruct (rr_rss_bytes r); [by apply Hr|done]).
  destruct (p r); [rewrite sum_rss_cons|]; lia.
Qed.

(** The summary accounts for every process: candidates, protected and
    observed processes add up to the total, the memory that would be reclaimed is
    part of the memory that is used. *)
Theorem summary_partition records :
  (forall r rss, r ∈ records -> rr_rss_bytes r = Some rss -> 0 <= rss) ->
  let s := summarize_resources records in
  (sm_candidate_count s + sm_protected_count s + sm_observed_count s)%nat = sm_total_processes s /\
  (sm_correlated_processes s <= sm_total_processes s)%nat /\
  0 <= sm_candidate_rss_bytes s <= sm_total_rss_bytes s.
Proof.
  intros Hrss. cbn. split; [apply count_partition|]. split; [apply count_le|].
  by apply sum_rss_filter.
Qed.
End gc.
End ServiceResourcesProofs.
