(* ===== verification/BrowserAuthority.v ===== *)
(** * Browser session authority

    Model of [cli/src/native/browser_session_authority.rs]: which browsers of the
    service state are viable, from their health and from the processes that are
    candidates for collection. *)

From S2P Require Import Prelude RustStr Env RemoteRoute ServiceResources.
From Stdlib Require Import Ascii.
From stdpp Require Import sorting.
Import ServiceResources.

Local Open Scope Z_scope.

Module BrowserAuthority.

(** The part of [ResourceAuthoritySnapshot] that is read. *)
Record ResourceAuthoritySnapshot := {
  rs_summary : ResourceSummary;
  rs_resources : list ResourceRecord;
  rs_collection_warnings : list string;
}.

Record BrowserSessionAuthorityVerdict := {
  v_browser_id : string;
  v_state : string;
  v_viable : bool;
  v_needs_attention : bool;
  v_reasons : list string;
}.
Record BrowserSessionAuthoritySummary := {
  modeled_browser_count : nat;
  viable_browser_count : nat;
  attention_browser_count : nat;
  non_viable_browser_count : nat;
}.
Record BrowserSessionResourcePressure := {
  bp_state : string;
  bp_total_process_count : nat;
  bp_correlated_process_count : nat;
  bp_candidate_count : nat;
  bp_protected_count : nat;
  bp_observed_count : nat;
  bp_observed_unowned_agent_browser_process_count : nat;
  bp_candidate_rss_bytes : Z;
  bp_total_rss_bytes : Z;
  bp_reasons : list string;
}.
Record BrowserSessionAuthoritySnapshot := {
  schema_version : Z;
  summary : BrowserSessionAuthoritySummary;
  pressure : BrowserSessionResourcePressure;
  browser_verdicts : list BrowserSessionAuthorityVerdict;
}.

Definition browser_health_non_viable (health : BrowserHealth) : bool :=
  match health with
  | RemoteRoute.NotStarted | RemoteRoute.ProcessExited | RemoteRoute.Closing
  | RemoteRoute.Faulted | RemoteRoute.Unreachable | RemoteRoute.CdpDisconnected
  | RemoteRoute.Degraded => true
  | _ => false
  end.
Definition browser_health_expects_process (health : BrowserHealth) : bool :=
  negb (browser_health_non_viable health).
Definition browser_health_label (health : BrowserHealth) : string :=
  match health with
  | RemoteRoute.NotStarted => "not_started"
  | RemoteRoute.Launching => "launching"
  | RemoteRoute.Ready => "ready"
  | RemoteRoute.Unreachable => "unreachable"
  | RemoteRoute.CdpDisconnected => "cdp_disconnected"
  | RemoteRoute.Reconnecting => "reconnecting"
  | RemoteRoute.ProcessExited => "process_exited"
  | RemoteRoute.Closing => "closing"
  | RemoteRoute.Faulted => "faulted"
  | RemoteRoute.Degraded => "degraded"
  end.

Definition candidate_reasons_by_browser (resources : ResourceAuthoritySnapshot)
    : gmap string (list string) :=
  foldl (fun reasons resource =>
    if has_disposition Candidate resource then
      match rc_browser_id (rr_correlation resource) with
      | Some browser_id =>
          <[browser_id := default [] (reasons !! browser_id) ++ rr_reasons resource]> reasons
      | None => reasons
      end
    else reasons) ∅ (rs_resources resources).

Definition resource_pressure (resources : ResourceAuthoritySnapshot)
    : BrowserSessionResourcePressure :=
  let unowned := count (fun resource =>
    (rr_kind resource == AgentBrowser) && has_disposition Observed resource
    && bool_decide (rc_browser_id (rr_correlation resource) = None)
    && existsb (fun reason => reason == "agent_browser_process_unowned_by_service_state"%string)
         (rr_reasons resource)) (rs_resources resources) in
  let s := rs_summary resources in
  let reasons :=
    (if (0 <? sm_candidate_count s)%nat then ["cleanup_candidates_present"%string] else []) ++
    (if (0 <? unowned)%nat then ["unowned_agent_browser_processes_observed"%string] else []) ++
    (match rs_collection_warnings resources with
     | [] => []
     | _ => ["process_collection_warnings_present"%string]
     end) in
  {| bp_state := match reasons with [] => "clear" | _ => "pressure" end;
     bp_total_process_count := sm_total_processes s;
     bp_correlated_process_count := sm_correlated_processes s;
     bp_candidate_count := sm_candidate_count s;
     bp_protected_count := sm_protected_count s;
     bp_observed_count := sm_observed_count s;
     bp_observed_unowned_agent_browser_process_count := unowned;
     bp_candidate_rss_bytes := sm_candidate_rss_bytes s;
     bp_total_rss_bytes := sm_total_rss_bytes s;
     bp_reasons := reasons |}.

Definition correlates : string := "cleanup_candidate_process_correlates_to_browser".

Definition browser_verdict (candidate_reasons : gmap string (list string)) (browser_id : string)
    (browser : Browser) : BrowserSessionAuthorityVerdict :=
  let reasons :=
    match candidate_reasons !! browser_id with
    | Some reasons => correlates :: reasons
    | None => []
    end ++
    if browser_health_non_viable (bw_health browser)
    then [fmt ["browser_health_"; browser_health_label (bw_health browser)]] else [] in
  let '(state, reasons) :=
    if existsb (fun reason => reason == correlates) reasons
       || browser_health_non_viable (bw_health browser)
    then ("non_viable"%string, reasons)
    else if bool_decide (bw_pid browser = None) && browser_health_expects_process (bw_health browser)
    then ("attention"%string, reasons ++ ["live_browser_missing_pid"%string])
    else ("viable"%string, reasons) in
  {| v_browser_id := browser_id;
     v_state := state;
     v_viable := state == "viable"%string;
     v_needs_attention := state != "viable"%string;
     v_reasons := reasons |}.

Definition count_state (state : string) (verdicts : list BrowserSessionAuthorityVerdict) : nat :=
  length (List.filter (fun v => v_state v == state) verdicts).

(** [browser_verdicts.sort_by(browser_id)] *)
Definition verdict_le (a b : BrowserSessionAuthorityVerdict) : Prop :=
  str_le (v_browser_id a) (v_browser_id b).
#[export] Instance verdict_le_dec a b : Decision (verdict_le a b).
Proof. unfold verdict_le. apply _. Defined.

Definition browser_session_authority_snapshot_from_resources (state : ServiceState)
    (resources : ResourceAuthoritySnapshot) : BrowserSessionAuthoritySnapshot :=
  let candidate_reasons := candidate_reasons_by_browser resources in
  let verdicts := merge_sort verdict_le
    (map (fun p => browser_verdict candidate_reasons p.1 p.2) (btree_entries (browsers state))) in
  {| schema_version := 1;
     summary := {| modeled_browser_count := length verdicts;
                   viable_browser_count := count_state "viable" verdicts;
                   attention_browser_count := count_state "attention" verdicts;
                   non_viable_browser_count := count_state "non_viable" verdicts |};
     pressure := resource_pressure resources;
     browser_verdicts := verdicts |}.

(** ** What a verdict means *)

(** A process that is to be collected belongs to the browser. *)
Definition condemned (resources : ResourceAuthoritySnapshot) (browser_id : string) : Prop :=
  exists resource, resource ∈ rs_resources resources /\ rr_disposition resource = Candidate /\
    rc_browser_id (rr_correlation resource) = Some browser_id.

Lemma candidate_reasons_some resources browser_id :
  is_Some (candidate_reasons_by_browser resources !! browser_id)
  <-> condemned resources browser_id.
Proof.
  unfold candidate_reasons_by_browser, condemned.
  set (step := fun _ _ => _).
  assert (forall l m, is_Some (foldl step m l !! browser_id) <->
    is_Some (m !! browser_id) \/ exists resource, resource ∈ l /\
      rr_disposition resource = Candidate /\
      rc_browser_id (rr_correlation resource) = Some browser_id) as Hgen.
  { induction l as [|r l IH]; intros m; cbn [foldl].
    - split; [by left|]. intros [?|(r & Hr & _)]; [done|]. by apply not_elem_of_nil in Hr.
    - rewrite IH. assert (is_Some (step m r !! browser_id) <-> is_Some (m !! browser_id) \/
        rr_disposition r = Candidate /\ rc_browser_id (rr_correlation r) = Some browser_id) as ->.
      { unfold step, has_disposition. case_bool_decide as Hd; [|naive_solver].
        destruct (rc_browser_id (rr_correlation r)) as [id|]; [|naive_solver].
        destruct (decide (id = browser_id)) as [->|Hne].
        - rewrite lookup_insert_eq. naive_solver.
        - rewrite lookup_insert_ne by done. naive_solver. }
      setoid_rewrite elem_of_cons. naive_solver. }
  rewrite Hgen, lookup_empty. split; [|by right]. by intros [[? ?]|?].
Qed.

Lemma count_state_cons state v l :
  count_state state (v :: l)
    = ((if bool_decide (v_state v = state) then 1 else 0) + count_state state l)%nat.
Proof. unfold count_state. cbn. by case_bool_decide. Qed.

Lemma verdict_spec candidate_reasons browser_id browser :
  let v := browser_verdict candidate_reasons browser_id browser in
  v_browser_id v = browser_id /\
  (v_state v = "non_viable"%string <->
     is_Some (candidate_reasons !! browser_id) \/ browser_health_non_viable (bw_health browser) = true) /\
  (v_state v = "attention"%string <->
     candidate_reasons !! browser_id = None /\
     browser_health_non_viable (bw_health browser) = false /\ bw_pid browser = None) /\
  (v_state v = "viable"%string <->
     candidate_reasons !! browser_id = None /\
     browser_health_non_viable (bw_health browser) = false /\ is_Some (bw_pid browser)) /\
  v_viable v = bool_decide (v_state v = "viable"%string) /\
  v_needs_attention v = negb (v_viable v).
Proof.
  unfold browser_verdict, browser_health_expects_process.
  destruct (candidate_reasons !! browser_id) as [reasons|] eqn:Hr; cbn.
  - destruct (browser_health_non_viable (bw_health browser)); cbn; naive_solver.
  - destruct (browser_health_non_viable (bw_health browser)) eqn:Hh; cbn.
    + rewrite orb_true_r. naive_solver.
    + destruct (bw_pid browser); cbn; naive_solver.
Qed.

Lemma not_condemned resources browser_id :
  candidate_reasons_by_browser resources !! browser_id = None <-> ~ condemned resources browser_id.
Proof. by rewrite <-candidate_reasons_some, eq_None_not_Some. Qed.

Lemma count_states (l : list BrowserSessionAuthorityVerdict) :
  (forall v, v ∈ l -> v_state v ∈ ["viable"; "attention"; "non_viable"]%string) ->
  (count_state "viable" l + count_state "attention" l + count_state "non_viable" l)%nat = length l.
Proof.
  induction l as [|v l IH]; intros Hl; [done|]. rewrite !count_state_cons. cbn [length].
  rewrite <-IH by (intros v' Hv; apply Hl, elem_of_cons; by right).
  assert (v_state v ∈ ["viable"; "attention"; "non_viable"]%string) as Hv
    by (apply Hl, elem_of_cons; by left).
  repeat (apply elem_of_cons in Hv as [He|Hv];
    [rewrite He; repeat case_bool_decide; try congruence; lia|]). by apply not_elem_of_nil in Hv.
Qed.

Lemma verdict_state candidate_reasons browser_id browser :
  v_state (browser_verdict candidate_reasons browser_id browser)
    ∈ ["viable"; "attention"; "non_viable"]%string.
Proof.
  unfold browser_verdict. destruct (_ || _); cbn; [set_solver|].
  destruct (_ && _); cbn; set_solver.
Qed.

(** Every browser of the service state gets exactly one verdict, and the
    verdict means what it says: a browser is viable exactly when no process that
    is to be collected belongs to it, its health is that of a live browser and
    its process is known; it needs attention exactly when only its process is
    unknown. The three counts add up to the number of browsers. *)
Theorem authority_verdicts state resources :
  let s := browser_session_authority_snapshot_from_resources state resources in
  map v_browser_id (browser_verdicts s) ≡ₚ map fst (map_to_list (browsers state)) /\
  (forall v, v ∈ browser_verdicts s -> exists browser,
     browsers state !! v_browser_id v = Some browser /\
     (v_viable v = true <->
        ~ condemned resources (v_browser_id v) /\
        browser_health_non_viable (bw_health browser) = false /\ is_Some (bw_pid browser)) /\
     (v_state v = "attention"%string <->
        ~ condemned resources (v_browser_id v) /\
        browser_health_non_viable (bw_health browser) = false /\ bw_pid browser = None) /\
     v_needs_attention v = negb (v_viable v)) /\
  (viable_browser_count (summary s) + attention_browser_count (summary s)
   + non_viable_browser_count (summary s))%nat = modeled_browser_count (summary s).
Proof.
  cbn. set (reasons := candidate_reasons_by_browser resources).
  assert (forall v, v ∈ merge_sort verdict_le (map (fun p => browser_verdict reasons p.1 p.2)
      (btree_entries (browsers state))) -> exists id browser,
    browsers state !! id = Some browser /\ v = browser_verdict reasons id browser) as Hin.
  { intros v. rewrite merge_sort_Permutation. intros ([id b] & -> & Hb)%list_elem_of_fmap.
    apply elem_of_btree_entries in Hb. by exists id, b. }
  split_and!.
  - rewrite merge_sort_Permutation, map_map. unfold btree_entries. rewrite merge_sort_Permutation.
    apply Permutation_refl', map_ext. intros [id b]. apply verdict_spec.
  - intros v (id & browser & Hb & ->)%Hin.
    destruct (verdict_spec reasons id browser) as (-> & _ & Hatt & Hvia & Hv & Hn).
    exists browser. split; [done|]. unfold reasons in *. rewrite not_condemned in Hatt, Hvia.
    split; [|by split]. by rewrite <-Hvia, Hv, bool_decide_eq_true.
  - apply count_states. intros v (id & browser & _ & ->)%Hin. apply verdict_state.
Qed.
End BrowserAuthority.
