(* ===== verification/ServiceTabs.v ===== *)
(** * Tabs of the service state and their handles

    The part of [cli/src/native/service_model.rs] that binds follow-on work to a
    tab: profiles, browsers, sessions and tabs, and the handle the service derives
    for a tab. The records hold the fields the handles and the private broker
    read; the other fields of the source's structs do not occur here. *)

From S2P Require Import Prelude RustStr Env RemoteRoute ServiceJobs.
From Stdlib Require Import Ascii.
From stdpp Require Import gmap sorting.
Import ServiceJobs.

Module ServiceTabs.

Notation BrowserHealth := RemoteRoute.BrowserHealth.
Notation NotStarted := RemoteRoute.NotStarted.
Notation Launching := RemoteRoute.Launching.
Notation Ready := RemoteRoute.Ready.
Notation Degraded := RemoteRoute.Degraded.
Notation Unreachable := RemoteRoute.Unreachable.
Notation ProcessExited := RemoteRoute.ProcessExited.
Notation CdpDisconnected := RemoteRoute.CdpDisconnected.
Notation Reconnecting := RemoteRoute.Reconnecting.
Notation Closing := RemoteRoute.Closing.
Notation Faulted := RemoteRoute.Faulted.
Inductive LeaseState := Shared | Exclusive | HumanTakeover | Released | Expired.
Inductive SessionCleanupPolicy := Detach | CloseTabs | CloseBrowser | ReleaseOnly.
Inductive TabLifecycle :=
| TabUnknown | TabOpening | TabLoading | TabReady | TabClosing | TabClosed | TabCrashed.
Inductive ProfileOrigin := AgentBrowserOwned | ExternalByop | ExternalObserved.

#[global] Instance TabLifecycle_eq_dec : EqDecision TabLifecycle.
Proof. solve_decision. Defined.

Record ServiceTabHandleTraceFilter := {
  tf_browser_id : option string;
  tf_profile_id : option string;
  tf_session_id : option string;
  tf_service_name : option string;
  tf_agent_name : option string;
  tf_task_name : option string;
}.

Record ServiceTabHandle := {
  th_browser_id : string;
  th_session_name : option string;
  th_tab_id : string;
  th_target_id : option string;
  th_url : option string;
  th_title : option string;
  th_profile_id : option string;
  th_profile_origin : ProfileOrigin;
  th_lease_id : option string;
  th_lease_state : option LeaseState;
  th_cleanup_policy : option SessionCleanupPolicy;
  th_lease_heartbeat_expected : bool;
  th_owner_session_id : option string;
  th_job_id : option string;
  th_trace_filter : ServiceTabHandleTraceFilter;
  th_valid : bool;
  th_stale_reason : option string;
}.

Record BrowserProfile := { bf_profile_origin : ProfileOrigin }.

Record BrowserProcess := {
  bp_id : string;
  bp_profile_id : option string;
  bp_health : BrowserHealth;
  bp_cdp_endpoint : option string;
  bp_active_session_ids : list string;
  bp_tab_handles : list ServiceTabHandle;
}.

Record BrowserSession := {
  bs_service_name : option string;
  bs_agent_name : option string;
  bs_task_name : option string;
  bs_lease : LeaseState;
  bs_profile_id : option string;
  bs_cleanup : SessionCleanupPolicy;
  bs_browser_ids : list string;
  bs_tab_ids : list string;
  bs_expires_at : option string;
}.

Record BrowserTab := {
  bt_id : string;
  bt_browser_id : string;
  bt_target_id : option string;
  bt_session_id : option string;
  bt_lifecycle : TabLifecycle;
  bt_url : option string;
  bt_title : option string;
  bt_owner_session_id : option string;
  bt_service_tab_handle : option ServiceTabHandle;
  bt_latest_snapshot_id : option string;
  bt_latest_screenshot_id : option string;
  bt_challenge_id : option string;
}.

Section tabs.
Context `{!Json}.

Record ServiceState := {
  profiles : gmap string BrowserProfile;
  browsers : gmap string BrowserProcess;
  sessions : gmap string BrowserSession;
  tabs : gmap string BrowserTab;
  jobs : gmap string ServiceJob;
}.

(** [state.browsers = b], [state.tabs = t]. *)
Definition with_browsers (b : gmap string BrowserProcess) (s : ServiceState) : ServiceState :=
  {| profiles := profiles s; browsers := b; sessions := sessions s; tabs := tabs s;
     jobs := jobs s |}.
Definition with_tabs (t : gmap string BrowserTab) (s : ServiceState) : ServiceState :=
  {| profiles := profiles s; browsers := browsers s; sessions := sessions s; tabs := t;
     jobs := jobs s |}.

(** [Option::or_else] *)
Definition or_else {A} (o : option A) (o' : option A) : option A :=
  match o with Some _ => o | None => o' end.

(** ** The handle of a tab *)

Definition service_job_sort_key (job : ServiceJob) : string :=
  match sj_completed_at job, sj_started_at job, sj_submitted_at job with
  | Some t, _, _ => t
  | None, Some t, _ => t
  | None, None, Some t => t
  | None, None, None => ""
  end.

Definition targets_tab (tab_id : string) (job : ServiceJob) : bool :=
  match sj_target job with TargetTab id => id == tab_id | _ => false end.

(** The order of [max_by]: the sort key, then the id. *)
Definition later (left right : ServiceJob) : bool :=
  if service_job_sort_key left == service_job_sort_key right
  then str_leb (sj_id left) (sj_id right)
  else str_leb (service_job_sort_key left) (service_job_sort_key right).

Definition latest_job_id_for_tab (self : ServiceState) (tab_id : string) : option string :=
  sj_id <$> foldl (fun best job =>
    match best with
    | None => Some job
    | Some b => Some (if later b job then job else b)
    end) None (List.filter (targets_tab tab_id) (map snd (btree_entries (jobs self)))).

Definition service_tab_handle_lease_stale_reason (lease_state : option LeaseState)
    : option string :=
  match lease_state with
  | Some Released => Some "lease_released"%string
  | Some Expired => Some "lease_expired"%string
  | Some (Shared | Exclusive | HumanTakeover) | None => None
  end.

Definition service_tab_handle_stale_reason (tab : BrowserTab) (browser : option BrowserProcess)
    : option string :=
  match bt_lifecycle tab with
  | TabClosed => Some "tab_closed"%string
  | TabCrashed => Some "tab_crashed"%string
  | TabUnknown | TabOpening | TabLoading | TabReady | TabClosing =>
      match browser with
      | None => Some "browser_missing"%string
      | Some browser =>
          match bp_health browser with
          | Ready | Launching | Reconnecting => None
          | NotStarted => Some "browser_not_started"%string
          | Degraded => Some "browser_degraded"%string
          | Unreachable => Some "browser_unreachable"%string
          | ProcessExited => Some "browser_process_exited"%string
          | CdpDisconnected => Some "browser_cdp_disconnected"%string
          | Closing => Some "browser_closing"%string
          | Faulted => Some "browser_faulted"%string
          end
      end
  end.

(** The session a tab works for. *)
Definition tab_session_id (tab : BrowserTab) (browser : option BrowserProcess) : option string :=
  or_else (bt_owner_session_id tab)
    (or_else (bt_session_id tab) (browser ≫= fun b => head (bp_active_session_ids b))).

Definition profile_id_from_tab_handle_context (state : ServiceState) (tab : BrowserTab)
    (browser : option BrowserProcess) : option string :=
  or_else (session_id ← tab_session_id tab browser; session ← sessions state !! session_id;
           bs_profile_id session)
    (browser ≫= bp_profile_id).

Definition service_tab_handle (self : ServiceState) (tab_id : string) : option ServiceTabHandle :=
  tab ← tabs self !! tab_id;
  let browser := browsers self !! bt_browser_id tab in
  let session_id := tab_session_id tab browser in
  let session := session_id ≫= fun id => sessions self !! id in
  let profile_id := or_else (session ≫= bs_profile_id) (browser ≫= bp_profile_id) in
  let lease_state := bs_lease <$> session in
  let stale_reason := or_else (service_tab_handle_stale_reason tab browser)
                        (service_tab_handle_lease_stale_reason lease_state) in
  Some {|
    th_browser_id := bt_browser_id tab;
    th_session_name := session_id;
    th_tab_id := bt_id tab;
    th_target_id := bt_target_id tab;
    th_url := bt_url tab;
    th_title := bt_title tab;
    th_profile_id := profile_id;
    th_profile_origin :=
      match (id ← profile_id; profiles self !! id) with
      | Some profile => bf_profile_origin profile
      | None => AgentBrowserOwned
      end;
    th_lease_id := session_id;
    th_lease_state := lease_state;
    th_cleanup_policy := bs_cleanup <$> session;
    th_lease_heartbeat_expected := match lease_state with Some _ => true | None => false end;
    th_owner_session_id := bt_owner_session_id tab;
    th_job_id := latest_job_id_for_tab self tab_id;
    th_trace_filter := {|
      tf_browser_id := Some (bt_browser_id tab);
      tf_profile_id := profile_id_from_tab_handle_context self tab browser;
      tf_session_id := session_id;
      tf_service_name := session ≫= bs_service_name;
      tf_agent_name := session ≫= bs_agent_name;
      tf_task_name := session ≫= bs_task_name |};
    th_valid := match stale_reason with None => true | Some _ => false end;
    th_stale_reason := stale_reason |}.

(** ** Refreshing the handles *)

Definition set_tab_handle (handle : ServiceTabHandle) (tab : BrowserTab) : BrowserTab :=
  {| bt_id := bt_id tab; bt_browser_id := bt_browser_id tab; bt_target_id := bt_target_id tab;
     bt_session_id := bt_session_id tab; bt_lifecycle := bt_lifecycle tab; bt_url := bt_url tab;
     bt_title := bt_title tab; bt_owner_session_id := bt_owner_session_id tab;
     bt_service_tab_handle := Some handle; bt_latest_snapshot_id := bt_latest_snapshot_id tab;
     bt_latest_screenshot_id := bt_latest_screenshot_id tab;
     bt_challenge_id := bt_challenge_id tab |}.

Definition set_tab_handles (handles : list ServiceTabHandle) (browser : BrowserProcess)
    : BrowserProcess :=
  {| bp_id := bp_id browser; bp_profile_id := bp_profile_id browser;
     bp_health := bp_health browser; bp_cdp_endpoint := bp_cdp_endpoint browser;
     bp_active_session_ids := bp_active_session_ids browser; bp_tab_handles := handles |}.

Definition handle_le (a b : ServiceTabHandle) : Prop := str_le (th_tab_id a) (th_tab_id b).
#[local] Instance handle_le_dec a b : Decision (handle_le a b).
Proof. unfold handle_le. apply _. Defined.

(** One pass of the loop over the browsers, in the order of their keys:
    [tab_handles.remove(&browser.id)]. *)
Definition hand_out (acc : gmap string (list ServiceTabHandle) * gmap string BrowserProcess)
    (entry : string * BrowserProcess)
    : gmap string (list ServiceTabHandle) * gmap string BrowserProcess :=
  let '(by_browser, done) := acc in
  let '(key, browser) := entry in
  let handles := match by_browser !! bp_id browser with Some l => l | None => [] end in
  (delete (bp_id browser) by_browser,
   <[key := set_tab_handles (merge_sort handle_le handles) browser]> done).

Definition refresh_service_tab_handles (self : ServiceState) : ServiceState :=
  let derived := omap (service_tab_handle self) (map fst (btree_entries (tabs self))) in
  let by_browser := foldl (fun (m : gmap string (list ServiceTabHandle)) handle =>
    <[th_browser_id handle :=
        (match m !! th_browser_id handle with Some l => l | None => [] end) ++ [handle]]> m)
    ∅ derived in
  with_browsers (foldl hand_out (by_browser, ∅) (btree_entries (browsers self))).2
    (with_tabs (map_imap (fun id tab =>
       Some match service_tab_handle self id with
            | Some handle => set_tab_handle handle tab
            | None => tab
            end) (tabs self)) self).

(** ** What a refresh leaves alone *)

Lemma refresh_profiles self : profiles (refresh_service_tab_handles self) = profiles self.
Proof. done. Qed.
Lemma refresh_sessions self : sessions (refresh_service_tab_handles self) = sessions self.
Proof. done. Qed.
Lemma refresh_jobs self : jobs (refresh_service_tab_handles self) = jobs self.
Proof. done. Qed.

Lemma refresh_tab self id :
  tabs (refresh_service_tab_handles self) !! id =
  (fun tab => match service_tab_handle self id with
              | Some handle => set_tab_handle handle tab
              | None => tab
              end) <$> tabs self !! id.
Proof.
  cbn. rewrite map_lookup_imap. by destruct (tabs self !! id).
Qed.

(** The loop over the browsers replaces the handles of each. *)
Lemma hand_out_lookup entries acc key :
  NoDup (map fst entries) ->
  (forall k b, (k, b) ∈ entries -> acc.2 !! k = None) ->
  match (foldl hand_out acc entries).2 !! key with
  | Some b' => acc.2 !! key = Some b' \/
      exists b handles, (key, b) ∈ entries /\ b' = set_tab_handles handles b
  | None => acc.2 !! key = None /\ key ∉ map fst entries
  end.
Proof.
  revert acc. induction entries as [|[k b] entries IH]; intros [m d] Hnd Hfresh; cbn.
  { destruct (d !! key); [by left|]. split; [done|]. set_solver. }
  apply NoDup_cons in Hnd as [Hk Hnd].
  specialize (IH (delete (bp_id b) m,
    <[k := set_tab_handles (merge_sort handle_le
       match m !! bp_id b with Some l => l | None => [] end) b]> d) Hnd).
  cbn in IH.
  assert (forall k' b', (k', b') ∈ entries ->
    <[k := set_tab_handles (merge_sort handle_le
       match m !! bp_id b with Some l => l | None => [] end) b]> d !! k' = None) as Hf.
  { intros k' b' Hin. rewrite lookup_insert_ne.
    - apply (Hfresh k' b'). by right.
    - intros ->. apply Hk, list_elem_of_fmap. by exists (k', b'). }
  specialize (IH Hf). destruct ((foldl hand_out _ entries).2 !! key) as [b'|].
  - destruct IH as [He|(b0 & hs & Hin & ->)].
    + destruct (decide (k = key)) as [->|Hne].
      * rewrite lookup_insert_eq in He. simplify_eq. right. eexists _, _. split; [by left|done].
      * rewrite lookup_insert_ne in He by done. by left.
    + right. exists b0, hs. split; [by right|done].
  - destruct IH as [He Hin]. destruct (decide (k = key)) as [->|Hne].
    + by rewrite lookup_insert_eq in He.
    + rewrite lookup_insert_ne in He by done. split; [done|]. set_solver.
Qed.

(** Health, profile, endpoint and sessions of a browser survive a refresh. *)
Lemma refresh_browser self id :
  match browsers (refresh_service_tab_handles self) !! id with
  | Some b' => exists b handles, browsers self !! id = Some b /\ b' = set_tab_handles handles b
  | None => browsers self !! id = None
  end.
Proof.
  cbn.
  match goal with |- context [foldl hand_out (?m, ?d) ?l] =>
    pose proof (hand_out_lookup l (m, d) id) as Hl end.
  unshelve epose proof (Hl _ _) as Hl'; [| |clear Hl].
  - unfold btree_entries. rewrite merge_sort_Permutation. apply NoDup_fst_map_to_list.
  - intros k b _. apply lookup_empty.
  - revert Hl'. destruct ((foldl hand_out _ _).2 !! id) as [b'|]; cbn.
    + intros [He|(b & hs & Hin & ->)]; [by rewrite lookup_empty in He|].
      exists b, hs. split; [by apply elem_of_btree_entries|done].
    + intros [_ Hin]. apply eq_None_not_Some. intros [b Hb]. apply Hin, list_elem_of_fmap.
      exists (id, b). split; [done|]. by apply elem_of_btree_entries.
Qed.

End tabs.

End ServiceTabs.
