(* ===== verification/ServiceStore.v ===== *)
(** * The store of the service state

    [cli/src/native/service_store.rs]: the service state is kept in two files that
    every thread of every process reads and replaces under a mutex of the process and a
    lock on a file. A call is a program of atomic effects, a tree in source order; the
    guards a call holds are dropped when it ends. The paths are those of one state file:
    a file is named by what it is. The text an error carries after its first words is
    left out. *)

From stdpp Require Import gmap.
From S2P Require Import Prelude RustStr Env.

Module ServiceStore.

(** [serde_json::to_string_pretty]. *)
Class PrettyString (T : Type) := { to_string_pretty : T -> option string }.

(** What the store needs of [ServiceState]: the handoffs it holds, and the methods the
    store calls around a load and a save. *)
Class StateModel (ServiceState RemoteViewHandoff : Type) := {
  default_state : ServiceState;
  remote_view_handoffs : ServiceState -> gmap string RemoteViewHandoff;
  set_remote_view_handoffs : gmap string RemoteViewHandoff -> ServiceState -> ServiceState;
  mark_persisted_entity_sources : ServiceState -> ServiceState;
  refresh_derived_views : ServiceState -> ServiceState;
  remove_builtin_entity_defaults_for_persistence : ServiceState -> ServiceState;
}.

(** ** Files, locks and effects *)

Inductive file := StateFile | RegistryFile.
#[global] Instance file_eq_dec : EqDecision file.
Proof. solve_decision. Defined.

#[global] Instance file_countable : Countable file.
Proof.
  refine (inj_countable' (fun f => match f with StateFile => true | RegistryFile => false end)
    (fun b : bool => if b then StateFile else RegistryFile) _). by intros [].
Defined.

Inductive ServiceStateFileLockMode := Shared | Exclusive.
#[global] Instance mode_eq_dec : EqDecision ServiceStateFileLockMode.
Proof. solve_decision. Defined.

(** [fs::read_to_string]. *)
Inductive read_result := Contents (raw : string) | Missing | ReadFailed.
(** [fs::rename]. *)
Inductive rename_result := Renamed | RenameMissing | RenameFailed.

Inductive eff :=
| LockMutex                                (** [Mutex::lock], [false] when poisoned *)
| TryLockMutex                             (** [Mutex::try_lock] *)
| UnlockMutex (panicking : bool)           (** the guard is dropped *)
| CreateDirAll
| OpenLockFile
| LockFile (mode : ServiceStateFileLockMode)  (** [File::lock], [File::lock_shared] *)
| TryLockFile                              (** [File::try_lock] *)
| UnlockFile                               (** the file is closed *)
| ReadToString (f : file)
| WriteTemp (f : file) (payload : string)  (** [fs::write] of the temporary file *)
| RenameTemp (f : file)                    (** [fs::rename] over the file *)
| RemoveTemp (f : file)
| SyncFile (f : file)                      (** [File::open] and [sync_all] *)
| SyncDirectory.

Definition resp (e : eff) : Type :=
  match e with
  | UnlockMutex _ | UnlockFile | RemoveTemp _ => unit
  | ReadToString _ => read_result
  | RenameTemp _ => rename_result
  | _ => bool
  end.

Inductive prog (A : Type) : Type :=
| Ret (a : A)
| Do (e : eff) (k : resp e -> prog A).
#[global] Arguments Ret {A} _.
#[global] Arguments Do {A} _ _.

Fixpoint prog_bind {A B} (f : A -> prog B) (p : prog A) : prog B :=
  match p with
  | Ret a => f a
  | Do e k => Do e (fun r => prog_bind f (k r))
  end.
#[global] Instance prog_mret : MRet prog := fun A => Ret.
#[global] Instance prog_mbind : MBind prog := fun A B => prog_bind.

Definition perform (e : eff) : prog (resp e) := Do e (fun r => Ret r).
(** [?] of a result. *)
Definition attempt {A B} (p : prog (res A)) (f : A -> prog (res B)) : prog (res B) :=
  p ≫= fun r => match r with Ok a => f a | Err error => Ret (Err error) end.
(** [.map_err(|_| error)?] of an effect that answers whether it succeeded. *)
Definition check {A} (e : prog bool) (error : string) (p : prog (res A)) : prog (res A) :=
  e ≫= fun ok => if (ok : bool) then p else Ret (Err error).

Section store.
Context {ServiceState RemoteViewHandoff R : Type}.

Record RemoteViewHandoffRegistry := {
  schema_version : string;
  handoffs : gmap string RemoteViewHandoff;
}.
Context `{!StateModel ServiceState RemoteViewHandoff}.
Context `{!Serde ServiceState, !Serde RemoteViewHandoffRegistry}.
Context `{!PrettyString ServiceState, !PrettyString RemoteViewHandoffRegistry}.

Definition REMOTE_VIEW_HANDOFFS_SCHEMA_VERSION : string := "agent-browser.remote-view-handoffs.v1".
Definition default_registry : RemoteViewHandoffRegistry :=
  {| schema_version := ""; handoffs := ∅ |}.

(** [format!("{}\n", serialized)]. *)
Definition with_newline (serialized : string) : string :=
  serialized +:+ String (Ascii.ascii_of_nat 10) "".

(** ** Loading *)

Definition load_remote_view_handoff_registry : prog (res RemoteViewHandoffRegistry) :=
  raw ← perform (ReadToString RegistryFile);
  Ret (match raw with
       | Contents raw => ok_or "Invalid remote-view handoff registry JSON" (from_slice raw)
       | Missing => Ok default_registry
       | ReadFailed => Err "Failed to read remote-view handoff registry"
       end).

(** What [load] makes of the two texts. *)
Definition assembled (state_file_missing : bool) (state : ServiceState)
    (handoff_registry : RemoteViewHandoffRegistry) : ServiceState :=
  if state_file_missing && bool_decide (handoffs handoff_registry = ∅) then default_state else
  let state := set_remote_view_handoffs
                 (handoffs handoff_registry ∪ remote_view_handoffs state) state in
  refresh_derived_views (mark_persisted_entity_sources state).

Definition load : prog (res ServiceState) :=
  raw ← perform (ReadToString StateFile);
  attempt (Ret (match raw with
                | Contents raw => state ← ok_or "Invalid service state JSON" (from_slice raw);
                                  Ok (state, false)
                | Missing => Ok (default_state, true)
                | ReadFailed => Err "Failed to read service state"
                end)) (fun '(state, state_file_missing) =>
  attempt load_remote_view_handoff_registry (fun handoff_registry =>
  Ret (Ok (assembled state_file_missing state handoff_registry)))).

(** ** Saving *)

Definition registry_payload (state : ServiceState) : option string :=
  with_newline <$> to_string_pretty
    {| schema_version := REMOTE_VIEW_HANDOFFS_SCHEMA_VERSION;
       handoffs := remote_view_handoffs state |}.

Definition save_remote_view_handoff_registry (state : ServiceState) : prog (res unit) :=
  check (perform CreateDirAll) "Failed to create remote-view handoff registry directory" (
  match registry_payload state with
  | None => Ret (Err "Failed to serialize remote-view handoff registry")
  | Some payload =>
      check (perform (WriteTemp RegistryFile payload))
        "Failed to write temporary remote-view handoff registry" (
      renamed ← perform (RenameTemp RegistryFile);
      match renamed with
      | Renamed => Ret (Ok tt)
      | RenameMissing | RenameFailed =>
          perform (RemoveTemp RegistryFile) ≫= fun _ =>
          Ret (Err "Failed to replace remote-view handoff registry")
      end)
  end).

(** The loop over the attempts that are left. *)
Fixpoint replace_state (attempts : nat) (first : bool) (payload : string) : prog (res unit) :=
  match attempts with
  | O => Ret (Ok tt)
  | S attempts =>
      check (perform CreateDirAll) "Failed to create service state directory" (
      check (perform (WriteTemp StateFile payload)) "Failed to write temporary service state" (
      renamed ← perform (RenameTemp StateFile);
      match renamed with
      | Renamed => Ret (Ok tt)
      | RenameMissing =>
          perform (RemoveTemp StateFile) ≫= fun _ =>
          if first then replace_state attempts false payload
          else Ret (Err "Failed to replace service state")
      | RenameFailed =>
          perform (RemoveTemp StateFile) ≫= fun _ => Ret (Err "Failed to replace service state")
      end))
  end.

Definition normalized (state : ServiceState) : ServiceState :=
  remove_builtin_entity_defaults_for_persistence (refresh_derived_views state).
Definition state_payload (state : ServiceState) : option string :=
  with_newline <$> to_string_pretty state.

Definition save (state : ServiceState) : prog (res unit) :=
  let normalized := normalized state in
  attempt (save_remote_view_handoff_registry normalized) (fun _ =>
  match state_payload normalized with
  | None => Ret (Err "Failed to serialize service state")
  | Some payload => replace_state 2 true payload
  end).

(** ** The locked repository *)

(** How a mutator ends: it returns a result with the state it leaves, or it panics. *)
Inductive ran := Returns (r : res (R * ServiceState)) | Panics.
Definition Mutator : Type := ServiceState -> ran.

Inductive call := LoadSnapshot | Mutate (m : Mutator) | TryMutateDurable (m : Mutator).
Inductive answer := Snapshot (state : ServiceState) | Done (r : R).
Inductive outcome := Returned (r : res answer) | Panicked.

Definition returned (r : res answer) : prog outcome := Ret (Returned r).

(** The guard of the mutex around a body: it is dropped when the body ends, and it
    poisons the mutex when the body panics. *)
Definition with_mutex (acquire : eff) (ok : resp acquire -> bool) (error : string)
    (body : prog outcome) : prog outcome :=
  locked ← perform acquire;
  if negb (ok locked) then returned (Err error) else
  o ← body;
  perform (UnlockMutex (match o with Panicked => true | Returned _ => false end)) ≫= fun _ => Ret o.

Definition locking (body : prog outcome) : prog outcome :=
  with_mutex LockMutex (fun ok => ok) "Service state mutation lock was poisoned" body.

(** The file that holds the lock is closed when the body ends. *)
Definition with_file_lock (body : prog outcome) : prog outcome :=
  o ← body; perform UnlockFile ≫= fun _ => Ret o.

Definition acquire_service_state_file_lock (mode : ServiceStateFileLockMode)
    (body : prog outcome) : prog outcome :=
  created ← perform CreateDirAll;
  if negb created then returned (Err "Failed to create service state directory") else
  opened ← perform OpenLockFile;
  if negb opened then returned (Err "Failed to open service state lock") else
  acquired ← perform (LockFile mode);
  if negb acquired then returned (Err "Failed to acquire service state lock") else
  with_file_lock body.

Definition load_snapshot : prog outcome :=
  locking (acquire_service_state_file_lock Shared (
    state ← load; returned (state ← state; Ok (Snapshot state)))).

Definition mutate (mutator : Mutator) : prog outcome :=
  locking (acquire_service_state_file_lock Exclusive (
    state ← load;
    match state with
    | Err error => returned (Err error)
    | Ok state =>
        match mutator state with
        | Panics => Ret Panicked
        | Returns (Err error) => returned (Err error)
        | Returns (Ok (result, state)) =>
            saved ← save state;
            returned (match saved with Ok _ => Ok (Done result) | Err error => Err error end)
        end
    end)).

Definition commit_uncertain : string := "private_service_state_commit_uncertain".

Definition try_mutate_durable (mutator : Mutator) : prog outcome :=
  with_mutex TryLockMutex (fun ok => ok) "private_service_state_lock_unavailable" (
    created ← perform CreateDirAll;
    if negb created then returned (Err "private_service_state_directory_unavailable") else
    opened ← perform OpenLockFile;
    if negb opened then returned (Err "private_service_state_lock_unavailable") else
    acquired ← perform TryLockFile;
    if negb acquired then returned (Err "private_service_state_lock_unavailable") else
    with_file_lock (
      state ← load;
      match state with
      | Err _ => returned (Err "private_service_state_load_failed")
      | Ok state =>
          match mutator state with
          | Panics => Ret Panicked
          | Returns (Err _) => returned (Err "private_service_state_mutation_rejected")
          | Returns (Ok (result, state)) =>
              saved ← save state;
              match saved with
              | Err _ => returned (Err commit_uncertain)
              | Ok _ =>
                  durable ← check (perform (SyncFile StateFile)) commit_uncertain (
                            check (perform (SyncFile RegistryFile)) commit_uncertain (
                            check (perform SyncDirectory) commit_uncertain (
                            Ret (Ok (Done result)))));
                  returned durable
              end
          end
      end)).

Definition run (c : call) : prog outcome :=
  match c with
  | LoadSnapshot => load_snapshot
  | Mutate m => mutate m
  | TryMutateDurable m => try_mutate_durable m
  end.
End store.
End ServiceStore.
