(* ===== verification/ServiceStoreSystem.v ===== *)
(** * The store of the service state as a transition system

    What the effects of [ServiceStore] do to the files, the mutexes and the file lock,
    the interleavings of any number of calls of any number of processes, which may be
    killed at any moment, and losses of power, after which only what was synchronized is
    certain; and the abstract register the store implements. *)

From stdpp Require Import gmap.
From S2P Require Import Prelude RustStr Env ServiceStore.
Import ServiceStore.

Module ServiceStoreSystem.

(** ** Disks *)

(** A file, whether its contents and whether its directory entry are durable. *)
Record stored := {
  contents : option string;
  data_synced : bool;
  entry_synced : bool;
}.
Record disk := { on_state : stored; on_registry : stored }.

Definition get (f : file) (d : disk) : stored :=
  match f with StateFile => on_state d | RegistryFile => on_registry d end.
Definition put (f : file) (x : stored) (d : disk) : disk :=
  match f with
  | StateFile => {| on_state := x; on_registry := on_registry d |}
  | RegistryFile => {| on_state := on_state d; on_registry := x |}
  end.

(** A file is replaced by [rename]. *)
Definition publish (f : file) (raw : string) (d : disk) : disk :=
  put f {| contents := Some raw; data_synced := false; entry_synced := false |} d.
Definition sync_data (f : file) (d : disk) : disk :=
  let x := get f d in
  put f {| contents := contents x; data_synced := true; entry_synced := entry_synced x |} d.
Definition sync_entry (x : stored) : stored :=
  {| contents := contents x; data_synced := data_synced x; entry_synced := true |}.
Definition sync_entries (d : disk) : disk :=
  {| on_state := sync_entry (on_state d); on_registry := sync_entry (on_registry d) |}.

Definition durable (x : stored) : Prop := data_synced x = true /\ entry_synced x = true.
(** What is left after a loss of power: files that were durable are as they were. *)
Definition power_loss (d d' : disk) : Prop :=
  forall f, durable (get f d') /\ (durable (get f d) -> contents (get f d') = contents (get f d)).
Definition same_contents (d d' : disk) : Prop :=
  forall f, contents (get f d) = contents (get f d').

Definition reads (f : file) (d : disk) : read_result :=
  match contents (get f d) with Some raw => Contents raw | None => Missing end.

Section system.
Context {ServiceState RemoteViewHandoff R : Type}.
Context `{!StateModel ServiceState RemoteViewHandoff}.
Context `{!Serde ServiceState}.
Context `{!Serde (@RemoteViewHandoffRegistry RemoteViewHandoff)}.
Context `{!PrettyString ServiceState}.
Context `{!PrettyString (@RemoteViewHandoffRegistry RemoteViewHandoff)}.
Local Abbreviation call := (@call ServiceState R).
Local Abbreviation outcome := (@outcome ServiceState R).

(** ** The shared world *)

(** A thread that runs a call. *)
Record thread := { th_pid : nat; th_call : call; th_prog : prog outcome }.

Inductive event := Started (t : nat) (c : call) | Finished (t : nat) (o : outcome).

Record sys := {
  sy_disk : disk;
  sy_temps : gmap (nat * file) string;  (** the temporary files, of each process *)
  sy_mutexes : gmap nat nat;            (** the thread that holds the mutex of a process *)
  sy_poisoned : gset nat;
  sy_locks : gmap nat ServiceStateFileLockMode;
  sy_threads : gmap nat thread;
  sy_events : list event;
}.

Definition with_disk (d : disk) (s : sys) : sys :=
  {| sy_disk := d; sy_temps := sy_temps s; sy_mutexes := sy_mutexes s;
     sy_poisoned := sy_poisoned s; sy_locks := sy_locks s; sy_threads := sy_threads s;
     sy_events := sy_events s |}.
Definition with_temps (temps : gmap (nat * file) string) (s : sys) : sys :=
  {| sy_disk := sy_disk s; sy_temps := temps; sy_mutexes := sy_mutexes s;
     sy_poisoned := sy_poisoned s; sy_locks := sy_locks s; sy_threads := sy_threads s;
     sy_events := sy_events s |}.
Definition with_mutexes (mutexes : gmap nat nat) (poisoned : gset nat) (s : sys) : sys :=
  {| sy_disk := sy_disk s; sy_temps := sy_temps s; sy_mutexes := mutexes;
     sy_poisoned := poisoned; sy_locks := sy_locks s; sy_threads := sy_threads s;
     sy_events := sy_events s |}.
Definition with_locks (locks : gmap nat ServiceStateFileLockMode) (s : sys) : sys :=
  {| sy_disk := sy_disk s; sy_temps := sy_temps s; sy_mutexes := sy_mutexes s;
     sy_poisoned := sy_poisoned s; sy_locks := locks; sy_threads := sy_threads s;
     sy_events := sy_events s |}.
Definition with_threads (threads : gmap nat thread) (events : list event) (s : sys) : sys :=
  {| sy_disk := sy_disk s; sy_temps := sy_temps s; sy_mutexes := sy_mutexes s;
     sy_poisoned := sy_poisoned s; sy_locks := sy_locks s; sy_threads := threads;
     sy_events := sy_events s ++ events |}.

(** A lock of a mode is free: nobody holds the file, or everybody shares it. *)
Definition lock_free (mode : ServiceStateFileLockMode)
    (locks : gmap nat ServiceStateFileLockMode) : Prop :=
  match mode with
  | Exclusive => locks = ∅
  | Shared => map_Forall (fun _ held => held = Shared) locks
  end.

(** Only the temporary file of [pid] for [f] may differ. *)
Definition temp_changed (pid : nat) (f : file) (s s' : sys) : Prop :=
  exists temps, s' = with_temps temps s
    /\ forall key, key <> (pid, f) -> temps !! key = sy_temps s !! key.

(** Whether the operating system may fail an operation at any moment. *)
Context (may_fail : bool).

(** [exec e t pid s r s']: thread [t] of process [pid] runs the effect. *)
Definition exec (e : eff) (t pid : nat) (s : sys) : resp e -> sys -> Prop :=
  match e as e return resp e -> sys -> Prop with
  | LockMutex => fun ok s' =>
      sy_mutexes s !! pid = None
      /\ if (ok : bool) then pid ∉ sy_poisoned s
              /\ s' = with_mutexes (<[pid := t]> (sy_mutexes s)) (sy_poisoned s) s
         else pid ∈ sy_poisoned s /\ s' = s
  | TryLockMutex => fun ok s' =>
      if (ok : bool) then sy_mutexes s !! pid = None /\ pid ∉ sy_poisoned s
        /\ s' = with_mutexes (<[pid := t]> (sy_mutexes s)) (sy_poisoned s) s
      else (sy_mutexes s !! pid <> None \/ pid ∈ sy_poisoned s) /\ s' = s
  | UnlockMutex panicking => fun _ s' =>
      s' = with_mutexes (delete pid (sy_mutexes s))
             ((if panicking then {[pid]} else ∅) ∪ sy_poisoned s) s
  | CreateDirAll | OpenLockFile => fun ok s' => s' = s /\ (ok = false -> may_fail = true)
  | LockFile mode => fun ok s' =>
      if (ok : bool) then lock_free mode (sy_locks s)
        /\ s' = with_locks (<[t := mode]> (sy_locks s)) s
      else may_fail = true /\ s' = s
  | TryLockFile => fun ok s' =>
      if (ok : bool) then lock_free Exclusive (sy_locks s)
        /\ s' = with_locks (<[t := Exclusive]> (sy_locks s)) s
      else (may_fail = true \/ sy_locks s <> ∅) /\ s' = s
  | UnlockFile => fun _ s' => s' = with_locks (delete t (sy_locks s)) s
  | ReadToString f => fun r s' =>
      s' = s /\ (r = reads f (sy_disk s) \/ r = ReadFailed /\ may_fail = true)
  | WriteTemp f payload => fun ok s' =>
      if (ok : bool) then s' = with_temps (<[(pid, f) := payload]> (sy_temps s)) s
      else may_fail = true /\ temp_changed pid f s s'
  | RenameTemp f => fun r s' =>
      match r with
      | Renamed => exists raw, sy_temps s !! (pid, f) = Some raw
          /\ s' = with_disk (publish f raw (sy_disk s)) (with_temps (delete (pid, f) (sy_temps s)) s)
      | RenameMissing | RenameFailed => may_fail = true /\ s' = s
      end
  | RemoveTemp f => fun _ s' => temp_changed pid f s s'
  | SyncFile f => fun ok s' =>
      if (ok : bool) then s' = with_disk (sync_data f (sy_disk s)) s
      else may_fail = true /\ s' = s
  | SyncDirectory => fun ok s' =>
      if (ok : bool) then s' = with_disk (sync_entries (sy_disk s)) s
      else may_fail = true /\ s' = s
  end.

(** What the death of a process leaves: its threads, its mutex and its locks are gone. *)
Definition survives (pid : nat) (s : sys) (t : nat) : bool :=
  match sy_threads s !! t with
  | Some th => negb (th_pid th =? pid)%nat
  | None => false
  end.
Definition killed (pid : nat) (s s' : sys) : Prop :=
  s' = {| sy_disk := sy_disk s; sy_temps := sy_temps s;
          sy_mutexes := delete pid (sy_mutexes s);
          sy_poisoned := sy_poisoned s ∖ {[pid]};
          sy_locks := filter (fun x => survives pid s x.1 = true) (sy_locks s);
          sy_threads := filter (fun x => survives pid s x.1 = true) (sy_threads s);
          sy_events := sy_events s |}.

Inductive step : sys -> sys -> Prop :=
| start s t pid c :
    Forall (fun e => forall c', e <> Started t c') (sy_events s) ->
    step s (with_threads (<[t := {| th_pid := pid; th_call := c; th_prog := run c |}]> (sy_threads s))
              [Started t c] s)
| execute s t pid c e k r s' :
    sy_threads s !! t = Some {| th_pid := pid; th_call := c; th_prog := Do e k |} ->
    exec e t pid s r s' ->
    step s (with_threads (<[t := {| th_pid := pid; th_call := c; th_prog := k r |}]> (sy_threads s'))
              [] s')
| finish s t pid c o :
    sy_threads s !! t = Some {| th_pid := pid; th_call := c; th_prog := Ret o |} ->
    step s (with_threads (delete t (sy_threads s)) [Finished t o] s)
| kill s pid s' : may_fail = true -> killed pid s s' -> step s s'
| lose_power s d temps : may_fail = true -> power_loss (sy_disk s) d ->
    step s {| sy_disk := d; sy_temps := temps; sy_mutexes := ∅; sy_poisoned := ∅;
              sy_locks := ∅; sy_threads := ∅; sy_events := sy_events s |}.

(** A disk nobody uses. *)
Definition idle (d : disk) : sys :=
  {| sy_disk := d; sy_temps := ∅; sy_mutexes := ∅; sy_poisoned := ∅; sy_locks := ∅;
     sy_threads := ∅; sy_events := [] |}.

Inductive reachable (d : disk) : sys -> Prop :=
| reachable_idle : reachable d (idle d)
| reachable_step s s' : reachable d s -> step s s' -> reachable d s'.

(** ** The abstract register *)

(** What a load of an undisturbed disk answers. *)
Definition load_files (d : disk) : res ServiceState :=
  '(state, missing) ← match contents (get StateFile d) with
                      | Some raw => state ← ok_or "Invalid service state JSON" (from_slice raw);
                                    Ok (state, false)
                      | None => Ok (default_state, true)
                      end;
  registry ← match contents (get RegistryFile d) with
             | Some raw => ok_or "Invalid remote-view handoff registry JSON" (from_slice raw)
             | None => Ok default_registry
             end;
  Ok (assembled missing state registry).

Definition mutator_of (c : call) : option (@Mutator ServiceState R) :=
  match c with LoadSnapshot => None | Mutate m | TryMutateDurable m => Some m end.
Definition is_durable (c : call) : Prop := match c with TryMutateDurable _ => True | _ => False end.

(** The call died, panicked or reported an error. *)
Inductive failed : option outcome -> Prop :=
| died : failed None
| reported error : failed (Some (Returned (Err error))).

(** [takes_effect c d o d']: the call as one step of a register. A call that failed may
    have replaced only the registry of the handoffs, and one that died, or reported that
    its commit is uncertain, may have replaced both files. A durable mutation that was
    reported is durable. *)
Inductive takes_effect (c : call) (d : disk) : option outcome -> disk -> Prop :=
| no_effect o : failed o -> takes_effect c d o d
| panicked m state :
    mutator_of c = Some m -> load_files d = Ok state -> m state = Panics ->
    takes_effect c d (Some Panicked) d
| snapshot state :
    c = LoadSnapshot -> load_files d = Ok state ->
    takes_effect c d (Some (Returned (Ok (Snapshot state)))) d
| half_saved m state r state' registry o :
    mutator_of c = Some m -> load_files d = Ok state -> m state = Returns (Ok (r, state')) ->
    registry_payload (normalized state') = Some registry -> failed o ->
    takes_effect c d o (publish RegistryFile registry d)
| saved m state r state' registry raw o d' :
    mutator_of c = Some m -> load_files d = Ok state -> m state = Returns (Ok (r, state')) ->
    registry_payload (normalized state') = Some registry ->
    state_payload (normalized state') = Some raw ->
    same_contents d' (publish StateFile raw (publish RegistryFile registry d)) ->
    (o = None
     \/ o = Some (Returned (Ok (Done r))) /\ (is_durable c -> forall f, durable (get f d'))
     \/ o = Some (Returned (Err commit_uncertain)) /\ is_durable c) ->
    takes_effect c d o d'.

Inductive entry := Entry (t : nat) (c : call) (o : option outcome) | PowerLoss.

(** The entries one after the other. *)
Inductive serial (d : disk) : list entry -> disk -> Prop :=
| serial_nil : serial d [] d
| serial_call l d1 t c o d2 :
    serial d l d1 -> takes_effect c d1 o d2 -> serial d (l ++ [Entry t c o]) d2
| serial_loss l d1 d2 : serial d l d1 -> power_loss d1 d2 -> serial d (l ++ [PowerLoss]) d2.

Definition before_in {A} (l : list A) (p q : A -> Prop) : Prop :=
  exists l1 a l2 b l3, l = l1 ++ a :: l2 ++ b :: l3 /\ p a /\ q b.
Definition entry_of (t : nat) (e : entry) : Prop :=
  match e with Entry t' _ _ => t' = t | PowerLoss => False end.
Definition finished (t : nat) (e : event) : Prop :=
  match e with Finished t' _ => t' = t | Started _ _ => False end.
Definition started (t : nat) (e : event) : Prop :=
  match e with Started t' _ => t' = t | Finished _ _ => False end.
End system.
End ServiceStoreSystem.
