(* ===== verification/ServiceStoreProofs.v ===== *)
(** * Calls of the store, one at a time

    What a thread does in the course of a call: nothing to the files before it holds the
    lock; while it holds the lock every state of the files is one the death of the call
    may leave; and when it gives the lock up, its outcome is settled. *)

From stdpp Require Import gmap.
From S2P Require Import Prelude RustStr Env ServiceStore ServiceStoreSystem.
Import ServiceStore ServiceStoreSystem.

Module ServiceStoreProofs.

Section proofs.
Context {ServiceState RemoteViewHandoff R : Type}.
Context `{!StateModel ServiceState RemoteViewHandoff}.
Context `{!Serde ServiceState}.
Context `{!Serde (@RemoteViewHandoffRegistry RemoteViewHandoff)}.
Context `{!PrettyString ServiceState}.
Context `{!PrettyString (@RemoteViewHandoffRegistry RemoteViewHandoff)}.
Local Abbreviation call := (@call ServiceState R).
Local Abbreviation outcome := (@outcome ServiceState R).

(** ** The effects of a thread that holds the lock *)

(** The temporary files of one process. *)
Definition temps : Type := option string * option string.
Definition temps_of (pid : nat) (s : @sys ServiceState R) : temps :=
  (sy_temps s !! (pid, StateFile), sy_temps s !! (pid, RegistryFile)).
Definition temp (f : file) (x : temps) : option string :=
  match f with StateFile => x.1 | RegistryFile => x.2 end.
Definition set_temp (f : file) (o : option string) (x : temps) : temps :=
  match f with StateFile => (o, x.2) | RegistryFile => (x.1, o) end.

(** What an effect may do to the disk and to the temporary files of its process. *)
Definition local (e : eff) (d : disk) (x : temps) : resp e -> disk -> temps -> Prop :=
  match e as e return resp e -> disk -> temps -> Prop with
  | ReadToString f => fun r d' x' => d' = d /\ x' = x /\ (r = reads f d \/ r = ReadFailed)
  | WriteTemp f payload => fun ok d' x' =>
      d' = d /\ exists o, x' = set_temp f o x /\ (ok = true -> o = Some payload)
  | RenameTemp f => fun r d' x' =>
      match r with
      | Renamed => exists raw, temp f x = Some raw /\ d' = publish f raw d /\ x' = set_temp f None x
      | RenameMissing | RenameFailed => d' = d /\ x' = x
      end
  | RemoveTemp f => fun _ d' x' => d' = d /\ exists o, x' = set_temp f o x
  | SyncFile f => fun ok d' x' => x' = x /\ d' = if (ok : bool) then sync_data f d else d
  | SyncDirectory => fun ok d' x' => x' = x /\ d' = if (ok : bool) then sync_entries d else d
  | _ => fun _ d' x' => d' = d /\ x' = x
  end.

(** The effects of a thread that holds the lock: it writes only when it holds it
    alone, and renames only what it has written. *)
Definition allowed (mode : ServiceStateFileLockMode) (e : eff) (x : temps) : Prop :=
  match e with
  | CreateDirAll | OpenLockFile | ReadToString _ => True
  | WriteTemp _ _ | RemoveTemp _ | SyncFile _ | SyncDirectory => mode = Exclusive
  | RenameTemp f => mode = Exclusive /\ temp f x <> None
  | _ => False
  end.

Section held.
Variables (c : call) (mode : ServiceStateFileLockMode) (base : disk).

(** While the lock is held: whatever happens the program runs on to [Q], and at every
    moment the disk is one the death of the call may leave. *)
Fixpoint held {A} (p : prog A) (Q : A -> disk -> temps -> Prop) (d : disk) (x : temps) : Prop :=
  takes_effect c base None d /\
  match p with
  | Ret a => Q a d x
  | Do e k => allowed mode e x /\
      forall r d' x', local e d x r d' x' -> held (k r) Q d' x'
  end.

Lemma held_effect {A} (p : prog A) Q d x : held p Q d x -> takes_effect c base None d.
Proof. destruct p; cbn; tauto. Qed.

Lemma held_bind {A B} (p : prog A) (f : A -> prog B) Q d x :
  held p (fun a => held (f a) Q) d x -> held (p ≫= f) Q d x.
Proof.
  revert d x. induction p as [a|e k IH]; intros d x; [by intros [_ Ha]|].
  cbn. intros (He & Ha & Hk). split_and!; [done..|]. intros r d' x' Hl. by apply IH, Hk.
Qed.

Lemma held_weaken {A} (p : prog A) (Q Q' : A -> disk -> temps -> Prop) d x :
  held p Q d x -> (forall a d' x', Q a d' x' -> Q' a d' x') -> held p Q' d x.
Proof.
  intros Hp HQ. revert d x Hp. induction p as [a|e k IH]; intros d x; cbn; [naive_solver|].
  intros (He & Ha & Hk). split_and!; [done..|]. intros r d' x' Hl. by apply IH, Hk.
Qed.

Lemma held_ret {A} (a : A) (Q : A -> disk -> temps -> Prop) d x :
  takes_effect c base None d -> Q a d x -> held (Ret a) Q d x.
Proof. by split. Qed.

Lemma held_attempt {A B} (p : prog (res A)) (f : A -> prog (res B)) Q d x :
  held p (fun r => match r with Ok a => held (f a) Q | Err e => Q (Err e) end) d x ->
  held (attempt p f) Q d x.
Proof.
  intros Hp. revert d x Hp. unfold attempt. induction p as [[a|e]|e k IH]; intros d x; cbn.
  - by intros [_ Ha].
  - by intros [He HQ].
  - intros (He & Ha & Hk). split_and!; [done..|]. intros r d' x' Hl. by apply IH, Hk.
Qed.

(** One effect. *)
Lemma held_do {A} e (k : resp e -> prog A) Q d x :
  takes_effect c base None d -> allowed mode e x ->
  (forall r d' x', local e d x r d' x' -> held (k r) Q d' x') -> held (Do e k) Q d x.
Proof. by cbn. Qed.

Lemma held_load (Q : res ServiceState -> disk -> temps -> Prop) d x :
  takes_effect c base None d ->
  Q (load_files d) d x -> (forall error, Q (Err error) d x) -> held load Q d x.
Proof.
  intros He Hok Herr. unfold load. apply held_do; [done..|].
  intros raw d' x' (-> & -> & Hraw). apply held_attempt, held_ret; [done|].
  assert (forall r, r = (match contents (get StateFile d) with
      | Some raw => state ← ok_or "Invalid service state JSON" (from_slice raw); Ok (state, false)
      | None => Ok (default_state, true) end : res (ServiceState * bool))
    -> match r with
       | Ok a => held ((fun '(state, missing) => attempt load_remote_view_handoff_registry
           (fun registry => Ret (Ok (assembled missing state registry)))) a) Q
       | Err e => Q (Err e)
       end d x) as Hmain.
  { intros [[state missing]|e] Hr; [|done]. apply held_attempt.
    unfold load_remote_view_handoff_registry. apply held_do; [done..|].
    intros raw' d' x' (-> & -> & Hraw'). cbn. split; [done|].
    destruct Hraw' as [-> | ->]; [|done]. revert Hok. unfold load_files, reads. rewrite <-Hr. cbn.
    destruct (contents (on_registry d)) as [text|]; cbn.
    - destruct (from_slice text); done.
    - done. }
  destruct Hraw as [-> | ->]; [|done]. unfold reads in *.
  destruct (contents (get StateFile d)) as [text|]; apply (Hmain _ eq_refl).
Qed.
End held.

(** ** Saving *)

Section saving.
Variables (c : call) (base : disk).
Variables (m : @Mutator ServiceState R) (state state' : ServiceState) (result : R).
Hypothesis mutator : mutator_of c = Some m.
Hypothesis loaded : load_files base = Ok state.
Hypothesis ran : m state = Returns (Ok (result, state')).

(** What a save may leave of its two files. *)
Definition save_result (r : res unit) (d : disk) : Prop :=
  match r with
  | Ok _ => exists registry raw, registry_payload (normalized state') = Some registry
      /\ state_payload (normalized state') = Some raw
      /\ d = publish StateFile raw (publish RegistryFile registry base)
  | Err _ => d = base \/ exists registry, registry_payload (normalized state') = Some registry
      /\ d = publish RegistryFile registry base
  end.

Lemma unsaved_effect : takes_effect c base None base.
Proof. apply no_effect. constructor. Qed.
Lemma half_saved_effect o registry :
  registry_payload (normalized state') = Some registry -> failed o ->
  takes_effect c base o (publish RegistryFile registry base).
Proof using All. intros Hr Ho. by eapply half_saved. Qed.
Lemma saved_effect o registry raw d :
  registry_payload (normalized state') = Some registry ->
  state_payload (normalized state') = Some raw ->
  same_contents d (publish StateFile raw (publish RegistryFile registry base)) ->
  (o = None
   \/ o = Some (Returned (Ok (Done result))) /\ (is_durable c -> forall f, durable (get f d))
   \/ o = Some (Returned (Err commit_uncertain)) /\ is_durable c) ->
  takes_effect c base o d.
Proof using All. intros Hr Hs Hd Ho. by eapply saved. Qed.

Lemma held_replace_state registry raw attempts first x :
  registry_payload (normalized state') = Some registry ->
  state_payload (normalized state') = Some raw -> (attempts <> 0)%nat ->
  (first = true -> attempts = 2%nat) ->
  held c Exclusive base (replace_state attempts first raw) (fun r d _ => save_result r d)
    (publish RegistryFile registry base) x.
Proof using All.
  intros Hreg Hraw. revert first x.
  induction attempts as [|attempts IH]; intros first x Ha Hf; [done|].
  assert (takes_effect c base None (publish RegistryFile registry base)) as Hhalf.
  { apply half_saved_effect; [done|constructor]. }
  assert (forall e, save_result (Err e) (publish RegistryFile registry base)) as Herr
    by (right; eauto).
  cbn [replace_state]. apply held_do; [done..|]. intros ok d x' [-> ->].
  destruct ok; [|by apply held_ret]. apply held_do; [done..|].
  intros ok d x' (-> & o & -> & Ho). destruct ok; [|by apply held_ret]. rewrite Ho by done.
  apply held_do; [done..|]. intros [] d x' Hren; cbn in Hren.
  - destruct Hren as (raw' & [= <-] & -> & ->). apply held_ret.
    + eapply saved_effect; [done..|]. by left.
    + exists registry, raw. done.
  - destruct Hren as [-> ->]. apply held_do; [done..|]. intros _ d x' (-> & o' & ->).
    destruct first; [|by apply held_ret]. apply IH; [|done]. by specialize (Hf eq_refl); lia.
  - destruct Hren as [-> ->]. apply held_do; [done..|]. intros _ d x' (-> & o' & ->).
    by apply held_ret.
Qed.

Lemma held_save x :
  held c Exclusive base (save state') (fun r d _ => save_result r d) base x.
Proof using All.
  pose proof unsaved_effect as Hnone.
  assert (forall e, save_result (Err e) base) as Herr by (by left).
  unfold save. apply held_attempt. unfold save_remote_view_handoff_registry.
  apply held_do; [done..|]. intros ok d x' [-> ->]. destruct ok; [|by apply held_ret].
  destruct (registry_payload (normalized state')) as [registry|] eqn:Hreg; [|by apply held_ret].
  apply held_do; [done..|]. intros ok d x' (-> & o & -> & Ho).
  destruct ok; [|by apply held_ret]. rewrite Ho by done.
  apply held_do; [done..|]. intros [] d x' Hren; cbn in Hren.
  - destruct Hren as (raw' & [= <-] & -> & ->).
    assert (takes_effect c base None (publish RegistryFile registry base)) as Hhalf
      by (apply half_saved_effect; [done|constructor]).
    apply held_ret; [done|].
    destruct (state_payload (normalized state')) as [raw|] eqn:Hraw.
    + by apply held_replace_state.
    + apply held_ret; [done|]. right. eauto.
  - destruct Hren as [-> ->]. apply held_do; [done..|]. intros _ d x' (-> & o' & ->).
    by apply held_ret.
  - destruct Hren as [-> ->]. apply held_do; [done..|]. intros _ d x' (-> & o' & ->).
    by apply held_ret.
Qed.
End saving.
(** ** A whole call *)

(** The lock is given up, the guard of the mutex is dropped and the outcome returned. *)
Definition drops (o : outcome) (p : prog outcome) : Prop :=
  match p with
  | Ret _ => False
  | Do e k => match e as e return (resp e -> prog outcome) -> Prop with
              | UnlockMutex _ => fun k => k tt = Ret o
              | _ => fun _ => False
              end k
  end.

(** A thread that holds the lock since the disk was [base]. *)
Fixpoint locked (c : call) (mode : ServiceStateFileLockMode) (base : disk) (p : prog outcome)
    (d : disk) (x : temps) : Prop :=
  takes_effect c base None d /\
  match p with
  | Ret _ => False
  | Do e k =>
      (allowed mode e x /\
        forall r d' x', local e d x r d' x' -> locked c mode base (k r) d' x')
      \/ match e as e return (resp e -> prog outcome) -> Prop with
         | UnlockFile => fun k => exists o, takes_effect c base (Some o) d /\ drops o (k tt)
         | _ => fun _ => False
         end k
  end.

(** A thread that does not hold the lock yet; [guard] is whether it holds the mutex. *)
Fixpoint before (c : call) (guard : bool) (p : prog outcome) : Prop :=
  match p with
  | Ret o => guard = false /\ failed (Some o)
  | Do e k =>
      match e as e return (resp e -> prog outcome) -> Prop with
      | LockMutex | TryLockMutex => fun k =>
          guard = false /\ before c true (k true) /\ before c false (k false)
      | UnlockMutex _ => fun k => guard = true /\ before c false (k tt)
      | CreateDirAll | OpenLockFile => fun k => forall r, before c guard (k r)
      | LockFile mode => fun k => guard = true /\ before c true (k false)
          /\ forall d x, locked c mode d (k true) d x
      | TryLockFile => fun k => guard = true /\ before c true (k false)
          /\ forall d x, locked c Exclusive d (k true) d x
      | _ => fun _ => False
      end k
  end.

Lemma locked_body c mode base (body : prog outcome) (rest : outcome -> prog outcome) d x :
  (forall o, drops o (rest o)) ->
  held c mode base body (fun o d _ => takes_effect c base (Some o) d) d x ->
  locked c mode base (with_file_lock body ≫= rest) d x.
Proof.
  intros Hrest. revert d x. induction body as [o|e k IH]; intros d x; cbn.
  - intros [He Ho]. split; [done|]. right. exists o. split; [done|apply Hrest].
  - intros (He & Ha & Hk). split; [done|]. left. split; [done|]. intros r d' x' Hl. by apply IH, Hk.
Qed.

Lemma load_died (c : call) d : takes_effect c d None d.
Proof. apply no_effect. constructor. Qed.
Lemma load_reported (c : call) d error : takes_effect c d (Some (Returned (Err error))) d.
Proof. apply no_effect. constructor. Qed.
Ltac no_change := apply held_ret; [apply load_died|apply load_reported].

Lemma held_snapshot d x :
  held (LoadSnapshot : call) Shared d
    (state ← load; returned (R:=R) (state ← state; Ok (Snapshot state)))
    (fun o d' _ => takes_effect (LoadSnapshot : call) d (Some o) d') d x.
Proof.
  apply held_bind, held_load; [apply load_died| |intros error; no_change].
  apply held_ret; [apply load_died|]. destruct (load_files d) as [state|error] eqn:Hl; [|apply load_reported].
  by eapply snapshot.
Qed.

Lemma held_mutate m d x :
  held (Mutate m) Exclusive d
    (state ← load;
     match state with
     | Err error => returned (Err error)
     | Ok state =>
         match m state with
         | Panics => Ret Panicked
         | Returns (Err error) => returned (Err error)
         | Returns (Ok (result, state)) =>
             saved ← save state;
             returned (match saved with Ok _ => Ok (Done result) | Err error => Err error end)
         end
     end) (fun o d' _ => takes_effect (Mutate m) d (Some o) d') d x.
Proof.
  apply held_bind, held_load; [apply load_died| |intros error; no_change].
  destruct (load_files d) as [state|error] eqn:Hl; [|no_change].
  destruct (m state) as [[[result state']|error]|] eqn:Hm; [|no_change|].
  - apply held_bind. eapply held_weaken; [by eapply held_save|].
    intros [[]|error] d' x' Hs; cbn in Hs.
    + destruct Hs as (registry & raw & Hr & Hraw & ->).
      apply held_ret; eapply saved; try done; [by left|]. right; left. by split.
    + destruct Hs as [->|(registry & Hr & ->)]; [no_change|].
      apply held_ret; eapply half_saved; try done; constructor.
  - apply held_ret; [apply load_died|]. by eapply panicked.
Qed.

Lemma sync_data_contents f d : same_contents (sync_data f d) d.
Proof. by intros []; destruct f. Qed.
Lemma sync_entries_contents d : same_contents (sync_entries d) d.
Proof. by intros []. Qed.
Lemma same_contents_trans d1 d2 d3 :
  same_contents d1 d2 -> same_contents d2 d3 -> same_contents d1 d3.
Proof. intros H12 H23 f. by rewrite H12. Qed.

Ltac stop none err := apply held_ret; [by apply none|apply held_ret; [by apply none|by apply err]].

Lemma held_durable m d x :
  held (TryMutateDurable m) Exclusive d
    (state ← load;
     match state with
     | Err _ => returned (Err "private_service_state_load_failed"%string)
     | Ok state =>
         match m state with
         | Panics => Ret Panicked
         | Returns (Err _) => returned (Err "private_service_state_mutation_rejected"%string)
         | Returns (Ok (result, state)) =>
             saved ← save state;
             match saved with
             | Err _ => returned (Err commit_uncertain)
             | Ok _ =>
                 durable ← check (perform (SyncFile StateFile)) commit_uncertain (
                           check (perform (SyncFile RegistryFile)) commit_uncertain (
                           check (perform SyncDirectory) commit_uncertain (
                           Ret (Ok (Done result)))));
                 returned durable
             end
         end
     end) (fun o d' _ => takes_effect (TryMutateDurable m) d (Some o) d') d x.
Proof.
  apply held_bind, held_load; [apply load_died| |intros error; no_change].
  destruct (load_files d) as [state|error] eqn:Hl; [|no_change].
  destruct (m state) as [[[result state']|error]|] eqn:Hm; [|no_change|].
  - apply held_bind. eapply held_weaken; [by eapply held_save|].
    intros [[]|error] d' x' Hs; cbn in Hs.
    + destruct Hs as (registry & raw & Hr & Hraw & ->).
      set (d' := publish StateFile raw (publish RegistryFile registry d)).
      assert (forall o d2, same_contents d2 d' ->
        (o = None
         \/ o = Some (Returned (Ok (Done result)))
            /\ (is_durable (TryMutateDurable m) -> forall f, durable (get f d2))
         \/ o = Some (Returned (Err commit_uncertain)) /\ is_durable (TryMutateDurable m)) ->
        takes_effect (TryMutateDurable m) d o d2) as Hsaved by (intros; by eapply saved).
      assert (forall d2, same_contents d2 d' -> takes_effect (TryMutateDurable m) d None d2) as Hnone
        by (intros; apply Hsaved; [done|by left]).
      assert (forall d2, same_contents d2 d' -> takes_effect (TryMutateDurable m) d
        (Some (Returned (Err commit_uncertain))) d2) as Herr
        by (intros; apply Hsaved; [done|by right; right]).
      apply held_bind. apply held_do; [by apply Hnone|done|]. intros ok d1 x1 [-> ->].
      pose proof (sync_data_contents StateFile d') as Hs1.
      destruct ok; [|stop Hnone Herr].
      apply held_do; [by apply Hnone|done|]. intros ok d2 x2 [-> ->].
      pose proof (same_contents_trans _ _ _
        (sync_data_contents RegistryFile (sync_data StateFile d')) Hs1) as Hs2.
      destruct ok; [|stop Hnone Herr].
      apply held_do; [by apply Hnone|done|]. intros ok d3 x3 [-> ->].
      pose proof (same_contents_trans _ _ _ (sync_entries_contents
        (sync_data RegistryFile (sync_data StateFile d'))) Hs2) as Hs3.
      destruct ok; [|stop Hnone Herr].
      apply held_ret; [by apply Hnone|apply held_ret; [by apply Hnone|]].
      apply Hsaved; [done|]. right; left. split; [done|]. by intros _ [].
    + destruct Hs as [->|(registry & Hr & ->)]; [no_change|].
      apply held_ret; eapply half_saved; try done; constructor.
  - apply held_ret; [apply load_died|]. by eapply panicked.
Qed.

(** The steps of a call around the part that holds the lock. *)
Lemma around_lock c mode (body : prog outcome) d x :
  held c mode d body (fun o d' _ => takes_effect c d (Some o) d') d x ->
  locked c mode d (with_file_lock body ≫= fun o =>
    perform (UnlockMutex (match o with Panicked => true | Returned _ => false end)) ≫= fun _ => Ret o)
    d x.
Proof. intros Hb. by apply locked_body. Qed.

Lemma reported_before (c : call) error : failed (Some (Returned (Err error) : outcome)).
Proof. constructor. Qed.

Lemma run_before c : before c false (run c).
Proof.
  pose proof (reported_before c) as Hr.
  destruct c as [|m|m]; cbn -[with_file_lock load]; split_and!; try done;
    (intros []; [|by split_and!]); (intros []; [|by split_and!]); split_and!; try done; intros d x.
  - apply (around_lock LoadSnapshot Shared), held_snapshot.
  - apply (around_lock (Mutate m) Exclusive), held_mutate.
  - apply (around_lock (TryMutateDurable m) Exclusive), held_durable.
Qed.
End proofs.
End ServiceStoreProofs.

(** ** The store as a register: the invariant

    At every moment of every interleaving the calls that have taken effect form a serial
    history of the register, and the disk is the one it leads to, or one in the course of
    the call that holds the lock alone. *)

Import ServiceStore ServiceStoreSystem ServiceStoreProofs.

Module ServiceStoreInvariant.

Section invariant.
Context {ServiceState RemoteViewHandoff R : Type}.
Context `{!StateModel ServiceState RemoteViewHandoff}.
Context `{!Serde ServiceState}.
Context `{!Serde (@RemoteViewHandoffRegistry RemoteViewHandoff)}.
Context `{!PrettyString ServiceState}.
Context `{!PrettyString (@RemoteViewHandoffRegistry RemoteViewHandoff)}.
Context (may_fail : bool).
Local Abbreviation call := (@call ServiceState R).
Local Abbreviation outcome := (@outcome ServiceState R).
Local Abbreviation sys := (@sys ServiceState R).
Local Abbreviation entry := (@entry ServiceState R).
Local Abbreviation thread := (@thread ServiceState R).

(** ** One effect of a thread that holds the lock *)

Lemma temps_of_insert (temps' : gmap (nat * file) string) (s : sys) pid f o :
  (forall key, key <> (pid, f) -> temps' !! key = sy_temps s !! key) -> temps' !! (pid, f) = o ->
  temps_of pid (with_temps temps' s) = set_temp f o (temps_of pid s).
Proof.
  intros Hother <-. unfold temps_of, set_temp. cbn.
  destruct f; f_equal; (done || by apply Hother).
Qed.

Lemma exec_local mode e t pid (s : sys) r s' :
  allowed mode e (temps_of pid s) -> exec may_fail e t pid s r s' ->
  local e (sy_disk s) (temps_of pid s) r (sy_disk s') (temps_of pid s')
  /\ sy_mutexes s' = sy_mutexes s /\ sy_locks s' = sy_locks s /\ sy_threads s' = sy_threads s
  /\ sy_events s' = sy_events s
  /\ (mode = Shared -> sy_disk s' = sy_disk s /\ sy_temps s' = sy_temps s).
Proof.
  destruct e; cbn; try done.
  - by intros _ [-> _].
  - by intros _ [-> _].
  - intros _ [-> [->|[-> _]]]; split_and!; auto.
  - intros Hm Hx. destruct r.
    + subst s'. split_and!; try done; [|congruence]. exists (Some payload). split; [|done].
      apply temps_of_insert; [|by rewrite lookup_insert_eq]. intros key Hk. by rewrite lookup_insert_ne.
    + destruct Hx as [_ (temps' & -> & Hother)]. split_and!; try done; [|congruence].
      exists (temps' !! (pid, f)). split; [by apply temps_of_insert|done].
  - intros [Hm _] Hx. destruct r; [|destruct Hx as [_ ->]; by split_and!| destruct Hx as [_ ->]; by split_and!].
    destruct Hx as (raw & Hraw & ->). split_and!; try done; [|congruence].
    exists raw. split_and!; [by destruct f|done|].
    apply (temps_of_insert _ s); [|by rewrite lookup_delete_eq].
    intros key Hk. by rewrite lookup_delete_ne.
  - intros Hm (temps' & -> & Hother). split_and!; try done; [|congruence].
    exists (temps' !! (pid, f)). by apply temps_of_insert.
  - intros Hm Hx. destruct r; [subst s'|destruct Hx as [_ ->]]; split_and!; try done; congruence.
  - intros Hm Hx. destruct r; [subst s'|destruct Hx as [_ ->]]; split_and!; try done; congruence.
Qed.

(** ** The invariant *)

Definition unlisted (t : nat) (lin : list entry) : Prop := forall e, e ∈ lin -> ~ entry_of t e.

(** Where a thread stands in its call. *)
Definition phase (s : sys) (lin : list entry) (base : disk) (t : nat) (th : thread) : Prop :=
  let guard := bool_decide (sy_mutexes s !! th_pid th = Some t) in
  match sy_locks s !! t with
  | Some mode => guard = true /\ unlisted t lin
      /\ locked (th_call th) mode base (th_prog th) (sy_disk s) (temps_of (th_pid th) s)
  | None => unlisted t lin /\ before (th_call th) guard (th_prog th)
      \/ exists o, Entry t (th_call th) (Some o) ∈ lin
           /\ if guard then drops o (th_prog th) else th_prog th = Ret o
  end.

Definition tid (e : entry) : option nat := match e with Entry t _ _ => Some t | PowerLoss => None end.

Record invariant (d0 : disk) (s : sys) (lin : list entry) (base : disk) : Prop := {
  inv_serial : serial d0 lin base;
  inv_quiet : (forall t, sy_locks s !! t <> Some Exclusive) -> base = sy_disk s;
  inv_alone : forall t t' mode, sy_locks s !! t = Some Exclusive -> sy_locks s !! t' = Some mode ->
    t' = t;
  inv_locks : forall t mode, sy_locks s !! t = Some mode -> is_Some (sy_threads s !! t);
  inv_mutexes : forall pid t, sy_mutexes s !! pid = Some t ->
    exists th, sy_threads s !! t = Some th /\ th_pid th = pid;
  inv_phase : forall t th, sy_threads s !! t = Some th -> phase s lin base t th;
  inv_threads : forall t th, sy_threads s !! t = Some th ->
    Started t (th_call th) ∈ sy_events s /\ forall o, Finished t o ∉ sy_events s;
  inv_entries : forall t c o, Entry t c o ∈ lin -> Started t c ∈ sy_events s;
  inv_once : NoDup (omap tid lin);
  inv_finished : forall t o, Finished t o ∈ sy_events s -> exists c, Entry t c (Some o) ∈ lin;
  inv_order : forall t t', before_in (sy_events s) (finished t) (started t') ->
    ~ unlisted t' lin -> before_in lin (entry_of t) (entry_of t');
}.

Lemma invariant_idle d : invariant d (idle d) [] d.
Proof.
  split; cbn; try done; try (intros; by rewrite lookup_empty in *).
  - constructor.
  - set_solver.
  - constructor.
  - set_solver.
  - intros t t' (l1 & a & l2 & b & l3 & Hl & _). by destruct l1.
Qed.

(** ** Lists of entries and of events *)

Lemma unlisted_tid t lin : unlisted t lin <-> t ∉ omap tid lin.
Proof.
  unfold unlisted. rewrite list_elem_of_omap. split.
  - intros Hu ([t' c o|] & He & [= <-]). by apply (Hu _ He).
  - intros Hu [t' c o|] He; [|by intros []]. intros ->. apply Hu. by exists (Entry t c o).
Qed.
Lemma unlisted_app t lin extra : unlisted t (lin ++ extra) <-> unlisted t lin /\ unlisted t extra.
Proof. unfold unlisted. set_solver. Qed.
Lemma unlisted_one t t' c o : unlisted t [Entry t' c o] <-> t <> t'.
Proof. unfold unlisted. split; [|set_solver]. intros Hu ->. by apply (Hu (Entry t' c o)); [left|]. Qed.

Lemma listed (t : nat) (c : call) o (lin : list entry) : Entry t c o ∈ lin -> ~ unlisted t lin.
Proof. intros He Hu. by apply (Hu _ He). Qed.

Lemma before_in_app {A} (l extra : list A) p q : before_in l p q -> before_in (l ++ extra) p q.
Proof.
  intros (l1 & a & l2 & b & l3 & -> & Ha & Hb). exists l1, a, l2, b, (l3 ++ extra).
  by rewrite <-app_assoc, <-app_comm_cons, <-app_assoc.
Qed.
Lemma before_in_snoc {A} (l : list A) x p q :
  before_in (l ++ [x]) p q -> before_in l p q \/ q x /\ exists a, a ∈ l /\ p a.
Proof.
  intros (l1 & a & l2 & b & l3 & Hl & Ha & Hb). destruct l3 as [|y l3] using rev_ind.
  - right. rewrite app_comm_cons, app_assoc in Hl. apply app_inj_2 in Hl as [-> [= ->]]; [|done].
    split; [done|]. exists a. set_solver.
  - left. exists l1, a, l2, b, l3. split_and!; [|done..].
    rewrite !app_comm_cons, !app_assoc in Hl. apply app_inj_2 in Hl as [-> _]; [|done].
    by rewrite <-app_assoc.
Qed.
Lemma before_in_listed {A} (l : list A) x p q a : a ∈ l -> p a -> q x -> before_in (l ++ [x]) p q.
Proof.
  intros (l1 & l2 & ->)%list_elem_of_split Ha Hx. exists l1, a, l2, x, [].
  by rewrite <-app_assoc.
Qed.

(** ** Entries that are added *)

(** The entries a step adds to the history: none, or the one of a call that has none. *)
Definition extends (t : nat) (c : call) (lin extra : list entry) : Prop :=
  extra = [] \/ exists o, extra = [Entry t c o] /\ unlisted t lin.

Lemma extends_once t c lin extra :
  extends t c lin extra -> NoDup (omap tid lin) -> NoDup (omap tid (lin ++ extra)).
Proof.
  intros [->|(o & -> & Hu)] Hn; [by rewrite app_nil_r|].
  rewrite omap_app. apply NoDup_app. split_and!; [done| |cbn; apply NoDup_singleton].
  cbn. intros x Hx ->%list_elem_of_singleton. by apply unlisted_tid in Hu.
Qed.
Lemma extends_other t c lin extra t' :
  extends t c lin extra -> t' <> t -> unlisted t' (lin ++ extra) <-> unlisted t' lin.
Proof.
  intros [->|(o & -> & Hu)] Hne; rewrite unlisted_app, ?unlisted_one; [|tauto].
  split; [tauto|]. split; [done|]. intros e. set_solver.
Qed.
Lemma extends_entry t c lin extra t' c' o' :
  extends t c lin extra -> Entry t' c' o' ∈ lin ++ extra ->
  Entry t' c' o' ∈ lin \/ t' = t /\ c' = c.
Proof. intros [->|(o & -> & _)]; set_solver. Qed.

(** The order of the history respects the order of the calls when the calls that have
    finished are listed. *)
Lemma extends_order t c lin extra (events : list (@event ServiceState R)) :
  extends t c lin extra ->
  (forall t o, Finished t o ∈ events -> exists c, Entry t c (Some o) ∈ lin) ->
  (forall t t', before_in events (finished t) (started t') -> ~ unlisted t' lin ->
    before_in lin (entry_of t) (entry_of t')) ->
  forall t t', before_in events (finished t) (started t') -> ~ unlisted t' (lin ++ extra) ->
    before_in (lin ++ extra) (entry_of t) (entry_of t').
Proof.
  intros Hx Hfin Hord t1 t2 Hb Hl. destruct Hx as [->|(o & -> & Hu)].
  { rewrite app_nil_r in *. by apply Hord. }
  destruct (decide (t2 = t)) as [->|Hne].
  - destruct Hb as (l1 & a & l2 & b & l3 & -> & Ha & _).
    destruct a as [|t3 o3]; [done|]. cbn in Ha. subst t3.
    destruct (Hfin t1 o3) as [c1 Hin]; [set_solver|].
    by eapply before_in_listed.
  - apply before_in_app, Hord; [done|]. intros Hun. apply Hl.
    by apply (extends_other t c _ _ _ (or_intror (ex_intro _ o (conj eq_refl Hu)))).
Qed.

(** ** A step of one thread *)

Lemma phase_other (s s' : sys) lin extra base base' t c t' th' :
  extends t c lin extra -> t' <> t ->
  sy_locks s' !! t' = sy_locks s !! t' ->
  (sy_mutexes s' !! th_pid th' = Some t' <-> sy_mutexes s !! th_pid th' = Some t') ->
  (sy_locks s !! t' <> None -> base' = base /\ sy_disk s' = sy_disk s /\ sy_temps s' = sy_temps s) ->
  phase s lin base t' th' -> phase s' (lin ++ extra) base' t' th'.
Proof.
  intros Hx Hne Hlock Hmutex Hheld. unfold phase. rewrite Hlock, (bool_decide_ext _ _ Hmutex).
  destruct (sy_locks s !! t') as [mode|] eqn:Hl.
  - destruct Hheld as (-> & Hd & Ht); [done|]. intros (Hg & Hu & Hk). split_and!; [done| |].
    + by apply (extends_other _ _ _ _ _ Hx).
    + unfold temps_of in *. by rewrite Hd, Ht.
  - intros [[Hu Hb]|(o & Ho & Hd)]; [left|right].
    + split; [|done]. by apply (extends_other _ _ _ _ _ Hx).
    + exists o. split; [set_solver|done].
Qed.

Lemma thread_invariant d0 s lin base t th s' prog' extra base' :
  invariant d0 s lin base -> sy_threads s !! t = Some th ->
  let th' := {| th_pid := th_pid th; th_call := th_call th; th_prog := prog' |} in
  sy_threads s' = <[t := th']> (sy_threads s) -> sy_events s' = sy_events s ->
  (forall t', t' <> t -> sy_locks s' !! t' = sy_locks s !! t') ->
  (forall pid t', t' <> t -> sy_mutexes s' !! pid = Some t' <-> sy_mutexes s !! pid = Some t') ->
  (forall pid, sy_mutexes s' !! pid = Some t -> pid = th_pid th) ->
  (forall t', t' <> t -> sy_locks s !! t' <> None ->
    base' = base /\ sy_disk s' = sy_disk s /\ sy_temps s' = sy_temps s) ->
  extends t (th_call th) lin extra -> serial d0 (lin ++ extra) base' ->
  ((forall t, sy_locks s' !! t <> Some Exclusive) -> base' = sy_disk s') ->
  (forall t1 t2 mode, sy_locks s' !! t1 = Some Exclusive -> sy_locks s' !! t2 = Some mode ->
    t2 = t1) ->
  phase s' (lin ++ extra) base' t th' ->
  invariant d0 s' (lin ++ extra) base'.
Proof.
  intros [Hser Hquiet Halone Hlocks Hmutexes Hphase Hthreads Hentries Honce Hfin Hord] Ht th'
    Hths Hevs Hl Hm Hmt Hother Hx Hser' Hquiet' Halone' Hphase'.
  split; rewrite ?Hths, ?Hevs; try done.
  - intros t' mode Ht'. destruct (decide (t' = t)) as [->|Hne]; [by rewrite lookup_insert_eq|].
    rewrite lookup_insert_ne by done. rewrite Hl in Ht' by done. by eapply Hlocks.
  - intros pid t' Ht'. destruct (decide (t' = t)) as [->|Hne].
    + exists th'. rewrite lookup_insert_eq. split; [done|]. by rewrite (Hmt _ Ht').
    + apply Hm in Ht' as (th1 & Hth1 & Hp)%Hmutexes; [|done]. exists th1.
      by rewrite lookup_insert_ne.
  - intros t' th1. destruct (decide (t' = t)) as [->|Hne].
    + rewrite lookup_insert_eq. by intros [= <-].
    + rewrite lookup_insert_ne by done. intros Hth1.
      apply (phase_other s s' lin extra base base' t (th_call th));
        [done|done|by apply Hl|by apply Hm|by apply Hother|by apply Hphase].
  - intros t' th1. destruct (decide (t' = t)) as [->|Hne].
    + rewrite lookup_insert_eq. intros [= <-]. by apply (Hthreads _ _ Ht).
    + rewrite lookup_insert_ne by done. apply Hthreads.
  - intros t' c' o' [Hin|[-> ->]]%(extends_entry _ _ _ _ _ _ _ Hx); [by eapply Hentries|].
    by apply (Hthreads _ _ Ht).
  - by eapply extends_once.
  - intros t' o Ho. destruct (Hfin _ _ Ho) as [c' Hc]. exists c'. set_solver.
  - by eapply extends_order.
Qed.

(** *** The effects of a call, by the place of the thread *)

Lemma same_guard (s s' : sys) pid t : sy_mutexes s' = sy_mutexes s ->
  bool_decide (sy_mutexes s' !! pid = Some t) = bool_decide (sy_mutexes s !! pid = Some t).
Proof. by intros ->. Qed.

(** A thread that holds the lock. *)
Lemma locked_step d0 (s : sys) lin base t th e k r s' mode :
  invariant d0 s lin base -> sy_threads s !! t = Some th -> th_prog th = Do e k ->
  sy_locks s !! t = Some mode -> exec may_fail e t (th_pid th) s r s' ->
  exists extra base', invariant d0
    (with_threads (<[t := {| th_pid := th_pid th; th_call := th_call th; th_prog := k r |}]>
                     (sy_threads s')) [] s') (lin ++ extra) base'.
Proof.
  intros Hi Ht Hp Hm Hx. pose proof (inv_phase _ _ _ _ Hi _ _ Ht) as Hphase.
  unfold phase in Hphase. rewrite Hm, Hp in Hphase. destruct Hphase as (Hg & Hu & Hlk & Hcase).
  assert (forall t', t' <> t -> sy_locks s !! t' <> None -> mode = Shared) as Hsole.
  { intros t' Hne Ht'. destruct mode; [done|]. destruct (sy_locks s !! t') as [mode'|] eqn:E; [|done].
    destruct Hne. by apply (inv_alone _ _ _ _ Hi _ _ _ Hm E). }
  destruct Hcase as [[Ha Hk]|Hunlock].
  - exists [], base.
    destruct (exec_local mode _ _ _ _ _ _ Ha Hx) as (Hl & Hms & Hls & Hths & Hes & Hsh).
    apply (thread_invariant d0 s lin base t th _ (k r)); rewrite ?app_nil_r; cbn;
      rewrite ?Hms, ?Hls, ?Hths, ?Hes, ?app_nil_r; try done.
    + intros pid Hpid. destruct (inv_mutexes _ _ _ _ Hi _ _ Hpid) as (th' & Hth' & <-). congruence.
    + intros t' Hne Ht'. split; [done|]. by apply Hsh, (Hsole t').
    + by left.
    + apply (inv_serial _ _ _ _ Hi).
    + intros Hq. destruct mode; [|by destruct (Hq t)]. destruct Hsh as [-> _]; [done|].
      by apply (inv_quiet _ _ _ _ Hi).
    + apply (inv_alone _ _ _ _ Hi).
    + unfold phase. cbn. rewrite Hls, Hm, Hms. split_and!; [done..|]. apply Hk, Hl.
  - destruct e; try done. cbn in Hx. subst s'. destruct Hunlock as (o & Ho & Hd).
    exists [Entry t (th_call th) (Some o)], (sy_disk s).
    assert (mode = Shared -> base = sy_disk s) as Hbase.
    { intros ->. apply (inv_quiet _ _ _ _ Hi). intros t' Ht'.
      pose proof (inv_alone _ _ _ _ Hi _ _ _ Ht' Hm). congruence. }
    apply (thread_invariant d0 s lin base t th _ (k r)); cbn; rewrite ?app_nil_r; try done.
    + intros t' Hne. by rewrite lookup_delete_ne.
    + intros pid Hpid. destruct (inv_mutexes _ _ _ _ Hi _ _ Hpid) as (th' & Hth' & <-). congruence.
    + intros t' Hne Ht'. split_and!; try done. symmetry. by apply Hbase, (Hsole t').
    + right. eauto.
    + econstructor; [apply (inv_serial _ _ _ _ Hi)|done].
    + intros t1 t2 mode' H1 H2. apply lookup_delete_Some in H1 as [_ H1], H2 as [_ H2].
      by apply (inv_alone _ _ _ _ Hi _ _ _ H1 H2).
    + unfold phase. cbn. rewrite lookup_delete_eq. right. exists o. split; [set_solver|].
      rewrite Hg. by destruct r.
Qed.

(** A step that changes no more than the mutex of the process. *)
Lemma mutex_step d0 (s : sys) lin base t th prog' mutexes poisoned :
  invariant d0 s lin base -> sy_threads s !! t = Some th -> sy_locks s !! t = None ->
  let th' := {| th_pid := th_pid th; th_call := th_call th; th_prog := prog' |} in
  (forall pid t', t' <> t -> mutexes !! pid = Some t' <-> sy_mutexes s !! pid = Some t') ->
  (forall pid, mutexes !! pid = Some t -> pid = th_pid th) ->
  phase (with_mutexes mutexes poisoned s) lin base t th' ->
  invariant d0 (with_threads (<[t := th']> (sy_threads s)) [] (with_mutexes mutexes poisoned s))
    lin base.
Proof.
  intros Hi Ht Hl th' Hm Hmt Hphase. rewrite <-(app_nil_r lin).
  apply (thread_invariant d0 s lin base t th _ prog'); cbn; rewrite ?app_nil_r; try done.
  - by left.
  - apply (inv_serial _ _ _ _ Hi).
  - apply (inv_quiet _ _ _ _ Hi).
  - apply (inv_alone _ _ _ _ Hi).
Qed.

Lemma same_mutexes (s : sys) : with_mutexes (sy_mutexes s) (sy_poisoned s) s = s.
Proof. by destruct s. Qed.

Lemma own_mutex d0 (s : sys) lin base t th :
  invariant d0 s lin base -> sy_threads s !! t = Some th ->
  forall pid, sy_mutexes s !! pid = Some t -> pid = th_pid th.
Proof.
  intros Hi Ht pid Hpid. destruct (inv_mutexes _ _ _ _ Hi _ _ Hpid) as (th' & Hth' & <-). congruence.
Qed.

(** A thread that stays where it is, in the place of its program that follows. *)
Lemma stay_step d0 (s : sys) lin base t th prog' :
  invariant d0 s lin base -> sy_threads s !! t = Some th -> sy_locks s !! t = None ->
  let th' := {| th_pid := th_pid th; th_call := th_call th; th_prog := prog' |} in
  phase s lin base t th' -> invariant d0 (with_threads (<[t := th']> (sy_threads s)) [] s) lin base.
Proof.
  intros Hi Ht Hl th' Hp. rewrite <-(same_mutexes s) at 2.
  apply mutex_step; [done..|by eapply own_mutex|by rewrite same_mutexes].
Qed.

Lemma take_mutex_step d0 (s : sys) lin base t th prog' :
  invariant d0 s lin base -> sy_threads s !! t = Some th -> sy_locks s !! t = None ->
  sy_mutexes s !! th_pid th = None -> unlisted t lin -> before (th_call th) true prog' ->
  invariant d0 (with_threads (<[t := {| th_pid := th_pid th; th_call := th_call th;
      th_prog := prog' |}]> (sy_threads s)) []
    (with_mutexes (<[th_pid th := t]> (sy_mutexes s)) (sy_poisoned s) s)) lin base.
Proof.
  intros Hi Ht Hl Hfree Hu Hb. apply mutex_step; [done..| | |].
  - intros pid t' Hne. destruct (decide (pid = th_pid th)) as [->|Hp].
    + rewrite lookup_insert_eq, Hfree. naive_solver.
    + by rewrite lookup_insert_ne.
  - intros pid. destruct (decide (pid = th_pid th)) as [->|Hp]; [done|].
    rewrite lookup_insert_ne by done. by eapply own_mutex.
  - unfold phase. cbn. rewrite Hl, lookup_insert_eq, bool_decide_true by done. by left.
Qed.

Lemma drop_mutex_step d0 (s : sys) lin base t th prog' poisoned :
  invariant d0 s lin base -> sy_threads s !! t = Some th -> sy_locks s !! t = None ->
  sy_mutexes s !! th_pid th = Some t ->
  (unlisted t lin /\ before (th_call th) false prog'
   \/ exists o, Entry t (th_call th) (Some o) ∈ lin /\ prog' = Ret o) ->
  invariant d0 (with_threads (<[t := {| th_pid := th_pid th; th_call := th_call th;
      th_prog := prog' |}]> (sy_threads s)) []
    (with_mutexes (delete (th_pid th) (sy_mutexes s)) poisoned s)) lin base.
Proof.
  intros Hi Ht Hl Hmine Hplace. apply mutex_step; [done..| | |].
  - intros pid t' Hne. destruct (decide (pid = th_pid th)) as [->|Hp].
    + rewrite lookup_delete_eq, Hmine. naive_solver.
    + by rewrite lookup_delete_ne.
  - intros pid [_ Hpid]%lookup_delete_Some. by eapply own_mutex.
  - unfold phase. cbn. rewrite Hl, lookup_delete_eq, bool_decide_false by done.
    destruct Hplace as [?|(o & ? & ->)]; eauto.
Qed.

(** A thread that takes the lock. *)
Lemma take_lock_step d0 (s : sys) lin base t th prog' mode :
  invariant d0 s lin base -> sy_threads s !! t = Some th -> sy_locks s !! t = None ->
  sy_mutexes s !! th_pid th = Some t -> unlisted t lin -> lock_free mode (sy_locks s) ->
  (forall d x, locked (th_call th) mode d prog' d x) ->
  invariant d0 (with_threads (<[t := {| th_pid := th_pid th; th_call := th_call th;
      th_prog := prog' |}]> (sy_threads s)) [] (with_locks (<[t := mode]> (sy_locks s)) s)) lin base.
Proof.
  intros Hi Ht Hl Hmine Hu Hfree Hk. rewrite <-(app_nil_r lin).
  assert (forall t' m, sy_locks s !! t' = Some m -> mode = Shared /\ m = Shared) as Hothers.
  { intros t' m Hm. destruct mode; cbn in Hfree; [by rewrite (Hfree _ _ Hm)|].
    by rewrite Hfree, lookup_empty in Hm. }
  assert (base = sy_disk s) as Hbase.
  { apply (inv_quiet _ _ _ _ Hi). intros t' Ht'. by destruct (Hothers _ _ Ht'). }
  apply (thread_invariant d0 s lin base t th _ prog'); cbn; rewrite ?app_nil_r; try done.
  - intros t' Hne. by rewrite lookup_insert_ne.
  - by eapply own_mutex.
  - by left.
  - apply (inv_serial _ _ _ _ Hi).
  - intros t1 t2 m H1 H2. apply lookup_insert_Some in H1 as [[<- ->]|[Hn1 H1]].
    + apply lookup_insert_Some in H2 as [[<- _]|[Hn2 H2]]; [done|]. by destruct (Hothers _ _ H2).
    + by destruct (Hothers _ _ H1).
  - unfold phase. cbn. rewrite lookup_insert_eq, bool_decide_true by done. rewrite Hbase.
    split_and!; [done..|]. apply Hk.
Qed.

Ltac stays :=
  apply stay_step; [done..|]; unfold phase; cbn;
  match goal with
  | Hl : sy_locks _ !! _ = None, Hg : bool_decide _ = _ |- _ => rewrite Hl, Hg
  end; left; split; auto.

Lemma waiting_step d0 (s : sys) lin base t th e k r s' :
  invariant d0 s lin base -> sy_threads s !! t = Some th -> th_prog th = Do e k ->
  sy_locks s !! t = None -> exec may_fail e t (th_pid th) s r s' ->
  invariant d0
    (with_threads (<[t := {| th_pid := th_pid th; th_call := th_call th; th_prog := k r |}]>
                     (sy_threads s')) [] s') lin base.
Proof.
  intros Hi Ht Hp Hl Hx. pose proof (inv_phase _ _ _ _ Hi _ _ Ht) as Hphase.
  unfold phase in Hphase. rewrite Hl, Hp in Hphase.
  destruct (bool_decide (sy_mutexes s !! th_pid th = Some t)) eqn:Hg.
  - apply bool_decide_eq_true in Hg as Hmine. destruct Hphase as [[Hu Hb]|(o & Ho & Hd)].
    + destruct e; cbn in Hb, Hx; try done; try by destruct Hb.
      * destruct Hb as [_ Hb], r. subst s'. apply (drop_mutex_step d0 s lin base t th); auto.
      * destruct Hx as [-> _]. stays.
      * destruct Hx as [-> _]. stays.
      * destruct Hb as (_ & Hf & Hk), r, Hx as [Hx ->]; [by apply (take_lock_step d0 s lin base t th)|stays].
      * destruct Hb as (_ & Hf & Hk), r, Hx as [Hx ->]; [by apply (take_lock_step d0 s lin base t th)|stays].
    + destruct e; cbn in Hd, Hx; try done. subst s'. destruct r. apply (drop_mutex_step d0 s lin base t th); eauto.
  - destruct Hphase as [[Hu Hb]|(o & Ho & Hd)]; [|done].
    destruct e; cbn in Hb, Hx; try done; try by destruct Hb.
    + destruct Hb as (_ & Hk & Hf), Hx as [Hfree Hx], r, Hx as [Hx ->];
        [by apply (take_mutex_step d0 s lin base t th)|stays].
    + destruct Hb as (_ & Hk & Hf), r; [destruct Hx as (Hfree & _ & ->)|destruct Hx as [_ ->]];
        [by apply (take_mutex_step d0 s lin base t th)|stays].
    + destruct Hx as [-> _]. stays.
    + destruct Hx as [-> _]. stays.
Qed.

(** *** The other steps *)

Lemma start_step d0 (s : sys) lin base t pid c :
  invariant d0 s lin base -> Forall (fun e => forall c', e <> Started t c') (sy_events s) ->
  invariant d0 (with_threads (<[t := {| th_pid := pid; th_call := c; th_prog := run c |}]>
                                (sy_threads s)) [Started t c] s) lin base.
Proof.
  intros Hi Hfresh. rewrite Forall_forall in Hfresh.
  assert (forall c', Started t c' ∉ sy_events s) as Hnew.
  { intros c0 Hin. by apply (Hfresh _ Hin c0). }
  assert (sy_threads s !! t = None) as Hth.
  { destruct (sy_threads s !! t) as [th|] eqn:E; [|done].
    by destruct (Hnew _ (proj1 (inv_threads _ _ _ _ Hi _ _ E))). }
  assert (sy_locks s !! t = None) as Hl.
  { destruct (sy_locks s !! t) as [m|] eqn:E; [|done].
    destruct (inv_locks _ _ _ _ Hi _ _ E). congruence. }
  assert (forall p, sy_mutexes s !! p <> Some t) as Hm.
  { intros p (th & Hth' & _)%(inv_mutexes _ _ _ _ Hi). congruence. }
  assert (unlisted t lin) as Hu.
  { intros [t' c' o|] He; [|by intros []]. intros ->.
    by apply (Hnew c'), (inv_entries _ _ _ _ Hi _ _ o). }
  destruct Hi as [Hser Hquiet Halone Hlocks Hmutexes Hphase Hthreads Hentries Honce Hfin Hord].
  split; cbn; try done.
  - intros t' m Ht'. destruct (Hlocks _ _ Ht') as [th Hth'].
    rewrite lookup_insert_ne by congruence. eauto.
  - intros p t' (th & Hth' & <-)%Hmutexes. exists th. rewrite lookup_insert_ne by congruence. done.
  - intros t' th. destruct (decide (t' = t)) as [->|Hne].
    + rewrite lookup_insert_eq. intros [= <-]. unfold phase. cbn.
      rewrite Hl, bool_decide_false by done. left. split; [done|apply run_before].
    + rewrite lookup_insert_ne by done. intros Hth'. by apply (Hphase _ _ Hth').
  - intros t' th. destruct (decide (t' = t)) as [->|Hne].
    + rewrite lookup_insert_eq. intros [= <-]. split; [set_solver|]. intros o.
      rewrite elem_of_app, list_elem_of_singleton. intros [Ho|[= ]].
      destruct (Hfin _ _ Ho) as [c' Hc']. by apply (Hnew c'), (Hentries _ _ _ Hc').
    + rewrite lookup_insert_ne by done. intros [Hs Hf]%Hthreads. split; [set_solver|].
      intros o. rewrite elem_of_app, list_elem_of_singleton. intros [Ho|[= ]]. by apply (Hf o).
  - intros t' c' o Ho%Hentries. set_solver.
  - intros t' o. rewrite elem_of_app, list_elem_of_singleton. intros [Ho|[= ]]. by apply Hfin.
  - intros t1 t2 [Hb|[Ht2 _]]%before_in_snoc Hl2; [by apply Hord|]. cbn in Ht2. by subst t2.
Qed.

Lemma finish_step d0 (s : sys) lin base t th o :
  invariant d0 s lin base -> sy_threads s !! t = Some th -> th_prog th = Ret o ->
  exists extra, invariant d0 (with_threads (delete t (sy_threads s)) [Finished t o] s)
    (lin ++ extra) base.
Proof.
  intros Hi Ht Hp. pose proof (inv_phase _ _ _ _ Hi _ _ Ht) as Hph. unfold phase in Hph.
  rewrite Hp in Hph. destruct (sy_locks s !! t) as [m|] eqn:Hl; [by destruct Hph as (_ & _ & _ & [])|].
  assert (exists extra, extends t (th_call th) lin extra /\ serial d0 (lin ++ extra) base
    /\ Entry t (th_call th) (Some o) ∈ lin ++ extra
    /\ sy_mutexes s !! th_pid th <> Some t) as (extra & Hx & Hser' & Hin & Hfree).
  { pose proof (inv_serial _ _ _ _ Hi) as Hser. destruct Hph as [[Hu [Hg Hf]]|(o' & Ho & Hd)].
    - exists [Entry t (th_call th) (Some o)]. split_and!.
      + right. eauto.
      + econstructor; [done|by apply no_effect].
      + set_solver.
      + by apply bool_decide_eq_false in Hg.
    - exists []. rewrite app_nil_r. split_and!; [by left|done| |].
      + destruct (bool_decide _); [done|]. by injection Hd as <-.
      + by case_bool_decide. }
  exists extra. pose proof (own_mutex _ _ _ _ _ _ Hi Ht) as Hown.
  destruct Hi as [Hser Hquiet Halone Hlocks Hmutexes Hphase Hthreads Hentries Honce Hfin Hord].
  split; cbn; try done.
  - intros t' m Ht'. rewrite lookup_delete_ne by congruence. by eapply Hlocks.
  - intros p t' Hpt. destruct (decide (t' = t)) as [->|Hne].
    + rewrite (Hown _ Hpt) in Hpt. done.
    + rewrite lookup_delete_ne by done. by apply Hmutexes.
  - intros t' th' [Hne Hth']%lookup_delete_Some.
    by apply (phase_other s _ lin extra base base t (th_call th)), Hphase.
  - intros t' th' [Hne Hth']%lookup_delete_Some. apply Hthreads in Hth' as [Hs Hf].
    split; [set_solver|]. intros o'. rewrite elem_of_app, list_elem_of_singleton.
    intros [Ho|[= -> _]]; [by apply (Hf o')|done].
  - intros t' c' o' [Hc|[-> ->]]%(extends_entry _ _ _ _ _ _ _ Hx).
    + apply Hentries in Hc. set_solver.
    + apply Hthreads in Ht as [Hs _]. set_solver.
  - by eapply extends_once.
  - intros t' o'. rewrite elem_of_app, list_elem_of_singleton.
    intros [Ho|[= -> ->]]; [|eauto]. destruct (Hfin _ _ Ho) as [c' Hc']. exists c'. set_solver.
  - intros t1 t2 [Hb|[[] _]]%before_in_snoc. by eapply extends_order.
Qed.

(** *** Deaths *)

(** A thread whose death loses nothing, or the one that holds the lock alone. *)
Lemma holder d0 (s : sys) lin base :
  invariant d0 s lin base ->
  (forall t, sy_locks s !! t <> Some Exclusive) /\ base = sy_disk s
  \/ exists t th, sy_locks s !! t = Some Exclusive /\ sy_threads s !! t = Some th
       /\ unlisted t lin /\ serial d0 (lin ++ [Entry t (th_call th) None]) (sy_disk s).
Proof.
  intros Hi. destruct (decide (map_Forall (fun _ m => m <> Exclusive) (sy_locks s))) as [Hn|Hn].
  - left. assert (forall t, sy_locks s !! t <> Some Exclusive) as Hq by (intros t Ht; by apply (Hn t _ Ht)).
    split; [done|by apply (inv_quiet _ _ _ _ Hi)].
  - right. apply map_not_Forall in Hn as (t & m & Hm & Hx); [|apply _].
    apply dec_stable in Hx as ->. destruct (inv_locks _ _ _ _ Hi _ _ Hm) as [th Ht].
    exists t, th. pose proof (inv_phase _ _ _ _ Hi _ _ Ht) as Hph. unfold phase in Hph.
    rewrite Hm in Hph. destruct Hph as (_ & Hu & Hk). split_and!; [done..|].
    econstructor; [apply (inv_serial _ _ _ _ Hi)|]. by destruct (th_prog th), Hk as [Hk _].
Qed.

Lemma survives_true pid (s : sys) t :
  survives pid s t = true <-> exists th, sy_threads s !! t = Some th /\ th_pid th <> pid.
Proof.
  unfold survives. destruct (sy_threads s !! t) as [th|]; [|naive_solver].
  rewrite negb_true_iff, Nat.eqb_neq. naive_solver.
Qed.

(** The entry of the thread that holds the lock alone, when it dies. *)
Lemma killed_entry d0 (s : sys) lin base pid :
  invariant d0 s lin base ->
  exists tk c extra base', extends tk c lin extra /\ serial d0 (lin ++ extra) base'
    /\ ((forall t, sy_locks s !! t = Some Exclusive -> survives pid s t = false) ->
        base' = sy_disk s)
    /\ (forall t, survives pid s t = true -> t <> tk)
    /\ (forall t, survives pid s t = true -> sy_locks s !! t <> None -> base' = base)
    /\ (extra = [] \/ Started tk c ∈ sy_events s).
Proof.
  intros Hi. pose proof (inv_serial _ _ _ _ Hi) as Hser.
  set (none := fresh (dom (sy_threads s))).
  assert (forall t, survives pid s t = true -> t <> none) as Hnone.
  { intros t (th & Ht & _)%survives_true ->.
    apply (is_fresh (dom (sy_threads s))), elem_of_dom. by eexists. }
  destruct (holder _ _ _ _ Hi) as [[Hq ->]|(t & th & Hl & Ht & Hu & Hs)].
  - exists none, LoadSnapshot, [], (sy_disk s). rewrite app_nil_r. split_and!; try done; by left.
  - destruct (survives pid s t) eqn:Hsv.
    + exists none, LoadSnapshot, [], base. rewrite app_nil_r. split_and!; try done; [by left| |by left].
      intros Hdead. by rewrite (Hdead _ Hl) in Hsv.
    + exists t, (th_call th), [Entry t (th_call th) None], (sy_disk s). split_and!; try done.
      * right. eauto.
      * intros t' Ht' ->. congruence.
      * intros t' Ht' Hl'. destruct (sy_locks s !! t') as [m|] eqn:E; [|done].
        rewrite (inv_alone _ _ _ _ Hi _ _ _ Hl E) in Ht'. congruence.
      * right. by apply (inv_threads _ _ _ _ Hi _ _ Ht).
Qed.

Lemma kill_step d0 (s s' : sys) lin base pid :
  invariant d0 s lin base -> killed pid s s' ->
  exists extra base', invariant d0 s' (lin ++ extra) base'.
Proof.
  intros Hi ->.
  set (locks := filter _ (sy_locks s)). set (threads := filter _ (sy_threads s)).
  assert (forall t m, locks !! t = Some m <-> sy_locks s !! t = Some m /\ survives pid s t = true)
    as Hlk by (intros t m; apply map_lookup_filter_Some).
  assert (forall t th, threads !! t = Some th <->
    sy_threads s !! t = Some th /\ survives pid s t = true) as Hths
    by (intros t th; apply map_lookup_filter_Some).
  destruct (killed_entry _ _ _ _ pid Hi)
    as (tk & c & extra & base' & Hx & Hser' & Hquiet' & Htk & Hsole & Hst).
  exists extra, base'.
  destruct Hi as [Hser Hquiet Halone Hlocks Hmutexes Hphase Hthreads Hentries Honce Hfin Hord].
  split; cbn; try done.
  - intros Hq. apply Hquiet'. intros t Ht. destruct (survives pid s t) eqn:E; [|done].
    destruct (Hq t). by apply Hlk.
  - intros t t' m [H1 _]%Hlk [H2 _]%Hlk. by eapply Halone.
  - intros t m [H1 H2]%Hlk. destruct (Hlocks _ _ H1) as [th Hth]. exists th. by apply Hths.
  - intros p t [Hne Hp]%lookup_delete_Some. destruct (Hmutexes _ _ Hp) as (th & Hth & <-).
    exists th. split; [|done]. apply Hths. split; [done|]. apply survives_true. eauto.
  - intros t th [Hth Hs]%Hths.
    assert (th_pid th <> pid) as Hne by (apply survives_true in Hs as (? & ? & ?); congruence).
    apply (phase_other s _ lin extra base base' tk c); cbn; [done|by apply Htk| | | |by apply Hphase].
    + destruct (sy_locks s !! t) as [m|] eqn:E; [by apply Hlk|].
      destruct (locks !! t) eqn:E'; [apply Hlk in E' as [E' _]; congruence|done].
    + by rewrite lookup_delete_ne.
    + intros Hl. split_and!; try done. by eapply Hsole.
  - intros t th [Hth _]%Hths. by apply Hthreads.
  - intros t c' o Hc. destruct Hst as [->|Hst]; [rewrite app_nil_r in Hc; by eapply Hentries|].
    apply (extends_entry _ _ _ _ _ _ _ Hx) in Hc as [Hc|[-> ->]]; [by eapply Hentries|done].
  - by eapply extends_once.
  - intros t o Ho. destruct (Hfin _ _ Ho) as [c' Hc']. exists c'. set_solver.
  - by eapply extends_order.
Qed.

Lemma power_step d0 (s : sys) lin base d temps :
  invariant d0 s lin base -> power_loss (sy_disk s) d ->
  exists extra, invariant d0 {| sy_disk := d; sy_temps := temps; sy_mutexes := ∅;
    sy_poisoned := ∅; sy_locks := ∅; sy_threads := ∅; sy_events := sy_events s |} (lin ++ extra) d.
Proof.
  intros Hi Hd.
  assert (exists t c extra, extends t c lin extra /\ serial d0 (lin ++ extra) (sy_disk s)
    /\ (extra = [] \/ Started t c ∈ sy_events s)) as (t & c & extra & Hx & Hs & Hst).
  { destruct (holder _ _ _ _ Hi) as [[Hq <-]|(t & th & Hl & Ht & Hu & Hs)].
    - exists 0%nat, LoadSnapshot, []. rewrite app_nil_r.
      split_and!; [by left|apply (inv_serial _ _ _ _ Hi)|by left].
    - exists t, (th_call th), [Entry t (th_call th) None]. split_and!; [right; eauto|done|].
      right. by apply (inv_threads _ _ _ _ Hi _ _ Ht). }
  exists (extra ++ [PowerLoss]). rewrite app_assoc.
  destruct Hi as [Hser Hquiet Halone Hlocks Hmutexes Hphase Hthreads Hentries Honce Hfin Hord].
  split; cbn; try done; try (intros; by rewrite lookup_empty in *).
  - by econstructor.
  - intros t' c' o. rewrite elem_of_app, list_elem_of_singleton. intros [Hc|[= ]].
    destruct Hst as [->|Hst]; [rewrite app_nil_r in Hc; by eapply Hentries|].
    apply (extends_entry _ _ _ _ _ _ _ Hx) in Hc as [Hc|[-> ->]]; [by eapply Hentries|done].
  - rewrite omap_app, app_nil_r. by eapply extends_once.
  - intros t' o Ho. destruct (Hfin _ _ Ho) as [c' Hc']. exists c'. set_solver.
  - intros t1 t2 Hb Hl. apply before_in_app. eapply extends_order; [done..|].
    intros Hu. apply Hl. rewrite unlisted_app. split; [done|]. intros e ->%list_elem_of_singleton [].
Qed.

(** Every step keeps it, and the history only grows. *)
Lemma invariant_step d0 (s s' : sys) lin base :
  invariant d0 s lin base -> step may_fail s s' ->
  exists extra base', invariant d0 s' (lin ++ extra) base'.
Proof.
  intros Hi. destruct 1 as [s t pid c Hf|s t pid c e k r s' Ht Hx|s t pid c o Ht|s pid s' _ Hk
    |s d temps _ Hd].
  - exists [], base. rewrite app_nil_r. by apply start_step.
  - destruct (sy_locks s !! t) as [mode|] eqn:Hl.
    + by apply (locked_step d0 s lin base t _ e k r s' mode Hi Ht).
    + exists [], base. rewrite app_nil_r. by apply (waiting_step d0 s lin base t _ e k r s' Hi Ht).
  - destruct (finish_step d0 s lin base t _ o Hi Ht eq_refl) as [extra He]. eauto.
  - by eapply kill_step.
  - destruct (power_step d0 s lin base d temps Hi Hd) as [extra He]. eauto.
Qed.

Lemma invariant_reachable d0 (s : sys) :
  reachable may_fail d0 s -> exists lin base, invariant d0 s lin base.
Proof.
  induction 1 as [|s s' _ (lin & base & Hi) Hs]; [exists [], d0; apply invariant_idle|].
  destruct (invariant_step _ _ _ _ _ Hi Hs) as (extra & base' & Hi'). eauto.
Qed.
End invariant.
End ServiceStoreInvariant.
