(* ===== verification/ServiceStoreTheorems.v ===== *)
(** * What the store of the service state guarantees

    It is a register that any number of threads of any number of processes may use, its
    locks never block everybody, and it implements the contract the components above it
    rely on. *)

From stdpp Require Import gmap.
From S2P Require Import Prelude RustStr Env ServiceJobs ServiceStore ServiceStoreSystem.
From S2P Require Import ServiceStoreProofs.
Import ServiceJobs ServiceStore ServiceStoreSystem ServiceStoreProofs ServiceStoreInvariant.

Module ServiceStoreTheorems.

Section theorems.
Context {ServiceState RemoteViewHandoff R : Type}.
Context `{!StateModel ServiceState RemoteViewHandoff}.
Context `{!Serde ServiceState}.
Context `{!Serde (@RemoteViewHandoffRegistry RemoteViewHandoff)}.
Context `{!PrettyString ServiceState}.
Context `{!PrettyString (@RemoteViewHandoffRegistry RemoteViewHandoff)}.
Local Abbreviation call := (@call ServiceState R).
Local Abbreviation outcome := (@outcome ServiceState R).
Local Abbreviation sys := (@sys ServiceState R).


(** ** Progress *)

(** A thread that can go on: it has its outcome, or its next effect can take place. *)
Definition can_go_on (s : sys) (t : nat) : Prop :=
  exists th, sy_threads s !! t = Some th
    /\ ((exists o, th_prog th = Ret o)
        \/ exists e k r s', th_prog th = Do e k /\ exec false e t (th_pid th) s r s').

Lemma holder_goes_on d0 (s : sys) lin base t mode :
  invariant d0 s lin base -> sy_locks s !! t = Some mode -> can_go_on s t.
Proof.
  intros Hi Hl. destruct (inv_locks _ _ _ _ Hi _ _ Hl) as [th Ht]. exists th. split; [done|].
  pose proof (inv_phase _ _ _ _ Hi _ _ Ht) as Hph. unfold phase in Hph. rewrite Hl in Hph.
  destruct Hph as (_ & _ & Hk). right.
  destruct (th_prog th) as [o|e k]; [by destruct Hk as [_ []]|].
  assert (exists r s', exec false e t (th_pid th) s r s') as (r & s' & Hx); [|eauto 10].
  destruct Hk as [_ [[Ha _]|Hu]].
  - destruct e; cbn in Ha |- *; try done.
    + by exists true, s.
    + by exists true, s.
    + eexists _, s. split; [done|by left].
    + exists true. by eexists.
    + destruct Ha as [_ Ha]. exists Renamed.
      destruct (sy_temps s !! (th_pid th, f)) as [raw|] eqn:E; [eauto|].
      by destruct Ha, f.
    + exists tt, s, (sy_temps s). split; [by destruct s|done].
    + exists true. by eexists.
    + exists true. by eexists.
  - destruct e; try done. exists tt. by eexists.
Qed.

Lemma guard_goes_on d0 (s : sys) lin base t pid :
  invariant d0 s lin base -> sy_locks s = ∅ -> sy_mutexes s !! pid = Some t -> can_go_on s t.
Proof.
  intros Hi Hl Hm. destruct (inv_mutexes _ _ _ _ Hi _ _ Hm) as (th & Ht & <-).
  exists th. split; [done|].
  pose proof (inv_phase _ _ _ _ Hi _ _ Ht) as Hph. unfold phase in Hph.
  rewrite Hl, lookup_empty, bool_decide_true in Hph by done.
  destruct (th_prog th) as [o|e k]; [left; eauto|right].
  assert (exists r s', exec false e t (th_pid th) s r s') as (r & s' & Hx); [|eauto 10].
  destruct Hph as [[_ Hb]|(o & _ & Hd)].
  - destruct e; cbn in Hb |- *; try done; try by destruct Hb.
    + exists tt. by eexists.
    + by exists true, s.
    + by exists true, s.
    + exists true. eexists. split; [|done]. rewrite Hl. by destruct mode.
    + exists true. eexists. split; [by rewrite Hl|done].
  - destruct e; try done. exists tt. by eexists.
Qed.

Lemma free_goes_on d0 (s : sys) lin base t th :
  invariant d0 s lin base -> sy_locks s = ∅ -> sy_mutexes s = ∅ -> sy_threads s !! t = Some th ->
  can_go_on s t.
Proof.
  intros Hi Hl Hm Ht. exists th. split; [done|].
  pose proof (inv_phase _ _ _ _ Hi _ _ Ht) as Hph. unfold phase in Hph.
  rewrite Hl, Hm, !lookup_empty, bool_decide_false in Hph by done.
  destruct (th_prog th) as [o|e k]; [left; eauto|right].
  destruct Hph as [[_ Hb]|(o & _ & Hd)]; [|done].
  assert (exists r s', exec false e t (th_pid th) s r s') as (r & s' & Hx); [|eauto 10].
  destruct e; cbn in Hb |- *; try done; try by destruct Hb.
  - destruct (decide (th_pid th ∈ sy_poisoned s)) as [Hp|Hp].
    + exists false, s. by rewrite Hm, lookup_empty.
    + exists true. eexists. rewrite Hm at 1. by rewrite lookup_empty.
  - destruct (decide (th_pid th ∈ sy_poisoned s)) as [Hp|Hp].
    + exists false, s. split; [by right|done].
    + exists true. eexists. rewrite Hm at 1. by rewrite lookup_empty.
  - by exists true, s.
  - by exists true, s.
Qed.

Lemma someone_goes_on may_fail d0 (s : sys) :
  reachable may_fail d0 s -> sy_threads s <> ∅ -> exists t, can_go_on s t.
Proof.
  intros (lin & base & Hi)%invariant_reachable (t & th & Ht)%map_choose.
  destruct (decide (sy_locks s = ∅)) as [Hl|(t' & m & Hl)%map_choose].
  - destruct (decide (sy_mutexes s = ∅)) as [Hm|(pid & t' & Hm)%map_choose].
    + exists t. by eapply free_goes_on.
    + exists t'. by eapply guard_goes_on.
  - exists t'. by eapply holder_goes_on.
Qed.

(** ** Every call ends *)

(** One more effect of a call under way, or its end. *)
Inductive goes_on (may_fail : bool) : sys -> sys -> Prop :=
| effect s t pid c e k r s' :
    sy_threads s !! t = Some {| th_pid := pid; th_call := c; th_prog := Do e k |} ->
    exec may_fail e t pid s r s' ->
    goes_on may_fail s
      (with_threads (<[t := {| th_pid := pid; th_call := c; th_prog := k r |}]> (sy_threads s')) [] s')
| ending s t pid c o :
    sy_threads s !! t = Some {| th_pid := pid; th_call := c; th_prog := Ret o |} ->
    goes_on may_fail s (with_threads (delete t (sy_threads s)) [Finished t o] s).

Lemma exec_threads may_fail e t pid (s : sys) r s' :
  exec may_fail e t pid s r s' -> sy_threads s' = sy_threads s.
Proof.
  destruct e; cbn; intros Hx;
    repeat match goal with
    | H : context [match ?r with _ => _ end] |- _ => is_var r; destruct r
    | H : _ /\ _ |- _ => destruct H
    | H : temp_changed _ _ _ _ |- _ => destruct H
    | H : exists _, _ |- _ => destruct H
    end; by subst.
Qed.
Lemma exec_may_fail may_fail e t pid (s : sys) r s' :
  exec false e t pid s r s' -> exec may_fail e t pid s r s'.
Proof. destruct e; cbn; intros Hx; repeat case_match; naive_solver. Qed.

(** A program after one of its effects. *)
Definition child (q p : prog outcome) : Prop :=
  match p with Ret _ => False | Do e k => exists r, q = k r end.
Lemma child_wf : well_founded child.
Proof.
  intros p. induction p as [o|e k IH]; constructor; intros q; [done|]. intros [r ->]. apply IH.
Qed.

Local Abbreviation threads := (gmap nat (@thread ServiceState R)).
(** One thread is one effect further, or gone. *)
Definition fewer (m' m : threads) : Prop :=
  exists t th, m !! t = Some th
    /\ (m' = delete t m
        \/ exists th', child (th_prog th') (th_prog th) /\ m' = <[t := th']> m).

Lemma fewer_insert (m : threads) t :
  Acc fewer m -> m !! t = None -> forall p, Acc child p -> forall th, th_prog th = p ->
  Acc fewer (<[t := th]> m).
Proof.
  induction 1 as [m Hacc IHm]. intros Hm p. induction 1 as [p Hp IHp]. intros th <-.
  constructor. intros m' (t' & th0 & Ht' & Hm'). destruct (decide (t' = t)) as [->|Hne].
  - rewrite lookup_insert_eq in Ht'. injection Ht' as <-. destruct Hm' as [->|(th' & Hc & ->)].
    + rewrite delete_insert_id by done. exact (Acc_intro m Hacc).
    + rewrite insert_insert_eq. by eapply IHp.
  - rewrite lookup_insert_ne in Ht' by done. destruct Hm' as [->|(th' & Hc & ->)].
    + rewrite delete_insert_ne by done. eapply IHm; [|by rewrite lookup_delete_ne|apply child_wf|done].
      exists t', th0. auto.
    + rewrite insert_insert_ne by done.
      eapply IHm; [|by rewrite lookup_insert_ne|apply child_wf|done]. exists t', th0. eauto.
Qed.
Lemma fewer_wf : well_founded fewer.
Proof.
  intros m. induction m as [|t th m Hm IH] using map_ind.
  - constructor. intros m' (t & th & Ht & _). by rewrite lookup_empty in Ht.
  - eapply fewer_insert; [done|done|apply child_wf|done].
Qed.
Lemma goes_on_fewer may_fail (s s' : sys) :
  goes_on may_fail s s' -> fewer (sy_threads s') (sy_threads s).
Proof.
  destruct 1 as [s t pid c e k r s' Ht Hx|s t pid c o Ht]; eexists t, _; (split; [exact Ht|]).
  - right. exists {| th_pid := pid; th_call := c; th_prog := k r |}. split; [by exists r|].
    cbn. by rewrite (exec_threads _ _ _ _ _ _ _ Hx).
  - by left.
Qed.

(** C28. The locks of the store never block everybody, and every call ends. In whatever
    state the calls, failures, deaths of processes and losses of power before led to: as
    long as calls are under way, the next effect of one of them can take place, without
    any failure of the operating system; and if no new call is made, every way of going
    on, with or without failures, is finite, and can only stop when no call is left. *)
Theorem store_never_blocked may_fail d0 (s : sys) :
  reachable may_fail d0 s ->
  (sy_threads s <> ∅ -> exists t, can_go_on s t) /\
  Acc (flip (goes_on may_fail)) s /\
  forall s', rtc (goes_on may_fail) s s' -> (forall s'', ~ goes_on may_fail s' s'') ->
    sy_threads s' = ∅.
Proof.
  intros Hr. split_and!; [by eapply someone_goes_on| |].
  - clear Hr. remember (sy_threads s) as m eqn:Hm. revert s Hm.
    induction (fewer_wf m) as [m _ IH]. intros s ->. constructor. intros s' Hs.
    by eapply IH; [apply goes_on_fewer in Hs|].
  - intros s' Hs Hstop. destruct (decide (sy_threads s' = ∅)) as [|Hne]; [done|].
    destruct (someone_goes_on may_fail d0 s') as (t & [pid c p] & Ht & Hgo); [|done|].
    { clear Hstop Hne. induction Hs as [|s s1 s' Hgo _ IH]; [done|]. apply IH.
      eapply reachable_step; [done|]. destruct Hgo; by econstructor. }
    cbn in Hgo. destruct Hgo as [(o & ->)|(e & k & r & s2 & -> & Hx)]; exfalso; eapply Hstop.
    + by eapply ending.
    + eapply effect; [done|]. by apply exec_may_fail.
Qed.

(** ** The contract of the repository *)

(** The jobs and events of a service state: what the methods around a load and a save, and
    the text of a state, preserve. *)
Class JobView `{!Json} := {
  job_view : ServiceState -> JobStore;
  view_set_handoffs : forall h s, job_view (set_remote_view_handoffs h s) = job_view s;
  view_mark : forall s, job_view (mark_persisted_entity_sources s) = job_view s;
  view_refresh : forall s, job_view (refresh_derived_views s) = job_view s;
  view_remove : forall s,
    job_view (remove_builtin_entity_defaults_for_persistence s) = job_view s;
  view_text : forall s raw, state_payload s = Some raw ->
    exists s', from_slice raw = Some s' /\ job_view s' = job_view s;
  registry_text : forall s raw, registry_payload s = Some raw ->
    exists registry, from_slice (T:=@RemoteViewHandoffRegistry RemoteViewHandoff) raw = Some registry;
}.

Section contract.
Context `{!Json, !JobView}.

(** The mutator of a state acts on its jobs and events as [f] does. *)
Definition acts_on (m : @Mutator ServiceState R) (f : JobStore -> res (R * JobStore)) : Prop :=
  forall s, match m s with
            | Returns (Ok (r, s')) => f (job_view s) = Ok (r, job_view s')
            | Returns (Err e) => f (job_view s) = Err e
            | Panics => False
            end.

Definition done_result (r : res (@answer ServiceState R)) : option (res R) :=
  match r with
  | Ok (Done x) => Some (Ok x)
  | Ok (Snapshot _) => None
  | Err e => Some (Err e)
  end.

Lemma assembled_view missing state registry :
  (missing = true -> state = default_state) -> job_view (assembled missing state registry) = job_view state.
Proof.
  intros Hm. unfold assembled. destruct missing; cbn; [case_bool_decide; [by rewrite Hm|]|];
    by rewrite view_refresh, view_mark, view_set_handoffs.
Qed.

(** The two texts of a disk that loads. *)
Definition state_text (o : option string) (state : ServiceState) (missing : bool) : Prop :=
  match o with
  | Some raw => from_slice raw = Some state /\ missing = false
  | None => state = default_state /\ missing = true
  end.
Definition registry_text_is (o : option string)
    (registry : @RemoteViewHandoffRegistry RemoteViewHandoff) : Prop :=
  match o with Some raw => from_slice raw = Some registry | None => registry = default_registry end.

Lemma load_files_iff d s : load_files d = Ok s <->
  exists state missing registry, state_text (contents (get StateFile d)) state missing
    /\ registry_text_is (contents (get RegistryFile d)) registry
    /\ s = assembled missing state registry.
Proof.
  unfold load_files, state_text, registry_text_is.
  destruct (contents (get StateFile d)) as [raw|], (contents (get RegistryFile d)) as [raw'|].
  - destruct (from_slice raw); cbn; [|naive_solver].
    destruct (from_slice raw'); cbn; naive_solver.
  - destruct (from_slice raw); cbn; naive_solver.
  - cbn. destruct (from_slice raw'); cbn; naive_solver.
  - cbn. naive_solver.
Qed.

Lemma state_text_view o state missing registry : state_text o state missing ->
  job_view (assembled missing state registry) = job_view state.
Proof. intros Ho. apply assembled_view. intros ->. by destruct o, Ho. Qed.

(** Replacing the registry changes nothing of the jobs and events. *)
Lemma half_saved_view d s registry s' :
  load_files d = Ok s -> registry_payload (normalized s') = Some registry ->
  exists s'', load_files (publish RegistryFile registry d) = Ok s'' /\ job_view s'' = job_view s.
Proof.
  intros (state & missing & reg & Hs & Hr & ->)%load_files_iff Hp.
  apply registry_text in Hp as [registry' Hr']. exists (assembled missing state registry').
  split; [|by rewrite !(state_text_view _ _ _ _ Hs)]. apply load_files_iff.
  by exists state, missing, registry'.
Qed.

Lemma saved_view d d' s' registry raw :
  registry_payload (normalized s') = Some registry -> state_payload (normalized s') = Some raw ->
  same_contents d' (publish StateFile raw (publish RegistryFile registry d)) ->
  exists s'', load_files d' = Ok s'' /\ job_view s'' = job_view s'.
Proof.
  intros Hp Hs Hd. apply registry_text in Hp as [registry' Hr].
  apply view_text in Hs as (state & Hs & Hv).
  exists (assembled false state registry'). split.
  - apply load_files_iff. exists state, false, registry'. rewrite !Hd. done.
  - rewrite assembled_view, Hv by done. unfold normalized. by rewrite view_remove, view_refresh.
Qed.

(** One mutation as a step of the register does, to the jobs and events, what the
    repository does under some faults. *)
Lemma mutation_contract m f d r d' s result :
  acts_on m f -> load_files d = Ok s -> done_result r = Some result ->
  takes_effect (Mutate m) d (Some (Returned r)) d' ->
  exists faults s', load_files d' = Ok s'
    /\ repository_mutate faults f (job_view s) = (result, job_view s').
Proof.
  intros Hf Hl Hr He. inversion He as [o Hfailed| |state Hc|m' state r' s1 registry o Hm Hl' Hrun Hp Hfailed
    |m' state r' s1 registry raw o d2 Hm Hl' Hrun Hp Hs Hd Ho]; subst.
  - inversion Hfailed; subst. injection Hr as <-. exists {| fl_load := Some error; fl_save := None |}, s.
    done.
  - done.
  - inversion Hfailed; subst. injection Hr as <-.
    destruct (half_saved_view _ _ _ _ Hl Hp) as (s'' & Hl'' & Hv).
    exists {| fl_load := Some error; fl_save := None |}, s''. by rewrite Hv.
  - destruct Ho as [[=]|[[[= ->] _]|[_ []]]]. injection Hr as <-. injection Hm as <-.
    rewrite Hl in Hl'. injection Hl' as <-. specialize (Hf s). rewrite Hrun in Hf.
    destruct (saved_view d d' _ _ _ Hp Hs Hd) as (s'' & Hl'' & Hv).
    exists no_faults, s''. split; [done|]. unfold repository_mutate. cbn. by rewrite Hf, Hv.
Qed.

Lemma serial_prefix d0 (l l' : list (@entry ServiceState R)) d :
  serial d0 (l ++ l') d -> exists d1, serial d0 l d1.
Proof.
  revert d. induction l' as [|e l' IH] using rev_ind; intros d; [rewrite app_nil_r; eauto|].
  rewrite app_assoc. intros Hs. inversion Hs as [Hn|l1 d1 t c o d2 Hl He Hn|l1 d1 d2 Hl He Hn]; subst.
  - by destruct (l ++ l').
  - apply app_inj_2 in Hn as [-> _]; [by eapply IH|done].
  - apply app_inj_2 in Hn as [-> _]; [by eapply IH|done].
Qed.

Lemma serial_last d0 (l : list (@entry ServiceState R)) t c o d :
  serial d0 (l ++ [Entry t c o]) d -> exists d1, serial d0 l d1 /\ takes_effect c d1 o d.
Proof.
  intros Hs. inversion Hs as [Hn|l1 d1 t' c' o' d2 Hl He Hn|l1 d1 d2 Hl He Hn]; subst.
  - by destruct l.
  - apply app_inj_2 in Hn as [-> [= -> -> ->]]; [eauto|done].
  - by apply app_inj_2 in Hn as [_ [=]].
Qed.

End contract.
End theorems.
End ServiceStoreTheorems.
