(* ===== verification/RetainedBrowser.v ===== *)
(** * The retained browser requirement

    [cli/src/native/retained_browser_requirement.rs]: a durable expectation names the
    session, profile, target and URL a browser must keep; the verifier compares it with
    the files of the publication, the daemon, the service state and the targets the
    browser itself reports, and never launches anything. One verification looks at
    every file once; [Observed] is what it finds there. *)

From Stdlib Require Import Ascii.
From stdpp Require Import gmap pretty.
From S2P Require Import Prelude RustStr Env.

Module RetainedBrowser.

Definition REQUIREMENT_SCHEMA : string :=
  "agent-browser.local-dashboard-retained-browser-requirement.v1".
Definition ENFORCEMENT_SCHEMA : string :=
  "agent-browser.local-dashboard-retained-browser-enforcement.v1".
Definition ROTATION_SCHEMA : string :=
  "agent-browser.local-dashboard-retained-browser-rotation.v1".

Definition MAX_REQUIREMENT_BYTES : Z := 16 * 1024.
Definition MAX_DAEMON_PID_BYTES : Z := 64.
Definition MAX_SERVICE_STATE_BYTES : Z := 64 * 1024 * 1024.
Definition MAX_CDP_TARGET_BYTES : Z := 4 * 1024 * 1024.

Definition failure (code : string) : string :=
  "Retained browser requirement verification failed: " +:+ code.

(** ** The URL of a retained target *)

(** The closure [hex]. *)
Definition hex (part : string) : bool := bytes_all is_lower_hex part.

Definition take_str (n : nat) (s : string) : string := of_bytes (take n (bytes_of s)).
Definition drop_str (n : nat) (s : string) : string := of_bytes (drop n (bytes_of s)).

Definition slug_part (part : string) : bool :=
  negb (is_empty part) && bytes_all (fun b => is_ascii_lowercase b || is_ascii_digit b) part.

(** The optional human-readable part. *)
Definition slug_suffix (suffix : string) : bool :=
  if is_empty suffix then true
  else match strip_prefix "-"%string suffix with
       | Some slug => forallb slug_part (split_on "-" slug)
       | None => false
       end.

Definition identity (raw : string) : option (string * string) :=
  tail ← strip_prefix "https://chatgpt.com/g/g-p-" raw;
  if negb (bytes_all is_ascii tail) then None else
  '(project_slug, conversation) ← split_once_str "/c/" tail;
  if (zlen project_slug <? 32)%Z || negb (hex (take_str 32 project_slug)) then None else
  if negb (slug_suffix (drop_str 32 project_slug)) then None else
  let pieces := split_on "-" conversation in
  if negb (length pieces =? 5)%nat
     || existsb (fun '(part, len) => negb (zlen part =? len)%Z || negb (hex part))
          (combine pieces [8; 4; 4; 4; 12]%Z)
  then None
  else Some (take_str 32 project_slug, conversation).

Definition retained_target_urls_match (expected observed : string) : bool :=
  if expected == observed then true else
  match identity expected, identity observed with
  | Some project, Some project' => project == project'
  | _, _ => false
  end.

(** ** Records *)

Record RetainedBrowserExpectation := {
  session_name : string;
  profile_id : string;
  target_id : string;
  url : string;
}.
#[global] Instance RetainedBrowserExpectation_eq_dec : EqDecision RetainedBrowserExpectation.
Proof. solve_decision. Defined.

Record RequirementRecord := {
  rq_schema_version : string;
  rq_created_at : string;
  rq_expectation : RetainedBrowserExpectation;
}.

Record EnforcementRecord := {
  en_schema_version : string;
  en_created_at : string;
  en_requirement_sha256 : string;
}.

Record RotationRecord := {
  ro_schema_version : string;
  ro_operation_id : string;
  ro_created_at : string;
  ro_expected_old_sha256 : string;
  ro_next_requirement_sha256 : string;
  ro_stale_reason : string;
  ro_phase : string;
  ro_old_expectation : RetainedBrowserExpectation;
  ro_next_requirement : RequirementRecord;
}.

Record RetainedBrowserRequirementStatus := {
  rs_configured : bool;
  rs_verified : bool;
  rs_state : string;
  rs_requirement_path : string;
  rs_enforcement_configured : bool;
  rs_enforcement_path : string;
  rs_rotation_configured : bool;
  rs_rotation_path : string;
  rs_rotation_phase : option string;
}.

(** ** What a verification observes *)

(** [fs::symlink_metadata] of a path. *)
Inductive Entry := Present | NotFound | Unreadable.

(** A descriptor opened with [O_NOFOLLOW]: its metadata and its bytes. *)
Record OpenFile := {
  of_metadata : option (bool * Z * Z * Z);  (** [is_file], [len], [uid], [mode] *)
  of_read_to_end : option string;
}.

(** The answer of an HTTP server: the status, the announced length and the chunks of
    the body, [None] for a chunk that fails. *)
Record Response := {
  re_status : Z;
  re_content_length : option Z;
  re_chunks : list (option string);
}.

Class Observed := {
  symlink_metadata : string -> Entry;
  open_nofollow : string -> option OpenFile;
  geteuid : Z;
  pid_is_running : Z -> bool;
  (** [GET] of a URL, without redirects; [None] when sending fails *)
  http_get : string -> option Response;
}.

(** [set_scheme("http")], [set_path("/json/list")], [set_query(None)] and
    [set_fragment(None)]; [None] when the scheme cannot be set. *)
Class UrlEdit := { json_list_url : Url -> option string }.

(** [serde_json::to_vec_pretty]. *)
Class PrettyJson (T : Type) := { to_vec_pretty : T -> option string }.

Section verify.
Context `{!Observed, !UrlEdit, !UrlLib, !Json, !JsonTree, !Crypto, !Chrono}.
Context `{!Serde RequirementRecord, !Serde EnforcementRecord, !Serde RotationRecord}.
Context `{!Serde value, !Serde (list value), !PrettyJson RequirementRecord}.

Definition sha256_hex (bytes : string) : string := hex_encode (sha256 bytes).

Definition read_bounded_regular_file (path : string) (max_bytes : Z)
    (require_private_mode : bool) (error_code permission_error_code : string) : res string :=
  file ← ok_or (failure error_code) (open_nofollow path);
  '(is_file, len, uid, mode) ← ok_or (failure error_code) (of_metadata file);
  if negb is_file || (max_bytes <? len)%Z then Err (failure error_code) else
  if (uid != geteuid : bool) then Err (failure error_code) else
  if require_private_mode && negb (Z.land mode 63 =? 0)%Z
  then Err (failure permission_error_code) else
  bytes ← ok_or (failure error_code) (of_read_to_end file);
  if (max_bytes <? zlen bytes)%Z then Err (failure error_code) else Ok bytes.

Definition valid_session_name (value : string) : bool :=
  match value with
  | String first characters =>
      is_ascii_alphanumeric first
      && bytes_all (fun c => is_ascii_alphanumeric c || Ascii.eqb c "." || Ascii.eqb c "_"
                             || Ascii.eqb c "-") characters
  | ""%string => false
  end.

Definition validate_sha256 (value code : string) : res unit :=
  if lower_hex value 64 then Ok tt else Err (failure code).

Definition validate_expectation (expectation : RetainedBrowserExpectation) : res unit :=
  if negb (valid_session_name (session_name expectation))
  then Err (failure "retained_browser_session_invalid") else
  if is_empty (profile_id expectation) || is_empty (target_id expectation)
  then Err (failure "retained_browser_identity_incomplete") else
  expected_url ← map_err (failure "retained_target_url_invalid") (url_parse (url expectation));
  if one_of (u_scheme expected_url) ["http"; "https"]%string then Ok tt
  else Err (failure "retained_target_url_invalid").

Definition validate_requirement (record : RequirementRecord) : res unit :=
  if rq_schema_version record != REQUIREMENT_SCHEMA
  then Err (failure "retained_browser_requirement_schema_unsupported") else
  map_err (failure "retained_browser_requirement_created_at_invalid")
    (parse_from_rfc3339 (rq_created_at record)) ≫= fun _ =>
  validate_expectation (rq_expectation record).

Definition read_enforcement (path : string) : res (option EnforcementRecord) :=
  match symlink_metadata path with
  | NotFound => Ok None
  | Unreadable => Err (failure "retained_browser_enforcement_invalid")
  | Present =>
      bytes ← read_bounded_regular_file path MAX_REQUIREMENT_BYTES true
                "retained_browser_enforcement_invalid"
                "retained_browser_enforcement_permissions_invalid";
      record ← ok_or (failure "retained_browser_enforcement_invalid")
                 (from_slice (T:=EnforcementRecord) bytes);
      if en_schema_version record != ENFORCEMENT_SCHEMA
      then Err (failure "retained_browser_enforcement_schema_unsupported") else
      map_err (failure "retained_browser_enforcement_created_at_invalid")
        (parse_from_rfc3339 (en_created_at record)) ≫= fun _ =>
      if negb (lower_hex (en_requirement_sha256 record) 64)
      then Err (failure "retained_browser_enforcement_requirement_sha256_invalid")
      else Ok (Some record)
  end.

Definition read_rotation (path : string) : res (option RotationRecord) :=
  match symlink_metadata path with
  | NotFound => Ok None
  | Unreadable => Err (failure "retained_browser_rotation_invalid")
  | Present =>
      bytes ← read_bounded_regular_file path MAX_REQUIREMENT_BYTES true
                "retained_browser_rotation_invalid"
                "retained_browser_rotation_permissions_invalid";
      record ← ok_or (failure "retained_browser_rotation_invalid")
                 (from_slice (T:=RotationRecord) bytes);
      Ok (Some record)
  end.

(** ** Rotations *)

Definition validate_rotation (record : RotationRecord) : res unit :=
  if ro_schema_version record != ROTATION_SCHEMA
  then Err (failure "retained_browser_rotation_schema_unsupported") else
  map_err (failure "retained_browser_rotation_created_at_invalid")
    (parse_from_rfc3339 (ro_created_at record)) ≫= fun _ =>
  validate_sha256 (ro_expected_old_sha256 record)
    "retained_browser_rotation_old_digest_invalid" ≫= fun _ =>
  validate_sha256 (ro_next_requirement_sha256 record)
    "retained_browser_rotation_next_digest_invalid" ≫= fun _ =>
  let expected_operation_id :=
    fmt [take_str 12 (ro_expected_old_sha256 record); "-";
         take_str 12 (ro_next_requirement_sha256 record)]%string in
  if ro_operation_id record != expected_operation_id
  then Err (failure "retained_browser_rotation_operation_id_invalid") else
  if negb (one_of (ro_stale_reason record)
             ["retained_daemon_missing"; "retained_browser_missing"]%string)
  then Err (failure "retained_browser_rotation_stale_reason_invalid") else
  if negb (one_of (ro_phase record)
             ["prepared"; "requirement_replaced"; "enforcement_replaced"; "committed"]%string)
  then Err (failure "retained_browser_rotation_phase_invalid") else
  validate_expectation (ro_old_expectation record) ≫= fun _ =>
  validate_requirement (ro_next_requirement record) ≫= fun _ =>
  serialized ← ok_or (failure "retained_browser_rotation_next_requirement_invalid")
                 (to_vec_pretty (ro_next_requirement record));
  if sha256_hex (serialized +:+ String (ascii_of_nat 10) "")
     != ro_next_requirement_sha256 record
  then Err (failure "retained_browser_rotation_next_requirement_digest_mismatch")
  else Ok tt.

Definition validate_rotation_pair (requirement_sha256 enforcement_sha256 : string)
    (rotation : RotationRecord) : res unit :=
  let old := ro_expected_old_sha256 rotation in
  let next := ro_next_requirement_sha256 rotation in
  if negb ((requirement_sha256 == old) || (requirement_sha256 == next))
     || negb ((enforcement_sha256 == old) || (enforcement_sha256 == next))
  then Err (failure "retained_browser_rotation_digest_conflict") else
  if (requirement_sha256 == old) && (enforcement_sha256 == next)
  then Err (failure "retained_browser_rotation_order_invalid") else
  let phase := ro_phase rotation in
  let phase_matches :=
    if (phase == "prepared"%string : bool) then
      ((requirement_sha256 == old) || (requirement_sha256 == next)) && (enforcement_sha256 == old)
    else if (phase == "requirement_replaced"%string : bool) then
      (requirement_sha256 == next) && ((enforcement_sha256 == old) || (enforcement_sha256 == next))
    else if one_of phase ["enforcement_replaced"; "committed"]%string then
      (requirement_sha256 == next) && (enforcement_sha256 == next)
    else false in
  if negb phase_matches
  then Err (failure "retained_browser_rotation_phase_conflict") else Ok tt.

(** ** The daemon, the service state and the browser's own targets *)

Definition verify_retained_daemon (socket_dir session_name : string) : res unit :=
  let pid_path := fmt [socket_dir; "/"; session_name; ".pid"]%string in
  pid_bytes ← read_bounded_regular_file pid_path MAX_DAEMON_PID_BYTES false
                "retained_daemon_missing" "retained_daemon_missing";
  pid ← ok_or (failure "retained_daemon_missing")
          (text ← from_utf8 pid_bytes;
           pid ← parse_unsigned u32_max (trim text);
           if (0 <? pid)%Z then Some pid else None);
  if negb (pid_is_running pid) then Err (failure "retained_daemon_missing") else Ok tt.

(** [v.as_object()]. *)
Definition as_object (v : value) : option value :=
  match object_len v with Some _ => Some v | None => None end.
Definition ju64 (v : value) (key : string) : option Z := jget v key ≫= as_u64.
Definition jbool_of (v : value) (key : string) : option bool := jget v key ≫= as_bool.

Definition effective_persisted_browser_profile_id (browser : value) : option string :=
  proof ← jget browser "browserBuildProof" ≫= as_object;
  browser_cdp_endpoint ← jstr browser "cdpEndpoint";
  proof_cdp_endpoint ← jstr proof "cdpEndpoint";
  browser_executable_path ← jstr browser "executablePath";
  proof_executable_path ← jstr proof "executablePath";
  let browser_pid := ju64 browser "pid" in
  let proof_pid := ju64 proof "browserPid" in
  let verified_attach :=
    (jstr browser "host" == Some "attached_existing"%string)
    && (jbool_of proof "applied" == Some true)
    && (jget browser "browserBuild" == jget proof "browserBuild")
    && (browser_executable_path == proof_executable_path)
    && (browser_cdp_endpoint == proof_cdp_endpoint)
    && match browser_pid with None => true | Some pid => proof_pid == Some pid end in
  if verified_attach then jstr proof "profileId" else None.

Fixpoint collect_body (body : string) (chunks : list (option string)) : res string :=
  match chunks with
  | [] => Ok body
  | None :: _ => Err (failure "retained_browser_cdp_unreachable")
  | Some chunk :: rest =>
      if (MAX_CDP_TARGET_BYTES <? zlen body + zlen chunk)%Z
      then Err (failure "retained_browser_cdp_response_too_large")
      else collect_body (body +:+ chunk) rest
  end.

Definition fetch_loopback_cdp_targets (cdp_endpoint : string) : res (list value) :=
  endpoint ← map_err (failure "retained_browser_cdp_invalid") (url_parse cdp_endpoint);
  if (u_scheme endpoint != "ws"%string) || negb (match u_port endpoint with Some _ => true
                                                   | None => false end)
  then Err (failure "retained_browser_cdp_not_loopback") else
  host ← ok_or (failure "retained_browser_cdp_not_loopback") (u_host_str endpoint);
  if negb (one_of host ["127.0.0.1"; "localhost"; "::1"]%string)
  then Err (failure "retained_browser_cdp_not_loopback") else
  endpoint ← ok_or (failure "retained_browser_cdp_invalid") (json_list_url endpoint);
  response ← ok_or (failure "retained_browser_cdp_unreachable") (http_get endpoint);
  if negb (re_status response =? 200)%Z
  then Err (failure "retained_browser_cdp_unreachable") else
  if match re_content_length response with
     | Some length => (MAX_CDP_TARGET_BYTES <? length)%Z
     | None => false
     end
  then Err (failure "retained_browser_cdp_response_too_large") else
  body ← collect_body "" (re_chunks response);
  ok_or (failure "retained_browser_cdp_response_invalid") (from_slice (T:=list value) body).

(** [is_some_and(|url| retained_target_urls_match(&expectation.url, url))]. *)
Definition url_matches (expectation : RetainedBrowserExpectation) (v : value) : bool :=
  match jstr v "url" with
  | Some u => retained_target_urls_match (url expectation) u
  | None => false
  end.

Definition handle_matches (browser_id : string) (effective_profile_id : option string)
    (expectation : RetainedBrowserExpectation) (handle : value) : bool :=
  (jstr handle "browserId" == Some browser_id)
  && (jstr handle "sessionName" == Some (session_name expectation))
  && (jstr handle "targetId" == Some (target_id expectation))
  && (effective_profile_id == Some (profile_id expectation))
  && url_matches expectation handle
  && (jbool_of handle "valid" == Some true).

(** [get(key).and_then(as_array).map(|items| items.iter().filter(p).count()).unwrap_or(0)]. *)
Definition count_in (v : value) (key : string) (p : value -> bool) : nat :=
  match jget v key ≫= as_array with
  | Some items => length (List.filter p items)
  | None => 0
  end.

Definition effective_profile_id (browser : value) : option string :=
  match effective_persisted_browser_profile_id browser with
  | Some id => Some id
  | None => jstr browser "profileId"
  end.

Definition browser_pid (browser : value) : option Z :=
  value ← ju64 browser "pid";
  if ((0 <? value) && (value <=? u32_max))%Z then Some value else None.

Definition verify_persisted_browser (state : value) (expectation : RetainedBrowserExpectation)
    : res unit :=
  let browser_id := "session:" +:+ session_name expectation in
  browsers ← ok_or (failure "retained_browser_service_state_missing_or_invalid")
               (jget state "browsers" ≫= as_object);
  browser ← ok_or (failure "retained_browser_missing") (jget browsers browser_id ≫= as_object);
  if jstr browser "id" != Some browser_id then Err (failure "retained_browser_id_changed") else
  if effective_profile_id browser != Some (profile_id expectation)
  then Err (failure "retained_browser_profile_changed") else
  if jstr browser "health" != Some "ready"%string
  then Err (failure "retained_browser_not_ready") else
  match browser_pid browser with
  | Some pid =>
      if negb (pid_is_running pid) then Err (failure "retained_browser_process_exited") else Ok tt
  | None =>
      if jstr browser "host" != Some "attached_existing"%string
      then Err (failure "retained_browser_pid_missing") else Ok tt
  end ≫= fun _ =>
  let active_session_matches :=
    count_in browser "activeSessionIds"
      (fun value => as_str value == Some (session_name expectation)) in
  if negb (active_session_matches =? 1)%nat
  then Err (failure "retained_browser_session_changed") else
  let matching_handles :=
    count_in browser "tabHandles"
      (handle_matches browser_id (effective_profile_id browser) expectation) in
  if negb (matching_handles =? 1)%nat
  then Err (failure (if (matching_handles =? 0)%nat
                     then "retained_service_tab_handle_missing_or_changed"
                     else "retained_service_tab_handle_ambiguous")) else
  cdp_endpoint ← ok_or (failure "retained_browser_cdp_missing")
                   (endpoint ← jstr browser "cdpEndpoint";
                    if is_empty endpoint then None else Some endpoint);
  targets ← fetch_loopback_cdp_targets cdp_endpoint;
  match List.filter (fun target => jstr target "id" == Some (target_id expectation)) targets with
  | [] => Err (failure "retained_target_missing")
  | [target] =>
      if negb (url_matches expectation target)
      then Err (failure "retained_target_url_changed") else Ok tt
  | _ => Err (failure "retained_target_ambiguous")
  end.

(** ** The verification *)

Definition retained_browser_enforcement_path (requirement_path : string) : string :=
  requirement_path +:+ ".required".
Definition retained_browser_rotation_path (requirement_path : string) : string :=
  requirement_path +:+ ".rotation.json".

(** [retained_browser_requirement_path_for_root]: the variable
    [AGENT_BROWSER_DASHBOARD_RETAINED_REQUIREMENT] and the current directory are arguments. *)
Definition retained_browser_requirement_path_for_root (configured : option string)
    (current_dir : option string) (root : string) : res string :=
  let default := root +:+ "/.agent-browser/publications/local-dashboard-retained-browser.json" in
  match configured with
  | None => Ok default
  | Some configured =>
      if is_empty configured then Ok default else
      if starts_with "/" configured then Ok configured else
      current ← ok_or (failure "retained_browser_requirement_path_invalid") current_dir;
      Ok (fmt [current; "/"; configured]%string)
  end.

Definition status (requirement_path : string) (configured verified : bool) (state : string)
    (enforcement_configured : bool) (rotation_phase : option string)
    : RetainedBrowserRequirementStatus :=
  {| rs_configured := configured; rs_verified := verified; rs_state := state;
     rs_requirement_path := requirement_path;
     rs_enforcement_configured := enforcement_configured;
     rs_enforcement_path := retained_browser_enforcement_path requirement_path;
     rs_rotation_configured := match rotation_phase with Some _ => true | None => false end;
     rs_rotation_path := retained_browser_rotation_path requirement_path;
     rs_rotation_phase := rotation_phase |}.

Definition is_some {A} (o : option A) : bool := match o with Some _ => true | None => false end.

(** The requirement file is there: everything after the [match] on its metadata. *)
Definition verify_present (root requirement_path socket_dir : string)
    (enforcement : option EnforcementRecord) (rotation : option RotationRecord)
    : res RetainedBrowserRequirementStatus :=
  requirement_bytes ← read_bounded_regular_file requirement_path MAX_REQUIREMENT_BYTES true
    "retained_browser_requirement_invalid" "retained_browser_requirement_permissions_invalid";
  record ← ok_or (failure "retained_browser_requirement_invalid")
             (from_slice (T:=RequirementRecord) requirement_bytes);
  validate_requirement record ≫= fun _ =>
  let requirement_sha256 := sha256_hex requirement_bytes in
  match rotation with
  | Some rotation =>
      enforcement ← ok_or (failure "retained_browser_rotation_enforcement_missing") enforcement;
      validate_rotation rotation ≫= fun _ =>
      validate_rotation_pair requirement_sha256 (en_requirement_sha256 enforcement) rotation
        ≫= fun _ =>
      Ok (status requirement_path true false "rotation_pending" true (Some (ro_phase rotation)))
  | None =>
      if match enforcement with
         | Some enforcement => requirement_sha256 != en_requirement_sha256 enforcement
         | None => false
         end
      then Err (failure "retained_browser_enforcement_digest_mismatch") else
      verify_retained_daemon socket_dir (session_name (rq_expectation record)) ≫= fun _ =>
      state_bytes ← read_bounded_regular_file (root +:+ "/.agent-browser/service/state.json")
                      MAX_SERVICE_STATE_BYTES false
                      "retained_browser_service_state_missing_or_invalid"
                      "retained_browser_service_state_missing_or_invalid";
      state ← ok_or (failure "retained_browser_service_state_missing_or_invalid")
                (from_slice (T:=value) state_bytes);
      verify_persisted_browser state (rq_expectation record) ≫= fun _ =>
      Ok (status requirement_path true true "verified" (is_some enforcement) None)
  end.

Definition verify_retained_browser_requirement_at_paths
    (root requirement_path socket_dir : string) : res RetainedBrowserRequirementStatus :=
  enforcement ← read_enforcement (retained_browser_enforcement_path requirement_path);
  rotation ← read_rotation (retained_browser_rotation_path requirement_path);
  match symlink_metadata requirement_path with
  | NotFound =>
      if is_some rotation
      then Err (failure "retained_browser_rotation_requirement_missing") else
      if is_some enforcement then Err (failure "retained_browser_requirement_missing") else
      Ok (status requirement_path false false "not_configured" (is_some enforcement) None)
  | Unreadable => Err (failure "retained_browser_requirement_invalid")
  | Present => verify_present root requirement_path socket_dir enforcement rotation
  end.

End verify.
End RetainedBrowser.
