(* ===== verification/RetainedProofs.v ===== *)
(** * What the retained browser verification establishes

    The equivalence the URL comparison decides, and what has been observed when a
    requirement is reported as verified. *)

From Stdlib Require Import Ascii.
From stdpp Require Import gmap.
From S2P Require Import Prelude RustStr Env RetainedBrowser.
Import RetainedBrowser.

Module RetainedProofs.

(** ** The URL of a conversation in a project *)

Definition project_id (p : string) : Prop := lower_hex p 32 = true.
(** A slug is absent or [-word-word...]. *)
Definition slug (s : string) : Prop :=
  s = ""%string \/
  exists words, words <> [] /\ Forall (fun w => slug_part w = true) words
    /\ s = String "-" (str_join "-" words).
Definition conversation_id (c : string) : Prop :=
  exists a b d e f, c = str_join "-" [a; b; d; e; f]%string
    /\ lower_hex a 8 = true /\ lower_hex b 4 = true /\ lower_hex d 4 = true
    /\ lower_hex e 4 = true /\ lower_hex f 12 = true.
Definition conversation_url (p s c : string) : string :=
  "https://chatgpt.com/g/g-p-" +:+ p +:+ s +:+ "/c/" +:+ c.

(** The same URL, or the same conversation of the same project. *)
Inductive same_target : string -> string -> Prop :=
| same_url u : same_target u u
| same_conversation p s s' c :
    project_id p -> slug s -> slug s' -> conversation_id c ->
    same_target (conversation_url p s c) (conversation_url p s' c).

Lemma forallb_Forall {A} (p : A -> bool) l : forallb p l = true <-> Forall (fun x => p x = true) l.
Proof.
  rewrite forallb_forall, Forall_forall. split; intros Hl x Hx; apply Hl; by apply list_elem_of_In.
Qed.
Lemma take_drop_str n s : take_str n s +:+ drop_str n s = s.
Proof. unfold take_str, drop_str. by rewrite <-of_bytes_app, take_drop, of_bytes_bytes_of. Qed.
Lemma zlen_of_bytes l : zlen (of_bytes l) = Z.of_nat (length l).
Proof. unfold zlen. by rewrite <-length_bytes_of, bytes_of_of_bytes. Qed.
Lemma zlen_take_str n s : (Z.of_nat n <= zlen s)%Z -> zlen (take_str n s) = Z.of_nat n.
Proof.
  unfold take_str. rewrite zlen_of_bytes, length_take. unfold zlen. rewrite length_bytes_of. lia.
Qed.
Lemma take_str_app a b : take_str (String.length a) (a +:+ b) = a.
Proof.
  unfold take_str. rewrite bytes_of_app, take_app_length' by (symmetry; apply length_bytes_of).
  apply of_bytes_bytes_of.
Qed.
Lemma drop_str_app a b : drop_str (String.length a) (a +:+ b) = b.
Proof.
  unfold drop_str. rewrite bytes_of_app, drop_app_length' by (symmetry; apply length_bytes_of).
  apply of_bytes_bytes_of.
Qed.

Lemma slug_suffix_iff s : slug_suffix s = true <-> slug s.
Proof.
  unfold slug_suffix, slug, is_empty. destruct (decide (s = ""%string)) as [->|Hs].
  - rewrite bool_decide_true by done. split; [by left|done].
  - rewrite bool_decide_false by done. split.
    + destruct (strip_prefix "-" s) as [t|] eqn:E; [|done]. intros Ht. right.
      apply strip_prefix_spec in E. exists (split_on "-" t).
      split; [apply split_on_not_nil|]. split; [by apply forallb_Forall in Ht|].
      by rewrite str_join_split_on.
    + intros [?|(words & Hne & Hw & ->)]; [done|]. cbn. rewrite split_on_str_join; [|done|].
      * by apply forallb_Forall.
      * eapply Forall_impl; [exact Hw|]. intros w [_ Hall]%andb_true_iff.
        by apply (lacks_impl (fun b => is_ascii_lowercase b || is_ascii_digit b)).
Qed.

Lemma lower_hex_lacks n x c :
  is_lower_hex c = false -> (zlen x =? n)%Z && bytes_all is_lower_hex x = true -> lacks c x = true.
Proof. intros Hc [_ Hx]%andb_true_iff. by apply (lacks_impl is_lower_hex). Qed.

Lemma conversation_id_iff c :
  (length (split_on "-" c) =? 5)%nat
  && negb (existsb (fun '(part, len) => negb (zlen part =? len)%Z || negb (hex part))
             (combine (split_on "-" c) [8; 4; 4; 4; 12]%Z)) = true
  <-> conversation_id c.
Proof.
  unfold conversation_id, lower_hex. fold hex. split.
  - intros Hc. pose proof (str_join_split_on "-" c) as Hj.
    destruct (split_on "-" c) as [|a [|b [|d [|e [|f [|]]]]]]; try done.
    cbn in Hc. exists a, b, d, e, f. split; [done|].
    unfold hex in Hc. rewrite !negb_orb, !negb_involutive, !andb_true_iff in Hc.
    rewrite !andb_true_iff. tauto.
  - intros (a & b & d & e & f & -> & Ha & Hb & Hd & He & Hf).
    rewrite split_on_str_join; [|done|].
    + cbn [length Nat.eqb existsb combine andb]. unfold hex.
      apply andb_true_iff in Ha as [-> ->], Hb as [-> ->], Hd as [-> ->], He as [-> ->],
        Hf as [-> ->]. done.
    + rewrite !Forall_cons. split_and!; [by eapply lower_hex_lacks..|done].
Qed.

Lemma ascii_of_class (p : ascii -> bool) s :
  (forall c, p c = true -> is_ascii c = true) -> bytes_all p s = true -> bytes_all is_ascii s = true.
Proof. intros Hp. by apply bytes_all_impl. Qed.
Lemma lower_hex_ascii c : is_lower_hex c = true -> is_ascii c = true.
Proof. destruct c as [[] [] [] [] [] [] [] []]; vm_compute; congruence. Qed.
Lemma slug_ascii c : is_ascii_lowercase c || is_ascii_digit c = true -> is_ascii c = true.
Proof. destruct c as [[] [] [] [] [] [] [] []]; vm_compute; congruence. Qed.

(** The characters of a joined text. *)
Lemma bytes_all_join (p : ascii -> bool) c l :
  p c = true -> Forall (fun x => bytes_all p x = true) l ->
  bytes_all p (str_join (String c "") l) = true.
Proof.
  intros Hc Hl. induction Hl as [|a l Ha Hl IH]; [done|]. destruct l as [|b l]; [done|].
  rewrite str_join_cons by done. rewrite !bytes_all_app, Ha, IH. cbn. by rewrite Hc.
Qed.
Lemma slug_all (p : ascii -> bool) s :
  p "-"%char = true -> (forall c, is_ascii_lowercase c || is_ascii_digit c = true -> p c = true) ->
  slug s -> bytes_all p s = true.
Proof.
  intros Hd Hp [->|(words & _ & Hw & ->)]; [done|].
  change (String "-" ?x) with ("-" +:+ x)%string. rewrite bytes_all_app, bytes_all_join; [|done|].
  - cbn. by rewrite Hd.
  - eapply Forall_impl; [exact Hw|]. intros w [_ Hall]%andb_true_iff. by apply (bytes_all_impl _ p w Hp).
Qed.
Lemma conversation_all (p : ascii -> bool) c :
  p "-"%char = true -> (forall c, is_lower_hex c = true -> p c = true) ->
  conversation_id c -> bytes_all p c = true.
Proof.
  intros Hd Hp (a & b & d & e & f & -> & Hs). apply bytes_all_join; [done|].
  unfold lower_hex in Hs. rewrite !andb_true_iff in Hs. rewrite !Forall_cons.
  split_and!; try (eapply bytes_all_impl; [exact Hp|]; tauto). done.
Qed.
Lemma conversation_ascii p s c :
  project_id p -> slug s -> conversation_id c ->
  bytes_all is_ascii (p +:+ s +:+ "/c/" +:+ c) = true.
Proof.
  intros [_ Hp]%andb_true_iff Hs Hc. rewrite !bytes_all_app.
  rewrite (ascii_of_class is_lower_hex p), (slug_all is_ascii s), (conversation_all is_ascii c);
    auto using lower_hex_ascii, slug_ascii.
Qed.
Lemma project_lacks p s : project_id p -> slug s -> lacks "/" (p +:+ s) = true.
Proof.
  intros [_ Hp]%andb_true_iff Hs. unfold lacks. rewrite bytes_all_app. apply andb_true_iff. split.
  - by apply (lacks_impl is_lower_hex).
  - apply slug_all; [done| |done]. intros c. destruct c as [[] [] [] [] [] [] [] []]; vm_compute; congruence.
Qed.

Lemma identity_iff raw p c :
  identity raw = Some (p, c) <->
  exists s, raw = conversation_url p s c /\ project_id p /\ slug s /\ conversation_id c.
Proof.
  unfold identity, conversation_url, project_id, lower_hex. split.
  - destruct (strip_prefix _ raw) as [tail|] eqn:Hraw; [|done]. cbn.
    destruct (bytes_all is_ascii tail); [|done]. cbn.
    destruct (split_once_str "/c/" tail) as [[project_slug conversation]|] eqn:Ht; [|done].
    cbn [mbind option_bind].
    destruct ((zlen project_slug <? 32)%Z || _) eqn:Hp; [done|].
    destruct (negb (slug_suffix _)) eqn:Hs; [done|].
    destruct (negb (length _ =? 5)%nat || _) eqn:Hc; [done|]. intros [= <- <-].
    apply strip_prefix_spec in Hraw as ->. apply split_once_str_spec in Ht as ->.
    apply orb_false_iff in Hp as [Hlen Hhex%negb_false_iff]. apply Z.ltb_ge in Hlen.
    exists (drop_str 32 project_slug). split_and!.
    + rewrite <-(take_drop_str 32 project_slug) at 1. by rewrite <-string_app_assoc.
    + by rewrite zlen_take_str.
    + by apply slug_suffix_iff, negb_false_iff.
    + apply conversation_id_iff. apply negb_true_iff in Hc. by rewrite negb_orb, negb_involutive in Hc.
  - intros (s & -> & Hp & Hs & Hc).
    replace (strip_prefix _ _) with (Some (p +:+ s +:+ "/c/" +:+ c))%string
      by by (symmetry; apply strip_prefix_spec).
    cbn [mbind option_bind]. rewrite conversation_ascii by done. cbn [negb].
    rewrite string_app_assoc, split_once_str_first by (by apply project_lacks).
    cbn [mbind option_bind].
    assert (String.length p = 32%nat) as Hlen.
    { apply andb_true_iff in Hp as [Hp _]. apply Z.eqb_eq in Hp. unfold zlen in Hp. lia. }
    rewrite <-Hlen, take_str_app, drop_str_app, zlen_app.
    replace (zlen p + zlen s <? 32)%Z with false
      by (symmetry; apply Z.ltb_ge; unfold zlen; lia).
    apply andb_true_iff in Hp as [_ Hp]. unfold hex at 1. rewrite Hp.
    apply slug_suffix_iff in Hs as ->. cbn [negb orb].
    apply conversation_id_iff in Hc. apply andb_true_iff in Hc as [-> Hc%negb_true_iff].
    cbn [negb orb]. by rewrite Hc.
Qed.

Lemma match_identity a b : retained_target_urls_match a b = true
  <-> a = b \/ exists x, identity a = Some x /\ identity b = Some x.
Proof.
  unfold retained_target_urls_match. case_bool_decide as Hab; [naive_solver|].
  destruct (identity a) as [x|], (identity b) as [y|]; try naive_solver.
  rewrite bool_decide_eq_true. naive_solver.
Qed.
Lemma match_same_target a b : retained_target_urls_match a b = true <-> same_target a b.
Proof.
  rewrite match_identity. split.
  - intros [->|([p c] & Ha & Hb)]; [constructor|]. apply identity_iff in Ha, Hb.
    destruct Ha as (s & -> & Hp & Hs & Hc), Hb as (s' & -> & _ & Hs' & _). by constructor.
  - intros [u|p s s' c Hp Hs Hs' Hc]; [by left|]. right. exists (p, c).
    rewrite !identity_iff. eauto 10.
Qed.

(** Two URLs of a retained target are taken for the same exactly when they are
    equal or name the same conversation of the same ChatGPT project: a 32-digit project,
    five hexadecimal groups, and a human-readable slug that may be absent or differ.
    The comparison is an equivalence relation, so an observation that matches an
    expectation can stand in for it, and no other URL is ever identified. *)
Theorem retained_target_urls_match_iff :
  (forall a b, retained_target_urls_match a b = true <-> same_target a b)
  /\ Equivalence (fun a b => retained_target_urls_match a b = true).
Proof.
  split; [exact match_same_target|].
  split; repeat intro; rewrite !match_identity in *; naive_solver.
Qed.

(** ** What a status rests on *)

Section status.
Context `{!Observed, !UrlEdit, !UrlLib, !Json, !JsonTree, !Crypto, !Chrono}.
Context `{!Serde RequirementRecord, !Serde EnforcementRecord, !Serde RotationRecord}.
Context `{!Serde value, !Serde (list value), !PrettyJson RequirementRecord}.

(** A regular file of this user of at most [max] bytes, private when asked for. *)
Definition own_file (path : string) (max : Z) (private : bool) (bytes : string) : Prop :=
  exists len mode,
    open_nofollow path = Some {| of_metadata := Some (true, len, geteuid, mode);
                                 of_read_to_end := Some bytes |}
    /\ (len <= max)%Z /\ (zlen bytes <= max)%Z /\ (private = true -> Z.land mode 63 = 0%Z).

(** The expectation a requirement may hold. *)
Definition sound_expectation (x : RetainedBrowserExpectation) : Prop :=
  valid_session_name (session_name x) = true /\ profile_id x <> ""%string
  /\ target_id x <> ""%string
  /\ exists u, url_parse (url x) = Ok u /\ In (u_scheme u) ["http"; "https"]%string.

Definition dated (created_at : string) : Prop := exists t, parse_from_rfc3339 created_at = Ok t.

Definition sound_requirement (record : RequirementRecord) : Prop :=
  rq_schema_version record = REQUIREMENT_SCHEMA /\ dated (rq_created_at record)
  /\ sound_expectation (rq_expectation record).

Definition requirement_file (path : string) (bytes : string) (record : RequirementRecord) : Prop :=
  symlink_metadata path = Present
  /\ own_file path MAX_REQUIREMENT_BYTES true bytes
  /\ from_slice bytes = Some record /\ sound_requirement record.

(** What the enforcement file asks for: the digest of a requirement, or nothing. *)
Definition enforcement_file (path : string) (digest : option string) : Prop :=
  match digest with
  | None => symlink_metadata path = NotFound
  | Some digest =>
      symlink_metadata path = Present
      /\ exists bytes e, own_file path MAX_REQUIREMENT_BYTES true bytes
           /\ from_slice bytes = Some e /\ en_schema_version e = ENFORCEMENT_SCHEMA
           /\ dated (en_created_at e) /\ lower_hex digest 64 = true
           /\ en_requirement_sha256 e = digest
  end.

Definition rotation_file (path : string) (rotation : option RotationRecord) : Prop :=
  match rotation with
  | None => symlink_metadata path = NotFound
  | Some r =>
      symlink_metadata path = Present
      /\ exists bytes, own_file path MAX_REQUIREMENT_BYTES true bytes /\ from_slice bytes = Some r
  end.

(** A rotation of which every field is in order and the next requirement has its digest. *)
Definition sound_rotation (r : RotationRecord) : Prop :=
  ro_schema_version r = ROTATION_SCHEMA /\ dated (ro_created_at r)
  /\ lower_hex (ro_expected_old_sha256 r) 64 = true
  /\ lower_hex (ro_next_requirement_sha256 r) 64 = true
  /\ ro_operation_id r = fmt [take_str 12 (ro_expected_old_sha256 r); "-";
                              take_str 12 (ro_next_requirement_sha256 r)]%string
  /\ In (ro_stale_reason r) ["retained_daemon_missing"; "retained_browser_missing"]%string
  /\ In (ro_phase r) ["prepared"; "requirement_replaced"; "enforcement_replaced"; "committed"]%string
  /\ sound_expectation (ro_old_expectation r) /\ sound_requirement (ro_next_requirement r)
  /\ exists serialized, to_vec_pretty (ro_next_requirement r) = Some serialized
       /\ sha256_hex (serialized +:+ String (ascii_of_nat 10) "") = ro_next_requirement_sha256 r.

(** The digests that are found in a phase: which of the two files may be replaced. *)
Inductive digests_of_phase (old next : string) : string -> string -> string -> Prop :=
| Before_replacement : digests_of_phase old next "prepared" old old
| Requirement_just_replaced : digests_of_phase old next "prepared" next old
| Requirement_replaced : digests_of_phase old next "requirement_replaced" next old
| Enforcement_just_replaced : digests_of_phase old next "requirement_replaced" next next
| Enforcement_replaced : digests_of_phase old next "enforcement_replaced" next next
| Committed : digests_of_phase old next "committed" next next.

Definition daemon_lives (socket_dir session : string) : Prop :=
  exists text pid,
    own_file (fmt [socket_dir; "/"; session; ".pid"]%string) MAX_DAEMON_PID_BYTES false text
    /\ from_utf8 text = Some text /\ parse_unsigned u32_max (trim text) = Some pid
    /\ (0 < pid)%Z /\ pid_is_running pid = true.

(** Exactly one element of a list has the property. *)
Definition exactly_one {A} (p : A -> Prop) (l : list A) : Prop :=
  exists before x after, l = before ++ x :: after /\ p x
    /\ forall y, y ∈ before ++ after -> ~ p y.

(** A value whose URL names the expected target. *)
Definition at_url (x : RetainedBrowserExpectation) (v : value) : Prop :=
  exists u, jstr v "url" = Some u /\ same_target (url x) u.

Definition keeps_handle (x : RetainedBrowserExpectation) (browser_id : string) (h : value) : Prop :=
  jstr h "browserId" = Some browser_id /\ jstr h "sessionName" = Some (session_name x)
  /\ jstr h "targetId" = Some (target_id x) /\ at_url x h /\ jbool_of h "valid" = Some true.

(** The persisted browser still is the expected one. *)
Definition browser_kept (x : RetainedBrowserExpectation) (browser : value) : Prop :=
  let browser_id := ("session:" +:+ session_name x)%string in
  jstr browser "id" = Some browser_id
  /\ effective_profile_id browser = Some (profile_id x)
  /\ jstr browser "health" = Some "ready"%string
  /\ match browser_pid browser with
     | Some pid => pid_is_running pid = true
     | None => jstr browser "host" = Some "attached_existing"%string
     end
  /\ (exists ids, jget browser "activeSessionIds" ≫= as_array = Some ids
        /\ exactly_one (fun v => as_str v = Some (session_name x)) ids)
  /\ (exists handles, jget browser "tabHandles" ≫= as_array = Some handles
        /\ exactly_one (keeps_handle x browser_id) handles).

(** What a browser lists under the loopback address of its endpoint: one successful
    answer of bounded length, every chunk of it received. *)
Definition lists_targets (endpoint : string) (targets : list value) : Prop :=
  exists u list_url response chunks,
    url_parse endpoint = Ok u /\ u_scheme u = "ws"%string /\ u_port u <> None
    /\ (exists host, u_host_str u = Some host /\ In host ["127.0.0.1"; "localhost"; "::1"]%string)
    /\ json_list_url u = Some list_url /\ http_get list_url = Some response
    /\ re_status response = 200%Z
    /\ (forall length, re_content_length response = Some length ->
          (length <= MAX_CDP_TARGET_BYTES)%Z)
    /\ re_chunks response = map Some chunks /\ (zlen (fmt chunks) <= MAX_CDP_TARGET_BYTES)%Z
    /\ from_slice (fmt chunks) = Some targets.

(** The browser itself, asked over the loopback interface, shows the target. *)
Definition target_shown (x : RetainedBrowserExpectation) (browser : value) : Prop :=
  exists endpoint targets, jstr browser "cdpEndpoint" = Some endpoint /\ endpoint <> ""%string
    /\ lists_targets endpoint targets
    /\ exactly_one (fun t => jstr t "id" = Some (target_id x)) targets
    /\ forall t, t ∈ targets -> jstr t "id" = Some (target_id x) -> at_url x t.

(** [v] is an object under the key. *)
Definition jobject_at (v : value) (key : string) (o : value) : Prop :=
  jget v key = Some o /\ object_len o <> None.

(** ** The steps of the verification *)

Lemma own_file_iff path max private e e' bytes :
  read_bounded_regular_file path max private e e' = Ok bytes <-> own_file path max private bytes.
Proof.
  unfold read_bounded_regular_file, own_file.
  destruct (open_nofollow path) as [[meta body]|]; [|split; [done|naive_solver]].
  destruct meta as [[[[is_file len] uid] mode]|]; [|split; [done|naive_solver]]. cbn.
  destruct is_file; [|split; [done|naive_solver]]. cbn.
  destruct (Z.ltb_spec max len); [split; [done|intros (?&?&[= ]&?); lia]|].
  case_bool_decide as Hu; [|split; [done|naive_solver]]. subst uid. cbn.
  destruct body as [b|]; cbn.
  2: { destruct private, (Z.land mode 63 =? 0)%Z; (split; [done|naive_solver]). }
  destruct (private && negb (Z.land mode 63 =? 0)%Z) eqn:Hm.
  - split; [done|]. apply andb_true_iff in Hm as [-> Hm%negb_true_iff%Z.eqb_neq]. naive_solver.
  - destruct (Z.ltb_spec max (zlen b)); [split; [done|intros (?&?&[= ]&?); subst; lia]|].
    split.
    + intros [= <-]. exists len, mode. split_and!; [done..|]. intros ->.
      by apply negb_false_iff, Z.eqb_eq in Hm.
    + naive_solver.
Qed.

Lemma read_own_file path max private e e' bytes :
  own_file path max private bytes -> read_bounded_regular_file path max private e e' = Ok bytes.
Proof. apply own_file_iff. Qed.

Lemma filter_none {A} (p : A -> bool) l :
  (forall x, x ∈ l -> p x = false) -> List.filter p l = [].
Proof.
  induction l as [|x l IH]; [done|]. intros Hl. cbn. rewrite Hl by left.
  apply IH. intros y Hy. apply Hl. by right.
Qed.
Lemma exactly_one_filter {A} (p : A -> bool) (q : A -> Prop) l :
  (forall x, p x = true <-> q x) -> length (List.filter p l) = 1%nat <-> exactly_one q l.
Proof.
  intros Hpq. split.
  - induction l as [|x l IH]; [done|]. cbn. destruct (p x) eqn:E.
    + intros [= Hl%length_zero_iff_nil]. exists [], x, l. split_and!; [done|by apply Hpq|].
      cbn. intros y Hy Hq. apply Hpq in Hq. apply list_elem_of_In in Hy.
      assert (In y (List.filter p l)) as Hin by by apply filter_In. by rewrite Hl in Hin.
    + intros (b & y & a & -> & Hy & Hn)%IH. exists (x :: b), y, a. split_and!; [done..|].
      intros z [->|Hz]%elem_of_cons; [|by apply Hn]. intros Hz%Hpq. congruence.
  - intros (b & x & a & -> & Hx & Hn). rewrite List.filter_app. cbn.
    apply Hpq in Hx as ->. rewrite !filter_none; [done|..];
      intros y Hy; destruct (p y) eqn:E; try done; apply Hpq in E; destruct (Hn y); set_solver.
Qed.

Lemma sound_expectation_iff x : validate_expectation x = Ok tt <-> sound_expectation x.
Proof.
  unfold validate_expectation, sound_expectation, is_empty. split.
  - intros Hv. guards. destruct (one_of _ _) eqn:Hs; [|done]. apply one_of_In in Hs. naive_solver.
  - intros (-> & Hp & Ht & u & Hu & Hs). rewrite !bool_decide_false by done. cbn. rewrite Hu. cbn.
    apply one_of_In in Hs. cbn in Hs. by rewrite Hs.
Qed.

Lemma sound_requirement_iff record :
  validate_requirement record = Ok tt <-> sound_requirement record.
Proof.
  unfold validate_requirement, sound_requirement, dated. rewrite <-sound_expectation_iff. split.
  - intros Hv. guards. eauto.
  - intros (-> & [t Ht] & Hx). rewrite bool_decide_true by done. cbn. by rewrite Ht.
Qed.

Lemma sound_rotation_iff r : validate_rotation r = Ok tt <-> sound_rotation r.
Proof.
  unfold validate_rotation, validate_sha256, sound_rotation, dated.
  rewrite <-sound_expectation_iff, <-sound_requirement_iff. split.
  - intros Hv. guards.
    repeat match goal with u : () |- _ => destruct u end.
    destruct (lower_hex (ro_expected_old_sha256 r) 64), (lower_hex (ro_next_requirement_sha256 r) 64);
      try done. split_and!; try apply one_of_In; eauto.
  - intros (-> & [t Ht] & Ho & Hn & -> & Hs%one_of_In & Hp%one_of_In & Hx & Hr & s & Hj & Hd).
    rewrite bool_decide_true, Ht, Ho, Hn by done. cbn [mbind result_bind negb map_err].
    rewrite bool_decide_true, Hs, Hp, Hx by done. cbn [mbind result_bind negb].
    rewrite Hr, Hj. cbn [mbind result_bind ok_or]. by rewrite Hd, bool_decide_true.
Qed.

Lemma digests_of_phase_iff r requirement enforcement :
  validate_rotation_pair requirement enforcement r = Ok tt
  <-> ro_expected_old_sha256 r <> ro_next_requirement_sha256 r
      /\ digests_of_phase (ro_expected_old_sha256 r) (ro_next_requirement_sha256 r) (ro_phase r)
           requirement enforcement.
Proof.
  unfold validate_rotation_pair.
  generalize (ro_expected_old_sha256 r), (ro_next_requirement_sha256 r), (ro_phase r).
  intros old next phase. unfold one_of. cbn [existsb]. split.
  - repeat case_bool_decide; simplify_eq; intros [=]; (split; [congruence|constructor]).
  - intros [Hne Hd]. destruct Hd; repeat case_bool_decide; simplify_eq; done.
Qed.

Lemma enforcement_file_iff path digest :
  (exists o, read_enforcement path = Ok o /\ en_requirement_sha256 <$> o = digest)
  <-> enforcement_file path digest.
Proof.
  unfold read_enforcement, enforcement_file, dated. split.
  - intros (o & Hr & <-). destruct (symlink_metadata path) eqn:Hs; [|by injection Hr as <-|done].
    guards. repeat match goal with Ho : read_bounded_regular_file _ _ _ _ _ = Ok _ |- _ =>
      apply own_file_iff in Ho end. cbn. eauto 10.
  - destruct digest as [digest|]; [|intros ->; eauto].
    intros (-> & bytes & e & Hb & He & Hv & [t Ht] & Hd & <-). exists (Some e). split; [|done].
    rewrite (read_own_file _ _ _ _ _ _ Hb). cbn. rewrite He. cbn. rewrite Hv, bool_decide_true by done.
    cbn. rewrite Ht. cbn. by rewrite Hd.
Qed.

Lemma rotation_file_iff path rotation :
  read_rotation path = Ok rotation <-> rotation_file path rotation.
Proof.
  unfold read_rotation, rotation_file. split.
  - intros Hr. destruct (symlink_metadata path) eqn:Hs; [|by injection Hr as <-|done].
    guards. repeat match goal with Ho : read_bounded_regular_file _ _ _ _ _ = Ok _ |- _ =>
      apply own_file_iff in Ho end. eauto.
  - destruct rotation as [r|]; [|by intros ->]. intros (-> & bytes & Hb & Hr).
    rewrite (read_own_file _ _ _ _ _ _ Hb). cbn. by rewrite Hr.
Qed.

Lemma from_utf8_some t u : from_utf8 t = Some u -> u = t.
Proof. unfold from_utf8. destruct (utf8 _); congruence. Qed.

Lemma daemon_lives_iff socket_dir session :
  verify_retained_daemon socket_dir session = Ok tt <-> daemon_lives socket_dir session.
Proof.
  unfold verify_retained_daemon, daemon_lives. split.
  - intros Hv. guards.
    match goal with Hr : read_bounded_regular_file _ _ _ _ _ = Ok ?t |- _ =>
      apply own_file_iff in Hr; exists t end.
    match goal with Hp : (text ← _; _) = Some _ |- _ =>
      apply bind_Some in Hp as (t & Ht & (p & Hp & Hq)%bind_Some) end.
    pose proof (from_utf8_some _ _ Ht) as ->.
    destruct (0 <? p)%Z eqn:Hpos; [|done]. apply Z.ltb_lt in Hpos. simplify_eq. eauto 10.
  - intros (text & pid & Hf & Ht & Hp & Hpos & Hrun). rewrite (read_own_file _ _ _ _ _ _ Hf). cbn.
    rewrite Ht. cbn. rewrite Hp. cbn. apply Z.ltb_lt in Hpos as ->. cbn. by rewrite Hrun.
Qed.

Lemma url_matches_iff x v : url_matches x v = true <-> at_url x v.
Proof.
  unfold url_matches, at_url. destruct (jstr v "url") as [u|].
  - rewrite match_same_target. naive_solver.
  - naive_solver.
Qed.

Lemma handle_matches_iff x browser_id h :
  handle_matches browser_id (Some (profile_id x)) x h = true <-> keeps_handle x browser_id h.
Proof.
  unfold handle_matches, keeps_handle. rewrite !andb_true_iff, !bool_decide_eq_true, url_matches_iff.
  tauto.
Qed.

Lemma count_in_one v key p q : (forall x, p x = true <-> q x) ->
  count_in v key p = 1%nat <-> exists l, jget v key ≫= as_array = Some l /\ exactly_one q l.
Proof.
  intros Hpq. unfold count_in. destruct (jget v key ≫= as_array) as [l|].
  - rewrite (exactly_one_filter p q) by done. naive_solver.
  - split; [done|naive_solver].
Qed.

Lemma as_object_iff v key o : jget v key ≫= as_object = Some o <-> jobject_at v key o.
Proof.
  unfold jobject_at, as_object. destruct (jget v key) as [u|]; cbn; [|naive_solver].
  destruct (object_len u) eqn:E; naive_solver congruence.
Qed.

(** The last step of the verification, over the targets the browser reports. *)
Definition check_target (x : RetainedBrowserExpectation) (targets : list value) : res unit :=
  match List.filter (fun target => jstr target "id" == Some (target_id x)) targets with
  | [] => Err (failure "retained_target_missing")
  | [target] => if negb (url_matches x target)
                then Err (failure "retained_target_url_changed") else Ok tt
  | _ => Err (failure "retained_target_ambiguous")
  end.

Lemma check_target_iff x targets : check_target x targets = Ok tt <->
  exactly_one (fun t => jstr t "id" = Some (target_id x)) targets
  /\ forall t, t ∈ targets -> jstr t "id" = Some (target_id x) -> at_url x t.
Proof.
  unfold check_target. set (p := fun target => jstr target "id" == Some (target_id x)).
  assert (forall t, p t = true <-> jstr t "id" = Some (target_id x)) as Hp
    by (intros t; apply bool_decide_eq_true).
  rewrite <-(exactly_one_filter p) by done.
  assert (forall t, t ∈ targets /\ p t = true <-> In t (List.filter p targets)) as Hin
    by (intros t; by rewrite filter_In, list_elem_of_In).
  destruct (List.filter p targets) as [|target [|]]; [split; [done|intros [? _]; done]| |
    split; [done|intros [? _]; done]].
  assert (forall t, t ∈ targets -> jstr t "id" = Some (target_id x) -> t = target) as Hone.
  { intros t Ht Hid%Hp. destruct (proj1 (Hin t)) as [<-|[]]; done. }
  pose proof (url_matches_iff x target) as Hu. destruct (url_matches x target); cbn; split.
  - intros _. split; [done|]. intros t Ht Hid. rewrite (Hone t) by done. by apply Hu.
  - done.
  - done.
  - intros [_ Ha]. destruct (proj2 (Hin target)) as [Ht Hpt]; [by left|].
    specialize (Ha _ Ht (proj1 (Hp _) Hpt)). by apply Hu in Ha.
Qed.

Lemma nonempty_iff (o : option string) e :
  (endpoint ← o; if is_empty endpoint then None else Some endpoint) = Some e
  <-> o = Some e /\ e <> ""%string.
Proof.
  unfold is_empty. destruct o as [t|]; cbn; [|naive_solver]. case_bool_decide; naive_solver.
Qed.

Lemma collect_body_iff body chunks b : (zlen body <= MAX_CDP_TARGET_BYTES)%Z ->
  collect_body body chunks = Ok b
  <-> exists pieces, chunks = map Some pieces /\ b = body +:+ fmt pieces
        /\ (zlen b <= MAX_CDP_TARGET_BYTES)%Z.
Proof.
  revert body. induction chunks as [|[c|] chunks IH]; intros body Hb; cbn.
  - split.
    + intros [= <-]. exists []. split_and!; [done|by rewrite string_app_nil_r|done].
    + intros ([|] & ? & -> & _); [|done]. by rewrite string_app_nil_r.
  - destruct (Z.ltb_spec MAX_CDP_TARGET_BYTES (zlen body + zlen c)) as [Hl|Hl].
    + split; [done|]. intros ([|p ps] & [= -> ->] & -> & Hlen). cbn in Hlen.
      rewrite !zlen_app in Hlen. unfold zlen in *. lia.
    + rewrite IH by (rewrite zlen_app; lia). split.
      * intros (ps & -> & -> & Hlen). exists (c :: ps). cbn. by rewrite string_app_assoc.
      * intros ([|p ps] & [= -> ->] & -> & Hlen). exists ps. cbn in *.
        by rewrite string_app_assoc in *.
  - split; [done|]. by intros ([|] & ? & _).
Qed.

Lemma lists_targets_iff endpoint targets :
  fetch_loopback_cdp_targets endpoint = Ok targets <-> lists_targets endpoint targets.
Proof.
  unfold fetch_loopback_cdp_targets, lists_targets. split.
  - intros Hf. guards.
    match goal with Hc : collect_body _ _ = Ok _ |- _ =>
      apply collect_body_iff in Hc as (chunks & Hchunks & -> & Hlen); [|done] end.
    match goal with Hs : (re_status ?r =? 200)%Z = true, Hu : url_parse _ = Ok ?u,
      Hj : json_list_url _ = Some ?l |- _ => apply Z.eqb_eq in Hs; exists u, l, r, chunks end.
    split_and!; try done.
    + by destruct (u_port _).
    + eexists. split; [done|by apply one_of_In].
    + intros length Hl. rewrite Hl in *. by apply Z.ltb_ge.
  - intros (u & list_url & response & chunks & Hu & Hs & Hp & (host & Hh & Hin%one_of_In) & Hj & Hg
      & Hok & Hlen & Hc & Hb & Ht).
    rewrite Hu. cbn [map_err mbind result_bind]. rewrite Hs, bool_decide_true by done.
    destruct (u_port u); [|done]. rewrite Hh. cbn [negb orb ok_or mbind result_bind].
    rewrite Hin, Hj. cbn [negb ok_or mbind result_bind]. rewrite Hg. cbn [ok_or mbind result_bind].
    rewrite Hok. cbn [Z.eqb negb Pos.eqb].
    rewrite (proj2 (collect_body_iff "" (re_chunks response) (fmt chunks) ltac:(done))) by eauto.
    cbn [mbind result_bind]. rewrite Ht. destruct (re_content_length response) as [length|]; [|done].
    by rewrite (proj2 (Z.ltb_ge _ _) (Hlen _ eq_refl)).
Qed.

Lemma target_shown_iff x browser :
  target_shown x browser <->
  exists endpoint targets,
    (endpoint ← jstr browser "cdpEndpoint"; if is_empty endpoint then None else Some endpoint)
      = Some endpoint
    /\ fetch_loopback_cdp_targets endpoint = Ok targets /\ check_target x targets = Ok tt.
Proof.
  unfold target_shown. setoid_rewrite <-lists_targets_iff. setoid_rewrite check_target_iff. setoid_rewrite nonempty_iff. naive_solver.
Qed.

(** What the verification asks of the process of the browser. *)
Definition process_lives (browser : value) : Prop :=
  match browser_pid browser with
  | Some pid => pid_is_running pid = true
  | None => jstr browser "host" = Some "attached_existing"%string
  end.
Lemma process_lives_iff browser :
  match browser_pid browser with
  | Some pid => if negb (pid_is_running pid)
                then Err (failure "retained_browser_process_exited") else Ok tt
  | None => if jstr browser "host" != Some "attached_existing"%string
            then Err (failure "retained_browser_pid_missing") else Ok tt
  end = Ok tt <-> process_lives browser.
Proof.
  unfold process_lives. destruct (browser_pid browser) as [pid|].
  - by destruct (pid_is_running pid).
  - by case_bool_decide.
Qed.

Lemma verify_persisted_browser_iff state x : verify_persisted_browser state x = Ok tt <->
  exists browsers browser, jobject_at state "browsers" browsers
    /\ jobject_at browsers ("session:" +:+ session_name x) browser
    /\ browser_kept x browser /\ target_shown x browser.
Proof.
  unfold browser_kept. fold (process_lives). setoid_rewrite target_shown_iff.
  setoid_rewrite <-(count_in_one _ "activeSessionIds"
    (fun v => as_str v == Some (session_name x))); [|intros v; apply bool_decide_eq_true].
  setoid_rewrite <-(count_in_one _ "tabHandles" _ _ (handle_matches_iff x _)).
  unfold verify_persisted_browser. split.
  - intros Hv. guards.
    repeat match goal with
    | Ho : (_ ≫= as_object) = Some _ |- _ => apply as_object_iff in Ho
    | Hc : (_ =? 1)%nat = true |- _ => apply Nat.eqb_eq in Hc
    end.
    match goal with He : effective_profile_id ?b = _, Hm : match browser_pid ?b with _ => _ end = Ok ?v |- _ =>
      rewrite He in *; destruct v; apply process_lives_iff in Hm; eexists _, b end.
    split_and!; [done..|]. eexists _, _. split_and!; done.
  - intros (browsers & browser & Hbs%as_object_iff & Hb%as_object_iff
            & (Hid & Hprofile & Hhealth & Hlive & Hsessions & Hhandles)
            & endpoint & targets & He & Hf & Ht).
    rewrite Hbs. cbn [ok_or mbind result_bind]. rewrite Hb. cbn [ok_or mbind result_bind].
    rewrite Hid, Hprofile, Hhealth, !bool_decide_true by done. cbn [negb].
    apply process_lives_iff in Hlive. rewrite Hlive. cbn [mbind result_bind].
    rewrite Hsessions, Hhandles. cbn [Nat.eqb negb]. rewrite He. cbn [ok_or mbind result_bind].
    rewrite Hf. exact Ht.
Qed.

(** ** The successful answers *)

Definition unconfigured (path : string) : Prop :=
  symlink_metadata path = NotFound
  /\ enforcement_file (retained_browser_enforcement_path path) None
  /\ rotation_file (retained_browser_rotation_path path) None.

(** A rotation is under way: requirement, enforcement and journal are there and agree. *)
Definition rotation_under_way (path : string) (phase : string) : Prop :=
  exists bytes record digest r,
    requirement_file path bytes record
    /\ enforcement_file (retained_browser_enforcement_path path) (Some digest)
    /\ rotation_file (retained_browser_rotation_path path) (Some r)
    /\ sound_rotation r /\ ro_phase r = phase
    /\ ro_expected_old_sha256 r <> ro_next_requirement_sha256 r
    /\ digests_of_phase (ro_expected_old_sha256 r) (ro_next_requirement_sha256 r) phase
         (sha256_hex bytes) digest.

(** The requirement holds: all of the evidence is there. *)
Definition requirement_holds (root path socket_dir : string) (is_enforced : bool) : Prop :=
  exists bytes record,
    requirement_file path bytes record
    /\ enforcement_file (retained_browser_enforcement_path path)
         (if is_enforced then Some (sha256_hex bytes) else None)
    /\ rotation_file (retained_browser_rotation_path path) None
    /\ let x := rq_expectation record in
       daemon_lives socket_dir (session_name x)
       /\ exists state_bytes state browsers browser,
            own_file (root +:+ "/.agent-browser/service/state.json")
              MAX_SERVICE_STATE_BYTES false state_bytes
            /\ from_slice state_bytes = Some state
            /\ jobject_at state "browsers" browsers
            /\ jobject_at browsers ("session:" +:+ session_name x) browser
            /\ browser_kept x browser /\ target_shown x browser.

Lemma requirement_file_iff path bytes record e e' :
  symlink_metadata path = Present ->
  (read_bounded_regular_file path MAX_REQUIREMENT_BYTES true e e' = Ok bytes
   /\ from_slice bytes = Some record /\ validate_requirement record = Ok tt)
  <-> requirement_file path bytes record.
Proof.
  intros Hs. unfold requirement_file. rewrite own_file_iff, sound_requirement_iff. tauto.
Qed.

Lemma rotation_file_unique path r r' : rotation_file path r -> rotation_file path r' -> r = r'.
Proof. intros Hr%rotation_file_iff Hr'%rotation_file_iff. congruence. Qed.
Lemma enforcement_file_unique path d d' :
  enforcement_file path d -> enforcement_file path d' -> d = d'.
Proof.
  intros (o & Ho & <-)%enforcement_file_iff (o' & Ho' & <-)%enforcement_file_iff. congruence.
Qed.

Section present.
Variables (root path socket_dir : string) (st : RetainedBrowserRequirementStatus).
Variables (enforcement : option EnforcementRecord) (rotation : option RotationRecord).
Hypothesis present : symlink_metadata path = Present.
Hypothesis enforcement_read : enforcement_file (retained_browser_enforcement_path path)
                                (en_requirement_sha256 <$> enforcement).
Hypothesis rotation_read : rotation_file (retained_browser_rotation_path path) rotation.

Definition answered : Prop :=
  (exists phase, st = status path true false "rotation_pending" true (Some phase)
     /\ rotation_under_way path phase)
  \/ (exists is_enforced, st = status path true true "verified" is_enforced None
        /\ requirement_holds root path socket_dir is_enforced).

Lemma present_answered :
  verify_present root path socket_dir enforcement rotation = Ok st -> answered.
Proof using All.
  unfold verify_present, answered. intros Hv. inv_ok. destruct v1.
  match goal with Hr : read_bounded_regular_file _ _ _ _ _ = Ok ?b, Hs : from_slice _ = Some ?x |- _ =>
    rename b into bytes, x into record;
    pose proof (proj1 (requirement_file_iff _ _ _ _ _ present) (conj Hr (conj Hs Hm1))) as Hfile end.
  destruct rotation as [r|].
  - left. guards. exists (ro_phase r). split; [done|].
    match goal with Hp : validate_rotation_pair _ _ r = Ok ?u, Hr : validate_rotation r = Ok ?w |- _ =>
      destruct u, w; apply digests_of_phase_iff in Hp as [Hne Hd]; apply sound_rotation_iff in Hr end.
    exists bytes, record, (en_requirement_sha256 v), r. split_and!; done.
  - right. exists (is_some enforcement). guards.
    match goal with Hd : verify_retained_daemon _ _ = Ok ?u, Hb : verify_persisted_browser _ _ = Ok ?w,
      Hs : read_bounded_regular_file _ MAX_SERVICE_STATE_BYTES _ _ _ = Ok _ |- _ =>
      destruct u, w; apply daemon_lives_iff in Hd; apply own_file_iff in Hs;
      apply verify_persisted_browser_iff in Hb as (bs & b & Hbs & Hb & Hk & Ht) end.
    split; [done|]. exists bytes, record. split_and!; [done| |done|].
    + destruct enforcement as [e|]; [|done]. cbn in Hg |- *. inv_bool. by rewrite Hg.
    + split; [done|]. eauto 15.
Qed.

Lemma answered_present :
  answered -> verify_present root path socket_dir enforcement rotation = Ok st.
Proof using All.
  unfold answered, verify_present.
  intros [(phase & -> & bytes & record & digest & r & Hfile & He & Hr & Hv & <- & Hne & Hd)
         |(is_enforced & -> & bytes & record & Hfile & He & Hr & Hd & sb & state & bs & b & Hsb & Hst
           & Hbs & Hb & Hkept & Hshown)].
  - apply (requirement_file_iff _ _ _ "retained_browser_requirement_invalid"
      "retained_browser_requirement_permissions_invalid" present) in Hfile as (Hb & Hs & Hreq).
    rewrite Hb. cbn [mbind result_bind]. rewrite Hs. cbn [ok_or mbind result_bind]. rewrite Hreq.
    cbn [mbind result_bind]. pose proof (rotation_file_unique _ _ _ rotation_read Hr) as ->.
    pose proof (enforcement_file_unique _ _ _ enforcement_read He) as (e & -> & ->)%fmap_Some.
    apply sound_rotation_iff in Hv. cbn [ok_or mbind result_bind]. rewrite Hv.
    cbn [mbind result_bind]. by rewrite (proj2 (digests_of_phase_iff _ _ _) (conj Hne Hd)).
  - apply (requirement_file_iff _ _ _ "retained_browser_requirement_invalid"
      "retained_browser_requirement_permissions_invalid" present) in Hfile as (Hf & Hs & Hreq).
    rewrite Hf. cbn [mbind result_bind]. rewrite Hs. cbn [ok_or mbind result_bind]. rewrite Hreq.
    cbn [mbind result_bind]. pose proof (rotation_file_unique _ _ _ rotation_read Hr) as ->.
    pose proof (enforcement_file_unique _ _ _ enforcement_read He) as Hu.
    assert (is_some enforcement = is_enforced) as <- by by destruct enforcement, is_enforced.
    replace (match enforcement with Some e => _ | None => false end) with false.
    2: { destruct enforcement as [e|]; [|done]. cbn in Hu. injection Hu as ->.
         by rewrite bool_decide_true. }
    apply daemon_lives_iff in Hd as ->. cbn [mbind result_bind].
    rewrite (read_own_file _ _ _ _ _ _ Hsb). cbn [mbind result_bind]. rewrite Hst.
    cbn [ok_or mbind result_bind].
    rewrite (proj2 (verify_persisted_browser_iff state (rq_expectation record))) by eauto 10. done.
Qed.
End present.

Lemma answered_files root path socket_dir st : answered root path socket_dir st ->
  symlink_metadata path = Present
  /\ (exists d, enforcement_file (retained_browser_enforcement_path path) d)
  /\ exists r, rotation_file (retained_browser_rotation_path path) r.
Proof.
  intros [(phase & _ & bytes & record & d & r & [Hp _] & He & Hr & _)
         |(b & _ & bytes & record & [Hp _] & He & Hr & _)]; eauto.
Qed.

(** C23. The verification of a retained browser answers in three ways and in no other:
    nothing is configured exactly when none of the three files exists; a rotation is
    pending, and never verified, exactly when its journal agrees with the digests of the
    requirement and of the enforcement; and the requirement is verified exactly when a
    private file of this user holds a sound expectation with the enforced digest, no
    journal exists, the daemon of the session runs, the persisted browser is ready, owns
    the session and keeps exactly one valid handle of the target for the profile, and
    the browser, asked over the loopback interface, shows exactly one such target at the
    expected URL. Everything else is an error: the check fails closed. *)
Theorem retained_status_iff root path socket_dir st :
  verify_retained_browser_requirement_at_paths root path socket_dir = Ok st
  <-> (st = status path false false "not_configured" false None /\ unconfigured path)
   \/ (exists phase, st = status path true false "rotation_pending" true (Some phase)
         /\ rotation_under_way path phase)
   \/ (exists is_enforced, st = status path true true "verified" is_enforced None
         /\ requirement_holds root path socket_dir is_enforced).
Proof.
  unfold verify_retained_browser_requirement_at_paths. split.
  - intros Hv. inv_ok. rename v into enforcement, v0 into rotation.
    assert (enforcement_file (retained_browser_enforcement_path path)
              (en_requirement_sha256 <$> enforcement)) as He by (apply enforcement_file_iff; eauto).
    apply rotation_file_iff in Hm0 as Hr.
    destruct (symlink_metadata path) eqn:Hs; [| |done].
    + right. by eapply present_answered.
    + left. destruct rotation, enforcement; try done. by injection Hv as <-.
  - intros [[-> (Hp & (e & He & Hn)%enforcement_file_iff & Hr%rotation_file_iff)]|Ha].
    + apply fmap_None in Hn as ->. rewrite He. cbn [mbind result_bind]. rewrite Hr, Hp. done.
    + destruct (answered_files _ _ _ _ Ha) as (Hp & (d & (e & He & Hd)%enforcement_file_iff)
        & (r & Hr%rotation_file_iff)).
      rewrite He. cbn [mbind result_bind]. rewrite Hr. cbn [mbind result_bind]. rewrite Hp.
      apply answered_present; [done|apply enforcement_file_iff; eauto|by apply rotation_file_iff|done].
Qed.
End status.
End RetainedProofs.
