(* ===== verification/ProcessProof.v ===== *)
(** * Proof of the process behind a retained browser

    [cli/src/native/runtime_attach_proof.rs], for Linux: an existing process is compared
    with the executable, the profile, the DevTools endpoint and the listening socket it
    is said to have. The process table and the file system change while they are
    observed; every look at them has a moment of its own. *)

From Stdlib Require Import Ascii.
From stdpp Require Import gmap pretty.
From S2P Require Import Prelude RustStr Env ServiceTabs.

Module ProcessProof.

Definition u16_max : Z := 65535.

(** ** The machine, moment by moment *)

(** [fs::read_to_string]: the text, no such file, or another failure. *)
Inductive Text := Contents (text : string) | Missing | Failed.

(** [fs::metadata]: what kind of answer there is. *)
Inductive Existence := Exists | NotFound | Unreadable.

Class Machine := {
  m_read_link : nat -> string -> option string;
  m_canonicalize : nat -> string -> option string;
  m_read_to_string : nat -> string -> Text;
  m_read : nat -> string -> option string;
  m_is_file : nat -> string -> bool;
  m_metadata : nat -> string -> Existence;
  (** [(dev, ino)] of [fs::metadata] *)
  m_identity : nat -> string -> option (Z * Z);
  (** the names [fs::read_dir] yields, those that fail left out *)
  m_read_dir : nat -> string -> option (list string);
  m_home_dir : option string;
}.

(** One look at the machine. *)
Definition look {A} (f : nat -> A) : SM nat A := fun t => (Ok (f t), S t).

Definition ok_text (t : Text) : option string :=
  match t with Contents s => Some s | Missing | Failed => None end.
(** [look(..).map_err(|_| code)?] *)
Definition demand {A} (code : string) (f : nat -> option A) : SM nat A :=
  o ← look f; sm_lift (ok_or code o).

Definition join (a b : string) : string := fmt [a; "/"; b]%string.

(** ** Records *)

Inductive BrowserHost :=
| LocalHeadless | LocalHeaded | DockerHeaded | RemoteHeaded | CloudProvider | AttachedExisting.
Inductive BrowserBuild := StockChrome | StealthcdpChromium | CdpFreeHeaded.
#[global] Instance BrowserBuild_eq_dec : EqDecision BrowserBuild.
Proof. solve_decision. Defined.

Record RuntimeLaunchRecord := {
  lr_target_url : option string;
  lr_browser_family : option string;
  lr_browser_build : option string;
  lr_display : option string;
  lr_remote_view_route_id : option string;
  lr_remote_view_url : option string;
  lr_started_at : option string;
  lr_last_observed_at : option string;
}.
#[global] Instance RuntimeLaunchRecord_eq_dec : EqDecision RuntimeLaunchRecord.
Proof. solve_decision. Defined.
Record RuntimeState := {
  rt_runtime_profile : string;
  rt_user_data_dir : string;
  rt_browser_pid : Z;
  rt_headed : bool;
  rt_launch_mode : string;
  rt_devtools_port : option Z;
  rt_ws_url : option string;
  rt_launch_record : option RuntimeLaunchRecord;
}.
#[global] Instance RuntimeState_eq_dec : EqDecision RuntimeState.
Proof. solve_decision. Defined.

Record VerifiedProcess := {
  vp_executable : string;
  vp_profile : string;
  vp_start_ticks : Z;
}.

(** ** Text the kernel and Chrome write *)

(** [&stat.rsplit_once(") ")], the last occurrence. *)
Definition rsplit_once_str (sep s : string) : option (string * string) :=
  '(a, b) ← split_once_str (str_rev sep) (str_rev s); Some (str_rev b, str_rev a).

Definition parse_start_ticks (stat : string) : res Z :=
  '(_, fields) ← ok_or "process_stat_invalid"%string (rsplit_once_str ") " stat);
  let fields := split_whitespace fields in
  if match fields with first :: _ => one_of first ["Z"; "X"]%string | [] => false end
  then Err "process_exited"%string else
  ok_or "process_stat_invalid"%string (fields !! 19%nat ≫= parse_unsigned u64_max).

(** [b.is_ascii_alphanumeric() || b == b'-'] for every byte of a non-empty identifier. *)
Definition browser_guid (id : string) : bool :=
  negb (is_empty id) && bytes_all (fun b => is_ascii_alphanumeric b || Ascii.eqb b "-") id.

(** The two lines of [DevToolsActivePort] name the port and the path of the endpoint. *)
Definition active_port_names (active_port endpoint : string) (port : Z) : bool :=
  let ls := lines active_port in
  ((ls !! 0%nat ≫= parse_unsigned u16_max) == Some port)
  && ((ls !! 1%nat) == strip_prefix (fmt ["ws://127.0.0.1:"; pretty port]%string) endpoint).

(** The values of [--user-data-dir], and the refusals met on the way. *)
Fixpoint profile_arguments (arguments : list string) : res (list string) :=
  match arguments with
  | [] => Ok []
  | arg :: rest =>
      if starts_with "--type=" arg || (arg == "--type"%string)
      then Err "not_browser_process"%string else
      match strip_prefix "--user-data-dir=" arg with
      | Some value => ds ← profile_arguments rest; Ok (value :: ds)
      | None =>
          if (arg == "--user-data-dir"%string : bool) then
            match rest with
            | [] => Err "profile_argument_missing"%string
            | value :: _ => ds ← profile_arguments rest; Ok (value :: ds)
            end
          else profile_arguments rest
      end
  end.

(** [{port:04X}] *)
Definition hex_upper_digit (n : Z) : string :=
  match String.get (Z.to_nat n) "0123456789ABCDEF" with Some c => String c "" | None => "" end.
Definition hex4 (n : Z) : string :=
  fmt (map (fun shift => hex_upper_digit (Z.land (Z.shiftr n shift) 15)) [12; 8; 4; 0]%Z).

(** The inodes of the sockets that listen on the loopback port. *)
Definition listener_of (address line : string) : option string :=
  let fields := split_whitespace line in
  if (fields !! 1%nat == Some address) && (fields !! 3%nat == Some "0A"%string)
  then fields !! 9%nat else None.
Definition listeners (tcp : string) (port : Z) : list string :=
  omap (listener_of (fmt ["0100007F:"; hex4 port]%string)) (lines tcp).

Definition count_args (arguments : list string) (expected : string) : nat :=
  length (List.filter (fun arg => arg == expected) arguments).

Section proof.
Context `{!Machine, !UrlLib, !Json, !JsonTree, !JsonBuild, !Crypto}.
Context `{!Serde RuntimeState, !SerdeValue BrowserBuild}.

(** ** The process *)

Definition process_start_ticks (process : string) : SM nat Z :=
  stat ← demand "process_stat_unreadable" (fun t => ok_text (m_read_to_string t (join process "stat")));
  sm_lift (parse_start_ticks stat).

(** The one positional argument a rewritten title may have: a plain launch URL. *)
Definition valid_launch_url (positional : list string) : bool :=
  match positional with
  | [arg] =>
      match url_parse arg with
      | Ok url => one_of (u_scheme url) ["http"; "https"]%string
                  && match u_host_str url with Some _ => true | None => false end
                  && is_empty (u_username url)
                  && match u_password url with None => true | Some _ => false end
      | Err _ => false
      end
  | _ => false
  end.

Definition has_whitespace (s : string) : bool := existsb is_whitespace (chars s).

(** Chrome may rewrite its arguments into one title; it is split only when that is
    unambiguous. *)
Definition title_arguments (title executable profile : string) : res (list string) :=
  executable_text ← ok_or "process_arguments_unreadable"%string (from_utf8 executable);
  profile_text ← ok_or "process_arguments_unreadable"%string (from_utf8 profile);
  if has_whitespace executable_text || has_whitespace profile_text
     || bytes_any (fun c => Ascii.eqb c "'" || Ascii.eqb c (ascii_of_nat 34) || Ascii.eqb c "\") title
     || existsb (fun c => is_whitespace c && negb (c =? 32)%N) (chars title)
     || negb (starts_with (fmt [executable_text; " "]%string) title)
  then Err "process_arguments_ambiguous"%string else
  let arguments := List.filter (fun arg => negb (is_empty arg)) (split_on " " title) in
  let positional := List.filter (fun arg => negb (starts_with "--" arg)) (drop 1 arguments) in
  if negb (match positional with [] => true | _ => false end)
     && negb (valid_launch_url positional)
  then Err "process_arguments_ambiguous"%string else Ok arguments.

(** [cmdline.split(|b| *b == 0)], the empty pieces left out, as UTF-8. *)
Definition split_cmdline (cmdline : string) : option (list string) :=
  let pieces := List.filter (fun arg => negb (is_empty arg))
                  (split_on (ascii_of_nat 0) cmdline) in
  if forallb (fun piece => match from_utf8 piece with Some _ => true | None => false end) pieces
  then Some pieces else None.

(** The process identifier [SingletonLock] ends in. *)
Definition singleton_pid (singleton : string) : option Z :=
  text ← from_utf8 singleton;
  '(_, value) ← rsplit_once "-" text; parse_unsigned u32_max value.

Definition read_arguments (pid : Z) (cmdline executable profile : string) : SM nat (list string) :=
  arguments ← sm_lift (ok_or "process_arguments_unreadable"%string (split_cmdline cmdline));
  match arguments with
  | [title] =>
      singleton ← demand "profile_lock_unreadable"
                    (fun t => m_read_link t (join profile "SingletonLock"));
      sm_reject_if (singleton_pid singleton != Some pid) "profile_lock_mismatch" ≫= fun _ =>
      sm_lift (title_arguments title executable profile)
  | _ => mret arguments
  end.

Definition check_active_port (profile endpoint : string) (port : Z) : SM nat unit :=
  active_port ← demand "active_port_unreadable"
                  (fun t => ok_text (m_read_to_string t (join profile "DevToolsActivePort")));
  sm_reject_if (negb (active_port_names active_port endpoint port)) "active_port_mismatch".

(** The debugging port of an external browser is fixed on its command line, or ephemeral
    and named by its profile. *)
Definition check_debug_port (arguments : list string) (profile endpoint : string) (port : Z)
    : SM nat unit :=
  let expected := fmt ["--remote-debugging-port="; pretty port]%string in
  let fixed := (count_args arguments expected =? 1)%nat in
  let ephemeral := (count_args arguments "--remote-debugging-port=0" =? 1)%nat in
  sm_reject_if (Bool.eqb fixed ephemeral) "process_debug_port_mismatch" ≫= fun _ =>
  if ephemeral then check_active_port profile endpoint port else mret tt.

(** [.any(|entry| read_link(entry) == socket)], until one is found. *)
Fixpoint any_link (dir : string) (names : list string) (socket : string) : SM nat bool :=
  match names with
  | [] => mret false
  | name :: rest =>
      link ← look (fun t => m_read_link t (join dir name));
      if (link == Some socket : bool) then mret true else any_link dir rest socket
  end.

Definition check_listener (process : string) (port : Z) : SM nat unit :=
  tcp ← demand "listener_unreadable" (fun t => ok_text (m_read_to_string t (join process "net/tcp")));
  match listeners tcp port with
  | [inode] =>
      let socket := fmt ["socket:["; inode; "]"]%string in
      names ← demand "process_descriptors_unreadable" (fun t => m_read_dir t (join process "fd"));
      owns_listener ← any_link (join process "fd") names socket;
      sm_reject_if (negb owns_listener) "listener_not_owned_by_process"
  | _ => sm_err "listener_mismatch"
  end.

(** The executable of the process is the installed file itself. *)
Definition check_executable (process installed : string) : SM nat (string * string) :=
  executable ← demand "installed_chrome_unreadable" (fun t => m_canonicalize t installed);
  actual ← demand "process_executable_unreadable" (fun t => m_read_link t (join process "exe"));
  (if (actual != executable : bool) then sm_err "process_executable_mismatch" else
   is_file ← look (fun t => m_is_file t executable);
   sm_reject_if (negb is_file) "process_executable_mismatch") ≫= fun _ =>
  actual_stat ← demand "process_executable_unreadable" (fun t => m_identity t (join process "exe"));
  installed_stat ← demand "installed_chrome_unreadable" (fun t => m_identity t executable);
  sm_reject_if (actual_stat != installed_stat) "process_executable_replaced" ≫= fun _ =>
  mret (executable, actual).

Definition verify_process (pid : Z) (endpoint profile installed proc_root : string) (port : Z)
    (require_active_port : bool) : SM nat VerifiedProcess :=
  profile ← demand "profile_unreadable" (fun t => m_canonicalize t profile);
  (if require_active_port then check_active_port profile endpoint port else mret tt) ≫= fun _ =>
  let process := join proc_root (pretty pid) in
  start_ticks ← process_start_ticks process;
  '(executable, actual) ← check_executable process installed;
  cmdline ← demand "process_arguments_unreadable" (fun t => m_read t (join process "cmdline"));
  arguments ← read_arguments pid cmdline executable profile;
  directories ← sm_lift (profile_arguments arguments);
  match directories with
  | [directory] =>
      canonical ← look (fun t => m_canonicalize t directory);
      sm_reject_if (canonical != Some profile) "process_profile_mismatch"
  | _ => sm_err "process_profile_mismatch"
  end ≫= fun _ =>
  (if require_active_port then mret tt
   else check_debug_port arguments profile endpoint port) ≫= fun _ =>
  check_listener process port ≫= fun _ =>
  start_again ← process_start_ticks process;
  sm_reject_if (start_again != start_ticks) "process_changed" ≫= fun _ =>
  exe_again ← look (fun t => m_read_link t (join process "exe"));
  sm_reject_if (exe_again != Some actual) "process_changed" ≫= fun _ =>
  cmdline_again ← look (fun t => m_read t (join process "cmdline"));
  sm_reject_if (cmdline_again != Some cmdline) "process_changed" ≫= fun _ =>
  mret {| vp_executable := executable; vp_profile := profile; vp_start_ticks := start_ticks |}.

(** ** The installed executable of a process *)

Definition chrome_relatives : list string :=
  ["chrome"; "chrome.exe";
   "Google Chrome for Testing.app/Contents/MacOS/Google Chrome for Testing"]%string.

(** [crate::install::get_browsers_dir()] *)
Definition get_browsers_dir : string :=
  join (join (match m_home_dir with Some home => home | None => "." end) ".agent-browser") "browsers".

(** The candidates one after the other: the first that is the executable, or whether any
    is installed. *)
Fixpoint find_installed (candidates : list string) (actual : string) (installed_found : bool)
    : SM nat (option string * bool) :=
  match candidates with
  | [] => mret (None, installed_found)
  | candidate :: rest =>
      executable ← look (fun t => m_canonicalize t candidate);
      match executable with
      | None => find_installed rest actual installed_found
      | Some executable =>
          is_file ← look (fun t => m_is_file t executable);
          if negb is_file then find_installed rest actual installed_found else
          if (executable == actual : bool) then mret (Some candidate, true)
          else find_installed rest actual true
      end
  end.

Definition installed_chrome_for_process (pid : Z) (proc_root : string) : SM nat string :=
  actual ← demand "process_executable_unreadable"
             (fun t => m_read_link t (join (join proc_root (pretty pid)) "exe"));
  entries ← demand "installed_chrome_missing" (fun t => m_read_dir t get_browsers_dir);
  let candidates := mjoin (map (fun entry => map (join (join get_browsers_dir entry)) chrome_relatives)
    (List.filter (fun name => match from_utf8 name with Some _ => starts_with "chrome-" name
                              | None => false end) entries)) in
  '(found, installed_found) ← find_installed candidates actual false;
  match found with
  | Some candidate => mret candidate
  | None => sm_err (if installed_found : bool then "process_executable_mismatch"
                    else "installed_chrome_missing")
  end.

(** ** The state of a managed runtime *)

Definition validate_runtime_profile_name (name : string) : bool :=
  negb (is_empty name)
  && bytes_all (fun c => is_ascii_alphanumeric c || Ascii.eqb c "-" || Ascii.eqb c "_") name.

Definition runtime_profile_state_path (name : string) : option string :=
  if negb (validate_runtime_profile_name name) then None else
  home ← m_home_dir;
  Some (join (join (join (join home ".agent-browser") "runtime-profiles") name)
          "runtime-state.json").

(** [read_runtime_state]: [None] stands for its errors. *)
Definition read_runtime_state (runtime_profile : string) : SM nat (option (option RuntimeState)) :=
  match runtime_profile_state_path runtime_profile with
  | None => mret None
  | Some path =>
      raw ← look (fun t => m_read_to_string t path);
      mret match raw with
           | Missing => Some None
           | Failed => None
           | Contents raw => Some <$> from_slice raw
           end
  end.

Definition verify (runtime : RuntimeState) (runtime_profile : string) (pid : Z)
    (endpoint profile installed proc_root : string) : SM nat VerifiedProcess :=
  sm_reject_if ((pid =? 0)%Z || negb (rt_browser_pid runtime =? pid)%Z
                || (rt_runtime_profile runtime != runtime_profile))
    "runtime_identity_mismatch" ≫= fun _ =>
  port ← sm_lift (ok_or "runtime_port_missing"%string (rt_devtools_port runtime));
  let prefix := fmt ["ws://127.0.0.1:"; pretty port; "/devtools/browser/"]%string in
  sm_reject_if ((rt_ws_url runtime != Some endpoint)
                || negb match strip_prefix prefix endpoint with
                        | Some id => browser_guid id
                        | None => false
                        end) "endpoint_mismatch" ≫= fun _ =>
  recorded ← look (fun t => m_canonicalize t (rt_user_data_dir runtime));
  given ← look (fun t => m_canonicalize t profile);
  sm_reject_if (recorded != given) "profile_path_mismatch" ≫= fun _ =>
  verify_process pid endpoint profile installed proc_root port true.

Definition PROC : string := "/proc".

Definition verify_retained_service_process (runtime : RuntimeState) (runtime_profile : string)
    (pid : Z) (endpoint profile : string) : SM nat Z :=
  installed ← installed_chrome_for_process pid PROC;
  process ← verify runtime runtime_profile pid endpoint profile installed PROC;
  mret (vp_start_ticks process).

(** The port of [ws://127.0.0.1:PORT/devtools/browser/ID]. *)
Definition endpoint_port (endpoint : string) : option Z :=
  rest ← strip_prefix "ws://127.0.0.1:" endpoint;
  '(port, id) ← split_once_str "/devtools/browser/" rest;
  if browser_guid id then parse_unsigned u16_max port else None.

Definition verify_external_byop_process (pid : Z) (endpoint profile executable : string)
    : SM nat Z :=
  port ← sm_lift (ok_or "endpoint_mismatch"%string (endpoint_port endpoint));
  verified ← verify_process pid endpoint profile executable PROC port false;
  mret (vp_start_ticks verified).

(** ** Persisted proofs *)

(** The fields of the service records that proofs and handoffs read and write. *)
Record BrowserProcess := {
  bp_profile_id : option string;
  bp_browser_build : option BrowserBuild;
  bp_executable_path : option string;
  bp_browser_build_proof : option value;
  bp_host : BrowserHost;
  bp_pid : option Z;
  bp_cdp_endpoint : option string;
  bp_active_session_ids : list string;
}.
Record BrowserProfile := {
  bf_id : string;
  bf_user_data_dir : option string;
  bf_browser_build : option BrowserBuild;
}.
Record BrowserSession := {
  bs_id : string;
  bs_lease : ServiceTabs.LeaseState;
  bs_profile_id : option string;
  bs_browser_ids : list string;
  bs_tab_ids : list string;
  bs_browser_capability_launch : option value;
}.
Record BrowserTab := {
  bt_browser_id : string;
  bt_owner_session_id : option string;
  bt_target_id : option string;
  bt_lifecycle : ServiceTabs.TabLifecycle;
}.
Record ServiceState := {
  profiles : gmap string BrowserProfile;
  browsers : gmap string BrowserProcess;
  sessions : gmap string BrowserSession;
  tabs : gmap string BrowserTab;
  runtime_custody_receipts : gmap string value;
}.

(** [serde_json::from_value(v).ok()] *)
Definition parse_build (v : value) : option BrowserBuild :=
  match from_value v with Ok b => Some b | Err _ => None end.
Definition jbool_is (v : value) (key : string) : bool := (jget v key ≫= as_bool) == Some true.
Definition ju64 (v : value) (key : string) : option Z := jget v key ≫= as_u64.

Definition accepted_reasons : list string :=
  ["verified_external_byop_process"; "verified_registered_runtime_attach_process";
   "verified_installed_chrome_runtime_attach"]%string.

Definition host_of_a_process (host : BrowserHost) : bool :=
  match host with LocalHeaded | RemoteHeaded | AttachedExisting => true | _ => false end.

(** The proof, the records and the expected process say the same. *)
Definition proof_matches (browser : BrowserProcess) (profile : BrowserProfile) (proof : value)
    (browser_build : BrowserBuild) (profile_path executable : string)
    (expected_pid : Z) (expected_endpoint : string) : bool :=
  jbool_is proof "applied"
  && match jstr proof "reason" with Some r => one_of r accepted_reasons | None => false end
  && ((jget proof "browserBuild" ≫= parse_build) == Some browser_build)
  && match bf_browser_build profile with
     | Some profile_build => profile_build == browser_build
     | None => true
     end
  && host_of_a_process (bp_host browser)
  && (bp_pid browser == Some expected_pid)
  && (bp_cdp_endpoint browser == Some expected_endpoint)
  && (bp_profile_id browser == Some (bf_id profile))
  && (jstr proof "profileId" == Some (bf_id profile))
  && (ju64 proof "browserPid" == Some expected_pid)
  && (jstr proof "cdpEndpoint" == Some expected_endpoint)
  && (jstr proof "userDataDir" == Some profile_path)
  && (jstr proof "executablePath" == Some executable).

Definition verify_persisted_retained_process (browser : BrowserProcess) (profile : BrowserProfile)
    (expected_pid : Z) (expected_endpoint : string) : SM nat Z :=
  proof ← sm_lift (ok_or "build_proof_missing"%string (bp_browser_build_proof browser));
  profile_path ← sm_lift (ok_or "profile_path_missing"%string (bf_user_data_dir profile));
  executable ← sm_lift (ok_or "executable_path_missing"%string (bp_executable_path browser));
  expected_start_ticks ← sm_lift (ok_or "process_start_missing"%string
                                    (ju64 proof "processStartTicks"));
  browser_build ← sm_lift (ok_or "browser_build_missing"%string (bp_browser_build browser));
  let expected_sha256 := sha ← jstr proof "executableSha256";
                         if (zlen sha =? 64)%Z then Some sha else None in
  sm_reject_if ((browser_build != StockChrome) && (expected_sha256 == None))
    "executable_digest_missing" ≫= fun _ =>
  sm_reject_if (negb (proof_matches browser profile proof browser_build profile_path executable
                        expected_pid expected_endpoint))
    "persisted_proof_mismatch" ≫= fun _ =>
  match expected_sha256 with
  | None => mret tt
  | Some expected =>
      contents ← demand "executable_unreadable" (fun t => m_read t executable);
      sm_reject_if (hex_encode (sha256 contents) != expected) "executable_digest_mismatch"
  end ≫= fun _ =>
  observed_start_ticks ← verify_external_byop_process expected_pid expected_endpoint profile_path
                           executable;
  sm_reject_if (observed_start_ticks != expected_start_ticks) "process_start_mismatch" ≫= fun _ =>
  mret observed_start_ticks.

(** ** The proof of a managed runtime *)

Record ServiceLaunchMetadata := {
  lm_profile_id : option string;
  lm_user_data_dir : option string;
  lm_browser_capability_launch : option value;
}.
Definition with_launch (proof : value) (metadata : ServiceLaunchMetadata) : ServiceLaunchMetadata :=
  {| lm_profile_id := lm_profile_id metadata; lm_user_data_dir := lm_user_data_dir metadata;
     lm_browser_capability_launch := Some proof |}.

(** [proof["reason"].as_str()] is one of the texts. *)
Definition reason_is (proof : value) (reasons : list string) : bool :=
  match jstr proof "reason" with Some r => one_of r reasons | None => false end.

Definition eligible (proof : value) : bool :=
  (jstr proof "browserBuild" == Some "stock_chrome"%string)
  && (jbool_is proof "applied"
      || reason_is proof ["no_matching_preference_binding"; "explicit_executable_path";
                          "managed_runtime_attach_unverified"]%string).

(** [proof[k1] = v1; proof[k2] = v2; ...]; [None] when indexing panics. *)
Definition set_fields (fields : list (string * value)) (proof : value) : option value :=
  foldl (fun o '(k, v) => o ≫= jindex_set k v) (Some proof) fields.

(** The closure whose answer becomes the proof. *)
Definition attach_result (metadata : ServiceLaunchMetadata) (selected_path : option string)
    (runtime_profile : string) (pid : option Z) (endpoint : option string) (proc_root : string)
    : SM nat VerifiedProcess :=
  sm_reject_if (lm_profile_id metadata != Some runtime_profile) "profile_mismatch" ≫= fun _ =>
  runtime ← read_runtime_state runtime_profile;
  runtime ← sm_lift (ok_or "runtime_state_unreadable"%string runtime);
  runtime ← sm_lift (ok_or "runtime_state_missing"%string runtime);
  process_pid ← sm_lift (ok_or "pid_missing"%string pid);
  installed ← installed_chrome_for_process process_pid proc_root;
  endpoint ← sm_lift (ok_or "endpoint_missing"%string endpoint);
  user_data_dir ← sm_lift (ok_or "profile_path_missing"%string (lm_user_data_dir metadata));
  verified ← verify runtime runtime_profile process_pid endpoint user_data_dir installed proc_root;
  match selected_path with
  | None => mret tt
  | Some selected =>
      canonical ← look (fun t => m_canonicalize t selected);
      sm_reject_if (canonical != Some (vp_executable verified)) "selected_executable_mismatch"
  end ≫= fun _ =>
  again ← read_runtime_state runtime_profile;
  sm_reject_if (mjoin again != Some runtime) "runtime_state_changed" ≫= fun _ =>
  mret verified.

Definition verified_proof (runtime_profile : string) (pid : option Z) (endpoint : option string)
    (verified : VerifiedProcess) : value :=
  jobject [("applied", jbool true);
           ("reason", jstring "verified_installed_chrome_runtime_attach");
           ("browserBuild", jstring "stock_chrome");
           ("profileId", jstring runtime_profile);
           ("executablePath", jstring (vp_executable verified));
           ("browserPid", match pid with Some p => jnumber p | None => jnull end);
           ("processStartTicks", jnumber (vp_start_ticks verified));
           ("cdpEndpoint", match endpoint with Some e => jstring e | None => jnull end);
           ("userDataDir", jstring (vp_profile verified))]%string.

(** [apply_with_proc_root]: the metadata afterwards; an error is a panic. *)
Definition apply_with_proc_root (metadata : ServiceLaunchMetadata) (runtime_profile : string)
    (pid : option Z) (endpoint : option string) (proc_root : string)
    : SM nat ServiceLaunchMetadata :=
  match lm_browser_capability_launch metadata with
  | None => mret metadata
  | Some proof =>
      if reason_is proof ["verified_external_byop_process";
                          "verified_registered_runtime_attach_process"]%string
      then mret metadata else
      let selected_path := jstr proof "executablePath" in
      if negb (eligible proof) then mret metadata else
      proof ← sm_lift (ok_or "panic"%string
        (if jbool_is proof "applied"
         then set_fields [("applied", jbool false);
                          ("reason", jstring "managed_runtime_attach_unverified")]%string proof
         else Some proof));
      result ← sm_try (attach_result metadata selected_path runtime_profile pid endpoint proc_root);
      match result with
      | Ok verified => mret (with_launch (verified_proof runtime_profile pid endpoint verified) metadata)
      | Err reason =>
          proof ← sm_lift (ok_or "panic"%string
            (set_fields [("applied", jbool false);
                         ("reason", jstring "managed_runtime_attach_unverified");
                         ("verificationReason", jstring reason)]%string proof));
          mret (with_launch proof metadata)
      end
  end.

Definition apply_managed_runtime_attach_proof (metadata : ServiceLaunchMetadata)
    (runtime_profile : string) (pid : option Z) (endpoint : option string)
    : SM nat ServiceLaunchMetadata :=
  apply_with_proc_root metadata runtime_profile pid endpoint PROC.

(** ** The evidence of a retained browser, observed again *)

Definition set_evidence (proof : value) (browser : BrowserProcess) : BrowserProcess :=
  let proven := jbool_is proof "applied" in
  {| bp_profile_id := bp_profile_id browser;
     bp_browser_build := if proven then jget proof "browserBuild" ≫= parse_build else None;
     bp_executable_path := if proven then jstr proof "executablePath" else None;
     bp_browser_build_proof := Some proof;
     bp_host := bp_host browser; bp_pid := bp_pid browser;
     bp_cdp_endpoint := bp_cdp_endpoint browser;
     bp_active_session_ids := bp_active_session_ids browser |}.
Definition set_capability_launch (proof : value) (session : BrowserSession) : BrowserSession :=
  {| bs_id := bs_id session; bs_lease := bs_lease session; bs_profile_id := bs_profile_id session;
     bs_browser_ids := bs_browser_ids session; bs_tab_ids := bs_tab_ids session;
     bs_browser_capability_launch := Some proof |}.

(** The session is bound to the profile and to one browser with the process observed. *)
Definition refreshable (state : ServiceState) (session_id runtime_profile : string)
    (pid : option Z) (endpoint : option string)
    : option (BrowserSession * string * BrowserProcess) :=
  session ← sessions state !! session_id;
  if bs_profile_id session != Some runtime_profile then None else
  match bs_browser_ids session with
  | [browser_id] =>
      browser ← browsers state !! browser_id;
      if (pid == None) || (endpoint == None) || (bp_pid browser != pid)
         || (bp_cdp_endpoint browser != endpoint)
         || (bp_profile_id browser != Some runtime_profile)
         || negb (one_of session_id (bp_active_session_ids browser))
      then None else Some (session, browser_id, browser)
  | _ => None
  end.

Definition refresh_retained_with_proc_root (state : ServiceState)
    (session_id runtime_profile : string) (pid : option Z) (endpoint : option string)
    (proc_root : string) : SM nat ServiceState :=
  match refreshable state session_id runtime_profile pid endpoint with
  | None => mret state
  | Some (session, browser_id, browser) =>
      let metadata := {|
        lm_profile_id := bs_profile_id session;
        lm_user_data_dir := profiles state !! runtime_profile ≫= bf_user_data_dir;
        lm_browser_capability_launch := bs_browser_capability_launch session |} in
      metadata ← apply_with_proc_root metadata runtime_profile pid endpoint proc_root;
      match lm_browser_capability_launch metadata with
      | None => mret state
      | Some proof =>
          if (jstr proof "browserBuild" != Some "stock_chrome"%string)
             || negb (reason_is proof ["verified_installed_chrome_runtime_attach";
                                       "managed_runtime_attach_unverified"]%string)
          then mret state else
          mret {| profiles := profiles state;
                  browsers := <[browser_id := set_evidence proof browser]> (browsers state);
                  sessions := <[session_id := set_capability_launch proof session]> (sessions state);
                  tabs := tabs state;
                  runtime_custody_receipts := runtime_custody_receipts state |}
      end
  end.

Definition refresh_retained_attach_proof (state : ServiceState)
    (session_id runtime_profile : string) (pid : option Z) (endpoint : option string)
    : SM nat ServiceState :=
  refresh_retained_with_proc_root state session_id runtime_profile pid endpoint PROC.
End proof.
End ProcessProof.
