(* ===== verification/ProfileSelection.v ===== *)
(** * Profiles: ids, selection and discovery

    Model of the first half of [cli/src/native/service_lifecycle.rs] (the id of a
    profile, ranking the profiles of the service state for a request, discovery in
    the catalog) with the site policies of [service_model.rs] it consults and the
    part of [actions.rs] that turns a command into the launch metadata the profile
    lease gate reads.

    The records hold the fields these operations and [ProfileLeases] use; tab handles
    and incidents, which [service_model.rs] derives from the state, are not among
    them. *)

From Stdlib Require Import Ascii.
From stdpp Require Import gmap sorting pretty.
From S2P Require Import Prelude RustStr Env SecretFs ServiceJobs ServiceTabs RemoteRoute ProcessProof.
Import ServiceJobs.

Module ProfileSelection.

(** ** Data *)

Notation or_else := ServiceTabs.or_else.
Notation BrowserHost := RemoteRoute.BrowserHost.
Notation BrowserBuild := ProcessProof.BrowserBuild.
Notation StockChrome := ProcessProof.StockChrome.
Notation StealthcdpChromium := ProcessProof.StealthcdpChromium.
Notation CdpFreeHeaded := ProcessProof.CdpFreeHeaded.
Inductive ProfileClass := ClassDefault | ManagedOneTime | DurableNamed | OperatorSupplied.
Inductive ProfileAllocationPolicy :=
| SharedService | PerService | PerSite | PerIdentity | CallerSupplied.
Inductive ProfileKeyringPolicy :=
| BasicPasswordStore | RealOsKeychain | ManagedVault | ManualLoginProfile.
Inductive ProfileSelectionReason :=
| ExplicitProfile | AuthenticatedTarget | AccountMatch | TargetMatch | ServiceAllowList
| BrowserBuildDefault.
Inductive ProfileLeaseDisposition := NewBrowser | ReusedBrowser | ActiveLeaseConflict.
Inductive ProfileReadinessState :=
| ReadinessUnknown | NeedsManualSeeding | SeededUnknownFreshness | Fresh | Stale
| BlockedByAttachedDevtools.
Inductive ProfileSeedingMode := SeedingNotRequired | DetachedHeadedNoCdp | AttachableOk.
Inductive ServiceEntitySource := PersistedState | Config | Builtin | RuntimeObserved.

#[export] Instance ProfileAllocationPolicy_eq_dec : EqDecision ProfileAllocationPolicy.
Proof. solve_decision. Defined.
#[export] Instance ProfileKeyringPolicy_eq_dec : EqDecision ProfileKeyringPolicy.
Proof. solve_decision. Defined.
#[export] Instance ProfileSelectionReason_eq_dec : EqDecision ProfileSelectionReason.
Proof. solve_decision. Defined.
#[export] Instance ProfileLeaseDisposition_eq_dec : EqDecision ProfileLeaseDisposition.
Proof. solve_decision. Defined.
#[export] Instance ProfileReadinessState_eq_dec : EqDecision ProfileReadinessState.
Proof. solve_decision. Defined.
#[export] Instance ProfileSeedingMode_eq_dec : EqDecision ProfileSeedingMode.
Proof. solve_decision. Defined.
#[export] Instance LeaseState_eq_dec : EqDecision ServiceTabs.LeaseState.
Proof. solve_decision. Defined.

Record ProfileTargetReadiness := {
  tr_target_service_id : string;
  tr_login_id : option string;
  tr_state : ProfileReadinessState;
  tr_manual_seeding_required : bool;
  tr_evidence : string;
  tr_recommended_action : string;
  tr_seeding_mode : ProfileSeedingMode;
  tr_cdp_attachment_allowed_during_seeding : bool;
  tr_preferred_keyring : option ProfileKeyringPolicy;
  tr_setup_scopes : list string;
  tr_last_verified_at : option string;
  tr_freshness_expires_at : option string;
}.

Record BrowserProfile := {
  pf_id : string;
  pf_name : string;
  pf_description : option string;
  pf_aliases : list string;
  pf_origins : list string;
  pf_login_ids : list string;
  pf_account_labels : list string;
  pf_profile_origin : ServiceTabs.ProfileOrigin;
  pf_profile_class : ProfileClass;
  pf_user_data_dir : option string;
  pf_site_policy_ids : list string;
  pf_target_service_ids : list string;
  pf_authenticated_service_ids : list string;
  pf_account_ids : list string;
  pf_browser_build : option BrowserBuild;
  pf_allocation : ProfileAllocationPolicy;
  pf_keyring : ProfileKeyringPolicy;
  pf_shared_service_ids : list string;
  pf_manual_login_preferred : bool;
  pf_target_readiness : list ProfileTargetReadiness;
  pf_persistent : bool;
  pf_tags : list string;
}.

Record BrowserProcess := {
  br_id : string;
  br_profile_id : option string;
  br_host : BrowserHost;
  br_health : ServiceTabs.BrowserHealth;
  br_pid : option Z;
  br_cdp_endpoint : option string;
  br_active_session_ids : list string;
}.

Record BrowserTab := {
  tb_id : string;
  tb_session_id : option string;
  tb_owner_session_id : option string;
}.

Record SitePolicy := {
  sp_id : string;
  sp_origin_pattern : string;
  sp_browser_build : option BrowserBuild;
  sp_manual_login_preferred : bool;
}.

Record ProfileSelectionRequest := {
  rq_service_name : option string;
  rq_target_service_ids : list string;
  rq_account_ids : list string;
  rq_target_url : option string;
  rq_browser_build : option BrowserBuild;
}.
Record ProfileSelection := {
  sel_profile_id : string;
  sel_reason : ProfileSelectionReason;
}.
Record ProfileSelectionCandidate := {
  cand_profile_id : string;
  cand_reason : ProfileSelectionReason;
}.
Record ProfileDiscoveryRequest := {
  dr_selection : ProfileSelectionRequest;
  dr_profile_ids : list string;
  dr_profile_names : list string;
  dr_hostnames : list string;
  dr_authentication_states : list string;
  dr_freshness_states : list string;
  dr_tags : list string;
  dr_free_text : option string;
}.
Record ProfileDiscoveryCandidate := {
  dc_profile_id : string;
  dc_reason : string;
  dc_matched_field : string;
  dc_matched_identity : string;
}.

Section profiles.
Context `{!Json, !UrlLib}.

Record BrowserSession := {
  se_id : string;
  se_service_name : option string;
  se_agent_name : option string;
  se_task_name : option string;
  se_owner : ServiceActor;
  se_lease : ServiceTabs.LeaseState;
  se_profile_id : option string;
  se_profile_selection_reason : option ProfileSelectionReason;
  se_profile_lease_disposition : option ProfileLeaseDisposition;
  se_profile_lease_conflict_session_ids : list string;
  se_browser_capability_launch : option value;
  se_cleanup : ServiceTabs.SessionCleanupPolicy;
  se_browser_ids : list string;
  se_tab_ids : list string;
  se_created_at : option string;
  se_last_lease_observed_at : option string;
  se_expires_at : option string;
}.

Record ServiceState := {
  profiles : gmap string BrowserProfile;
  browsers : gmap string BrowserProcess;
  sessions : gmap string BrowserSession;
  tabs : gmap string BrowserTab;
  jobs : gmap string ServiceJob;
  site_policies : gmap string SitePolicy;
  default_browser_build : option BrowserBuild;
  (** [entity_sources.profiles], [entity_sources.site_policies] *)
  profile_sources : gmap string ServiceEntitySource;
  policy_sources : gmap string ServiceEntitySource;
}.

(** ** The id of a profile *)

Definition stable_short_hash (value : string) : Z :=
  foldl (fun hash byte =>
    (Z.lxor hash (Z.of_N (N_of_ascii byte)) * 0x100000001b3) mod 2 ^ 64)%Z
    0xcbf29ce484222325%Z (bytes_of value).

Definition service_profile_id (profile runtime_profile : option string) : option string :=
  let non_blank o := v ← o; if is_empty (trim v) then None else Some v in
  match non_blank runtime_profile with
  | Some runtime_profile => Some runtime_profile
  | None => (fun profile => fmt ["custom:"; pretty (stable_short_hash profile)]%string)
            <$> non_blank profile
  end.

(** ** Site policies *)

Definition builtin_site_policies : list SitePolicy := [
  {| sp_id := "canva"; sp_origin_pattern := "https://www.canva.com";
     sp_browser_build := Some CdpFreeHeaded; sp_manual_login_preferred := true |};
  {| sp_id := "ups"; sp_origin_pattern := "https://www.ups.com";
     sp_browser_build := Some StealthcdpChromium; sp_manual_login_preferred := false |};
  {| sp_id := "google"; sp_origin_pattern := "https://accounts.google.com";
     sp_browser_build := Some StockChrome; sp_manual_login_preferred := true |};
  {| sp_id := "gmail"; sp_origin_pattern := "https://mail.google.com";
     sp_browser_build := Some StockChrome; sp_manual_login_preferred := true |};
  {| sp_id := "google_sheets"; sp_origin_pattern := "https://docs.google.com/spreadsheets";
     sp_browser_build := Some StealthcdpChromium; sp_manual_login_preferred := false |};
  {| sp_id := "microsoft"; sp_origin_pattern := "https://login.microsoftonline.com";
     sp_browser_build := Some StockChrome; sp_manual_login_preferred := true |} ]%string.

Definition url_matches_policy_pattern (raw_url : string) (policy : SitePolicy) : bool :=
  match url_parse raw_url, url_parse (sp_origin_pattern policy) with
  | Ok url, Ok pattern =>
      if (u_scheme url != u_scheme pattern) || (u_host_str url != u_host_str pattern) then false
      else if u_port_or_known_default url != u_port_or_known_default pattern then false
      else if u_path pattern == "/"%string then true
      else
        let pattern_path := trim_end_matches "/"%char (u_path pattern) in
        (u_path url == pattern_path)
        || match strip_prefix pattern_path (u_path url) with
           | Some suffix => starts_with "/" suffix
           | None => false
           end
  | _, _ => false
  end.

Definition service_site_policy_id_for_url (service_state : ServiceState) (raw_url : string)
    : option string :=
  sp_id <$> List.find
    (fun policy => negb (is_empty (sp_id policy)) && url_matches_policy_pattern raw_url policy)
    (map snd (btree_entries (site_policies service_state)) ++ builtin_site_policies).

(** ** The request a selection works on *)

(** The first of the options that is there. *)
Fixpoint first_some {A B} (f : A -> option B) (l : list A) : option B :=
  match l with
  | [] => None
  | a :: l => match f a with Some b => Some b | None => first_some f l end
  end.

Definition policy_build (service_state : ServiceState) (id : string) : option BrowserBuild :=
  site_policies service_state !! id ≫= sp_browser_build.

Definition browser_build_for_profile_request (service_state : ServiceState)
    (request : ProfileSelectionRequest) : option BrowserBuild :=
  let by_url :=
    target_url ← rq_target_url request;
    site_policy_id ← service_site_policy_id_for_url service_state target_url;
    policy_build service_state site_policy_id in
  match by_url with
  | Some browser_build => Some browser_build
  | None =>
      match first_some (policy_build service_state) (rq_target_service_ids request) with
      | Some browser_build => Some browser_build
      | None => default_browser_build service_state
      end
  end.

Definition effective_profile_selection_request (service_state : ServiceState)
    (request : ProfileSelectionRequest) : ProfileSelectionRequest :=
  match rq_browser_build request with
  | Some _ => request
  | None =>
      {| rq_service_name := rq_service_name request;
         rq_target_service_ids := rq_target_service_ids request;
         rq_account_ids := rq_account_ids request; rq_target_url := rq_target_url request;
         rq_browser_build := browser_build_for_profile_request service_state request |}
  end.

Definition merge_unique (values : list string) (value : string) : list string :=
  if one_of value values then values else values ++ [value].

(** [Vec::dedup]: drops an element equal to the one before it. *)
Fixpoint dedup (l : list string) : list string :=
  match l with
  | a :: (b :: _) as tail => if a == b then dedup tail else a :: dedup tail
  | _ => l
  end.

(** [values.sort(); values.dedup()] *)
Definition sort_dedup (l : list string) : list string := dedup (merge_sort str_le l).

Definition normalized_profile_request_targets (service_state : ServiceState)
    (request : ProfileSelectionRequest) : list string :=
  let merged :=
    match (target_url ← rq_target_url request;
           service_site_policy_id_for_url service_state target_url) with
    | Some site_policy_id => merge_unique (rq_target_service_ids request) site_policy_id
    | None => rq_target_service_ids request
    end in
  sort_dedup merged.

(** ** Ranking *)

Definition profile_allows_service (profile : BrowserProfile) (service_name : option string)
    : bool :=
  match service_name with
  | None => true
  | Some service_name =>
      match pf_shared_service_ids profile with
      | [] => true
      | allowed => one_of service_name allowed
      end
  end.

Record ProfileSelectionRank := {
  authenticated_target_matches : nat;
  account_matches : nat;
  target_matches : nat;
  caller_service_match : bool;
  browser_build_match : bool;
  browser_build_default : bool;
  persistent : bool;
}.

(** [Ordering::then_with], and the derived [Ord]: field by field. *)
Definition then_with (a b : comparison) : comparison := match a with Eq => b | _ => a end.
Definition rank_cmp (a b : ProfileSelectionRank) : comparison :=
  then_with (authenticated_target_matches a ?= authenticated_target_matches b)%nat
  (then_with (account_matches a ?= account_matches b)%nat
  (then_with (target_matches a ?= target_matches b)%nat
  (then_with (Bool.compare (caller_service_match a) (caller_service_match b))
  (then_with (Bool.compare (browser_build_match a) (browser_build_match b))
  (then_with (Bool.compare (browser_build_default a) (browser_build_default b))
             (Bool.compare (persistent a) (persistent b))))))).

Definition reason (rank : ProfileSelectionRank) : option ProfileSelectionReason :=
  if (0 <? authenticated_target_matches rank)%nat then Some AuthenticatedTarget
  else if (0 <? account_matches rank)%nat then Some AccountMatch
  else if (0 <? target_matches rank)%nat then Some TargetMatch
  else if caller_service_match rank then Some ServiceAllowList
  else if browser_build_default rank then Some BrowserBuildDefault
  else None.

(** [wanted.iter().filter(|w| held.iter().any(|h| h == *w)).count()] *)
Definition count_matches (held wanted : list string) : nat :=
  length (List.filter (fun w => one_of w held) wanted).

Definition no_ids (l : list string) : bool := match l with [] => true | _ => false end.

Definition profile_selection_rank (profile : BrowserProfile) (request : ProfileSelectionRequest)
    (target_service_ids : list string) : ProfileSelectionRank :=
  let build_match :=
    match rq_browser_build request with
    | Some browser_build => pf_browser_build profile == Some browser_build
    | None => false
    end in
  {| authenticated_target_matches :=
       count_matches (pf_authenticated_service_ids profile) target_service_ids;
     account_matches := count_matches (pf_account_ids profile) (rq_account_ids request);
     target_matches := count_matches (pf_target_service_ids profile) target_service_ids;
     caller_service_match :=
       match rq_service_name request with
       | Some service_name => one_of service_name (pf_shared_service_ids profile)
       | None => false
       end;
     browser_build_match := build_match;
     browser_build_default :=
       build_match && no_ids (pf_target_service_ids profile)
       && no_ids (pf_authenticated_service_ids profile) && no_ids (pf_account_ids profile)
       && no_ids (pf_site_policy_ids profile);
     persistent := pf_persistent profile |}.

(** A candidate of the sort: its rank, its id, and what is reported of it. *)
Definition ranked_cmp {R T} (cmp : R -> R -> comparison) (left right : R * string * T)
    : comparison :=
  then_with (cmp right.1.1 left.1.1) (String.compare left.1.2 right.1.2).
Definition ranked_le {R T} (cmp : R -> R -> comparison) (left right : R * string * T) : Prop :=
  ranked_cmp cmp left right <> Gt.
#[export] Instance ranked_le_dec {R T} cmp (left right : R * string * T) :
  Decision (ranked_le cmp left right).
Proof. unfold ranked_le. destruct (ranked_cmp cmp left right); solve [left; done | right; tauto]. Defined.

Definition selection_candidates (service_state : ServiceState) (request : ProfileSelectionRequest)
    (include_browser_build_default : bool)
    : list (ProfileSelectionRank * string * ProfileSelectionReason) :=
  let effective_request := effective_profile_selection_request service_state request in
  let targets := normalized_profile_request_targets service_state effective_request in
  omap (fun '(id, profile) =>
      let rank := profile_selection_rank profile effective_request targets in
      why ← reason rank;
      if include_browser_build_default || (why != BrowserBuildDefault)
      then Some (rank, id, why) else None)
    (List.filter (fun p => profile_allows_service p.2 (rq_service_name effective_request))
       (btree_entries (profiles service_state))).

Definition rank_service_profiles_for_request (service_state : ServiceState)
    (request : ProfileSelectionRequest) (include_browser_build_default : bool)
    : list ProfileSelectionCandidate :=
  map (fun '(_, profile_id, why) => {| cand_profile_id := profile_id; cand_reason := why |})
    (merge_sort (ranked_le rank_cmp)
       (selection_candidates service_state request include_browser_build_default)).

Definition select_service_profile_for_request (service_state : ServiceState)
    (request : ProfileSelectionRequest) : option ProfileSelection :=
  (fun candidate => {| sel_profile_id := cand_profile_id candidate;
                       sel_reason := cand_reason candidate |})
    <$> head (rank_service_profiles_for_request service_state request true).

(** ** Discovery in the catalog *)

Definition first_case_insensitive_match (requested available : list string) : option string :=
  first_some (fun requested =>
    let requested := trim requested in
    if existsb (fun available => eq_ignore_ascii_case requested (trim available)) available
    then Some requested else None) requested.

Definition first_origin_match (hostnames origins : list string) : option string :=
  first_some (fun hostname =>
    let hostname := str_map to_ascii_lowercase (trim hostname) in
    if existsb (fun origin =>
         match url_parse origin with
         | Ok url => (str_map to_ascii_lowercase <$> u_host_str url) == Some hostname
         | Err _ => false
         end) origins
    then Some hostname else None) hostnames.

Definition profile_authentication_state_match (profile : BrowserProfile) (requested : list string)
    : option string :=
  first_some (fun state =>
    let s := str_map to_ascii_lowercase (trim state) in
    let matches :=
      if s == "authenticated"%string then negb (no_ids (pf_authenticated_service_ids profile))
      else if s == "configured"%string then negb (no_ids (pf_target_service_ids profile))
      else if s == "unknown"%string
      then no_ids (pf_authenticated_service_ids profile)
           && match pf_target_readiness profile with [] => true | _ => false end
      else false in
    if matches then Some state else None) requested.

(** The wire name of a readiness state, [serde(rename_all = "snake_case")]. *)
Definition readiness_state_name (s : ProfileReadinessState) : string :=
  match s with
  | ReadinessUnknown => "unknown"
  | NeedsManualSeeding => "needs_manual_seeding"
  | SeededUnknownFreshness => "seeded_unknown_freshness"
  | Fresh => "fresh"
  | Stale => "stale"
  | BlockedByAttachedDevtools => "blocked_by_attached_devtools"
  end.

Definition profile_freshness_state_match (profile : BrowserProfile) (requested : list string)
    : option string :=
  first_some (fun requested =>
    if existsb (fun row => eq_ignore_ascii_case (readiness_state_name (tr_state row)) (trim requested))
         (pf_target_readiness profile)
    then Some requested else None) requested.

Definition opt_list (o : option string) : list string :=
  match o with Some s => [s] | None => [] end.

Definition profile_matches_free_text (profile_id : string) (profile : BrowserProfile)
    (query : string) : bool :=
  let query := str_map to_ascii_lowercase (trim query) in
  if is_empty query then false
  else existsb (fun value => contains query (str_map to_ascii_lowercase value))
    ([profile_id; pf_name profile] ++ opt_list (pf_description profile) ++ pf_aliases profile
     ++ pf_origins profile ++ pf_login_ids profile ++ pf_account_labels profile
     ++ pf_target_service_ids profile ++ pf_shared_service_ids profile ++ pf_tags profile).

Record ProfileCatalogRank := {
  cr_authenticated_target_matches : nat;
  cr_account_matches : nat;
  cr_exact_profile_id_matches : nat;
  cr_exact_profile_name_matches : nat;
  cr_alias_matches : nat;
  cr_login_matches : nat;
  cr_origin_matches : nat;
  cr_target_matches : nat;
  cr_tag_matches : nat;
  cr_authentication_state_matches : nat;
  cr_freshness_state_matches : nat;
  cr_caller_service_match : bool;
  cr_free_text_match : bool;
  cr_browser_build_match : bool;
  cr_persistent : bool;
}.
Definition catalog_rank_cmp (a b : ProfileCatalogRank) : comparison :=
  let nat_field f := (f a ?= f b)%nat in
  let bool_field f := Bool.compare (f a) (f b) in
  foldr then_with Eq
    (map nat_field [cr_authenticated_target_matches; cr_account_matches;
       cr_exact_profile_id_matches; cr_exact_profile_name_matches; cr_alias_matches;
       cr_login_matches; cr_origin_matches; cr_target_matches; cr_tag_matches;
       cr_authentication_state_matches; cr_freshness_state_matches]
     ++ map bool_field [cr_caller_service_match; cr_free_text_match; cr_browser_build_match;
          cr_persistent]).

(** [format!("{build:?}").to_lowercase()] *)
Definition browser_build_debug (b : BrowserBuild) : string :=
  match b with
  | StockChrome => "stockchrome"
  | StealthcdpChromium => "stealthcdpchromium"
  | CdpFreeHeaded => "cdpfreeheaded"
  end.

Definition is_some {A} (o : option A) : bool := match o with Some _ => true | None => false end.
Definition unwrap_or_default (o : option string) : string := match o with Some s => s | None => "" end.

Definition has_identity_query (request : ProfileDiscoveryRequest)
    (selection_request : ProfileSelectionRequest) (target_service_ids : list string) : bool :=
  negb (no_ids target_service_ids) || negb (no_ids (rq_account_ids selection_request))
  || is_some (rq_service_name selection_request) || negb (no_ids (dr_profile_ids request))
  || negb (no_ids (dr_profile_names request)) || negb (no_ids (dr_hostnames request))
  || negb (no_ids (dr_authentication_states request))
  || negb (no_ids (dr_freshness_states request)) || negb (no_ids (dr_tags request))
  || is_some (dr_free_text request).

Definition profile_catalog_rank (profile_id : string) (profile : BrowserProfile)
    (request : ProfileDiscoveryRequest) (selection_request : ProfileSelectionRequest)
    (target_service_ids : list string) (selection_rank : ProfileSelectionRank)
    : option (ProfileCatalogRank * (string * string * string)) :=
  let exact_profile_id := first_case_insensitive_match (dr_profile_ids request) [profile_id] in
  let exact_profile_name :=
    first_case_insensitive_match (dr_profile_names request) [pf_name profile] in
  let alias_match :=
    first_case_insensitive_match (dr_profile_names request ++ dr_profile_ids request)
      (pf_aliases profile) in
  let login_match := first_case_insensitive_match target_service_ids (pf_login_ids profile) in
  let origin_match := first_origin_match (dr_hostnames request) (pf_origins profile) in
  let target_match :=
    first_case_insensitive_match target_service_ids (pf_target_service_ids profile) in
  let account_match :=
    first_case_insensitive_match (rq_account_ids selection_request)
      (pf_account_ids profile ++ pf_account_labels profile) in
  let authenticated_match :=
    first_case_insensitive_match target_service_ids (pf_authenticated_service_ids profile) in
  let tag_match := first_case_insensitive_match (dr_tags request) (pf_tags profile) in
  let authentication_state_match :=
    profile_authentication_state_match profile (dr_authentication_states request) in
  let freshness_state_match :=
    profile_freshness_state_match profile (dr_freshness_states request) in
  let free_text_match :=
    query ← dr_free_text request;
    if profile_matches_free_text profile_id profile query then Some query else None in
  let browser_build_catalog_match :=
    browser_build_match selection_rank
    && negb (has_identity_query request selection_request target_service_ids) in
  let one (o : option string) : nat := if is_some o then 1 else 0 in
  evidence ←
    match authenticated_match, account_match, exact_profile_id, exact_profile_name, alias_match,
          login_match, origin_match, target_match, tag_match, authentication_state_match,
          freshness_state_match with
    | Some v, _, _, _, _, _, _, _, _, _, _ =>
        Some ("authenticated_target", "authenticatedServiceIds", v)
    | _, Some v, _, _, _, _, _, _, _, _, _ => Some ("account_match", "accountLabels", v)
    | _, _, Some v, _, _, _, _, _, _, _, _ => Some ("profile_id", "id", v)
    | _, _, _, Some v, _, _, _, _, _, _, _ => Some ("profile_name", "name", v)
    | _, _, _, _, Some v, _, _, _, _, _, _ => Some ("alias", "aliases", v)
    | _, _, _, _, _, Some v, _, _, _, _, _ => Some ("login_id", "loginIds", v)
    | _, _, _, _, _, _, Some v, _, _, _, _ => Some ("origin", "origins", v)
    | _, _, _, _, _, _, _, Some v, _, _, _ => Some ("target_match", "targetServiceIds", v)
    | _, _, _, _, _, _, _, _, Some v, _, _ => Some ("tag", "tags", v)
    | _, _, _, _, _, _, _, _, _, Some v, _ =>
        Some ("authentication_state", "authenticationState", v)
    | _, _, _, _, _, _, _, _, _, _, Some v => Some ("freshness_state", "targetReadiness", v)
    | _, _, _, _, _, _, _, _, _, _, _ =>
        if caller_service_match selection_rank
        then Some ("service_allow_list", "sharedServiceIds",
                   unwrap_or_default (rq_service_name selection_request))
        else match free_text_match with
        | Some v => Some ("free_text", "safeMetadata", v)
        | None =>
            if browser_build_catalog_match
            then Some ("browser_build", "browserBuild",
                       unwrap_or_default
                         (browser_build_debug <$> rq_browser_build selection_request))
            else None
        end
    end%string;
  Some ({| cr_authenticated_target_matches := authenticated_target_matches selection_rank;
           cr_account_matches := one account_match;
           cr_exact_profile_id_matches := one exact_profile_id;
           cr_exact_profile_name_matches := one exact_profile_name;
           cr_alias_matches := one alias_match; cr_login_matches := one login_match;
           cr_origin_matches := one origin_match;
           cr_target_matches := target_matches selection_rank;
           cr_tag_matches := one tag_match;
           cr_authentication_state_matches := one authentication_state_match;
           cr_freshness_state_matches := one freshness_state_match;
           cr_caller_service_match := caller_service_match selection_rank;
           cr_free_text_match := is_some free_text_match;
           cr_browser_build_match := browser_build_catalog_match;
           cr_persistent := pf_persistent profile |}, evidence).

Definition discovery_candidates (service_state : ServiceState) (request : ProfileDiscoveryRequest)
    : list (ProfileCatalogRank * string * ProfileDiscoveryCandidate) :=
  let effective_request :=
    effective_profile_selection_request service_state (dr_selection request) in
  let targets := normalized_profile_request_targets service_state effective_request in
  omap (fun '(id, profile) =>
      let selection_rank := profile_selection_rank profile effective_request targets in
      '(catalog_rank, evidence) ←
        profile_catalog_rank id profile request effective_request targets selection_rank;
      Some (catalog_rank, id,
            {| dc_profile_id := id; dc_reason := evidence.1.1; dc_matched_field := evidence.1.2;
               dc_matched_identity := evidence.2 |}))
    (List.filter (fun p => profile_allows_service p.2 (rq_service_name effective_request))
       (btree_entries (profiles service_state))).

Definition discover_service_profiles (service_state : ServiceState)
    (request : ProfileDiscoveryRequest) : list ProfileDiscoveryCandidate :=
  map snd (merge_sort (ranked_le catalog_rank_cmp) (discovery_candidates service_state request)).

(** ** What a command asks for *)

(** The environment of the process: its variables, and the home directory. *)
Variable env_var : string -> option string.
Variable home_dir : option string.
Context `{!JsonTree}.

Definition optional_command_string (command : value) (name : string) : option string :=
  v ← jget command name; s ← as_str v;
  if is_empty (trim s) then None else Some (trim s).
Definition optional_command_or_params_string (command : value) (name : string) : option string :=
  or_else (optional_command_string command name)
    (params ← jget command "params"; optional_command_string params name).
Definition command_or_params_value (command : value) (name : string) : option value :=
  or_else (jget command name) (params ← jget command "params"; jget params name).

Definition parse_label (value : string) : option BrowserBuild :=
  let v := trim value in
  if one_of v ["stock_chrome"; "stock-chrome"; "chrome"; "google_chrome"; "google-chrome"]%string
  then Some StockChrome
  else if one_of v ["stealthcdp_chromium"; "stealthcdp-chromium"; "stealth_chromium";
                    "stealth-chromium"; "chromium-stealthcdp"]%string
  then Some StealthcdpChromium
  else if one_of v ["cdp_free_headed"; "cdp-free-headed"; "cdp_free"; "cdp-free"]%string
  then Some CdpFreeHeaded
  else None.

(** The source recurses into the [params] of the command; [jsize] bounds it. *)
Fixpoint browser_build_from (fuel : nat) (cmd : value) : option BrowserBuild :=
  match fuel with
  | O => None
  | S fuel =>
      or_else
        (first_some (fun key => s ← jstr cmd key; parse_label s)
           ["browserBuild"; "browser_build"; "browser-build"]%string)
        (jget cmd "params" ≫= browser_build_from fuel)
  end.
Definition browser_build_from_command (cmd : value) : option BrowserBuild :=
  browser_build_from (S (jsize cmd)) cmd.

Definition merge_target_service_id (values : list string) (value : string) : list string :=
  let trimmed := trim value in
  if negb (is_empty trimmed) && negb (one_of trimmed values) then values ++ [trimmed] else values.

(** The strings under the single keys, then those in the arrays under the others. *)
Definition ids_from_command (singles arrays : list string) (cmd : value) : list string :=
  let values := foldl merge_target_service_id [] (omap (jstr cmd) singles) in
  foldl (fun values key =>
    match jget cmd key ≫= as_array with
    | Some raw_values => foldl merge_target_service_id values (omap as_str raw_values)
    | None => values
    end) values arrays.
Definition target_service_ids_from_command : value -> list string :=
  ids_from_command
    ["targetServiceId"; "targetService"; "siteId"; "loginId"; "target_service_id"; "site_id";
     "login_id"]%string
    ["targetServiceIds"; "targetServices"; "siteIds"; "loginIds"; "target_service_ids";
     "site_ids"; "login_ids"]%string.
Definition account_ids_from_command : value -> list string :=
  ids_from_command ["accountId"; "account"; "account_id"; "account-id"]%string
    ["accountIds"; "accounts"; "account_ids"; "account-ids"]%string.

Definition target_url_from_command (cmd : value) : option string :=
  or_else (optional_command_string cmd "url")
    (params ← jget cmd "params"; optional_command_string params "url").

(** ** From a command to launch metadata *)

(** The launch options the profile lease reads. *)
Record LaunchOptions := {
  lo_profile : option string;
  lo_runtime_profile : option string;
  lo_executable_path : option string;
  lo_use_real_keychain : bool;
}.
Record ServiceLaunchMetadata := {
  lm_profile_id : option string;
  lm_profile_name : option string;
  lm_user_data_dir : option string;
  lm_persistent_profile : bool;
  lm_keyring : ProfileKeyringPolicy;
  lm_service_name : option string;
  lm_agent_name : option string;
  lm_task_name : option string;
  lm_cleanup : ServiceTabs.SessionCleanupPolicy;
  lm_profile_selection_reason : option ProfileSelectionReason;
  lm_browser_capability_launch : option value;
}.

Definition parse_env_bool (name : string) : bool :=
  match env_var name with
  | Some v => negb (one_of (str_map to_ascii_lowercase v) ["0"; "false"; "no"; ""]%string)
  | None => false
  end.
Definition use_real_keychain_from_env : bool :=
  parse_env_bool "AGENT_BROWSER_USE_REAL_KEYCHAIN"
  || is_some (env_var "AGENT_BROWSER_KEYCHAIN_PASSWORD").

Definition runtime_profile_from_sources (cmd : value) (include_env_profile : bool)
    : option string :=
  or_else (or_else (jstr cmd "runtimeProfile") (jstr cmd "profileId"))
    (if include_env_profile then env_var "AGENT_BROWSER_RUNTIME_PROFILE" else None).
Definition launch_profile_from_sources (cmd : value) (include_env_profile : bool)
    : option string :=
  or_else (jstr cmd "profile")
    (if include_env_profile then env_var "AGENT_BROWSER_PROFILE" else None).

(** Of [runtime_profile.rs]; the texts of the errors are dropped by the caller. *)
Definition validate_runtime_profile_name (name : string) : bool :=
  negb (is_empty name)
  && bytes_all (fun c => is_ascii_alphanumeric c || Ascii.eqb c "-" || Ascii.eqb c "_") name.
Definition runtime_profiles_root : option string :=
  (fun home => SecretFs.path_join (SecretFs.path_join home ".agent-browser") "runtime-profiles")
    <$> home_dir.
Definition runtime_profile_root (name : string) : option string :=
  if negb (validate_runtime_profile_name name) then None
  else (fun root => SecretFs.path_join root name) <$> runtime_profiles_root.
Definition runtime_profile_user_data_dir (name : string) : option string :=
  (fun root => SecretFs.path_join root "user-data") <$> runtime_profile_root name.

Definition looks_like_path (value : string) : bool :=
  one_of value ["."; ".."]%string || starts_with "/" value || starts_with "~/" value
  || starts_with "./" value || starts_with "../" value || contains "/" value
  || contains "\" value || contains ":" value.

Definition launch_options_service_profile_id (options : LaunchOptions) : option string :=
  match (v ← lo_runtime_profile options; if is_empty (trim v) then None else Some v) with
  | Some runtime_profile => Some runtime_profile
  | None =>
      profile ← lo_profile options;
      let profile := trim profile in
      if is_empty profile then None
      else if looks_like_path profile then service_profile_id (Some profile) None
      else Some profile
  end.

(** The options after a profile of the service state was chosen for them. *)
Definition launch_with_profile (profile_id : string) (profile : BrowserProfile) (cmd : value)
    (options : LaunchOptions) : LaunchOptions :=
  {| lo_profile :=
       match pf_user_data_dir profile with
       | Some user_data_dir =>
           if is_empty (trim user_data_dir) then lo_profile options else Some (trim user_data_dir)
       | None => lo_profile options
       end;
     lo_runtime_profile := Some profile_id;
     lo_executable_path :=
       if (pf_browser_build profile == Some StockChrome)
          && negb (is_some (command_or_params_value cmd "executablePath"))
       then None else lo_executable_path options;
     lo_use_real_keychain := lo_use_real_keychain options |}.

Definition request_from_command (cmd : value) : ProfileSelectionRequest :=
  {| rq_service_name := optional_command_string cmd "serviceName";
     rq_target_service_ids := target_service_ids_from_command cmd;
     rq_account_ids := account_ids_from_command cmd;
     rq_target_url := target_url_from_command cmd;
     rq_browser_build := browser_build_from_command cmd |}.

(** [load] is the snapshot the repository gives, or why it gives none. The second
    component is the options after the call. *)
Definition apply_service_profile_selection (load : res ServiceState) (options : LaunchOptions)
    (cmd : value) : option ProfileSelectionReason * LaunchOptions :=
  let unchanged := (None, options) in
  if is_some (lo_profile options) then unchanged
  else
    let service_owned_launch :=
      (jstr cmd "action" == Some "launch"%string)
      && is_some (optional_command_string cmd "serviceName") in
    let explicit_profile_id :=
      if service_owned_launch
      then or_else (optional_command_or_params_string cmd "runtimeProfile")
             (optional_command_or_params_string cmd "profileId")
      else None in
    match explicit_profile_id with
    | Some profile_id =>
        match load with
        | Err _ => unchanged
        | Ok service_state =>
            match profiles service_state !! profile_id with
            | None => unchanged
            | Some profile =>
                (Some ExplicitProfile, launch_with_profile profile_id profile cmd options)
            end
        end
    | None =>
        if is_some (lo_runtime_profile options) then unchanged
        else
          let request := request_from_command cmd in
          if negb (is_some (rq_service_name request)) && no_ids (rq_target_service_ids request)
             && no_ids (rq_account_ids request) && negb (is_some (rq_target_url request))
             && negb (is_some (rq_browser_build request))
          then unchanged
          else match load with
          | Err _ => unchanged
          | Ok service_state =>
              match select_service_profile_for_request service_state request with
              | None => unchanged
              | Some selection =>
                  match profiles service_state !! sel_profile_id selection with
                  | None => unchanged
                  | Some profile =>
                      (Some (sel_reason selection),
                       launch_with_profile (sel_profile_id selection) profile cmd options)
                  end
              end
          end
    end.

Definition from_launch_options (options : LaunchOptions) (command : option value)
    (selection_reason : option ProfileSelectionReason) : ServiceLaunchMetadata :=
  let profile_id := launch_options_service_profile_id options in
  {| lm_profile_id := profile_id;
     lm_profile_name := or_else (lo_runtime_profile options) (lo_profile options);
     lm_user_data_dir :=
       or_else (lo_profile options)
         (name ← lo_runtime_profile options; runtime_profile_user_data_dir name);
     lm_persistent_profile := is_some profile_id;
     lm_keyring :=
       if lo_use_real_keychain options then RealOsKeychain else BasicPasswordStore;
     lm_service_name := cmd ← command; optional_command_string cmd "serviceName";
     lm_agent_name := cmd ← command; optional_command_string cmd "agentName";
     lm_task_name := cmd ← command; optional_command_string cmd "taskName";
     lm_cleanup :=
       match (cmd ← command; v ← jget cmd "leaveOpen"; as_bool v) with
       | Some true => ServiceTabs.Detach
       | _ => ServiceTabs.CloseBrowser
       end;
     lm_profile_selection_reason :=
       or_else selection_reason (if is_some profile_id then Some ExplicitProfile else None);
     lm_browser_capability_launch := None |}.

Definition service_profile_lease_metadata_for_command (load : res ServiceState) (command : value)
    : option ServiceLaunchMetadata :=
  let exempt :=
    match jstr command "action" with
    | Some action =>
        starts_with "service_" action
        || one_of action
             ["runtime_handoff_prepare"; "runtime_handoff_resume"; "retained_owner_prepare";
              "task_authority_issue"; "task_authority_reconcile"; "task_authority_revoke";
              "task_authority_status"]%string
    | None => false
    end in
  if exempt then None
  else
    let launch_options :=
      {| lo_profile := launch_profile_from_sources command true;
         lo_runtime_profile := runtime_profile_from_sources command true;
         lo_executable_path := None;
         lo_use_real_keychain := use_real_keychain_from_env |} in
    let '(selection_reason, launch_options) :=
      apply_service_profile_selection load launch_options command in
    let metadata := from_launch_options launch_options (Some command) selection_reason in
    if is_some (lm_service_name metadata) && is_some (lm_profile_id metadata)
    then Some metadata else None.

(** More fuel than the size of the command changes nothing: the function is the
    recursive one of the source. *)
Lemma browser_build_fuel fuel cmd :
  (jsize cmd < fuel)%nat -> browser_build_from fuel cmd = browser_build_from_command cmd.
Proof.
  unfold browser_build_from_command.
  enough (Hgen : forall n m cmd, (jsize cmd < n)%nat -> (jsize cmd < m)%nat ->
    browser_build_from n cmd = browser_build_from m cmd) by (intros; apply Hgen; lia).
  clear fuel cmd. induction n as [|n IH]; intros m cmd Hn Hm; [lia|].
  destruct m as [|m]; [lia|]. cbn [browser_build_from]. f_equal.
  destruct (jget cmd "params") as [params|] eqn:Hp; [|done].
  apply jget_smaller in Hp. cbn. apply IH; lia.
Qed.
Lemma browser_build_equation cmd :
  browser_build_from_command cmd =
  or_else
    (first_some (fun key => s ← jstr cmd key; parse_label s)
       ["browserBuild"; "browser_build"; "browser-build"]%string)
    (jget cmd "params" ≫= browser_build_from_command).
Proof.
  unfold browser_build_from_command at 1. cbn [browser_build_from]. f_equal.
  destruct (jget cmd "params") as [params|] eqn:Hp; [|done].
  apply jget_smaller in Hp. cbn. apply browser_build_fuel. lia.
Qed.

End profiles.

End ProfileSelection.
