(* ===== verification/ProfileLeases.v ===== *)
(** * Profile leases

    Who may drive a profile: the lease telemetry and the session records of
    [cli/src/native/service_lifecycle.rs], the gate of [actions.rs] that a service
    launch passes, and of [service_model.rs] the expiry of leases, the readiness of
    profiles for their targets and the allocation view. The data is that of
    [ProfileSelection]. *)

From Stdlib Require Import Ascii.
From stdpp Require Import gmap sorting pretty.
From S2P Require Import Prelude RustStr Env ServiceJobs ControlJobs ServiceTabs ProfileSelection.
Import ServiceJobs ProfileSelection.

Module ProfileLeases.

Section leases.
Context `{!Json, !JsonTree, !UrlLib, !Chrono}.

(** Field assignments on the state. *)
Definition set_profiles (p : gmap string BrowserProfile) (s : ServiceState) : ServiceState :=
  {| profiles := p; browsers := browsers s; sessions := sessions s; tabs := tabs s;
     jobs := jobs s; site_policies := site_policies s;
     default_browser_build := default_browser_build s; profile_sources := profile_sources s;
     policy_sources := policy_sources s |}.
Definition set_browsers (b : gmap string BrowserProcess) (s : ServiceState) : ServiceState :=
  {| profiles := profiles s; browsers := b; sessions := sessions s; tabs := tabs s;
     jobs := jobs s; site_policies := site_policies s;
     default_browser_build := default_browser_build s; profile_sources := profile_sources s;
     policy_sources := policy_sources s |}.
Definition set_sessions (e : gmap string BrowserSession) (s : ServiceState) : ServiceState :=
  {| profiles := profiles s; browsers := browsers s; sessions := e; tabs := tabs s;
     jobs := jobs s; site_policies := site_policies s;
     default_browser_build := default_browser_build s; profile_sources := profile_sources s;
     policy_sources := policy_sources s |}.
Definition set_policies (p : gmap string SitePolicy) (sources : gmap string ServiceEntitySource)
    (s : ServiceState) : ServiceState :=
  {| profiles := profiles s; browsers := browsers s; sessions := sessions s; tabs := tabs s;
     jobs := jobs s; site_policies := p; default_browser_build := default_browser_build s;
     profile_sources := profile_sources s; policy_sources := sources |}.
Definition set_profile_sources (p : gmap string ServiceEntitySource) (s : ServiceState)
    : ServiceState :=
  {| profiles := profiles s; browsers := browsers s; sessions := sessions s; tabs := tabs s;
     jobs := jobs s; site_policies := site_policies s;
     default_browser_build := default_browser_build s; profile_sources := p;
     policy_sources := policy_sources s |}.

(** ** Readiness of a profile for its targets *)

Definition row_has_explicit_freshness_evidence (row : ProfileTargetReadiness) : bool :=
  match tr_state row with
  | Fresh | Stale | BlockedByAttachedDevtools => true
  | ReadinessUnknown | NeedsManualSeeding | SeededUnknownFreshness => false
  end
  || is_some (tr_last_verified_at row) || is_some (tr_freshness_expires_at row).

Definition target_is_google_signin (target_service_id : string) : bool :=
  one_of (str_map to_ascii_lowercase target_service_id)
    ["google"; "gmail"; "google-login"; "google_signin"; "google-signin"]%string.

Definition target_requires_detached_manual_seeding (profile : BrowserProfile)
    (policies : gmap string SitePolicy) (target_service_id : string) : bool :=
  pf_manual_login_preferred profile || target_is_google_signin target_service_id
  || match policies !! target_service_id with
     | Some policy => sp_manual_login_preferred policy
     | None => false
     end.

Definition profile_seeding_setup_scopes (target_service_id : string) : list string :=
  if target_is_google_signin target_service_id
  then ["signin"; "chrome_sync"; "passkeys"; "browser_plugins"]%string
  else ["signin"]%string.

Definition derive_target_readiness_for_profile (profile : BrowserProfile)
    (policies : gmap string SitePolicy) (target_service_id : string) : ProfileTargetReadiness :=
  let authenticated := one_of target_service_id (pf_authenticated_service_ids profile) in
  let manual_seeding_required :=
    negb authenticated
    && target_requires_detached_manual_seeding profile policies target_service_id in
  let row state evidence action mode keyring scopes :=
    {| tr_target_service_id := target_service_id; tr_login_id := None; tr_state := state;
       tr_manual_seeding_required := manual_seeding_required; tr_evidence := evidence;
       tr_recommended_action := action; tr_seeding_mode := mode;
       tr_cdp_attachment_allowed_during_seeding := mode == AttachableOk;
       tr_preferred_keyring := keyring; tr_setup_scopes := scopes;
       tr_last_verified_at := None; tr_freshness_expires_at := None |} in
  if authenticated
  then row SeededUnknownFreshness "profile_authenticated_service_hint"%string
         "probe_target_auth_or_reuse_if_acceptable"%string SeedingNotRequired None []
  else if manual_seeding_required
  then row NeedsManualSeeding "manual_seed_required_without_authenticated_hint"%string
         "launch_detached_runtime_login_complete_signin_close_then_relaunch_attachable"%string
         DetachedHeadedNoCdp (Some BasicPasswordStore)
         (profile_seeding_setup_scopes target_service_id)
  else row ReadinessUnknown "no_authenticated_service_hint"%string
         "verify_or_seed_profile_before_authenticated_work"%string AttachableOk
         (Some (pf_keyring profile)) ["signin"%string].

Definition explicit_action (state : ProfileReadinessState) : string :=
  match state with
  | Fresh => "use_profile"
  | Stale => "probe_target_auth_or_reseed_if_needed"
  | BlockedByAttachedDevtools => "close_attached_devtools_then_verify_profile"
  | NeedsManualSeeding =>
      "launch_detached_runtime_login_complete_signin_close_then_relaunch_attachable"
  | SeededUnknownFreshness => "probe_target_auth_or_reuse_if_acceptable"
  | ReadinessUnknown => "verify_or_seed_profile_before_authenticated_work"
  end.

Definition normalize_explicit_target_readiness (explicit derived : ProfileTargetReadiness)
    : ProfileTargetReadiness :=
  let needs_seeding := tr_state explicit == NeedsManualSeeding in
  let seeding_mode :=
    if tr_manual_seeding_required explicit || needs_seeding
    then DetachedHeadedNoCdp else tr_seeding_mode explicit in
  {| tr_target_service_id := tr_target_service_id explicit;
     tr_login_id := or_else (tr_login_id explicit) (tr_login_id derived);
     tr_state := tr_state explicit;
     tr_manual_seeding_required :=
       needs_seeding || (tr_manual_seeding_required explicit && (tr_state explicit != Fresh));
     tr_evidence :=
       if is_empty (tr_evidence explicit) then tr_evidence derived else tr_evidence explicit;
     tr_recommended_action :=
       if is_empty (tr_recommended_action explicit) then explicit_action (tr_state explicit)
       else tr_recommended_action explicit;
     tr_seeding_mode := seeding_mode;
     tr_cdp_attachment_allowed_during_seeding := seeding_mode == AttachableOk;
     tr_preferred_keyring :=
       or_else (or_else (tr_preferred_keyring explicit) (tr_preferred_keyring derived))
         (if seeding_mode == DetachedHeadedNoCdp then Some BasicPasswordStore else None);
     tr_setup_scopes :=
       match tr_setup_scopes explicit with
       | [] => tr_setup_scopes derived
       | scopes => scopes
       end;
     tr_last_verified_at := or_else (tr_last_verified_at explicit) (tr_last_verified_at derived);
     tr_freshness_expires_at :=
       or_else (tr_freshness_expires_at explicit) (tr_freshness_expires_at derived) |}.

(** The rows with evidence of their own, by target: a later one replaces an earlier. *)
Definition explicit_readiness (rows : list ProfileTargetReadiness)
    : gmap string ProfileTargetReadiness :=
  foldl (fun m row => <[tr_target_service_id row := row]> m) ∅
    (List.filter row_has_explicit_freshness_evidence
       (List.filter (fun row => negb (is_empty (tr_target_service_id row))) rows)).

(** A [BTreeSet<String>] in order. *)
Definition btree_set (s : gset string) : list string := merge_sort str_le (elements s).

Definition readiness_targets (profile : BrowserProfile) (policies : gmap string SitePolicy)
    (explicit : gmap string ProfileTargetReadiness) : gset string :=
  list_to_set (List.filter (fun target => negb (is_empty target))
    (pf_target_service_ids profile ++ pf_authenticated_service_ids profile
     ++ map fst (btree_entries explicit)))
  ∪ list_to_set (List.filter (fun id => negb (is_empty id))
      (omap (fun site_policy_id => sp_id <$> policies !! site_policy_id)
         (pf_site_policy_ids profile))).

Definition derive_profile_target_readiness (profile : BrowserProfile)
    (policies : gmap string SitePolicy) : list ProfileTargetReadiness :=
  let explicit := explicit_readiness (pf_target_readiness profile) in
  map (fun target_service_id =>
      let derived := derive_target_readiness_for_profile profile policies target_service_id in
      match explicit !! target_service_id with
      | Some row => normalize_explicit_target_readiness row derived
      | None => derived
      end)
    (btree_set (readiness_targets profile policies explicit)).

Definition set_target_readiness (rows : list ProfileTargetReadiness) (p : BrowserProfile)
    : BrowserProfile :=
  {| pf_id := pf_id p; pf_name := pf_name p; pf_description := pf_description p;
     pf_aliases := pf_aliases p; pf_origins := pf_origins p; pf_login_ids := pf_login_ids p;
     pf_account_labels := pf_account_labels p; pf_profile_origin := pf_profile_origin p;
     pf_profile_class := pf_profile_class p; pf_user_data_dir := pf_user_data_dir p;
     pf_site_policy_ids := pf_site_policy_ids p;
     pf_target_service_ids := pf_target_service_ids p;
     pf_authenticated_service_ids := pf_authenticated_service_ids p;
     pf_account_ids := pf_account_ids p; pf_browser_build := pf_browser_build p;
     pf_allocation := pf_allocation p; pf_keyring := pf_keyring p;
     pf_shared_service_ids := pf_shared_service_ids p;
     pf_manual_login_preferred := pf_manual_login_preferred p; pf_target_readiness := rows;
     pf_persistent := pf_persistent p; pf_tags := pf_tags p |}.

Definition add_policy (self : ServiceState) (policy : SitePolicy) : ServiceState :=
  let id := sp_id policy in
  match site_policies self !! id with
  | Some _ => self
  | None => set_policies (<[id := policy]> (site_policies self))
              (<[id := Builtin]> (policy_sources self)) self
  end.
Definition apply_builtin_site_policies (self : ServiceState) : ServiceState :=
  foldl add_policy self builtin_site_policies.

Definition refresh_profile_readiness (self : ServiceState) : ServiceState :=
  let self := apply_builtin_site_policies self in
  set_profiles
    ((fun profile =>
        set_target_readiness (derive_profile_target_readiness profile (site_policies self))
          profile) <$> profiles self) self.

(** ** Leases *)

Record ProfileLeaseTelemetry := {
  disposition : ProfileLeaseDisposition;
  conflict_session_ids : list string;
}.

(** The browsers of the profile the session is active in. *)
Definition current_owned_browser_ids (service_state : ServiceState)
    (session_id profile_id : string) : list string :=
  map fst (List.filter (fun p =>
      (br_profile_id p.2 == Some profile_id) && one_of session_id (br_active_session_ids p.2))
    (btree_entries (browsers service_state))).

Definition conflicts_with (owned : list string) (session_id profile_id : string)
    (candidate : string * BrowserSession) : bool :=
  (candidate.1 != session_id) && (se_profile_id candidate.2 == Some profile_id)
  && (se_lease candidate.2 == ServiceTabs.Exclusive)
  && negb (existsb (fun browser_id => one_of browser_id owned) (se_browser_ids candidate.2)).

Definition profile_lease_telemetry (service_state : ServiceState) (session_id profile_id : string)
    : ProfileLeaseTelemetry :=
  let owned := current_owned_browser_ids service_state session_id profile_id in
  let conflicts :=
    sort_dedup (map fst (List.filter (conflicts_with owned session_id profile_id)
                           (btree_entries (sessions service_state)))) in
  {| disposition :=
       if negb (no_ids conflicts) then ActiveLeaseConflict
       else if negb (no_ids owned) then ReusedBrowser else NewBrowser;
     conflict_session_ids := conflicts |}.

(** ** Recording a launch *)

Definition non_empty_label (o : option string) : option string :=
  v ← o; if is_empty (trim v) then None else Some (trim v).
Definition from_caller_context (service_name agent_name : option string) : ServiceActor :=
  match non_empty_label agent_name with
  | Some agent_name => ActorAgent agent_name
  | None =>
      match non_empty_label service_name with
      | Some service_name => ActorApiClient service_name
      | None => ActorSystem
      end
  end.
Definition is_system (actor : ServiceActor) : bool :=
  match actor with ActorSystem => true | _ => false end.

Definition service_browser_id_for_session (session_id : string) : string :=
  "session:" +:+ session_id.

Definition default_profile (id name : string) : BrowserProfile :=
  {| pf_id := id; pf_name := name; pf_description := None; pf_aliases := []; pf_origins := [];
     pf_login_ids := []; pf_account_labels := [];
     pf_profile_origin := ServiceTabs.AgentBrowserOwned; pf_profile_class := DurableNamed;
     pf_user_data_dir := None; pf_site_policy_ids := []; pf_target_service_ids := [];
     pf_authenticated_service_ids := []; pf_account_ids := []; pf_browser_build := None;
     pf_allocation := SharedService; pf_keyring := BasicPasswordStore;
     pf_shared_service_ids := []; pf_manual_login_preferred := false;
     pf_target_readiness := []; pf_persistent := false; pf_tags := [] |}.
Definition default_session (id : string) : BrowserSession :=
  {| se_id := id; se_service_name := None; se_agent_name := None; se_task_name := None;
     se_owner := ActorSystem; se_lease := ServiceTabs.Shared; se_profile_id := None;
     se_profile_selection_reason := None; se_profile_lease_disposition := None;
     se_profile_lease_conflict_session_ids := []; se_browser_capability_launch := None;
     se_cleanup := ServiceTabs.Detach; se_browser_ids := []; se_tab_ids := []; se_created_at := None;
     se_last_lease_observed_at := None; se_expires_at := None |}.

Definition unwrap_or {A} (o : option A) (d : A) : A := match o with Some a => a | None => d end.

(** What a launch writes on the profile it uses. *)
Definition launched_profile (profile_id : string) (metadata : ServiceLaunchMetadata)
    (p : BrowserProfile) : BrowserProfile :=
  let named := is_some (lm_service_name metadata) in
  {| pf_id := pf_id p;
     pf_name :=
       if is_empty (pf_name p) then unwrap_or (lm_profile_name metadata) profile_id
       else pf_name p;
     pf_description := pf_description p; pf_aliases := pf_aliases p; pf_origins := pf_origins p;
     pf_login_ids := pf_login_ids p; pf_account_labels := pf_account_labels p;
     pf_profile_origin := pf_profile_origin p; pf_profile_class := pf_profile_class p;
     pf_user_data_dir := or_else (pf_user_data_dir p) (lm_user_data_dir metadata);
     pf_site_policy_ids := pf_site_policy_ids p;
     pf_target_service_ids := pf_target_service_ids p;
     pf_authenticated_service_ids := pf_authenticated_service_ids p;
     pf_account_ids := pf_account_ids p; pf_browser_build := pf_browser_build p;
     pf_allocation :=
       if named && (pf_allocation p == SharedService) then PerService else pf_allocation p;
     pf_keyring :=
       if (pf_keyring p == BasicPasswordStore) || (lm_keyring metadata != BasicPasswordStore)
       then lm_keyring metadata else pf_keyring p;
     pf_shared_service_ids :=
       match lm_service_name metadata with
       | Some service_name => merge_unique (pf_shared_service_ids p) service_name
       | None => pf_shared_service_ids p
       end;
     pf_manual_login_preferred :=
       if named then pf_manual_login_preferred p || (lm_keyring metadata == RealOsKeychain)
       else pf_manual_login_preferred p;
     pf_target_readiness := pf_target_readiness p;
     pf_persistent := pf_persistent p || lm_persistent_profile metadata;
     pf_tags := pf_tags p |}.

Definition mark_runtime_observed_profile_source (id : string) (self : ServiceState)
    : ServiceState :=
  set_profile_sources
    (match profile_sources self !! id with
     | Some _ => profile_sources self
     | None => <[id := RuntimeObserved]> (profile_sources self)
     end) self.

Definition upsert_profile (profile_id : string) (metadata : ServiceLaunchMetadata)
    (service_state : ServiceState) : ServiceState :=
  let profile :=
    unwrap_or (profiles service_state !! profile_id)
      (default_profile profile_id (unwrap_or (lm_profile_name metadata) profile_id)) in
  mark_runtime_observed_profile_source profile_id
    (set_profiles
       (<[profile_id := launched_profile profile_id metadata profile]> (profiles service_state))
       service_state).

(** What a launch writes on its session. *)
Definition launched_session (now session_id : string) (profile_id : option string)
    (metadata : ServiceLaunchMetadata) (telemetry : option ProfileLeaseTelemetry)
    (s : BrowserSession) : BrowserSession :=
  let service_name := or_else (lm_service_name metadata) (se_service_name s) in
  let agent_name := or_else (lm_agent_name metadata) (se_agent_name s) in
  let profile_id := or_else profile_id (se_profile_id s) in
  {| se_id := se_id s; se_service_name := service_name; se_agent_name := agent_name;
     se_task_name := or_else (lm_task_name metadata) (se_task_name s);
     se_owner :=
       if is_system (se_owner s) then from_caller_context service_name agent_name
       else se_owner s;
     se_lease := if is_some profile_id then ServiceTabs.Exclusive else se_lease s;
     se_profile_id := profile_id;
     se_profile_selection_reason :=
       or_else (lm_profile_selection_reason metadata) (se_profile_selection_reason s);
     se_profile_lease_disposition :=
       or_else (disposition <$> telemetry) (se_profile_lease_disposition s);
     se_profile_lease_conflict_session_ids :=
       unwrap_or (conflict_session_ids <$> telemetry) (se_profile_lease_conflict_session_ids s);
     se_browser_capability_launch :=
       or_else (lm_browser_capability_launch metadata) (se_browser_capability_launch s);
     se_cleanup := lm_cleanup metadata;
     se_browser_ids :=
       merge_unique (se_browser_ids s) (service_browser_id_for_session session_id);
     se_tab_ids := se_tab_ids s; se_created_at := se_created_at s;
     se_last_lease_observed_at := Some now; se_expires_at := se_expires_at s |}.

(** [now] is the clock read at the start of the call. *)
Definition upsert_service_profile_and_session (now : string) (service_state : ServiceState)
    (session_id : string) (profile_id : option string) (metadata : ServiceLaunchMetadata)
    : ServiceState :=
  let service_state :=
    match profile_id with
    | Some profile_id => upsert_profile profile_id metadata service_state
    | None => service_state
    end in
  let selected_profile_id :=
    or_else profile_id (session ← sessions service_state !! session_id; se_profile_id session) in
  let lease_telemetry :=
    profile_lease_telemetry service_state session_id <$> selected_profile_id in
  let session := unwrap_or (sessions service_state !! session_id) (default_session session_id) in
  set_sessions
    (<[session_id :=
         launched_session now session_id profile_id metadata lease_telemetry session]>
       (sessions service_state)) service_state.

(** ** The gate of a service launch *)

Definition PROFILE_LEASE_WAIT_POLL_MS : Z := 250.
Definition DEFAULT_PROFILE_LEASE_WAIT_TIMEOUT_MS : Z := 30000.

Inductive ProfileLeasePolicy := PolicyReject | PolicyWait.

Definition service_browser_health_counts_as_live (health : ServiceTabs.BrowserHealth) : bool :=
  match health with
  | ServiceTabs.NotStarted | ServiceTabs.ProcessExited | ServiceTabs.Closing
  | ServiceTabs.Faulted => false
  | _ => true
  end.

(** A repository that cannot be opened or read counts as an empty one here. *)
Definition service_profile_live_reusable_browser_ids (load : res ServiceState)
    (session_id profile_id : string) : list string :=
  match load with
  | Err _ => []
  | Ok service_state =>
      sort_dedup (map fst (List.filter (fun p =>
          (br_profile_id p.2 == Some profile_id)
          && service_browser_health_counts_as_live (br_health p.2)
          && (p.1 != service_browser_id_for_session session_id)
          && negb (one_of session_id (br_active_session_ids p.2)))
        (btree_entries (browsers service_state))))
  end.

Definition service_profile_lease_conflict_session_ids_in_state (service_state : ServiceState)
    (session_id profile_id : string) : list string :=
  let lease_telemetry := profile_lease_telemetry service_state session_id profile_id in
  if disposition lease_telemetry != ActiveLeaseConflict then []
  else conflict_session_ids lease_telemetry.

Definition service_profile_lease_conflict_session_ids (load : res ServiceState)
    (session_id profile_id : string) : list string :=
  match load with
  | Err _ => []
  | Ok service_state =>
      service_profile_lease_conflict_session_ids_in_state service_state session_id profile_id
  end.

Definition service_label (metadata : ServiceLaunchMetadata) : string :=
  unwrap_or (lm_service_name metadata) "unknown service"%string.

Definition service_profile_lease_conflict_error (metadata : ServiceLaunchMetadata)
    (profile_id : string) (conflicts : list string) (wait_timeout_ms : option Z) : string :=
  fmt ["Service profile lease conflict for profile '"; profile_id; "': service '";
       service_label metadata; "' cannot launch";
       match wait_timeout_ms with
       | Some timeout => fmt [" after waiting "; pretty timeout; " ms"]
       | None => ""
       end;
       " while exclusive session(s) "; str_join ", " conflicts;
       " already hold the profile. Retry after those sessions release the profile, set profileLeasePolicy to wait, or request a different profile."]%string.

Definition service_duplicate_profile_lane_error (metadata : ServiceLaunchMetadata)
    (profile_id : string) (browser_ids : list string) : string :=
  fmt ["Duplicate service profile lane blocked for profile '"; profile_id; "': service '";
       service_label metadata; "' selected a profile already backed by live browser(s) ";
       str_join ", " browser_ids;
       ". Reuse the access-plan browserId/sessionName route hints, wait for the profile lane, request a different profile, or set allowDuplicateProfileLane=true for reviewed isolation or throwaway browser behavior."]%string.

Definition allow_duplicate_profile_lane_from_command (command : value) : bool :=
  match (v ← jget command "allowDuplicateProfileLane"; as_bool v) with
  | Some b => b
  | None => false
  end.

Definition profile_lease_policy_from_command (command : value) : res ProfileLeasePolicy :=
  match optional_command_string command "profileLeasePolicy" with
  | None => Ok PolicyReject
  | Some value =>
      if value == "reject"%string then Ok PolicyReject
      else if value == "wait"%string then Ok PolicyWait
      else Err (fmt ["profileLeasePolicy must be 'reject' or 'wait', got '"; value; "'"]%string)
  end.

Definition profile_lease_wait_timeout_ms_from_command (command : value) : res Z :=
  match jget command "profileLeaseWaitTimeoutMs" with
  | None => Ok DEFAULT_PROFILE_LEASE_WAIT_TIMEOUT_MS
  | Some value =>
      ok_or "profileLeaseWaitTimeoutMs must be a positive integer"%string
        (timeout ← as_u64 value; if (0 <? timeout)%Z then Some timeout else None)
  end.

Section gate.
Variable env_var : string -> option string.
Variable home_dir : option string.

(** The snapshots the gate loads: for the selection of the profile, for its live
    browsers, and for its leases. *)
Record Snapshots := {
  for_selection : res ServiceState;
  for_lanes : res ServiceState;
  for_leases : res ServiceState;
}.

Definition service_profile_lease_gate (load : Snapshots) (command : value) (session_id : string)
    (waited_ms : option Z) : res ControlJobs.ServiceProfileLeaseGate :=
  match service_profile_lease_metadata_for_command env_var home_dir (for_selection load)
          command with
  | None => Ok ControlJobs.GateReady
  | Some metadata =>
      match lm_profile_id metadata with
      | None => Ok ControlJobs.GateReady
      | Some profile_id =>
          let reusable_browser_ids :=
            service_profile_live_reusable_browser_ids (for_lanes load) session_id profile_id in
          if negb (no_ids reusable_browser_ids)
             && negb (allow_duplicate_profile_lane_from_command command)
             && negb (is_some (jget command "browserId"))
             && negb (is_some (jget command "sessionName"))
          then Ok (ControlJobs.GateReject
                     (service_duplicate_profile_lane_error metadata profile_id
                        reusable_browser_ids))
          else
            policy ← profile_lease_policy_from_command command;
            wait_timeout_ms ← profile_lease_wait_timeout_ms_from_command command;
            let conflicts :=
              service_profile_lease_conflict_session_ids (for_leases load) session_id
                profile_id in
            if no_ids conflicts then Ok ControlJobs.GateReady
            else match policy with
            | PolicyReject =>
                Ok (ControlJobs.GateReject
                      (service_profile_lease_conflict_error metadata profile_id conflicts None))
            | PolicyWait =>
                if (wait_timeout_ms <=? unwrap_or waited_ms 0)%Z
                then Ok (ControlJobs.GateReject
                           (service_profile_lease_conflict_error metadata profile_id conflicts
                              (Some wait_timeout_ms)))
                else Ok (ControlJobs.GateWait PROFILE_LEASE_WAIT_POLL_MS profile_id conflicts)
            end
      end
  end.

Definition ensure_service_profile_lease_available (load : Snapshots) (session_id : string)
    (command : value) : res unit :=
  wait_timeout_ms ← profile_lease_wait_timeout_ms_from_command command;
  gate ← service_profile_lease_gate load command session_id (Some wait_timeout_ms);
  match gate with
  | ControlJobs.GateReady => Ok tt
  | ControlJobs.GateReject error => Err error
  | ControlJobs.GateWait _ _ _ =>
      Err "Service profile lease wait must be handled by the control-plane scheduler"%string
  end.
End gate.

(** ** Expiry *)

Definition is_inactive_lease (lease : ServiceTabs.LeaseState) : bool :=
  match lease with ServiceTabs.Released | ServiceTabs.Expired => true | _ => false end.

Definition service_timestamp_is_due (candidate observed_at : string) : bool :=
  match parse_from_rfc3339 candidate, parse_from_rfc3339 observed_at with
  | Ok candidate, Ok observed_at => (candidate <=? observed_at)%Z
  | _, _ => false
  end.

Definition lease_is_stale (self : ServiceState) (observed_at : string) (session : BrowserSession)
    : bool :=
  if is_inactive_lease (se_lease session) then false
  else
    let deadline_expired :=
      match se_expires_at session with
      | Some expires_at => service_timestamp_is_due expires_at observed_at
      | None => false
      end in
    let browser_ownership_orphaned :=
      negb (no_ids (se_browser_ids session))
      && forallb (fun browser_id => negb (is_some (browsers self !! browser_id)))
           (se_browser_ids session) in
    deadline_expired || browser_ownership_orphaned.

Definition expire_session (observed_at : string) (s : BrowserSession) : BrowserSession :=
  {| se_id := se_id s; se_service_name := se_service_name s; se_agent_name := se_agent_name s;
     se_task_name := se_task_name s; se_owner := se_owner s; se_lease := ServiceTabs.Expired;
     se_profile_id := se_profile_id s;
     se_profile_selection_reason := se_profile_selection_reason s;
     se_profile_lease_disposition := se_profile_lease_disposition s;
     se_profile_lease_conflict_session_ids := se_profile_lease_conflict_session_ids s;
     se_browser_capability_launch := se_browser_capability_launch s;
     se_cleanup := se_cleanup s; se_browser_ids := se_browser_ids s; se_tab_ids := se_tab_ids s; se_created_at := se_created_at s;
     se_last_lease_observed_at := Some observed_at; se_expires_at := se_expires_at s |}.

Definition retain_sessions (keep : string -> bool) (b : BrowserProcess) : BrowserProcess :=
  {| br_id := br_id b; br_profile_id := br_profile_id b; br_host := br_host b;
     br_health := br_health b; br_pid := br_pid b; br_cdp_endpoint := br_cdp_endpoint b;
     br_active_session_ids := List.filter keep (br_active_session_ids b) |}.

(** The call ends with [refresh_derived_views]; of the views it derives, the readiness
    rows are part of this state. *)
Definition expire_stale_session_leases (observed_at : string) (self : ServiceState)
    : list string * ServiceState :=
  let expired_session_ids :=
    map fst (List.filter (fun p => lease_is_stale self observed_at p.2)
               (btree_entries (sessions self))) in
  match expired_session_ids with
  | [] => (expired_session_ids, self)
  | _ :: _ =>
      let expired_sessions :=
        foldl (fun m id => alter (expire_session observed_at) id m) (sessions self)
          expired_session_ids in
      let released_browsers :=
        retain_sessions (fun id => negb (one_of id expired_session_ids)) <$> browsers self in
      (expired_session_ids,
       refresh_profile_readiness (set_browsers released_browsers (set_sessions expired_sessions self)))
  end.

(** ** The allocation view *)

Record ServiceProfileAllocationBrowserSummary := {
  bsu_browser_id : string;
  bsu_host : BrowserHost;
  bsu_health : ServiceTabs.BrowserHealth;
  bsu_pid : option Z;
  bsu_has_cdp_endpoint : bool;
  bsu_active_session_ids : list string;
}.
Record ServiceProfileAllocation := {
  pa_profile_id : string;
  pa_profile_name : string;
  pa_profile_origin : ServiceTabs.ProfileOrigin;
  pa_profile_class : ProfileClass;
  pa_allocation : ProfileAllocationPolicy;
  pa_keyring : ProfileKeyringPolicy;
  pa_browser_build : option BrowserBuild;
  pa_target_service_ids : list string;
  pa_authenticated_service_ids : list string;
  pa_account_ids : list string;
  pa_target_readiness : list ProfileTargetReadiness;
  pa_shared_service_ids : list string;
  pa_holder_session_ids : list string;
  pa_holder_count : nat;
  pa_exclusive_holder_session_ids : list string;
  pa_waiting_job_ids : list string;
  pa_waiting_job_count : nat;
  pa_conflict_session_ids : list string;
  pa_lease_state : string;
  pa_recommended_action : string;
  pa_service_names : list string;
  pa_agent_names : list string;
  pa_task_names : list string;
  pa_browser_ids : list string;
  pa_browser_summaries : list ServiceProfileAllocationBrowserSummary;
  pa_tab_ids : list string;
}.

Definition waiting_profile_lease_profile_id (job : ServiceJob) : option string :=
  result ← sj_result job; profile_id ← jstr result "profileId";
  if is_empty profile_id then None else Some profile_id.

Definition waiting_profile_lease_conflict_session_ids (job : ServiceJob) : list string :=
  match (result ← sj_result job; conflicts ← jget result "conflictSessionIds";
         as_array conflicts) with
  | Some conflicts => List.filter (fun c => negb (is_empty c)) (omap as_str conflicts)
  | None => []
  end.

Definition profile_allocation_lease_state
    (has_holders has_exclusive_holders has_waiting_jobs : bool) : string :=
  match has_holders, has_exclusive_holders, has_waiting_jobs with
  | _, true, true => "conflicted"
  | _, _, true => "waiting"
  | _, true, false => "exclusive"
  | true, false, false => "shared"
  | false, false, false => "available"
  end.

Definition profile_allocation_recommended_action (lease_state : string) : string :=
  if lease_state == "conflicted"%string then "release_holder_or_redirect_waiting_jobs"
  else if lease_state == "waiting"%string then "inspect_waiting_jobs"
  else if lease_state == "exclusive"%string then "reuse_holder_or_release_profile"
  else if lease_state == "shared"%string then "shared_profile_in_use"
  else "available".

(** What [insert_non_empty] puts into a set, of the values it is given. *)
Definition non_empty_set (values : list (option string)) : gset string :=
  list_to_set (omap non_empty_label values).
Definition sorted_strings (values : list string) : list string :=
  btree_set (list_to_set values).

Definition values_of {A} (m : gmap string A) : list A := map snd (btree_entries m).

(** The sessions that hold the profile, the jobs that wait for it. *)
Definition holds_profile (profile_id : string) (session : BrowserSession) : bool :=
  (se_profile_id session == Some profile_id) && negb (is_inactive_lease (se_lease session)).
Definition exclusive_or_takeover (session : BrowserSession) : bool :=
  match se_lease session with
  | ServiceTabs.Exclusive | ServiceTabs.HumanTakeover => true
  | _ => false
  end.
Definition waits_for (profile_id : string) (job : ServiceJob) : bool :=
  (sj_state job == WaitingProfileLease)
  && (waiting_profile_lease_profile_id job == Some profile_id).

Definition browser_summary (browser : BrowserProcess) : ServiceProfileAllocationBrowserSummary :=
  {| bsu_browser_id := br_id browser; bsu_host := br_host browser;
     bsu_health := br_health browser; bsu_pid := br_pid browser;
     bsu_has_cdp_endpoint :=
       match br_cdp_endpoint browser with
       | Some endpoint => negb (is_empty endpoint)
       | None => false
       end;
     bsu_active_session_ids := sorted_strings (br_active_session_ids browser) |}.

Definition tab_references_profile (service_state : ServiceState) (profile_id : string)
    (tab : BrowserTab) : bool :=
  let profile_of session_id :=
    session_id ← session_id; session ← sessions service_state !! session_id;
    se_profile_id session in
  (profile_of (tb_session_id tab) == Some profile_id)
  || (profile_of (tb_owner_session_id tab) == Some profile_id).

Definition service_profile_allocation (service_state : ServiceState) (profile_id : string)
    : ServiceProfileAllocation :=
  let profile := profiles service_state !! profile_id in
  let held := List.filter (holds_profile profile_id) (values_of (sessions service_state)) in
  let exclusive := List.filter exclusive_or_takeover held in
  let used := List.filter (fun b => br_profile_id b == Some profile_id)
                (values_of (browsers service_state)) in
  let referring := List.filter (tab_references_profile service_state profile_id)
                     (values_of (tabs service_state)) in
  let waiting := List.filter (waits_for profile_id) (values_of (jobs service_state)) in
  let holder_session_ids :=
    btree_set (list_to_set (map se_id held)
               ∪ non_empty_set (map Some (concat (map br_active_session_ids used)))) in
  let exclusive_holder_session_ids := btree_set (list_to_set (map se_id exclusive)) in
  let waiting_job_ids := btree_set (non_empty_set (map (fun j => Some (sj_id j)) waiting)) in
  let lease_state :=
    profile_allocation_lease_state (negb (no_ids holder_session_ids))
      (negb (no_ids exclusive_holder_session_ids)) (negb (no_ids waiting_job_ids)) in
  let names of_session of_job :=
    btree_set (non_empty_set (map of_session held ++ map of_job waiting)) in
  let strings field :=
    match profile with Some profile => sorted_strings (field profile) | None => [] end in
  {| pa_profile_id := profile_id;
     pa_profile_name :=
       match profile with
       | Some profile => if is_empty (pf_name profile) then profile_id else pf_name profile
       | None => profile_id
       end;
     pa_profile_origin := unwrap_or (pf_profile_origin <$> profile) ServiceTabs.AgentBrowserOwned;
     pa_profile_class := unwrap_or (pf_profile_class <$> profile) DurableNamed;
     pa_allocation := unwrap_or (pf_allocation <$> profile) SharedService;
     pa_keyring := unwrap_or (pf_keyring <$> profile) BasicPasswordStore;
     pa_browser_build := profile ≫= pf_browser_build;
     pa_target_service_ids := strings pf_target_service_ids;
     pa_authenticated_service_ids := strings pf_authenticated_service_ids;
     pa_account_ids := strings pf_account_ids;
     pa_target_readiness := unwrap_or (pf_target_readiness <$> profile) [];
     pa_shared_service_ids := strings pf_shared_service_ids;
     pa_holder_session_ids := holder_session_ids;
     pa_holder_count := length holder_session_ids;
     pa_exclusive_holder_session_ids := exclusive_holder_session_ids;
     pa_waiting_job_ids := waiting_job_ids;
     pa_waiting_job_count := length waiting_job_ids;
     pa_conflict_session_ids :=
       btree_set (non_empty_set
         (map Some (concat (map se_profile_lease_conflict_session_ids held)
                    ++ concat (map waiting_profile_lease_conflict_session_ids waiting))));
     pa_lease_state := lease_state;
     pa_recommended_action := profile_allocation_recommended_action lease_state;
     pa_service_names := names se_service_name sj_service_name;
     pa_agent_names := names se_agent_name sj_agent_name;
     pa_task_names := names se_task_name sj_task_name;
     pa_browser_ids :=
       btree_set (non_empty_set (map Some (concat (map se_browser_ids held) ++ map br_id used)));
     pa_browser_summaries :=
       values_of (foldl (fun (m : gmap string ServiceProfileAllocationBrowserSummary) b =>
                    <[br_id b := browser_summary b]> m) ∅ used);
     pa_tab_ids :=
       btree_set (non_empty_set (map Some (concat (map se_tab_ids held) ++ map tb_id referring)))
  |}.

(** The ids of the profiles that are stored, held, used or waited for. *)
Definition service_profile_allocations (service_state : ServiceState)
    : list ServiceProfileAllocation :=
  let non_empty := List.filter (fun id => negb (is_empty id)) in
  let profile_ids : gset string :=
    dom (profiles service_state)
    ∪ list_to_set (non_empty (omap se_profile_id (values_of (sessions service_state))))
    ∪ list_to_set (non_empty (omap br_profile_id (values_of (browsers service_state))))
    ∪ list_to_set (omap waiting_profile_lease_profile_id
        (List.filter (fun j => sj_state j == WaitingProfileLease)
           (values_of (jobs service_state)))) in
  map (service_profile_allocation service_state) (btree_set profile_ids).

End leases.

End ProfileLeases.
