(* ===== verification/ProfileTheorems.v ===== *)
(** * What profile selection, leases and their gate guarantee

    The lemmas on ranking, on the sorted sets of ids and on the writes of a launch,
    and the theorems: which profile is selected, when the gate lets a launch pass and
    for how long it may make it wait, that gated launches and expiry never leave two
    sessions with an exclusive lease of one profile, what expiry does, and that
    refreshing readiness is idempotent. *)

From Stdlib Require Import Ascii.
From stdpp Require Import gmap sorting.
From S2P Require Import Prelude RustStr Env ServiceJobs ControlJobs ServiceTabs ProfileSelection ProfileLeases.
Import ServiceJobs ProfileSelection ProfileLeases.

Module ProfileTheorems.

(** ** Comparisons that order *)

Class Cmp {A} (c : A -> A -> comparison) : Prop := {
  cmp_opp : forall x y, c y x = CompOpp (c x y);
  cmp_eq : forall x y z, c x y = Eq -> c x z = c y z;
  cmp_lt : forall x y z, c x y = Lt -> c y z = Lt -> c x z = Lt;
}.

#[export] Instance nat_cmp : Cmp Nat.compare.
Proof.
  split; intros.
  - apply Nat.compare_antisym.
  - apply Nat.compare_eq_iff in H as ->. done.
  - rewrite !Nat.compare_lt_iff in *. lia.
Qed.
#[export] Instance bool_cmp : Cmp Bool.compare.
Proof. split; by intros [] []; try intros []. Qed.
#[export] Instance string_cmp : Cmp String.compare.
Proof.
  split; intros x y.
  - apply String.compare_antisym.
  - intros z ->%String.compare_eq_iff. done.
  - intros z Hxy Hyz.
    assert (str_le x y /\ str_le y z) as [Hle Hle'].
    { unfold str_le, str_leb. by rewrite Hxy, Hyz. }
    pose proof (transitivity Hle Hle') as Hxz. unfold str_le, str_leb in Hxz.
    destruct (String.compare x z) eqn:Hc; [|done|done].
    apply String.compare_eq_iff in Hc as ->.
    rewrite (String.compare_antisym z y), Hyz in Hxy. done.
Qed.

Lemma then_with_cmp {A} (c d : A -> A -> comparison) `{!Cmp c, !Cmp d} :
  Cmp (fun x y => then_with (c x y) (d x y)).
Proof.
  split; intros x y.
  - rewrite (cmp_opp x y), (cmp_opp (c := d) x y). by destruct (c x y).
  - intros z. destruct (c x y) eqn:Hc; cbn; [|done..]. intros Hd.
    by rewrite (cmp_eq x y z Hc), (cmp_eq x y z Hd).
  - intros z. destruct (c x y) eqn:Hxy, (c y z) eqn:Hyz; cbn; try done; intros H1 H2.
    + by rewrite (cmp_eq x y z Hxy), Hyz; cbn; apply (cmp_lt x y z).
    + by rewrite (cmp_eq x y z Hxy), Hyz.
    + assert (c z y = Eq) as Hzy by by rewrite (cmp_opp y z), Hyz.
      assert (c x z = Lt) as ->; [|done].
      by rewrite (cmp_opp z x), (cmp_eq z y x Hzy), (cmp_opp x y), Hxy.
    + by rewrite (cmp_lt x y z).
Qed.
Lemma field_cmp {A B} (f : A -> B) (c : B -> B -> comparison) `{!Cmp c} :
  Cmp (fun x y => c (f x) (f y)).
Proof.
  split; intros.
  - apply cmp_opp.
  - by apply cmp_eq.
  - by eapply cmp_lt.
Qed.
Lemma flip_cmp {A} (c : A -> A -> comparison) `{!Cmp c} : Cmp (fun x y => c y x).
Proof.
  split; intros x y.
  - apply cmp_opp.
  - intros z Hyx. rewrite (cmp_opp y z), (cmp_opp x z). f_equal. symmetry. by apply cmp_eq.
  - intros z Hyx Hzy. by apply (cmp_lt z y x).
Qed.
#[export] Hint Resolve then_with_cmp field_cmp flip_cmp : cmp.

Lemma cmp_total {A} (c : A -> A -> comparison) `{!Cmp c} : Total (fun x y => c x y <> Gt).
Proof. intros x y. rewrite (cmp_opp (c := c) x y). destruct (c x y); cbn; auto. Qed.
Lemma cmp_trans {A} (c : A -> A -> comparison) `{!Cmp c} : Transitive (fun x y => c x y <> Gt).
Proof.
  intros x y z Hxy Hyz. destruct (c x y) eqn:H1; [|clear Hxy|done].
  { by rewrite (cmp_eq x y z). }
  destruct (c y z) eqn:H2; [|by rewrite (cmp_lt x y z)|done].
  assert (c z y = Eq) as Hzy by by rewrite (cmp_opp y z), H2.
  by rewrite (cmp_opp z x), (cmp_eq z y x Hzy), (cmp_opp x y), H1.
Qed.

#[export] Instance rank_cmp_cmp : Cmp rank_cmp.
Proof.
  unfold rank_cmp. repeat apply then_with_cmp.
  all: apply field_cmp; apply _.
Qed.
Lemma ranked_cmp_cmp {R T} (cmp : R -> R -> comparison) `{!Cmp cmp} :
  Cmp (ranked_cmp (T := T) cmp).
Proof.
  unfold ranked_cmp. apply then_with_cmp.
  - pose proof (field_cmp (fun x : R * string * T => x.1.1) cmp) as Hcmp.
    exact (flip_cmp _ (Cmp0 := Hcmp)).
  - exact (field_cmp (fun x : R * string * T => x.1.2) String.compare).
Qed.
#[export] Instance ranked_le_total {R T} (cmp : R -> R -> comparison) `{!Cmp cmp} :
  Total (ranked_le (T := T) cmp).
Proof. apply cmp_total, ranked_cmp_cmp, _. Qed.
#[export] Instance ranked_le_trans {R T} (cmp : R -> R -> comparison) `{!Cmp cmp} :
  Transitive (ranked_le (T := T) cmp).
Proof. apply cmp_trans, ranked_cmp_cmp, _. Qed.

(** ** Sorted sets of ids *)

(** A list that holds exactly the ids with a property, each once, in order. *)
Definition lists_ids (P : string -> Prop) (l : list string) : Prop :=
  (forall x, x ∈ l <-> P x) /\ NoDup l /\ StronglySorted str_le l.

Lemma dedup_cons a b l :
  dedup (a :: b :: l) = if a == b then dedup (b :: l) else a :: dedup (b :: l).
Proof. done. Qed.
Lemma elem_of_dedup x l : x ∈ dedup l <-> x ∈ l.
Proof.
  induction l as [|a [|b l] IH]; [done..|]. rewrite dedup_cons.
  case_bool_decide; subst; [|rewrite !elem_of_cons in *; tauto].
  rewrite IH. set_solver.
Qed.
Lemma dedup_sorted l :
  StronglySorted str_le l -> StronglySorted str_le (dedup l) /\ NoDup (dedup l).
Proof.
  induction l as [|a [|b l] IH]; intros Hs; [split; [done|constructor]|..].
  { split; [done|]. apply NoDup_singleton. }
  rewrite dedup_cons. apply StronglySorted_inv in Hs as [Hs Ha].
  destruct (IH Hs) as [IH1 IH2]. case_bool_decide as Hab; [done|].
  assert (forall x, x ∈ b :: l -> str_le a x) as Hle by (by apply Forall_forall).
  split.
  - constructor; [done|]. apply Forall_forall. intros x Hx. apply Hle.
    by apply elem_of_dedup.
  - constructor; [|done]. intros [Hin|Hin]%elem_of_dedup%elem_of_cons; [done|].
    apply Hab, (anti_symm str_le); [apply Hle; by left|].
    apply StronglySorted_inv in Hs as [_ Hb]. rewrite Forall_forall in Hb. by apply Hb.
Qed.
Lemma sort_dedup_lists l P : (forall x, x ∈ l <-> P x) -> lists_ids P (sort_dedup l).
Proof.
  intros Hl. unfold sort_dedup. split.
  - intros x. by rewrite elem_of_dedup, merge_sort_Permutation.
  - apply and_comm, dedup_sorted, StronglySorted_merge_sort; apply _.
Qed.
Lemma btree_set_lists (s : gset string) P : (forall x, x ∈ s <-> P x) -> lists_ids P (btree_set s).
Proof.
  intros Hs. unfold btree_set. split_and!.
  - intros x. by rewrite merge_sort_Permutation, elem_of_elements.
  - rewrite merge_sort_Permutation. apply NoDup_elements.
  - apply StronglySorted_merge_sort; apply _.
Qed.
Lemma lists_ids_unique P Q l l' :
  (forall x, P x <-> Q x) -> lists_ids P l -> lists_ids Q l' -> l = l'.
Proof.
  intros HPQ (Hl & Hnd & Hs) (Hl' & Hnd' & Hs').
  apply (StronglySorted_unique str_le); [done..|].
  apply NoDup_Permutation; [done..|]. intros x. by rewrite Hl, Hl'.
Qed.
Lemma no_ids_nil l : no_ids l = true <-> l = [].
Proof. by destruct l. Qed.
Lemma lists_none P l : lists_ids P l -> (no_ids l = true <-> forall x, ~ P x).
Proof.
  intros (Hl & _). rewrite no_ids_nil. setoid_rewrite <-Hl. split; [by intros ->; set_solver|].
  destruct l as [|a l]; [done|]. intros Hn. exfalso. apply (Hn a). by left.
Qed.

(** The keys of the entries of a map that pass a test. *)
Lemma elem_of_filtered_keys {A} (f : string * A -> bool) (m : gmap string A) id :
  id ∈ map fst (List.filter f (btree_entries m)) <-> exists a, m !! id = Some a /\ f (id, a) = true.
Proof.
  rewrite list_elem_of_fmap. split.
  - intros ([k a] & -> & Hin). apply list_elem_of_In, filter_In in Hin as [Hin Hf].
    apply list_elem_of_In, elem_of_btree_entries in Hin. by exists a.
  - intros (a & Hm & Hf). exists (id, a). split; [done|].
    apply list_elem_of_In, filter_In. split; [|done].
    by apply list_elem_of_In, elem_of_btree_entries.
Qed.

(** The first element of a sorted list, when no two elements tie. *)
Lemma sorted_head {A} (R : relation A) `{!forall x y, Decision (R x y)} `{!Total R, !Transitive R}
    (l : list A) x :
  (forall y z, y ∈ l -> z ∈ l -> R y z -> R z y -> y = z) ->
  head (merge_sort R l) = Some x <-> x ∈ l /\ forall y, y ∈ l -> R x y.
Proof.
  intros Hanti. pose proof (StronglySorted_merge_sort R l) as Hs.
  pose proof (merge_sort_Permutation R l) as Hp.
  assert (forall y, R y y) as Hrefl by (intros y; by destruct (total R y y)).
  destruct (merge_sort R l) as [|y l'].
  - apply Permutation_nil_l in Hp as <-. set_solver.
  - apply StronglySorted_inv in Hs as [_ Hy]. rewrite Forall_forall in Hy. cbn.
    assert (y ∈ l) as Hin by (rewrite <-Hp; by left).
    assert (forall z, z ∈ l -> R y z) as Hmin.
    { intros z. rewrite <-Hp. intros [->|Hz]%elem_of_cons; [done|by apply Hy]. }
    split; [by intros [= <-]|]. intros [Hx Hle]. f_equal. auto.
Qed.

Section selection.
Context `{!Json, !UrlLib}.
Implicit Types (st : ServiceState) (req : ProfileSelectionRequest).

(** The targets a request asks for: those it names, and the site of its URL. *)
Definition asks st req (target : string) : Prop :=
  target ∈ rq_target_service_ids req
  \/ exists url, rq_target_url req = Some url
       /\ service_site_policy_id_for_url st url = Some target.

(** What ties a profile to a request, by the reason it gives. *)
Definition fits st req (p : BrowserProfile) (why : ProfileSelectionReason) : Prop :=
  match why with
  | ExplicitProfile => False
  | AuthenticatedTarget => exists t, asks st req t /\ t ∈ pf_authenticated_service_ids p
  | AccountMatch => exists a, a ∈ rq_account_ids req /\ a ∈ pf_account_ids p
  | TargetMatch => exists t, asks st req t /\ t ∈ pf_target_service_ids p
  | ServiceAllowList =>
      exists name, rq_service_name req = Some name /\ name ∈ pf_shared_service_ids p
  | BrowserBuildDefault =>
      (exists build, rq_browser_build (effective_profile_selection_request st req) = Some build
        /\ pf_browser_build p = Some build)
      /\ pf_target_service_ids p = [] /\ pf_authenticated_service_ids p = []
      /\ pf_account_ids p = [] /\ pf_site_policy_ids p = []
  end.
Definition strength (why : ProfileSelectionReason) : nat :=
  match why with
  | ExplicitProfile => 0 | BrowserBuildDefault => 1 | ServiceAllowList => 2 | TargetMatch => 3
  | AccountMatch => 4 | AuthenticatedTarget => 5
  end.

(** A profile the service of the request may use. *)
Definition usable_profile st req id p : Prop :=
  profiles st !! id = Some p
  /\ (rq_service_name req = None \/ pf_shared_service_ids p = []
      \/ exists name, rq_service_name req = Some name /\ name ∈ pf_shared_service_ids p).

Definition rank_of st req (p : BrowserProfile) : ProfileSelectionRank :=
  let effective := effective_profile_selection_request st req in
  profile_selection_rank p effective (normalized_profile_request_targets st effective).

Lemma elem_of_one_of x l : one_of x l = true <-> x ∈ l.
Proof. by rewrite one_of_In, list_elem_of_In. Qed.

Lemma effective_fields st req :
  let effective := effective_profile_selection_request st req in
  rq_service_name effective = rq_service_name req
  /\ rq_target_service_ids effective = rq_target_service_ids req
  /\ rq_account_ids effective = rq_account_ids req
  /\ rq_target_url effective = rq_target_url req.
Proof. cbn. unfold effective_profile_selection_request. by destruct (rq_browser_build req). Qed.

Lemma elem_of_merge_unique x l y : x ∈ merge_unique l y <-> x ∈ l \/ x = y.
Proof.
  unfold merge_unique. destruct (one_of y l) eqn:Hy; [|set_solver].
  apply elem_of_one_of in Hy. split; [by left|]. by intros [?| ->].
Qed.

Lemma targets_listed st req :
  lists_ids (asks st req)
    (normalized_profile_request_targets st (effective_profile_selection_request st req)).
Proof.
  destruct (effective_fields st req) as (_ & Hids & _ & Hurl).
  unfold normalized_profile_request_targets. rewrite Hids, Hurl.
  apply sort_dedup_lists. intros x. unfold asks.
  destruct (rq_target_url req) as [url|]; cbn; [|set_solver].
  destruct (service_site_policy_id_for_url st url) as [id|] eqn:Hid; [rewrite elem_of_merge_unique|].
  - split; [intros [?| ->]; [by left|by right; exists url]|].
    intros [?|(url' & [= <-] & Hx)]; [by left|]. right. congruence.
  - split; [by left|]. intros [?|(url' & [= <-] & Hx)]; congruence.
Qed.

Lemma usable_allows st req id p :
  usable_profile st req id p <->
  profiles st !! id = Some p /\ profile_allows_service p (rq_service_name req) = true.
Proof.
  unfold usable_profile, profile_allows_service.
  destruct (rq_service_name req) as [name|]; [|naive_solver].
  destruct (pf_shared_service_ids p) as [|a l]; [naive_solver|].
  rewrite elem_of_one_of. naive_solver.
Qed.

Lemma count_matches_pos held wanted :
  0 < count_matches held wanted <-> exists t, t ∈ wanted /\ t ∈ held.
Proof.
  unfold count_matches. split.
  - intros Hpos. destruct (List.filter _ wanted) as [|t l] eqn:Hf; [cbn in Hpos; lia|].
    assert (In t (List.filter (fun w => one_of w held) wanted)) as Hin by (rewrite Hf; by left).
    apply filter_In in Hin as [Hin Ht]. exists t. by rewrite list_elem_of_In, <-elem_of_one_of.
  - intros (t & Hw & Hh).
    assert (In t (List.filter (fun w => one_of w held) wanted)) as Hin.
    { apply filter_In. by rewrite elem_of_one_of, <-list_elem_of_In. }
    destruct (List.filter _ wanted); [done|cbn; lia].
Qed.

(** The fields of a rank say how the profile fits. *)
Lemma rank_fields st req p :
  (0 < authenticated_target_matches (rank_of st req p) <-> fits st req p AuthenticatedTarget)
  /\ (0 < account_matches (rank_of st req p) <-> fits st req p AccountMatch)
  /\ (0 < target_matches (rank_of st req p) <-> fits st req p TargetMatch)
  /\ (caller_service_match (rank_of st req p) = true <-> fits st req p ServiceAllowList)
  /\ (browser_build_default (rank_of st req p) = true <-> fits st req p BrowserBuildDefault).
Proof.
  destruct (targets_listed st req) as (Htargets & _).
  destruct (effective_fields st req) as (Hsvc & _ & Hacc & _).
  unfold rank_of, profile_selection_rank, fits; cbn [authenticated_target_matches
    account_matches target_matches caller_service_match browser_build_default].
  rewrite Hsvc, Hacc, !count_matches_pos. setoid_rewrite Htargets. split_and!; [done..| |].
  - destruct (rq_service_name req) as [name|]; [rewrite elem_of_one_of|]; naive_solver.
  - rewrite !andb_true_iff, !no_ids_nil.
    destruct (rq_browser_build _) as [build|]; [rewrite bool_decide_eq_true|]; naive_solver.
Qed.

Lemma reason_fits st req p why : reason (rank_of st req p) = Some why -> fits st req p why.
Proof.
  destruct (rank_fields st req p) as (Ha & Hacc & Ht & Hs & Hd). unfold reason.
  destruct (Nat.ltb_spec 0 (authenticated_target_matches (rank_of st req p))) as [H1|_];
    [intros [= <-]; by apply Ha|].
  destruct (Nat.ltb_spec 0 (account_matches (rank_of st req p))) as [H1|_];
    [intros [= <-]; by apply Hacc|].
  destruct (Nat.ltb_spec 0 (target_matches (rank_of st req p))) as [H1|_];
    [intros [= <-]; by apply Ht|].
  destruct (caller_service_match _); [intros [= <-]; by apply Hs|].
  destruct (browser_build_default _); [intros [= <-]; by apply Hd|done].
Qed.

Lemma fits_reason st req p why :
  fits st req p why -> exists r, reason (rank_of st req p) = Some r /\ strength why <= strength r.
Proof.
  destruct (rank_fields st req p) as (Ha & Hacc & Ht & Hs & Hd). unfold reason. intros Hfits.
  assert (fits st req p why -> match why with
    | AuthenticatedTarget => 0 < authenticated_target_matches (rank_of st req p)
    | AccountMatch => 0 < account_matches (rank_of st req p)
    | TargetMatch => 0 < target_matches (rank_of st req p)
    | ServiceAllowList => caller_service_match (rank_of st req p) = true
    | BrowserBuildDefault => browser_build_default (rank_of st req p) = true
    | ExplicitProfile => False
    end) as Hwhy by (destruct why; tauto).
  specialize (Hwhy Hfits). clear Ha Hacc Ht Hs Hd Hfits.
  repeat match goal with
    | |- context [if ?b then _ else _] => destruct b eqn:?; [eexists; split; [done|]|]
    end;
    rewrite ?Nat.ltb_ge in *; destruct why; cbn; first [lia|congruence].
Qed.

(** The entries the ranking sorts. *)
Lemma elem_of_candidates st req flag rank id why :
  (rank, id, why) ∈ selection_candidates st req flag <->
  exists p, usable_profile st req id p /\ rank = rank_of st req p /\ reason rank = Some why
    /\ (flag = true \/ why <> BrowserBuildDefault).
Proof.
  unfold selection_candidates. rewrite list_elem_of_omap. split.
  - intros ([id' p] & Hin & Hsome). apply list_elem_of_In, filter_In in Hin as [Hin Hallow].
    apply list_elem_of_In, elem_of_btree_entries in Hin. cbn in Hallow.
    rewrite (proj1 (effective_fields st req)) in Hallow.
    apply bind_Some in Hsome as (why' & Hr & Hif). case_match eqn:Hflag; simplify_eq.
    exists p. rewrite usable_allows. split_and!; [done..|].
    rewrite orb_true_iff, negb_true_iff, bool_decide_eq_false in Hflag. done.
  - intros (p & Husable & -> & Hr & Hflag). apply usable_allows in Husable as [Hp Hallow].
    exists (id, p). split.
    + apply list_elem_of_In, filter_In. rewrite (proj1 (effective_fields st req)).
      split; [|done]. by apply list_elem_of_In, elem_of_btree_entries.
    + unfold rank_of in Hr. cbn. rewrite Hr. cbn.
      destruct Hflag as [-> | Hne]; [done|]. by rewrite bool_decide_eq_false_2, orb_true_r.
Qed.

(** No two of them tie. *)
Lemma candidates_antisym st req flag x y :
  x ∈ selection_candidates st req flag -> y ∈ selection_candidates st req flag ->
  ranked_le rank_cmp x y -> ranked_le rank_cmp y x -> x = y.
Proof.
  destruct x as [[r id] why], y as [[r' id'] why'].
  intros (p & [Hp _] & -> & Hr & _)%elem_of_candidates
    (p' & [Hp' _] & -> & Hr' & _)%elem_of_candidates Hxy Hyx.
  assert (String.compare id id' = Eq) as ->%String.compare_eq_iff; [|by simplify_eq].
  unfold ranked_le, ranked_cmp in *; cbn in *. revert Hxy Hyx.
  rewrite (cmp_opp (c := rank_cmp) (rank_of st req p) (rank_of st req p')),
    (cmp_opp (c := String.compare) id id').
  destruct (rank_cmp _ _); cbn; [|done..]. by destruct (String.compare id id').
Qed.

Lemma selected_first st req id why :
  select_service_profile_for_request st req = Some {| sel_profile_id := id; sel_reason := why |} <->
  exists rank, head (merge_sort (ranked_le rank_cmp) (selection_candidates st req true))
    = Some (rank, id, why).
Proof.
  unfold select_service_profile_for_request, rank_service_profiles_for_request.
  destruct (merge_sort _ _) as [|[[r i] w] l]; cbn; [naive_solver|].
  split; [intros [= -> ->]; by exists r|]. by intros (r' & [= -> -> ->]).
Qed.

(** The profile selected for a request is the one of highest rank among those the
    service may use and that fit, and of the smallest id among those; there is one
    as soon as any profile fits. *)
Theorem selection_best st req id why :
  select_service_profile_for_request st req = Some {| sel_profile_id := id; sel_reason := why |} <->
  exists p, usable_profile st req id p /\ reason (rank_of st req p) = Some why /\
    forall id' p' why', usable_profile st req id' p' -> reason (rank_of st req p') = Some why' ->
      rank_cmp (rank_of st req p) (rank_of st req p') = Gt
      \/ rank_cmp (rank_of st req p) (rank_of st req p') = Eq /\ str_le id id'.
Proof.
  rewrite selected_first.
  setoid_rewrite (fun x => sorted_head (ranked_le rank_cmp) (selection_candidates st req true) x
                             (candidates_antisym st req true)).
  assert (forall p p' id' (w w' : ProfileSelectionReason), ranked_le rank_cmp (rank_of st req p, id, w) (rank_of st req p', id', w')
    <-> rank_cmp (rank_of st req p) (rank_of st req p') = Gt
      \/ rank_cmp (rank_of st req p) (rank_of st req p') = Eq /\ str_le id id') as Hle.
  { intros p p' id' w w'. unfold ranked_le, ranked_cmp, str_le, str_leb. cbn.
    rewrite (cmp_opp (c := rank_cmp) (rank_of st req p) (rank_of st req p')).
    destruct (rank_cmp _ _); cbn; [destruct (String.compare id id')|..]; naive_solver. }
  split.
  - intros (r & (p & Hu & -> & Hr & _)%elem_of_candidates & Hmin). exists p. split_and!; [done..|].
    intros id' p' why' Hu' Hr'. apply (Hle p p' id' why why'), Hmin, elem_of_candidates. exists p'. auto.
  - intros (p & Hu & Hr & Hmin). exists (rank_of st req p). split.
    { apply elem_of_candidates. exists p. auto. }
    intros [[r' id'] why'] (p' & Hu' & -> & Hr' & _)%elem_of_candidates. apply Hle. eauto.
Qed.

(** One key of [rank_cmp]: equal on both sides it decides nothing, else the greater one wins. *)
Ltac field_step Ha Hb Hcmp f a b :=
  destruct (Nat.compare_spec (f a) (f b)) as [Heq| |]; cbn [then_with] in Hcmp;
  [rewrite Heq in Ha; clear Heq; destruct (Nat.ltb_spec 0 (f b)); [simplify_eq; cbn; lia|]
  |done
  |rewrite (proj2 (Nat.ltb_lt 0 (f a))) in Ha by lia; simplify_eq;
   repeat case_match; simplify_eq; cbn; lia].

(** A higher rank never has a weaker reason. *)
Lemma rank_reason_mono a b why why' :
  reason a = Some why -> reason b = Some why' -> rank_cmp a b <> Lt -> strength why' <= strength why.
Proof.
  unfold reason, rank_cmp. intros Ha Hb Hcmp.
  field_step Ha Hb Hcmp authenticated_target_matches a b.
  field_step Ha Hb Hcmp account_matches a b.
  field_step Ha Hb Hcmp target_matches a b.
  destruct (caller_service_match a), (caller_service_match b); cbn in Hcmp; simplify_eq;
    repeat case_match; simplify_eq; cbn; try lia; done.
Qed.

(** What ties the selected profile to the request is the strongest tie any usable
    profile has to it: authentication for a target goes before an account, an account
    before a target, a target before the allow-list of a service, and only where none
    of these ties any profile to the request is a generic profile taken. *)
Theorem selection_strongest st req :
  (forall s, select_service_profile_for_request st req = Some s ->
     exists p, usable_profile st req (sel_profile_id s) p /\ fits st req p (sel_reason s)) /\
  (forall id p why, usable_profile st req id p -> fits st req p why ->
     exists s, select_service_profile_for_request st req = Some s
       /\ strength why <= strength (sel_reason s)).
Proof.
  split.
  - intros [id why] (r & Hh)%selected_first.
    apply (sorted_head _ _ _ (candidates_antisym st req true)) in Hh as [Hin _].
    apply elem_of_candidates in Hin as (p & Hu & -> & Hr & _). exists p. split; [done|].
    by apply reason_fits.
  - intros id p why Hu (r & Hr & Hle)%fits_reason.
    assert ((rank_of st req p, id, r) ∈ selection_candidates st req true) as Hin.
    { apply elem_of_candidates. exists p. auto. }
    destruct (head (merge_sort (ranked_le rank_cmp) (selection_candidates st req true)))
      as [[[r1 id1] why1]|] eqn:Hh.
    + exists {| sel_profile_id := id1; sel_reason := why1 |}. split.
      { apply selected_first. by exists r1. }
      apply (sorted_head _ _ _ (candidates_antisym st req true)) in Hh as [Hin1 Hmin].
      apply elem_of_candidates in Hin1 as (p1 & Hu1 & -> & Hr1 & _).
      etransitivity; [exact Hle|]. apply (rank_reason_mono _ _ _ _ Hr1 Hr).
      specialize (Hmin _ Hin). unfold ranked_le, ranked_cmp in Hmin. cbn in Hmin.
      rewrite (cmp_opp (c := rank_cmp) (rank_of st req p1) (rank_of st req p)) in Hmin.
      by destruct (rank_cmp (rank_of st req p1) _).
    + exfalso. rewrite <-(merge_sort_Permutation (ranked_le rank_cmp)) in Hin.
      destruct (merge_sort _ _); [by apply elem_of_nil in Hin|done].
Qed.

End selection.

Section leases.
Context `{!Json, !JsonTree, !UrlLib, !Chrono}.
Implicit Types (st : ServiceState).

(** ** Who holds a profile *)

(** The session is active in a browser of the profile that the other one drives. *)
Definition shares_browser st (session_id profile_id : string) (other : BrowserSession) : Prop :=
  exists id b, id ∈ se_browser_ids other /\ browsers st !! id = Some b
    /\ br_profile_id b = Some profile_id /\ session_id ∈ br_active_session_ids b.

(** Another session holds the profile exclusively, in browsers of its own. *)
Definition rival st (session_id profile_id other_id : string) : Prop :=
  exists other, sessions st !! other_id = Some other /\ other_id <> session_id
    /\ se_profile_id other = Some profile_id /\ se_lease other = ServiceTabs.Exclusive
    /\ ~ shares_browser st session_id profile_id other.

Lemma elem_of_owned st S P id :
  id ∈ current_owned_browser_ids st S P <->
  exists b, browsers st !! id = Some b /\ br_profile_id b = Some P /\ S ∈ br_active_session_ids b.
Proof.
  unfold current_owned_browser_ids. rewrite elem_of_filtered_keys. cbn.
  setoid_rewrite andb_true_iff. setoid_rewrite bool_decide_eq_true.
  setoid_rewrite elem_of_one_of. naive_solver.
Qed.

Lemma shares_browser_owned st S P other :
  existsb (fun id => one_of id (current_owned_browser_ids st S P)) (se_browser_ids other) = true
  <-> shares_browser st S P other.
Proof.
  rewrite existsb_exists. unfold shares_browser. setoid_rewrite elem_of_one_of.
  setoid_rewrite elem_of_owned. setoid_rewrite <-list_elem_of_In. naive_solver.
Qed.

Lemma conflicts_listed st S P :
  lists_ids (rival st S P) (conflict_session_ids (profile_lease_telemetry st S P)).
Proof.
  apply sort_dedup_lists. intros x. rewrite elem_of_filtered_keys.
  unfold conflicts_with, rival. cbn.
  setoid_rewrite andb_true_iff. setoid_rewrite andb_true_iff. setoid_rewrite andb_true_iff.
  setoid_rewrite negb_true_iff. setoid_rewrite bool_decide_eq_false.
  setoid_rewrite bool_decide_eq_true. setoid_rewrite <-not_true_iff_false.
  setoid_rewrite shares_browser_owned. naive_solver.
Qed.

Lemma disposition_conflict st S P :
  disposition (profile_lease_telemetry st S P) = ActiveLeaseConflict <->
  no_ids (conflict_session_ids (profile_lease_telemetry st S P)) = false.
Proof. cbn. by destruct (no_ids (sort_dedup _)), (no_ids (current_owned_browser_ids st S P)). Qed.

Lemma conflicts_in_state st S P :
  service_profile_lease_conflict_session_ids_in_state st S P =
  conflict_session_ids (profile_lease_telemetry st S P).
Proof.
  unfold service_profile_lease_conflict_session_ids_in_state. case_bool_decide as Hd; [done|].
  rewrite disposition_conflict, not_false_iff_true, no_ids_nil in Hd. done.
Qed.

(** What a launch with a profile writes on its session: the exclusive lease, and the
    rivals it has at that moment. *)
Lemma upsert_session now st S P m :
  exists s, sessions (upsert_service_profile_and_session now st S (Some P) m) !! S = Some s
    /\ se_profile_id s = Some P /\ se_lease s = ServiceTabs.Exclusive
    /\ se_last_lease_observed_at s = Some now
    /\ lists_ids (rival st S P) (se_profile_lease_conflict_session_ids s)
    /\ (se_profile_lease_disposition s = Some ActiveLeaseConflict <-> exists c, rival st S P c).
Proof.
  unfold upsert_service_profile_and_session. cbn [or_else].
  set (st' := upsert_profile P m st). cbn [set_sessions sessions]. rewrite lookup_insert_eq. eexists. split; [done|].
  assert (forall x, rival st' S P x <-> rival st S P x) as Hsame by done.
  pose proof (conflicts_listed st S P) as Hl. split_and!; [done..|].
  change (Some (disposition (profile_lease_telemetry st S P)) = Some ActiveLeaseConflict
    <-> exists c, rival st S P c).
  assert (forall x y : ProfileLeaseDisposition, Some x = Some y <-> x = y) as -> by naive_solver.
  rewrite disposition_conflict, <-not_true_iff_false, (lists_none _ _ Hl).
  destruct Hl as (Hl & _). destruct (conflict_session_ids (profile_lease_telemetry st S P)) as [|c l].
  - split; [|naive_solver]. intros Hn. exfalso. apply Hn. intros x Hx%Hl. by apply elem_of_nil in Hx.
  - split; [|naive_solver]. intros _. exists c. apply Hl. by left.
Qed.

Lemma upsert_other now st S P m c :
  c <> S -> sessions (upsert_service_profile_and_session now st S P m) !! c = sessions st !! c.
Proof.
  intros Hne. unfold upsert_service_profile_and_session. cbn.
  rewrite lookup_insert_ne by done. by destruct P.
Qed.
Lemma upsert_browsers now st S P m :
  browsers (upsert_service_profile_and_session now st S P m) = browsers st.
Proof. by destruct P. Qed.

(** ** The gate *)

Section gate.
Variable env_var : string -> option string.
Variable home_dir : option string.
Implicit Types (load : Snapshots) (command : value).

Definition lease_metadata load command : option ServiceLaunchMetadata :=
  service_profile_lease_metadata_for_command env_var home_dir (for_selection load) command.
Definition lease_gate load command session_id waited_ms : res ControlJobs.ServiceProfileLeaseGate :=
  service_profile_lease_gate env_var home_dir load command session_id waited_ms.

(** A live browser of the profile in which the session is not active. *)
Definition live_lane load (session_id profile_id browser_id : string) : Prop :=
  exists st b, for_lanes load = Ok st /\ browsers st !! browser_id = Some b
    /\ br_profile_id b = Some profile_id
    /\ service_browser_health_counts_as_live (br_health b) = true
    /\ browser_id <> ("session:" +:+ session_id) /\ session_id ∉ br_active_session_ids b.
(** The command names the browser or the session it goes to, or asks for a lane of its
    own. *)
Definition routed command : Prop :=
  allow_duplicate_profile_lane_from_command command = true
  \/ is_some (jget command "browserId") = true \/ is_some (jget command "sessionName") = true.
Definition loaded_rival load (session_id profile_id other_id : string) : Prop :=
  exists st, for_leases load = Ok st /\ rival st session_id profile_id other_id.

Lemma lanes_listed load S P :
  lists_ids (live_lane load S P) (service_profile_live_reusable_browser_ids (for_lanes load) S P).
Proof.
  unfold service_profile_live_reusable_browser_ids, live_lane.
  destruct (for_lanes load) as [st|e].
  - apply sort_dedup_lists. intros x. rewrite elem_of_filtered_keys. cbn.
    setoid_rewrite andb_true_iff. setoid_rewrite andb_true_iff. setoid_rewrite andb_true_iff.
    setoid_rewrite negb_true_iff. setoid_rewrite bool_decide_eq_false.
    setoid_rewrite bool_decide_eq_true. setoid_rewrite <-not_true_iff_false.
    setoid_rewrite elem_of_one_of. unfold service_browser_id_for_session. naive_solver.
  - split; [intros x; split; [by intros ?%elem_of_nil|naive_solver]|]. split; constructor.
Qed.

Lemma loaded_conflicts_listed load S P :
  lists_ids (loaded_rival load S P)
    (service_profile_lease_conflict_session_ids (for_leases load) S P).
Proof.
  unfold service_profile_lease_conflict_session_ids, loaded_rival.
  destruct (for_leases load) as [st|e].
  - rewrite conflicts_in_state. destruct (conflicts_listed st S P) as (Hl & Hrest).
    split; [|done]. intros x. rewrite Hl. naive_solver.
  - split; [intros x; split; [by intros ?%elem_of_nil|naive_solver]|]. split; constructor.
Qed.

(** The lane check as the gate makes it. *)
Lemma lane_blocked load command S P :
  negb (no_ids (service_profile_live_reusable_browser_ids (for_lanes load) S P))
    && negb (allow_duplicate_profile_lane_from_command command)
    && negb (is_some (jget command "browserId"))
    && negb (is_some (jget command "sessionName")) = false
  <-> routed command \/ forall b, ~ live_lane load S P b.
Proof.
  rewrite <-(lists_none _ _ (lanes_listed load S P)). unfold routed.
  destruct (no_ids _), (allow_duplicate_profile_lane_from_command command),
    (is_some (jget command "browserId")), (is_some (jget command "sessionName")); cbn; naive_solver.
Qed.

(** When the gate is ready, waits, or fails. *)
Lemma gate_cases load command S waited_ms m P
    (Hm : lease_metadata load command = Some m) (HP : lm_profile_id m = Some P) :
  let free := routed command \/ forall b, ~ live_lane load S P b in
  (lease_gate load command S waited_ms = Ok ControlJobs.GateReady <->
     free /\ is_ok (profile_lease_policy_from_command command) = true
     /\ is_ok (profile_lease_wait_timeout_ms_from_command command) = true
     /\ forall c, ~ loaded_rival load S P c) /\
  (forall ms p ids, lease_gate load command S waited_ms = Ok (ControlJobs.GateWait ms p ids) <->
     free /\ profile_lease_policy_from_command command = Ok PolicyWait
     /\ (exists t, profile_lease_wait_timeout_ms_from_command command = Ok t
           /\ (unwrap_or waited_ms 0 < t)%Z)
     /\ ms = 250%Z /\ p = P /\ lists_ids (loaded_rival load S P) ids
     /\ exists c, loaded_rival load S P c) /\
  (is_ok (lease_gate load command S waited_ms) = false <->
     free /\ (is_ok (profile_lease_policy_from_command command) = false
              \/ is_ok (profile_lease_wait_timeout_ms_from_command command) = false)).
Proof.
  intros free. unfold lease_gate, service_profile_lease_gate.
  unfold lease_metadata in Hm. rewrite Hm, HP. cbn zeta.
  pose proof (lane_blocked load command S P) as Hlane. fold free in Hlane.
  destruct (_ && _) eqn:Hblocked.
  { assert (~ free) by (intros Hf; by apply Hlane in Hf). cbn. naive_solver. }
  assert free as Hfree by by apply Hlane. clear Hlane Hblocked.
  destruct (profile_lease_policy_from_command command) as [policy|e]; [|cbn; naive_solver].
  destruct (profile_lease_wait_timeout_ms_from_command command) as [t|e];
    [|cbn; naive_solver].
  cbn. pose proof (loaded_conflicts_listed load S P) as Hl.
  pose proof (lists_none _ _ Hl) as Hnone.
  destruct (service_profile_lease_conflict_session_ids (for_leases load) S P) as [|c l] eqn:Hc; cbn.
  { assert (forall c, ~ loaded_rival load S P c) as Hno by by apply Hnone. naive_solver. }
  assert (loaded_rival load S P c) as Hrival by (apply (proj1 Hl); by left).
  assert (forall ids, lists_ids (loaded_rival load S P) ids <-> ids = c :: l) as Hids.
  { intros ids. split; [|by intros ->]. intros Hids. by eapply lists_ids_unique. }
  destruct policy; cbn; [|destruct (Z.leb_spec t (unwrap_or waited_ms 0%Z))].
  all: setoid_rewrite Hids; unfold PROFILE_LEASE_WAIT_POLL_MS; naive_solver lia.
Qed.

(** What it rejects, and with which text. *)
Lemma gate_rejects load command S waited_ms m P
    (Hm : lease_metadata load command = Some m) (HP : lm_profile_id m = Some P) error :
  lease_gate load command S waited_ms = Ok (ControlJobs.GateReject error) <->
  (~ (routed command \/ forall b, ~ live_lane load S P b)
   /\ exists ids, lists_ids (live_lane load S P) ids
        /\ error = service_duplicate_profile_lane_error m P ids)
  \/ (routed command \/ forall b, ~ live_lane load S P b)
   /\ exists t ids, profile_lease_wait_timeout_ms_from_command command = Ok t
        /\ lists_ids (loaded_rival load S P) ids /\ (exists c, loaded_rival load S P c)
        /\ (profile_lease_policy_from_command command = Ok PolicyReject
              /\ error = service_profile_lease_conflict_error m P ids None
            \/ profile_lease_policy_from_command command = Ok PolicyWait
              /\ (t <= unwrap_or waited_ms 0)%Z
              /\ error = service_profile_lease_conflict_error m P ids (Some t)).
Proof.
  unfold lease_gate, service_profile_lease_gate.
  unfold lease_metadata in Hm. rewrite Hm, HP. cbn zeta.
  pose proof (lane_blocked load command S P) as Hlane.
  set (free := routed command \/ forall b, ~ live_lane load S P b) in *.
  destruct (_ && _) eqn:Hblocked.
  { assert (~ free) as Hnot by (intros Hf; by apply Hlane in Hf).
    pose proof (lanes_listed load S P) as Hl. split.
    - intros [= <-]. left. split; [done|]. by eexists.
    - intros [(_ & ids & Hids & ->)|[Hf _]]; [|done].
      by rewrite (lists_ids_unique _ _ _ _ (fun x => iff_refl _) Hl Hids). }
  assert free as Hfree by by apply Hlane. clear Hlane Hblocked.
  destruct (profile_lease_policy_from_command command) as [policy|e]; [|cbn; naive_solver].
  destruct (profile_lease_wait_timeout_ms_from_command command) as [t|e]; [|cbn; naive_solver].
  cbn. pose proof (loaded_conflicts_listed load S P) as Hl.
  pose proof (lists_none _ _ Hl) as Hnone.
  destruct (service_profile_lease_conflict_session_ids (for_leases load) S P) as [|c l] eqn:Hc; cbn.
  { assert (forall c, ~ loaded_rival load S P c) as Hno by by apply Hnone. naive_solver. }
  assert (loaded_rival load S P c) as Hrival by (apply (proj1 Hl); by left).
  assert (forall ids, lists_ids (loaded_rival load S P) ids <-> ids = c :: l) as Hids.
  { intros ids. split; [|by intros ->]. intros Hids. by eapply lists_ids_unique. }
  setoid_rewrite Hids.
  destruct policy; cbn -[service_profile_lease_conflict_error];
    [|destruct (Z.leb_spec t (unwrap_or waited_ms 0%Z)) as [Hle|Hlt]].
  - split.
    + intros [= <-]. right. split; [done|]. exists t, (c :: l). split_and!; [done..|by exists c|by left].
    + by intros [[Hnot _]|(_ & t' & ids & _ & -> & _ & [[_ ->]|[? _]])].
  - split.
    + intros [= <-]. right. split; [done|]. exists t, (c :: l). split_and!; [done..|by exists c|by right].
    + by intros [[Hnot _]|(_ & t' & ids & [= <-] & -> & _ & [[? _]|(_ & _ & ->)])].
  - split; [done|].
    intros [[Hnot _]|(_ & t' & ids & [= <-] & -> & _ & [[? _]|(_ & Hle & _)])]; [done|done|lia].
Qed.

(** C11. The gate passes a launch exactly when no live browser of the profile is left to
    reuse, or the command is routed, its lease policy is well formed and no rival holds
    the profile; it makes the launch wait exactly when, with a rival, the command asks
    to wait and has not waited out its time; it answers with the rivals, in order; it
    rejects, naming the browsers to reuse or the rivals in order and the time that was
    waited, in every other case but a malformed policy, on which alone it fails. *)
Theorem lease_gate_spec load command S waited_ms m P
    (Hm : lease_metadata load command = Some m) (HP : lm_profile_id m = Some P) :
  let free := routed command \/ forall b, ~ live_lane load S P b in
  (lease_gate load command S waited_ms = Ok ControlJobs.GateReady <->
     free /\ is_ok (profile_lease_policy_from_command command) = true
     /\ is_ok (profile_lease_wait_timeout_ms_from_command command) = true
     /\ forall c, ~ loaded_rival load S P c) /\
  (forall ms p ids, lease_gate load command S waited_ms = Ok (ControlJobs.GateWait ms p ids) <->
     free /\ profile_lease_policy_from_command command = Ok PolicyWait
     /\ (exists t, profile_lease_wait_timeout_ms_from_command command = Ok t
           /\ (unwrap_or waited_ms 0 < t)%Z)
     /\ ms = 250%Z /\ p = P /\ lists_ids (loaded_rival load S P) ids
     /\ exists c, loaded_rival load S P c) /\
  (forall error, lease_gate load command S waited_ms = Ok (ControlJobs.GateReject error) <->
     (~ free /\ exists ids, lists_ids (live_lane load S P) ids
        /\ error = service_duplicate_profile_lane_error m P ids)
     \/ free /\ exists t ids, profile_lease_wait_timeout_ms_from_command command = Ok t
        /\ lists_ids (loaded_rival load S P) ids /\ (exists c, loaded_rival load S P c)
        /\ (profile_lease_policy_from_command command = Ok PolicyReject
              /\ error = service_profile_lease_conflict_error m P ids None
            \/ profile_lease_policy_from_command command = Ok PolicyWait
              /\ (t <= unwrap_or waited_ms 0)%Z
              /\ error = service_profile_lease_conflict_error m P ids (Some t))) /\
  (is_ok (lease_gate load command S waited_ms) = false <->
     free /\ (is_ok (profile_lease_policy_from_command command) = false
              \/ is_ok (profile_lease_wait_timeout_ms_from_command command) = false)).
Proof.
  destruct (gate_cases load command S waited_ms m P Hm HP) as (Hready & Hwait & Herr).
  split_and!; [exact Hready|exact Hwait| |exact Herr]. intros error. by apply gate_rejects.
Qed.

(** A repository that cannot be read holds no launch back. *)
Lemma gate_fails_open load command S waited_ms e e' :
  for_lanes load = Err e -> for_leases load = Err e' ->
  is_ok (profile_lease_policy_from_command command) = true ->
  is_ok (profile_lease_wait_timeout_ms_from_command command) = true ->
  lease_gate load command S waited_ms = Ok ControlJobs.GateReady.
Proof.
  intros Hlanes Hleases Hpolicy Ht.
  destruct (lease_metadata load command) as [m|] eqn:Hm; [destruct (lm_profile_id m) as [P|] eqn:HP|].
  - apply (gate_cases load command S waited_ms m P Hm HP). unfold live_lane, loaded_rival.
    rewrite Hlanes, Hleases. naive_solver.
  - unfold lease_gate, service_profile_lease_gate. unfold lease_metadata in Hm. by rewrite Hm, HP.
  - unfold lease_gate, service_profile_lease_gate. unfold lease_metadata in Hm. by rewrite Hm.
Qed.

End gate.

(** ** Expiry *)

Lemma foldl_alter_lookup {A} (f : A -> A) (ids : list string) (m : gmap string A) id :
  NoDup ids ->
  foldl (fun m id => alter f id m) m ids !! id
    = (if one_of id ids then f else fun a => a) <$> m !! id.
Proof.
  revert m. induction ids as [|i ids IH]; intros m Hnd; cbn; [by destruct (m !! id)|].
  apply NoDup_cons in Hnd as [Hi Hnd]. rewrite IH by done. fold (one_of id ids).
  case_bool_decide as Hid; subst; cbn.
  - rewrite lookup_alter_eq. assert (one_of i ids = false) as ->; [|by destruct (m !! i)].
    apply not_true_iff_false. by rewrite elem_of_one_of.
  - rewrite lookup_alter_ne by done. done.
Qed.

(** The keys a test selects, in the order of the map. *)
Lemma keys_listed {A} (m : gmap string A) (f : string * A -> bool) :
  lists_ids (fun id => exists a, m !! id = Some a /\ f (id, a) = true)
    (map fst (List.filter f (btree_entries m))).
Proof.
  split; [intros id; apply elem_of_filtered_keys|].
  assert (NoDup (map fst (btree_entries m))) as Hnd.
  { unfold btree_entries. rewrite merge_sort_Permutation. apply NoDup_fst_map_to_list. }
  assert (StronglySorted entry_le (btree_entries m)) as Hs.
  { apply StronglySorted_merge_sort.
    - intros x y z. unfold entry_le. apply transitivity.
    - intros x y. unfold entry_le. apply total, _. }
  assert (forall x l, x ∈ map fst (List.filter f l) -> x ∈ map (A := string * A) fst l) as Hsub.
  { intros x l (q & -> & Hq)%list_elem_of_fmap. apply list_elem_of_fmap. exists q.
    split; [done|]. apply list_elem_of_In in Hq. apply filter_In in Hq as [Hq _].
    by apply list_elem_of_In. }
  revert Hnd Hs. generalize (btree_entries m) as l. induction l as [|[k a] l IH]; cbn.
  { split; constructor. }
  intros [Hk Hnd]%NoDup_cons [Hs Ha]%StronglySorted_inv. destruct (IH Hnd Hs) as [IH1 IH2].
  destruct (f (k, a)); cbn; [|done]. split; constructor; [by intros ?%Hsub|done|done|].
  apply Forall_forall. intros x (q & -> & Hq)%Hsub%list_elem_of_fmap.
  rewrite Forall_forall in Ha. by apply (Ha q).
Qed.

Lemma apply_builtin_keeps st :
  profiles (apply_builtin_site_policies st) = profiles st
  /\ browsers (apply_builtin_site_policies st) = browsers st
  /\ sessions (apply_builtin_site_policies st) = sessions st
  /\ tabs (apply_builtin_site_policies st) = tabs st
  /\ jobs (apply_builtin_site_policies st) = jobs st.
Proof.
  unfold apply_builtin_site_policies. generalize builtin_site_policies as l. intros l.
  revert st. induction l as [|p l IH]; intros st; cbn; [done|].
  destruct (IH (add_policy st p)) as (-> & -> & -> & -> & ->). unfold add_policy.
  by destruct (site_policies st !! sp_id p).
Qed.
Lemma refresh_keeps st :
  browsers (refresh_profile_readiness st) = browsers st
  /\ sessions (refresh_profile_readiness st) = sessions st
  /\ tabs (refresh_profile_readiness st) = tabs st /\ jobs (refresh_profile_readiness st) = jobs st.
Proof.
  destruct (apply_builtin_keeps st) as (_ & Hb & Hs & Ht & Hj).
  exact (conj Hb (conj Hs (conj Ht Hj))).
Qed.

(** An active lease past its deadline, or whose browsers are all gone. *)
Definition stale st (now : string) (s : BrowserSession) : Prop :=
  se_lease s <> ServiceTabs.Released /\ se_lease s <> ServiceTabs.Expired
  /\ ((exists e t t', se_expires_at s = Some e /\ parse_from_rfc3339 e = Ok t
         /\ parse_from_rfc3339 now = Ok t' /\ (t <= t')%Z)
      \/ se_browser_ids s <> [] /\ forall id, id ∈ se_browser_ids s -> browsers st !! id = None).

Lemma lease_stale_iff st now s : lease_is_stale st now s = true <-> stale st now s.
Proof.
  unfold lease_is_stale, stale. destruct (is_inactive_lease (se_lease s)) eqn:Hi.
  { split; [done|]. destruct (se_lease s); naive_solver. }
  rewrite orb_true_iff, andb_true_iff, forallb_forall, negb_true_iff, <-not_true_iff_false, no_ids_nil.
  setoid_rewrite <-list_elem_of_In. setoid_rewrite negb_true_iff.
  assert (forall id, is_some (browsers st !! id) = false <-> browsers st !! id = None) as Hnone
    by (intros id; by destruct (browsers st !! id)).
  setoid_rewrite Hnone. unfold service_timestamp_is_due.
  assert (match se_expires_at s with
     | Some e => match parse_from_rfc3339 e with
         | Ok c => match parse_from_rfc3339 now with Ok o => (c <=? o)%Z | Err _ => false end
         | Err _ => false end
     | None => false end = true <->
     exists e t t', se_expires_at s = Some e /\ parse_from_rfc3339 e = Ok t
       /\ parse_from_rfc3339 now = Ok t' /\ (t <= t')%Z) as ->.
  { split.
    - destruct (se_expires_at s) as [e|]; [|done].
      destruct (parse_from_rfc3339 e) as [t|] eqn:He; [|done].
      destruct (parse_from_rfc3339 now) as [t'|] eqn:Hn; [|done].
      intros Hle%Z.leb_le. by exists e, t, t'.
    - intros (e & t & t' & -> & -> & -> & Hle). by apply Z.leb_le. }
  destruct (se_lease s); naive_solver.
Qed.

Lemma lists_ids_iff P Q l : (forall x, P x <-> Q x) -> lists_ids P l -> lists_ids Q l.
Proof. intros HPQ (Hl & Hrest). split; [|done]. intros x. by rewrite Hl. Qed.

Lemma stale_listed st now :
  lists_ids (fun id => exists s, sessions st !! id = Some s /\ stale st now s)
    (map fst (List.filter (fun p => lease_is_stale st now p.2) (btree_entries (sessions st)))).
Proof.
  eapply lists_ids_iff; [|apply keys_listed]. intros id. cbn. by setoid_rewrite lease_stale_iff.
Qed.

Lemma expire_none st now :
  (forall id s, sessions st !! id = Some s -> ~ stale st now s) ->
  expire_stale_session_leases now st = ([], st).
Proof.
  intros Hfresh. pose proof (stale_listed st now) as (Hl & _).
  unfold expire_stale_session_leases. cbn zeta.
  destruct (map fst (List.filter _ (btree_entries (sessions st)))) as [|i l]; [done|]. exfalso.
  destruct (proj1 (Hl i)) as (s & Hs & Hst); [by left|]. by apply (Hfresh i s).
Qed.

(** The state after a call that expires some lease. *)
Lemma expire_some st now ids st' :
  expire_stale_session_leases now st = (ids, st') -> ids <> [] ->
  (forall id, sessions st' !! id =
     (if one_of id ids then expire_session now else fun s => s) <$> sessions st !! id) /\
  (forall id, browsers st' !! id =
     retain_sessions (fun sid => negb (one_of sid ids)) <$> browsers st !! id) /\
  tabs st' = tabs st /\ jobs st' = jobs st.
Proof.
  unfold expire_stale_session_leases. cbn zeta.
  pose proof (stale_listed st now) as (_ & Hnd & _).
  destruct (map fst (List.filter _ (btree_entries (sessions st)))) as [|i l]; [by intros [= <- <-]|].
  intros [= <- <-] _.
  match goal with |- context [refresh_profile_readiness ?x] =>
    destruct (refresh_keeps x) as (Hb & Hs & Ht & Hj) end.
  rewrite Hb, Hs, Ht, Hj. cbn [sessions browsers tabs jobs set_browsers set_sessions].
  split_and!; [|intros id; apply lookup_fmap|done|done].
  intros id. apply (foldl_alter_lookup (expire_session now) (i :: l) (sessions st) id Hnd).
Qed.

Lemma retain_all b : retain_sessions (fun sid => negb (one_of sid [])) b = b.
Proof.
  destruct b as [? ? ? ? ? ? active]. unfold retain_sessions. cbn. f_equal.
  induction active as [|a l IH]; cbn; [done|]. by rewrite IH.
Qed.

Lemma elem_of_filter_list {A} (f : A -> bool) l x : x ∈ List.filter f l <-> x ∈ l /\ f x = true.
Proof. by rewrite !list_elem_of_In, filter_In. Qed.

(** Every stale lease expires and no other: the list names the sessions expired, each
    keeps its profile and browsers, every other session is untouched, an expired
    session is active in no browser any more, no browser, tab or job record is lost,
    and a second call at the same time expires nothing. *)
Theorem expire_spec st now ids st'
    (Hrun : expire_stale_session_leases now st = (ids, st')) :
  lists_ids (fun id => exists s, sessions st !! id = Some s /\ stale st now s) ids /\
  (forall id, sessions st' !! id =
     (if one_of id ids then expire_session now else fun s => s) <$> sessions st !! id) /\
  (forall id, browsers st' !! id =
     retain_sessions (fun sid => negb (one_of sid ids)) <$> browsers st !! id) /\
  tabs st' = tabs st /\ jobs st' = jobs st /\
  (expire_stale_session_leases now st').1 = [].
Proof.
  pose proof (stale_listed st now) as Hl.
  assert (ids = map fst (List.filter (fun p => lease_is_stale st now p.2)
    (btree_entries (sessions st)))) as Hids.
  { revert Hrun. unfold expire_stale_session_leases. cbn zeta.
    destruct (map fst (List.filter _ (btree_entries (sessions st)))); by intros [= <- _]. }
  rewrite <-Hids in Hl. clear Hids. split; [done|].
  destruct (decide (ids = [])) as [->|Hne].
  - assert (forall id s, sessions st !! id = Some s -> ~ stale st now s) as Hfresh.
    { intros id s Hs Hst. destruct Hl as (Hl & _). eapply not_elem_of_nil, Hl. by exists s. }
    rewrite (expire_none st now Hfresh) in Hrun. simplify_eq. split_and!; [| |done|done|].
    + intros id. cbn. by destruct (sessions st' !! id).
    + intros id. destruct (browsers st' !! id); cbn; [|done]. by rewrite retain_all.
    + by rewrite expire_none.
  - destruct (expire_some st now ids st' Hrun Hne) as (Hs & Hb & Ht & Hj).
    split_and!; [done..|]. rewrite expire_none; [done|].
    intros id s Hss Hst. rewrite Hs in Hss. apply fmap_Some in Hss as (s0 & Hs0 & ->).
    destruct (one_of id ids) eqn:Hin; [by destruct Hst as (_ & Hst & _)|].
    apply not_true_iff_false in Hin. apply Hin. rewrite elem_of_one_of. apply Hl.
    exists s0. split; [done|]. destruct Hst as (Hrel & Hexp & Hd). split_and!; [done..|].
    destruct Hd as [Hd|[Hne' Hgone]]; [by left|]. right. split; [done|].
    intros b Hbin. specialize (Hgone b Hbin). rewrite Hb in Hgone.
    by destruct (browsers st !! b).
Qed.

(** ** Exclusive leases *)

Section exclusive.
Variable env_var : string -> option string.
Variable home_dir : option string.

(** The session holds the lease of the profile it will have. *)
Definition keeps_lease st (session_id : string) (found : option string) : Prop :=
  forall P, or_else found (sessions st !! session_id ≫= se_profile_id) = Some P ->
  exists s, sessions st !! session_id = Some s /\ se_profile_id s = Some P
    /\ se_lease s = ServiceTabs.Exclusive.

(** The launches that passed their gate and are not recorded yet: session, profile and
    metadata. *)
Definition Pending : Type := list (string * string * ServiceLaunchMetadata).
Definition pending_profiles (pending : Pending) : list string := map (fun g => g.1.2) pending.

(** The steps that touch leases, each on the state of its moment. A gate passes and its
    launch is recorded later, with any steps in between; of two launches of one profile
    the second passes its gate after the first is recorded. A launch that names no
    profile is not gated; it is recorded with the profile of the browser it finds, if any,
    and the session keeps its profile otherwise. *)
Inductive lease_step : ServiceState * Pending -> ServiceState * Pending -> Prop :=
| GateStep load command session_id waited_ms metadata profile_id st pending :
    for_leases load = Ok st ->
    lease_metadata env_var home_dir load command = Some metadata ->
    lm_profile_id metadata = Some profile_id ->
    lease_gate env_var home_dir load command session_id waited_ms = Ok ControlJobs.GateReady ->
    profile_id ∉ pending_profiles pending ->
    lease_step (st, pending) (st, (session_id, profile_id, metadata) :: pending)
| RecordStep session_id profile_id metadata st before after now :
    lease_step (st, before ++ (session_id, profile_id, metadata) :: after)
      (upsert_service_profile_and_session now st session_id (Some profile_id) metadata,
       before ++ after)
| RelaunchStep session_id found metadata st pending now :
    keeps_lease st session_id found ->
    lease_step (st, pending)
      (upsert_service_profile_and_session now st session_id found metadata, pending)
| ExpireStep st pending now :
    (forall g, g ∈ pending -> g.1.1 ∉ (expire_stale_session_leases now st).1) ->
    lease_step (st, pending) ((expire_stale_session_leases now st).2, pending).

(** Two sessions hold a profile exclusively only in a browser of the profile that one
    of them drives and the other is active in. *)
Definition leases_exclusive st : Prop :=
  forall a b sa sb P, a <> b -> sessions st !! a = Some sa -> sessions st !! b = Some sb ->
    se_lease sa = ServiceTabs.Exclusive -> se_lease sb = ServiceTabs.Exclusive ->
    se_profile_id sa = Some P -> se_profile_id sb = Some P ->
    shares_browser st a P sb \/ shares_browser st b P sa.

Lemma elem_of_merge_unique_r l x y : x ∈ l -> x ∈ merge_unique l y.
Proof. intros Hx. apply elem_of_merge_unique. by left. Qed.

Definition no_rival st S P : Prop := forall c, ~ rival st S P c.

Lemma no_rival_shares st S P c s :
  no_rival st S P -> sessions st !! c = Some s -> c <> S ->
  se_lease s = ServiceTabs.Exclusive -> se_profile_id s = Some P -> shares_browser st S P s.
Proof.
  intros Hno Hs Hne Hlease HP.
  destruct (existsb (fun id => one_of id (current_owned_browser_ids st S P)) (se_browser_ids s))
    eqn:Hb; [by apply shares_browser_owned|].
  exfalso. apply (Hno c). exists s. split_and!; [done..|].
  intros Hshare%shares_browser_owned. congruence.
Qed.

Lemma upsert_exclusive now st S P m :
  no_rival st S P -> leases_exclusive st ->
  leases_exclusive (upsert_service_profile_and_session now st S (Some P) m).
Proof.
  intros Hno Hex. set (st' := upsert_service_profile_and_session now st S (Some P) m).
  assert (forall a Q s, shares_browser st a Q s -> shares_browser st' a Q s) as Hup by done.
  destruct (upsert_session now st S P m) as (s & Hs & HsP & _). fold st' in Hs.
  assert (forall c sc Q, c <> S -> sessions st' !! c = Some sc -> se_lease sc = ServiceTabs.Exclusive ->
    se_profile_id s = Some Q -> se_profile_id sc = Some Q -> shares_browser st' S Q sc) as Hnew.
  { intros c sc Q Hne Hsc Hlease HQ HscQ. simplify_eq. unfold st' in Hsc.
    rewrite upsert_other in Hsc by done. by eapply Hup, no_rival_shares. }
  intros a b sa sb Q Hne Ha Hb Hla Hlb HPa HPb.
  destruct (decide (a = S)) as [->|HaS].
  { left. rewrite Hs in Ha. simplify_eq. eauto. }
  destruct (decide (b = S)) as [->|HbS].
  { right. rewrite Hs in Hb. simplify_eq. eauto. }
  unfold st' in Ha, Hb. rewrite upsert_other in Ha, Hb by done.
  destruct (Hex a b sa sb Q) as [Hl|Hr]; eauto.
Qed.

Lemma expire_exclusive now st :
  leases_exclusive st -> leases_exclusive (expire_stale_session_leases now st).2.
Proof.
  intros Hex. destruct (expire_stale_session_leases now st) as [ids st'] eqn:Hrun. cbn.
  destruct (decide (ids = [])) as [->|Hne].
  { unfold expire_stale_session_leases in Hrun. cbn zeta in Hrun.
    destruct (map fst _); by simplify_eq. }
  destruct (expire_some st now ids st' Hrun Hne) as (Hs & Hb & _).
  assert (forall c s, sessions st' !! c = Some s -> se_lease s = ServiceTabs.Exclusive ->
    sessions st !! c = Some s /\ one_of c ids = false) as Hkept.
  { intros c s Hc Hlease. rewrite Hs in Hc. apply fmap_Some in Hc as (s0 & Hs0 & ->).
    by destruct (one_of c ids). }
  assert (forall c Q s, one_of c ids = false -> shares_browser st c Q s -> shares_browser st' c Q s)
    as Hshare.
  { intros c Q s Hc (id & b & Hid & Hbr & HQ & Hact).
    exists id, (retain_sessions (fun sid => negb (one_of sid ids)) b).
    split_and!; [done|by rewrite Hb, Hbr|done|].
    cbn. apply elem_of_filter_list. by rewrite Hc. }
  intros a b sa sb Q Hab Ha Hb' Hla Hlb HPa HPb.
  apply Hkept in Ha as [Ha Hain]; [|done]. apply Hkept in Hb' as [Hb' Hbin]; [|done].
  destruct (Hex a b sa sb Q) as [Hl|Hr]; eauto.
Qed.

(** Another session stays no rival where its own record is the same or names no more
    profiles, and what it shares it still shares. *)
Lemma no_rival_kept st st' S P :
  no_rival st S P ->
  (forall c sc', c <> S -> sessions st' !! c = Some sc' -> se_lease sc' = ServiceTabs.Exclusive ->
     se_profile_id sc' = Some P ->
     exists sc, sessions st !! c = Some sc /\ se_lease sc = ServiceTabs.Exclusive
       /\ se_profile_id sc = Some P /\ (shares_browser st S P sc -> shares_browser st' S P sc')) ->
  no_rival st' S P.
Proof.
  intros Hno Hk c (sc' & Hc & Hne & HP & Hl & Hshare).
  destruct (Hk c sc' Hne Hc Hl HP) as (sc & Hsc & Hlsc & HPsc & Hs).
  apply (Hno c). exists sc. split_and!; auto.
Qed.

Section relaunch.
Context (now S : string) (found : option string) (st : ServiceState) (m : ServiceLaunchMetadata).
Context (Hheld : keeps_lease st S found).
Notation st' := (upsert_service_profile_and_session now st S found m).

(** What a relaunch writes on its session. *)
Lemma relaunch_session s' P :
  sessions st' !! S = Some s' -> se_profile_id s' = Some P ->
  exists s, sessions st !! S = Some s /\ se_profile_id s = Some P
    /\ se_lease s = ServiceTabs.Exclusive
    /\ forall id, id ∈ se_browser_ids s -> id ∈ se_browser_ids s'.
Proof.
  unfold upsert_service_profile_and_session. cbn. rewrite lookup_insert_eq. intros [= <-] HP.
  assert (sessions match found with Some P => upsert_profile P m st | None => st end = sessions st)
    as Hsame by by destruct found.
  rewrite Hsame in HP |- *.
  destruct (Hheld P) as (s & Hs & HPs & Hl).
  { cbn in HP. destruct found; [done|]. cbn in *. by destruct (sessions st !! S). }
  rewrite Hs. exists s. split_and!; [done..|]. intros id. apply elem_of_merge_unique_r.
Qed.
Lemma relaunch_shares a P s s' :
  (forall id, id ∈ se_browser_ids s -> id ∈ se_browser_ids s') ->
  shares_browser st a P s -> shares_browser st' a P s'.
Proof.
  intros Hids (id & b & Hid & Hb & HP & Ha). exists id, b. rewrite upsert_browsers.
  split_and!; auto.
Qed.

Lemma relaunch_kept a c P sc' :
  sessions st' !! c = Some sc' -> se_lease sc' = ServiceTabs.Exclusive ->
  se_profile_id sc' = Some P ->
  exists sc, sessions st !! c = Some sc /\ se_lease sc = ServiceTabs.Exclusive
    /\ se_profile_id sc = Some P /\ (shares_browser st a P sc -> shares_browser st' a P sc').
Proof.
  intros Hc Hl HP. destruct (decide (c = S)) as [->|Hne].
  - destruct (relaunch_session sc' P Hc HP) as (s & Hs & HPs & Hls & Hids).
    exists s. split_and!; [done..|by apply relaunch_shares].
  - rewrite upsert_other in Hc by done. exists sc'. split_and!; [done..|]. by apply relaunch_shares.
Qed.
Lemma relaunch_exclusive : leases_exclusive st -> leases_exclusive st'.
Proof.
  intros Hex a b sa sb P Hne Ha Hb Hla Hlb HPa HPb.
  destruct (relaunch_kept b a P sa Ha Hla HPa) as (sa0 & Ha0 & Hla0 & HPa0 & Hsa).
  destruct (relaunch_kept a b P sb Hb Hlb HPb) as (sb0 & Hb0 & Hlb0 & HPb0 & Hsb).
  destruct (Hex a b sa0 sb0 P) as [?|?]; auto.
Qed.
End relaunch.

Lemma expire_no_rival now st S P :
  S ∉ (expire_stale_session_leases now st).1 -> no_rival st S P ->
  no_rival (expire_stale_session_leases now st).2 S P.
Proof.
  destruct (expire_stale_session_leases now st) as [ids st'] eqn:Hrun. cbn. intros HS Hno.
  destruct (decide (ids = [])) as [->|Hids].
  { unfold expire_stale_session_leases in Hrun. cbn zeta in Hrun.
    destruct (map fst _); by simplify_eq. }
  destruct (expire_some st now ids st' Hrun Hids) as (Hs & Hb & _).
  apply (no_rival_kept st); [done|]. intros c sc' Hne Hc Hl HP. rewrite Hs in Hc.
  apply fmap_Some in Hc as (sc & Hsc & ->). destruct (one_of c ids); [done|].
  exists sc. split_and!; [done..|]. intros (id & b & Hid & Hbr & HPb & Ha).
  exists id, (retain_sessions (fun sid => negb (one_of sid ids)) b).
  split_and!; [done|by rewrite Hb, Hbr|done|]. cbn. apply elem_of_filter_list.
  rewrite <-elem_of_one_of, not_true_iff_false in HS. by rewrite HS.
Qed.

(** What holds between the steps. *)
Definition leases_ordered (w : ServiceState * Pending) : Prop :=
  leases_exclusive w.1 /\ NoDup (pending_profiles w.2)
  /\ forall g, g ∈ w.2 -> no_rival w.1 g.1.1 g.1.2.

Lemma record_ordered S P m st before after now :
  leases_ordered (st, before ++ (S, P, m) :: after) ->
  leases_ordered (upsert_service_profile_and_session now st S (Some P) m, before ++ after).
Proof.
  unfold leases_ordered, pending_profiles. cbn [fst snd]. rewrite !map_app. cbn [map fst snd].
  intros (Hex & Hnd & Hno).
  assert (map (fun g => g.1.2) before ++ P :: map (fun g => g.1.2) after
    ≡ₚ P :: (map (fun g => g.1.2) before ++ map (fun g => g.1.2) after)) as Hperm
    by (symmetry; apply Permutation_middle).
  rewrite Hperm in Hnd. apply NoDup_cons in Hnd as [HP Hnd].
  split_and!; [apply upsert_exclusive; [|done]|done|].
  { apply (Hno (S, P, m)). apply elem_of_app. right. by left. }
  intros [[S' P'] m'] Hin. cbn [fst snd].
  assert (P' <> P) as Hne.
  { intros ->. apply HP. rewrite <-map_app. apply list_elem_of_fmap. by exists (S', P, m'). }
  apply (no_rival_kept st).
  { apply (Hno (S', P', m')). apply elem_of_app in Hin as [?|?]; apply elem_of_app;
      [by left|right; by right]. }
  intros c sc' Hc Hsc Hl HPc. destruct (decide (c = S)) as [->|HcS].
  - destruct (upsert_session now st S P m) as (s & Hs & HsP & _). simplify_eq.
  - rewrite upsert_other in Hsc by done. by exists sc'.
Qed.

Lemma step_ordered w w' : lease_step w w' -> leases_ordered w -> leases_ordered w'.
Proof.
  intros Hstep Hord.
  destruct Hstep as [load command S waited_ms m P st pending Hload Hm HP Hgate Hnew
    |S P m st before after now|S found m st pending now Hheld|st pending now Hstay].
  - destruct Hord as (Hex & Hnd & Hno). split_and!; [done|by apply NoDup_cons|].
    intros g [->|Hg]%elem_of_cons; [|by apply Hno]. cbn.
    apply (gate_cases env_var home_dir load command S waited_ms m P Hm HP) in Hgate
      as (_ & _ & _ & Hfree).
    intros c Hc. apply (Hfree c). by exists st.
  - by apply (record_ordered S P m).
  - destruct Hord as (Hex & Hnd & Hno). split_and!; [by apply relaunch_exclusive|done|].
    intros g Hg. apply (no_rival_kept st); [by apply Hno|]. intros c sc' _ Hc Hl HP.
    by apply (relaunch_kept now S found st m Hheld g.1.1 c).
  - destruct Hord as (Hex & Hnd & Hno). split_and!; [by apply expire_exclusive|done|].
    intros g Hg. apply expire_no_rival; [by apply Hstay|by apply Hno].
Qed.

(** C9. Gated launches, relaunches and expiry never leave two sessions with an exclusive
    lease of one profile in browsers of their own. A launch passes its gate in one step
    and is recorded in a later one, with any steps in between, under three conditions:
    no two launches of one profile are between gate and record at the same time (if they
    are, both take the lease: [stale_gate_two_holders]); the lease of a session that waits
    to be recorded does not expire meanwhile; and a launch that names no profile leaves
    its session without one, or with one whose lease the session holds (otherwise it takes
    the lease back ungated: [relaunch_takes_back]). *)
Theorem gated_leases_exclusive st st' pending :
  leases_exclusive st -> rtc lease_step (st, []) (st', pending) -> leases_exclusive st'.
Proof.
  intros Hex Hsteps. assert (leases_ordered (st', pending)) as [? _]; [|done].
  apply (rtc_ind_r leases_ordered (st, [])) with (3 := Hsteps);
    [|by intros w w' _ Hstep; apply step_ordered].
  split_and!; [done|by apply NoDup_nil|by intros g Hg%elem_of_nil].
Qed.

End exclusive.

(** ** Waiting for a lease *)

Section waiting.
Context `{!JsonBuild}.
Variable env_var : string -> option string.
Variable home_dir : option string.
Variable session_id : string.
Notation gate := (lease_gate env_var home_dir).

(** One attempt of the scheduler: the clock before the gate and after it, and what the
    gate loads. *)
Record Attempt := { clock_before : Z; clock_after : Z; loads : Snapshots }.

Definition attempt (a : Attempt) (request : ControlJobs.ControlRequest)
    : ControlJobs.SchedulerLeaseDecision * ControlJobs.ControlRequest :=
  let waited_ms :=
    (fun started => (clock_before a - started) mod 2 ^ 64)%Z
      <$> ControlJobs.rq_profile_lease_wait_started_at request in
  ControlJobs.scheduler_profile_lease_gate (clock_after a)
    (gate (loads a) (ControlJobs.rq_command request) session_id waited_ms) request.

(** Every attempt, one after the other, is told to wait. *)
Fixpoint keeps_waiting (request : ControlJobs.ControlRequest) (attempts : list Attempt) : Prop :=
  match attempts with
  | [] => True
  | a :: attempts =>
      exists ms p ids first request',
        attempt a request = (ControlJobs.LeaseWait ms p ids first, request')
        /\ keeps_waiting request' attempts
  end.

(** The retry timer sleeps for the interval of the gate between two attempts. *)
Fixpoint spaced (t : Z) (attempts : list Attempt) : Prop :=
  match attempts with
  | [] => True
  | a :: attempts =>
      (t + PROFILE_LEASE_WAIT_POLL_MS <= clock_before a)%Z
      /\ (clock_before a <= clock_after a)%Z /\ spaced (clock_after a) attempts
  end.

Lemma gate_wait_inv load command S waited_ms ms p ids :
  gate load command S waited_ms = Ok (ControlJobs.GateWait ms p ids) ->
  exists t, profile_lease_wait_timeout_ms_from_command command = Ok t
    /\ (unwrap_or waited_ms 0%Z < t)%Z.
Proof.
  intros Hgate.
  destruct (lease_metadata env_var home_dir load command) as [m|] eqn:Hm;
    [destruct (lm_profile_id m) as [P|] eqn:HP|].
  - pose proof (gate_cases env_var home_dir load command S waited_ms m P Hm HP)
      as (_ & Hwait & _).
    apply Hwait in Hgate as (_ & _ & Ht & _). done.
  - unfold lease_gate, service_profile_lease_gate in Hgate.
    unfold lease_metadata in Hm. by rewrite Hm, HP in Hgate.
  - unfold lease_gate, service_profile_lease_gate in Hgate.
    unfold lease_metadata in Hm. by rewrite Hm in Hgate.
Qed.

Lemma attempt_waits a request ms p ids first request' :
  attempt a request = (ControlJobs.LeaseWait ms p ids first, request') ->
  ControlJobs.rq_command request' = ControlJobs.rq_command request
  /\ exists t, profile_lease_wait_timeout_ms_from_command (ControlJobs.rq_command request) = Ok t
  /\ match ControlJobs.rq_profile_lease_wait_started_at request with
     | None => ControlJobs.rq_profile_lease_wait_started_at request' = Some (clock_after a)
     | Some started => ControlJobs.rq_profile_lease_wait_started_at request' = Some started
         /\ ((clock_before a - started) mod 2 ^ 64 < t)%Z
     end.
Proof.
  unfold attempt, ControlJobs.scheduler_profile_lease_gate.
  destruct (gate _ _ _ _) as [[| |]|] eqn:Hg; try done.
  intros [= <- <- <- <- <-]. split; [done|].
  apply gate_wait_inv in Hg as (t & Ht & Hlt). exists t. split; [done|]. cbn.
  by destruct (ControlJobs.rq_profile_lease_wait_started_at request).
Qed.

Lemma waiting_window attempts request started timeout :
  profile_lease_wait_timeout_ms_from_command (ControlJobs.rq_command request) = Ok timeout ->
  ControlJobs.rq_profile_lease_wait_started_at request = Some started ->
  (forall a, a ∈ attempts -> (started <= clock_before a < started + 2 ^ 64)%Z) ->
  keeps_waiting request attempts ->
  forall a, a ∈ attempts -> (clock_before a < started + timeout)%Z.
Proof.
  revert request. induction attempts as [|a attempts IH]; intros request Ht Hs Hclock; [set_solver|].
  intros (ms & p & ids & first & request' & Ha & Hrest).
  apply attempt_waits in Ha as (Hcmd & t & Ht' & Hm). rewrite Hs in Hm. destruct Hm as [Hs' Hlt].
  intros b [->|Hb]%elem_of_cons.
  - assert (started <= clock_before a < started + 2 ^ 64)%Z by (apply Hclock; by left).
    rewrite Z.mod_small in Hlt by lia. assert (t = timeout) as -> by congruence. lia.
  - apply (IH request'); [by rewrite Hcmd|done| |done|done].
    intros c Hc. apply Hclock. by right.
Qed.

Lemma spaced_from t attempts a :
  spaced t attempts -> a ∈ attempts -> (t + PROFILE_LEASE_WAIT_POLL_MS <= clock_before a)%Z.
Proof.
  revert t. induction attempts as [|b attempts IH]; intros t Hsp Hin; [set_solver|].
  destruct Hsp as (Ht & Hb & Hsp). apply elem_of_cons in Hin as [->|Hin]; [done|].
  specialize (IH _ Hsp Hin). unfold PROFILE_LEASE_WAIT_POLL_MS in *. lia.
Qed.

Lemma spaced_length t attempts limit :
  spaced t attempts -> (forall a, a ∈ attempts -> (clock_before a < limit)%Z) -> (t <= limit)%Z ->
  (Z.of_nat (length attempts) * PROFILE_LEASE_WAIT_POLL_MS <= limit - t)%Z.
Proof.
  revert t. induction attempts as [|a attempts IH]; intros t Hsp Hlim Hle; cbn [length]; [lia|].
  destruct Hsp as (Ht & Ha & Hsp).
  assert (clock_before a < limit)%Z by (apply Hlim; by left).
  destruct attempts as [|b attempts].
  { unfold PROFILE_LEASE_WAIT_POLL_MS in *. cbn. lia. }
  assert (clock_after a <= limit)%Z as Hle'.
  { pose proof (spaced_from _ _ b Hsp (list_elem_of_here _ _)).
    assert (clock_before b < limit)%Z by (apply Hlim; right; by left).
    unfold PROFILE_LEASE_WAIT_POLL_MS in *. lia. }
  specialize (IH _ Hsp (fun c Hc => Hlim c (list_elem_of_further _ _ _ Hc)) Hle').
  unfold PROFILE_LEASE_WAIT_POLL_MS in *. lia.
Qed.

(** C27. A request waits for a lease only for the time its command allows: from the attempt
    that starts the wait, every further attempt that is told to wait comes before the
    timeout is over, and there are at most as many as fit into it at the interval of
    the retry timer. The next attempt after that runs the command or rejects it. *)
Theorem lease_wait_bounded request first attempts timeout :
  profile_lease_wait_timeout_ms_from_command (ControlJobs.rq_command request) = Ok timeout ->
  ControlJobs.rq_profile_lease_wait_started_at request = None ->
  spaced (clock_after first) attempts ->
  (forall a, a ∈ attempts -> (clock_before a < clock_after first + 2 ^ 64)%Z) ->
  keeps_waiting request (first :: attempts) ->
  (forall a, a ∈ attempts -> (clock_before a < clock_after first + timeout)%Z) /\
  (Z.of_nat (length attempts) * PROFILE_LEASE_WAIT_POLL_MS <= timeout)%Z.
Proof.
  intros Ht Hs Hsp Hclock (ms & p & ids & fst & request' & Ha & Hrest).
  apply attempt_waits in Ha as (Hcmd & t & Ht' & Hm). rewrite Hs in Hm.
  assert (forall a, a ∈ attempts -> (clock_before a < clock_after first + timeout)%Z) as Hwin.
  { apply (waiting_window attempts request'); [by rewrite Hcmd|done| |done].
    intros a Hin. split; [|by apply Hclock].
    pose proof (spaced_from _ _ a Hsp Hin). unfold PROFILE_LEASE_WAIT_POLL_MS in *. lia. }
  split; [done|]. assert (0 <= timeout)%Z.
  { revert Ht. unfold profile_lease_wait_timeout_ms_from_command, DEFAULT_PROFILE_LEASE_WAIT_TIMEOUT_MS.
    destruct (jget _ _) as [v|]; [|by intros [= <-]].
    destruct (as_u64 v) as [n|]; cbn; [|done]. destruct (Z.ltb_spec 0 n); [|done].
    intros [= <-]. lia. }
  pose proof (spaced_length _ _ (clock_after first + timeout) Hsp Hwin). lia.
Qed.

(** The guard on the launch path asks as one that has waited out its time: the gate
    never gives it the answer it cannot handle, and it passes when the gate does. *)
Lemma ensure_never_waits load command timeout :
  profile_lease_wait_timeout_ms_from_command command = Ok timeout ->
  (forall ms p ids,
     gate load command session_id (Some timeout) <> Ok (ControlJobs.GateWait ms p ids)) /\
  (ensure_service_profile_lease_available env_var home_dir load session_id command = Ok tt <->
     gate load command session_id (Some timeout) = Ok ControlJobs.GateReady).
Proof.
  intros Ht. split.
  - intros ms p ids (t & Ht' & Hlt)%gate_wait_inv. cbn in Hlt.
    assert (t = timeout) as -> by congruence. lia.
  - unfold ensure_service_profile_lease_available, lease_gate. rewrite Ht. cbn.
    destruct (service_profile_lease_gate _ _ _ _ _ _) as [[| |]|]; cbn; naive_solver.
Qed.

End waiting.

(** ** Readiness *)

(** The row a profile keeps as evidence for a target: the last one that has any. *)
Definition evidence_for (rows : list ProfileTargetReadiness) (target : string)
    (row : ProfileTargetReadiness) : Prop :=
  target <> "" /\ tr_target_service_id row = target
  /\ row_has_explicit_freshness_evidence row = true
  /\ exists before after, rows = before ++ row :: after
    /\ forall r, r ∈ after -> tr_target_service_id r = target ->
         row_has_explicit_freshness_evidence r = false.

Lemma explicit_snoc rows r :
  explicit_readiness (rows ++ [r]) =
    if negb (is_empty (tr_target_service_id r)) && row_has_explicit_freshness_evidence r
    then <[tr_target_service_id r := r]> (explicit_readiness rows) else explicit_readiness rows.
Proof.
  unfold explicit_readiness. rewrite !List.filter_app. cbn.
  destruct (is_empty (tr_target_service_id r)); cbn; [by rewrite app_nil_r|].
  destruct (row_has_explicit_freshness_evidence r); cbn; [|by rewrite app_nil_r].
  by rewrite foldl_snoc.
Qed.

Lemma evidence_snoc rows x target row :
  evidence_for (rows ++ [x]) target row <->
  (x = row /\ target <> "" /\ tr_target_service_id row = target
     /\ row_has_explicit_freshness_evidence row = true)
  \/ evidence_for rows target row
     /\ (tr_target_service_id x = target -> row_has_explicit_freshness_evidence x = false).
Proof.
  unfold evidence_for. split.
  - intros (Hne & Ht & He & before & after & Heq & Hafter).
    destruct (exists_last (l := row :: after)) as (l & y & Hly); [done|].
    assert (rows = before ++ l /\ x = y) as [-> ->].
    { rewrite Hly, app_assoc in Heq. by apply app_inj_tail in Heq. }
    destruct l as [|z l]; cbn in Hly; simplify_eq; [by left|]. right. split.
    + split_and!; [done..|]. exists before, l. split; [done|]. intros r Hr. apply Hafter. set_solver.
    + apply Hafter. set_solver.
  - intros [(-> & Hne & Ht & He)|((Hne & Ht & He & before & after & -> & Hafter) & Hx)].
    + split_and!; [done..|]. exists rows, []. split; [done|]. set_solver.
    + split_and!; [done..|]. exists before, (after ++ [x]). split; [by rewrite <-app_assoc|].
      intros r [Hr|Hr%list_elem_of_singleton]%elem_of_app; [eauto|by subst].
Qed.

Lemma explicit_lookup rows target row :
  explicit_readiness rows !! target = Some row <-> evidence_for rows target row.
Proof.
  induction rows as [|x rows IH] using rev_ind.
  { split; [done|]. intros (_ & _ & _ & before & after & Heq & _). by destruct before. }
  rewrite explicit_snoc, evidence_snoc, <-IH. unfold is_empty.
  case_bool_decide as Hempty; cbn.
  { split; [|by intros [(-> & Hne & <- & _)|[? _]]].
    intros Hrow. right. split; [done|]. intros <-. by apply IH in Hrow as [Hne _]. }
  destruct (row_has_explicit_freshness_evidence x) eqn:Hx.
  - destruct (decide (tr_target_service_id x = target)) as [<-|Hne].
    + rewrite lookup_insert_eq. split; [intros [= <-]; by left|].
      intros [(-> & _)|[_ Hx']]; [done|]. by specialize (Hx' eq_refl).
    + rewrite lookup_insert_ne by done. split; [by right|].
      by intros [(-> & _ & ? & _)|[? _]].
  - split; [by right|]. intros [(-> & _ & _ & He)|[? _]]; [congruence|done].
Qed.

Lemma derived_row p policies target :
  let row := derive_target_readiness_for_profile p policies target in
  tr_target_service_id row = target /\ row_has_explicit_freshness_evidence row = false
  /\ tr_last_verified_at row = None /\ tr_freshness_expires_at row = None.
Proof.
  unfold derive_target_readiness_for_profile. by repeat case_match.
Qed.

Lemma is_empty_action state : is_empty (explicit_action state) = false.
Proof. by destruct state. Qed.

Lemma or_else_idem {A} (o o' : option A) : or_else (or_else o o') o' = or_else o o'.
Proof. by destruct o, o'. Qed.

Lemma normalize_idem e d :
  normalize_explicit_target_readiness (normalize_explicit_target_readiness e d) d =
  normalize_explicit_target_readiness e d.
Proof.
  unfold normalize_explicit_target_readiness. cbn.
  destruct e as [t login state manual evidence action mode att keyring scopes verified expires].
  cbn. rewrite !or_else_idem. f_equal.
  - destruct state, manual; done.
  - destruct (is_empty evidence) eqn:He; [by destruct (is_empty (tr_evidence d))|by rewrite He].
  - destruct (is_empty action) eqn:Ha; [by rewrite is_empty_action|by rewrite Ha].
  - destruct state, manual; done.
  - destruct state, manual; done.
  - destruct keyring; [done|]. destruct (tr_preferred_keyring d); [done|].
    destruct state, manual, mode; done.
  - by destruct scopes, (tr_setup_scopes d).
Qed.

Lemma normalize_evidence e d :
  row_has_explicit_freshness_evidence e = true ->
  row_has_explicit_freshness_evidence (normalize_explicit_target_readiness e d) = true.
Proof.
  unfold row_has_explicit_freshness_evidence. cbn.
  destruct (tr_state e), (tr_last_verified_at e), (tr_freshness_expires_at e); cbn; try done.
  all: by destruct (tr_last_verified_at d).
Qed.

(** The row a refresh writes for a target. *)
Definition refreshed_row (p : BrowserProfile) (policies : gmap string SitePolicy) (target : string)
    : ProfileTargetReadiness :=
  let derived := derive_target_readiness_for_profile p policies target in
  match explicit_readiness (pf_target_readiness p) !! target with
  | Some row => normalize_explicit_target_readiness row derived
  | None => derived
  end.

Lemma refreshed_row_target p policies target :
  tr_target_service_id (refreshed_row p policies target) = target.
Proof.
  unfold refreshed_row. destruct (explicit_readiness _ !! target) as [e|] eqn:He.
  - apply explicit_lookup in He as (_ & He & _). by cbn.
  - apply derived_row.
Qed.

(** The targets of a profile: those it names, those its policies stand for, and those
    it has evidence about. *)
Definition has_target (p : BrowserProfile) (policies : gmap string SitePolicy) (target : string)
    : Prop :=
  target <> "" /\ (target ∈ pf_target_service_ids p \/ target ∈ pf_authenticated_service_ids p
    \/ (exists row, evidence_for (pf_target_readiness p) target row)
    \/ exists id policy, id ∈ pf_site_policy_ids p /\ policies !! id = Some policy
         /\ sp_id policy = target).

Lemma readiness_targets_spec p policies target :
  target ∈ readiness_targets p policies (explicit_readiness (pf_target_readiness p)) <->
  has_target p policies target.
Proof.
  unfold readiness_targets, has_target.
  rewrite elem_of_union, !elem_of_list_to_set, !elem_of_filter_list, !elem_of_app, list_elem_of_omap.
  unfold is_empty. rewrite negb_true_iff, bool_decide_eq_false.
  assert (target ∈ map fst (btree_entries (explicit_readiness (pf_target_readiness p))) <->
    exists row, evidence_for (pf_target_readiness p) target row) as ->.
  { setoid_rewrite <-explicit_lookup. rewrite list_elem_of_fmap. split.
    - intros ([k row] & -> & Hin%elem_of_btree_entries). by exists row.
    - intros (row & Hrow). exists (target, row). split; [done|]. by apply elem_of_btree_entries. }
  assert ((exists id, id ∈ pf_site_policy_ids p /\ sp_id <$> policies !! id = Some target) <->
    exists id policy, id ∈ pf_site_policy_ids p /\ policies !! id = Some policy
      /\ sp_id policy = target) as ->; [|tauto].
  setoid_rewrite fmap_Some. naive_solver.
Qed.

Lemma derive_rows p policies :
  derive_profile_target_readiness p policies =
  map (refreshed_row p policies)
    (btree_set (readiness_targets p policies (explicit_readiness (pf_target_readiness p)))).
Proof. done. Qed.

(** The evidence among the rows a refresh writes. *)
Lemma evidence_refreshed p policies target row :
  evidence_for (derive_profile_target_readiness p policies) target row <->
  exists e, evidence_for (pf_target_readiness p) target e
    /\ row = normalize_explicit_target_readiness e
               (derive_target_readiness_for_profile p policies target).
Proof.
  rewrite derive_rows.
  destruct (btree_set_lists
    (readiness_targets p policies (explicit_readiness (pf_target_readiness p)))
    (has_target p policies)) as (Htargets & Hnd & _); [apply readiness_targets_spec|].
  revert Htargets Hnd. generalize (btree_set (readiness_targets p policies
    (explicit_readiness (pf_target_readiness p)))) as targets. intros targets Htargets Hnd. split.
  - intros (Hne & Ht & He & before & after & Heq & _).
    assert (row ∈ map (refreshed_row p policies) targets) as Hin by (rewrite Heq; set_solver).
    apply list_elem_of_fmap in Hin as (t & -> & Hin). rewrite refreshed_row_target in Ht. subst t.
    unfold refreshed_row in *.
    destruct (explicit_readiness (pf_target_readiness p) !! target) as [e|] eqn:Hlook.
    + exists e. split; [by apply explicit_lookup|done].
    + by rewrite (proj1 (proj2 (derived_row p policies target))) in He.
  - intros (e & He & ->). pose proof He as (Hne & Het & Hee & _).
    assert (refreshed_row p policies target = normalize_explicit_target_readiness e
      (derive_target_readiness_for_profile p policies target)) as Hrow.
    { unfold refreshed_row. by apply explicit_lookup in He as ->. }
    split_and!; [done|done|by apply normalize_evidence|].
    assert (target ∈ targets) as Hin.
    { apply Htargets. split; [done|]. right. right. left. by exists e. }
    apply list_elem_of_split in Hin as (l1 & l2 & ->).
    exists (map (refreshed_row p policies) l1), (map (refreshed_row p policies) l2).
    rewrite map_app. cbn. rewrite Hrow. split; [done|].
    intros r (t & -> & Ht)%list_elem_of_fmap Heq. rewrite refreshed_row_target in Heq. subst t.
    apply NoDup_app in Hnd as (_ & _ & Hnd). apply NoDup_cons in Hnd as [Hnd _]. done.
Qed.

Lemma derive_idem p policies :
  derive_profile_target_readiness
    (set_target_readiness (derive_profile_target_readiness p policies) p) policies =
  derive_profile_target_readiness p policies.
Proof.
  set (p' := set_target_readiness (derive_profile_target_readiness p policies) p).
  assert (forall t, has_target p' policies t <-> has_target p policies t) as Htargets.
  { intros t. unfold has_target. cbn [pf_target_readiness p' set_target_readiness].
    setoid_rewrite evidence_refreshed. cbn. naive_solver. }
  assert (btree_set (readiness_targets p' policies (explicit_readiness (pf_target_readiness p'))) =
          btree_set (readiness_targets p policies (explicit_readiness (pf_target_readiness p)))) as Hset.
  { eapply lists_ids_unique; [exact Htargets|apply btree_set_lists, readiness_targets_spec..]. }
  rewrite !derive_rows, Hset. apply map_ext. intros t. unfold refreshed_row.
  change (derive_target_readiness_for_profile p' policies t)
    with (derive_target_readiness_for_profile p policies t).
  destruct (explicit_readiness (pf_target_readiness p) !! t) as [e|] eqn:He.
  - assert (explicit_readiness (pf_target_readiness p') !! t
      = Some (normalize_explicit_target_readiness e
                (derive_target_readiness_for_profile p policies t))) as ->.
    { apply explicit_lookup, evidence_refreshed. exists e. by apply explicit_lookup in He. }
    apply normalize_idem.
  - destruct (explicit_readiness (pf_target_readiness p') !! t) as [r|] eqn:Hr; [|done].
    apply explicit_lookup, evidence_refreshed in Hr as (e & He' & _).
    apply explicit_lookup in He'. congruence.
Qed.

Lemma policies_present l st p :
  p ∈ l -> is_Some (site_policies (foldl add_policy st l) !! sp_id p).
Proof.
  revert st. induction l as [|q l IH] using rev_ind; intros st Hin; [set_solver|].
  rewrite foldl_snoc. set (st1 := foldl add_policy st l). unfold add_policy.
  apply elem_of_app in Hin as [Hin|Hin%list_elem_of_singleton].
  - specialize (IH st Hin). fold st1 in IH.
    destruct (site_policies st1 !! sp_id q) eqn:Hq; [done|]. cbn.
    destruct (decide (sp_id q = sp_id p)) as [->|Hne]; [by rewrite lookup_insert_eq|].
    by rewrite lookup_insert_ne.
  - subst q. destruct (site_policies st1 !! sp_id p) eqn:Hq; [by rewrite Hq|]. cbn.
    by rewrite lookup_insert_eq.
Qed.
Lemma policies_stay l st :
  (forall p, p ∈ l -> is_Some (site_policies st !! sp_id p)) -> foldl add_policy st l = st.
Proof.
  induction l as [|q l IH]; intros Hall; cbn; [done|].
  assert (add_policy st q = st) as ->.
  { unfold add_policy. by destruct (Hall q (list_elem_of_here _ _)) as [? ->]. }
  apply IH. intros p Hp. apply Hall. by right.
Qed.

Lemma builtin_present st p :
  p ∈ builtin_site_policies -> is_Some (site_policies (apply_builtin_site_policies st) !! sp_id p).
Proof. exact (policies_present builtin_site_policies st p). Qed.
Lemma builtin_stay st :
  (forall p, p ∈ builtin_site_policies -> is_Some (site_policies st !! sp_id p)) ->
  apply_builtin_site_policies st = st.
Proof. exact (policies_stay builtin_site_policies st). Qed.

(** Refreshing readiness gives each profile one row per target, in order: the row keeps
    the state and the times of the evidence there is, and without evidence says whether
    the profile is authenticated for the target, has to be seeded by hand, or is not
    known; and a second refresh changes nothing. *)
Theorem readiness_refresh_spec st :
  refresh_profile_readiness (refresh_profile_readiness st) = refresh_profile_readiness st /\
  forall id p, profiles st !! id = Some p ->
    let policies := site_policies (refresh_profile_readiness st) in
    exists p', profiles (refresh_profile_readiness st) !! id = Some p' /\
      lists_ids (has_target p policies) (map tr_target_service_id (pf_target_readiness p')) /\
      forall row, row ∈ pf_target_readiness p' ->
        let target := tr_target_service_id row in
        (forall e, evidence_for (pf_target_readiness p) target e ->
           tr_state row = tr_state e /\ tr_last_verified_at row = tr_last_verified_at e
           /\ tr_freshness_expires_at row = tr_freshness_expires_at e) /\
        ((forall e, ~ evidence_for (pf_target_readiness p) target e) ->
           (tr_state row = SeededUnknownFreshness <-> target ∈ pf_authenticated_service_ids p)
           /\ (tr_state row = NeedsManualSeeding <->
                 target ∉ pf_authenticated_service_ids p
                 /\ target_requires_detached_manual_seeding p policies target = true)).
Proof.
  unfold refresh_profile_readiness. cbn [site_policies set_profiles].
  pose proof (builtin_present st) as Hpresent.
  destruct (apply_builtin_keeps st) as (Hprofiles & _).
  revert Hpresent Hprofiles. generalize (apply_builtin_site_policies st) as st1.
  intros st1 Hpresent Hprofiles. split.
  - rewrite builtin_stay by done.
    unfold set_profiles. cbn [profiles browsers sessions tabs jobs site_policies
      default_browser_build profile_sources policy_sources]. f_equal.
    rewrite <-map_fmap_compose. apply map_fmap_ext. intros id p _. cbn [compose].
    by rewrite derive_idem.
  - intros id p Hp. rewrite <-Hprofiles in Hp.
    eexists. split; [cbn [profiles set_profiles]; rewrite lookup_fmap, Hp; done|].
    cbn [pf_target_readiness set_target_readiness].
    set (policies := site_policies st1). rewrite derive_rows. split.
    { rewrite map_map, (map_ext _ (fun t => t)) by (intros; apply refreshed_row_target).
      rewrite map_id. apply btree_set_lists, readiness_targets_spec. }
    intros row (t & -> & _)%list_elem_of_fmap. rewrite refreshed_row_target. cbn zeta.
    unfold refreshed_row. split.
    + intros e He. apply explicit_lookup in He as ->. cbn.
      destruct (derived_row p policies t) as (_ & _ & -> & ->).
      by destruct (tr_last_verified_at e), (tr_freshness_expires_at e).
    + intros Hno. destruct (explicit_readiness _ !! t) as [e|] eqn:He.
      { exfalso. by apply (Hno e), explicit_lookup. }
      unfold derive_target_readiness_for_profile.
      rewrite <-elem_of_one_of.
      destruct (one_of t (pf_authenticated_service_ids p)); cbn; [naive_solver|].
      destruct (target_requires_detached_manual_seeding p policies t); cbn; naive_solver.
Qed.

(** ** Well-formed records *)

Definition session_ok (id : string) (s : BrowserSession) : Prop :=
  se_id s = id /\ NoDup (se_browser_ids s)
  /\ (se_lease s = ServiceTabs.Exclusive -> is_Some (se_profile_id s))
  /\ NoDup (se_profile_lease_conflict_session_ids s)
  /\ StronglySorted str_le (se_profile_lease_conflict_session_ids s)
  /\ id ∉ se_profile_lease_conflict_session_ids s.
Definition well_formed st : Prop :=
  map_Forall session_ok (sessions st) /\ map_Forall (fun id p => pf_id p = id) (profiles st).

Lemma merge_unique_nodup l x : NoDup l -> NoDup (merge_unique l x).
Proof.
  unfold merge_unique. destruct (one_of x l) eqn:Hx; [done|]. intros Hnd.
  apply NoDup_app. split_and!; [done| |apply NoDup_singleton].
  intros y Hy ->%list_elem_of_singleton. apply elem_of_one_of in Hy. congruence.
Qed.

Lemma launched_ok now st S P m s :
  session_ok S s ->
  session_ok S (launched_session now S P m
    (profile_lease_telemetry st S <$> or_else P (se_profile_id s)) s).
Proof.
  intros (Hid & Hnd & Hlease & Hconf & Hsorted & Hself).
  unfold session_ok, launched_session.
  destruct (or_else P (se_profile_id s)) as [Q|] eqn:HQ; cbn -[profile_lease_telemetry].
  - destruct (conflicts_listed st S Q) as (Hl & Hlnd & Hls).
    split_and!; [done|by apply merge_unique_nodup|done|exact Hlnd|exact Hls|].
    intros Hin. by apply Hl in Hin as (other & _ & Hne & _).
  - split_and!; [done|by apply merge_unique_nodup| |done..].
    intros [Q HQ']%Hlease. rewrite HQ' in HQ. by destruct P.
Qed.

(** C37. The records stay well formed: a session is stored under its id, holds an exclusive
    lease only of a profile, names its browsers once and its conflicts in order, never
    itself; launches, with a profile or without, and expiry keep it so. *)
Theorem leases_well_formed now st S P m :
  well_formed st ->
  well_formed (upsert_service_profile_and_session now st S P m)
  /\ well_formed (expire_stale_session_leases now st).2.
Proof.
  intros [Hs Hp]. split.
  - split.
    + intros id s Hlook. destruct (decide (id = S)) as [->|Hne];
        [|rewrite upsert_other in Hlook by done; by apply Hs].
      unfold upsert_service_profile_and_session in Hlook.
      cbn [sessions set_sessions] in Hlook. rewrite lookup_insert_eq in Hlook.
      apply Some_inj in Hlook as <-.
      assert (sessions (match P with Some p => upsert_profile p m st | None => st end) = sessions st)
        as -> by by destruct P.
      destruct (sessions st !! S) as [s0|] eqn:Hs0; cbn [unwrap_or mbind option_bind].
      * apply launched_ok. by apply Hs.
      * apply (launched_ok now _ S P m (default_session S)).
        unfold session_ok. cbn. split_and!; try done; try constructor. by intros ?%elem_of_nil.
    + destruct P as [q|]; [|done]. intros id p Hlook. cbn in Hlook.
      destruct (decide (id = q)) as [->|Hne].
      * rewrite lookup_insert_eq in Hlook. apply Some_inj in Hlook as <-. cbn.
        destruct (profiles st !! q) eqn:Hq; cbn; [by apply Hp|done].
      * rewrite lookup_insert_ne in Hlook by done. by apply Hp.
  - destruct (expire_stale_session_leases now st) as [ids st'] eqn:Hrun. cbn.
    destruct (decide (ids = [])) as [->|Hne].
    { unfold expire_stale_session_leases in Hrun. cbn zeta in Hrun.
      destruct (map fst _); by simplify_eq. }
    destruct (expire_some st now ids st' Hrun Hne) as (Hs' & _). split.
    + intros id s Hlook. rewrite Hs' in Hlook. apply fmap_Some in Hlook as (s0 & Hs0 & ->).
      apply Hs in Hs0. destruct (one_of id ids); [|done].
      destruct Hs0 as (Hid & Hnd & _ & Hrest). split; [done|]. split; [done|]. by split.
    + intros id p Hlook. unfold expire_stale_session_leases in Hrun. cbn zeta in Hrun.
      destruct (map fst (List.filter _ (btree_entries (sessions st)))) as [|i l]; [by simplify_eq|].
      injection Hrun as _ <-. unfold refresh_profile_readiness in Hlook.
      cbn [profiles set_profiles] in Hlook. rewrite lookup_fmap in Hlook.
      apply fmap_Some in Hlook as (p0 & Hp0 & ->). cbn.
      rewrite (proj1 (apply_builtin_keeps _)) in Hp0. by apply Hp.
Qed.

(** ** The allocation view and the gate *)

Lemma elem_of_values_of {A} (m : gmap string A) a : a ∈ values_of m <-> exists k, m !! k = Some a.
Proof.
  unfold values_of. rewrite list_elem_of_fmap. split.
  - intros ([k a'] & -> & Hin%elem_of_btree_entries). by exists k.
  - intros (k & Hk). exists (k, a). split; [done|]. by apply elem_of_btree_entries.
Qed.

(** The view names as exclusive holders of a profile the sessions with an exclusive or a
    human lease of it; every rival the gate would stop a launch for is among them, and
    a view that shows no exclusive holder says that no launch would be stopped. *)
Theorem allocation_shows_rivals st P (Hwf : well_formed st) :
  let view := service_profile_allocation st P in
  lists_ids (fun id => exists s, sessions st !! id = Some s /\ se_profile_id s = Some P
      /\ (se_lease s = ServiceTabs.Exclusive \/ se_lease s = ServiceTabs.HumanTakeover))
    (pa_exclusive_holder_session_ids view) /\
  (forall S c, rival st S P c -> c ∈ pa_exclusive_holder_session_ids view) /\
  (pa_lease_state view <> "exclusive" -> pa_lease_state view <> "conflicted" ->
     forall S, no_rival st S P).
Proof.
  intros view.
  assert (lists_ids (fun id => exists s, sessions st !! id = Some s /\ se_profile_id s = Some P
      /\ (se_lease s = ServiceTabs.Exclusive \/ se_lease s = ServiceTabs.HumanTakeover))
    (pa_exclusive_holder_session_ids view)) as Hlist.
  { apply btree_set_lists. intros id. rewrite elem_of_list_to_set, list_elem_of_fmap. split.
    - intros (s & -> & Hin). apply elem_of_filter_list in Hin as [Hin Hex].
      apply elem_of_filter_list in Hin as [Hin Hheld].
      apply elem_of_values_of in Hin as (k & Hk). pose proof (proj1 Hwf k s Hk) as (-> & _).
      exists s. split; [done|]. unfold holds_profile in Hheld.
      apply andb_true_iff in Hheld as [HP%bool_decide_eq_true _]. split; [done|].
      unfold exclusive_or_takeover in Hex. destruct (se_lease s); auto; done.
    - intros (s & Hs & HP & Hlease). exists s. pose proof (proj1 Hwf id s Hs) as (Hid & _).
      split; [done|]. apply elem_of_filter_list. split; [apply elem_of_filter_list; split|].
      + apply elem_of_values_of. by exists id.
      + unfold holds_profile. rewrite HP. rewrite bool_decide_eq_true_2 by done.
        by destruct Hlease as [-> | ->].
      + unfold exclusive_or_takeover. by destruct Hlease as [-> | ->]. }
  assert (forall S c, rival st S P c -> c ∈ pa_exclusive_holder_session_ids view) as Hrival.
  { intros S c (s & Hs & _ & HP & Hlease & _). apply Hlist. exists s. auto. }
  split_and!; [done|done|]. intros Hne Hnc S c Hc%Hrival.
  revert Hne Hnc Hc. unfold view, service_profile_allocation; cbn [pa_lease_state
    pa_exclusive_holder_session_ids].
  destruct (btree_set (list_to_set (map se_id _))) as [|x l]; [by intros _ _ ?%elem_of_nil|].
  cbn. destruct (no_ids (btree_set (non_empty_set _))), (no_ids (btree_set (_ ∪ _))); cbn; done.
Qed.

End leases.

End ProfileTheorems.
