(* ===== verification/ServiceHealth.v ===== *)
(** * Health and recovery of the retained browsers

    Model of the first half of [cli/src/native/service_health.rs] over the service
    state of [service_model.rs]: what is recorded when a browser is found unhealthy,
    the retry budget of its recovery, the retry an operator allows, the close of a
    browser with the release of its displays, routes and lease, and the events these
    record.

    A state is that of [RemoteRoute], whose browsers and whose remaining collections
    are filled in here; the lease of a session is the one of [ProfileSelection], a tab
    the one of [ServiceTabs]. Of the collections of the source, incidents, handoffs,
    acquisition receipts, monitors, providers, challenges and the capability registry
    are not among them: no operation here reads or writes those but [incidents], which
    [refresh_derived_views] derives from the rest. *)

From Stdlib Require Import Ascii.
From stdpp Require Import gmap sorting pretty.
From S2P Require Import Prelude RustStr Env RemoteRoute RemoteAttach ServiceJobs ControlJobs ServiceTabs ProcessProof ProfileSelection ProfileLeases.
Import ServiceJobs ServiceTabs ProfileSelection RemoteRoute.RemoteRoute.

Module ServiceHealth.

(** ** Data *)

Inductive BrowserRecoveryReasonKind :=
| ReasonProcessExited | ReasonCdpDisconnected | ReasonUnreachableEndpoint | ReasonDegradedTargets
| ReasonOperatorRequestedClose | ReasonPersistedUnhealthyState | ReasonUnknown.
Inductive BrowserProcessExitCause := UnexpectedProcessExit | OperatorRequestedClose.
Inductive BrowserRecoveryPolicyValueSource := FromDefault | FromConfig | FromEnv | FromCli.
Record BrowserRecoveryPolicySource := {
  ps_retry_budget : BrowserRecoveryPolicyValueSource;
  ps_base_backoff_ms : BrowserRecoveryPolicyValueSource;
  ps_max_backoff_ms : BrowserRecoveryPolicyValueSource;
}.
Record BrowserRecoveryPolicyConfig := {
  pc_retry_budget : Z;
  pc_base_backoff_ms : Z;
  pc_max_backoff_ms : Z;
  pc_source : BrowserRecoveryPolicySource;
}.
Record BrowserRecoveryPolicy := {
  rp_attempt : Z;
  rp_retry_budget : Z;
  rp_retry_budget_exceeded : bool;
  rp_next_retry_delay_ms : Z;
  rp_source : BrowserRecoveryPolicySource;
}.
Inductive BrowserRecoveryPersistence := NotRecorded | Recorded | Blocked (reason : string).
Record BrowserShutdownOutcome := {
  polite_close_attempted : bool;
  polite_close_succeeded : bool;
  polite_close_failed : bool;
  force_kill_attempted : bool;
  force_kill_succeeded : bool;
  force_kill_failed : bool;
  errors : list string;
}.
Record ControlPlaneSnapshot := {
  cs_worker_state : string;
  cs_browser_health : string;
  cs_queue_depth : Z;
  cs_queue_capacity : Z;
  cs_waiting_profile_lease_job_count : Z;
  cs_service_job_timeout_ms : option Z;
  cs_service_monitor_interval_ms : option Z;
  cs_updated_at : option string;
}.
Record ServiceReconciliationSnapshot := {
  rs_last_reconciled_at : option string;
  rs_last_error : option string;
  rs_browser_count : nat;
  rs_changed_browsers : nat;
}.
(** A target of the browser's HTTP endpoint. *)
Record CdpHttpTargetInfo := {
  ct_id : string;
  ct_target_type : string;
  ct_title : string;
  ct_url : string;
}.

#[export] Instance kind_eq_dec : EqDecision ServiceEventKind.
Proof. solve_decision. Defined.
#[export] Instance input_eq_dec : EqDecision ControlInputProvider.
Proof. solve_decision. Defined.

(** What the system answers to the questions the operations ask, each at its tick: the
    clock, random identifiers, [kill(pid, 0)], the two HTTP probes of a browser and the
    sockets of displays. *)
Class HealthEnv := {
  timestamp_at : nat -> string;
  uuid_at : nat -> string;
  running_at : nat -> Z -> bool;
  reachable_at : nat -> string -> bool;
  targets_at : nat -> string -> res (list CdpHttpTargetInfo);
  display_socket_at : nat -> string -> bool;
}.

(** [for (k, v) in v.as_object()]. *)
Class JsonEntries `{!Json} := {
  as_object : value -> option (list (string * value));
  jget_as_object : forall v l k u, as_object v = Some l -> jget v k = Some u -> (k, u) ∈ l;
}.

Section health.
Context `{!Json}.

Record BrowserHealthObservation := {
  ho_observed_at : string;
  ho_health : BrowserHealth;
  ho_reason_kind : option string;
  ho_failure_class : option string;
  ho_process_exit_cause : option string;
  ho_message : option string;
  ho_details : option value;
}.

(** The fields of a browser that [RemoteRoute] leaves open. *)
Record BrowserExtra := {
  bx_browser_build : option BrowserBuild;
  bx_executable_path : option string;
  bx_browser_build_proof : option value;
  bx_display_isolation : option string;
  bx_pid : option Z;
  bx_cdp_endpoint : option string;
  bx_tab_handles : list ServiceTabHandle;
  bx_last_error : option string;
  bx_last_health_observation : option BrowserHealthObservation;
}.

(** The collections of the service state that [RemoteRoute] leaves open. *)
Record StateExtra := {
  sx_control_plane : option ControlPlaneSnapshot;
  sx_reconciliation : option ServiceReconciliationSnapshot;
  sx_events : list ServiceEvent;
  sx_profiles : gmap string BrowserProfile;
  sx_sessions : gmap string BrowserSession;
  sx_tabs : gmap string ServiceTabs.BrowserTab;
  sx_jobs : gmap string ServiceJob;
  sx_site_policies : gmap string SitePolicy;
  sx_default_browser_build : option BrowserBuild;
  sx_profile_sources : gmap string ServiceEntitySource;
  sx_policy_sources : gmap string ServiceEntitySource;
}.

End health.

Notation BrowserProcess := (@RemoteRoute.BrowserProcess _ BrowserExtra).
Notation ServiceState := (@RemoteRoute.ServiceState _ BrowserExtra StateExtra).
Notation events s := (sx_events (st_other s)).
Notation sessions s := (sx_sessions (st_other s)).
Notation tabs s := (sx_tabs (st_other s)).
Notation profiles s := (sx_profiles (st_other s)).
Notation pid b := (bx_pid (bp_other b)).
Notation cdp_endpoint b := (bx_cdp_endpoint (bp_other b)).
Notation last_error b := (bx_last_error (bp_other b)).
Notation last_health_observation b := (bx_last_health_observation (bp_other b)).

Section equality.
Context `{!Json}.
#[export] Instance trace_filter_eq_dec : EqDecision ServiceTabHandleTraceFilter.
Proof. solve_decision. Defined.
#[export] Instance cleanup_eq_dec : EqDecision SessionCleanupPolicy.
Proof. solve_decision. Defined.
#[export] Instance origin_eq_dec : EqDecision ProfileOrigin.
Proof. solve_decision. Defined.
#[export] Instance handle_eq_dec : EqDecision ServiceTabHandle.
Proof. solve_decision. Defined.
#[export] Instance actor_eq_dec : EqDecision ServiceActor.
Proof. solve_decision. Defined.
#[export] Instance build_eq_dec : EqDecision BrowserBuild.
Proof. solve_decision. Defined.
#[export] Instance observation_eq_dec : EqDecision BrowserHealthObservation.
Proof. solve_decision. Defined.
#[export] Instance extra_eq_dec : EqDecision BrowserExtra.
Proof. solve_decision. Defined.
#[export] Instance stream_eq_dec : EqDecision ViewStream.
Proof. solve_decision. Defined.
#[export] Instance browser_eq_dec : EqDecision BrowserProcess.
Proof. solve_decision. Defined.
#[export] Instance session_eq_dec : EqDecision BrowserSession.
Proof. solve_decision. Defined.
#[export] Instance tab_eq_dec : EqDecision ServiceTabs.BrowserTab.
Proof. solve_decision. Defined.
#[export] Instance display_eq_dec : EqDecision DisplayAllocation.
Proof. solve_decision. Defined.
#[export] Instance route_eq_dec : EqDecision RemoteViewRoute.
Proof. solve_decision. Defined.
#[export] Instance readiness_eq_dec : EqDecision ProfileTargetReadiness.
Proof. solve_decision. Defined.
#[export] Instance class_eq_dec : EqDecision ProfileClass.
Proof. solve_decision. Defined.
#[export] Instance profile_eq_dec : EqDecision BrowserProfile.
Proof. solve_decision. Defined.
End equality.

(** ** Field assignments *)

Section updates.
Context `{!Json}.

Definition with_displays (d : gmap string DisplayAllocation) (s : ServiceState) : ServiceState :=
  {| display_allocations := d; remote_view_routes := remote_view_routes s;
     route_pool := route_pool s;
     remote_view_acquisition_leases := remote_view_acquisition_leases s;
     viewer_leases := viewer_leases s; browsers := browsers s; st_other := st_other s |}.
Definition with_routes (r : gmap string RemoteViewRoute) (s : ServiceState) : ServiceState :=
  {| display_allocations := display_allocations s; remote_view_routes := r;
     route_pool := route_pool s;
     remote_view_acquisition_leases := remote_view_acquisition_leases s;
     viewer_leases := viewer_leases s; browsers := browsers s; st_other := st_other s |}.
Definition with_pool (p : gmap string RoutePoolEntry) (s : ServiceState) : ServiceState :=
  {| display_allocations := display_allocations s; remote_view_routes := remote_view_routes s;
     route_pool := p; remote_view_acquisition_leases := remote_view_acquisition_leases s;
     viewer_leases := viewer_leases s; browsers := browsers s; st_other := st_other s |}.
Definition with_viewers (v : gmap string ViewerLease) (s : ServiceState) : ServiceState :=
  {| display_allocations := display_allocations s; remote_view_routes := remote_view_routes s;
     route_pool := route_pool s;
     remote_view_acquisition_leases := remote_view_acquisition_leases s; viewer_leases := v;
     browsers := browsers s; st_other := st_other s |}.
Definition with_browsers (b : gmap string BrowserProcess) (s : ServiceState) : ServiceState :=
  {| display_allocations := display_allocations s; remote_view_routes := remote_view_routes s;
     route_pool := route_pool s;
     remote_view_acquisition_leases := remote_view_acquisition_leases s;
     viewer_leases := viewer_leases s; browsers := b; st_other := st_other s |}.
Definition with_extra (x : StateExtra) (s : ServiceState) : ServiceState :=
  {| display_allocations := display_allocations s; remote_view_routes := remote_view_routes s;
     route_pool := route_pool s;
     remote_view_acquisition_leases := remote_view_acquisition_leases s;
     viewer_leases := viewer_leases s; browsers := browsers s; st_other := x |}.

Definition set_snapshots (control_plane : option ControlPlaneSnapshot)
    (reconciliation : option ServiceReconciliationSnapshot) (s : ServiceState) : ServiceState :=
  let x := st_other s in
  with_extra {| sx_control_plane := control_plane; sx_reconciliation := reconciliation;
     sx_events := sx_events x; sx_profiles := sx_profiles x; sx_sessions := sx_sessions x;
     sx_tabs := sx_tabs x; sx_jobs := sx_jobs x; sx_site_policies := sx_site_policies x;
     sx_default_browser_build := sx_default_browser_build x;
     sx_profile_sources := sx_profile_sources x; sx_policy_sources := sx_policy_sources x |} s.
Definition set_events (e : list ServiceEvent) (s : ServiceState) : ServiceState :=
  let x := st_other s in
  with_extra {| sx_control_plane := sx_control_plane x; sx_reconciliation := sx_reconciliation x;
     sx_events := e; sx_profiles := sx_profiles x; sx_sessions := sx_sessions x;
     sx_tabs := sx_tabs x; sx_jobs := sx_jobs x; sx_site_policies := sx_site_policies x;
     sx_default_browser_build := sx_default_browser_build x;
     sx_profile_sources := sx_profile_sources x; sx_policy_sources := sx_policy_sources x |} s.
Definition set_sessions (m : gmap string BrowserSession) (s : ServiceState) : ServiceState :=
  let x := st_other s in
  with_extra {| sx_control_plane := sx_control_plane x; sx_reconciliation := sx_reconciliation x;
     sx_events := sx_events x; sx_profiles := sx_profiles x; sx_sessions := m;
     sx_tabs := sx_tabs x; sx_jobs := sx_jobs x; sx_site_policies := sx_site_policies x;
     sx_default_browser_build := sx_default_browser_build x;
     sx_profile_sources := sx_profile_sources x; sx_policy_sources := sx_policy_sources x |} s.
Definition set_tabs (m : gmap string ServiceTabs.BrowserTab) (s : ServiceState) : ServiceState :=
  let x := st_other s in
  with_extra {| sx_control_plane := sx_control_plane x; sx_reconciliation := sx_reconciliation x;
     sx_events := sx_events x; sx_profiles := sx_profiles x; sx_sessions := sx_sessions x;
     sx_tabs := m; sx_jobs := sx_jobs x; sx_site_policies := sx_site_policies x;
     sx_default_browser_build := sx_default_browser_build x;
     sx_profile_sources := sx_profile_sources x; sx_policy_sources := sx_policy_sources x |} s.
Definition set_readiness (p : gmap string BrowserProfile) (policies : gmap string SitePolicy)
    (sources : gmap string ServiceEntitySource) (s : ServiceState) : ServiceState :=
  let x := st_other s in
  with_extra {| sx_control_plane := sx_control_plane x; sx_reconciliation := sx_reconciliation x;
     sx_events := sx_events x; sx_profiles := p; sx_sessions := sx_sessions x;
     sx_tabs := sx_tabs x; sx_jobs := sx_jobs x; sx_site_policies := policies;
     sx_default_browser_build := sx_default_browser_build x;
     sx_profile_sources := sx_profile_sources x; sx_policy_sources := sources |} s.

Definition set_other (x : BrowserExtra) (b : BrowserProcess) : BrowserProcess :=
  {| bp_id := bp_id b; bp_profile_id := bp_profile_id b; bp_host := bp_host b;
     bp_health := bp_health b; bp_display_name := bp_display_name b;
     bp_display_allocation_id := bp_display_allocation_id b;
     bp_view_streams := bp_view_streams b; bp_attachability := bp_attachability b;
     bp_active_session_ids := bp_active_session_ids b; bp_other := x |}.
(** [health], [last_error] and [last_health_observation]. *)
Definition set_health (health : BrowserHealth) (error : option string)
    (observation : option BrowserHealthObservation) (b : BrowserProcess) : BrowserProcess :=
  let x := bp_other b in
  {| bp_id := bp_id b; bp_profile_id := bp_profile_id b; bp_host := bp_host b;
     bp_health := health; bp_display_name := bp_display_name b;
     bp_display_allocation_id := bp_display_allocation_id b;
     bp_view_streams := bp_view_streams b; bp_attachability := bp_attachability b;
     bp_active_session_ids := bp_active_session_ids b;
     bp_other := {| bx_browser_build := bx_browser_build x;
       bx_executable_path := bx_executable_path x;
       bx_browser_build_proof := bx_browser_build_proof x;
       bx_display_isolation := bx_display_isolation x; bx_pid := bx_pid x;
       bx_cdp_endpoint := bx_cdp_endpoint x; bx_tab_handles := bx_tab_handles x;
       bx_last_error := error; bx_last_health_observation := observation |} |}.
Definition set_handles (handles : list ServiceTabHandle) (b : BrowserProcess) : BrowserProcess :=
  let x := bp_other b in
  set_other {| bx_browser_build := bx_browser_build x;
     bx_executable_path := bx_executable_path x;
     bx_browser_build_proof := bx_browser_build_proof x;
     bx_display_isolation := bx_display_isolation x; bx_pid := bx_pid x;
     bx_cdp_endpoint := bx_cdp_endpoint x; bx_tab_handles := handles;
     bx_last_error := bx_last_error x;
     bx_last_health_observation := bx_last_health_observation x |} b.
(** [display_allocation_id], [view_streams] and [active_session_ids]. *)
Definition set_custody (display : option string) (streams : list ViewStream)
    (active : list string) (b : BrowserProcess) : BrowserProcess :=
  {| bp_id := bp_id b; bp_profile_id := bp_profile_id b; bp_host := bp_host b;
     bp_health := bp_health b; bp_display_name := bp_display_name b;
     bp_display_allocation_id := display; bp_view_streams := streams;
     bp_attachability := bp_attachability b; bp_active_session_ids := active;
     bp_other := bp_other b |}.
Definition set_active (active : list string) (b : BrowserProcess) : BrowserProcess :=
  set_custody (bp_display_allocation_id b) (bp_view_streams b) active b.

(** [lease], [last_lease_observed_at], [profile_lease_conflict_session_ids], [browser_ids]
    and [tab_ids]. *)
Definition set_session (lease : LeaseState) (observed : option string) (conflicts : list string)
    (browser_ids tab_ids : list string) (s : BrowserSession) : BrowserSession :=
  {| se_id := se_id s; se_service_name := se_service_name s; se_agent_name := se_agent_name s;
     se_task_name := se_task_name s; se_owner := se_owner s; se_lease := lease;
     se_profile_id := se_profile_id s;
     se_profile_selection_reason := se_profile_selection_reason s;
     se_profile_lease_disposition := se_profile_lease_disposition s;
     se_profile_lease_conflict_session_ids := conflicts;
     se_browser_capability_launch := se_browser_capability_launch s;
     se_cleanup := se_cleanup s; se_browser_ids := browser_ids; se_tab_ids := tab_ids;
     se_created_at := se_created_at s; se_last_lease_observed_at := observed;
     se_expires_at := se_expires_at s |}.
Definition set_owned (browser_ids tab_ids : list string) (s : BrowserSession) : BrowserSession :=
  set_session (se_lease s) (se_last_lease_observed_at s)
    (se_profile_lease_conflict_session_ids s) browser_ids tab_ids s.
Definition set_lease (lease : LeaseState) (observed : option string) (s : BrowserSession)
    : BrowserSession :=
  set_session lease observed (se_profile_lease_conflict_session_ids s) (se_browser_ids s)
    (se_tab_ids s) s.

End updates.

(** [Vec::retain] with the ids of a set left out. *)
Definition without (out : gset string) (l : list string) : list string :=
  List.filter (fun id => negb (bool_decide (id ∈ out))) l.

(** ** Views of the state the other components define their operations on *)

Section views.
Context `{!Json, !JsonTree, !UrlLib, !Chrono}.

Definition lease_browser (b : BrowserProcess) : ProfileSelection.BrowserProcess :=
  {| br_id := bp_id b; br_profile_id := bp_profile_id b; br_host := bp_host b;
     br_health := bp_health b; br_pid := pid b; br_cdp_endpoint := cdp_endpoint b;
     br_active_session_ids := bp_active_session_ids b |}.
Definition lease_tab (t : ServiceTabs.BrowserTab) : ProfileSelection.BrowserTab :=
  {| tb_id := bt_id t; tb_session_id := bt_session_id t;
     tb_owner_session_id := bt_owner_session_id t |}.
Definition lease_view (s : ServiceState) : ProfileSelection.ServiceState :=
  let x := st_other s in
  {| ProfileSelection.profiles := sx_profiles x;
     ProfileSelection.browsers := lease_browser <$> browsers s;
     ProfileSelection.sessions := sx_sessions x;
     ProfileSelection.tabs := lease_tab <$> sx_tabs x; ProfileSelection.jobs := sx_jobs x;
     site_policies := sx_site_policies x;
     default_browser_build := sx_default_browser_build x;
     profile_sources := sx_profile_sources x; policy_sources := sx_policy_sources x |}.
Definition tab_browser (b : BrowserProcess) : ServiceTabs.BrowserProcess :=
  {| ServiceTabs.bp_id := bp_id b; ServiceTabs.bp_profile_id := bp_profile_id b;
     ServiceTabs.bp_health := bp_health b; ServiceTabs.bp_cdp_endpoint := cdp_endpoint b;
     ServiceTabs.bp_active_session_ids := bp_active_session_ids b;
     ServiceTabs.bp_tab_handles := bx_tab_handles (bp_other b) |}.
Definition tab_session (s : BrowserSession) : ServiceTabs.BrowserSession :=
  {| bs_service_name := se_service_name s; bs_agent_name := se_agent_name s;
     bs_task_name := se_task_name s; bs_lease := se_lease s; bs_profile_id := se_profile_id s;
     bs_cleanup := se_cleanup s; bs_browser_ids := se_browser_ids s; bs_tab_ids := se_tab_ids s;
     bs_expires_at := se_expires_at s |}.
Definition tab_view (s : ServiceState) : ServiceTabs.ServiceState :=
  let x := st_other s in
  {| ServiceTabs.profiles :=
       (fun p => {| bf_profile_origin := pf_profile_origin p |}) <$> sx_profiles x;
     ServiceTabs.browsers := tab_browser <$> browsers s;
     ServiceTabs.sessions := tab_session <$> sx_sessions x; ServiceTabs.tabs := sx_tabs x;
     ServiceTabs.jobs := sx_jobs x |}.

Definition refresh_profile_readiness (s : ServiceState) : ServiceState :=
  let v := ProfileLeases.refresh_profile_readiness (lease_view s) in
  set_readiness (ProfileSelection.profiles v) (site_policies v) (policy_sources v) s.
Definition refresh_service_tab_handles (s : ServiceState) : ServiceState :=
  let v := ServiceTabs.refresh_service_tab_handles (tab_view s) in
  with_browsers (map_imap (fun id b =>
      Some match ServiceTabs.browsers v !! id with
           | Some b' => set_handles (ServiceTabs.bp_tab_handles b') b
           | None => b
           end) (browsers s))
    (set_tabs (ServiceTabs.tabs v) s).
(** The incidents it derives next are not part of the state. *)
Definition refresh_derived_views (s : ServiceState) : ServiceState :=
  refresh_service_tab_handles (refresh_profile_readiness s).

Definition expire_stale_session_leases (observed_at : string) (s : ServiceState)
    : list string * ServiceState :=
  let '(expired, v) := ProfileLeases.expire_stale_session_leases observed_at (lease_view s) in
  match expired with
  | [] => (expired, s)
  | _ :: _ =>
      (expired,
       refresh_service_tab_handles
         (set_readiness (ProfileSelection.profiles v) (site_policies v) (policy_sources v)
            (set_sessions (ProfileSelection.sessions v)
               (with_browsers (map_imap (fun id b =>
                    Some match ProfileSelection.browsers v !! id with
                         | Some b' => set_active (br_active_session_ids b') b
                         | None => b
                         end) (browsers s)) s))))
  end.
End views.

(** ** Names *)

Definition browser_recovery_reason_kind_as_str (r : BrowserRecoveryReasonKind) : string :=
  match r with
  | ReasonProcessExited => "process_exited"
  | ReasonCdpDisconnected => "cdp_disconnected"
  | ReasonUnreachableEndpoint => "unreachable_endpoint"
  | ReasonDegradedTargets => "degraded_targets"
  | ReasonOperatorRequestedClose => "operator_requested_close"
  | ReasonPersistedUnhealthyState => "persisted_unhealthy_state"
  | ReasonUnknown => "unknown"
  end%string.
Definition browser_process_exit_cause_as_str (c : BrowserProcessExitCause) : string :=
  match c with
  | UnexpectedProcessExit => "unexpected_process_exit"
  | OperatorRequestedClose => "operator_requested_close"
  end%string.
Definition policy_value_source_as_str (s : BrowserRecoveryPolicyValueSource) : string :=
  match s with
  | FromDefault => "default" | FromConfig => "config" | FromEnv => "env" | FromCli => "cli"
  end%string.
Definition recovery_reason_kind_for_health (health : BrowserHealth) : BrowserRecoveryReasonKind :=
  match health with
  | ProcessExited => ReasonProcessExited
  | CdpDisconnected => ReasonCdpDisconnected
  | Unreachable => ReasonUnreachableEndpoint
  | Degraded => ReasonDegradedTargets
  | Closing => ReasonOperatorRequestedClose
  | Faulted => ReasonUnknown
  | NotStarted | Launching | Ready | Reconnecting => ReasonPersistedUnhealthyState
  end.
Definition recovery_reason_kind_value_for_health (health : BrowserHealth) : option string :=
  match health with
  | Degraded | Unreachable | ProcessExited | CdpDisconnected | Closing | Faulted =>
      Some (browser_recovery_reason_kind_as_str (recovery_reason_kind_for_health health))
  | _ => None
  end.
Definition process_exit_cause_for_health (health : BrowserHealth)
    : option BrowserProcessExitCause :=
  match health with
  | ProcessExited => Some UnexpectedProcessExit
  | Closing => Some OperatorRequestedClose
  | _ => None
  end.
Definition process_exit_cause_for_recovery_reason (reason_kind : BrowserRecoveryReasonKind)
    : option BrowserProcessExitCause :=
  match reason_kind with
  | ReasonProcessExited => Some UnexpectedProcessExit
  | ReasonOperatorRequestedClose => Some OperatorRequestedClose
  | _ => None
  end.
Definition failure_class_for_health (health : BrowserHealth) : option string :=
  match health with
  | ProcessExited => Some "browser_process_exited"
  | CdpDisconnected => Some "cdp_unresponsive"
  | Unreachable => Some "cdp_endpoint_unreachable"
  | Degraded => Some "target_discovery_failed"
  | Faulted => Some "browser_recovery_faulted"
  | _ => None
  end%string.
Definition failure_class_for_recovery_reason (reason_kind : BrowserRecoveryReasonKind)
    : option string :=
  match reason_kind with
  | ReasonProcessExited => Some "browser_process_exited"
  | ReasonCdpDisconnected => Some "cdp_unresponsive"
  | ReasonUnreachableEndpoint => Some "cdp_endpoint_unreachable"
  | ReasonDegradedTargets => Some "target_discovery_failed"
  | ReasonUnknown => Some "browser_recovery_faulted"
  | _ => None
  end%string.
(** The derived [Debug] of [BrowserHealth]. *)
Definition health_debug (health : BrowserHealth) : string :=
  match health with
  | NotStarted => "NotStarted" | Launching => "Launching" | Ready => "Ready"
  | Degraded => "Degraded" | Unreachable => "Unreachable" | ProcessExited => "ProcessExited"
  | CdpDisconnected => "CdpDisconnected" | Reconnecting => "Reconnecting"
  | Closing => "Closing" | Faulted => "Faulted"
  end%string.

(** ** The retry budget *)

Definition default_recovery_policy_config : BrowserRecoveryPolicyConfig :=
  {| pc_retry_budget := 3; pc_base_backoff_ms := 1000; pc_max_backoff_ms := 30000;
     pc_source := {| ps_retry_budget := FromDefault; ps_base_backoff_ms := FromDefault;
                     ps_max_backoff_ms := FromDefault |} |}.

(** [attempt.saturating_sub(1) as u32] keeps the low 32 bits, [checked_shl] fails from 64
    on, [saturating_mul] stops at [u64::MAX]. *)
Definition recovery_backoff_delay_ms (attempt : Z) (config : BrowserRecoveryPolicyConfig) : Z :=
  (let shift := u64_saturating_sub attempt 1 mod 2 ^ 32 in
   let multiplier := if shift <? 64 then Z.shiftl 1 shift else u64_max in
   Z.min (Z.min (pc_base_backoff_ms config * multiplier) u64_max) (pc_max_backoff_ms config))%Z.

Section policy.
Context `{!Json}.

(** Where the attempts start over. *)
Definition is_recovery_boundary (browser_id : string) (event : ServiceEvent) : bool :=
  ((ev_kind event == BrowserHealthChanged) && (ev_browser_id event == Some browser_id)
   && (ev_current_health event == Some Ready))
  || ((ev_kind event == BrowserRecoveryOverride) && (ev_browser_id event == Some browser_id)).
Definition is_recovery_start (browser_id : string) (event : ServiceEvent) : bool :=
  (ev_kind event == BrowserRecoveryStarted) && (ev_browser_id event == Some browser_id).
(** [take_while] *)
Fixpoint take_while {A} (p : A -> bool) (l : list A) : list A :=
  match l with [] => [] | a :: l' => if p a then a :: take_while p l' else [] end.
Definition prior_attempts (service_state : ServiceState) (browser_id : string) : nat :=
  length (List.filter (is_recovery_start browser_id)
    (take_while (fun event => negb (is_recovery_boundary browser_id event))
       (rev (events service_state)))).
Definition recovery_policy_for_next_attempt (service_state : ServiceState) (browser_id : string)
    (config : BrowserRecoveryPolicyConfig) : BrowserRecoveryPolicy :=
  let attempt := (Z.of_nat (prior_attempts service_state browser_id) + 1)%Z in
  {| rp_attempt := attempt; rp_retry_budget := pc_retry_budget config;
     rp_retry_budget_exceeded := (pc_retry_budget config <? attempt)%Z;
     rp_next_retry_delay_ms := recovery_backoff_delay_ms attempt config;
     rp_source := pc_source config |}.
End policy.

(** ** Operations that ask the system *)

Record HealthWorld `{!Json} := { w_state : ServiceState; w_tick : nat }.
Definition HM `{!Json} (A : Type) : Type := HealthWorld -> A * HealthWorld.

Section operations.
Context `{!Json, !JsonBuild, !JsonTree, !JsonEntries, !UrlLib, !Chrono, !HealthEnv}.

#[global] Instance hm_ret : MRet HM := fun A a w => (a, w).
#[global] Instance hm_bind : MBind HM := fun A B f m w => let '(a, w') := m w in f a w'.
Definition get_state : HM ServiceState := fun w => (w_state w, w).
Definition modify (f : ServiceState -> ServiceState) : HM unit := fun w =>
  (tt, {| w_state := f (w_state w); w_tick := w_tick w |}).
Definition ask {A} (answer : nat -> A) : HM A := fun w =>
  (answer (w_tick w), {| w_state := w_state w; w_tick := S (w_tick w) |}).
Fixpoint hm_iter {A} (f : A -> HM unit) (l : list A) : HM unit :=
  match l with [] => mret tt | a :: l' => f a ≫= fun _ => hm_iter f l' end.

(** [repository.mutate(f)]: [fault] is why the repository fails to load or to save, if it
    does; a mutator that fails leaves the stored state as it was. *)
Definition mutate {A} (fault : option string) (f : HM (res A)) : HM (res A) := fun w =>
  match fault with
  | Some error => (Err error, w)
  | None =>
      let '(r, w') := f w in
      match r with
      | Ok _ => (r, w')
      | Err _ => (r, {| w_state := w_state w; w_tick := w_tick w' |})
      end
  end.

Definition current_timestamp : HM string := ask timestamp_at.

(** [None] where the struct has its default. *)
Definition new_service_event (kind : ServiceEventKind) (message : string)
    (browser_id : option string) (previous current : option BrowserHealth) (details : value)
    : HM ServiceEvent :=
  timestamp ← current_timestamp;
  uuid ← ask uuid_at;
  mret {| ev_id := fmt ["event-"; uuid]%string; ev_timestamp := timestamp; ev_kind := kind;
          ev_message := message; ev_browser_id := browser_id; ev_profile_id := None;
          ev_session_id := None; ev_service_name := None; ev_agent_name := None;
          ev_task_name := None; ev_previous_health := previous; ev_current_health := current;
          ev_details := Some details |}.

Definition MAX_SERVICE_EVENTS : nat := 100.
Definition push_service_event (event : ServiceEvent) (s : ServiceState) : ServiceState :=
  let events := events s ++ [event] in
  set_events (drop (length events - MAX_SERVICE_EVENTS) events) s.

Definition session_id_for_browser (state : ServiceState) (browser_id : string) : option string :=
  fst <$> List.find (fun p => one_of browser_id (se_browser_ids p.2))
            (btree_entries (sessions state)).

Definition enrich_service_event_with_browser_context (event : ServiceEvent) (state : ServiceState)
    (browser_id : string) (browser : BrowserProcess) : ServiceEvent :=
  let session_id := or_else (head (bp_active_session_ids browser))
                      (session_id_for_browser state browser_id) in
  let session := session_id ≫= fun id => sessions state !! id in
  {| ev_id := ev_id event; ev_timestamp := ev_timestamp event; ev_kind := ev_kind event;
     ev_message := ev_message event; ev_browser_id := ev_browser_id event;
     ev_profile_id := or_else (bp_profile_id browser) (session ≫= se_profile_id);
     ev_session_id := session_id; ev_service_name := session ≫= se_service_name;
     ev_agent_name := session ≫= se_agent_name; ev_task_name := session ≫= se_task_name;
     ev_previous_health := ev_previous_health event;
     ev_current_health := ev_current_health event; ev_details := ev_details event |}.

Definition opt_json {A} (f : A -> value) (o : option A) : value :=
  match o with Some a => f a | None => jnull end.
(** [if let Some(v) = o { details[key] = json!(v) }] on an object without the key. *)
Definition field_if (key : string) (o : option string) : list (string * value) :=
  match o with Some v => [(key, jstring v)] | None => [] end.
(** [if let Some(Value::Object(extra)) = extra_details { details.insert(..) }] *)
Definition with_extra_details (details : value) (extra : option value) : value :=
  match extra ≫= as_object with
  | Some entries => foldl (fun d p => default d (jinsert p.1 p.2 d)) details entries
  | None => details
  end.

(** ** Observations *)

Definition browser_health_observation_details (current : BrowserProcess)
    (extra_details : option value) : value :=
  with_extra_details
    (jobject ([("currentError"%string, opt_json jstring (last_error current))]
       ++ field_if "currentReasonKind" (recovery_reason_kind_value_for_health (bp_health current))
       ++ field_if "failureClass" (failure_class_for_health (bp_health current))
       ++ field_if "processExitCause"
            (browser_process_exit_cause_as_str
               <$> process_exit_cause_for_health (bp_health current))))
    extra_details.

Definition browser_health_observation (observed_at : string) (current : BrowserProcess)
    (details : option value) : BrowserHealthObservation :=
  let text key := details ≫= fun v => jstr v key in
  {| ho_observed_at := observed_at; ho_health := bp_health current;
     ho_reason_kind := text "currentReasonKind"%string;
     ho_failure_class := text "failureClass"%string;
     ho_process_exit_cause := text "processExitCause"%string;
     ho_message := last_error current; ho_details := details |}.

Definition apply_browser_health_observation (browser : BrowserProcess) (details : option value)
    : HM BrowserProcess :=
  match bp_health browser with
  | Ready | NotStarted => mret (set_health (bp_health browser) (last_error browser) None browser)
  | _ =>
      observed_at ← current_timestamp;
      mret (set_health (bp_health browser) (last_error browser)
              (Some (browser_health_observation observed_at browser details)) browser)
  end.

Definition mark_stream_unavailable (browser_id reason : string) (health : BrowserHealth)
    (s : ViewStream) : ViewStream :=
  match vs_provider s with
  | CdpScreencast =>
      {| vs_id := vs_id s; vs_provider := vs_provider s; vs_control_input := None;
         vs_url := None; vs_frame_url := None; vs_external_url := None;
         vs_route_descriptor := vs_route_descriptor s; vs_route_id := vs_route_id s;
         vs_display_allocation_id := vs_display_allocation_id s;
         vs_connection_id := vs_connection_id s; vs_connection_name := vs_connection_name s;
         vs_route_source := vs_route_source s; vs_provider_mode := vs_provider_mode s;
         vs_viewer_lease_ids := vs_viewer_lease_ids s;
         vs_controller_lease_id := vs_controller_lease_id s; vs_read_only := true;
         vs_readiness := Some (jobject
           [("state", jstring "unavailable"); ("reason", jstring reason);
            ("browserId", jstring browser_id);
            ("health", jstring (RemoteAttach.health_name health))]%string);
         vs_remote_readiness := None; vs_attachability := vs_attachability s |}
  | _ => s
  end.
Definition mark_cdp_screencast_streams_unavailable (browser : BrowserProcess) (reason : string)
    (health : BrowserHealth) : BrowserProcess :=
  set_custody (bp_display_allocation_id browser)
    (map (mark_stream_unavailable (bp_id browser) reason health) (bp_view_streams browser))
    (bp_active_session_ids browser) browser.

(** ** Events *)

Definition record_browser_health_changed_event_with_details (browser_id : string)
    (previous : option BrowserProcess) (current : BrowserProcess) (extra_details : option value)
    : HM unit :=
  match previous with
  | None => mret tt
  | Some previous =>
      if (bp_health previous == bp_health current) && (last_error previous == last_error current)
      then mret tt
      else
        let details := with_extra_details
          (jobject ([("previousError"%string, opt_json jstring (last_error previous));
                     ("currentError"%string, opt_json jstring (last_error current))]
             ++ field_if "currentReasonKind"
                  (recovery_reason_kind_value_for_health (bp_health current))
             ++ field_if "failureClass" (failure_class_for_health (bp_health current))
             ++ field_if "processExitCause"
                  (browser_process_exit_cause_as_str
                     <$> process_exit_cause_for_health (bp_health current))
             ++ field_if "previousReasonKind"
                  (recovery_reason_kind_value_for_health (bp_health previous))))
          extra_details in
        event ← new_service_event BrowserHealthChanged
          (fmt ["Browser "; browser_id; " health changed from ";
                health_debug (bp_health previous); " to "; health_debug (bp_health current)])
          (Some browser_id) (Some (bp_health previous)) (Some (bp_health current)) details;
        modify (fun s => push_service_event
                  (enrich_service_event_with_browser_context event s browser_id current) s)
  end.
Definition record_browser_health_changed_event (browser_id : string)
    (previous : option BrowserProcess) (current : BrowserProcess) : HM unit :=
  record_browser_health_changed_event_with_details browser_id previous current None.

Definition policy_fields (policy : BrowserRecoveryPolicy) : list (string * value) :=
  [("attempt", jnumber (rp_attempt policy)); ("retryBudget", jnumber (rp_retry_budget policy));
   ("retryBudgetExceeded", jbool (rp_retry_budget_exceeded policy));
   ("nextRetryDelayMs", jnumber (rp_next_retry_delay_ms policy));
   ("policySource", jobject
     [("retryBudget", jstring (policy_value_source_as_str (ps_retry_budget (rp_source policy))));
      ("baseBackoffMs",
       jstring (policy_value_source_as_str (ps_base_backoff_ms (rp_source policy))));
      ("maxBackoffMs",
       jstring (policy_value_source_as_str (ps_max_backoff_ms (rp_source policy))))])]%string.

Definition record_browser_recovery_started_event_with_details (browser_id : string)
    (current : BrowserProcess) (reason_kind : BrowserRecoveryReasonKind) (reason : string)
    (policy : option BrowserRecoveryPolicy) (extra_details : option value) : HM unit :=
  let details := with_extra_details
    (jobject ([("reasonKind", jstring (browser_recovery_reason_kind_as_str reason_kind));
               ("reason", jstring reason); ("pid", opt_json jnumber (pid current));
               ("cdpEndpoint", opt_json jstring (cdp_endpoint current))]%string
       ++ field_if "processExitCause" (browser_process_exit_cause_as_str
                                         <$> process_exit_cause_for_recovery_reason reason_kind)
       ++ field_if "failureClass" (failure_class_for_recovery_reason reason_kind)
       ++ match policy with Some policy => policy_fields policy | None => [] end))
    extra_details in
  event ← new_service_event BrowserRecoveryStarted
    (fmt ["Browser "; browser_id; " recovery started"]%string) (Some browser_id) None
    (Some (bp_health current)) details;
  modify (fun s => push_service_event
            (enrich_service_event_with_browser_context event s browser_id current) s).
Definition record_browser_recovery_started_event (browser_id : string) (current : BrowserProcess)
    (reason_kind : BrowserRecoveryReasonKind) (reason : string)
    (policy : option BrowserRecoveryPolicy) : HM unit :=
  record_browser_recovery_started_event_with_details browser_id current reason_kind reason policy
    None.

Definition set_browser (id : string) (browser : BrowserProcess) (s : ServiceState) : ServiceState :=
  with_browsers (<[id := browser]> (browsers s)) s.
(** [let mut b = b; apply_browser_health_observation(&mut b, Some(&details))] with the
    details of the browser itself. *)
Definition observed (browser : BrowserProcess) (extra_details : option value)
    : HM BrowserProcess :=
  apply_browser_health_observation browser
    (Some (browser_health_observation_details browser extra_details)).
Definition service_browser_id_for_session (session_id : string) : string :=
  fmt ["session:"; session_id]%string.

(** ** Finding a browser unhealthy *)

Definition stale_browser_process_record (id session_id : string)
    (previous : option BrowserProcess) (pid : option Z) (cdp_endpoint : option string)
    (health : BrowserHealth) (last_error : string) : BrowserProcess :=
  let x := bp_other <$> previous in
  mark_cdp_screencast_streams_unavailable
    {| bp_id := id; bp_profile_id := previous ≫= bp_profile_id;
       bp_host := default AttachedExisting (bp_host <$> previous); bp_health := health;
       bp_display_name := previous ≫= bp_display_name;
       bp_display_allocation_id := previous ≫= bp_display_allocation_id;
       bp_view_streams := default [] (bp_view_streams <$> previous);
       bp_attachability := None; bp_active_session_ids := [session_id];
       bp_other := {| bx_browser_build := x ≫= bx_browser_build;
         bx_executable_path := x ≫= bx_executable_path;
         bx_browser_build_proof := x ≫= bx_browser_build_proof;
         bx_display_isolation := x ≫= bx_display_isolation; bx_pid := pid;
         bx_cdp_endpoint := cdp_endpoint;
         bx_tab_handles := default [] (bx_tab_handles <$> x);
         bx_last_error := Some last_error; bx_last_health_observation := None |} |}
    "browser_not_ready" health.

Definition faulted_error (policy : BrowserRecoveryPolicy) : string :=
  fmt ["Browser recovery retry budget exceeded after "; pretty (rp_retry_budget policy);
       " attempts; next retry delay "; pretty (rp_next_retry_delay_ms policy); " ms"]%string.

(** The budget is spent: the browser is recorded as faulted. *)
Definition record_faulted (id : string) (browser : BrowserProcess)
    (policy : BrowserRecoveryPolicy) : HM (res BrowserRecoveryPersistence) :=
  let faulted_error := faulted_error policy in
  faulted ← observed (set_health Faulted (Some faulted_error)
                        (last_health_observation browser) browser) None;
  _ ← record_browser_health_changed_event id (Some browser) faulted;
  _ ← modify (set_browser id faulted);
  mret (Ok (Blocked faulted_error)).

Definition persist_current_browser_stale_health (session_id : string) (pid : option Z)
    (cdp_endpoint : option string) (policy_config : BrowserRecoveryPolicyConfig)
    (health : BrowserHealth) (reason_kind : BrowserRecoveryReasonKind) (last_error : string)
    (event_details : option value) : HM (res BrowserRecoveryPersistence) :=
  let id := service_browser_id_for_session session_id in
  service_state ← get_state;
  let previous := browsers service_state !! id in
  browser ← observed (stale_browser_process_record id session_id previous pid cdp_endpoint
                        health last_error) event_details;
  _ ← record_browser_health_changed_event_with_details id previous browser event_details;
  service_state ← get_state;
  let policy := recovery_policy_for_next_attempt service_state id policy_config in
  if rp_retry_budget_exceeded policy then record_faulted id browser policy
  else
    _ ← record_browser_recovery_started_event_with_details id browser reason_kind last_error
          (Some policy) event_details;
    _ ← modify (set_browser id browser);
    mret (Ok Recorded).

(** [.unwrap_or(BrowserRecoveryPersistence::NotRecorded)] *)
Definition or_not_recorded (r : res BrowserRecoveryPersistence) : BrowserRecoveryPersistence :=
  match r with Ok p => p | Err _ => NotRecorded end.
Definition persist_current_browser_stale_health_in_repository (fault : option string)
    (session_id : string) (pid : option Z) (cdp_endpoint : option string)
    (policy_config : BrowserRecoveryPolicyConfig) (health : BrowserHealth)
    (reason_kind : BrowserRecoveryReasonKind) (last_error : string)
    (event_details : option value) : HM BrowserRecoveryPersistence :=
  r ← mutate fault (persist_current_browser_stale_health session_id pid cdp_endpoint
                      policy_config health reason_kind last_error event_details);
  mret (or_not_recorded r).

(** ** Recovering from what is retained *)

Definition is_recoverable_health (health : BrowserHealth) : bool :=
  match health with
  | Degraded | ProcessExited | CdpDisconnected | Unreachable | Faulted => true
  | _ => false
  end.
(** The last event that reported the browser unhealthy. *)
Definition unhealthy_event (id : string) (events : list ServiceEvent) : option ServiceEvent :=
  List.find (fun event =>
    (ev_browser_id event == Some id) && (ev_kind event == BrowserHealthChanged)
    && match ev_current_health event with Some h => is_recoverable_health h | None => false end)
    (rev events).

Definition u32_of (v : value) : option Z :=
  pid ← as_u64 v; if (pid <=? u32_max)%Z then Some pid else None.
Definition historical_browser (id session_id : string) (event : ServiceEvent) : BrowserProcess :=
  let detail key := details ← ev_details event; jget details key in
  {| bp_id := id; bp_profile_id := None; bp_host := LocalHeaded;
     bp_health := default Unreachable (ev_current_health event); bp_display_name := None;
     bp_display_allocation_id := None; bp_view_streams := []; bp_attachability := None;
     bp_active_session_ids := [session_id];
     bp_other := {| bx_browser_build := None; bx_executable_path := None;
       bx_browser_build_proof := None; bx_display_isolation := None;
       bx_pid := or_else (detail "processExitPid"%string) (detail "pid"%string) ≫= u32_of;
       bx_cdp_endpoint := detail "cdpEndpoint"%string ≫= as_str; bx_tab_handles := [];
       bx_last_error := or_else (detail "currentError"%string ≫= as_str)
                          (Some (ev_message event));
       bx_last_health_observation := None |} |}.

(** [state.events.last_mut()] with the context of the historical event. *)
Definition with_event_context (historical event : ServiceEvent) (session_id : string)
    : ServiceEvent :=
  {| ev_id := ev_id event; ev_timestamp := ev_timestamp event; ev_kind := ev_kind event;
     ev_message := ev_message event; ev_browser_id := ev_browser_id event;
     ev_profile_id := ev_profile_id historical;
     ev_session_id := or_else (ev_session_id historical) (Some session_id);
     ev_service_name := ev_service_name historical; ev_agent_name := ev_agent_name historical;
     ev_task_name := ev_task_name historical; ev_previous_health := ev_previous_health event;
     ev_current_health := ev_current_health event; ev_details := ev_details event |}.
Definition alter_last {A} (f : A -> A) (l : list A) : list A := alter f (pred (length l)) l.

Definition persist_browser_recovery_started (session_id : string)
    (policy_config : BrowserRecoveryPolicyConfig) (reason : string)
    : HM (res BrowserRecoveryPersistence) :=
  let id := service_browser_id_for_session session_id in
  service_state ← get_state;
  let historical_event := unhealthy_event id (events service_state) in
  match or_else (browsers service_state !! id)
          (historical_browser id session_id <$> historical_event) with
  | None => mret (Ok NotRecorded)
  | Some browser =>
      if negb (is_recoverable_health (bp_health browser)) then mret (Ok NotRecorded)
      else
        let event_reason := default reason (last_error browser) in
        let policy := recovery_policy_for_next_attempt service_state id policy_config in
        if rp_retry_budget_exceeded policy then record_faulted id browser policy
        else
          _ ← record_browser_recovery_started_event id browser
                (recovery_reason_kind_for_health (bp_health browser)) event_reason (Some policy);
          _ ← modify (fun s =>
                match browsers s !! id with
                | Some _ => s
                | None =>
                    set_browser id browser
                      match historical_event with
                      | Some historical =>
                          set_events (alter_last (fun event =>
                            with_event_context historical event session_id) (events s)) s
                      | None => s
                      end
                end);
          mret (Ok Recorded)
  end.
Definition persist_browser_recovery_started_in_repository (fault : option string)
    (session_id : string) (policy_config : BrowserRecoveryPolicyConfig) (reason : string)
    : HM BrowserRecoveryPersistence :=
  r ← mutate fault (persist_browser_recovery_started session_id policy_config reason);
  mret (or_not_recorded r).

(** ** The retry an operator allows *)

Record RetryRequest := {
  rr_timestamp : string;
  rr_actor : string;
  rr_note : option string;
  rr_service_name : option string;
  rr_agent_name : option string;
  rr_task_name : option string;
}.

Definition service_browser_recovery_override_event (browser : BrowserProcess)
    (previous_health : BrowserHealth) (request : RetryRequest) : HM ServiceEvent :=
  uuid ← ask uuid_at;
  mret {| ev_id := fmt ["event-"; uuid]%string; ev_timestamp := rr_timestamp request;
          ev_kind := BrowserRecoveryOverride;
          ev_message := fmt ["Browser "; bp_id browser; " recovery retry enabled by ";
                             rr_actor request]%string;
          ev_browser_id := Some (bp_id browser); ev_profile_id := bp_profile_id browser;
          ev_session_id := head (bp_active_session_ids browser);
          ev_service_name := rr_service_name request; ev_agent_name := rr_agent_name request;
          ev_task_name := rr_task_name request; ev_previous_health := Some previous_health;
          ev_current_health := Some (bp_health browser);
          ev_details := Some (jobject
            ([("incidentId", jstring (bp_id browser)); ("actor", jstring (rr_actor request));
              ("action", jstring "retry_enabled");
              ("previousHealth", jstring (RemoteAttach.health_name previous_health));
              ("currentHealth", jstring (RemoteAttach.health_name (bp_health browser)))]%string
             ++ field_if "note" (rr_note request))) |}.

(** The incident the call also returns is a derived view. *)
Definition enable_service_browser_retry_in_state (browser_id : string) (request : RetryRequest)
    (expected_health : BrowserHealth) : HM (res BrowserProcess) :=
  state ← get_state;
  match browsers state !! browser_id with
  | None => mret (Err (fmt ["Service browser not found: "; browser_id]%string))
  | Some previous =>
      if bp_health previous != expected_health
      then mret (Err (fmt ["Service browser "; browser_id; " is not ";
                           RemoteAttach.health_name expected_health; "; current health is ";
                           RemoteAttach.health_name (bp_health previous)]%string))
      else
        retryable ← observed
          (set_health ProcessExited
             (Some (fmt ["Browser retry requested by "; rr_actor request; "; previous ";
                         RemoteAttach.health_name (bp_health previous); " state: ";
                         default "no prior detail recorded" (last_error previous)]%string))
             (last_health_observation previous) previous) None;
        _ ← record_browser_health_changed_event browser_id (Some previous) retryable;
        _ ← modify (set_browser browser_id retryable);
        event ← service_browser_recovery_override_event retryable (bp_health previous) request;
        _ ← modify (push_service_event event);
        _ ← modify refresh_derived_views;
        mret (Ok retryable)
  end.
Definition retry_service_browser_in_state (browser_id : string) (request : RetryRequest)
    : HM (res BrowserProcess) :=
  enable_service_browser_retry_in_state browser_id request Faulted.
Definition retry_degraded_service_browser_in_state (browser_id : string) (request : RetryRequest)
    : HM (res BrowserProcess) :=
  enable_service_browser_retry_in_state browser_id request Degraded.
Definition retry_persisted_service_browser_in_repository (fault : option string)
    (browser_id : string) (request : RetryRequest) : HM (res BrowserProcess) :=
  r ← mutate fault (retry_service_browser_in_state browser_id request);
  mret match r with
       | Err err =>
           Err (if starts_with "Failed to" err || starts_with "Invalid service state" err
                then fmt ["Unable to load service state: "; err]%string else err)
       | Ok browser => Ok browser
       end.

(** ** Removing a browser *)

Definition remove_browser_operational_record (browser_id : string)
    (explicit_session_id : option string) (service_state : ServiceState) : nat * ServiceState :=
  let removed_browser := browsers service_state !! browser_id in
  let owns (session : BrowserSession) := one_of browser_id (se_browser_ids session) in
  let related_session_ids : gset string :=
    list_to_set
      (match explicit_session_id with Some id => [id] | None => [] end
       ++ match removed_browser with Some b => bp_active_session_ids b | None => [] end)
    ∪ dom (filter (fun p => owns p.2 = true) (sessions service_state)) in
  let tab_ids : gset string :=
    dom (filter (fun p => bt_browser_id p.2 = browser_id) (tabs service_state)) in
  let sessions_left :=
    (fun session => set_owned (List.filter (fun id => id != browser_id) (se_browser_ids session))
                      (without tab_ids (se_tab_ids session)) session)
    <$> sessions service_state in
  let removable_session_ids : gset string :=
    filter (fun id => match sessions_left !! id with
                      | Some session => no_ids (se_browser_ids session)
                                        && no_ids (se_tab_ids session)
                      | None => false
                      end = true) related_session_ids in
  (match removed_browser with Some _ => 1 | None => 0 end,
   refresh_derived_views
     (with_browsers
        ((fun b => set_active (without removable_session_ids (bp_active_session_ids b)) b)
         <$> delete browser_id (browsers service_state))
        (set_sessions (filter (fun p => p.1 ∉ removable_session_ids) sessions_left)
           (set_tabs (filter (fun p => p.1 ∉ tab_ids) (tabs service_state)) service_state)))).

(** ** Closing a browser *)

Definition close_health_from_outcome (outcome : option BrowserShutdownOutcome)
    : BrowserHealth * option string :=
  match outcome with
  | None => (NotStarted, None)
  | Some outcome =>
      if force_kill_failed outcome
      then (Faulted, Some (fmt ["Force kill failed; OS may be degraded. ";
                                str_join "; " (errors outcome)]%string))
      else if polite_close_failed outcome
      then (Degraded, Some (fmt ["Polite browser close failed; force kill was required. ";
                                 str_join "; " (errors outcome)]%string))
      else (NotStarted, None)
  end.

Definition shutdown_failure_class (outcome : BrowserShutdownOutcome) : string :=
  if force_kill_failed outcome then "browser_shutdown_force_kill_failed"
  else if polite_close_failed outcome then "browser_shutdown_degraded"
  else "operator_requested_close".
(** The state its displays are left in, and why. *)
Definition release_state (outcome : option BrowserShutdownOutcome) : string * string :=
  match outcome with
  | Some outcome =>
      if force_kill_failed outcome || polite_close_failed outcome
      then ("degraded", shutdown_failure_class outcome)
      else ("released", "operator_requested_close")
  | None => ("released", "operator_requested_close")
  end%string.

Definition closed_allocation (state failure_class now : string) (a : DisplayAllocation)
    : DisplayAllocation :=
  {| da_id := da_id a; da_display_name := da_display_name a;
     da_display_isolation := da_display_isolation a;
     da_owner_browser_id := da_owner_browser_id a; da_owner_session_id := da_owner_session_id a;
     da_profile_id := da_profile_id a; da_browser_build := da_browser_build a;
     da_host := da_host a; da_state := state; da_pid_hints := da_pid_hints a;
     da_route_ids := if state == "released"%string then [] else da_route_ids a;
     da_created_at := da_created_at a; da_updated_at := Some now;
     da_last_health_check_at := da_last_health_check_at a;
     da_readiness := Some (jobject
       [("state", jstring state); ("reason", jstring "operator_requested_close");
        ("failureClass", jstring failure_class); ("updatedAt", jstring now)]%string) |}.
Definition closed_route (now : string) (r : RemoteViewRoute) : RemoteViewRoute :=
  {| rt_id := rt_id r; rt_provider := rt_provider r;
     rt_display_allocation_id := rt_display_allocation_id r; rt_browser_id := rt_browser_id r;
     rt_session_id := rt_session_id r; rt_route_source := rt_route_source r;
     rt_connection_id := rt_connection_id r; rt_connection_name := rt_connection_name r;
     rt_route_template := rt_route_template r; rt_frame_url := rt_frame_url r;
     rt_external_url := rt_external_url r; rt_route_descriptor := rt_route_descriptor r;
     rt_read_only := rt_read_only r; rt_control_input := rt_control_input r;
     rt_provider_mode := rt_provider_mode r; rt_state := "released"; rt_viewer_lease_ids := [];
     rt_controller_lease_id := None;
     rt_last_provider_event := Some "route_released_after_browser_close"%string;
     rt_readiness := Some (jobject
       [("state", jstring "released"); ("reason", jstring "browser_closed");
        ("updatedAt", jstring now)]%string) |}.
Definition set_entry (state : string) (route : option string) (readiness : option value)
    (e : RoutePoolEntry) : RoutePoolEntry :=
  {| pe_id := pe_id e; pe_provider := pe_provider e; pe_route_id := pe_route_id e;
     pe_connection_id := pe_connection_id e; pe_connection_name := pe_connection_name e;
     pe_frame_url := pe_frame_url e; pe_external_url := pe_external_url e;
     pe_route_descriptor := pe_route_descriptor e; pe_target := pe_target e;
     pe_provider_mode := pe_provider_mode e; pe_state := state;
     pe_current_route_allocation_id := route; pe_readiness := readiness |}.

(** One pass of [for route_id in route_ids]. *)
Definition release_route (browser_id display_allocation_id now : string) (s : ServiceState)
    (route_id : string) : ServiceState :=
  let s :=
    match remote_view_routes s !! route_id with
    | Some route =>
        if (rt_display_allocation_id route == Some display_allocation_id)
           && (rt_browser_id route == Some browser_id)
        then with_routes (<[route_id := closed_route now route]> (remote_view_routes s)) s
        else s
    | None => s
    end in
  with_pool ((fun entry =>
      if pe_current_route_allocation_id entry == Some route_id
      then set_entry "available" None (pe_readiness entry) entry else entry)
    <$> route_pool s) s.

Definition release_one_browser_display_allocation_after_close (browser : BrowserProcess)
    (session_id state failure_class now : string) (s : ServiceState)
    (display_allocation_id : string) : ServiceState :=
  let referenced_route_ids : gset string :=
    dom (filter (fun p => rt_display_allocation_id p.2 = Some display_allocation_id
                   /\ (rt_browser_id p.2 = Some (bp_id browser)
                       \/ rt_session_id p.2 = Some session_id)) (remote_view_routes s)) in
  match display_allocations s !! display_allocation_id with
  | None => s
  | Some allocation =>
      if (da_owner_browser_id allocation != Some (bp_id browser))
         || (da_owner_session_id allocation != Some session_id) then s
      else
        let route_ids := ProfileLeases.btree_set
          (list_to_set (da_route_ids allocation) ∪ referenced_route_ids) in
        let s := with_displays
          (<[display_allocation_id := closed_allocation state failure_class now allocation]>
             (display_allocations s)) s in
        if state == "released"%string
        then foldl (release_route (bp_id browser) display_allocation_id now) s route_ids
        else s
  end.

Definition release_browser_display_allocation_after_close (browser : BrowserProcess)
    (session_id : string) (outcome : option BrowserShutdownOutcome) : HM unit :=
  let '(state, failure_class) := release_state outcome in
  now ← current_timestamp;
  modify (fun s =>
    let display_allocation_ids : gset string :=
      list_to_set (match bp_display_allocation_id browser with Some id => [id] | None => [] end)
      ∪ dom (filter (fun p => da_owner_browser_id p.2 = Some (bp_id browser)
                        \/ da_owner_session_id p.2 = Some session_id) (display_allocations s)) in
    foldl (release_one_browser_display_allocation_after_close browser session_id state
             failure_class now) s (ProfileLeases.btree_set display_allocation_ids)).

(** The custody an expected state promised has changed. *)
Definition custody_changed (service_state expected : ServiceState) (session_id : string) : bool :=
  let id := service_browser_id_for_session session_id in
  let profile_id := browsers expected !! id ≫= bp_profile_id in
  negb (is_some (browsers expected !! id))
  || (browsers service_state !! id != browsers expected !! id)
  || (sessions service_state !! session_id != sessions expected !! session_id)
  || negb (is_some profile_id)
  || match profile_id with
     | Some id => profiles service_state !! id != profiles expected !! id
     | None => false
     end
  || existsb (fun p =>
       let other : BrowserSession := p.2 in
       (se_id other != session_id) && (se_lease other != Released)
       && ((se_profile_id other == profile_id) || one_of id (se_browser_ids other)))
       (map_to_list (sessions service_state)).

Definition shutdown_details (outcome : BrowserShutdownOutcome) : value :=
  jobject
    [("shutdownReasonKind",
      jstring (browser_recovery_reason_kind_as_str ReasonOperatorRequestedClose));
     ("processExitCause", jstring (browser_process_exit_cause_as_str OperatorRequestedClose));
     ("failureClass", jstring (shutdown_failure_class outcome));
     ("shutdownRequested", jbool true);
     ("politeCloseAttempted", jbool (polite_close_attempted outcome));
     ("politeCloseSucceeded", jbool (polite_close_succeeded outcome));
     ("politeCloseFailed", jbool (polite_close_failed outcome));
     ("forceKillAttempted", jbool (force_kill_attempted outcome));
     ("forceKillSucceeded", jbool (force_kill_succeeded outcome));
     ("forceKillFailed", jbool (force_kill_failed outcome))]%string.

Definition closed_browser (id session_id : string) (previous : option BrowserProcess)
    (outcome : option BrowserShutdownOutcome) : BrowserProcess :=
  let '(health, last_error) := close_health_from_outcome outcome in
  mark_cdp_screencast_streams_unavailable
    {| bp_id := id; bp_profile_id := previous ≫= bp_profile_id;
       bp_host := default LocalHeaded (bp_host <$> previous); bp_health := health;
       bp_display_name := previous ≫= bp_display_name;
       bp_display_allocation_id := previous ≫= bp_display_allocation_id;
       bp_view_streams := default [] (bp_view_streams <$> previous);
       bp_attachability := None; bp_active_session_ids := [session_id];
       bp_other := {| bx_browser_build := None; bx_executable_path := None;
         bx_browser_build_proof := None;
         bx_display_isolation := previous ≫= fun b => bx_display_isolation (bp_other b);
         bx_pid := None; bx_cdp_endpoint := None; bx_tab_handles := [];
         bx_last_error := last_error; bx_last_health_observation := None |} |}
    "operator_requested_close" health.

Definition persist_closed_browser_health (session_id : string)
    (outcome : option BrowserShutdownOutcome) (expected : option ServiceState)
    : HM (res unit) :=
  let id := service_browser_id_for_session session_id in
  service_state ← get_state;
  if match expected with
     | Some expected => custody_changed service_state expected session_id
     | None => false
     end
  then mret (Err "Recovered browser custody changed; terminal records preserved"%string)
  else
    let previous := browsers service_state !! id in
    let details := shutdown_details <$> outcome in
    browser ← observed (closed_browser id session_id previous outcome) details;
    _ ← record_browser_health_changed_event_with_details id previous browser details;
    _ ← release_browser_display_allocation_after_close browser session_id outcome;
    service_state ← get_state;
    _ ← match sessions service_state !! session_id with
        | Some session =>
            now ← current_timestamp;
            modify (fun s => set_sessions
              (<[session_id := set_session Released (Some now) [] (se_browser_ids session)
                                 (se_tab_ids session) session]> (sessions s)) s)
        | None => mret tt
        end;
    _ ← modify (fun s =>
          match bp_health browser with
          | NotStarted => (remove_browser_operational_record id (Some session_id) s).2
          | _ => set_browser id browser s
          end);
    mret (Ok tt).

Definition persist_closed_browser_health_if_unchanged (fault : option string)
    (session_id : string) (outcome : option BrowserShutdownOutcome)
    (expected : option ServiceState) : HM (res unit) :=
  mutate fault (persist_closed_browser_health session_id outcome expected).
Definition persist_closed_browser_health_in_repository (fault : option string)
    (session_id : string) (outcome : option BrowserShutdownOutcome) : HM (res unit) :=
  persist_closed_browser_health_if_unchanged fault session_id outcome None.

End operations.

End ServiceHealth.
