(* ===== verification/ServiceLaunch.v ===== *)
(** * The record of a launched browser

    Model of [persist_service_browser_record_with_refresh] of
    [cli/src/native/service_health.rs] and what it calls: the evidence a record keeps
    of its browser, the display allocated to it, the profile and the session of the
    launch, the process of an external browser found again, and the events. *)

From Stdlib Require Import Ascii.
From stdpp Require Import gmap sorting pretty.
From S2P Require Import Prelude RustStr Env RemoteRoute RemoteAttach ServiceJobs ControlJobs ServiceTabs ProcessProof ProfileSelection ProfileLeases ServiceHealth.
Import ServiceJobs ServiceTabs ProfileSelection RemoteRoute.RemoteRoute ServiceHealth.

Module ServiceLaunch.

Section launch.
Context `{!Json, !JsonBuild, !JsonTree, !JsonEntries, !UrlLib, !Chrono, !HealthEnv}.
Context `{!ProcessProof.Machine, !Crypto, !Serde ProcessProof.RuntimeState, !SerdeValue BrowserBuild}.

Notation browser_build b := (bx_browser_build (bp_other b)).
Notation executable_path b := (bx_executable_path (bp_other b)).
Notation browser_build_proof b := (bx_browser_build_proof (bp_other b)).
Notation display_isolation b := (bx_display_isolation (bp_other b)).

(** The metadata of a launch: what [ProfileSelection] reads of it, and
    [browser_stderr_log_path], [view_streams], [display_isolation] and [display_name]. *)
Record LaunchMetadata := {
  la_metadata : ProfileSelection.ServiceLaunchMetadata;
  la_browser_stderr_log_path : option string;
  la_view_streams : list ViewStream;
  la_display_isolation : option string;
  la_display_name : option string;
}.

(** ** Field assignments *)

Definition set_profile_id (profile_id : option string) (b : BrowserProcess) : BrowserProcess :=
  {| bp_id := bp_id b; bp_profile_id := profile_id; bp_host := bp_host b;
     bp_health := bp_health b; bp_display_name := bp_display_name b;
     bp_display_allocation_id := bp_display_allocation_id b;
     bp_view_streams := bp_view_streams b; bp_attachability := bp_attachability b;
     bp_active_session_ids := bp_active_session_ids b; bp_other := bp_other b |}.
Definition set_handle_profile (profile_id : string) (h : ServiceTabHandle) : ServiceTabHandle :=
  {| th_browser_id := th_browser_id h; th_session_name := th_session_name h;
     th_tab_id := th_tab_id h; th_target_id := th_target_id h; th_url := th_url h;
     th_title := th_title h; th_profile_id := Some profile_id;
     th_profile_origin := th_profile_origin h; th_lease_id := th_lease_id h;
     th_lease_state := th_lease_state h; th_cleanup_policy := th_cleanup_policy h;
     th_lease_heartbeat_expected := th_lease_heartbeat_expected h;
     th_owner_session_id := th_owner_session_id h; th_job_id := th_job_id h;
     th_trace_filter := th_trace_filter h; th_valid := th_valid h;
     th_stale_reason := th_stale_reason h |}.
Definition set_tab_handle (handle : option ServiceTabHandle) (t : ServiceTabs.BrowserTab)
    : ServiceTabs.BrowserTab :=
  {| bt_id := bt_id t; bt_browser_id := bt_browser_id t; bt_target_id := bt_target_id t;
     bt_session_id := bt_session_id t; bt_lifecycle := bt_lifecycle t; bt_url := bt_url t;
     bt_title := bt_title t; bt_owner_session_id := bt_owner_session_id t;
     bt_service_tab_handle := handle; bt_latest_snapshot_id := bt_latest_snapshot_id t;
     bt_latest_screenshot_id := bt_latest_screenshot_id t;
     bt_challenge_id := bt_challenge_id t |}.
Definition set_session_profile (profile_id : string) (s : BrowserSession) : BrowserSession :=
  {| se_id := se_id s; se_service_name := se_service_name s; se_agent_name := se_agent_name s;
     se_task_name := se_task_name s; se_owner := se_owner s; se_lease := se_lease s;
     se_profile_id := Some profile_id;
     se_profile_selection_reason := se_profile_selection_reason s;
     se_profile_lease_disposition := se_profile_lease_disposition s;
     se_profile_lease_conflict_session_ids := se_profile_lease_conflict_session_ids s;
     se_browser_capability_launch := se_browser_capability_launch s;
     se_cleanup := se_cleanup s; se_browser_ids := se_browser_ids s; se_tab_ids := se_tab_ids s;
     se_created_at := se_created_at s;
     se_last_lease_observed_at := se_last_lease_observed_at s;
     se_expires_at := se_expires_at s |}.
Definition set_stream_display (id : string) (s : ViewStream) : ViewStream :=
  {| vs_id := vs_id s; vs_provider := vs_provider s; vs_control_input := vs_control_input s;
     vs_url := vs_url s; vs_frame_url := vs_frame_url s; vs_external_url := vs_external_url s;
     vs_route_descriptor := vs_route_descriptor s; vs_route_id := vs_route_id s;
     vs_display_allocation_id := or_else (vs_display_allocation_id s) (Some id);
     vs_connection_id := vs_connection_id s; vs_connection_name := vs_connection_name s;
     vs_route_source := vs_route_source s; vs_provider_mode := vs_provider_mode s;
     vs_viewer_lease_ids := vs_viewer_lease_ids s;
     vs_controller_lease_id := vs_controller_lease_id s; vs_read_only := vs_read_only s;
     vs_readiness := vs_readiness s; vs_remote_readiness := vs_remote_readiness s;
     vs_attachability := vs_attachability s |}.

Definition set_launched (p : gmap string BrowserProfile) (m : gmap string BrowserSession)
    (sources : gmap string ServiceEntitySource) (s : ServiceState) : ServiceState :=
  let x := st_other s in
  with_extra {| sx_control_plane := sx_control_plane x; sx_reconciliation := sx_reconciliation x;
     sx_events := sx_events x; sx_profiles := p; sx_sessions := m;
     sx_tabs := sx_tabs x; sx_jobs := sx_jobs x; sx_site_policies := sx_site_policies x;
     sx_default_browser_build := sx_default_browser_build x;
     sx_profile_sources := sources; sx_policy_sources := sx_policy_sources x |} s.

(** ** The evidence of an attached browser *)

Definition verified_attached_proof_profile_id (b : BrowserProcess) : option string :=
  match bp_host b with
  | AttachedExisting =>
      proof ← browser_build_proof b;
      if ProcessProof.jbool_is proof "applied"
         && ((jget proof "browserBuild" ≫= ProcessProof.parse_build) == browser_build b)
         && (jstr proof "executablePath" == executable_path b)
         && (jstr proof "cdpEndpoint" == cdp_endpoint b)
         && match pid b with
            | Some n => ProcessProof.ju64 proof "browserPid" == Some n
            | None => true
            end
      then jstr proof "profileId" else None
  | _ => None
  end.
Definition effective_profile_id (b : BrowserProcess) : option string :=
  or_else (verified_attached_proof_profile_id b) (bp_profile_id b).

(** The executable is read whole: opening and reading it fail as one. *)
Definition verified_external_byop_pid_with
    (verify_process : Z -> string -> string -> string -> SM nat Z)
    (browser : BrowserProcess) (profile : BrowserProfile) : SM nat Z :=
  proof ← sm_lift (ok_or "retained BYOP build proof missing"%string
                     (browser_build_proof browser));
  sm_reject_if
    (match bp_host browser with AttachedExisting => false | _ => true end
     || (bp_health browser != Ready)
     || match pf_profile_origin profile with ExternalByop => false | _ => true end
     || (pf_browser_build profile != browser_build browser)
     || (bp_profile_id browser != Some (pf_id profile))
     || (verified_attached_proof_profile_id browser != Some (pf_id profile))
     || negb (ProcessProof.jbool_is proof "applied")
     || (jstr proof "reason" != Some "verified_external_byop_process"%string))
    "retained BYOP identity does not match its verified profile" ≫= fun _ =>
  proof_pid ← sm_lift (ok_or "retained BYOP proof has no valid PID"%string
    (n ← jget proof "browserPid" ≫= u32_of; if (0 <? n)%Z then Some n else None));
  endpoint ← sm_lift (ok_or "retained BYOP endpoint missing"%string (cdp_endpoint browser));
  directory ← sm_lift (ok_or "retained BYOP profile directory missing"%string
                         (pf_user_data_dir profile));
  executable ← sm_lift (ok_or "retained BYOP executable missing"%string
                          (executable_path browser));
  sm_reject_if
    (match pid browser with Some existing => existing != proof_pid | None => false end
     || (jstr proof "cdpEndpoint" != Some endpoint)
     || (jstr proof "userDataDir" != Some directory)
     || (jstr proof "executablePath" != Some executable)
     || (ProcessProof.ju64 proof "processStartTicks" == None))
    "retained BYOP process identity changed" ≫= fun _ =>
  contents ← ProcessProof.demand "retained BYOP executable is unreadable"
               (fun t => ProcessProof.m_read t executable);
  sm_reject_if (jstr proof "executableSha256" != Some (hex_encode (sha256 contents)))
    "retained BYOP live process proof failed" ≫= fun _ =>
  verified ← sm_try (verify_process proof_pid endpoint directory executable);
  sm_reject_if (match verified with Ok ticks => Some ticks | Err _ => None end
                != ProcessProof.ju64 proof "processStartTicks")
    "retained BYOP live process proof failed" ≫= fun _ =>
  mret proof_pid.
Definition verified_external_byop_pid (browser : BrowserProcess) (profile : BrowserProfile)
    : SM nat Z :=
  verified_external_byop_pid_with ProcessProof.verify_external_byop_process browser profile.

(** Looks at the machine, in the clock of the operations. *)
Definition on_machine {A} (m : SM nat A) : HM (res A) := fun w =>
  let '(r, t) := m (w_tick w) in (r, {| w_state := w_state w; w_tick := t |}).

(** ** The display of a launched browser *)

(** [s.chars().map(|c| if c.is_ascii_alphanumeric() { c } else { '-' })] *)
Definition dashed (s : string) : string :=
  of_bytes (map (fun c => if (c <? 128)%N && is_ascii_alphanumeric (ascii_of_N c)
                          then ascii_of_N c else "-"%char) (chars s)).
(** [trim_matches('-')] *)
Definition trim_dashes (s : string) : string :=
  trim_end_matches "-"%char (of_bytes (drop_while (fun c => Ascii.eqb c "-") (bytes_of s))).
Definition display_allocation_id_for_browser (session_id display_isolation : string)
    (display_name : option string) : string :=
  let scope :=
    if display_isolation == "private_virtual_display" then fmt ["session:"; session_id]
    else if one_of display_isolation ["shared_display"; "ambient_display"]
    then default session_id display_name else session_id in
  fmt ["display:"; display_isolation; ":"; trim_dashes (dashed scope)]%string.

Definition build_name (b : BrowserBuild) : string :=
  match b with
  | ProcessProof.StockChrome => "stock_chrome"
  | ProcessProof.StealthcdpChromium => "stealthcdp_chromium"
  | ProcessProof.CdpFreeHeaded => "cdp_free_headed"
  end%string.
Definition allocation_state (health : BrowserHealth) : string :=
  match health with
  | Ready => "ready" | ProcessExited => "orphaned" | _ => "allocating"
  end%string.

(** The allocation as the launch leaves it; [found] is the one of that id, if any. *)
Definition launched_allocation (allocation_id session_id isolation now : string)
    (browser : BrowserProcess) (found : option DisplayAllocation) : DisplayAllocation :=
  let a := default default_display_allocation found in
  {| da_id := match found with Some a => da_id a | None => allocation_id end;
     da_display_name := bp_display_name browser; da_display_isolation := isolation;
     da_owner_browser_id := Some (bp_id browser); da_owner_session_id := Some session_id;
     da_profile_id := bp_profile_id browser;
     da_browser_build := build_name <$> browser_build browser;
     da_host := Some (bp_host browser); da_state := allocation_state (bp_health browser);
     da_pid_hints := (fun n => jobject [("browserPid"%string, jnumber n)]) <$> pid browser;
     da_route_ids := da_route_ids a;
     da_created_at := match found with Some a => da_created_at a | None => Some now end;
     da_updated_at := Some now; da_last_health_check_at := da_last_health_check_at a;
     da_readiness := da_readiness a |}.

Definition upsert_browser_display_allocation (session_id : string) (browser : BrowserProcess)
    : HM BrowserProcess :=
  match bp_host browser, display_isolation browser with
  | RemoteHeaded, Some isolation =>
      let allocation_id :=
        default (display_allocation_id_for_browser session_id isolation (bp_display_name browser))
          (bp_display_allocation_id browser) in
      now ← current_timestamp;
      _ ← modify (fun s => with_displays
            (<[allocation_id :=
                 launched_allocation allocation_id session_id isolation now browser
                   (display_allocations s !! allocation_id)]> (display_allocations s)) s);
      mret (set_custody (Some allocation_id)
              (map (set_stream_display allocation_id) (bp_view_streams browser))
              (bp_active_session_ids browser) browser)
  | RemoteHeaded, None => mret browser
  | _, _ => mret (set_custody None (bp_view_streams browser) (bp_active_session_ids browser)
                    browser)
  end.

(** ** The event *)

Definition host_name (host : BrowserHost) : string :=
  match host with
  | LocalHeadless => "local_headless" | LocalHeaded => "local_headed"
  | DockerHeaded => "docker_headed" | RemoteHeaded => "remote_headed"
  | CloudProvider => "cloud_provider" | AttachedExisting => "attached_existing"
  end%string.
Definition selection_reason_name (r : ProfileSelectionReason) : string :=
  match r with
  | ExplicitProfile => "explicit_profile" | AuthenticatedTarget => "authenticated_target"
  | AccountMatch => "account_match" | TargetMatch => "target_match"
  | ServiceAllowList => "service_allow_list" | BrowserBuildDefault => "browser_build_default"
  end%string.
Definition disposition_name (d : ProfileLeaseDisposition) : string :=
  match d with
  | NewBrowser => "new_browser" | ReusedBrowser => "reused_browser"
  | ActiveLeaseConflict => "active_lease_conflict"
  end%string.

Definition record_browser_launch_recorded_event (browser_id : string)
    (previous : option BrowserProcess) (current : BrowserProcess)
    (metadata : option LaunchMetadata) : HM unit :=
  state ← get_state;
  let session := head (bp_active_session_ids current) ≫= fun id => sessions state !! id in
  let launch := metadata ≫= fun m => lm_browser_capability_launch (la_metadata m) in
  let details := jobject
    ([("previousProfileId", opt_json jstring (previous ≫= bp_profile_id));
      ("currentProfileId", opt_json jstring (bp_profile_id current));
      ("previousSessionIds",
       jarray (map jstring (default [] (bp_active_session_ids <$> previous))));
      ("currentSessionIds", jarray (map jstring (bp_active_session_ids current)));
      ("host", jstring (host_name (bp_host current)));
      ("pid", opt_json jnumber (pid current));
      ("cdpEndpoint", opt_json jstring (cdp_endpoint current));
      ("profileSelectionReason",
       opt_json (fun r => jstring (selection_reason_name r))
         (session ≫= se_profile_selection_reason));
      ("profileLeaseDisposition",
       opt_json (fun d => jstring (disposition_name d)) (session ≫= se_profile_lease_disposition));
      ("profileLeaseConflictSessionIds",
       jarray (map jstring (default [] (se_profile_lease_conflict_session_ids <$> session))))]%string
     ++ field_if "browserStderrLogPath" (metadata ≫= la_browser_stderr_log_path)
     ++ match launch with Some v => [("browserCapabilityLaunch"%string, v)] | None => [] end) in
  event ← new_service_event BrowserLaunchRecorded
    (fmt ["Browser "; browser_id; " launch metadata recorded"]%string) (Some browser_id) None
    (Some (bp_health current)) details;
  modify (fun s => push_service_event
            (enrich_service_event_with_browser_context event s browser_id current) s).

(** ** The launch *)

(** The process of an external browser whose record has lost it. *)
Definition verified_retained_pid (state : ServiceState) (previous : option BrowserProcess)
    (host : BrowserHost) (health : BrowserHealth) (pid : option Z) : HM (option Z) :=
  match pid, health, host with
  | None, Ready, AttachedExisting =>
      match previous ≫= fun browser => bp_profile_id browser ≫= fun profile_id =>
              profile ← profiles state !! profile_id; Some (browser, profile) with
      | Some (browser, profile) =>
          r ← on_machine (verified_external_byop_pid browser profile);
          mret (match r with Ok n => Some n | Err _ => None end)
      | None => mret None
      end
  | _, _, _ => mret None
  end.

Definition same_browser_identity (previous : option BrowserProcess) (host : BrowserHost)
    (launched_pid verified : option Z) (endpoint profile_id : option string) : bool :=
  match previous with
  | Some browser =>
      ((pid browser == launched_pid)
       || ((pid browser == None) && (verified == launched_pid) && is_some launched_pid))
      && (cdp_endpoint browser == endpoint)
      && ((bp_profile_id browser == profile_id)
          || ((host == AttachedExisting) && (bp_host browser == AttachedExisting)
              && is_some (verified_attached_proof_profile_id browser)))
  | None => false
  end.

Definition evidence : Type := option BrowserBuild * option string * option value.
Definition evidence_of (browser : BrowserProcess) : evidence :=
  (browser_build browser, executable_path browser, browser_build_proof browser).
Definition kept_evidence (previous : option BrowserProcess) : evidence :=
  default (None, None, None) (evidence_of <$> previous).
Definition launched_evidence (previous : option BrowserProcess) (same : bool)
    (new_browser_build_proof : option value) : evidence :=
  match new_browser_build_proof with
  | Some proof =>
      if ProcessProof.jbool_is proof "applied" then
        (jget proof "browserBuild" ≫= ProcessProof.parse_build, jstr proof "executablePath",
         Some proof)
      else if same && (jget proof "verificationReason" == None)
              && match previous ≫= (fun browser => browser_build_proof browser) with
                 | Some old => ProcessProof.jbool_is old "applied"
                 | None => false
                 end
      then kept_evidence previous
      else (None, None, Some proof)
  | None => if same then kept_evidence previous else (None, None, None)
  end.

(** The record before its display and its observation. *)
Definition launched_browser (session_id : string) (host : BrowserHost) (health : BrowserHealth)
    (pid : option Z) (cdp_endpoint last_error : option string) (metadata : option LaunchMetadata)
    (previous : option BrowserProcess) (profile_id : option string) (found : evidence)
    : BrowserProcess :=
  {| bp_id := service_browser_id_for_session session_id; bp_profile_id := profile_id;
     bp_host := host; bp_health := health;
     bp_display_name :=
       match metadata with
       | Some m => la_display_name m
       | None => previous ≫= bp_display_name
       end;
     bp_display_allocation_id := previous ≫= bp_display_allocation_id;
     bp_view_streams :=
       match metadata with
       | Some m => la_view_streams m
       | None => default [] (bp_view_streams <$> previous)
       end;
     bp_attachability := None; bp_active_session_ids := [session_id];
     bp_other := {| bx_browser_build := found.1.1; bx_executable_path := found.1.2;
       bx_browser_build_proof := found.2;
       bx_display_isolation :=
         match metadata with
         | Some m => la_display_isolation m
         | None => previous ≫= (fun browser => display_isolation browser)
         end;
       bx_pid := pid; bx_cdp_endpoint := cdp_endpoint;
       bx_tab_handles := default [] ((fun browser => bx_tab_handles (bp_other browser)) <$> previous);
       bx_last_error := last_error; bx_last_health_observation := None |} |}.

(** [upsert_service_profile_and_session], and whether the profile or the session of the
    launch changed. *)
Definition record_launch_profile (session_id : string) (profile_id : option string)
    (metadata : LaunchMetadata) : HM bool :=
  before ← get_state;
  now ← current_timestamp;
  _ ← modify (fun s =>
        let v := ProfileLeases.upsert_service_profile_and_session now (lease_view s) session_id
                   profile_id (la_metadata metadata) in
        set_launched (ProfileSelection.profiles v) (ProfileSelection.sessions v)
          (profile_sources v) s);
  after ← get_state;
  mret (((profile_id ≫= fun id => profiles before !! id)
         != (profile_id ≫= fun id => profiles after !! id))
        || (sessions before !! session_id != sessions after !! session_id)).

(** What a verified attached browser's profile is written to. *)
Definition align_handle (session_id profile_id : string) (h : ServiceTabHandle)
    : ServiceTabHandle :=
  if th_owner_session_id h == Some session_id then set_handle_profile profile_id h else h.
Definition align_tab (browser_id session_id profile_id : string) (t : ServiceTabs.BrowserTab)
    : ServiceTabs.BrowserTab :=
  if (bt_browser_id t == browser_id) && (bt_owner_session_id t == Some session_id)
  then set_tab_handle (set_handle_profile profile_id <$> bt_service_tab_handle t) t else t.
Definition align_verified_profile (session_id : string) (browser : BrowserProcess)
    : HM BrowserProcess :=
  match verified_attached_proof_profile_id browser with
  | Some profile_id =>
      _ ← modify (fun s =>
            set_tabs (align_tab (bp_id browser) session_id profile_id <$> tabs s)
              (set_sessions (alter (set_session_profile profile_id) session_id (sessions s)) s));
      mret (set_handles (map (align_handle session_id profile_id)
                           (bx_tab_handles (bp_other browser))) browser)
  | None => mret browser
  end.

(** The browser of the launch as it is written to the state. *)
Definition recorded_browser (session_id : string) (host : BrowserHost) (health : BrowserHealth)
    (pid : option Z) (cdp_endpoint last_error : option string) (metadata : option LaunchMetadata)
    : HM BrowserProcess :=
  state ← get_state;
  let id := service_browser_id_for_session session_id in
  let previous := browsers state !! id in
  let projected_profile_id :=
    or_else (metadata ≫= fun m => lm_profile_id (la_metadata m)) (previous ≫= bp_profile_id) in
  verified ← verified_retained_pid state previous host health pid;
  let pid := or_else pid verified in
  let same := same_browser_identity previous host pid verified cdp_endpoint
                projected_profile_id in
  let browser :=
    launched_browser session_id host health pid cdp_endpoint last_error metadata previous
      projected_profile_id
      (launched_evidence previous same
         (metadata ≫= fun m => lm_browser_capability_launch (la_metadata m))) in
  let profile_id := or_else (effective_profile_id browser) projected_profile_id in
  displayed ← upsert_browser_display_allocation session_id (set_profile_id profile_id browser);
  browser ← observed displayed None;
  metadata_changed ←
    match metadata with
    | Some m => record_launch_profile session_id profile_id m
    | None => mret false
    end;
  _ ← record_browser_health_changed_event id previous browser;
  _ ← (if metadata_changed : bool
       then record_browser_launch_recorded_event id previous browser metadata else mret tt);
  align_verified_profile session_id browser.

(** [refresh] completes the state before it becomes visible. *)
Definition persist_service_browser_record_with_refresh (fault : option string)
    (session_id : string) (host : BrowserHost) (health : BrowserHealth) (pid : option Z)
    (cdp_endpoint last_error : option string) (metadata : option LaunchMetadata)
    (refresh : ServiceState -> ServiceState) : HM (res unit) :=
  mutate fault
    (browser ← recorded_browser session_id host health pid cdp_endpoint last_error metadata;
     _ ← modify (fun s => RemoteAttach.refresh_remote_view_attachability
           (refresh (set_browser (service_browser_id_for_session session_id) browser s)));
     mret (Ok tt)).
Definition persist_service_browser_record_in_repository (fault : option string)
    (session_id : string) (host : BrowserHost) (health : BrowserHealth) (pid : option Z)
    (cdp_endpoint last_error : option string) (metadata : option LaunchMetadata) : HM (res unit) :=
  persist_service_browser_record_with_refresh fault session_id host health pid cdp_endpoint
    last_error metadata id.

End launch.

End ServiceLaunch.
