(* ===== verification/ServiceReconcile.v ===== *)
(** * Reconciliation of the service state

    Model of the second half of [cli/src/native/service_health.rs]: a reconciliation
    loads a snapshot of the service state, probes the browsers of the copy it works on,
    merges browsers that turn out to be one, follows their tabs, repairs the remote
    views, expires leases, and then merges what it found into the state as other
    processes have changed it meanwhile ([merge_reconciled_service_state]). *)

From Stdlib Require Import Ascii.
From stdpp Require Import gmap sorting pretty.
From S2P Require Import Prelude RustStr Env RemoteRoute RemoteAttach ServiceJobs ControlJobs ServiceTabs ProcessProof ProfileSelection ProfileLeases ServiceHealth.
Import ServiceJobs ServiceTabs ProfileSelection RemoteRoute.RemoteRoute ServiceHealth.

Module ServiceReconcile.

(** [for (id, b) in m { .. t.entry(id) .. }]: the entry of each key of [m], in order. *)
Definition update_each {A B} (f : string -> B -> option A -> option A) (m : gmap string B)
    (t : gmap string A) : gmap string A :=
  foldl (fun t p => partial_alter (f p.1 p.2) p.1 t) t (btree_entries m).

Record RemoteViewReconcileRepair := {
  unavailable_route_pool_entries : nat;
  restored_route_pool_entries : nat;
  released_route_pool_entries : nat;
  orphaned_display_allocations : nat;
  orphaned_routes : nat;
  released_viewer_leases : nat;
  expired_viewer_leases : nat;
  cleared_controller_leases : nat;
}.
Record ServiceReconcileSummary := {
  sm_browser_count : nat;
  sm_changed_browsers : nat;
  sm_expired_session_leases : list string;
  sm_remote_view_repair : RemoteViewReconcileRepair;
}.

Section reconcile.
Context `{!Json, !JsonBuild, !JsonTree, !JsonEntries, !UrlLib, !Chrono, !HealthEnv,
  !SerdeValue ServiceTabHandle}.

Fixpoint hm_fold {A B} (f : B -> A -> HM B) (b : B) (l : list A) : HM B :=
  match l with [] => mret b | a :: l' => b ← f b a; hm_fold f b l' end.

(** ** Probing the browsers *)

Definition refresh_browser_record_health (browser : BrowserProcess) : HM BrowserProcess :=
  match bp_health browser with
  | NotStarted | Launching | Closing => mret browser
  | _ =>
      exited ← match pid browser with
               | Some pid => running ← ask (fun t => running_at t pid); mret (negb running)
               | None => mret false
               end;
      if exited : bool then
        apply_browser_health_observation
          (set_health ProcessExited
             (Some (fmt ["Recorded browser PID "; pretty (default 0%Z (pid browser));
                         " is no longer running"]%string))
             (last_health_observation browser) browser)
          (Some (jobject
            [("currentReasonKind", jstring "process_exited");
             ("failureClass", jstring "browser_process_exited");
             ("processExitCause", jstring "unexpected_process_exit");
             ("processExitDetection", jstring "persisted_pid_probe");
             ("processExitPid", opt_json jnumber (pid browser))]%string))
      else
        match cdp_endpoint browser with
        | None => mret browser
        | Some endpoint =>
            reachable ← ask (fun t => reachable_at t endpoint);
            if reachable : bool then mret (set_health Ready None None browser)
            else
              let '(health, failure_class) :=
                match pid browser with
                | Some _ => (CdpDisconnected, "cdp_unresponsive"%string)
                | None => (Unreachable, "cdp_endpoint_unreachable"%string)
                end in
              apply_browser_health_observation
                (set_health health
                   (Some (fmt ["CDP endpoint is unreachable: "; endpoint]%string))
                   (last_health_observation browser) browser)
                (Some (jobject
                  [("currentReasonKind", jstring (browser_recovery_reason_kind_as_str
                      (recovery_reason_kind_for_health health)));
                   ("failureClass", jstring failure_class);
                   ("cdpProbe", jstring "Browser.getVersion");
                   ("cdpEndpoint", jstring endpoint)]%string))
        end
  end.
Definition refresh_persisted_browser_health : HM unit :=
  state ← get_state;
  hm_iter (fun p => browser ← refresh_browser_record_health p.2;
                    modify (set_browser p.1 browser)) (btree_entries (browsers state)).

(** ** Records of one live browser *)

Definition duplicate_browser_canonical_score (browser : option BrowserProcess)
    : nat * nat * nat * nat :=
  match browser with
  | None => (0, 0, 0, 0)
  | Some browser =>
      (if pid browser then 1 else 0, if bp_display_name browser then 1 else 0,
       length (bp_active_session_ids browser), length (bp_view_streams browser))
  end.
Definition score_cmp (l r : nat * nat * nat * nat) : comparison :=
  let '(a, b, c, d) := l in
  let '(a', b', c', d') := r in
  then_with (a ?= a')%nat (then_with (b ?= b')%nat (then_with (c ?= c')%nat (d ?= d')%nat)).
Definition canonical_le (state : ServiceState) (left right : string) : Prop :=
  then_with (score_cmp (duplicate_browser_canonical_score (browsers state !! right))
                       (duplicate_browser_canonical_score (browsers state !! left)))
    (String.compare left right) <> Gt.
#[local] Instance canonical_le_dec state left right : Decision (canonical_le state left right).
Proof. unfold canonical_le. apply _. Defined.

Definition clear_same_browser_profile_lease_conflicts (browser_id : string) (state : ServiceState)
    : ServiceState :=
  let session_ids : gset string :=
    dom (filter (fun p => one_of browser_id (se_browser_ids p.2) = true) (sessions state)) in
  if (size session_ids <=? 1)%nat then state
  else set_sessions (map_imap (fun id session =>
         Some (if bool_decide (id ∈ session_ids)
               then set_session (se_lease session) (se_last_lease_observed_at session)
                      (without session_ids (se_profile_lease_conflict_session_ids session))
                      (se_browser_ids session) (se_tab_ids session) session
               else session)) (sessions state)) state.

Definition merged_browser (canonical duplicate : BrowserProcess) : BrowserProcess :=
  set_custody (or_else (bp_display_allocation_id canonical) (bp_display_allocation_id duplicate))
    (foldl (fun streams stream =>
       if existsb (fun candidate => vs_id candidate == vs_id stream) streams
       then streams else streams ++ [stream])
       (bp_view_streams canonical) (bp_view_streams duplicate))
    (foldl merge_unique (bp_active_session_ids canonical) (bp_active_session_ids duplicate))
    canonical.
Definition merged_session (canonical_browser_id duplicate_browser_id : string)
    (session : BrowserSession) : BrowserSession :=
  if one_of duplicate_browser_id (se_browser_ids session)
  then set_owned
         (merge_unique (List.filter (fun id => id != duplicate_browser_id)
                          (se_browser_ids session)) canonical_browser_id)
         (se_tab_ids session) session
  else session.
Definition set_tab (browser_id : string) (lifecycle : TabLifecycle) (tab : ServiceTabs.BrowserTab)
    : ServiceTabs.BrowserTab :=
  {| bt_id := bt_id tab; bt_browser_id := browser_id; bt_target_id := bt_target_id tab;
     bt_session_id := bt_session_id tab; bt_lifecycle := lifecycle; bt_url := bt_url tab;
     bt_title := bt_title tab; bt_owner_session_id := bt_owner_session_id tab;
     bt_service_tab_handle := bt_service_tab_handle tab;
     bt_latest_snapshot_id := bt_latest_snapshot_id tab;
     bt_latest_screenshot_id := bt_latest_screenshot_id tab;
     bt_challenge_id := bt_challenge_id tab |}.
Definition set_allocation (owner_browser : option string) (state : string)
    (updated_at last_health_check_at : option string) (readiness : option value)
    (a : DisplayAllocation) : DisplayAllocation :=
  {| da_id := da_id a; da_display_name := da_display_name a;
     da_display_isolation := da_display_isolation a; da_owner_browser_id := owner_browser;
     da_owner_session_id := da_owner_session_id a; da_profile_id := da_profile_id a;
     da_browser_build := da_browser_build a; da_host := da_host a; da_state := state;
     da_pid_hints := da_pid_hints a; da_route_ids := da_route_ids a;
     da_created_at := da_created_at a; da_updated_at := updated_at;
     da_last_health_check_at := last_health_check_at; da_readiness := readiness |}.
(** [browser_id], [state], [viewer_lease_ids], [controller_lease_id],
    [last_provider_event] and [readiness]. *)
Definition set_route (browser_id : option string) (state : string) (viewers : list string)
    (controller event : option string) (readiness : option value) (r : RemoteViewRoute)
    : RemoteViewRoute :=
  {| rt_id := rt_id r; rt_provider := rt_provider r;
     rt_display_allocation_id := rt_display_allocation_id r; rt_browser_id := browser_id;
     rt_session_id := rt_session_id r; rt_route_source := rt_route_source r;
     rt_connection_id := rt_connection_id r; rt_connection_name := rt_connection_name r;
     rt_route_template := rt_route_template r; rt_frame_url := rt_frame_url r;
     rt_external_url := rt_external_url r; rt_route_descriptor := rt_route_descriptor r;
     rt_read_only := rt_read_only r; rt_control_input := rt_control_input r;
     rt_provider_mode := rt_provider_mode r; rt_state := state; rt_viewer_lease_ids := viewers;
     rt_controller_lease_id := controller; rt_last_provider_event := event;
     rt_readiness := readiness |}.
Definition set_viewer (browser_id : option string) (state : string)
    (event updated_at heartbeat : option string) (l : ViewerLease) : ViewerLease :=
  {| vl_id := vl_id l; vl_route_id := vl_route_id l; vl_browser_id := browser_id;
     vl_viewer_id := vl_viewer_id l; vl_viewer_name := vl_viewer_name l;
     vl_viewer_role := vl_viewer_role l; vl_open_mode := vl_open_mode l; vl_state := state;
     vl_last_viewer_event := event; vl_expires_at := vl_expires_at l;
     vl_created_at := vl_created_at l; vl_updated_at := updated_at;
     vl_last_heartbeat_at := heartbeat; vl_service_event_id := vl_service_event_id l |}.

(** One pass of [for allocation in state.display_allocations.values_mut()]; [kept] is the
    allocation of the canonical browser. *)
Definition move_allocation (canonical_browser_id duplicate_browser_id : string)
    (duplicate : BrowserProcess) (kept : option string) (p : string * DisplayAllocation)
    : HM unit :=
  let '(key, allocation) := p in
  if da_owner_browser_id allocation == Some duplicate_browser_id then
    let owner := Some canonical_browser_id in
    allocation ←
      (if (bp_display_allocation_id duplicate == Some (da_id allocation))
          && (kept != Some (da_id allocation))
       then
         now ← current_timestamp;
         mret (set_allocation owner "released" (Some now) (da_last_health_check_at allocation)
                 (Some (jobject
                   [("state", jstring "released");
                    ("reason", jstring "duplicate_browser_record_merged");
                    ("canonicalBrowserId", jstring canonical_browser_id);
                    ("duplicateBrowserId", jstring duplicate_browser_id);
                    ("updatedAt", jstring now)]%string)) allocation)
       else mret (set_allocation owner (da_state allocation) (da_updated_at allocation)
                    (da_last_health_check_at allocation) (da_readiness allocation) allocation));
    modify (fun s => with_displays (<[key := allocation]> (display_allocations s)) s)
  else mret tt.

Definition merge_duplicate_browser_record (canonical_browser_id duplicate_browser_id : string)
    : HM bool :=
  state ← get_state;
  match browsers state !! duplicate_browser_id with
  | None => mret false
  | Some duplicate =>
      match delete duplicate_browser_id (browsers state) !! canonical_browser_id with
      | None => mret false
      | Some canonical =>
          let merged := merged_browser canonical duplicate in
          _ ← modify (fun s =>
                clear_same_browser_profile_lease_conflicts canonical_browser_id
                  (set_sessions
                     (merged_session canonical_browser_id duplicate_browser_id <$> sessions s)
                     (with_browsers (<[canonical_browser_id := merged]>
                                       (delete duplicate_browser_id (browsers s))) s)));
          _ ← modify (fun s => set_tabs
                ((fun tab => if bt_browser_id tab == duplicate_browser_id
                             then set_tab canonical_browser_id (bt_lifecycle tab) tab else tab)
                 <$> tabs s) s);
          _ ← hm_iter (move_allocation canonical_browser_id duplicate_browser_id duplicate
                         (bp_display_allocation_id merged))
                (btree_entries (display_allocations state));
          _ ← modify (fun s => with_routes
                ((fun r => if rt_browser_id r == Some duplicate_browser_id
                           then set_route (Some canonical_browser_id) (rt_state r)
                                  (rt_viewer_lease_ids r) (rt_controller_lease_id r)
                                  (rt_last_provider_event r) (rt_readiness r) r
                           else r) <$> remote_view_routes s) s);
          _ ← modify (fun s => with_viewers
                ((fun l => if vl_browser_id l == Some duplicate_browser_id
                           then set_viewer (Some canonical_browser_id) (vl_state l)
                                  (vl_last_viewer_event l) (vl_updated_at l)
                                  (vl_last_heartbeat_at l) l
                           else l) <$> viewer_leases s) s);
          event ← new_service_event Reconciliation
            (fmt ["Merged duplicate browser record "; duplicate_browser_id; " into ";
                  canonical_browser_id]%string)
            (Some canonical_browser_id) None None
            (jobject
              [("action", jstring "duplicate_browser_record_merged");
               ("canonicalBrowserId", jstring canonical_browser_id);
               ("duplicateBrowserId", jstring duplicate_browser_id);
               ("cdpEndpoint", opt_json jstring (cdp_endpoint duplicate));
               ("activeSessionIds",
                jarray (map jstring (bp_active_session_ids duplicate)))]%string);
          _ ← modify (push_service_event event);
          mret true
      end
  end.

Definition endpoint_groups (state : ServiceState) : gmap string (list string) :=
  foldl (fun groups p =>
    let '(browser_id, browser) := p in
    match bp_health browser, trim <$> cdp_endpoint browser with
    | Ready, Some endpoint =>
        if is_empty endpoint then groups
        else <[endpoint := default [] (groups !! endpoint) ++ [browser_id]]> groups
    | _, _ => groups
    end) ∅ (btree_entries (browsers state)).
Definition merge_duplicate_live_browser_records : HM nat :=
  state ← get_state;
  hm_fold (fun merged p =>
    state ← get_state;
    match merge_sort (canonical_le state) p.2 with
    | [] => mret merged
    | canonical :: duplicates =>
        hm_fold (fun merged duplicate =>
          if duplicate == canonical then mret merged
          else done ← merge_duplicate_browser_record canonical duplicate;
               mret (if done : bool then S merged else merged)) merged duplicates
    end) 0%nat (btree_entries (endpoint_groups state)).

(** ** Following the tabs *)

Definition should_track_service_target (target : CdpHttpTargetInfo) : bool :=
  one_of (ct_target_type target) ["page"; "webview"]%string
  && negb (starts_with "chrome://" (ct_url target))
  && negb (starts_with "chrome-extension://" (ct_url target))
  && negb (starts_with "devtools://" (ct_url target)).
Definition empty_to_none (s : string) : option string := if is_empty s then None else Some s.

Definition target_tab (browser_id : string) (owner_session_id : option string) (tab_id : string)
    (target : CdpHttpTargetInfo) (known : option ServiceTabs.BrowserTab)
    : ServiceTabs.BrowserTab :=
  {| bt_id := tab_id; bt_browser_id := browser_id; bt_target_id := Some (ct_id target);
     bt_session_id := known ≫= bt_session_id; bt_lifecycle := TabReady;
     bt_url := empty_to_none (ct_url target); bt_title := empty_to_none (ct_title target);
     bt_owner_session_id := owner_session_id;
     bt_service_tab_handle := known ≫= bt_service_tab_handle;
     bt_latest_snapshot_id := known ≫= bt_latest_snapshot_id;
     bt_latest_screenshot_id := known ≫= bt_latest_screenshot_id;
     bt_challenge_id := known ≫= bt_challenge_id |}.

(** The relations a repair removes: session and tab. *)
Record SessionTabOwnershipRepair := {
  or_owner_session_id : option string;
  or_live_tab_ids : list string;
  or_removed_relations : list (string * string);
}.

Definition default_session (id : string) : BrowserSession :=
  {| se_id := id; se_service_name := None; se_agent_name := None; se_task_name := None;
     se_owner := ActorSystem; se_lease := Shared; se_profile_id := None;
     se_profile_selection_reason := None; se_profile_lease_disposition := None;
     se_profile_lease_conflict_session_ids := []; se_browser_capability_launch := None;
     se_cleanup := Detach; se_browser_ids := []; se_tab_ids := []; se_created_at := None;
     se_last_lease_observed_at := None; se_expires_at := None |}.

Definition refresh_session_tab_relationships_for_browser (browser_id : string)
    (owner_session_id : option string) (live_tab_ids : gset string) (state : ServiceState)
    : option SessionTabOwnershipRepair * ServiceState :=
  let browser_tab_ids : gset string :=
    dom (filter (fun p => bt_browser_id p.2 = browser_id) (tabs state)) in
  let owned_by (id : string) := owner_session_id == Some id in
  let removed_relations :=
    concat (map (fun p =>
        omap (fun tab_id =>
            if bool_decide (tab_id ∈ browser_tab_ids)
               && negb (owned_by p.1 && bool_decide (tab_id ∈ live_tab_ids))
            then Some (p.1, tab_id) else None) (se_tab_ids p.2))
      (btree_entries (sessions state))) in
  let kept :=
    (fun session => set_owned (se_browser_ids session)
       (without browser_tab_ids (se_tab_ids session)) session) <$> sessions state in
  let claimed :=
    match owner_session_id with
    | Some id =>
        let session := default (default_session id) (kept !! id) in
        <[id := set_owned (merge_unique (se_browser_ids session) browser_id)
                  (foldl merge_unique (se_tab_ids session)
                     (ProfileLeases.btree_set live_tab_ids)) session]> kept
    | None => kept
    end in
  (match removed_relations with
   | [] => None
   | _ :: _ => Some {| or_owner_session_id := owner_session_id;
                       or_live_tab_ids := ProfileLeases.btree_set live_tab_ids;
                       or_removed_relations := removed_relations |}
   end,
   set_sessions claimed state).

Definition record_session_tab_ownership_repaired_event (browser_id : string)
    (browser : BrowserProcess) (repair : SessionTabOwnershipRepair) : HM unit :=
  let removed := length (or_removed_relations repair) in
  event ← new_service_event Reconciliation
    (fmt ["Repaired "; pretty removed; " stale session tab ownership relationships for browser ";
          browser_id]%string) (Some browser_id) None None
    (jobject
      [("action", jstring "session_tab_ownership_repaired"); ("browserId", jstring browser_id);
       ("ownerSessionId", opt_json jstring (or_owner_session_id repair));
       ("liveTabIds", jarray (map jstring (or_live_tab_ids repair)));
       ("removedRelationshipCount", jnumber (Z.of_nat removed));
       ("removedRelations", jarray (map (fun p =>
          jobject [("sessionId", jstring p.1); ("tabId", jstring p.2)])
          (or_removed_relations repair)))]%string);
  modify (fun s => push_service_event
            (enrich_service_event_with_browser_context event s browser_id browser) s).

Definition target_tab_id (target : CdpHttpTargetInfo) : string :=
  fmt ["target:"; ct_id target]%string.
(** The tabs after the listed targets: the known ones of the browser and the closed ones. *)
Definition followed_tabs (browser_id : string) (owner_session_id : option string)
    (targets : list CdpHttpTargetInfo) (known : gmap string ServiceTabs.BrowserTab)
    : gmap string ServiceTabs.BrowserTab :=
  let live : gset string := list_to_set (map target_tab_id targets) in
  (fun tab => if (bt_browser_id tab == browser_id) && negb (bool_decide (bt_id tab ∈ live))
              then set_tab browser_id TabClosed tab else tab)
  <$> foldl (fun tabs target =>
        let tab_id := target_tab_id target in
        <[tab_id := target_tab browser_id owner_session_id tab_id target (tabs !! tab_id)]> tabs)
        known targets.

Definition reconcile_browser_targets (browser_id : string) (browser : BrowserProcess)
    (targets : list CdpHttpTargetInfo) : HM unit :=
  let owner_session_id := head (bp_active_session_ids browser) in
  let targets := List.filter should_track_service_target targets in
  _ ← modify (fun s => set_tabs (followed_tabs browser_id owner_session_id targets (tabs s)) s);
  state ← get_state;
  let '(repair, state) := refresh_session_tab_relationships_for_browser browser_id
                            owner_session_id (list_to_set (map target_tab_id targets)) state in
  _ ← modify (fun _ => state);
  match repair with
  | Some repair => record_session_tab_ownership_repaired_event browser_id browser repair
  | None => mret tt
  end.

Definition close_browser_tabs (browser_id : string) (state : ServiceState) : ServiceState :=
  let closing tab := (bt_browser_id tab == browser_id) && (bt_lifecycle tab != TabClosed) in
  let closed_tab_ids : gset string :=
    list_to_set (map (fun p => bt_id p.2)
      (List.filter (fun p => closing p.2) (map_to_list (tabs state)))) in
  let state := set_tabs
    ((fun tab => if closing tab then set_tab (bt_browser_id tab) TabClosed tab else tab)
     <$> tabs state) state in
  if bool_decide (closed_tab_ids = ∅) then state
  else set_sessions ((fun session => set_owned (se_browser_ids session)
                        (without closed_tab_ids (se_tab_ids session)) session)
                     <$> sessions state) state.

Definition reconcile_live_browser_target (p : string * BrowserProcess) : HM unit :=
  let '(browser_id, browser) := p in
  match bp_health browser, cdp_endpoint browser with
  | Ready, Some endpoint =>
      targets ← ask (fun t => targets_at t endpoint);
      match targets with
      | Err err =>
          state ← get_state;
          _ ← match browsers state !! browser_id with
              | Some browser =>
                  browser ← apply_browser_health_observation
                    (set_health Degraded (Some err) (last_health_observation browser) browser)
                    (Some (jobject
                      [("currentReasonKind", jstring "degraded_targets");
                       ("failureClass", jstring "target_discovery_failed");
                       ("cdpProbe", jstring "/json/list");
                       ("cdpEndpoint", jstring endpoint)]%string));
                  modify (set_browser browser_id browser)
              | None => mret tt
              end;
          modify (close_browser_tabs browser_id)
      | Ok targets => reconcile_browser_targets browser_id browser targets
      end
  | _, _ => modify (close_browser_tabs browser_id)
  end.
Definition reconcile_live_browser_targets : HM unit :=
  state ← get_state;
  hm_iter reconcile_live_browser_target (btree_entries (browsers state)).

(** ** Repairing the remote views *)

Section remote_view.
(** The probe of displays, the clock read once, and the browsers' health. *)
Context (display_socket_available : string -> bool) (now : string).

Definition route_pool_target_string (entry : RoutePoolEntry) (key : string) : option string :=
  s ← jget (pe_target entry) key ≫= as_str;
  let s := trim s in if is_empty s then None else Some s.
Definition display_failure (entry : RoutePoolEntry) : option string :=
  match route_pool_target_string entry "displayName" with
  | Some display_name =>
      if display_socket_available display_name then None
      else Some "route_display_socket_missing"%string
  | None => Some "route_display_missing"%string
  end.
Definition readiness_says (reason : string) (entry : RoutePoolEntry) : bool :=
  match pe_readiness entry with
  | Some readiness =>
      (jstr readiness "component" == Some "route_display"%string)
      && (jstr readiness "reason" == Some reason)
  | None => false
  end.
Definition already_unavailable (reason : string) (entry : RoutePoolEntry) : bool :=
  (pe_state entry == "unavailable"%string) && readiness_says reason entry.
Definition invalidated (entry : RoutePoolEntry) : bool :=
  readiness_says "route_display_socket_missing" entry
  || readiness_says "route_display_missing" entry.
Definition is_rdp (entry : RoutePoolEntry) : bool := pe_provider entry == RdpGateway.

Definition probe_entry (entry : RoutePoolEntry) : RoutePoolEntry :=
  if negb (is_rdp entry) then entry
  else
    match display_failure entry with
    | Some reason =>
        if already_unavailable reason entry then entry
        else set_entry "unavailable" (pe_current_route_allocation_id entry)
               (Some (jobject
                 [("state", jstring "unavailable"); ("component", jstring "route_display");
                  ("reason", jstring reason); ("routePoolEntryId", jstring (pe_id entry));
                  ("displayName",
                   opt_json jstring (route_pool_target_string entry "displayName"));
                  ("retainedState", jstring (pe_state entry));
                  ("retainedReadiness", default jnull (pe_readiness entry));
                  ("updatedAt", jstring now)]%string)) entry
    | None =>
        if invalidated entry
        then set_entry "available" None
               (readiness ← pe_readiness entry; v ← jget readiness "retainedReadiness";
                if is_null v then None else Some v) entry
        else entry
    end.
Definition becomes_unavailable (entry : RoutePoolEntry) : bool :=
  is_rdp entry && match display_failure entry with
                  | Some reason => negb (already_unavailable reason entry)
                  | None => false
                  end.
Definition is_restored (entry : RoutePoolEntry) : bool :=
  is_rdp entry && negb (is_some (display_failure entry)) && invalidated entry.

(** The display of a route that is not there: entry, display and reason. *)
Definition unavailable_display (entry : RoutePoolEntry)
    : option (string * (string * string * string)) :=
  if is_rdp entry then
    reason ← display_failure entry;
    Some (default (pe_route_id entry) (pe_current_route_allocation_id entry),
          (pe_id entry, default "missing"%string (route_pool_target_string entry "displayName"),
           reason))
  else None.
Definition unavailable_route_displays (pool : gmap string RoutePoolEntry)
    : gmap string (string * string * string) :=
  foldl (fun m p => <[p.1 := p.2]> m) ∅
    (omap (fun p => unavailable_display p.2) (btree_entries pool)).

Definition count_of {A} (p : A -> bool) (m : gmap string A) : nat :=
  length (List.filter (fun q => p q.2) (map_to_list m)).

Section health.
Context (browser_health : gmap string BrowserHealth).

Definition is_orphaned (a : DisplayAllocation) : bool :=
  negb (one_of (da_state a) ["released"; "failed"]%string)
  && match da_owner_browser_id a with
     | Some owner => browser_health !! owner != Some Ready
     | None => false
     end.
Definition orphan_allocation (a : DisplayAllocation) : DisplayAllocation :=
  if is_orphaned a then
    let owner := default ""%string (da_owner_browser_id a) in
    set_allocation (da_owner_browser_id a) "orphaned" (Some now) (Some now)
      (Some (jobject
        [("state", jstring "orphaned"); ("component", jstring "browser_process");
         ("reason", jstring "owner_browser_not_ready"); ("browserId", jstring owner);
         ("browserHealth", jstring (default "missing"%string
            (RemoteAttach.health_name <$> browser_health !! owner)));
         ("updatedAt", jstring now)]%string)) a
  else a.

(** Reason, entity and its state. *)
Definition display_problem (unavailable : gmap string (string * string * string))
    (displays : gmap string DisplayAllocation) (route : RemoteViewRoute)
    : option (string * string * string) :=
  match unavailable !! rt_id route with
  | Some (entry_id, display_name, reason) =>
      Some (reason, fmt [entry_id; ":"; display_name], "unavailable"%string)
  | None =>
      id ← rt_display_allocation_id route;
      match displays !! id with
      | Some a =>
          if one_of (da_state a) ["ready"; "allocating"]%string then None
          else Some ("display_allocation_unavailable"%string, id, da_state a)
      | None => Some ("display_allocation_missing", id, "missing")%string
      end
  end.
Definition browser_problem (route : RemoteViewRoute) : option (string * string * string) :=
  id ← rt_browser_id route;
  match browser_health !! id with
  | Some Ready => None
  | Some health => Some ("browser_not_ready"%string, id, RemoteAttach.health_name health)
  | None => Some ("browser_missing", id, "missing")%string
  end.
Definition route_problem (unavailable : gmap string (string * string * string))
    (displays : gmap string DisplayAllocation) (route : RemoteViewRoute)
    : option (string * string * string) :=
  if one_of (rt_state route) ["released"; "failed"]%string then None
  else or_else (display_problem unavailable displays route) (browser_problem route).
Definition orphan_route (unavailable : gmap string (string * string * string))
    (displays : gmap string DisplayAllocation) (route : RemoteViewRoute) : RemoteViewRoute :=
  match route_problem unavailable displays route with
  | Some (reason, entity_id, entity_state) =>
      set_route (rt_browser_id route) "orphaned" (rt_viewer_lease_ids route)
        (rt_controller_lease_id route) (Some reason)
        (Some (jobject
          [("state", jstring "orphaned");
           ("component", jstring
              (if starts_with "route_display" reason then "route_display"
               else if starts_with "display" reason then "display_allocation"
               else "browser_process"));
           ("reason", jstring reason); ("entityId", jstring entity_id);
           ("entityState", jstring entity_state); ("updatedAt", jstring now)]%string)) route
  | None => route
  end.
End health.

(** The state of the route a pool entry is checked out for. *)
Definition entry_route_state (routes : gmap string RemoteViewRoute) (entry : RoutePoolEntry)
    : option string :=
  id ← pe_current_route_allocation_id entry; rt_state <$> routes !! id.
Definition is_releasable (routes : gmap string RemoteViewRoute) (entry : RoutePoolEntry) : bool :=
  (pe_state entry != "unavailable"%string)
  && match entry_route_state routes entry with
     | Some state => one_of state ["orphaned"; "released"; "failed"]%string
     | None => false
     end.
Definition release_entry (routes : gmap string RemoteViewRoute) (entry : RoutePoolEntry)
    : RoutePoolEntry :=
  if is_releasable routes entry then
    set_entry "available" None
      (Some (jobject
        [("state", jstring "ready"); ("component", jstring "route_ownership");
         ("reason", jstring "orphaned_route_released");
         ("routePoolEntryId", jstring (pe_id entry));
         ("releasedRouteId", opt_json jstring (pe_current_route_allocation_id entry));
         ("releasedRouteState", opt_json jstring (entry_route_state routes entry));
         ("updatedAt", jstring now)]%string)) entry
  else entry.

Definition viewer_lease_is_reconcile_active (lease : ViewerLease) : bool :=
  negb (one_of (vl_state lease) ["disconnected"; "expired"; "failed"; "released"]%string).
(** The two texts are compared as texts. *)
Definition viewer_lease_is_expired (lease : ViewerLease) : bool :=
  match trim <$> vl_expires_at lease with
  | Some expires_at => negb (is_empty expires_at) && str_leb expires_at now
  | None => false
  end.
Definition route_unavailable (routes : gmap string RemoteViewRoute) (lease : ViewerLease) : bool :=
  match vl_route_id lease with
  | Some id => match rt_state <$> routes !! id with
               | Some state => negb (one_of state ["ready"; "reconnecting"; "allocating"]%string)
               | None => true
               end
  | None => true
  end.
Definition lease_expires (lease : ViewerLease) : bool :=
  viewer_lease_is_reconcile_active lease && viewer_lease_is_expired lease.
Definition lease_disconnects (routes : gmap string RemoteViewRoute) (lease : ViewerLease) : bool :=
  viewer_lease_is_reconcile_active lease && negb (viewer_lease_is_expired lease)
  && route_unavailable routes lease.
Definition repair_viewer (routes : gmap string RemoteViewRoute) (lease : ViewerLease)
    : ViewerLease :=
  let ended state event :=
    set_viewer (vl_browser_id lease) state (Some event) (Some now) (Some now) lease in
  if lease_expires lease then ended "expired" "expired"
  else if lease_disconnects routes lease then ended "disconnected" "route_unavailable"
  else lease%string.

Definition active_viewer_leases (viewers : gmap string ViewerLease) : gset string :=
  dom (filter (fun p => viewer_lease_is_reconcile_active p.2 = true) viewers).
Definition kept_ids (active : gset string) (ids : list string) : list string :=
  List.filter (fun id => bool_decide (id ∈ active)) ids.
Definition kept_controller (active : gset string) (controller : option string) : option string :=
  id ← controller; if bool_decide (id ∈ active) then Some id else None.
Definition drop_viewers (active : gset string) (route : RemoteViewRoute) : RemoteViewRoute :=
  set_route (rt_browser_id route) (rt_state route) (kept_ids active (rt_viewer_lease_ids route))
    (kept_controller active (rt_controller_lease_id route)) (rt_last_provider_event route)
    (rt_readiness route) route.
Definition loses_controller (active : gset string) (route : RemoteViewRoute) : bool :=
  is_some (rt_controller_lease_id route)
  && negb (is_some (kept_controller active (rt_controller_lease_id route))).

(** The readiness of the route, with the display content the stream already knew; [None]
    when [readiness["displayContent"] = ..] panics. *)
Definition stream_readiness (readiness : value) (stream : ViewStream) : option value :=
  let retained :=
    or_else (v ← vs_remote_readiness stream; jget v "displayContent")
      (v ← vs_readiness stream; jget v "displayContent") in
  match jget readiness "displayContent", retained with
  | None, Some display_content => jindex_set "displayContent" display_content readiness
  | _, _ => Some readiness
  end.
Definition route_readiness (routes : gmap string RemoteViewRoute) (stream : ViewStream)
    : option value :=
  id ← vs_route_id stream; route ← routes !! id; rt_readiness route.
Definition stream_panics (routes : gmap string RemoteViewRoute) (stream : ViewStream) : bool :=
  match route_readiness routes stream with
  | Some readiness => negb (is_some (stream_readiness readiness stream))
  | None => false
  end.
Definition repair_stream (routes : gmap string RemoteViewRoute) (active : gset string)
    (s : ViewStream) : ViewStream :=
  {| vs_id := vs_id s; vs_provider := vs_provider s; vs_control_input := vs_control_input s;
     vs_url := vs_url s; vs_frame_url := vs_frame_url s; vs_external_url := vs_external_url s;
     vs_route_descriptor := vs_route_descriptor s; vs_route_id := vs_route_id s;
     vs_display_allocation_id := vs_display_allocation_id s;
     vs_connection_id := vs_connection_id s; vs_connection_name := vs_connection_name s;
     vs_route_source := vs_route_source s; vs_provider_mode := vs_provider_mode s;
     vs_viewer_lease_ids := kept_ids active (vs_viewer_lease_ids s);
     vs_controller_lease_id := kept_controller active (vs_controller_lease_id s);
     vs_read_only := vs_read_only s; vs_readiness := vs_readiness s;
     vs_remote_readiness :=
       match route_readiness routes s with
       | Some readiness => stream_readiness readiness s
       | None => vs_remote_readiness s
       end;
     vs_attachability := vs_attachability s |}.

(** [None] when the call panics. *)
Definition reconcile_remote_view_state_with_display_probe (state : ServiceState)
    : option (RemoteViewReconcileRepair * ServiceState) :=
  let browser_health := bp_health <$> browsers state in
  let pool := route_pool state in
  let unavailable := unavailable_route_displays pool in
  let probed := probe_entry <$> pool in
  let displays := orphan_allocation browser_health <$> display_allocations state in
  let routes := orphan_route browser_health unavailable displays <$> remote_view_routes state in
  let viewers := repair_viewer routes <$> viewer_leases state in
  let active := active_viewer_leases viewers in
  let final_routes := drop_viewers active <$> routes in
  if existsb (fun p => existsb (stream_panics final_routes) (bp_view_streams p.2))
       (map_to_list (browsers state))
  then None
  else Some (
    {| unavailable_route_pool_entries := count_of becomes_unavailable pool;
       restored_route_pool_entries := count_of is_restored pool;
       released_route_pool_entries := count_of (is_releasable routes) probed;
       orphaned_display_allocations :=
         count_of (is_orphaned browser_health) (display_allocations state);
       orphaned_routes :=
         count_of (fun r => is_some (route_problem browser_health unavailable displays r))
           (remote_view_routes state);
       released_viewer_leases := count_of (lease_disconnects routes) (viewer_leases state);
       expired_viewer_leases := count_of lease_expires (viewer_leases state);
       cleared_controller_leases := count_of (loses_controller active) routes |},
    RemoteAttach.refresh_remote_view_attachability
      (with_browsers
         ((fun b => set_custody (bp_display_allocation_id b)
             (map (repair_stream final_routes active) (bp_view_streams b))
             (bp_active_session_ids b) b) <$> browsers state)
         (with_viewers viewers
            (with_routes final_routes
               (with_pool (release_entry routes <$> probed) (with_displays displays state)))))).

End remote_view.

Definition reconcile_remote_view_state : HM (option RemoteViewReconcileRepair) :=
  now ← current_timestamp;
  probe ← ask display_socket_at;
  state ← get_state;
  match reconcile_remote_view_state_with_display_probe probe now state with
  | Some (repair, state) => _ ← modify (fun _ => state); mret (Some repair)
  | None => mret None
  end.

(** ** One reconciliation *)

Definition record_health_transition_events (before : ServiceState) : HM unit :=
  state ← get_state;
  hm_iter (fun p =>
      match browsers before !! p.1 with
      | Some previous => record_browser_health_changed_event p.1 (Some previous) p.2
      | None => mret tt
      end) (btree_entries (browsers state)).

Definition lifecycle_debug (l : TabLifecycle) : string :=
  match l with
  | TabUnknown => "Unknown" | TabOpening => "Opening" | TabLoading => "Loading"
  | TabReady => "Ready" | TabClosing => "Closing" | TabClosed => "Closed"
  | TabCrashed => "Crashed"
  end%string.
Definition lifecycle_name (l : TabLifecycle) : string :=
  match l with
  | TabUnknown => "unknown" | TabOpening => "opening" | TabLoading => "loading"
  | TabReady => "ready" | TabClosing => "closing" | TabClosed => "closed"
  | TabCrashed => "crashed"
  end%string.
(** The derived serialization of a handle does not fail. *)
Definition handle_json (h : ServiceTabHandle) : value :=
  match to_value h with Ok v => v | Err _ => jnull end.
Definition tab_event (id : string) (previous : option ServiceTabs.BrowserTab)
    (tab : ServiceTabs.BrowserTab) : HM ServiceEvent :=
  new_service_event TabLifecycleChanged
    (match previous with
     | None => fmt ["Tab "; id; " opened"]
     | Some previous =>
         if bt_lifecycle previous != bt_lifecycle tab
         then fmt ["Tab "; id; " lifecycle changed from ";
                   lifecycle_debug (bt_lifecycle previous); " to ";
                   lifecycle_debug (bt_lifecycle tab)]
         else fmt ["Tab "; id; " metadata changed"]
     end%string)
    (Some (bt_browser_id tab)) None None
    (jobject
      [("tabId", jstring id); ("targetId", opt_json jstring (bt_target_id tab));
       ("previousLifecycle",
        opt_json (fun t => jstring (lifecycle_name (bt_lifecycle t))) previous);
       ("currentLifecycle", jstring (lifecycle_name (bt_lifecycle tab)));
       ("previousUrl", opt_json jstring (previous ≫= bt_url));
       ("currentUrl", opt_json jstring (bt_url tab));
       ("previousTitle", opt_json jstring (previous ≫= bt_title));
       ("currentTitle", opt_json jstring (bt_title tab));
       ("ownerSessionId", opt_json jstring (bt_owner_session_id tab));
       ("serviceTabHandle", opt_json handle_json (bt_service_tab_handle tab))]%string).
Definition record_tab_lifecycle_events (before : ServiceState) : HM unit :=
  state ← get_state;
  events ← hm_fold (fun events p =>
      if tabs before !! p.1 == Some p.2 then mret events
      else event ← tab_event p.1 (tabs before !! p.1) p.2; mret (events ++ [event]))
    [] (btree_entries (tabs state));
  hm_iter (fun event => modify (push_service_event event)) events.

Definition changed_tab_count (state before : ServiceState) : nat :=
  length (List.filter (fun p => tabs before !! p.1 != Some p.2) (map_to_list (tabs state))).
Definition changed_browser_count (state before : ServiceState) : nat :=
  length (List.filter (fun p =>
      match browsers before !! p.1 with
      | Some previous => (bp_health previous != bp_health p.2)
                         || (last_error previous != last_error p.2)
      | None => true
      end) (map_to_list (browsers state)))
  + length (List.filter (fun p => negb (is_some (browsers state !! p.1)))
              (map_to_list (browsers before))).

Definition historical_browser_placeholder (state : ServiceState) (browser_id : string)
    (browser : BrowserProcess) : bool :=
  match bp_health browser with
  | NotStarted | ProcessExited | Faulted | Unreachable =>
      match pid browser, cdp_endpoint browser with
      | Some _, _ => bp_health browser == ProcessExited
      | None, Some _ => (bp_health browser == ProcessExited) || (bp_health browser == Unreachable)
      | None, None =>
          negb (existsb (fun p => (bt_browser_id p.2 == browser_id)
                                  && (bt_lifecycle p.2 != TabClosed))
                  (map_to_list (tabs state)))
      end
  | _ => false
  end.
Definition remove_post_termination_browser_history (state : ServiceState) : nat * ServiceState :=
  let browser_ids :=
    map fst (List.filter (fun p => historical_browser_placeholder state p.1 p.2)
               (btree_entries (browsers state))) in
  foldl (fun '(removed, state) id =>
      let '(n, state) := remove_browser_operational_record id None state in (removed + n, state))
    (0, state) browser_ids.

Definition repair_to_json (r : RemoteViewReconcileRepair) : value :=
  let n (k : nat) := jnumber (Z.of_nat k) in
  jobject
    [("unavailableRoutePoolEntries", n (unavailable_route_pool_entries r));
     ("restoredRoutePoolEntries", n (restored_route_pool_entries r));
     ("releasedRoutePoolEntries", n (released_route_pool_entries r));
     ("orphanedDisplayAllocations", n (orphaned_display_allocations r));
     ("orphanedRoutes", n (orphaned_routes r));
     ("releasedViewerLeases", n (released_viewer_leases r));
     ("expiredViewerLeases", n (expired_viewer_leases r));
     ("clearedControllerLeases", n (cleared_controller_leases r));
     ("repaired", n (unavailable_route_pool_entries r + restored_route_pool_entries r
                     + released_route_pool_entries r + orphaned_display_allocations r
                     + orphaned_routes r));
     ("released", n (released_route_pool_entries r + released_viewer_leases r
                     + expired_viewer_leases r));
     ("skippedUnsafe", n 0)]%string.

(** [None] when the call panics. *)
Definition reconcile_service_state : HM (option ServiceReconcileSummary) :=
  before ← get_state;
  reconciled_at ← current_timestamp;
  _ ← refresh_persisted_browser_health;
  merged_duplicate_browsers ← merge_duplicate_live_browser_records;
  _ ← reconcile_live_browser_targets;
  repair ← reconcile_remote_view_state;
  match repair with
  | None => mret None
  | Some remote_view_repair =>
      state ← get_state;
      let '(expired, state) := expire_stale_session_leases reconciled_at state in
      _ ← modify (fun _ => refresh_service_tab_handles state);
      _ ← record_health_transition_events before;
      _ ← record_tab_lifecycle_events before;
      state ← get_state;
      let '(removed, state) := remove_post_termination_browser_history state in
      let state := refresh_service_tab_handles state in
      let summary :=
        {| sm_browser_count := size (browsers state);
           sm_changed_browsers := changed_browser_count state before;
           sm_expired_session_leases := expired;
           sm_remote_view_repair := remote_view_repair |} in
      _ ← modify (fun _ => set_snapshots (sx_control_plane (st_other state))
            (Some {| rs_last_reconciled_at := Some reconciled_at; rs_last_error := None;
                     rs_browser_count := sm_browser_count summary;
                     rs_changed_browsers := sm_changed_browsers summary |}) state);
      let n (k : nat) := jnumber (Z.of_nat k) in
      event ← new_service_event Reconciliation
        (fmt ["Reconciled "; pretty (sm_browser_count summary); " browser records, ";
              pretty (sm_changed_browsers summary); " changed"]%string) None None None
        (jobject
          [("browserCount", n (sm_browser_count summary));
           ("changedBrowsers", n (sm_changed_browsers summary));
           ("removedTerminatedBrowsers", n removed);
           ("mergedDuplicateBrowsers", n merged_duplicate_browsers);
           ("expiredSessionLeases", jarray (map jstring expired));
           ("expiredSessionLeaseCount", n (length expired));
           ("tabCount", n (size (tabs state)));
           ("changedTabs", n (changed_tab_count state before));
           ("remoteView", repair_to_json remote_view_repair)]%string);
      _ ← modify (push_service_event event);
      mret (Some summary)
  end.

(** ** Merging it into the state as it is now *)

Section merge.
Context (before reconciled : ServiceState).

(** The browsers another process has taken the place of since the snapshot. *)
Definition is_replaced (target : ServiceState) (id : string) : bool :=
  match browsers before !! id, browsers target !! id with
  | Some observed, Some current =>
      (pid current != pid observed) || (cdp_endpoint current != cdp_endpoint observed)
  | _, _ => false
  end.
Definition replaced_browser_ids (target : ServiceState) : gset string :=
  filter (fun id => is_replaced target id = true) (dom (browsers before)).

(** [for id in before.m.keys()]: what reconciliation removed and nobody changed. *)
Definition drop_removed {A B} `{!EqDecision A} (skip : string -> bool)
    (before : gmap string A) (kept : gmap string B) (target : gmap string A) : gmap string A :=
  update_each (fun id b current =>
      if skip id || is_some (kept !! id) then current
      else if current == Some b then None else current) before target.

Definition merge_browser (replaced : gset string) (id : string) (found : BrowserProcess)
    (current : option BrowserProcess) : option BrowserProcess :=
  if bool_decide (id ∈ replaced) then current
  else Some match current with
            | Some browser => set_health (bp_health found) (last_error found)
                                (last_health_observation found) browser
            | None => found
            end.
Definition merge_tab (replaced : gset string) (id : string) (found : ServiceTabs.BrowserTab)
    (current : option ServiceTabs.BrowserTab) : option ServiceTabs.BrowserTab :=
  if bool_decide (bt_browser_id found ∈ replaced)
     || match current with
        | Some tab => bool_decide (bt_browser_id tab ∈ replaced)
        | None => false
        end
  then current else Some found.

Definition uses_replaced (replaced : gset string) (session : BrowserSession) : bool :=
  existsb (fun id => bool_decide (id ∈ replaced)) (se_browser_ids session).
Definition replaced_session_ids (replaced : gset string) (target : ServiceState) : gset string :=
  dom (filter (fun p => uses_replaced replaced p.2 = true) (sessions before))
  ∪ dom (filter (fun p => uses_replaced replaced p.2 = true) (sessions target)).
Definition lease_changed (id : string) (current : option BrowserSession) : bool :=
  match sessions before !! id, current with
  | Some b, Some t =>
      (se_lease t != se_lease b) || (se_browser_ids t != se_browser_ids b)
      || (se_expires_at t != se_expires_at b)
      || (se_last_lease_observed_at t != se_last_lease_observed_at b)
  | _, _ => false
  end.
Definition merge_session (replaced : gset string) (id : string) (found : BrowserSession)
    (current : option BrowserSession) : option BrowserSession :=
  if bool_decide (id ∈ replaced) then current
  else
    let session := set_owned (se_browser_ids found) (se_tab_ids found) (default found current) in
    Some (if lease_changed id current then session
          else set_lease (se_lease found) (se_last_lease_observed_at found) session).

(** A record that was released while the reconciliation ran. *)
Definition released_since {A} `{!EqDecision A} (state_of : A -> string) (observed current : option A)
    : bool :=
  match current, observed with
  | Some now, Some was => (state_of now == "released"%string) && (was != now)
  | _, _ => false
  end.
Definition merge_allocation (id : string) (found : DisplayAllocation)
    (current : option DisplayAllocation) : option DisplayAllocation :=
  if released_since da_state (display_allocations before !! id) current
  then current else Some found.
Definition merge_route (id : string) (found : RemoteViewRoute) (current : option RemoteViewRoute)
    : option RemoteViewRoute :=
  if released_since rt_state (remote_view_routes before !! id) current
  then current else Some found.
Definition merge_pool_entry (id : string) (found : RoutePoolEntry)
    (current : option RoutePoolEntry) : option RoutePoolEntry :=
  if match route_pool before !! id, current with
     | Some was, Some now =>
         (pe_state now != pe_state was)
         || (pe_current_route_allocation_id now != pe_current_route_allocation_id was)
     | _, _ => false
     end
  then current else Some found.

(** The pass over the events; the set holds the ids of the target. *)
Definition merge_event (replaced replaced_sessions known : gset string)
    (acc : gset string * ServiceState) (event : ServiceEvent) : gset string * ServiceState :=
  let '(target_event_ids, target) := acc in
  let among (s : gset string) (o : option string) :=
    match o with Some id => bool_decide (id ∈ s) | None => false end in
  if bool_decide (ev_id event ∈ known) || bool_decide (ev_id event ∈ target_event_ids)
     || among replaced (ev_browser_id event) || among replaced_sessions (ev_session_id event)
  then acc
  else ({[ev_id event]} ∪ target_event_ids, push_service_event event target).
Definition event_ids (s : ServiceState) : gset string := list_to_set (map ev_id (events s)).

Definition is_ended (session : BrowserSession) : bool :=
  match se_lease session with Released | Expired => true | _ => false end.

(** The passes over the maps, in the order of the source. *)
Definition merge_records (target : ServiceState) : ServiceState :=
  let target := set_snapshots
    (or_else (sx_control_plane (st_other reconciled)) (sx_control_plane (st_other target)))
    (or_else (sx_reconciliation (st_other reconciled)) (sx_reconciliation (st_other target)))
    target in
  let replaced := replaced_browser_ids target in
  let target := with_browsers
    (drop_removed (fun _ => false) (browsers before) (browsers reconciled)
       (update_each (merge_browser replaced) (browsers reconciled) (browsers target))) target in
  let target := set_tabs
    (drop_removed
       (fun id => match tabs before !! id with
                  | Some tab => bool_decide (bt_browser_id tab ∈ replaced)
                  | None => false
                  end)
       (tabs before) (tabs reconciled)
       (update_each (merge_tab replaced) (tabs reconciled) (tabs target))) target in
  let replaced_sessions := replaced_session_ids replaced target in
  let sessions' :=
    update_each (merge_session replaced_sessions) (sessions reconciled) (sessions target) in
  let inactive : gset string := dom (filter (fun p => is_ended p.2 = true) sessions') in
  let target := with_browsers
    ((fun b => set_active (without inactive (bp_active_session_ids b)) b) <$> browsers target)
    (set_sessions
       (drop_removed (fun id => bool_decide (id ∈ replaced_sessions)) (sessions before)
          (sessions reconciled) sessions') target) in
  let target := with_displays
    (update_each merge_allocation (display_allocations reconciled) (display_allocations target))
    target in
  let target := with_routes
    (update_each merge_route (remote_view_routes reconciled) (remote_view_routes target)) target in
  let target := with_viewers
    (update_each (fun _ found _ => Some found) (viewer_leases reconciled) (viewer_leases target))
    target in
  with_pool (update_each merge_pool_entry (route_pool reconciled) (route_pool target)) target.
Definition merge_events (replaced replaced_sessions : gset string) (target : ServiceState)
    : ServiceState :=
  (foldl (merge_event replaced replaced_sessions (event_ids before))
     (event_ids target, target) (events reconciled)).2.
Definition merge_reconciled_service_state (target : ServiceState) : ServiceState :=
  let replaced := replaced_browser_ids target in
  refresh_derived_views
    (merge_events replaced (replaced_session_ids replaced target) (merge_records target)).

End merge.

Definition persist_reconciled_service_state_in_repository (fault : option string)
    (before reconciled : ServiceState) : HM (res unit) :=
  mutate fault (_ ← modify (merge_reconciled_service_state before reconciled); mret (Ok tt)).

(** The state is loaded, the copy reconciled while other processes go on, and merged into
    the state they leave: [others] is what they do to it. *)
Definition reconcile_service_state_in_repository (load_fault save_fault : option string)
    (others : ServiceState -> ServiceState) : HM (option (res ServiceReconcileSummary)) :=
  match load_fault with
  | Some error => mret (Some (Err error))
  | None =>
      before ← get_state;
      summary ← reconcile_service_state;
      reconciled ← get_state;
      _ ← modify (fun _ => others before);
      match summary with
      | None => mret None
      | Some summary =>
          persisted ← persist_reconciled_service_state_in_repository save_fault before reconciled;
          mret (Some (_ ← persisted; Ok summary))
      end
  end.

End reconcile.

End ServiceReconcile.
