(* ===== verification/ReconcileTheorems.v ===== *)
(** * What merging a reconciliation keeps, and what reconciliation repairs

    The merge as a function of one record at a time, and the theorems: what other
    processes wrote while a reconciliation ran survives its merge
    ([merge_keeps_newer]), a reconciliation adds no exclusive holder of a profile
    ([reconcile_adds_no_holder]) and leaves the remote views consistent
    ([remote_view_repaired]). *)

From Stdlib Require Import Ascii.
From stdpp Require Import gmap sorting.
From S2P Require Import Prelude RustStr Env RemoteRoute RemoteAttach ServiceJobs ControlJobs ServiceTabs ProcessProof ProfileSelection ProfileLeases ProfileTheorems ServiceHealth ServiceReconcile.
Import ServiceJobs ServiceTabs ProfileSelection RemoteRoute.RemoteRoute ServiceHealth ServiceReconcile.

Module ReconcileTheorems.

(** ** Loops over the entries of a map *)

Lemma foldl_update_lookup {A B} (f : string -> B -> option A -> option A)
    (l : list (string * B)) (t : gmap string A) id :
  NoDup l.*1 ->
  foldl (fun t p => partial_alter (f p.1 p.2) p.1 t) t l !! id
  = match (list_to_map l : gmap string B) !! id with
    | Some b => f id b (t !! id)
    | None => t !! id
    end.
Proof.
  revert t. induction l as [|[k b] l IH]; intros t; cbn; [by rewrite lookup_empty|].
  intros [Hk Hl]%NoDup_cons. rewrite IH by done. destruct (decide (k = id)) as [->|Hne].
  - rewrite not_elem_of_list_to_map_1 by done.
    by rewrite lookup_insert_eq, lookup_partial_alter_eq.
  - by rewrite lookup_insert_ne, lookup_partial_alter_ne by done.
Qed.

Lemma btree_entries_keys {A} (m : gmap string A) : NoDup (btree_entries m).*1.
Proof. unfold btree_entries. rewrite merge_sort_Permutation. apply NoDup_fst_map_to_list. Qed.
Lemma btree_entries_map {A} (m : gmap string A) : list_to_map (btree_entries m) = m.
Proof.
  rewrite <-(list_to_map_to_list m) at 2. apply list_to_map_proper; [apply btree_entries_keys|].
  unfold btree_entries. apply merge_sort_Permutation.
Qed.

Lemma lookup_update_each {A B} (f : string -> B -> option A -> option A) (m : gmap string B)
    (t : gmap string A) id :
  update_each f m t !! id = match m !! id with Some b => f id b (t !! id) | None => t !! id end.
Proof.
  unfold update_each. rewrite foldl_update_lookup by apply btree_entries_keys.
  by rewrite btree_entries_map.
Qed.

Lemma lookup_drop_removed {A B} `{!EqDecision A} skip (was : gmap string A)
    (kept : gmap string B) (target : gmap string A) id :
  drop_removed skip was kept target !! id
  = match was !! id with
    | Some b =>
        if skip id || is_some (kept !! id) then target !! id
        else if target !! id == Some b then None else target !! id
    | None => target !! id
    end.
Proof. unfold drop_removed. by rewrite lookup_update_each. Qed.

(** What a loop of removals leaves is what was there. *)
Lemma drop_removed_sub {A B} `{!EqDecision A} skip (was : gmap string A) (kept : gmap string B)
    (target : gmap string A) id a :
  drop_removed skip was kept target !! id = Some a -> target !! id = Some a.
Proof. rewrite lookup_drop_removed. repeat case_match; done. Qed.

Section merge.
Context `{!Json, !JsonBuild, !JsonTree, !JsonEntries, !UrlLib, !Chrono, !HealthEnv,
  !SerdeValue ServiceTabHandle}.

(** ** What a refresh of the derived views leaves alone *)

(** A browser and a tab but for the handles derived for them. *)
Definition unhandled (b : BrowserProcess) : BrowserProcess := set_handles [] b.
Definition unhandled_tab (t : ServiceTabs.BrowserTab) : ServiceTabs.BrowserTab :=
  {| bt_id := bt_id t; bt_browser_id := bt_browser_id t; bt_target_id := bt_target_id t;
     bt_session_id := bt_session_id t; bt_lifecycle := bt_lifecycle t; bt_url := bt_url t;
     bt_title := bt_title t; bt_owner_session_id := bt_owner_session_id t;
     bt_service_tab_handle := None; bt_latest_snapshot_id := bt_latest_snapshot_id t;
     bt_latest_screenshot_id := bt_latest_screenshot_id t;
     bt_challenge_id := bt_challenge_id t |}.

(** The states agree on everything but what is derived: handles and readiness. *)
Record same_facts (s s' : ServiceState) : Prop := {
  sf_displays : display_allocations s' = display_allocations s;
  sf_routes : remote_view_routes s' = remote_view_routes s;
  sf_pool : route_pool s' = route_pool s;
  sf_acquisitions : remote_view_acquisition_leases s' = remote_view_acquisition_leases s;
  sf_viewers : viewer_leases s' = viewer_leases s;
  sf_browsers : unhandled <$> browsers s' = unhandled <$> browsers s;
  sf_control_plane : sx_control_plane (st_other s') = sx_control_plane (st_other s);
  sf_reconciliation : sx_reconciliation (st_other s') = sx_reconciliation (st_other s);
  sf_events : events s' = events s;
  sf_sessions : sessions s' = sessions s;
  sf_tabs : unhandled_tab <$> tabs s' = unhandled_tab <$> tabs s;
  sf_jobs : sx_jobs (st_other s') = sx_jobs (st_other s);
}.

#[export] Instance same_facts_refl : Reflexive same_facts.
Proof. by split. Qed.
#[export] Instance same_facts_trans : Transitive same_facts.
Proof. intros a b c [] []. split; etrans; eauto. Qed.

Lemma handles_same_facts s : same_facts s (refresh_service_tab_handles s).
Proof.
  split; try done.
  - apply map_eq. intros id. cbn. rewrite !lookup_fmap, map_lookup_imap.
    destruct (browsers s !! id); cbn; [|done]. by case_match.
  - apply map_eq. intros id.
    change (tabs (refresh_service_tab_handles s))
      with (ServiceTabs.tabs (ServiceTabs.refresh_service_tab_handles (tab_view s))).
    rewrite !lookup_fmap, ServiceTabs.refresh_tab. cbn.
    destruct (tabs s !! id) as [t|]; cbn; [|done]. by case_match.
Qed.
Lemma readiness_same_facts s : same_facts s (refresh_profile_readiness s).
Proof. by split. Qed.
Lemma derived_same_facts s : same_facts s (refresh_derived_views s).
Proof. unfold refresh_derived_views. etrans; [apply readiness_same_facts|apply handles_same_facts]. Qed.

Lemma same_facts_browser s s' id b :
  same_facts s s' -> browsers s !! id = Some b ->
  exists b', browsers s' !! id = Some b' /\ unhandled b' = unhandled b.
Proof.
  intros Hs Hb. pose proof (f_equal (lookup id) (sf_browsers _ _ Hs)) as Hl.
  rewrite !lookup_fmap, Hb in Hl. cbn in Hl.
  destruct (browsers s' !! id) as [b'|]; [|done]. exists b'. split; [done|]. exact (inj Some _ _ Hl).
Qed.
Lemma same_facts_no_browser s s' id :
  same_facts s s' -> browsers s !! id = None -> browsers s' !! id = None.
Proof.
  intros Hs Hb. pose proof (f_equal (lookup id) (sf_browsers _ _ Hs)) as Hl.
  rewrite !lookup_fmap, Hb in Hl. cbn in Hl. by destruct (browsers s' !! id).
Qed.
Lemma same_facts_tab s s' id t :
  same_facts s s' -> tabs s !! id = Some t ->
  exists t', tabs s' !! id = Some t' /\ unhandled_tab t' = unhandled_tab t.
Proof.
  intros Hs Hb. pose proof (f_equal (lookup id) (sf_tabs _ _ Hs)) as Hl.
  rewrite !lookup_fmap, Hb in Hl. cbn in Hl.
  destruct (tabs s' !! id) as [b'|]; [|done]. exists b'. split; [done|]. exact (inj Some _ _ Hl).
Qed.

(** ** The merge, one record at a time *)

Section one_merge.
Context (before reconciled target : ServiceState).
Let result := merge_reconciled_service_state before reconciled target.
Let replaced := replaced_browser_ids before target.

Lemma elem_of_replaced id :
  id ∈ replaced <-> exists was now, browsers before !! id = Some was /\
    browsers target !! id = Some now /\
    (pid now <> pid was \/ cdp_endpoint now <> cdp_endpoint was).
Proof.
  subst replaced. unfold replaced_browser_ids, is_replaced. rewrite elem_of_filter, elem_of_dom.
  destruct (browsers before !! id) as [was|], (browsers target !! id) as [now|]; cbn;
    [|split; [|intros (? & ? & ? & ? & _)]; naive_solver..].
  rewrite orb_true_iff, !negb_true_iff, !bool_decide_eq_false. split.
  - intros [Hd _]. by exists was, now.
  - intros (? & ? & [= <-] & [= <-] & Hd). split; [done|by eexists].
Qed.

Definition merged_tabs : gmap string ServiceTabs.BrowserTab :=
  drop_removed
    (fun id => match tabs before !! id with
               | Some tab => bool_decide (bt_browser_id tab ∈ replaced)
               | None => false
               end)
    (tabs before) (tabs reconciled)
    (update_each (merge_tab replaced) (tabs reconciled) (tabs target)).
Definition replaced_sessions : gset string :=
  dom (filter (fun p => uses_replaced replaced p.2 = true) (sessions before))
  ∪ dom (filter (fun p => uses_replaced replaced p.2 = true) (sessions target)).
Definition updated_sessions : gmap string BrowserSession :=
  update_each (merge_session before replaced_sessions) (sessions reconciled) (sessions target).
Definition merged_sessions : gmap string BrowserSession :=
  drop_removed (fun id => bool_decide (id ∈ replaced_sessions)) (sessions before)
    (sessions reconciled) updated_sessions.
Definition ended_sessions : gset string :=
  dom (filter (fun p => is_ended p.2 = true) updated_sessions).
Definition merged_browsers : gmap string BrowserProcess :=
  (fun b => set_active (without ended_sessions (bp_active_session_ids b)) b)
  <$> drop_removed (fun _ => false) (browsers before) (browsers reconciled)
        (update_each (merge_browser replaced) (browsers reconciled) (browsers target)).

(** An event of the reconciliation that is new: nobody had it before or has it now, and it
    is not about a browser or a session another process took over. *)
Definition reported (known seen rs : gset string) (e : ServiceEvent) : Prop :=
  ev_id e ∉ known /\ ev_id e ∉ seen /\ (forall id, ev_browser_id e = Some id -> id ∉ replaced)
  /\ (forall id, ev_session_id e = Some id -> id ∉ rs).

Lemma skipped_iff (known seen rs : gset string) e :
  bool_decide (ev_id e ∈ known) || bool_decide (ev_id e ∈ seen)
  || match ev_browser_id e with Some id => bool_decide (id ∈ replaced) | None => false end
  || match ev_session_id e with Some id => bool_decide (id ∈ rs) | None => false end = false
  <-> reported known seen rs e.
Proof.
  unfold reported. rewrite !orb_false_iff, !bool_decide_eq_false.
  assert (forall (o : option string) (m : gset string),
    match o with Some id => bool_decide (id ∈ m) | None => false end = false
    <-> forall id, o = Some id -> id ∉ m) as Ho.
  { intros [x|] m; [rewrite bool_decide_eq_false|]; naive_solver. }
  rewrite !Ho. tauto.
Qed.

(** Only the events and what the derived views hold change after the maps are merged. *)
Lemma foldl_merge_event_facts known rs (es : list ServiceEvent) seen s :
  exists kept, kept `sublist_of` es /\ NoDup (map ev_id kept)
    /\ (forall e, e ∈ kept -> reported known seen rs e)
    /\ (forall e, e ∈ es -> reported known seen rs e -> ev_id e ∈ map ev_id kept)
    /\ (foldl (merge_event replaced rs known) (seen, s) es).2
       = foldl (fun s e => push_service_event e s) s kept.
Proof.
  revert seen s. induction es as [|e es IH]; intros seen s; cbn [foldl].
  { exists []. split_and!; [done|by apply NoDup_nil|by intros e ?%elem_of_nil
      |by intros e ?%elem_of_nil|done]. }
  unfold merge_event at 2. destruct (_ || _) eqn:Hskip.
  - destruct (IH seen s) as (kept & Hsub & Hnd & Hin & Hall & Heq). exists kept.
    split_and!; [by apply sublist_cons|done|done| |done].
    intros x [->|Hx]%elem_of_cons Hr; [|by apply Hall]. apply skipped_iff in Hr. congruence.
  - apply skipped_iff in Hskip.
    destruct (IH ({[ev_id e]} ∪ seen) (push_service_event e s)) as (kept & Hsub & Hnd & Hin & Hall & Heq).
    exists (e :: kept). cbn [map]. split_and!; [by apply sublist_skip| | | |done].
    + apply NoDup_cons. split; [|done]. intros (x & He & Hx)%list_elem_of_fmap.
      destruct (Hin x Hx) as (_ & Hs & _). set_solver.
    + intros x [->|Hx]%elem_of_cons; [done|]. destruct (Hin x Hx) as (? & Hs & ?).
      split_and!; [done|set_solver|naive_solver..].
    + intros x [->|Hx]%elem_of_cons (Hk & Hs & Hb); [by left|].
      destruct (decide (ev_id x = ev_id e)) as [->|Hne]; [by left|right].
      apply Hall; [done|]. split_and!; [done|set_solver|naive_solver..].
Qed.

(** The events after [es] were pushed: the last ones, as many as are kept. *)
Definition kept_events (old es : list ServiceEvent) : list ServiceEvent :=
  match es with
  | [] => old
  | _ :: _ => drop (length (old ++ es) - MAX_SERVICE_EVENTS) (old ++ es)
  end.

Lemma push_events_spec (es : list ServiceEvent) s :
  let s' := foldl (fun s e => push_service_event e s) s es in
  events s' = kept_events (events s) es /\
  browsers s' = browsers s /\ sessions s' = sessions s /\ tabs s' = tabs s
  /\ display_allocations s' = display_allocations s /\ remote_view_routes s' = remote_view_routes s
  /\ route_pool s' = route_pool s /\ viewer_leases s' = viewer_leases s
  /\ remote_view_acquisition_leases s' = remote_view_acquisition_leases s
  /\ sx_jobs (st_other s') = sx_jobs (st_other s)
  /\ sx_control_plane (st_other s') = sx_control_plane (st_other s)
  /\ sx_reconciliation (st_other s') = sx_reconciliation (st_other s).
Proof.
  revert s. induction es as [|e es IH]; intros s; cbn [foldl]; [by split_and!|].
  destruct (IH (push_service_event e s)) as (Hn & Hrest).
  split; [|destruct Hrest as (?&?&?&?&?&?&?&?&?&?&?); by split_and!].
  rewrite Hn. cbn [kept_events]. clear.
  change (events (push_service_event e s))
    with (drop (length (events s ++ [e]) - MAX_SERVICE_EVENTS) (events s ++ [e])).
  destruct es as [|x es]; [done|]. unfold kept_events.
  replace (events s ++ e :: x :: es) with ((events s ++ [e]) ++ x :: es) by by rewrite <-app_assoc.
  set (l := events s ++ [e]). rewrite <-drop_app_le by lia. rewrite drop_drop, length_drop.
  f_equal. rewrite length_app. cbn. lia.
Qed.

Lemma merge_records_maps :
  let s := merge_records before reconciled target in
  browsers s = merged_browsers /\ sessions s = merged_sessions /\ tabs s = merged_tabs
  /\ display_allocations s
     = update_each (merge_allocation before) (display_allocations reconciled)
         (display_allocations target)
  /\ remote_view_routes s
     = update_each (merge_route before) (remote_view_routes reconciled) (remote_view_routes target)
  /\ route_pool s
     = update_each (merge_pool_entry before) (route_pool reconciled) (route_pool target)
  /\ viewer_leases s
     = update_each (fun _ found _ => Some found) (viewer_leases reconciled) (viewer_leases target)
  /\ remote_view_acquisition_leases s = remote_view_acquisition_leases target
  /\ sx_jobs (st_other s) = sx_jobs (st_other target) /\ events s = events target.
Proof. split_and!; reflexivity. Qed.

Definition newly_reported : ServiceEvent -> Prop :=
  reported (event_ids before) (event_ids target) (replaced_session_ids before replaced target).

(** The maps of the result; the events are those of the target and new ones, as many as
    are kept. *)
Lemma result_maps :
  unhandled <$> browsers result = unhandled <$> merged_browsers
  /\ sessions result = merged_sessions
  /\ unhandled_tab <$> tabs result = unhandled_tab <$> merged_tabs
  /\ display_allocations result
     = update_each (merge_allocation before) (display_allocations reconciled)
         (display_allocations target)
  /\ remote_view_routes result
     = update_each (merge_route before) (remote_view_routes reconciled) (remote_view_routes target)
  /\ route_pool result
     = update_each (merge_pool_entry before) (route_pool reconciled) (route_pool target)
  /\ viewer_leases result
     = update_each (fun _ found _ => Some found) (viewer_leases reconciled) (viewer_leases target)
  /\ remote_view_acquisition_leases result = remote_view_acquisition_leases target
  /\ sx_jobs (st_other result) = sx_jobs (st_other target)
  /\ exists new, new `sublist_of` events reconciled /\ NoDup (map ev_id new)
       /\ (forall e, e ∈ new -> newly_reported e)
       /\ (forall e, e ∈ events reconciled -> newly_reported e -> ev_id e ∈ map ev_id new)
       /\ events result = kept_events (events target) new.
Proof.
  subst result. unfold merge_reconciled_service_state, merge_events. cbv zeta. fold replaced.
  destruct merge_records_maps as (Hb & Hs & Ht & Hd & Hr & Hp & Hv & Ha & Hj & He).
  set (m := merge_records before reconciled target) in *.
  destruct (foldl_merge_event_facts (event_ids before) (replaced_session_ids before replaced target)
    (events reconciled) (event_ids m) m) as (new & Hsub & Hnd & Hin & Hall & ->).
  destruct (push_events_spec new m) as (Hn & Hb' & Hs' & Ht' & Hd' & Hr' & Hp' & Hv' & Ha' & Hj' & _).
  set (s := foldl _ m new) in *.
  destruct (derived_same_facts s) as [Fd Fr Fp Fa Fv Fb _ _ Fe Fs Ft Fj].
  rewrite Fd, Fr, Fp, Fa, Fv, Fb, Fe, Fs, Ft, Fj, Hb', Hs', Ht', Hd', Hr', Hp', Hv', Ha', Hj', Hn.
  rewrite Hb, Hs, Ht, Hd, Hr, Hp, Hv, Ha, Hj, He. split_and!; try done.
  exists new. unfold newly_reported. unfold event_ids in Hin, Hall. rewrite He in Hin, Hall.
  by split_and!.
Qed.

Lemma lookup_merged_session id :
  merged_sessions !! id
  = if bool_decide (id ∈ replaced_sessions) then sessions target !! id
    else match sessions reconciled !! id with
         | Some found => merge_session before replaced_sessions id found (sessions target !! id)
         | None =>
             match sessions before !! id with
             | Some was => if sessions target !! id == Some was then None else sessions target !! id
             | None => sessions target !! id
             end
         end.
Proof.
  unfold merged_sessions, updated_sessions. rewrite lookup_drop_removed, lookup_update_each.
  unfold merge_session. case_bool_decide as Hr; cbn [orb];
    destruct (sessions reconciled !! id), (sessions before !! id); done.
Qed.

Lemma lookup_merged_browser id b :
  browsers target !! id = Some b ->
  merged_browsers !! id
  = (fun b => set_active (without ended_sessions (bp_active_session_ids b)) b) <$>
    if bool_decide (id ∈ replaced) then Some b
    else match browsers reconciled !! id with
         | Some found => Some (set_health (bp_health found) (last_error found)
                                 (last_health_observation found) b)
         | None => if browsers before !! id == Some b then None else Some b
         end.
Proof.
  intros Hb. unfold merged_browsers. rewrite lookup_fmap. f_equal.
  rewrite lookup_drop_removed, lookup_update_each, Hb. unfold merge_browser.
  case_bool_decide as Hr.
  - apply elem_of_replaced in Hr as (was & now & Hwas & Hnow & Hd). rewrite Hwas. simplify_eq.
    destruct (browsers reconciled !! id); cbn [is_some orb]; [done|].
    rewrite bool_decide_false; [done|]. intros [= ->]. by destruct Hd.
  - destruct (browsers reconciled !! id), (browsers before !! id) as [was|]; cbn [is_some orb];
      try done. repeat case_bool_decide; naive_solver.
Qed.

(** The tabs of a browser that was replaced. *)
Lemma lookup_merged_tab id t :
  tabs target !! id = Some t -> bt_browser_id t ∈ replaced -> merged_tabs !! id = Some t.
Proof.
  intros Ht Hr. unfold merged_tabs. rewrite lookup_drop_removed, lookup_update_each, Ht.
  assert ((match tabs reconciled !! id with
           | Some found => merge_tab replaced id found (Some t)
           | None => Some t
           end) = Some t) as ->.
  { destruct (tabs reconciled !! id); [|done]. unfold merge_tab.
    by rewrite (bool_decide_true (bt_browser_id t ∈ replaced)), orb_true_r. }
  destruct (tabs before !! id) as [was|] eqn:Hwas; [|done].
  case_match eqn:Hskip; [done|]. apply orb_false_iff in Hskip as [Hskip _].
  apply bool_decide_eq_false in Hskip. case_bool_decide; [|done]. by simplify_eq.
Qed.

(** A session that ended is not driven any more. *)
Lemma ended_in_result x s : x ∈ ended_sessions -> sessions result !! x = Some s -> is_ended s = true.
Proof.
  destruct result_maps as (_ & -> & _). unfold ended_sessions.
  intros (s' & Hs')%elem_of_dom Hs.
  apply map_lookup_filter_Some in Hs' as [Hu Hended].
  apply drop_removed_sub in Hs. by simplify_eq.
Qed.

Lemma result_browser id b :
  merged_browsers !! id = Some b ->
  exists b', browsers result !! id = Some b' /\ unhandled b' = unhandled b.
Proof.
  intros Hb. destruct result_maps as (Hm & _). apply (f_equal (lookup id)) in Hm.
  rewrite !lookup_fmap, Hb in Hm.
  destruct (browsers result !! id) as [b'|]; [|done]. exists b'. split; [done|].
  exact (inj Some _ _ Hm).
Qed.
Lemma result_tab id t :
  merged_tabs !! id = Some t ->
  exists t', tabs result !! id = Some t' /\ unhandled_tab t' = unhandled_tab t.
Proof.
  intros Hb. destruct result_maps as (_ & _ & Hm & _). apply (f_equal (lookup id)) in Hm.
  rewrite !lookup_fmap, Hb in Hm.
  destruct (tabs result !! id) as [b'|]; [|done]. exists b'. split; [done|].
  exact (inj Some _ _ Hm).
Qed.

Lemma replaced_session id s :
  sessions target !! id = Some s -> uses_replaced replaced s = true ->
  sessions result !! id = Some s.
Proof.
  intros Hs Hu. destruct result_maps as (_ & -> & _). rewrite lookup_merged_session.
  rewrite bool_decide_true; [done|]. apply elem_of_union_r, elem_of_dom. exists s.
  by apply map_lookup_filter_Some.
Qed.

(** What a session is after the merge keeps the lease another process gave it. *)
Lemma changed_lease_kept id s :
  sessions target !! id = Some s -> lease_changed before id (Some s) = true ->
  exists s', sessions result !! id = Some s' /\ se_lease s' = se_lease s
    /\ se_last_lease_observed_at s' = se_last_lease_observed_at s
    /\ se_expires_at s' = se_expires_at s /\ se_profile_id s' = se_profile_id s.
Proof.
  intros Hs Hc. destruct result_maps as (_ & -> & _). rewrite lookup_merged_session, Hs.
  case_bool_decide as Hr; [by exists s|].
  destruct (sessions reconciled !! id) as [found|].
  - unfold merge_session. rewrite bool_decide_false, Hc by done. by eexists.
  - unfold lease_changed in Hc. destruct (sessions before !! id) as [was|]; [|by exists s].
    destruct (bool_decide_reflect (Some s = Some was)) as [He|]; [simplify_eq|by exists s].
    rewrite !bool_decide_true in Hc by done. done.
Qed.

(** What reconciliation removed stays when another process wrote it meanwhile. *)
Lemma browser_kept id b :
  browsers target !! id = Some b -> id ∉ replaced ->
  browsers before !! id <> Some b \/ is_Some (browsers reconciled !! id) ->
  exists b' health error observation, browsers result !! id = Some b'
    /\ unhandled b' = unhandled (set_active (without ended_sessions (bp_active_session_ids b))
                                   (set_health health error observation b)).
Proof.
  intros Hb Hr Hkept. pose proof (lookup_merged_browser id b Hb) as Hm.
  rewrite bool_decide_false in Hm by done.
  assert (exists h e o, merged_browsers !! id
    = Some (set_active (without ended_sessions (bp_active_session_ids b)) (set_health h e o b)))
    as (h & e & o & Hmerged).
  { destruct (browsers reconciled !! id) as [found|]; [rewrite Hm; by eexists _, _, _|].
    destruct Hkept as [Hne|[? [=]]]. rewrite bool_decide_false in Hm by done.
    exists (bp_health b), (last_error b), (last_health_observation b). rewrite Hm. cbn.
    by destruct b as [? ? ? ? ? ? ? ? ? []]. }
  destruct (result_browser id _ Hmerged) as (b' & ? & ?). by exists b', h, e, o.
Qed.
Lemma tab_kept id t :
  tabs target !! id = Some t -> tabs reconciled !! id = None -> tabs before !! id <> Some t ->
  exists t', tabs result !! id = Some t' /\ unhandled_tab t' = unhandled_tab t.
Proof.
  intros Ht Hn Hb. apply result_tab. unfold merged_tabs.
  rewrite lookup_drop_removed, lookup_update_each, Ht, Hn.
  destruct (tabs before !! id) as [was|]; [|done]. destruct (_ || _); [done|].
  rewrite bool_decide_false; [done|]. intros [= ->]. done.
Qed.
Lemma session_kept id s :
  sessions target !! id = Some s -> sessions reconciled !! id = None ->
  sessions before !! id <> Some s -> sessions result !! id = Some s.
Proof.
  intros Ht Hn Hb. destruct result_maps as (_ & -> & _). rewrite lookup_merged_session, Ht, Hn.
  destruct (bool_decide _); [done|]. destruct (sessions before !! id) as [was|]; [|done].
  rewrite bool_decide_false; [done|]. intros [= ->]. done.
Qed.

(** What another process released, checked out or returned stays so. *)
Lemma allocation_kept id was a :
  display_allocations before !! id = Some was -> display_allocations target !! id = Some a ->
  was <> a -> da_state a = "released"%string -> display_allocations result !! id = Some a.
Proof.
  intros Hw Ht Hne Hst. destruct result_maps as (_ & _ & _ & -> & _). rewrite lookup_update_each, Ht.
  destruct (display_allocations reconciled !! id); [|done]. unfold merge_allocation, released_since.
  by rewrite Hw, bool_decide_true, bool_decide_false.
Qed.
Lemma route_kept id was r :
  remote_view_routes before !! id = Some was -> remote_view_routes target !! id = Some r ->
  was <> r -> rt_state r = "released"%string -> remote_view_routes result !! id = Some r.
Proof.
  intros Hw Ht Hne Hst. destruct result_maps as (_ & _ & _ & _ & -> & _).
  rewrite lookup_update_each, Ht. destruct (remote_view_routes reconciled !! id); [|done].
  unfold merge_route, released_since. by rewrite Hw, bool_decide_true, bool_decide_false.
Qed.
Lemma pool_entry_kept id was e :
  route_pool before !! id = Some was -> route_pool target !! id = Some e ->
  pe_state e <> pe_state was
  \/ pe_current_route_allocation_id e <> pe_current_route_allocation_id was ->
  route_pool result !! id = Some e.
Proof.
  intros Hw Ht Hne. destruct result_maps as (_ & _ & _ & _ & _ & -> & _).
  rewrite lookup_update_each, Ht. destruct (route_pool reconciled !! id); [|done].
  unfold merge_pool_entry. rewrite Hw.
  destruct Hne; [rewrite (bool_decide_false (pe_state e = _))
                |rewrite (bool_decide_false (pe_current_route_allocation_id e = _))]; try done.
  by rewrite orb_true_r.
Qed.

End one_merge.

(** C10. What the merge of a reconciliation keeps of the writes of other processes. A
    browser whose process or endpoint is another than the one probed keeps its record
    but for sessions that ended, its tabs and its sessions; any other browser that the
    copy still has or that was changed or added keeps all but its health and the sessions
    that ended; a tab or a session the copy lost stays when it was changed or added; a
    session whose lease, browsers or deadlines changed keeps its lease; allocations and
    routes released since stay released, pool entries checked out or returned since stay
    so; jobs and acquisitions are not touched; the events are those there are, then the
    new ones of the copy, each once and in order and none left out, the last
    [MAX_SERVICE_EVENTS] of all when there are new ones. Deletions and the snapshot of
    the control plane are not kept ([closed_lease_revived], [control_plane_rolled_back]). *)
Theorem merge_keeps_newer before reconciled target :
  let result := merge_reconciled_service_state before reconciled target in
  let replaced := replaced_browser_ids before target in
  (exists gone,
     (forall x s, x ∈ gone -> sessions result !! x = Some s -> is_ended s = true) /\
     (forall id b, browsers target !! id = Some b -> id ∈ replaced ->
        exists b', browsers result !! id = Some b'
          /\ unhandled b' = unhandled (set_active (without gone (bp_active_session_ids b)) b)) /\
     (forall id b, browsers target !! id = Some b -> id ∉ replaced ->
        browsers before !! id <> Some b \/ is_Some (browsers reconciled !! id) ->
        exists b' health error observation, browsers result !! id = Some b'
          /\ unhandled b' = unhandled (set_active (without gone (bp_active_session_ids b))
                                         (set_health health error observation b)))) /\
  (forall id t, tabs target !! id = Some t ->
     bt_browser_id t ∈ replaced \/ tabs reconciled !! id = None /\ tabs before !! id <> Some t ->
     exists t', tabs result !! id = Some t' /\ unhandled_tab t' = unhandled_tab t) /\
  (forall id s, sessions target !! id = Some s ->
     uses_replaced replaced s = true
     \/ sessions reconciled !! id = None /\ sessions before !! id <> Some s ->
     sessions result !! id = Some s) /\
  (forall id s, sessions target !! id = Some s -> lease_changed before id (Some s) = true ->
     exists s', sessions result !! id = Some s' /\ se_lease s' = se_lease s
       /\ se_last_lease_observed_at s' = se_last_lease_observed_at s
       /\ se_expires_at s' = se_expires_at s /\ se_profile_id s' = se_profile_id s) /\
  (forall id was a, display_allocations before !! id = Some was ->
     display_allocations target !! id = Some a -> was <> a -> da_state a = "released"%string ->
     display_allocations result !! id = Some a) /\
  (forall id was r, remote_view_routes before !! id = Some was ->
     remote_view_routes target !! id = Some r -> was <> r -> rt_state r = "released"%string ->
     remote_view_routes result !! id = Some r) /\
  (forall id was e, route_pool before !! id = Some was -> route_pool target !! id = Some e ->
     pe_state e <> pe_state was
     \/ pe_current_route_allocation_id e <> pe_current_route_allocation_id was ->
     route_pool result !! id = Some e) /\
  sx_jobs (st_other result) = sx_jobs (st_other target) /\
  remote_view_acquisition_leases result = remote_view_acquisition_leases target /\
  exists new, new `sublist_of` events reconciled /\ NoDup (map ev_id new)
    /\ (forall e, e ∈ new -> newly_reported before target e)
    /\ (forall e, e ∈ events reconciled -> newly_reported before target e ->
         ev_id e ∈ map ev_id new)
    /\ events result = kept_events (events target) new.
Proof.
  intros result replaced.
  destruct (result_maps before reconciled target) as (_ & _ & _ & _ & _ & _ & _ & Ha & Hj & He).
  split; [|split; [|split; [|split; [|split; [|split; [|split; [|split; [exact Hj|split; [exact Ha|
    exact He]]]]]]]]].
  - exists (ended_sessions before reconciled target). split_and!.
    + intros x s. apply ended_in_result.
    + intros id b Hb Hin. pose proof (lookup_merged_browser before reconciled target id b Hb) as Hm.
      rewrite bool_decide_true in Hm by done. by apply result_browser in Hm.
    + intros id b. apply browser_kept.
  - intros id t Ht [Hin|[Hn Hb]]; [by apply result_tab, lookup_merged_tab|by apply tab_kept].
  - intros id s Hs [Hu|[Hn Hb]]; [by apply replaced_session|by apply session_kept].
  - intros id s. apply changed_lease_kept.
  - intros id was a. apply allocation_kept.
  - intros id was r. apply route_kept.
  - intros id was e. apply pool_entry_kept.
Qed.

(** ** Leases across a reconciliation *)

(** Every exclusive lease of [s'] is one [s] has, of the same profile. *)
Definition no_new_exclusive (s s' : ServiceState) : Prop :=
  forall id x', sessions s' !! id = Some x' -> se_lease x' = Exclusive ->
    exists x, sessions s !! id = Some x /\ se_lease x = Exclusive
      /\ se_profile_id x' = se_profile_id x.
#[export] Instance no_new_exclusive_refl : Reflexive no_new_exclusive.
Proof. intros s id x Hx He. by exists x. Qed.
#[export] Instance no_new_exclusive_trans : Transitive no_new_exclusive.
Proof.
  intros a b c Hab Hbc id x'' Hx'' He. destruct (Hbc id x'' Hx'' He) as (x' & Hx' & He' & Hp).
  destruct (Hab id x' Hx' He') as (x & Hx & Hex & Hp'). exists x. split_and!; congruence.
Qed.

Lemma same_sessions s s' : sessions s' = sessions s -> no_new_exclusive s s'.
Proof. intros Heq id x Hx He. rewrite Heq in Hx. by exists x. Qed.
(** Updates that give no lease and keep profiles. *)
Lemma mapped_sessions s s' :
  (forall id x', sessions s' !! id = Some x' -> exists x, sessions s !! id = Some x
     /\ (se_lease x' = Exclusive -> se_lease x = Exclusive)
     /\ se_profile_id x' = se_profile_id x) -> no_new_exclusive s s'.
Proof. intros Hs id x' Hx' He. destruct (Hs id x' Hx') as (x & Hx & Hl & Hp). exists x. auto. Qed.
(** [values_mut] over the sessions. *)
Lemma fmap_sessions (f : BrowserSession -> BrowserSession) s s' :
  sessions s' = f <$> sessions s ->
  (forall x, se_lease (f x) = se_lease x) -> (forall x, se_profile_id (f x) = se_profile_id x) ->
  no_new_exclusive s s'.
Proof.
  intros Heq Hl Hp. apply mapped_sessions. intros id x'. rewrite Heq, lookup_fmap.
  destruct (sessions s !! id) as [x|]; [|done]. intros [= <-]. exists x. by rewrite Hl, Hp.
Qed.

(** [hm_from R s m]: run from the state [s], [m] relates it to the state it ends in. *)
Definition hm_from (R : relation ServiceState) (s : ServiceState) {A} (m : HM A) : Prop :=
  forall w, w_state w = s -> R s (w_state (m w).2).

Section frame.
Context (R : relation ServiceState) `{!Reflexive R, !Transitive R}.
Lemma hm_from_ret {A} s (a : A) : hm_from R s (mret a).
Proof. by intros w <-. Qed.
Lemma hm_from_get {B} s (f : ServiceState -> HM B) :
  hm_from R s (f s) -> hm_from R s (get_state ≫= f).
Proof. intros Hf w <-. by apply Hf. Qed.
Lemma hm_from_ask {A B} s (q : nat -> A) (f : A -> HM B) :
  (forall a, hm_from R s (f a)) -> hm_from R s (ask q ≫= f).
Proof. intros Hf w <-. by apply Hf. Qed.
Lemma hm_from_modify s f : R s (f s) -> hm_from R s (modify f).
Proof. by intros Hf w <-. Qed.
Lemma hm_from_bind {A B} s (m : HM A) (f : A -> HM B) :
  hm_from R s m -> (forall a s', hm_from R s' (f a)) -> hm_from R s (m ≫= f).
Proof.
  intros Hm Hf w Hw. unfold mbind, hm_bind. specialize (Hm w Hw). destruct (m w) as [a w1].
  etrans; [exact Hm|]. by apply Hf.
Qed.
Lemma hm_from_iter {A} (f : A -> HM unit) l s :
  (forall a s, hm_from R s (f a)) -> hm_from R s (hm_iter f l).
Proof.
  intros Hf. revert s. induction l as [|a l IH]; intros s; cbn; [apply hm_from_ret|].
  apply hm_from_bind; auto.
Qed.
Lemma hm_from_fold {A B} (f : B -> A -> HM B) l b s :
  (forall b a s, hm_from R s (f b a)) -> hm_from R s (hm_fold f b l).
Proof.
  intros Hf. revert b s. induction l as [|a l IH]; intros b s; cbn; [apply hm_from_ret|].
  apply hm_from_bind; auto.
Qed.
End frame.

End merge.

(** Follow the structure of a program; what remains are its updates. *)
Ltac hm_step :=
  cbv beta zeta;
  match goal with
  | |- hm_from _ _ (mret _) => apply hm_from_ret; exact _
  | |- hm_from _ _ (get_state ≫= _) => apply hm_from_get
  | |- hm_from _ _ (ask _ ≫= _) => apply hm_from_ask; intros ?
  | |- hm_from _ _ (current_timestamp ≫= _) => apply hm_from_ask; intros ?
  | |- hm_from _ _ (_ ≫= _) => apply hm_from_bind; [exact _| |intros ? ?]
  | |- hm_from _ _ (modify _) => apply hm_from_modify
  | |- hm_from _ _ (hm_iter _ _) => apply hm_from_iter; [exact _..|intros ? ?]
  | |- hm_from _ _ (hm_fold _ _ _) => apply hm_from_fold; [exact _..|intros ? ? ?]
  | |- hm_from _ _ (match ?x with _ => _ end) => destruct x eqn:?
  end.
Ltac hm_frame := repeat hm_step.

Section reconciled.
Context `{!Json, !JsonBuild, !JsonTree, !JsonEntries, !UrlLib, !Chrono, !HealthEnv,
  !SerdeValue ServiceTabHandle}.

Lemma health_event_frame id previous current extra s :
  hm_from no_new_exclusive s
    (record_browser_health_changed_event_with_details id previous current extra).
Proof.
  unfold record_browser_health_changed_event_with_details, new_service_event.
  hm_frame; by apply same_sessions.
Qed.
Lemma observation_frame browser details s :
  hm_from no_new_exclusive s (apply_browser_health_observation browser details).
Proof. unfold apply_browser_health_observation. hm_frame. Qed.
Lemma probe_frame browser s : hm_from no_new_exclusive s (refresh_browser_record_health browser).
Proof.
  unfold refresh_browser_record_health. hm_frame; apply observation_frame.
Qed.

Lemma clear_conflicts_frame id s :
  no_new_exclusive s (clear_same_browser_profile_lease_conflicts id s).
Proof.
  unfold clear_same_browser_profile_lease_conflicts. cbv zeta. case_match; [reflexivity|].
  apply mapped_sessions. intros id' x'. cbn. rewrite map_lookup_imap.
  destruct (sessions s !! id') as [x|]; [|done]. cbn. intros [= <-]. exists x.
  by case_bool_decide.
Qed.

Lemma merge_duplicate_frame canonical duplicate s :
  hm_from no_new_exclusive s (merge_duplicate_browser_record canonical duplicate).
Proof.
  unfold merge_duplicate_browser_record, move_allocation, new_service_event.
  hm_frame; try by apply same_sessions.
  etrans; [|apply clear_conflicts_frame].
  eapply fmap_sessions; [reflexivity|..]; intros x; unfold merged_session; by case_match.
Qed.
Lemma close_tabs_frame id s : no_new_exclusive s (close_browser_tabs id s).
Proof.
  unfold close_browser_tabs. cbv zeta. case_bool_decide; [by apply same_sessions|].
  by eapply fmap_sessions.
Qed.
Lemma relationships_frame id owner live s :
  no_new_exclusive s (refresh_session_tab_relationships_for_browser id owner live s).2.
Proof.
  unfold refresh_session_tab_relationships_for_browser. cbv zeta. cbn [snd].
  destruct owner as [owner|]; [|by eapply fmap_sessions].
  intros id' x'. cbn. rewrite lookup_insert_Some, !lookup_fmap. intros [[<- <-]|[_ Hx']] He.
  - destruct (sessions s !! owner) as [x|]; [|done]. by exists x.
  - destruct (sessions s !! id') as [x|]; [|done]. injection Hx' as <-. by exists x.
Qed.
Lemma live_target_frame p s : hm_from no_new_exclusive s (reconcile_live_browser_target p).
Proof.
  unfold reconcile_live_browser_target, reconcile_browser_targets,
    record_session_tab_ownership_repaired_event, new_service_event.
  destruct p as [id browser]. hm_frame;
    try (apply close_tabs_frame || apply observation_frame || by apply same_sessions).
  match goal with H : refresh_session_tab_relationships_for_browser ?i ?o ?l ?s = _ |- _ =>
    pose proof (relationships_frame i o l s) as Hf; rewrite H in Hf; exact Hf end.
Qed.
Lemma remote_view_frame s : hm_from no_new_exclusive s reconcile_remote_view_state.
Proof.
  unfold reconcile_remote_view_state. hm_frame.
  match goal with H : reconcile_remote_view_state_with_display_probe _ _ _ = _ |- _ =>
    unfold reconcile_remote_view_state_with_display_probe in H; cbv zeta in H;
    destruct (existsb _ _) in H; [done|]; injection H as <- <- end.
  by apply same_sessions.
Qed.

Lemma expire_frame now s : no_new_exclusive s (expire_stale_session_leases now s).2.
Proof.
  unfold expire_stale_session_leases.
  destruct (ProfileLeases.expire_stale_session_leases now (lease_view s)) as [ids v] eqn:Hrun.
  destruct ids as [|i ids]; [reflexivity|].
  destruct (ProfileTheorems.expire_some _ _ _ _ Hrun) as (Hs & _); [done|].
  cbn [snd]. etrans; [|apply same_sessions, (sf_sessions _ _ (handles_same_facts _))].
  apply mapped_sessions. intros id x'. cbn. rewrite Hs. cbn.
  destruct (sessions s !! id) as [x|]; [|done]. intros [= <-]. exists x.
  split; [done|]. by destruct (_ || _).
Qed.
Lemma remove_record_frame id explicit s :
  no_new_exclusive s (remove_browser_operational_record id explicit s).2.
Proof.
  unfold remove_browser_operational_record. cbv zeta. cbn [snd].
  etrans; [|apply same_sessions, (sf_sessions _ _ (derived_same_facts _))].
  apply mapped_sessions. intros id' x'. cbn. rewrite map_lookup_filter_Some, lookup_fmap.
  intros [Hx' _]. destruct (sessions s !! id') as [x|]; [|done]. injection Hx' as <-. by exists x.
Qed.
Lemma remove_history_frame s :
  no_new_exclusive s (remove_post_termination_browser_history s).2.
Proof.
  unfold remove_post_termination_browser_history. cbv zeta.
  set (ids := map fst _). clearbody ids. generalize 0%nat as n. revert s.
  induction ids as [|id ids IH]; intros s n; cbn [foldl]; [reflexivity|].
  pose proof (remove_record_frame id None s) as Hf.
  destruct (remove_browser_operational_record id None s) as [k s1]. cbn [snd] in Hf.
  etrans; [exact Hf|]. apply IH.
Qed.

(** A reconciliation only ever takes leases away. *)
Lemma reconcile_frame s : hm_from no_new_exclusive s reconcile_service_state.
Proof.
  unfold reconcile_service_state. hm_step. hm_step.
  apply hm_from_bind; [exact _| |intros _ s1].
  { unfold refresh_persisted_browser_health. hm_frame; [apply probe_frame|by apply same_sessions]. }
  apply hm_from_bind; [exact _| |intros n s2].
  { unfold merge_duplicate_live_browser_records. hm_frame; apply merge_duplicate_frame. }
  apply hm_from_bind; [exact _| |intros _ s3].
  { unfold reconcile_live_browser_targets. hm_frame. apply live_target_frame. }
  apply hm_from_bind; [exact _|apply remote_view_frame|intros [repair|] s4]; [|hm_frame].
  hm_step. destruct (expire_stale_session_leases _ s4) as [ids s5] eqn:He.
  pose proof (expire_frame a s4) as Hf. rewrite He in Hf. cbn [snd] in Hf.
  apply hm_from_bind; [exact _| |intros _ s6].
  { apply hm_from_modify. etrans; [exact Hf|].
    apply same_sessions, (sf_sessions _ _ (handles_same_facts _)). }
  apply hm_from_bind; [exact _| |intros _ s7].
  { unfold record_health_transition_events. hm_frame. apply health_event_frame. }
  apply hm_from_bind; [exact _| |intros _ s8].
  { unfold record_tab_lifecycle_events, tab_event, new_service_event.
    hm_frame; by apply same_sessions. }
  hm_step. pose proof (remove_history_frame s8) as Hr.
  destruct (remove_post_termination_browser_history s8) as [removed s9]. cbn [snd] in Hr.
  cbv zeta. apply hm_from_bind; [exact _| |intros _ s10].
  { apply hm_from_modify. etrans; [exact Hr|].
    apply same_sessions, (sf_sessions _ _ (handles_same_facts _)). }
  unfold new_service_event. hm_frame. by apply same_sessions.
Qed.

Definition holds (s : ServiceState) (id profile_id : string) : Prop :=
  exists x, sessions s !! id = Some x /\ se_lease x = Exclusive
    /\ se_profile_id x = Some profile_id.

(** The merge gives no lease that neither the target nor the reconciled copy has, and one
    the copy has only to a session that is gone from the target. *)
Lemma merge_holders before reconciled target id P :
  no_new_exclusive before reconciled ->
  holds (merge_reconciled_service_state before reconciled target) id P ->
  holds target id P \/ sessions target !! id = None /\ holds before id P.
Proof.
  intros Hframe (x & Hx & He & Hp).
  destruct (result_maps before reconciled target) as (_ & Hs & _). rewrite Hs in Hx. clear Hs.
  rewrite lookup_merged_session in Hx.
  case_bool_decide as Hr; [left; by exists x|].
  destruct (sessions reconciled !! id) as [found|] eqn:Hfound.
  2:{ left. exists x. destruct (sessions before !! id); [|done]. by case_bool_decide. }
  unfold merge_session in Hx. rewrite bool_decide_false in Hx by done. injection Hx as <-.
  destruct (sessions target !! id) as [t|] eqn:Ht.
  - left. exists t. split; [done|]. revert He Hp. cbn [default from_option].
    destruct (lease_changed before id (Some t)) eqn:Hc; [done|]. intros He Hp.
    destruct (Hframe id found Hfound He) as (b & Hb & Heb & _).
    unfold lease_changed in Hc. rewrite Hb in Hc. inv_bool. split; [congruence|done].
  - right. split; [done|]. cbn in He, Hp.
    assert (se_lease found = Exclusive /\ se_profile_id found = Some P) as [Hef Hpf].
    { revert He Hp. by destruct (lease_changed before id None). }
    destruct (Hframe id found Hfound Hef) as (b & Hb & Heb & Hpb). exists b. by rewrite Hb, <-Hpb.
Qed.

(** C13. Whatever other processes do to the service state while it is being reconciled, the
    reconciliation ends with no session holding a profile exclusively that does not hold
    it in the state they leave, but for one that held it in the snapshot and that they
    removed. *)
Theorem reconcile_adds_no_holder save_fault others w id P :
  holds (w_state (reconcile_service_state_in_repository None save_fault others w).2) id P ->
  holds (others (w_state w)) id P
  \/ sessions (others (w_state w)) !! id = None /\ holds (w_state w) id P.
Proof.
  unfold reconcile_service_state_in_repository, persist_reconciled_service_state_in_repository.
  unfold mbind at 1, hm_bind at 1. cbn [get_state].
  pose proof (reconcile_frame (w_state w) w eq_refl) as Hframe.
  unfold mbind at 1, hm_bind at 1. destruct (reconcile_service_state w) as [summary w1].
  cbn [snd] in Hframe. destruct summary as [summary|]; [|by left].
  destruct save_fault as [error|]; [by left|]. apply merge_holders, Hframe.
Qed.

(** ** The remote views *)

Section repaired.
Context (now : string).

Lemma unavailable_none (probe : string -> bool) pool k e entry :
  unavailable_route_displays probe pool !! k = None -> pool !! e = Some entry ->
  pe_provider entry = RdpGateway ->
  default (pe_route_id entry) (pe_current_route_allocation_id entry) = k ->
  display_failure probe entry = None.
Proof.
  unfold unavailable_route_displays. intros Hnone He Hrdp Hk.
  destruct (display_failure probe entry) as [reason|] eqn:Hf; [exfalso|done].
  assert (exists v, (k, v) ∈ omap (fun p => unavailable_display probe p.2) (btree_entries pool))
    as [v Hv].
  { eexists. apply list_elem_of_omap. exists (e, entry). split; [by apply elem_of_btree_entries|].
    unfold unavailable_display, is_rdp. rewrite bool_decide_true by done. cbn.
    rewrite Hf. cbn. by rewrite Hk. }
  revert Hnone Hv. generalize (∅ : gmap string (string * string * string)).
  induction (omap _ _) as [|[k' v'] l IH]; intros m Hnone Hv; [by apply elem_of_nil in Hv|].
  cbn in Hnone. apply elem_of_cons in Hv as [[= <- <-]|Hv]; [|by eapply IH].
  clear IH. assert (is_Some (<[k:=v]> m !! k)) as Hsome by (rewrite lookup_insert_eq; eauto).
  revert Hsome Hnone. generalize (<[k:=v]> m). induction l as [|[k' v'] l IH]; intros m' [x Hx] Hn.
  - cbn in Hn. by rewrite Hx in Hn.
  - cbn in Hn. apply (IH (<[k':=v']> m')); [|done].
    destruct (decide (k' = k)) as [->|]; [rewrite lookup_insert_eq|rewrite lookup_insert_ne by done];
      eauto.
Qed.

Lemma orphan_allocation_live health a owner :
  da_owner_browser_id (orphan_allocation now health a) = Some owner ->
  da_state (orphan_allocation now health a) ∉ ["released"; "failed"; "orphaned"]%string ->
  health !! owner = Some Ready.
Proof.
  unfold orphan_allocation. destruct (is_orphaned health a) eqn:Ho; cbn [da_state da_owner_browser_id set_allocation].
  - intros _ Hn. set_solver.
  - intros Howner Hn. unfold is_orphaned in Ho. rewrite Howner in Ho.
    apply andb_false_iff in Ho as [Ho|Ho].
    + apply negb_false_iff, one_of_In in Ho. destruct Ho as [Ho|[Ho|[]]]; rewrite <-Ho in Hn; set_solver.
    + by apply negb_false_iff, bool_decide_eq_true in Ho.
Qed.

Lemma orphan_route_live health unavailable displays r :
  rt_state (orphan_route now health unavailable displays r)
    ∉ ["released"; "failed"; "orphaned"]%string ->
  orphan_route now health unavailable displays r = r /\ unavailable !! rt_id r = None
  /\ (forall d, rt_display_allocation_id r = Some d -> exists a, displays !! d = Some a
        /\ da_state a ∈ ["ready"; "allocating"]%string)
  /\ (forall b, rt_browser_id r = Some b -> health !! b = Some Ready).
Proof.
  unfold orphan_route.
  destruct (route_problem health unavailable displays r) as [[[reason id] state]|] eqn:Hp.
  { cbn. set_solver. }
  intros Hn. split; [done|]. unfold route_problem in Hp.
  destruct (one_of (rt_state r) _) eqn:Hst.
  { apply one_of_In in Hst. destruct Hst as [Ho|[Ho|[]]]; rewrite <-Ho in Hn; set_solver. }
  unfold or_else, display_problem in Hp.
  destruct (unavailable !! rt_id r) as [[[entry_id display] reason]|]; [done|]. split; [done|].
  split.
  - intros d Hd. rewrite Hd in Hp. cbn [mbind option_bind] in Hp.
    destruct (displays !! d) as [a|]; [|done]. exists a. split; [done|].
    destruct (one_of (da_state a) ["ready"; "allocating"]%string) eqn:Ha; [|done].
    apply one_of_In in Ha. by apply list_elem_of_In.
  - intros b Hb.
    assert (browser_problem health r = None) as Hbp.
    { revert Hp. destruct (rt_display_allocation_id r) as [d|]; cbn [mbind option_bind]; [|done].
      destruct (displays !! d) as [a|]; [|done].
      by destruct (one_of (da_state a) ["ready"; "allocating"]%string). }
    unfold browser_problem in Hbp. rewrite Hb in Hbp. cbn [mbind option_bind] in Hbp.
    destruct (health !! b) as [h|]; [|done]. by destruct h.
Qed.

Lemma release_entry_live routes entry id r :
  pe_state (release_entry now routes entry) <> "unavailable"%string ->
  pe_current_route_allocation_id (release_entry now routes entry) = Some id ->
  routes !! id = Some r -> rt_state r ∉ ["orphaned"; "released"; "failed"]%string.
Proof.
  unfold release_entry. destruct (is_releasable routes entry) eqn:Hrel; [done|].
  intros Hst Hid Hr Hin. unfold is_releasable, entry_route_state in Hrel.
  rewrite Hid in Hrel. cbn in Hrel. rewrite Hr, bool_decide_false in Hrel by done. cbn in Hrel.
  revert Hrel. apply not_false_iff_true. apply (proj2 (one_of_In _ ["orphaned"; "released"; "failed"]%string)).
  by apply list_elem_of_In.
Qed.

Lemma repair_viewer_live routes lease :
  viewer_lease_is_reconcile_active (repair_viewer now routes lease) = true ->
  repair_viewer now routes lease = lease /\ viewer_lease_is_expired now lease = false
  /\ exists id r, vl_route_id lease = Some id /\ routes !! id = Some r
       /\ rt_state r ∈ ["ready"; "reconnecting"; "allocating"]%string.
Proof.
  unfold repair_viewer. destruct (lease_expires now lease) eqn:He; [done|].
  destruct (lease_disconnects now routes lease) eqn:Hd; [done|]. intros Hact.
  split; [done|]. unfold lease_expires, lease_disconnects in *. rewrite Hact in He, Hd. cbn in He, Hd.
  rewrite He in Hd. split; [done|]. cbn in Hd. unfold route_unavailable in Hd.
  destruct (vl_route_id lease) as [id|]; [|done]. destruct (routes !! id) as [r|] eqn:Hr; [|done].
  exists id, r. split_and!; [done..|]. cbn in Hd. apply negb_false_iff in Hd.
  apply list_elem_of_In. by apply (proj1 (one_of_In _ ["ready"; "reconnecting"; "allocating"]%string)).
Qed.

Lemma kept_active active ids id : id ∈ kept_ids active ids -> id ∈ active.
Proof.
  unfold kept_ids. rewrite list_elem_of_In, filter_In. intros [_ H']. by apply bool_decide_eq_true in H'.
Qed.
Lemma kept_controller_active active c id : kept_controller active c = Some id -> id ∈ active.
Proof.
  unfold kept_controller. destruct c as [c|]; [|done]. cbn. case_bool_decide; [|done].
  by intros [= <-].
Qed.

Lemma refreshed_health (x : ServiceState) id b :
  browsers x !! id = Some b ->
  exists b', browsers (RemoteAttach.refresh_remote_view_attachability x) !! id = Some b'
    /\ bp_health b' = bp_health b.
Proof.
  intros Hb. unfold RemoteAttach.refresh_remote_view_attachability. cbn.
  rewrite lookup_fmap, Hb. cbn. eexists. split; [reflexivity|].
  unfold RemoteAttach.refresh_browser. by destruct (RemoteAttach.refresh_streams _ _ _ _).
Qed.
Lemma ready_refreshed (x s : ServiceState) :
  (forall id b, browsers s !! id = Some b ->
     exists b', browsers x !! id = Some b' /\ bp_health b' = bp_health b) ->
  forall id, (bp_health <$> browsers s) !! id = Some Ready ->
  exists b, browsers (RemoteAttach.refresh_remote_view_attachability x) !! id = Some b
    /\ bp_health b = Ready.
Proof.
  intros Hx id. rewrite lookup_fmap. destruct (browsers s !! id) as [b|] eqn:Hb; [|done].
  intros [= Hh]. destruct (Hx id b Hb) as (b' & Hb' & Hh').
  destruct (refreshed_health x id b' Hb') as (b'' & Hb'' & Hh'').
  exists b''. split; [done|congruence].
Qed.
End repaired.

(** C29. After the repair of the remote views, a display that is in use and names an owner
    belongs to a browser that is ready; a live route has the display and the browser it
    names, and every RDP gateway entry of the pool that it is checked out from, or is the
    route of, has a display that answers (entries of other providers are not probed); no
    pool entry stays checked out for a route that ended, unless the entry is unavailable,
    as the code leaves it; a live viewer has not expired and watches a live route; and
    routes name live viewers only. *)
Theorem remote_view_repaired probe now s repair s' :
  reconcile_remote_view_state_with_display_probe probe now s = Some (repair, s') ->
  let ready id := exists b, browsers s' !! id = Some b /\ bp_health b = Ready in
  let live_viewer id := exists lease, viewer_leases s' !! id = Some lease
    /\ viewer_lease_is_reconcile_active lease = true in
  (forall id a owner, display_allocations s' !! id = Some a ->
     da_owner_browser_id a = Some owner ->
     da_state a ∉ ["released"; "failed"; "orphaned"]%string -> ready owner) /\
  (forall id r, remote_view_routes s' !! id = Some r ->
     rt_state r ∉ ["released"; "failed"; "orphaned"]%string ->
     (forall d, rt_display_allocation_id r = Some d ->
        exists a, display_allocations s' !! d = Some a
          /\ da_state a ∈ ["ready"; "allocating"]%string)
     /\ (forall b, rt_browser_id r = Some b -> ready b)
     /\ forall e entry, route_pool s !! e = Some entry -> pe_provider entry = RdpGateway ->
          default (pe_route_id entry) (pe_current_route_allocation_id entry) = rt_id r ->
          exists display, route_pool_target_string entry "displayName" = Some display
            /\ probe display = true) /\
  (forall e entry id r, route_pool s' !! e = Some entry -> pe_state entry <> "unavailable"%string ->
     pe_current_route_allocation_id entry = Some id -> remote_view_routes s' !! id = Some r ->
     rt_state r ∉ ["orphaned"; "released"; "failed"]%string) /\
  (forall id lease, viewer_leases s' !! id = Some lease ->
     viewer_lease_is_reconcile_active lease = true ->
     viewer_lease_is_expired now lease = false
     /\ exists route_id r, vl_route_id lease = Some route_id
          /\ remote_view_routes s' !! route_id = Some r
          /\ rt_state r ∈ ["ready"; "reconnecting"; "allocating"]%string) /\
  (forall id r viewer, remote_view_routes s' !! id = Some r ->
     viewer ∈ rt_viewer_lease_ids r \/ rt_controller_lease_id r = Some viewer ->
     live_viewer viewer).
Proof.
  unfold reconcile_remote_view_state_with_display_probe. cbv zeta.
  set (health := bp_health <$> browsers s).
  set (unavailable := unavailable_route_displays probe (route_pool s)).
  set (displays := orphan_allocation now health <$> display_allocations s).
  set (routes := orphan_route now health unavailable displays <$> remote_view_routes s).
  set (viewers := repair_viewer now routes <$> viewer_leases s).
  destruct (existsb _ _); [done|]. intros [= _ <-].
  set (m := (fun b => set_custody _ _ _ b) <$> browsers s).
  set (x := with_browsers m _).
  pose proof (ready_refreshed x s) as Hready.
  specialize (Hready ltac:(intros id b Hb; cbn; unfold m; rewrite lookup_fmap, Hb; by eexists)).
  set (final := RemoteAttach.refresh_remote_view_attachability x) in *.
  change (display_allocations final) with displays.
  change (remote_view_routes final) with (drop_viewers (active_viewer_leases viewers) <$> routes).
  change (route_pool final) with (release_entry now routes <$> (probe_entry probe now <$> route_pool s)).
  change (viewer_leases final) with viewers.
  split_and!.
  - intros id a owner. unfold displays. rewrite lookup_fmap.
    destruct (display_allocations s !! id) as [a0|]; [|done]. intros [= <-] Ho Hn.
    eapply Hready, orphan_allocation_live; done.
  - intros id r. rewrite lookup_fmap. unfold routes at 1. rewrite lookup_fmap.
    destruct (remote_view_routes s !! id) as [r0|]; [|done]. intros [= <-] Hn.
    change (rt_state (orphan_route now health unavailable displays r0)
      ∉ ["released"; "failed"; "orphaned"]%string) in Hn.
    apply orphan_route_live in Hn as (-> & Hu & Hd & Hb).
    split_and!; [exact Hd|intros b Hb'; apply Hready, Hb, Hb'|].
    intros e entry He Hrdp Hk.
    assert (display_failure probe entry = None) as Hf.
    { eapply unavailable_none; [exact Hu|done..|]. exact Hk. }
    revert Hf. unfold display_failure.
    destruct (route_pool_target_string entry "displayName") as [d|]; [|done].
    destruct (probe d) eqn:Hpd; [|done]. intros _. by exists d.
  - intros e entry id r He Hst Hid Hr. rewrite lookup_fmap in He. rewrite lookup_fmap in Hr.
    destruct ((probe_entry probe now <$> route_pool s) !! e) as [entry0|]; [|done].
    injection He as <-. destruct (routes !! id) as [r0|] eqn:Hr0; [|done].
    injection Hr as <-. cbn. by eapply release_entry_live.
  - intros id lease. unfold viewers. rewrite lookup_fmap.
    destruct (viewer_leases s !! id) as [l|]; [|done]. intros [= <-] Hact.
    destruct (repair_viewer_live now routes l Hact) as (-> & He & rid & r & Hrid & Hr & Hin).
    split; [done|]. exists rid, (drop_viewers (active_viewer_leases viewers) r).
    rewrite lookup_fmap, Hr. done.
  - intros id r viewer Hr Hv. rewrite lookup_fmap in Hr.
    destruct (routes !! id) as [r0|]; [|done]. injection Hr as <-.
    assert (viewer ∈ active_viewer_leases viewers) as Hin
      by (destruct Hv as [Hv|Hv]; [exact (kept_active _ _ _ Hv)|exact (kept_controller_active _ _ _ Hv)]).
    unfold active_viewer_leases in Hin. apply elem_of_dom in Hin as [lease Hl].
    apply map_lookup_filter_Some in Hl as [Hl Ha].
    by exists lease.
Qed.

End reconciled.

End ReconcileTheorems.
