(* ===== verification/HealthTheorems.v ===== *)
(** * What recovery and close of a browser guarantee

    The retry budget of a recovery ([recovery_budget]), the retry an operator allows
    ([retry_reopens_recovery]), the delay between attempts ([backoff_spec]), the
    custody a close gives up ([close_gives_up_custody]) and the record a launch leaves
    ([launch_recorded]). *)

From Stdlib Require Import Ascii.
From stdpp Require Import gmap sorting pretty.
From S2P Require Import Prelude RustStr Env RemoteRoute RemoteAttach ServiceJobs ControlJobs ServiceTabs ProcessProof ProfileSelection ProfileLeases ServiceHealth ServiceLaunch ServiceReconcile ReconcileTheorems.
Import ServiceJobs ServiceTabs ProfileSelection RemoteRoute.RemoteRoute ServiceHealth ServiceLaunch ReconcileTheorems.

Module HealthTheorems.

Section health.
Context `{!Json, !JsonBuild, !JsonTree, !JsonEntries, !UrlLib, !Chrono, !HealthEnv}.

(** ** Calls in any order *)

(** A call that finds the browser of a session unhealthy, one that starts its recovery,
    and anything else that happens to the state. *)
Inductive RecoveryCall :=
| Stale (fault : option string) (pid : option Z) (cdp_endpoint : option string)
    (health : BrowserHealth) (reason_kind : BrowserRecoveryReasonKind) (last_error : string)
    (event_details : option value)
| Started (fault : option string) (reason : string)
| Other (f : ServiceState -> ServiceState).

Section calls.
Context (session_id : string) (config : BrowserRecoveryPolicyConfig).
Definition recovery_call (c : RecoveryCall) : HM BrowserRecoveryPersistence :=
  match c with
  | Stale fault pid cdp_endpoint health reason_kind last_error event_details =>
      persist_current_browser_stale_health_in_repository fault session_id pid cdp_endpoint config
        health reason_kind last_error event_details
  | Started fault reason =>
      persist_browser_recovery_started_in_repository fault session_id config reason
  | Other f => _ ← modify f; mret NotRecorded
  end.
Fixpoint recovery_calls (cs : list RecoveryCall) : HM (list BrowserRecoveryPersistence) :=
  match cs with
  | [] => mret []
  | c :: cs => r ← recovery_call c; rs ← recovery_calls cs; mret (r :: rs)
  end.
End calls.

Definition is_recorded (r : BrowserRecoveryPersistence) : bool :=
  match r with Recorded => true | _ => false end.
Definition recorded (rs : list BrowserRecoveryPersistence) : nat :=
  length (List.filter is_recorded rs).

(** ** Attempts in a list of events *)

Section attempts.
Context (id : string).

Definition attempts_in (l : list ServiceEvent) : nat :=
  length (List.filter (is_recovery_start id)
    (take_while (fun event => negb (is_recovery_boundary id event)) (rev l))).
Definition starts (l : list ServiceEvent) : nat := length (List.filter (is_recovery_start id) l).

Lemma attempts_snoc l e :
  attempts_in (l ++ [e])
  = if is_recovery_boundary id e then 0
    else (if is_recovery_start id e then 1 else 0) + attempts_in l.
Proof.
  unfold attempts_in. rewrite rev_unit. cbn [take_while].
  destruct (is_recovery_boundary id e); cbn [negb List.filter length]; [done|].
  by destruct (is_recovery_start id e).
Qed.
Lemma attempts_app l es :
  Forall (fun e => is_recovery_boundary id e = false) es ->
  attempts_in (l ++ es) = attempts_in l + starts es.
Proof.
  revert l. induction es as [|e es IH]; intros l; cbn; [by rewrite app_nil_r, Nat.add_0_r|].
  intros [He Hes]%Forall_cons. change (l ++ e :: es) with (l ++ [e] ++ es).
  rewrite app_assoc, IH, attempts_snoc, He by done. unfold starts. cbn.
  destruct (is_recovery_start id e); cbn; lia.
Qed.

(** As long as no event is dropped, the state after has [n] more attempts. *)
Definition grows (n : nat) (s s' : ServiceState) : Prop :=
  length (events s') < MAX_SERVICE_EVENTS ->
  exists es, events s' = events s ++ es
    /\ Forall (fun e => is_recovery_boundary id e = false) es /\ starts es = n.

Lemma grows_same s s' : events s' = events s -> grows 0 s s'.
Proof. intros He _. exists []. by rewrite app_nil_r. Qed.
Lemma grows_trans n m s1 s2 s3 : grows n s1 s2 -> grows m s2 s3 -> grows (n + m) s1 s3.
Proof.
  intros H12 H23 Hlen. destruct (H23 Hlen) as (es' & He' & Hb' & Hn').
  destruct H12 as (es & He & Hb & Hn).
  { rewrite He', length_app in Hlen. lia. }
  exists (es ++ es'). rewrite He', He, app_assoc. split; [done|]. split; [by apply Forall_app|].
  unfold starts in *. rewrite List.filter_app, length_app. lia.
Qed.
Lemma grows_push e s :
  is_recovery_boundary id e = false ->
  grows (if is_recovery_start id e then 1 else 0) s (push_service_event e s).
Proof.
  intros He Hlen. cbn in *. rewrite length_drop in Hlen. exists [e].
  replace (length (events s ++ [e]) - MAX_SERVICE_EVENTS) with 0 by lia.
  split; [done|]. split; [by constructor|]. unfold starts. cbn. by destruct (is_recovery_start id e).
Qed.
Lemma grows_prior n s s' :
  grows n s s' -> length (events s') < MAX_SERVICE_EVENTS ->
  prior_attempts s' id = prior_attempts s id + n.
Proof.
  intros Hg Hlen. destruct (Hg Hlen) as (es & He & Hb & <-).
  change (attempts_in (events s') = attempts_in (events s) + starts es).
  by rewrite He, attempts_app.
Qed.
Lemma grows_length n s s' :
  grows n s s' -> length (events s') < MAX_SERVICE_EVENTS ->
  length (events s) < MAX_SERVICE_EVENTS.
Proof. intros Hg Hlen. destruct (Hg Hlen) as (es & He & _). rewrite He, length_app in Hlen. lia. Qed.
End attempts.

(** ** What one operation does *)

Lemma observed_spec b details w :
  exists o t, observed b details w
  = (set_health (bp_health b) (last_error b) o b, {| w_state := w_state w; w_tick := t |}).
Proof.
  unfold observed, apply_browser_health_observation.
  destruct w as [s t]. destruct (bp_health b); by eexists _, _.
Qed.

Lemma changed_event_spec id prev cur details w :
  exists t s', record_browser_health_changed_event_with_details id prev cur details w
    = (tt, {| w_state := s'; w_tick := t |})
  /\ (s' = w_state w \/ exists e, s' = push_service_event e (w_state w)
        /\ ev_kind e = BrowserHealthChanged /\ ev_current_health e = Some (bp_health cur)).
Proof.
  destruct w as [s t]. unfold record_browser_health_changed_event_with_details.
  destruct prev as [prev|]; [|by eexists _, _; split; [|left]].
  case_match; [by eexists _, _; split; [|left]|].
  eexists _, _. split; [reflexivity|]. right. by eexists.
Qed.
Lemma started_event_spec id cur kind reason policy w :
  forall details, exists t e,
  record_browser_recovery_started_event_with_details id cur kind reason policy details w
    = (tt, {| w_state := push_service_event e (w_state w); w_tick := t |})
  /\ ev_kind e = BrowserRecoveryStarted /\ ev_browser_id e = Some id.
Proof. intros details. destruct w as [s t]. by eexists _, _. Qed.

Section one_call.
Context (id : string).

Lemma changed_grows e s :
  ev_kind e = BrowserHealthChanged -> ev_current_health e <> Some Ready ->
  grows id 0 s (push_service_event e s).
Proof.
  intros Hk Hh. pose proof (grows_push id e s) as Hg. unfold is_recovery_boundary, is_recovery_start in Hg.
  rewrite Hk, (bool_decide_false (ev_current_health e = _)), andb_false_r in Hg by done.
  by apply Hg.
Qed.
Lemma started_grows e s :
  ev_kind e = BrowserRecoveryStarted -> ev_browser_id e = Some id ->
  grows id 1 s (push_service_event e s).
Proof.
  intros Hk Hb. pose proof (grows_push id e s) as Hg. unfold is_recovery_boundary, is_recovery_start in Hg.
  rewrite Hk, Hb in Hg. rewrite (bool_decide_true (Some id = Some id)) in Hg by done. by apply Hg.
Qed.

Lemma faulted_spec b policy w :
  exists t s' b', record_faulted id b policy w
    = (Ok (Blocked (faulted_error policy)), {| w_state := s'; w_tick := t |})
  /\ grows id 0 (w_state w) s' /\ browsers s' !! id = Some b' /\ bp_health b' = Faulted.
Proof.
  unfold record_faulted. unfold mbind, hm_bind. cbv zeta.
  destruct (observed_spec (set_health Faulted (Some (faulted_error policy))
    (last_health_observation b) b) None w) as (o & t & ->).
  set (b' := set_health _ _ o _).
  unfold record_browser_health_changed_event.
  destruct (changed_event_spec id (Some b) b' None {| w_state := w_state w; w_tick := t |})
    as (t' & s' & -> & Hs'). cbn [w_state] in Hs'.
  eexists _, _, b'. split; [reflexivity|]. cbn [w_state]. split_and!; [|cbn; by rewrite lookup_insert_eq|done].
  eapply (grows_trans id 0 0 _ s'); [|by apply grows_same].
  destruct Hs' as [->|(e & -> & Hk & Hh)]; [by apply grows_same|].
  apply changed_grows; [done|]. by rewrite Hh.
Qed.
End one_call.

(** ** What one call does *)

Section accounts.
Context (session_id : string) (config : BrowserRecoveryPolicyConfig).
Let id := service_browser_id_for_session session_id.

(** The call leaves as many attempts more as it recorded; it records one only within the
    budget, and blocks only when the budget is spent, with the browser faulted. *)
Definition accounts (s : ServiceState) (r : BrowserRecoveryPersistence) (s' : ServiceState)
    : Prop :=
  grows id (if is_recorded r then 1 else 0) s s' /\
  (length (events s') < MAX_SERVICE_EVENTS ->
   match r with
   | Recorded => (Z.of_nat (prior_attempts s id) + 1 <= pc_retry_budget config)%Z
   | Blocked _ => (pc_retry_budget config < Z.of_nat (prior_attempts s id) + 1)%Z
        /\ exists b, browsers s' !! id = Some b /\ bp_health b = Faulted
   | NotRecorded => True
   end).

Lemma accounts_after s s1 r s' :
  grows id 0 s s1 -> accounts s1 r s' -> accounts s r s'.
Proof.
  intros Hg [Hg1 Hr]. split; [exact (grows_trans id 0 _ s s1 s' Hg Hg1)|].
  intros Hlen. pose proof (Hr Hlen) as Hr'. pose proof (grows_length _ _ _ _ Hg1 Hlen) as Hl1.
  rewrite (grows_prior id 0 s s1 Hg Hl1), Nat.add_0_r in Hr'. exact Hr'.
Qed.
Lemma accounts_not_recorded s : accounts s NotRecorded s.
Proof. split; [by apply grows_same|done]. Qed.
Lemma accounts_faulted b w w' r :
  rp_retry_budget_exceeded (recovery_policy_for_next_attempt (w_state w) id config) = true ->
  record_faulted id b (recovery_policy_for_next_attempt (w_state w) id config) w = (r, w') ->
  exists p, r = Ok p /\ accounts (w_state w) p (w_state w') /\ p <> NotRecorded.
Proof.
  intros Hp Hw. destruct (faulted_spec id b (recovery_policy_for_next_attempt (w_state w) id config) w) as (t & s' & b' & Heq & Hg & Hb & Hh).
  rewrite Heq in Hw. injection Hw as <- <-. eexists. split; [done|]. split; [|done].
  split; [exact Hg|]. intros _. split; [by apply Z.ltb_lt in Hp|by exists b'].
Qed.
Lemma accounts_started s s' :
  rp_retry_budget_exceeded (recovery_policy_for_next_attempt s id config) = false ->
  grows id 1 s s' -> accounts s Recorded s'.
Proof. intros Hp Hg. split; [exact Hg|]. intros _. by apply Z.ltb_ge in Hp. Qed.

Lemma stale_accounts pid cdp_endpoint health reason_kind last_error details w r w' :
  health <> Ready ->
  persist_current_browser_stale_health session_id pid cdp_endpoint config health reason_kind
    last_error details w = (r, w') ->
  exists p, r = Ok p /\ accounts (w_state w) p (w_state w') /\ p <> NotRecorded.
Proof.
  intros Hready. unfold persist_current_browser_stale_health. fold id.
  unfold mbind, hm_bind. cbv zeta. cbn [get_state].
  destruct (observed_spec (stale_browser_process_record id session_id (browsers (w_state w) !! id)
    pid cdp_endpoint health last_error) details w) as (o & t & ->).
  set (b := set_health _ _ o _). assert (bp_health b = health) as Hbh by done. clearbody b.
  destruct (changed_event_spec id (browsers (w_state w) !! id) b details
    {| w_state := w_state w; w_tick := t |}) as (t' & s1 & -> & Hs1). cbn [w_state] in Hs1.
  cbn [get_state w_state].
  assert (grows id 0 (w_state w) s1) as Hg.
  { destruct Hs1 as [->|(e & -> & Hk & Hh)]; [by apply grows_same|].
    apply changed_grows; [done|]. rewrite Hh. intros [= ?]. congruence. }
  destruct (rp_retry_budget_exceeded _) eqn:Hp.
  - intros Hf.
    destruct (accounts_faulted b {| w_state := s1; w_tick := t' |} w' r Hp Hf) as (p & -> & Ha & Hn).
    exists p. split; [done|]. split; [|done]. by apply (accounts_after _ s1).
  - destruct (started_event_spec id b reason_kind last_error
      (Some (recovery_policy_for_next_attempt s1 id config))
      {| w_state := s1; w_tick := t' |} details) as (t2 & e & -> & Hk & Hb).
    intros [= <- <-]. exists Recorded. split; [done|]. split; [|done].
    apply (accounts_after _ s1); [done|]. apply accounts_started; [done|]. cbn [w_state].
    eapply (grows_trans id 1 0); [by apply (started_grows id e s1)|by apply grows_same].
Qed.
Lemma alter_last_snoc {A} (f : A -> A) l a : alter_last f (l ++ [a]) = l ++ [f a].
Proof.
  unfold alter_last. rewrite length_app. cbn. rewrite Nat.add_1_r. cbn.
  induction l as [|x l IH]; [done|]. cbn. by f_equal.
Qed.

(** What the caller rewrites of the event it just pushed does not count. *)
Lemma context_grows e historical s :
  ev_kind e = BrowserRecoveryStarted -> ev_browser_id e = Some id ->
  grows id 1 s (set_events (alter_last (fun event => with_event_context historical event session_id)
    (events (push_service_event e s))) (push_service_event e s)).
Proof.
  intros Hk Hb Hlen. assert (length (events (push_service_event e s)) < MAX_SERVICE_EVENTS) as Hl.
  { revert Hlen. cbn [set_events with_extra st_other sx_events]. unfold alter_last.
    by rewrite length_alter. }
  assert (events (push_service_event e s) = events s ++ [e]) as He.
  { cbn in *. rewrite length_drop in Hl. by replace (_ - _) with 0 by lia. }
  rewrite He, alter_last_snoc. eexists. split; [reflexivity|].
  unfold starts, is_recovery_boundary, is_recovery_start. split.
  - constructor; [|constructor]. cbn. by rewrite Hk.
  - cbn. rewrite Hk, Hb. by rewrite (bool_decide_true (Some id = Some id)).
Qed.

Lemma started_accounts reason w r w' :
  persist_browser_recovery_started session_id config reason w = (r, w') ->
  exists p, r = Ok p /\ accounts (w_state w) p (w_state w').
Proof.
  unfold persist_browser_recovery_started. fold id. cbv zeta.
  unfold mbind at 1, hm_bind at 1. cbn [get_state].
  set (historical := unhealthy_event id (events (w_state w))). clearbody historical.
  destruct (or_else _ _) as [b|];
    [|intros [= <- <-]; exists NotRecorded; split; [done|apply accounts_not_recorded]].
  case_match; [intros [= <- <-]; exists NotRecorded; split; [done|apply accounts_not_recorded]|].
  destruct (rp_retry_budget_exceeded _) eqn:Hp.
  - intros Hf. destruct (accounts_faulted b w w' r Hp Hf) as (p & -> & Ha & _). by exists p.
  - unfold mbind, hm_bind, record_browser_recovery_started_event.
    destruct (started_event_spec id b (recovery_reason_kind_for_health (bp_health b))
      (default reason (last_error b))
      (Some (recovery_policy_for_next_attempt (w_state w) id config)) w None)
      as (t2 & e & -> & Hk & Hb).
    cbn [modify w_state]. intros [= <- <-]. exists Recorded. split; [done|].
    apply accounts_started; [done|]. cbn [w_state].
    change (browsers (push_service_event e (w_state w))) with (browsers (w_state w)).
    destruct (browsers (w_state w) !! id) as [b0|]; [by apply started_grows|].
    destruct historical as [h|].
    + eapply (grows_trans id 1 0); [by apply (context_grows e h)|by apply grows_same].
    + eapply (grows_trans id 1 0); [by apply (started_grows id e)|by apply grows_same].
Qed.

(** What else happens to the state meanwhile leaves the health of the browser and its
    attempts alone. *)
Definition unready (c : RecoveryCall) : Prop :=
  match c with
  | Stale _ _ _ health _ _ _ => health <> Ready
  | Started _ _ => True
  | Other f => forall s, grows id 0 s (f s)
  end.

Lemma call_accounts c w r w' :
  unready c -> recovery_call session_id config c w = (r, w') ->
  accounts (w_state w) r (w_state w').
Proof.
  destruct c as [fault pid cdp health kind error details|fault reason|f]; cbn [unready recovery_call].
  - intros Hh. unfold persist_current_browser_stale_health_in_repository, mutate, mbind, hm_bind.
    destruct fault as [err|]; [intros [= <- <-]; apply accounts_not_recorded|].
    destruct (persist_current_browser_stale_health _ _ _ _ _ _ _ _ w) as [o w1] eqn:Hs.
    destruct (stale_accounts pid cdp health kind error details w o w1 Hh Hs) as (p & -> & Ha & _).
    by intros [= <- <-].
  - intros _. unfold persist_browser_recovery_started_in_repository, mutate, mbind, hm_bind.
    destruct fault as [err|]; [intros [= <- <-]; apply accounts_not_recorded|].
    destruct (persist_browser_recovery_started _ _ _ w) as [o w1] eqn:Hs.
    destruct (started_accounts reason w o w1 Hs) as (p & -> & Ha).
    by intros [= <- <-].
  - intros Hf [= <- <-]. cbn. split; [apply Hf|done].
Qed.

Lemma calls_grow cs w rs w' :
  Forall unready cs -> recovery_calls session_id config cs w = (rs, w') ->
  grows id (recorded rs) (w_state w) (w_state w').
Proof.
  revert w rs. induction cs as [|c cs IH]; intros w rs; cbn [recovery_calls].
  { intros _ [= <- <-]. by apply grows_same. }
  intros [Hc Hcs]%Forall_cons. unfold mbind, hm_bind.
  destruct (recovery_call session_id config c w) as [r w1] eqn:Hr.
  destruct (recovery_calls session_id config cs w1) as [rs1 w2] eqn:Hrs.
  intros [= <- <-]. destruct (call_accounts c w r w1 Hc Hr) as [Hg _].
  pose proof (grows_trans id _ _ _ _ _ Hg (IH w1 rs1 Hcs Hrs)) as Hall.
  replace (recorded (r :: rs1)) with ((if is_recorded r then 1 else 0) + recorded rs1); [done|].
  unfold recorded. cbn. by destruct (is_recorded r).
Qed.
Lemma calls_within cs w rs w' :
  Forall unready cs -> recovery_calls session_id config cs w = (rs, w') ->
  length (events (w_state w')) < MAX_SERVICE_EVENTS -> 0 < recorded rs ->
  (Z.of_nat (prior_attempts (w_state w) id + recorded rs) <= pc_retry_budget config)%Z.
Proof.
  revert w rs. induction cs as [|c cs IH]; intros w rs; cbn [recovery_calls].
  { intros _ [= <- <-]. cbn. lia. }
  intros [Hc Hcs]%Forall_cons. unfold mbind, hm_bind.
  destruct (recovery_call session_id config c w) as [r w1] eqn:Hr.
  destruct (recovery_calls session_id config cs w1) as [rs1 w2] eqn:Hrs.
  intros [= <- <-] Hlen. pose proof (call_accounts c w r w1 Hc Hr) as [Hg Ha].
  pose proof (grows_length id _ _ _ (calls_grow cs w1 rs1 w2 Hcs Hrs) Hlen) as Hl1.
  specialize (Ha Hl1).
  specialize (IH w1 rs1 Hcs Hrs Hlen). rewrite (grows_prior id _ _ _ Hg Hl1) in IH.
  unfold recorded in *. destruct r; cbn in *; lia.
Qed.

End accounts.

(** ** The theorems on recovery *)

(** C15. Whatever order the calls come in, and whatever else happens to the state, a session
    has no more recoveries recorded than its retry budget allows until its browser is
    found ready or an operator allows a retry; the attempts recorded are those counted.
    The next call that finds the browser unhealthy records an attempt if one is left, and
    is otherwise refused, with the browser marked faulted; no call but a failed write
    goes unrecorded then. As long as the log has room: it keeps 100 events. *)
Theorem recovery_budget session_id config calls w results w' :
  let id := service_browser_id_for_session session_id in
  Forall (unready session_id) calls ->
  recovery_calls session_id config calls w = (results, w') ->
  length (events (w_state w')) < MAX_SERVICE_EVENTS ->
  prior_attempts (w_state w') id = prior_attempts (w_state w) id + recorded results /\
  (0 < recorded results ->
   (Z.of_nat (prior_attempts (w_state w') id) <= pc_retry_budget config)%Z) /\
  (forall c r w2, unready session_id c -> recovery_call session_id config c w' = (r, w2) ->
     length (events (w_state w2)) < MAX_SERVICE_EVENTS ->
     (r = Recorded -> (Z.of_nat (prior_attempts (w_state w') id) < pc_retry_budget config)%Z)
     /\ (forall why, r = Blocked why ->
           (pc_retry_budget config <= Z.of_nat (prior_attempts (w_state w') id))%Z
           /\ exists b, browsers (w_state w2) !! id = Some b /\ bp_health b = Faulted)
     /\ (match c with Stale None _ _ _ _ _ _ => True | _ => False end -> r <> NotRecorded)).
Proof.
  intros id Hun Hcalls Hlen.
  pose proof (calls_grow session_id config calls w results w' Hun Hcalls) as Hg.
  pose proof (grows_prior id _ _ _ Hg Hlen) as Hp. split; [exact Hp|]. split.
  { intros Hr. rewrite Hp. by apply (calls_within session_id config calls w results w'). }
  intros c r w2 Hc Hcall Hlen2.
  destruct (call_accounts session_id config c w' r w2 Hc Hcall) as [_ Ha]. specialize (Ha Hlen2).
  fold id in Ha. split_and!.
  - intros ->. lia.
  - intros why ->. destruct Ha as [Ha Hb]. split; [lia|exact Hb].
  - destruct c as [[fault|] pid cdp health kind error details|fault reason|f]; try done. intros _.
    revert Hcall. cbn [recovery_call].
    unfold persist_current_browser_stale_health_in_repository, mutate, mbind, hm_bind.
    destruct (persist_current_browser_stale_health _ _ _ _ _ _ _ _ w') as [o w1] eqn:Hs.
    destruct (stale_accounts session_id config pid cdp health kind error details w' o w1 Hc Hs)
      as (p & -> & _ & Hn).
    by intros [= <- <-].
Qed.

(** The delay doubles from the base with every attempt and stops at the maximum; no
    attempt waits for longer, and a later one for no less. *)
Theorem backoff_spec config attempt :
  (0 < pc_base_backoff_ms config <= u64_max)%Z -> (0 <= pc_max_backoff_ms config <= u64_max)%Z ->
  (1 <= attempt <= 2 ^ 32)%Z ->
  let delay := recovery_backoff_delay_ms attempt config in
  (delay = Z.min (pc_base_backoff_ms config * 2 ^ (attempt - 1)) (pc_max_backoff_ms config))%Z /\
  (0 <= delay <= pc_max_backoff_ms config)%Z /\
  forall later, (attempt <= later <= 2 ^ 32)%Z ->
    (delay <= recovery_backoff_delay_ms later config)%Z.
Proof.
  intros Hbase Hmax Ha.
  assert (forall a, (1 <= a <= 2 ^ 32)%Z -> recovery_backoff_delay_ms a config
    = Z.min (pc_base_backoff_ms config * 2 ^ (a - 1)) (pc_max_backoff_ms config))%Z as Hspec.
  { intros a Hr. unfold recovery_backoff_delay_ms, u64_saturating_sub.
    rewrite Z.max_r, Z.mod_small by lia. destruct (a - 1 <? 64)%Z eqn:Hlt.
    - rewrite Z.shiftl_1_l. apply Z.ltb_lt in Hlt. lia.
    - apply Z.ltb_ge in Hlt. assert (2 ^ 64 <= 2 ^ (a - 1))%Z by (apply Z.pow_le_mono_r; lia).
      unfold u64_max in *. nia. }
  cbv zeta. rewrite Hspec by done. split; [done|].
  assert (0 < 2 ^ (attempt - 1))%Z by (apply Z.pow_pos_nonneg; lia).
  split; [nia|]. intros later Hl. rewrite Hspec by lia.
  assert (2 ^ (attempt - 1) <= 2 ^ (later - 1))%Z by (apply Z.pow_le_mono_r; lia). nia.
Qed.

Lemma attempts_boundary id (l : list ServiceEvent) e n :
  is_recovery_boundary id e = true -> n <= length l -> attempts_in id (drop n (l ++ [e])) = 0.
Proof. intros He Hn. rewrite drop_app_le by done. by rewrite attempts_snoc, He. Qed.

Lemma enable_retry_spec browser_id request expected b w :
  browsers (w_state w) !! browser_id = Some b -> bp_id b = browser_id ->
  bp_health b = expected ->
  exists t s1 e b', enable_service_browser_retry_in_state browser_id request expected w
    = (Ok b', {| w_state := refresh_derived_views
                   (push_service_event e (set_browser browser_id b' s1)); w_tick := t |})
  /\ is_recovery_boundary browser_id e = true /\ bp_health b' = ProcessExited.
Proof.
  intros Hb Hid Hh. unfold enable_service_browser_retry_in_state, mbind, hm_bind. cbn [get_state].
  rewrite Hb, (bool_decide_true (bp_health b = expected)) by done. cbn [negb].
  match goal with |- context [observed ?x None w] => set (retry := x) end.
  assert (bp_health retry = ProcessExited /\ bp_id retry = browser_id) as [Hrh Hri] by done.
  clearbody retry. destruct (observed_spec retry None w) as (o & t & ->).
  set (b' := set_health _ _ o retry).
  assert (bp_health b' = ProcessExited /\ bp_id b' = browser_id) as [Hbh Hbi] by done.
  clearbody b'. unfold record_browser_health_changed_event.
  destruct (changed_event_spec browser_id (Some b) b' None {| w_state := w_state w; w_tick := t |})
    as (t' & s1 & -> & _).
  eexists _, s1, _, b'. split; [reflexivity|]. split; [|done].
  unfold is_recovery_boundary. cbn. rewrite Hbi.
  by rewrite (bool_decide_true (Some browser_id = Some browser_id)), orb_true_r.
Qed.

Lemma reopened browser_id e b' s1 :
  is_recovery_boundary browser_id e = true ->
  let s' := refresh_derived_views (push_service_event e (set_browser browser_id b' s1)) in
  prior_attempts s' browser_id = 0
  /\ exists b, browsers s' !! browser_id = Some b /\ unhandled b = unhandled b'.
Proof.
  intros He. set (s2 := push_service_event e (set_browser browser_id b' s1)). cbv zeta. split.
  - change (attempts_in browser_id (events (refresh_derived_views s2)) = 0).
    rewrite (sf_events _ _ (derived_same_facts s2)). apply attempts_boundary; [done|].
    rewrite length_app. cbn. unfold MAX_SERVICE_EVENTS. lia.
  - apply (same_facts_browser s2 _ browser_id b' (derived_same_facts s2)). cbn.
    by rewrite lookup_insert_eq.
Qed.

(** C30. An operator allows a retry of a browser that is faulted, and of no other; a refusal,
    or a repository that fails, leaves the state as it was. The browser is then recorded
    as exited, its attempts start over, and with a budget at all the next recovery is
    allowed. *)
Theorem retry_reopens_recovery fault browser_id request w r w' :
  (forall b, browsers (w_state w) !! browser_id = Some b -> bp_id b = browser_id) ->
  retry_persisted_service_browser_in_repository fault browser_id request w = (r, w') ->
  ((exists b, r = Ok b) <->
     fault = None
     /\ exists b, browsers (w_state w) !! browser_id = Some b /\ bp_health b = Faulted) /\
  (forall err, r = Err err -> w_state w' = w_state w) /\
  (forall b, r = Ok b ->
     bp_health b = ProcessExited /\
     (exists b', browsers (w_state w') !! browser_id = Some b' /\ unhandled b' = unhandled b) /\
     prior_attempts (w_state w') browser_id = 0 /\
     forall config, (1 <= pc_retry_budget config)%Z ->
       rp_retry_budget_exceeded
         (recovery_policy_for_next_attempt (w_state w') browser_id config) = false).
Proof.
  intros Hid. unfold retry_persisted_service_browser_in_repository, mutate, mbind at 1, hm_bind at 1.
  destruct fault as [err|].
  { intros [= <- <-]. split; [|by split]. split; [by intros [b ?]|by intros [? _]]. }
  unfold retry_service_browser_in_state.
  destruct (browsers (w_state w) !! browser_id) as [b|] eqn:Hb; cycle 1.
  { unfold enable_service_browser_retry_in_state, mbind, hm_bind. cbn [get_state]. rewrite Hb.
    intros [= <- <-]. split; [|by split]. split; [by intros [? ?]|by intros [_ (? & ? & _)]]. }
  destruct (decide (bp_health b = Faulted)) as [Hh|Hh]; cycle 1.
  { unfold enable_service_browser_retry_in_state, mbind, hm_bind. cbn [get_state].
    rewrite Hb, bool_decide_false by done. intros [= <- <-]. split; [|by split].
    split; [by intros [? ?]|by intros (_ & ? & [= <-] & ?)]. }
  destruct (enable_retry_spec browser_id request Faulted b w Hb (Hid b eq_refl) Hh)
    as (t & s1 & e & b' & -> & He & Hbh).
  destruct (reopened browser_id e b' s1 He) as [Hp Hb'].
  intros [= <- <-]. cbn [w_state]. split; [|split; [done|]].
  { split; [|by intros _; exists b']. intros _. split; [done|]. by exists b. }
  intros x [= <-]. split; [done|]. split; [done|]. split; [exact Hp|].
  intros config Hc. unfold recovery_policy_for_next_attempt. cbn [rp_retry_budget_exceeded].
  rewrite Hp. apply Z.ltb_ge. lia.
Qed.

(** ** The displays and routes a close releases *)

Section release.
Context (browser : BrowserProcess) (session_id state failure_class now : string).
Let bid := bp_id browser.

Definition ours (a : DisplayAllocation) : bool :=
  (da_owner_browser_id a == Some (bp_id browser)) && (da_owner_session_id a == Some session_id).
Definition close_allocation (a : DisplayAllocation) : DisplayAllocation :=
  if ours a then closed_allocation state failure_class now a else a.

(** The route shows the browser on one of the displays in [l] it and the session own. *)
Definition shows_ours (l : list string) (s : ServiceState) (r : RemoteViewRoute) : bool :=
  (rt_browser_id r == Some (bp_id browser))
  && match rt_display_allocation_id r with
     | Some d => bool_decide (d ∈ l)
                 && match display_allocations s !! d with Some a => ours a | None => false end
     | None => false
     end.
Definition close_route (l : list string) (s : ServiceState) (r : RemoteViewRoute)
    : RemoteViewRoute := if shows_ours l s r then closed_route now r else r.
Definition freed (entry : RoutePoolEntry) : RoutePoolEntry :=
  set_entry "available" None (pe_readiness entry) entry.

(** Nothing but displays, routes and the pool differs. *)
Definition same_rest (s s' : ServiceState) : Prop :=
  browsers s' = browsers s /\ viewer_leases s' = viewer_leases s
  /\ remote_view_acquisition_leases s' = remote_view_acquisition_leases s
  /\ st_other s' = st_other s.

Definition closes (d : string) (r : RemoteViewRoute) : bool :=
  (rt_display_allocation_id r == Some d) && (rt_browser_id r == Some bid).
Lemma release_route_spec d s k :
  let s' := release_route bid d now s k in
  same_rest s s' /\ display_allocations s' = display_allocations s
  /\ (forall k', remote_view_routes s' !! k'
        = (fun r => if bool_decide (k' = k) && closes d r then closed_route now r else r)
          <$> remote_view_routes s !! k')
  /\ route_pool s'
     = (fun e => if pe_current_route_allocation_id e == Some k then freed e else e)
       <$> route_pool s.
Proof.
  unfold release_route. fold bid. destruct (remote_view_routes s !! k) as [r|] eqn:Hk.
  - fold (closes d r). destruct (closes d r) eqn:Ho; (split_and!; [done..| |done]); intros k'; cbn;
      (destruct (decide (k' = k)) as [->|Hne];
       [|rewrite ?lookup_insert_ne, (bool_decide_false (k' = k)) by done; cbn;
         by destruct (remote_view_routes s !! k')]).
    + rewrite lookup_insert_eq, Hk, bool_decide_true by done.
      cbn [fmap option_fmap option_map andb]. by rewrite Ho.
    + rewrite Hk, bool_decide_true by done. cbn [fmap option_fmap option_map andb]. by rewrite Ho.
  - split_and!; [done..| |done]. intros k'. cbn. destruct (decide (k' = k)) as [->|Hne].
    + by rewrite Hk.
    + rewrite bool_decide_false by done. cbn. by destruct (remote_view_routes s !! k').
Qed.

(** The routes [l] of one display: those that show the browser on it are closed, the pool
    entries checked out for any of them freed. *)
Lemma release_routes d l s :
  let s' := foldl (release_route bid d now) s l in
  same_rest s s' /\ display_allocations s' = display_allocations s
  /\ (forall k, remote_view_routes s' !! k
        = (fun r => if bool_decide (k ∈ l) && closes d r then closed_route now r else r)
          <$> remote_view_routes s !! k)
  /\ (forall e, route_pool s' !! e
      = (fun e => match pe_current_route_allocation_id e with
                  | Some k => if bool_decide (k ∈ l) then freed e else e
                  | None => e
                  end) <$> route_pool s !! e).
Proof.
  revert s. induction l as [|k l IH]; intros s; cbn [foldl].
  { split_and!; try done.
    - intros k. rewrite (bool_decide_false (k ∈ [])) by set_solver. cbn.
      by destruct (remote_view_routes s !! k).
    - intros e. destruct (route_pool s !! e) as [x|]; [|done].
      cbn. by destruct (pe_current_route_allocation_id x). }
  destruct (IH (release_route bid d now s k)) as (Hrest & Hd & Hr & Hp). clear IH.
  destruct (release_route_spec d s k) as (Hrest1 & Hd1 & Hr1 & Hp1). split_and!.
  - destruct Hrest as (?&?&?&?), Hrest1 as (?&?&?&?). split_and!; congruence.
  - congruence.
  - intros k'. rewrite Hr, Hr1. destruct (remote_view_routes s !! k') as [r|]; [|done].
    cbn [fmap option_fmap option_map]. f_equal.
    destruct (decide (k' = k)) as [->|Hne].
    + rewrite (bool_decide_true (k = k)), (bool_decide_true (k ∈ k :: l)) by set_solver. cbn [andb].
      destruct (closes d r) eqn:Hc; [|by rewrite Hc, andb_false_r].
      change (closes d (closed_route now r)) with (closes d r). rewrite Hc.
      by destruct (bool_decide (k ∈ l)).
    + rewrite (bool_decide_false (k' = k)) by done. cbn [andb].
      by rewrite (bool_decide_ext (k' ∈ k :: l) (k' ∈ l)) by set_solver.
  - intros e. rewrite Hp, Hp1, lookup_fmap. destruct (route_pool s !! e) as [x|]; [|done].
    cbn [fmap option_fmap option_map]. f_equal.
    destruct (pe_current_route_allocation_id x) as [k'|] eqn:Hx.
    + destruct (decide (k' = k)) as [->|Hne].
      * rewrite (bool_decide_true (Some k = Some k)), (bool_decide_true (k ∈ k :: l)) by set_solver.
        done.
      * rewrite (bool_decide_false (Some k' = Some k)) by congruence. rewrite Hx.
        by rewrite (bool_decide_ext (k' ∈ k :: l) (k' ∈ l)) by set_solver.
    + by rewrite bool_decide_false, Hx by done.
Qed.
Let release_one := release_one_browser_display_allocation_after_close browser session_id state
  failure_class now.
Let owned (s : ServiceState) (d : string) : bool :=
  match display_allocations s !! d with Some a => ours a | None => false end.
Let released : bool := state == "released"%string.

(** One display, released if the browser and the session own it. *)
Lemma release_one_spec s d :
  let s' := release_one s d in
  same_rest s s'
  /\ (forall k, display_allocations s' !! k
        = (fun a => if bool_decide (k = d) then close_allocation a else a)
          <$> display_allocations s !! k)
  /\ (forall k, remote_view_routes s' !! k
        = (fun r => if released && owned s d && closes d r then closed_route now r else r)
          <$> remote_view_routes s !! k)
  /\ (forall e x, route_pool s !! e = Some x -> exists x', route_pool s' !! e = Some x'
        /\ (x' = x \/ released = true /\ x' = freed x)
        /\ forall k r, pe_current_route_allocation_id x = Some k ->
             remote_view_routes s !! k = Some r ->
             released && owned s d && closes d r = true -> x' = freed x).
Proof.
  assert (same_rest s s
    /\ (forall k, remote_view_routes s !! k = (fun r => r) <$> remote_view_routes s !! k)
    /\ forall k, display_allocations s !! k = (fun a => a) <$> display_allocations s !! k)
    as (Hrest0 & Hr0 & Hd0).
  { split_and!; [done| |]; intros k; symmetry; apply option_fmap_id. }
  subst release_one. unfold release_one_browser_display_allocation_after_close. cbv zeta.
  unfold owned. destruct (display_allocations s !! d) as [a|] eqn:Ha; cycle 1.
  { rewrite andb_false_r. split; [done|]. split; [|split; [done|]].
    - intros k. case_bool_decide as Hk; [|done]. subst k. by rewrite Ha.
    - intros e x Hx. exists x. split; [done|]. split; [by left|done]. }
  fold released. destruct (ours a) eqn:Ho; cycle 1.
  { assert ((da_owner_browser_id a != Some (bp_id browser))
      || (da_owner_session_id a != Some session_id) = true) as ->.
    { unfold ours in Ho. apply andb_false_iff in Ho as [-> | ->]; [done|by rewrite orb_true_r]. }
    rewrite andb_false_r. split; [done|]. split; [|split; [done|]].
    - intros k. case_bool_decide as Hk; [|done]. subst k. rewrite Ha. cbn. unfold close_allocation.
      by rewrite Ho.
    - intros e x Hx. exists x. split; [done|]. split; [by left|done]. }
  assert ((da_owner_browser_id a != Some (bp_id browser))
      || (da_owner_session_id a != Some session_id) = false) as ->.
  { unfold ours in Ho. apply andb_true_iff in Ho as [-> ->]. done. }
  set (s1 := with_displays _ s).
  assert (forall k, display_allocations s1 !! k
    = (fun a => if bool_decide (k = d) then close_allocation a else a)
      <$> display_allocations s !! k) as Hd1.
  { intros k. cbn. case_bool_decide as Hk.
    - subst k. rewrite lookup_insert_eq, Ha. cbn. unfold close_allocation. by rewrite Ho.
    - rewrite lookup_insert_ne by done. apply Hd0. }
  destruct released eqn:Hrel; cbn [andb]; cycle 1.
  { split; [done|]. split; [exact Hd1|]. split; [exact Hr0|].
    intros e x Hx. exists x. split; [done|]. split; [by left|done]. }
  set (l := ProfileLeases.btree_set _).
  destruct (release_routes d l s1) as (Hrest & Hd & Hr & Hp).
  change (foldl (release_route (bp_id browser) d now) s1 l)
    with (foldl (release_route bid d now) s1 l).
  assert (forall k r, remote_view_routes s !! k = Some r -> closes d r = true -> k ∈ l) as Hin.
  { intros k r Hk Hc. apply andb_true_iff in Hc as [Hc1 Hc2].
    apply bool_decide_eq_true in Hc1, Hc2. subst l. unfold ProfileLeases.btree_set.
    rewrite merge_sort_Permutation, elem_of_elements, elem_of_union. right.
    apply elem_of_dom. exists r. apply map_lookup_filter_Some. split; [done|]. by split; [|left]. }
  split; [exact Hrest|]. split; [by rewrite Hd|]. split.
  - intros k. rewrite Hr. cbn. destruct (remote_view_routes s !! k) as [r|] eqn:Hk; [|done]. cbn.
    f_equal. destruct (closes d r) eqn:Hc; [|by rewrite andb_false_r].
    by rewrite bool_decide_true by eauto.
  - intros e x Hx. eexists. split; [rewrite Hp; cbn; by rewrite Hx|].
    cbn [from_option]. destruct (pe_current_route_allocation_id x) as [k|]; [|split; [by left|done]].
    split; [case_bool_decide; [by right|by left]|].
    intros k' r [= <-] Hk Hc. by rewrite bool_decide_true by eauto.
Qed.

Let shown (s : ServiceState) (l : list string) (r : RemoteViewRoute) : bool :=
  released && existsb (fun d => owned s d && closes d r) l.

Lemma freed_twice x x' x'' :
  x' = x \/ released = true /\ x' = freed x -> x'' = x' \/ released = true /\ x'' = freed x' ->
  (x'' = x \/ released = true /\ x'' = freed x) /\ (x' = freed x -> x'' = freed x).
Proof. intros [->|[? ->]] [->|[? ->]]; naive_solver. Qed.

Lemma release_all l s :
  NoDup l ->
  let s' := foldl release_one s l in
  same_rest s s'
  /\ (forall k, display_allocations s' !! k
        = (fun a => if bool_decide (k ∈ l) then close_allocation a else a)
          <$> display_allocations s !! k)
  /\ (forall k, remote_view_routes s' !! k
        = (fun r => if shown s l r then closed_route now r else r) <$> remote_view_routes s !! k)
  /\ (forall e x, route_pool s !! e = Some x -> exists x', route_pool s' !! e = Some x'
        /\ (x' = x \/ released = true /\ x' = freed x)
        /\ forall k r, pe_current_route_allocation_id x = Some k ->
             remote_view_routes s !! k = Some r -> shown s l r = true -> x' = freed x).
Proof.
  revert s. induction l as [|d l IH]; intros s; cbn [foldl].
  { intros _. unfold shown. cbn [existsb]. rewrite andb_false_r.
    split; [done|]. split; [|split].
    - intros k. rewrite bool_decide_false by set_solver. symmetry. apply option_fmap_id.
    - intros k. symmetry. apply option_fmap_id.
    - intros e x Hx. exists x. split; [done|]. split; [by left|]. intros k r _ _.
      done. }
  intros [Hd Hl]%NoDup_cons.
  destruct (release_one_spec s d) as (Hrest1 & Hd1 & Hr1 & Hp1).
  set (s1 := release_one s d) in *. destruct (IH s1 Hl) as (Hrest & Hds & Hr & Hp). clear IH.
  assert (forall r r', closes d r = closes d r' /\ (forall d', closes d' r' = closes d' r) ->
    shown s (d :: l) r = (released && owned s d && closes d r) || shown s1 l r') as Hshown.
  { intros r r' [_ Hc]. unfold shown. cbn [existsb]. rewrite andb_orb_distrib_r, andb_assoc.
    do 2 f_equal. clear -Hd Hd1 Hc. induction l as [|d' l IH]; [done|]. cbn [existsb].
    rewrite IH, Hc by set_solver. do 2 f_equal. unfold owned. rewrite Hd1, bool_decide_false by set_solver.
    by destruct (display_allocations s !! d'). }
  split; [|split; [|split]].
  - destruct Hrest as (?&?&?&?), Hrest1 as (?&?&?&?). split_and!; congruence.
  - intros k. rewrite Hds, Hd1. destruct (display_allocations s !! k) as [a|]; [|done]. cbn. f_equal.
    destruct (decide (k = d)) as [->|Hne].
    + by rewrite (bool_decide_false (d ∈ l)), (bool_decide_true (d = d)), bool_decide_true by set_solver.
    + rewrite (bool_decide_false (k = d)) by done.
      by rewrite (bool_decide_ext (k ∈ d :: l) (k ∈ l)) by set_solver.
  - intros k. rewrite Hr, Hr1. destruct (remote_view_routes s !! k) as [r|]; [|done]. cbn. f_equal.
    rewrite (Hshown r (if released && owned s d && closes d r then closed_route now r else r))
      by by destruct (_ && closes d r).
    destruct (released && owned s d && closes d r); cbn [orb]; [|done].
    by destruct (shown s1 l (closed_route now r)).
  - intros e x Hx. destruct (Hp1 e x Hx) as (x1 & Hx1 & Ho1 & Hf1).
    destruct (Hp e x1 Hx1) as (x2 & Hx2 & Ho2 & Hf2).
    destruct (freed_twice x x1 x2 Ho1 Ho2) as [Ho Hf]. exists x2. split; [done|]. split; [done|].
    intros k r Hk Hrk Hs. specialize (Hf1 k r Hk Hrk).
    assert (remote_view_routes s1 !! k
      = Some (if released && owned s d && closes d r then closed_route now r else r)) as Hrk1
      by by rewrite Hr1, Hrk.
    rewrite (Hshown r (if released && owned s d && closes d r then closed_route now r else r)) in Hs
      by by destruct (_ && closes d r).
    destruct (released && owned s d && closes d r); cbn [orb] in Hs; [by apply Hf, Hf1|].
    destruct Ho1 as [->|[_ ->]]; [by eapply Hf2|by apply Hf].
Qed.

(** What a state whose displays have been closed is: the displays the browser and the
    session own are closed, and, when they are released, the routes that show the browser
    on them, with the pool entries checked out for those. *)
Record displays_closed (s s' : ServiceState) : Prop := {
  dc_displays : forall k, display_allocations s' !! k
    = close_allocation <$> display_allocations s !! k;
  dc_routes : forall k r, remote_view_routes s !! k = Some r -> exists r',
    remote_view_routes s' !! k = Some r'
    /\ (r' = r \/ released = true /\ r' = closed_route now r)
    /\ forall d a, released = true -> display_allocations s !! d = Some a -> ours a = true ->
         rt_display_allocation_id r = Some d -> rt_browser_id r = Some bid ->
         r' = closed_route now r;
  dc_pool : forall e x, route_pool s !! e = Some x -> exists x', route_pool s' !! e = Some x'
    /\ (x' = x \/ released = true /\ x' = freed x)
    /\ forall k r d a, released = true -> pe_current_route_allocation_id x = Some k ->
         remote_view_routes s !! k = Some r -> display_allocations s !! d = Some a ->
         ours a = true -> rt_display_allocation_id r = Some d -> rt_browser_id r = Some bid ->
         x' = freed x;
}.

Lemma release_closes l s :
  NoDup l -> (forall d a, display_allocations s !! d = Some a -> ours a = true -> d ∈ l) ->
  same_rest s (foldl release_one s l) /\ displays_closed s (foldl release_one s l).
Proof.
  intros Hl Hin. destruct (release_all l s Hl) as (Hrest & Hd & Hr & Hp). split; [done|].
  assert (forall r d a, released = true -> display_allocations s !! d = Some a -> ours a = true ->
    rt_display_allocation_id r = Some d -> rt_browser_id r = Some bid -> shown s l r = true)
    as Hshown.
  { intros r d a Hrel Ha Ho Hrd Hrb. unfold shown. rewrite Hrel. cbn [andb].
    apply existsb_exists. exists d. split; [apply list_elem_of_In; by eapply Hin|].
    unfold owned. rewrite Ha, Ho. cbn [andb]. unfold closes. rewrite Hrd, Hrb.
    by rewrite !bool_decide_true. }
  split.
  - intros k. rewrite Hd. destruct (display_allocations s !! k) as [a|] eqn:Ha; [|done]. cbn.
    f_equal. case_bool_decide as Hk; [done|]. unfold close_allocation.
    destruct (ours a) eqn:Ho; [|done]. destruct Hk. by eapply Hin.
  - intros k r Hk. eexists. split; [by rewrite Hr, Hk|]. split.
    + destruct (shown s l r) eqn:Hs; [right|by left]. split; [|done].
      by apply andb_true_iff in Hs as [? _].
    + intros d a Hrel Ha Ho Hrd Hrb. by rewrite (Hshown r d a).
  - intros e x Hx. destruct (Hp e x Hx) as (x' & Hx' & Ho & Hf). exists x'.
    split; [done|]. split; [done|]. intros k r d a Hrel Hk Hrk Ha Hoa Hrd Hrb.
    eapply Hf; [done..|]. by eapply Hshown.
Qed.

End release.

(** ** The close of a browser *)

Lemma release_custody browser session_id outcome w :
  exists now t s',
    release_browser_display_allocation_after_close browser session_id outcome w
      = (tt, {| w_state := s'; w_tick := t |})
    /\ same_rest (w_state w) s'
    /\ displays_closed browser session_id (release_state outcome).1 (release_state outcome).2 now
         (w_state w) s'.
Proof.
  unfold release_browser_display_allocation_after_close.
  destruct (release_state outcome) as [state failure_class]. cbn [fst snd].
  unfold mbind, hm_bind, current_timestamp, ask. cbn.
  eexists _, _, _. split; [reflexivity|]. apply release_closes.
  - unfold ProfileLeases.btree_set. rewrite merge_sort_Permutation. apply NoDup_elements.
  - intros d a Ha Ho. unfold ProfileLeases.btree_set.
    rewrite merge_sort_Permutation, elem_of_elements, elem_of_union. right.
    apply elem_of_dom. exists a. apply map_lookup_filter_Some. split; [done|]. left.
    apply andb_true_iff in Ho as [Ho _]. by apply bool_decide_eq_true in Ho.
Qed.

Lemma remove_record_spec id explicit s :
  let s' := (remove_browser_operational_record id explicit s).2 in
  browsers s' !! id = None
  /\ (forall k b, k <> id -> browsers s !! k = Some b ->
        exists b' l, browsers s' !! k = Some b' /\ unhandled b' = unhandled (set_active l b))
  /\ (forall k t, tabs s' !! k = Some t -> bt_browser_id t <> id)
  /\ (forall x y, sessions s' !! x = Some y -> exists y0 l, sessions s !! x = Some y0
        /\ y = set_owned (List.filter (fun k => k != id) (se_browser_ids y0)) l y0)
  /\ display_allocations s' = display_allocations s
  /\ remote_view_routes s' = remote_view_routes s /\ route_pool s' = route_pool s.
Proof.
  unfold remove_browser_operational_record. cbv zeta. cbn [snd].
  set (tab_ids := dom (filter _ (tabs s))). set (gone := filter _ (_ ∪ _)). clearbody gone.
  set (s1 := with_browsers _ _). destruct (derived_same_facts s1) as [Fd Fr Fp _ _ _ _ _ _ Fs _ _].
  rewrite Fd, Fr, Fp, Fs. split; [|split; [|split; [|split; [|by split_and!]]]].
  - apply (same_facts_no_browser s1 _ id (derived_same_facts s1)). cbn.
    by rewrite lookup_fmap, lookup_delete_eq.
  - intros k b Hk Hb.
    assert (browsers s1 !! k = Some (set_active (without gone (bp_active_session_ids b)) b)) as Hb1.
    { cbn. by rewrite lookup_fmap, lookup_delete_ne, Hb. }
    destruct (same_facts_browser s1 _ k _ (derived_same_facts s1) Hb1) as (b' & Hb' & Hu).
    by eexists b', _.
  - intros k t Ht He. pose proof (f_equal (lookup k) (sf_tabs _ _ (derived_same_facts s1))) as Ht1.
    rewrite !lookup_fmap, Ht in Ht1. destruct (tabs s1 !! k) as [t1|] eqn:Hk; [|done].
    apply (inj Some) in Ht1. apply (f_equal bt_browser_id) in Ht1. cbn in Ht1.
    cbn in Hk. apply map_lookup_filter_Some in Hk as [Hk Hn]. apply Hn. cbn.
    subst tab_ids. apply elem_of_dom. exists t1. apply map_lookup_filter_Some.
    split; [done|]. cbn. congruence.
  - intros x y. cbn. rewrite map_lookup_filter_Some, lookup_fmap. intros [Hy _].
    destruct (sessions s !! x) as [y0|]; [|done]. injection Hy as <-. by eexists _, _.
Qed.

(** What a session gives up when its browser closes: a browser that closed as asked is gone,
    with its tabs and from every session; one that had to be killed stays, marked degraded
    or faulted, without a process or an endpoint. The session's lease is released and no
    other one touched; other browsers stay; the displays it owned with its browser are
    closed. *)
Record gave_up (session_id : string) (outcome : option BrowserShutdownOutcome)
    (s s' : ServiceState) : Prop := {
  gu_browser : let id := service_browser_id_for_session session_id in
    match (close_health_from_outcome outcome).1 with
    | NotStarted =>
        browsers s' !! id = None
        /\ (forall k t, tabs s' !! k = Some t -> bt_browser_id t <> id)
        /\ forall x y, sessions s' !! x = Some y -> id ∉ se_browser_ids y
    | health => exists b, browsers s' !! id = Some b /\ bp_health b = health /\ pid b = None
                  /\ cdp_endpoint b = None
    end;
  gu_lease : forall x y, sessions s' !! x = Some y ->
    exists y0, sessions s !! x = Some y0 /\ se_profile_id y = se_profile_id y0
      /\ se_lease y = if bool_decide (x = session_id) then Released else se_lease y0;
  gu_others : forall k b, k <> service_browser_id_for_session session_id ->
    browsers s !! k = Some b ->
    exists b' l, browsers s' !! k = Some b' /\ unhandled b' = unhandled (set_active l b);
  gu_displays : exists browser now,
    bp_id browser = service_browser_id_for_session session_id
    /\ displays_closed browser session_id (release_state outcome).1 (release_state outcome).2
         now s s';
}.

Lemma displays_closed_same browser session_id state fc now s1 s2 s1' s2' :
  displays_closed browser session_id state fc now s1 s1' ->
  display_allocations s2 = display_allocations s1 ->
  remote_view_routes s2 = remote_view_routes s1 -> route_pool s2 = route_pool s1 ->
  display_allocations s2' = display_allocations s1' ->
  remote_view_routes s2' = remote_view_routes s1' -> route_pool s2' = route_pool s1' ->
  displays_closed browser session_id state fc now s2 s2'.
Proof.
  intros [Dd Dr Dp] Hd Hr Hp Hd' Hr' Hp'.
  split; rewrite ?Hd, ?Hr, ?Hp, ?Hd', ?Hr', ?Hp'; assumption.
Qed.

(** The lease goes before the record of the browser does. *)
Definition released_lease (session_id now : string) (s : ServiceState) : ServiceState :=
  match sessions s !! session_id with
  | Some session =>
      set_sessions (<[session_id := set_session Released (Some now) [] (se_browser_ids session)
                                      (se_tab_ids session) session]> (sessions s)) s
  | None => s
  end.
Lemma released_lease_spec session_id now s :
  let s' := released_lease session_id now s in
  (forall x y, sessions s' !! x = Some y -> exists y0, sessions s !! x = Some y0
     /\ se_profile_id y = se_profile_id y0
     /\ se_lease y = if bool_decide (x = session_id) then Released else se_lease y0)
  /\ browsers s' = browsers s /\ display_allocations s' = display_allocations s
  /\ remote_view_routes s' = remote_view_routes s /\ route_pool s' = route_pool s.
Proof.
  unfold released_lease. destruct (sessions s !! session_id) as [y0|] eqn:Hs; cbv zeta;
    (split; [|by split_and!]); intros x y; cbn.
  - destruct (decide (x = session_id)) as [->|Hne].
    + rewrite lookup_insert_eq, bool_decide_true by done. intros [= <-]. by exists y0.
    + rewrite lookup_insert_ne, bool_decide_false by done. intros Hy. by exists y.
  - intros Hy. exists y. split_and!; [done..|]. case_bool_decide; [|done]. by simplify_eq.
Qed.

Lemma last_step browser session_id outcome now now' s s2 :
  let id := service_browser_id_for_session session_id in
  bp_id browser = id -> bp_health browser = (close_health_from_outcome outcome).1 ->
  pid browser = None -> cdp_endpoint browser = None ->
  browsers s2 = browsers s -> sessions s2 = sessions s ->
  displays_closed browser session_id (release_state outcome).1 (release_state outcome).2 now s s2 ->
  gave_up session_id outcome s
    (let s3 := released_lease session_id now' s2 in
     match bp_health browser with
     | NotStarted => (remove_browser_operational_record id (Some session_id) s3).2
     | _ => set_browser id browser s3
     end).
Proof.
  intros id Hid Hh Hpid Hcdp Hb Hso Hdc. cbv zeta.
  destruct (released_lease_spec session_id now' s2) as (Hl & Hb3 & Hd3 & Hr3 & Hp3).
  rewrite Hso in Hl. rewrite Hb in Hb3. set (s3 := released_lease session_id now' s2) in *.
  assert (bp_health browser <> NotStarted ->
    gave_up session_id outcome s (set_browser id browser s3)) as Hkept.
  { intros Hn. split.
    - cbv zeta. fold id. rewrite <-Hh.
      assert (exists b, browsers (set_browser id browser s3) !! id = Some b
        /\ bp_health b = bp_health browser /\ pid b = None /\ cdp_endpoint b = None) as Hx
        by (exists browser; cbn; by rewrite lookup_insert_eq).
      by destruct (bp_health browser).
    - exact Hl.
    - fold id. intros k b Hk Hkb. exists b, (bp_active_session_ids b). cbn.
      rewrite lookup_insert_ne, Hb3 by done. split; [done|]. by destruct b.
    - exists browser, now. split; [done|]. by eapply displays_closed_same. }
  destruct (bp_health browser) eqn:Hbh; try (by apply Hkept).
  destruct (remove_record_spec id (Some session_id) s3) as (Hg & Hob & Ht & Hs & Hd & Hr & Hp).
  split.
  - cbv zeta. fold id. rewrite <-Hh. split_and!; [done..|]. intros x y Hy.
    destruct (Hs x y Hy) as (y0 & l & _ & ->). cbn. intros Hin%list_elem_of_In%filter_In.
    destruct Hin as [_ Hin]. by rewrite bool_decide_true in Hin.
  - intros x y Hy. destruct (Hs x y Hy) as (y0 & l & Hy0 & ->).
    destruct (Hl x y0 Hy0) as (y1 & Hy1 & Hpf & Hle). by exists y1.
  - fold id. intros k b Hk Hkb. apply Hob; [done|]. by rewrite Hb3.
  - exists browser, now. split; [done|]. eapply displays_closed_same; [exact Hdc|..]; congruence.
Qed.

Lemma persist_closed_spec session_id outcome expected w :
  match expected with
  | Some e => custody_changed (w_state w) e session_id
  | None => false
  end = false ->
  exists w', persist_closed_browser_health session_id outcome expected w = (Ok tt, w')
    /\ gave_up session_id outcome (w_state w) (w_state w').
Proof.
  intros Hc. unfold persist_closed_browser_health, mbind, hm_bind. cbv zeta. cbn [get_state].
  rewrite Hc. set (id := service_browser_id_for_session session_id).
  set (previous := browsers (w_state w) !! id). set (details := shutdown_details <$> outcome).
  destruct (observed_spec (closed_browser id session_id previous outcome) details w)
    as (o & t & ->).
  set (b := set_health _ _ o _).
  assert (bp_id b = id /\ bp_health b = (close_health_from_outcome outcome).1 /\ pid b = None
    /\ cdp_endpoint b = None) as (Hid & Hh & Hpid & Hcdp).
  { subst b. unfold closed_browser. by destruct (close_health_from_outcome outcome). }
  clearbody b.
  destruct (changed_event_spec id previous b details {| w_state := w_state w; w_tick := t |})
    as (t1 & s1 & -> & Hs1). cbn [w_state] in Hs1.
  destruct (release_custody b session_id outcome {| w_state := s1; w_tick := t1 |})
    as (now & t2 & s2 & -> & Hrest & Hdc). cbn [w_state] in Hrest, Hdc. cbn [get_state w_state].
  assert (browsers s2 = browsers (w_state w) /\ sessions s2 = sessions (w_state w)
    /\ displays_closed b session_id (release_state outcome).1 (release_state outcome).2 now
         (w_state w) s2) as (Hb & Hse & Hd).
  { destruct Hrest as (Hb & _ & _ & Ho). rewrite Ho, Hb.
    destruct Hs1 as [->|(e & -> & _)]; [done|]. split_and!; [done..|].
    by eapply displays_closed_same. }
  pose proof (fun now' => last_step b session_id outcome now now' (w_state w) s2 Hid Hh Hpid Hcdp
    Hb Hse Hd) as Hlast. cbv zeta in Hlast. unfold released_lease in Hlast. fold id in Hlast.
  destruct (sessions s2 !! session_id) as [x|] eqn:Hx; cbn; eexists; (split; [reflexivity|]);
    [apply Hlast|apply (Hlast ""%string)].
Qed.

(** C12. The close of a browser either fails, because the repository does or because the
    custody its caller expects has changed, and leaves the state as it was; or it gives up
    what the session had of the browser. *)
Theorem close_gives_up_custody fault session_id outcome expected w r w' :
  persist_closed_browser_health_if_unchanged fault session_id outcome expected w = (r, w') ->
  (r = Ok tt <-> fault = None /\ forall e, expected = Some e ->
     custody_changed (w_state w) e session_id = false) /\
  (r <> Ok tt -> w_state w' = w_state w) /\
  (r = Ok tt -> gave_up session_id outcome (w_state w) (w_state w')).
Proof.
  unfold persist_closed_browser_health_if_unchanged, mutate. destruct fault as [err|].
  { intros [= <- <-]. split; [|by split]. split; [done|by intros [? _]]. }
  destruct (match expected with
            | Some e => custody_changed (w_state w) e session_id
            | None => false
            end) eqn:Hc.
  - unfold persist_closed_browser_health, mbind, hm_bind. cbv zeta. cbn [get_state]. rewrite Hc.
    intros [= <- <-]. split; [|by split]. split; [done|]. intros [_ He].
    destruct expected as [e|]; [|done]. by rewrite (He e eq_refl) in Hc.
  - destruct (persist_closed_spec session_id outcome expected w Hc) as (w1 & -> & Hg).
    intros [= <- <-]. split; [|by split]. split; [|done]. intros _. split; [done|].
    by intros e ->.
Qed.

End health.

(** ** The record of a launched browser *)

Section launch.
Context `{!Json, !JsonBuild, !JsonTree, !JsonEntries, !UrlLib, !Chrono, !HealthEnv}.
Context `{!ProcessProof.Machine, !Crypto, !Serde ProcessProof.RuntimeState, !SerdeValue BrowserBuild}.

(** The machine was seen to run, as process [n], the external browser of a record. *)
Definition seen_running (s : ServiceState) (p : BrowserProcess) (n : Z) : Prop :=
  exists profile_id profile t t', bp_profile_id p = Some profile_id
    /\ profiles s !! profile_id = Some profile
    /\ verified_external_byop_pid p profile t = (Ok n, t').
(** The record [p] is of the browser a launch reports. *)
Definition same_browser (s : ServiceState) (p b : BrowserProcess) (profile_id : option string)
    : Prop :=
  cdp_endpoint p = cdp_endpoint b
  /\ (pid p = pid b \/ pid p = None /\ exists n, pid b = Some n /\ seen_running s p n)
  /\ (bp_profile_id p = profile_id
      \/ bp_host p = AttachedExisting /\ bp_host b = AttachedExisting
         /\ is_Some (verified_attached_proof_profile_id p)).
(** Where the build, the executable and the proof of [b] come from. *)
Definition evidence_owed (s : ServiceState) (previous : option BrowserProcess)
    (profile_id : option string) (launch : option value) (b : BrowserProcess) : Prop :=
  (exists proof, launch = Some proof /\ ProcessProof.jbool_is proof "applied" = true
     /\ evidence_of b = (jget proof "browserBuild" ≫= ProcessProof.parse_build,
                         jstr proof "executablePath", Some proof))
  \/ (exists p, previous = Some p /\ evidence_of b = evidence_of p
        /\ same_browser s p b (or_else profile_id (bp_profile_id p))
        /\ forall proof, launch = Some proof -> jget proof "verificationReason" = None
           /\ ProcessProof.jbool_is proof "applied" = false
           /\ exists old, (evidence_of p).2 = Some old
              /\ ProcessProof.jbool_is old "applied" = true)
  \/ evidence_of b = (None, None, launch).

Definition display_owed (session_id : string) (previous : option BrowserProcess)
    (s : ServiceState) (b : BrowserProcess) : Prop :=
  match bp_host b, bx_display_isolation (bp_other b) with
  | RemoteHeaded, Some isolation =>
      exists d a, bp_display_allocation_id b = Some d /\ display_allocations s !! d = Some a
        /\ da_owner_browser_id a = Some (bp_id b) /\ da_owner_session_id a = Some session_id
        /\ da_profile_id a = bp_profile_id b /\ da_display_isolation a = isolation
  | RemoteHeaded, None => bp_display_allocation_id b = previous ≫= bp_display_allocation_id
  | _, _ => bp_display_allocation_id b = None
  end.

(** The verified profile of [b] is the one everything of the session names. *)
Definition profile_agreed (session_id : string) (s : ServiceState) (b : BrowserProcess) : Prop :=
  forall P, verified_attached_proof_profile_id b = Some P ->
  bp_profile_id b = Some P
  /\ (forall x, sessions s !! session_id = Some x -> se_profile_id x = Some P)
  /\ (forall k t h, tabs s !! k = Some t -> bt_browser_id t = bp_id b ->
       bt_owner_session_id t = Some session_id -> bt_service_tab_handle t = Some h ->
       th_profile_id h = Some P)
  /\ (forall h, h ∈ bx_tab_handles (bp_other b) -> th_owner_session_id h = Some session_id ->
       th_profile_id h = Some P).

Lemma retained_pid_spec s previous host health n w :
  exists v t, verified_retained_pid s previous host health n w
    = (v, {| w_state := w_state w; w_tick := t |})
  /\ (forall m, v = Some m -> n = None /\ exists p, previous = Some p /\ seen_running s p m).
Proof.
  destruct w as [x t]. unfold verified_retained_pid.
  destruct n, health, host; try (by eexists _, _; split).
  destruct (previous ≫= _) as [[p profile]|] eqn:Hp; [|by eexists _, _; split].
  apply bind_Some in Hp as (p' & Hprev & (profile_id & Hid & Hp)%bind_Some).
  apply bind_Some in Hp as (profile' & Hprofile & [= -> ->]).
  unfold mbind, hm_bind, on_machine. cbn [w_tick w_state].
  destruct (verified_external_byop_pid p profile t) as [[m|e] t'] eqn:Hrun;
    eexists _, _; (split; [reflexivity|]); intros m'; [|done].
  intros [= <-]. split; [done|]. exists p. split; [done|]. by exists profile_id, profile, t, t'.
Qed.

Lemma same_identity_spec s previous host n v endpoint profile_id b :
  same_browser_identity previous host (or_else n v) v endpoint profile_id = true ->
  (forall m, v = Some m -> n = None /\ exists p, previous = Some p /\ seen_running s p m) ->
  bp_host b = host -> pid b = or_else n v -> cdp_endpoint b = endpoint ->
  exists p, previous = Some p /\ same_browser s p b profile_id.
Proof.
  unfold same_browser_identity. destruct previous as [p|]; [|done].
  intros Hs Hv Hh Hn He. exists p. split; [done|]. unfold same_browser.
  apply andb_true_iff in Hs as [[Hs He']%andb_true_iff Hp]. apply bool_decide_eq_true in He'.
  split; [congruence|]. split.
  - apply orb_true_iff in Hs as [Hs%bool_decide_eq_true|Hs]; [left; congruence|].
    apply andb_true_iff in Hs as [[Ha%bool_decide_eq_true Hb%bool_decide_eq_true]%andb_true_iff Hc].
    right. split; [done|]. destruct v as [m|]; [|by rewrite <- Hb in Hc].
    exists m. split; [congruence|]. destruct (Hv m eq_refl) as (_ & p' & [= <-] & Hrun). done.
  - apply orb_true_iff in Hp as [Hp%bool_decide_eq_true|Hp]; [by left|right].
    apply andb_true_iff in Hp as [[Ha%bool_decide_eq_true Hb%bool_decide_eq_true]%andb_true_iff Hc].
    split_and!; [done|congruence|]. by destruct (verified_attached_proof_profile_id p).
Qed.

Lemma evidence_spec s previous host n v endpoint profile_id launch b :
  let projected := or_else profile_id (previous ≫= bp_profile_id) in
  (forall m, v = Some m -> n = None /\ exists p, previous = Some p /\ seen_running s p m) ->
  bp_host b = host -> pid b = or_else n v -> cdp_endpoint b = endpoint ->
  evidence_of b = launched_evidence previous
    (same_browser_identity previous host (or_else n v) v endpoint projected) launch ->
  evidence_owed s previous profile_id launch b.
Proof.
  intros projected Hv Hh Hn He Hb. unfold evidence_owed.
  destruct (same_browser_identity _ _ _ _ _ _) eqn:Hsame.
  - destruct (same_identity_spec s _ _ _ _ _ _ b Hsame Hv Hh Hn He) as (p & -> & Hp).
    unfold launched_evidence in Hb. destruct launch as [proof|]; cbn in Hb.
    + destruct (ProcessProof.jbool_is proof "applied") eqn:Ha; [left; by exists proof|].
      destruct (bool_decide_reflect (jget proof "verificationReason" = None)) as [Hr|Hr];
        [|by right; right].
      destruct (bx_browser_build_proof (bp_other p)) as [old|] eqn:Ho; [|by right; right].
      destruct (ProcessProof.jbool_is old "applied") eqn:Hold; [|by right; right].
      right; left. exists p. split_and!; [done..|]. intros ? [= <-]. split_and!; [done..|].
      by exists old.
    + right; left. exists p. by split_and!.
  - unfold launched_evidence in Hb. destruct launch as [proof|]; cbn in Hb; [|by right; right].
    destruct (ProcessProof.jbool_is proof "applied") eqn:Ha; [left; by exists proof|].
    by right; right.
Qed.

(** What the events and the profile of a launch leave alone. *)
Definition same_places (s s' : ServiceState) : Prop :=
  browsers s' = browsers s /\ display_allocations s' = display_allocations s /\ tabs s' = tabs s.
#[local] Instance same_places_refl : Reflexive same_places.
Proof. by intros s. Qed.
#[local] Instance same_places_trans : Transitive same_places.
Proof. intros a b c (?&?&?) (?&?&?). split_and!; congruence. Qed.

Lemma launch_profile_frame session_id profile_id m s :
  hm_from same_places s (record_launch_profile session_id profile_id m).
Proof. unfold record_launch_profile. hm_frame; done. Qed.
Lemma launch_events_frame id previous browser metadata s :
  hm_from same_places s (record_browser_health_changed_event id previous browser)
  /\ hm_from same_places s (record_browser_launch_recorded_event id previous browser metadata).
Proof.
  unfold record_browser_health_changed_event, record_browser_health_changed_event_with_details,
    record_browser_launch_recorded_event, new_service_event.
  split; hm_frame; done.
Qed.

Lemma upsert_display_spec session_id b w :
  exists d streams s' t, upsert_browser_display_allocation session_id b w
    = (set_custody d streams (bp_active_session_ids b) b, {| w_state := s'; w_tick := t |})
  /\ browsers s' = browsers (w_state w) /\ tabs s' = tabs (w_state w)
  /\ forall b', bp_host b' = bp_host b -> bp_id b' = bp_id b ->
     bp_profile_id b' = bp_profile_id b -> bp_display_allocation_id b' = d ->
     bx_display_isolation (bp_other b') = bx_display_isolation (bp_other b) ->
     forall previous s'', display_allocations s'' = display_allocations s' ->
     previous ≫= bp_display_allocation_id = bp_display_allocation_id b ->
     display_owed session_id previous s'' b'.
Proof.
  destruct w as [s t]. unfold upsert_browser_display_allocation, display_owed.
  destruct (bp_host b) eqn:Hhost; try (eexists _, _, _, _; split; [reflexivity|];
    split; [done|split; [done|]]; by intros b' ->).
  destruct (bx_display_isolation (bp_other b)) as [isolation|] eqn:Hiso.
  - eexists _, _, _, _. split; [reflexivity|]. split; [done|split; [done|]].
    intros b' -> Hid Hprofile Hd -> previous s'' Hs _. eexists _, _. split; [exact Hd|].
    rewrite Hs. cbn. rewrite lookup_insert_eq. split; [done|]. cbn.
    by rewrite Hid, Hprofile.
  - exists (bp_display_allocation_id b), (bp_view_streams b), s, t. split; [by destruct b|].
    split; [done|split; [done|]]. intros b' -> _ _ Hd -> previous s'' _ Hp. congruence.
Qed.

Lemma align_spec session_id b w :
  exists handles s' t, align_verified_profile session_id b w
    = (set_handles handles b, {| w_state := s'; w_tick := t |})
  /\ browsers s' = browsers (w_state w)
  /\ display_allocations s' = display_allocations (w_state w)
  /\ (bp_profile_id b = or_else (effective_profile_id b) (bp_profile_id b) ->
      profile_agreed session_id s' (set_handles handles b)).
Proof.
  destruct w as [s t]. unfold align_verified_profile, effective_profile_id, profile_agreed.
  assert (forall h, verified_attached_proof_profile_id (set_handles h b)
                    = verified_attached_proof_profile_id b) as Hsame by done.
  destruct (verified_attached_proof_profile_id b) as [P|] eqn:HP.
  - eexists _, _, _. split; [reflexivity|]. split; [done|split; [done|]]. intros Heff P'.
    rewrite Hsame. intros [= <-]. split; [done|]. split_and!.
    + intros x. cbn. rewrite lookup_alter_eq. destruct (sessions s !! session_id); [|done].
      by intros [= <-].
    + intros k x h. cbn. rewrite lookup_fmap. destruct (tabs s !! k) as [x0|]; [|done].
      intros [= <-]. unfold align_tab.
      destruct (bool_decide_reflect (bt_browser_id x0 = bp_id b)) as [Hb|Hb];
        destruct (bool_decide_reflect (bt_owner_session_id x0 = Some session_id)) as [Ho|Ho];
        cbn; try done.
      intros _ _. destruct (bt_service_tab_handle x0); [|done]. by intros [= <-].
    + intros h. cbn. intros (h0 & -> & _)%list_elem_of_fmap. unfold align_handle.
      by destruct (bool_decide_reflect (th_owner_session_id h0 = Some session_id)).
  - exists (bx_tab_handles (bp_other b)), s, t. split; [by destruct b as [????????? []]|].
    split; [done|split; [done|]]. intros _ P'. by rewrite Hsame.
Qed.

Lemma launch_noted session_id id profile_id metadata previous b w :
  exists w', (metadata_changed ← match metadata with
                | Some m => record_launch_profile session_id profile_id m
                | None => mret false
                end;
              _ ← record_browser_health_changed_event id previous b;
              _ ← (if metadata_changed : bool
                   then record_browser_launch_recorded_event id previous b metadata else mret tt);
              align_verified_profile session_id b) w = align_verified_profile session_id b w'
  /\ same_places (w_state w) (w_state w').
Proof.
  set (first := match metadata with Some m => _ | None => _ end).
  assert (hm_from same_places (w_state w) first) as Hfirst
    by (subst first; destruct metadata; [apply launch_profile_frame|by apply hm_from_ret]).
  clearbody first. unfold mbind at 1, hm_bind at 1. pose proof (Hfirst w eq_refl) as Hw1.
  destruct (first w) as [changed w1]. cbn [snd] in Hw1. unfold mbind at 1, hm_bind at 1.
  pose proof (proj1 (launch_events_frame id previous b metadata (w_state w1)) w1 eq_refl) as Hw2.
  destruct (record_browser_health_changed_event _ _ _ w1) as [[] w2]. cbn [snd] in Hw2.
  unfold mbind at 1, hm_bind at 1. destruct changed.
  - pose proof (proj2 (launch_events_frame id previous b metadata (w_state w2)) w2 eq_refl) as Hw3.
    destruct (record_browser_launch_recorded_event _ _ _ _ w2) as [[] w3]. cbn [snd] in Hw3.
    exists w3. split; [done|]. by do 2 (etrans; [eassumption|]).
  - exists w2. split; [done|]. by etrans.
Qed.

(** What the state says of the browser of a launch. *)
Definition launch_owed (session_id : string) (host : BrowserHost) (health : BrowserHealth)
    (n : option Z) (endpoint error : option string) (metadata : option LaunchMetadata)
    (s s' : ServiceState) (b : BrowserProcess) : Prop :=
  let previous := browsers s !! service_browser_id_for_session session_id in
  let launch := la_metadata <$> metadata in
  (bp_id b = service_browser_id_for_session session_id /\ bp_host b = host /\ bp_health b = health
   /\ cdp_endpoint b = endpoint /\ last_error b = error /\ bp_active_session_ids b = [session_id]
   /\ forall m, n = Some m -> pid b = Some m)
  /\ evidence_owed s previous (launch ≫= lm_profile_id) (launch ≫= lm_browser_capability_launch) b
  /\ display_owed session_id previous s' b
  /\ profile_agreed session_id s' b.

(** The record before its display. *)
Lemma launched_browser_spec session_id host health n endpoint error metadata previous projected found :
  let b := launched_browser session_id host health n endpoint error metadata previous projected
             found in
  let b1 := set_profile_id (or_else (effective_profile_id b) projected) b in
  bp_profile_id b1 = or_else (effective_profile_id b1) (bp_profile_id b1)
  /\ bp_id b1 = service_browser_id_for_session session_id /\ bp_host b1 = host
  /\ bp_health b1 = health /\ cdp_endpoint b1 = endpoint /\ last_error b1 = error
  /\ bp_active_session_ids b1 = [session_id] /\ pid b1 = n /\ evidence_of b1 = found
  /\ previous ≫= bp_display_allocation_id = bp_display_allocation_id b1.
Proof.
  intros b b1. split.
  - subst b1. unfold effective_profile_id at 2.
    change (verified_attached_proof_profile_id (set_profile_id _ b))
      with (verified_attached_proof_profile_id b). cbn. unfold effective_profile_id.
    by destruct (verified_attached_proof_profile_id b), projected.
  - split_and!; try done. by destruct found as [[??]?].
Qed.

Lemma recorded_spec session_id host health n endpoint error metadata w :
  exists b w', recorded_browser session_id host health n endpoint error metadata w = (b, w')
  /\ browsers (w_state w') = browsers (w_state w)
  /\ launch_owed session_id host health n endpoint error metadata (w_state w) (w_state w') b.
Proof.
  unfold recorded_browser, launch_owed. unfold mbind at 1, hm_bind at 1. cbn [get_state].
  set (previous := browsers (w_state w) !! _). unfold mbind at 1, hm_bind at 1.
  destruct (retained_pid_spec (w_state w) previous host health n w) as (v & t & -> & Hv).
  cbv zeta. set (launch := metadata ≫= fun m => lm_browser_capability_launch (la_metadata m)).
  replace ((la_metadata <$> metadata) ≫= lm_browser_capability_launch) with launch
    by (by destruct metadata).
  replace ((la_metadata <$> metadata) ≫= lm_profile_id)
    with (metadata ≫= fun m => lm_profile_id (la_metadata m)) by (by destruct metadata).
  set (asked := metadata ≫= fun m => lm_profile_id (la_metadata m)).
  set (found := launched_evidence _ _ _).
  assert (forall b', bp_host b' = host -> pid b' = or_else n v -> cdp_endpoint b' = endpoint ->
    evidence_of b' = found -> evidence_owed (w_state w) previous asked launch b') as Hev.
  { intros b' Hh Hp He Hf. by eapply evidence_spec. }
  destruct (launched_browser_spec session_id host health (or_else n v) endpoint error metadata
    previous (or_else asked (previous ≫= bp_profile_id)) found)
    as (Heff & Hid & Hh & Hhe & He & Her & Ha & Hp & Hf & Hd).
  set (b0 := launched_browser _ _ _ _ _ _ _ _ _ found) in *.
  set (b1 := set_profile_id _ b0) in *. set (profile_id := or_else (effective_profile_id b0) _).
  clearbody b1 profile_id. clear b0.
  unfold mbind at 1, hm_bind at 1.
  destruct (upsert_display_spec session_id b1 {| w_state := w_state w; w_tick := t |})
    as (d & streams & s1 & t1 & -> & Hb1 & _ & Hd1). cbn [w_state] in Hb1.
  unfold mbind at 1, hm_bind at 1.
  destruct (observed_spec (set_custody d streams (bp_active_session_ids b1) b1) None
    {| w_state := s1; w_tick := t1 |}) as (o & t2 & ->). cbn [w_state].
  set (b2 := set_health _ _ o _).
  assert (bp_profile_id b2 = or_else (effective_profile_id b2) (bp_profile_id b2)) as Heff2 by done.
  destruct (launch_noted session_id (service_browser_id_for_session session_id) profile_id metadata
    previous b2 {| w_state := s1; w_tick := t2 |}) as (w2 & -> & Hb2 & Hd2 & _).
  destruct (align_spec session_id b2 w2) as (handles & s3 & t3 & -> & Hb3 & Hd3 & Hagreed).
  eexists _, _. split; [reflexivity|]. cbn [w_state]. split; [cbn in *; congruence|].
  split; [|split; [|split]].
  - split_and!; try done. intros m ->. cbn. by rewrite Hp.
  - by apply Hev.
  - apply Hd1; try done. cbn in *; congruence.
  - by apply Hagreed.
Qed.

Lemma refreshed_owed session_id host health n endpoint error metadata s s' b :
  launch_owed session_id host health n endpoint error metadata s s' b ->
  launch_owed session_id host health n endpoint error metadata s
    (RemoteAttach.refresh_remote_view_attachability
       (set_browser (service_browser_id_for_session session_id) b s'))
    (RemoteAttach.refresh_browser
       (set_browser (service_browser_id_for_session session_id) b s') b).
Proof.
  unfold RemoteAttach.refresh_browser. by destruct (RemoteAttach.refresh_streams _ _ _ _).
Qed.

(** A browser without the reports of what may be attached to. *)
Definition unreported_stream (s : ViewStream) : ViewStream :=
  if vs_provider s == RdpGateway then RemoteAttach.set_attachability jnull s else s.
Definition unreported (b : BrowserProcess) : BrowserProcess :=
  {| bp_id := bp_id b; bp_profile_id := bp_profile_id b; bp_host := bp_host b;
     bp_health := bp_health b; bp_display_name := bp_display_name b;
     bp_display_allocation_id := bp_display_allocation_id b;
     bp_view_streams := map unreported_stream (bp_view_streams b); bp_attachability := None;
     bp_active_session_ids := bp_active_session_ids b; bp_other := bp_other b |}.

Lemma refresh_unreported (s : ServiceState) b :
  unreported (RemoteAttach.refresh_browser s b) = unreported b.
Proof.
  unfold RemoteAttach.refresh_browser.
  destruct (RemoteAttach.refresh_streams _ _ _ _) as [best streams] eqn:Hrun.
  apply RemoteAttach.refresh_streams_spec in Hrun as (Hl & _). unfold unreported. cbn. f_equal.
  induction Hl as [|x x' l l' Hx _ IH]; [done|]. cbn [map]. rewrite IH. f_equal. rewrite Hx.
  unfold unreported_stream. destruct (vs_provider x == RdpGateway) eqn:Hp; [|by rewrite Hp].
  change (vs_provider (RemoteAttach.set_attachability (RemoteAttach.derived b s x) x))
    with (vs_provider x). by rewrite Hp.
Qed.

(** C14. A launch that is recorded leaves the browser of its session as it was reported. The
    build, the executable and the proof of the browser are those of the proof the launch
    applied; or those recorded before, when the record is of the same browser, by its
    endpoint, its process (or the external process the machine was seen to run) and its
    profile (or a verified proof), and the launch did not contradict them; or there is no
    build and no executable. Only a remote-headed browser has a display allocation: with a
    display isolation, one that is there and names the browser, its session and its
    profile; without, the id its previous record had, whatever it is. When the proof is
    verified, browser, session, tabs and handles all name its profile. Of other browsers
    nothing changes but what is reported of their attachability. A launch that cannot be
    recorded leaves the state as it was. *)
Theorem launch_recorded fault session_id host health n endpoint error metadata w r w' :
  persist_service_browser_record_in_repository fault session_id host health n endpoint error
    metadata w = (r, w') ->
  (r = Ok tt <-> fault = None) /\
  (r <> Ok tt -> w_state w' = w_state w) /\
  (r = Ok tt ->
     (exists b, browsers (w_state w') !! service_browser_id_for_session session_id = Some b
        /\ launch_owed session_id host health n endpoint error metadata (w_state w) (w_state w') b)
     /\ forall id, id <> service_browser_id_for_session session_id ->
        unreported <$> browsers (w_state w') !! id = unreported <$> browsers (w_state w) !! id).
Proof.
  unfold persist_service_browser_record_in_repository, persist_service_browser_record_with_refresh,
    mutate.
  destruct fault as [err|]; [by intros [= <- <-]|]. unfold mbind, hm_bind.
  destruct (recorded_spec session_id host health n endpoint error metadata w)
    as (b & w1 & -> & Hb & Howed).
  cbn [modify]. intros [= <- <-]. split; [done|split; [done|intros _]]. cbn [w_state id]. split.
  - eexists. split; [|by apply refreshed_owed]. cbn. by rewrite lookup_fmap, lookup_insert_eq.
  - intros id Hne. cbn. rewrite lookup_fmap, lookup_insert_ne, Hb by done.
    destruct (browsers (w_state w) !! id) as [b'|]; [|done]. cbn. by rewrite refresh_unreported.
Qed.

End launch.

End HealthTheorems.
