(* ===== verification/RuntimeHandoff.v ===== *)
(** * Handoffs of retained browsers

    [cli/src/native/runtime_handoff_v2.rs] admits a prepared handoff descriptor only
    after the former daemon is gone and its receipt, the browser process, the profile,
    the endpoint, the lease and the target still agree; and
    [cli/src/native/dependent_batch.rs] classifies the commands of a batch that depends
    on one target. The text an error carries after its code is left out. *)

From Stdlib Require Import Ascii.
From stdpp Require Import gmap pretty.
From S2P Require Import Prelude RustStr Env ServiceTabs ProcessProof.
Import ProcessProof.

Module RuntimeHandoff.

(** ** Dependent batches *)

Inductive TargetEffect := Stable | Rebind.

Definition target_effect (action : string) : TargetEffect :=
  if one_of action ["navigate"; "back"; "forward"; "reload"; "tab_new"; "tab_close"; "tab_switch";
                    "close"; "launch"; "cdp_attach"; "cdp_detach"; "external_byop_adopt";
                    "state_load"]%string
  then Rebind else Stable.

Definition nested_batch_allowed (action : string) : bool :=
  negb (one_of action ["dependent_batch"; "batch"; "close"; "launch"; "cdp_attach"; "cdp_detach";
                       "external_byop_adopt"]%string).

Section handoff.
Context `{!Machine, !UrlLib, !Json, !JsonTree, !JsonBuild, !SerdeValue BrowserBuild}.

Definition err (code : string) : string := fmt ["runtime_handoff_"; code]%string.

(** [value[key]]: null when there is none. *)
Definition index (v : value) (key : string) : value :=
  match jget v key with Some u => u | None => jnull end.

Definition value_u32 (v : value) (key : string) : res Z :=
  ok_or (err (fmt ["v2_"; key; "_missing"]%string))
    (number ← jget v key ≫= as_u64; if (number <=? u32_max)%Z then Some number else None).

(** ** Processes *)

Definition proc_path (pid : Z) (name : string) : string :=
  fmt ["/proc/"; pretty pid; "/"; name]%string.

Definition parse_ticks (stat : string) : option Z :=
  '(_, tail) ← rsplit_once ")" stat;
  split_whitespace tail !! 19%nat ≫= parse_unsigned u64_max.

Definition start_ticks (pid : Z) : SM nat Z :=
  stat ← demand (err "v2_process_unreadable")
           (fun t => ok_text (m_read_to_string t (proc_path pid "stat")));
  sm_lift (ok_or (err "v2_process_start_unreadable") (parse_ticks stat)).

Definition boot_id_path : string := "/proc/sys/kernel/random/boot_id".
Definition read_boot_id : SM nat string :=
  demand (err "v2_boot_id_unreadable") (fun t => ok_text (m_read_to_string t boot_id_path)).

(** The effective user of [/proc/PID/status]. *)
Definition parse_uid (status : string) : option Z :=
  value ← head (omap (strip_prefix "Uid:") (lines status));
  split_whitespace value !! 1%nat ≫= parse_unsigned u32_max.

Definition current_process_identity (pid : Z) : SM nat value :=
  executable ← demand (err "v2_executable_unreadable") (fun t => m_identity t (proc_path pid "exe"));
  status ← demand (err "v2_status_unreadable")
             (fun t => ok_text (m_read_to_string t (proc_path pid "status")));
  uid ← sm_lift (ok_or (err "v2_uid_missing") (parse_uid status));
  boot_id ← read_boot_id;
  ticks ← start_ticks pid;
  mret (jobject [("pid", jnumber pid); ("bootId", jstring (trim boot_id));
                 ("startTicks", jnumber ticks);
                 ("executableDevice", jnumber executable.1);
                 ("executableInode", jnumber executable.2); ("uid", jnumber uid)]%string).

Definition require_process_gone (identity : value) : SM nat unit :=
  pid ← sm_lift (value_u32 identity "pid");
  expected_boot ← sm_lift (ok_or (err "v2_boot_id_missing") (jstr identity "bootId"));
  current_boot ← read_boot_id;
  if (trim current_boot != expected_boot : bool) then mret tt else
  found ← look (fun t => m_metadata t (fmt ["/proc/"; pretty pid]%string));
  match found with
  | NotFound => mret tt
  | Unreadable => sm_err (err "v2_process_unreadable")
  | Exists =>
      ticks ← start_ticks pid;
      if negb (ticks =? default 0 (jget identity "startTicks" ≫= as_u64))%Z then mret tt
      else sm_err (err "v2_source_still_alive")
  end.

(** ** The profile of a process *)

(** The values of [--user-data-dir]; a flag at the end has the empty value. *)
Fixpoint profile_values (arguments : list string) : list string :=
  match arguments with
  | [] => []
  | argument :: rest =>
      match strip_prefix "--user-data-dir=" argument with
      | Some value => value :: profile_values rest
      | None =>
          if (argument == "--user-data-dir"%string : bool)
          then default ""%string (head rest) :: profile_values rest
          else profile_values rest
      end
  end.

(** One terminated piece and no other separator: a rewritten process title. *)
Definition single_title (bytes : string) : bool :=
  match rev (bytes_of bytes) with
  | last :: init => Ascii.eqb last (ascii_of_nat 0)
                    && negb (existsb (Ascii.eqb (ascii_of_nat 0)) init)
  | [] => false
  end.

Definition process_profile_argument (bytes executable : string) : res string :=
  arguments ← ok_or (err "v2_cmdline_invalid") (split_cmdline bytes);
  arguments ← match arguments with
    | [title] =>
        if single_title bytes then
          executable ← ok_or (err "v2_executable_path_invalid") (from_utf8 executable);
          if negb (starts_with (fmt [executable; " "]%string) title)
          then Err (err "v2_process_title_executable_mismatch")
          else Ok (split_whitespace title)
        else Ok arguments
    | _ => Ok arguments
    end;
  match profile_values arguments with
  | [profile] => Ok profile
  | _ => Err (err "v2_profile_argument_not_unique")
  end.

Definition process_profile (pid : Z) : SM nat string :=
  bytes ← demand (err "v2_cmdline_unreadable") (fun t => m_read t (proc_path pid "cmdline"));
  executable ← demand (err "v2_executable_unreadable")
                 (fun t => m_canonicalize t (proc_path pid "exe"));
  profile ← sm_lift (process_profile_argument bytes executable);
  demand (err "v2_profile_unreadable") (fun t => m_canonicalize t profile).

(** ** The browser *)

Definition verify_browser (browser : value) (pid : Z) (cdp_url : string) : SM nat string :=
  process ← sm_lift (ok_or (err "v2_browser_process_missing") (jget browser "process"));
  current ← current_process_identity pid;
  sm_reject_if ((current != process) || (jstr browser "cdpEndpoint" != Some cdp_url))
    (err "v2_browser_identity_mismatch") ≫= fun _ =>
  profile ← sm_lift (ok_or (err "v2_profile_missing") (jstr browser "canonicalProfile"));
  canonical ← demand (err "v2_profile_unreadable") (fun t => m_canonicalize t profile);
  metadata ← demand (err "v2_profile_unreadable") (fun t => m_identity t canonical);
  (if negb (metadata.1 =? default 0 (jget browser "profileDevice" ≫= as_u64))%Z
      || negb (metadata.2 =? default 0 (jget browser "profileInode" ≫= as_u64))%Z
   then sm_err (err "v2_profile_identity_mismatch") else
   observed ← process_profile pid;
   sm_reject_if (observed != canonical) (err "v2_profile_identity_mismatch")) ≫= fun _ =>
  endpoint ← sm_lift (map_err (err "v2_cdp_invalid") (url_parse cdp_url));
  sm_reject_if ((u_scheme endpoint != "ws"%string)
                || (u_host_str endpoint != Some "127.0.0.1"%string)
                || (u_port endpoint == None)
                || match strip_prefix "/devtools/browser/" (u_path endpoint) with
                   | Some id => is_empty id
                   | None => true
                   end) (err "v2_cdp_not_loopback_browser") ≫= fun _ =>
  active ← demand (err "v2_active_port_unreadable")
             (fun t => ok_text (m_read_to_string t (join canonical "DevToolsActivePort")));
  let ls := lines active in
  sm_reject_if (((ls !! 0%nat ≫= parse_unsigned u16_max) != u_port endpoint)
                || ((ls !! 1%nat) != Some (u_path endpoint)))
    (err "v2_active_port_mismatch") ≫= fun _ =>
  mret canonical.

(** ** The service state *)

(** Another session that holds the same profile. *)
Definition held_elsewhere (state : ServiceState) (session_name : string)
    (profile_id : option string) : bool :=
  existsb (fun other =>
      (bs_id other != session_name) && (bs_profile_id other == profile_id)
      && match bs_lease other with
         | ServiceTabs.Released | ServiceTabs.Expired => false
         | _ => true
         end)
    (map snd (map_to_list (sessions state))).

Definition is_exclusive (lease : ServiceTabs.LeaseState) : bool :=
  match lease with ServiceTabs.Exclusive => true | _ => false end.

(** The rows of the browser and of its tab agree with the descriptor. *)
Definition rows_agree (session : BrowserSession) (record : BrowserProcess) (tab : BrowserTab)
    (session_name browser_id tab_id target_id profile_id cdp_url : string) (pid : Z) : bool :=
  (bp_pid record == Some pid) && (bp_cdp_endpoint record == Some cdp_url)
  && (bp_profile_id record == Some profile_id)
  && one_of browser_id (bs_browser_ids session) && one_of tab_id (bs_tab_ids session)
  && (bt_browser_id tab == browser_id) && (bt_owner_session_id tab == Some session_name)
  && (bt_target_id tab == Some target_id).

Definition is_ready (lifecycle : ServiceTabs.TabLifecycle) : bool :=
  match lifecycle with ServiceTabs.TabReady => true | _ => false end.

(** The descriptor of a handoff as the caller has read it. *)
Record Descriptor := {
  hd_browser_pid : option Z;
  hd_runtime_profile : option string;
  hd_cdp_url : string;
  hd_target_id : option string;
  hd_custody : option value;
}.

(** The receipt was committed for this source and browser. *)
Definition committed_receipt (receipt source browser : value) : bool :=
  ((jget receipt "schemaVersion" ≫= as_i64) == Some 2%Z)
  && (jstr receipt "phase" == Some "committed"%string)
  && (index receipt "destination" == source) && (index receipt "browser" == browser).

Definition descriptor_digest (receipt : value) : bool :=
  match jstr receipt "descriptorSha256" with
  | Some digest => (zlen digest =? 64)%Z && bytes_all is_ascii_hexdigit digest
  | None => false
  end.

Definition verify (state : ServiceState) (session_name : string) (d : Descriptor) : SM nat unit :=
  pid ← sm_lift (ok_or (err "v2_browser_pid_missing") (hd_browser_pid d));
  target_id ← sm_lift (ok_or (err "v2_target_missing") (hd_target_id d));
  custody ← sm_lift (ok_or (err "v2_custody_missing") (hd_custody d));
  source ← sm_lift (ok_or (err "v2_source_missing") (jget custody "source"));
  browser ← sm_lift (ok_or (err "v2_browser_missing") (jget custody "browser"));
  receipt ← sm_lift (ok_or (err "v2_receipt_missing")
                       (runtime_custody_receipts state !! session_name));
  sm_reject_if (negb (committed_receipt receipt source browser)
                || (jstr receipt "targetId" != Some target_id)
                || negb (descriptor_digest receipt))
    (err "v2_receipt_binding_mismatch") ≫= fun _ =>
  require_process_gone source ≫= fun _ =>
  profile_path ← verify_browser browser pid (hd_cdp_url d);
  session ← sm_lift (ok_or (err "v2_session_missing") (sessions state !! session_name));
  sm_reject_if (negb (is_exclusive (bs_lease session))
                || match hd_runtime_profile d with
                   | Some profile => bs_profile_id session != Some profile
                   | None => false
                   end
                || held_elsewhere state session_name (bs_profile_id session))
    (err "v2_exclusive_lease_required") ≫= fun _ =>
  profile_id ← sm_lift (ok_or (err "v2_profile_id_missing") (bs_profile_id session));
  configured ← sm_lift (ok_or (err "v2_service_profile_missing")
                          (profiles state !! profile_id ≫= bf_user_data_dir));
  canonical ← demand (err "v2_service_profile_unreadable") (fun t => m_canonicalize t configured);
  sm_reject_if (canonical != profile_path) (err "v2_service_profile_mismatch") ≫= fun _ =>
  let browser_id := fmt ["session:"; session_name]%string in
  let tab_id := fmt ["target:"; target_id]%string in
  record ← sm_lift (ok_or (err "v2_service_browser_missing") (browsers state !! browser_id));
  tab ← sm_lift (ok_or (err "v2_service_target_missing") (tabs state !! tab_id));
  sm_reject_if (negb (rows_agree session record tab session_name browser_id tab_id target_id
                        profile_id (hd_cdp_url d) pid))
    (err "v2_service_identity_mismatch").

(** The recovery of a snapshot whose receipt still names a target that is gone. *)
Definition verify_stale_snapshot_recovery (state : ServiceState) (session_name : string)
    (d : Descriptor) : SM nat unit :=
  pid ← sm_lift (ok_or (err "v3_browser_pid_missing") (hd_browser_pid d));
  target_id ← sm_lift (ok_or (err "v3_target_missing") (hd_target_id d));
  custody ← sm_lift (ok_or (err "v3_custody_missing") (hd_custody d));
  source ← sm_lift (ok_or (err "v3_source_missing") (jget custody "source"));
  browser ← sm_lift (ok_or (err "v3_browser_missing") (jget custody "browser"));
  receipt ← sm_lift (ok_or (err "v3_stale_receipt_missing")
                       (runtime_custody_receipts state !! session_name));
  stale_target ← sm_lift (ok_or (err "v3_stale_target_missing") (jstr receipt "targetId"));
  sm_reject_if (negb (committed_receipt receipt source browser)
                || (stale_target == target_id)
                || match tabs state !! fmt ["target:"; stale_target]%string with
                   | Some tab => is_ready (bt_lifecycle tab)
                   | None => false
                   end)
    (err "v3_stale_receipt_mismatch") ≫= fun _ =>
  require_process_gone source ≫= fun _ =>
  profile_path ← verify_browser browser pid (hd_cdp_url d);
  session ← sm_lift (ok_or (err "v3_session_missing") (sessions state !! session_name));
  profile_id ← sm_lift (ok_or (err "v3_profile_id_missing") (bs_profile_id session));
  (if negb (is_exclusive (bs_lease session))
      || match hd_runtime_profile d with Some profile => profile != profile_id | None => false end
      || held_elsewhere state session_name (bs_profile_id session)
   then sm_err (err "v3_exclusive_profile_mismatch") else
   canonical ← match profiles state !! profile_id ≫= bf_user_data_dir with
     | Some path => look (fun t => m_canonicalize t path)
     | None => mret None
     end;
   sm_reject_if (canonical != Some profile_path) (err "v3_exclusive_profile_mismatch")) ≫= fun _ =>
  let browser_id := fmt ["session:"; session_name]%string in
  let tab_id := fmt ["target:"; target_id]%string in
  record ← sm_lift (ok_or (err "v3_service_browser_missing") (browsers state !! browser_id));
  tab ← sm_lift (ok_or (err "v3_service_target_missing") (tabs state !! tab_id));
  sm_reject_if (negb (rows_agree session record tab session_name browser_id tab_id target_id
                        profile_id (hd_cdp_url d) pid)
                || negb (is_ready (bt_lifecycle tab)))
    (err "v3_service_identity_mismatch").
End handoff.
End RuntimeHandoff.
