(* ===== verification/ProcessTheorems.v ===== *)
(** * What a process proof and a handoff establish *)

From Stdlib Require Import Ascii.
From stdpp Require Import gmap pretty.
From S2P Require Import Prelude RustStr Env ServiceTabs ProcessProof RuntimeHandoff.
Import ProcessProof.

Module ProcessTheorems.

Section looks.
Context `{!Machine}.

Lemma look_ok {A} (f : nat -> A) t a t' : look f t = (Ok a, t') -> a = f t /\ t' = S t.
Proof. unfold look. by intros [= <- <-]. Qed.
Lemma demand_ok {A} code (f : nat -> option A) t a t' :
  demand code f t = (Ok a, t') -> f t = Some a /\ t' = S t.
Proof.
  unfold demand. intros Hd. inv_ok. apply look_ok in Hm as [-> ->]. done.
Qed.
Lemma ok_text_some x s : ok_text x = Some s <-> x = Contents s.
Proof. destruct x; naive_solver. Qed.

(** ** Time passes *)

Lemma preserves_look {A} (f : nat -> A) : preserves Nat.le (look f).
Proof. intros t. cbn. lia. Qed.
Lemma preserves_demand {A} code (f : nat -> option A) : preserves Nat.le (demand code f).
Proof. intros t. unfold demand, mbind, sm_bind, look. cbn. lia. Qed.
End looks.
#[local] Hint Resolve preserves_look preserves_demand : frame.

(** Every look advances the clock by one: from a run to what was seen, and when. *)
Ltac saw :=
  repeat (inv_ok; match goal with
  | Hl : look _ _ = (Ok _, _) |- _ =>
      let Ht := fresh "Ht" in apply look_ok in Hl as [Hl Ht]; cbv beta in Hl
  | Hd : demand _ _ _ = (Ok _, _) |- _ =>
      let Ht := fresh "Ht" in apply demand_ok in Hd as [Hd Ht]; cbv beta in Hd
  | Hd : ok_text _ = Some _ |- _ => apply ok_text_some in Hd
  end); inv_ok; inv_bool.

Section verified.
Context `{!Machine, !UrlLib, !Json, !JsonTree, !JsonBuild, !Crypto}.
Context `{!Serde RuntimeState, !SerdeValue BrowserBuild}.

(** Something was seen at a moment of an interval. *)
Definition seen (t t' : nat) (P : nat -> Prop) : Prop := exists m, (t <= m < t')%nat /\ P m.

Lemma seen_weaken t t' u u' P : seen t t' P -> (u <= t)%nat -> (t' <= u')%nat -> seen u u' P.
Proof. intros (m & Hm & HP) Hu Hu'. exists m. split; [lia|done]. Qed.

Definition ticks_at (process : string) (n : Z) (m : nat) : Prop :=
  exists stat, m_read_to_string m (join process "stat") = Contents stat
    /\ parse_start_ticks stat = Ok n.

(** The arguments a command line stands for: its pieces, or the words of a title that
    the lock of the profile attributes to the process. *)
Definition arguments_of (t t' : nat) (pid : Z) (cmdline executable profile : string)
    (arguments : list string) : Prop :=
  exists pieces, split_cmdline cmdline = Some pieces
    /\ match pieces with
       | [title] => title_arguments title executable profile = Ok arguments
           /\ seen t t' (fun m => exists lock, m_read_link m (join profile "SingletonLock") = Some lock
                                   /\ singleton_pid lock = Some pid)
       | _ => arguments = pieces
       end.

(** The process [v] was there from [first] to [last], both in the interval: the same
    start, executable and command line before and after everything else was seen. *)
Definition process_seen (t t' : nat) (pid : Z) (installed proc_root : string) (port : Z)
    (v : VerifiedProcess) : Prop :=
  let process := join proc_root (pretty pid) in
  let exe := join process "exe" in
  exists first last, (t <= first)%nat /\ (first < last)%nat /\ (last < t')%nat
    /\ ticks_at process (vp_start_ticks v) first /\ ticks_at process (vp_start_ticks v) last
    /\ seen first last (fun m => m_read_link m exe = Some (vp_executable v))
    /\ seen last t' (fun m => m_read_link m exe = Some (vp_executable v))
    /\ seen first last (fun m => m_canonicalize m installed = Some (vp_executable v))
    /\ (exists file, seen first last (fun m => m_identity m exe = Some file)
          /\ seen first last (fun m => m_identity m (vp_executable v) = Some file))
    /\ (exists cmdline arguments directory,
          seen first last (fun m => m_read m (join process "cmdline") = Some cmdline)
          /\ seen last t' (fun m => m_read m (join process "cmdline") = Some cmdline)
          /\ arguments_of first last pid cmdline (vp_executable v) (vp_profile v) arguments
          /\ profile_arguments arguments = Ok [directory]
          /\ seen first last (fun m => m_canonicalize m directory = Some (vp_profile v)))
    /\ exists tcp inode fd,
         seen first last (fun m => m_read_to_string m (join process "net/tcp") = Contents tcp)
         /\ listeners tcp port = [inode]
         /\ seen first last (fun m => m_read_link m (join (join process "fd") fd)
                                      = Some (fmt ["socket:["; inode; "]"]%string)).

Lemma start_ticks_ok process t n t' : process_start_ticks process t = (Ok n, t') ->
  ticks_at process n t /\ t' = S t.
Proof. unfold process_start_ticks. intros Hp. saw. subst. unfold ticks_at. eauto. Qed.

Lemma any_link_ok dir names socket t t' : any_link dir names socket t = (Ok true, t') ->
  (t <= t')%nat /\ exists name, seen t t' (fun m => m_read_link m (join dir name) = Some socket).
Proof.
  revert t. induction names as [|name names IH]; intros t Ha; cbn in Ha; [done|].
  unfold mbind, sm_bind, look in Ha. case_bool_decide as Hl.
  - injection Ha as <-. split; [lia|]. exists name, t. split; [lia|done].
  - apply IH in Ha as (Hle & n & Hs). split; [lia|]. exists n. eapply seen_weaken; [exact Hs|lia..].
Qed.

Lemma seen_at t t' (P : nat -> Prop) m : P m -> (t <= m < t')%nat -> seen t t' P.
Proof. intros HP Hm. by exists m. Qed.

Lemma check_executable_ok process installed t executable actual t' :
  check_executable process installed t = (Ok (executable, actual), t') ->
  (t < t')%nat /\ actual = executable
  /\ seen t t' (fun m => m_read_link m (join process "exe") = Some executable)
  /\ seen t t' (fun m => m_canonicalize m installed = Some executable)
  /\ exists file, seen t t' (fun m => m_identity m (join process "exe") = Some file)
       /\ seen t t' (fun m => m_identity m executable = Some file).
Proof.
  unfold check_executable. intros Hc. saw. case_bool_decide; cbn [negb] in *; [|by saw].
  saw. subst. simplify_eq. split_and!; try lia; try done.
  - eapply seen_at; [eassumption|lia].
  - eapply seen_at; [eassumption|lia].
  - eexists. split; eapply seen_at; try eassumption; lia.
Qed.

Lemma read_arguments_ok pid cmdline executable profile t arguments t' :
  read_arguments pid cmdline executable profile t = (Ok arguments, t') ->
  (t <= t')%nat /\ arguments_of t t' pid cmdline executable profile arguments.
Proof.
  unfold read_arguments, arguments_of. intros Hr. saw.
  match goal with Hp : split_cmdline _ = Some ?p |- _ => destruct p as [|title [|]] end;
    saw; subst; (split; [lia|eexists; split; [done|]]); [done| |done].
  split; [done|]. exists t. split; [lia|eauto].
Qed.

Lemma check_listener_ok process port t u t' : check_listener process port t = (Ok u, t') ->
  (t < t')%nat /\ exists tcp inode fd,
    seen t t' (fun m => m_read_to_string m (join process "net/tcp") = Contents tcp)
    /\ listeners tcp port = [inode]
    /\ seen t t' (fun m => m_read_link m (join (join process "fd") fd)
                           = Some (fmt ["socket:["; inode; "]"]%string)).
Proof.
  unfold check_listener. intros Hc. saw. subst.
  destruct (listeners _ port) as [|inode [|]] eqn:Hl; saw. subst.
  match goal with Ha : any_link _ _ _ _ = (Ok true, _) |- _ =>
    apply any_link_ok in Ha as (Hle & fd & Hs) end.
  split; [lia|]. eexists _, inode, fd. split_and!; [|done|].
  - eapply seen_at; [eassumption|lia].
  - eapply seen_weaken; [exact Hs|lia..].
Qed.

Lemma arguments_of_weaken t t' u u' pid cmdline executable profile arguments :
  arguments_of t t' pid cmdline executable profile arguments -> (u <= t)%nat -> (t' <= u')%nat ->
  arguments_of u u' pid cmdline executable profile arguments.
Proof.
  intros (pieces & Hp & Ha) Hu Hu'. exists pieces. split; [done|].
  destruct pieces as [|title [|]]; try done. destruct Ha as [? Hs]. split; [done|].
  by eapply seen_weaken.
Qed.

Lemma verify_process_seen pid endpoint profile installed proc_root port active t v t' :
  verify_process pid endpoint profile installed proc_root port active t = (Ok v, t') ->
  process_seen t t' pid installed proc_root port v
  /\ seen t t' (fun m => m_canonicalize m profile = Some (vp_profile v)).
Proof.
  unfold verify_process. intros Hv. saw. subst.
  match goal with Hc : check_executable _ _ _ = (Ok ?p, _) |- _ => destruct p as [executable actual];
    apply check_executable_ok in Hc as (Hlt & -> & Hexe & Hinst & file & Hf & Hf') end.
  saw. subst.
  repeat match goal with
  | Hs : process_start_ticks _ _ = (Ok _, _) |- _ => apply start_ticks_ok in Hs as [? ->]
  | Hr : read_arguments _ _ _ _ _ = (Ok _, _) |- _ => apply read_arguments_ok in Hr as [? Hargs]
  | Hl : check_listener _ _ _ = (Ok _, _) |- _ => apply check_listener_ok in Hl as (? & tcp & inode & fd & ? & ? & ?)
  | Hd : match ?ds with [] => _ | _ :: _ => _ end _ = (Ok _, _) |- _ =>
      destruct ds as [|directory [|]]; saw; subst
  end.
  assert (S t <= w0 /\ S w3 <= w6)%nat as [Hle0 Hle6].
  { split.
    - match goal with Hm : _ = (Ok _, w0) |- _ => apply (preserves_run Nat.le) in Hm; [exact Hm|] end.
      unfold check_active_port. solve [frame].
    - match goal with Hm : _ = (Ok _, w6) |- _ => apply (preserves_run Nat.le) in Hm; [exact Hm|] end.
      unfold check_debug_port, check_active_port. solve [frame]. }
  split; [|by exists t; split; [lia|]].
  exists w0, w7. cbn [vp_start_ticks vp_executable vp_profile].
  repeat match goal with |- _ /\ _ => split end; try done; try lia;
    try (eapply seen_weaken; [eassumption|lia..]).
  - exists (S w7). split; [lia|done].
  - exists file. split; eapply seen_weaken; try eassumption; lia.
  - eexists _, _, directory. split_and!; [| | |done|].
    + exists w2. split; [lia|eassumption].
    + exists (S (S w7)). split; [lia|eassumption].
    + eapply arguments_of_weaken; [eassumption|lia..].
    + exists w3. split; [lia|done].
  - exists tcp, inode, fd. split_and!; try done; eapply seen_weaken; try eassumption; lia.
Qed.

(** The digest of the executable, when one is recorded. *)
Lemma digest_step executable expected t u w :
  match expected with
  | None => mret tt
  | Some digest =>
      contents ← demand "executable_unreadable" (fun t => m_read t executable);
      sm_reject_if (hex_encode (sha256 contents) != digest) "executable_digest_mismatch"
  end t = (Ok u, w) ->
  (t <= w)%nat /\ forall digest, expected = Some digest ->
    (t < w)%nat /\ exists contents, m_read t executable = Some contents
                                   /\ hex_encode (sha256 contents) = digest.
Proof.
  intros Hd. destruct expected as [digest|]; saw; subst; [|done].
  split; [lia|]. intros d [= <-]. split; [lia|eauto].
Qed.

Lemma process_seen_from t t' u u' pid installed proc_root port v :
  process_seen t t' pid installed proc_root port v -> (u <= t)%nat -> (t' <= u')%nat ->
  process_seen u u' pid installed proc_root port v.
Proof.
  intros (first & last & ? & ? & ? & ? & ? & ? & Hexe & ? & ? & (c & a & d & ? & Hc & ?) & ?) Hu Hu'.
  exists first, last. repeat match goal with |- _ /\ _ => split end; try done; try lia.
  - eapply seen_weaken; [exact Hexe|lia..].
  - exists c, a, d. split_and!; try done; try tauto. eapply seen_weaken; [exact Hc|lia..].
Qed.

(** ** A persisted proof *)

(** C21. A persisted proof of a retained browser is renewed only for the process it was
    issued for: the row, the profile and the proof name the same process, endpoint,
    profile, directory, build and executable, the proof was applied for an accepted
    reason, the host is one that has a process, the digest of the executable is the
    recorded one where the proof records one of 64 digits, as it must for every build but
    stock Chrome, and in the course of the verification that process was seen, with the
    recorded start time before and after, running the very file of that path on that
    profile alone and owning the only listener on the port of the endpoint. So neither a
    process identifier nor a port that was given to another process is accepted. *)
Theorem persisted_process_sound browser profile pid endpoint t n t' :
  verify_persisted_retained_process browser profile pid endpoint t = (Ok n, t') ->
  exists proof build path executable port v,
    bp_browser_build_proof browser = Some proof /\ bp_browser_build browser = Some build
    /\ bf_user_data_dir profile = Some path /\ bp_executable_path browser = Some executable
    /\ bp_pid browser = Some pid /\ bp_cdp_endpoint browser = Some endpoint
    /\ bp_profile_id browser = Some (bf_id profile)
    /\ jbool_is proof "applied" = true /\ ju64 proof "browserPid" = Some pid
    /\ jstr proof "profileId" = Some (bf_id profile)
    /\ jstr proof "executablePath" = Some executable
    /\ jstr proof "cdpEndpoint" = Some endpoint /\ jstr proof "userDataDir" = Some path
    /\ (exists reason, jstr proof "reason" = Some reason /\ one_of reason accepted_reasons = true)
    /\ host_of_a_process (bp_host browser) = true
    /\ (jget proof "browserBuild" ≫= parse_build) = Some build
    /\ (bf_browser_build profile = None \/ bf_browser_build profile = Some build)
    /\ ju64 proof "processStartTicks" = Some n
    /\ (build <> StockChrome ->
          exists digest, jstr proof "executableSha256" = Some digest /\ zlen digest = 64%Z)
    /\ (forall digest, jstr proof "executableSha256" = Some digest -> zlen digest = 64%Z ->
          exists contents m, (t <= m < t')%nat /\ m_read m executable = Some contents
            /\ hex_encode (sha256 contents) = digest)
    /\ endpoint_port endpoint = Some port
    /\ process_seen t t' pid executable PROC port v /\ vp_start_ticks v = n
    /\ seen t t' (fun m => m_canonicalize m path = Some (vp_profile v)).
Proof.
  unfold verify_persisted_retained_process, verify_external_byop_process. intros Hv. saw. subst.
  match goal with Hp : proof_matches _ _ _ _ _ _ _ _ = true |- _ => unfold proof_matches in Hp end.
  inv_bool.
  match goal with Hp : verify_process _ _ _ _ _ _ _ _ = (Ok _, _) |- _ =>
    apply verify_process_seen in Hp as [Hseen Hpath] end.
  match goal with Hd : _ = (Ok _, _) |- _ => apply digest_step in Hd as [Hle Hdigest] end.
  pose proof Hseen as (first & last & Hfl & Hll & Hlt & _).
  do 5 eexists. exists v10. split_and!; try eassumption; try done; [| | | | |].
  - destruct (jstr v "reason") as [reason|]; [by exists reason|done].
  - destruct (bf_browser_build profile); [right|by left]. by inv_bool; subst.
  - intros Hb. rewrite bool_decide_false in Hc1 by done. cbn in Hc1. inv_bool.
    destruct (jstr v "executableSha256") as [sha|]; [cbn in *|by destruct Hc1].
    destruct (Z.eqb_spec (zlen sha) 64); [by exists sha|by destruct Hc1].
  - intros digest Hsha Hlen. rewrite Hsha in Hdigest. cbn in Hdigest. rewrite Hlen in Hdigest.
    destruct (Hdigest digest eq_refl) as (? & contents & Hread & Heq).
    exists contents, t. split_and!; [lia..|done|done].
  - eapply process_seen_from; [eassumption|lia..].
  - eapply seen_weaken; [exact Hpath|lia..].
Qed.

(** ** Evidence observed again *)

Lemma preserves_find_installed candidates actual found :
  preserves Nat.le (find_installed candidates actual found).
Proof.
  revert found. induction candidates as [|c cs IH]; intros found; cbn [find_installed]; frame.
Qed.
#[local] Hint Resolve preserves_find_installed : frame.
Lemma preserves_installed pid proc_root : preserves Nat.le (installed_chrome_for_process pid proc_root).
Proof. unfold installed_chrome_for_process. frame. Qed.
Lemma preserves_read_state p : preserves Nat.le (read_runtime_state p).
Proof. unfold read_runtime_state. frame. Qed.
#[local] Hint Resolve preserves_installed preserves_read_state : frame.

Lemma verify_seen runtime runtime_profile pid endpoint profile installed proc_root t v t' :
  verify runtime runtime_profile pid endpoint profile installed proc_root t = (Ok v, t') ->
  exists port, process_seen t t' pid installed proc_root port v.
Proof.
  unfold verify. intros Hv. saw. subst. eexists.
  match goal with Hp : verify_process _ _ _ _ _ _ _ _ = (Ok _, _) |- _ =>
    apply verify_process_seen in Hp as [Hseen _] end.
  eapply process_seen_from; [exact Hseen|lia..].
Qed.

Lemma attach_result_seen metadata selected runtime_profile pid endpoint proc_root t v t' :
  attach_result metadata selected runtime_profile pid endpoint proc_root t = (Ok v, t') ->
  exists p e installed port, pid = Some p /\ endpoint = Some e
    /\ process_seen t t' p installed proc_root port v.
Proof.
  unfold attach_result. intros Hv. saw. subst.
  repeat match goal with
  | Hr : read_runtime_state _ _ = (Ok _, _) |- _ => apply (preserves_run Nat.le) in Hr; [|solve [frame]]
  | Hi : installed_chrome_for_process _ _ _ = (Ok _, _) |- _ =>
      apply (preserves_run Nat.le) in Hi; [|solve [frame]]
  | Hp : verify _ _ _ _ _ _ _ _ = (Ok _, _) |- _ => apply verify_seen in Hp as [port Hseen]
  | Hm : match selected with _ => _ end _ = (Ok _, _) |- _ =>
      apply (preserves_run Nat.le) in Hm; [|solve [frame]]
  end.
  do 4 eexists. split_and!; [done..|]. eapply process_seen_from; [exact Hseen|lia..].
Qed.

(** What an application leaves: the metadata, the proof of a process that was seen, or a
    proof that is not applied. *)
Lemma set_fields_applied fields proof w :
  set_fields (("applied"%string, jbool false) :: fields) proof = Some w ->
  Forall (fun f => f.1 <> "applied"%string) fields -> jbool_is w "applied" = false.
Proof.
  unfold set_fields. cbn. destruct (jindex_set "applied" (jbool false) proof) as [u|] eqn:Hu.
  2: { intros Hf. exfalso. revert Hf. clear. induction fields as [|[k x] fields IH]; [done|]. exact IH. }
  apply jget_jindex_set in Hu. assert (jget u "applied" ≫= as_bool = Some false) as Hb.
  { rewrite Hu. cbn. apply as_bool_jbool. }
  clear Hu proof. revert u Hb. induction fields as [|[k x] fields IH]; cbn; intros u Hb Hw Hf.
  - injection Hw as <-. unfold jbool_is. rewrite Hb. by apply bool_decide_eq_false.
  - inversion Hf as [|? ? Hk Hfs]. cbn in Hk.
    destruct (jindex_set k x u) as [u'|] eqn:Hu'.
    + apply (IH u'); [|done..]. by rewrite (jget_jindex_set_ne _ _ _ _ _ Hu').
    + exfalso. revert Hw. clear. induction fields as [|[k' x'] fields IH]; [done|]. exact IH.
Qed.

Definition external_reasons : list string :=
  ["verified_external_byop_process"; "verified_registered_runtime_attach_process"]%string.

Lemma apply_seen metadata runtime_profile pid endpoint proc_root t metadata' t' :
  apply_with_proc_root metadata runtime_profile pid endpoint proc_root t = (Ok metadata', t') ->
  metadata' = metadata /\ (forall proof, lm_browser_capability_launch metadata = Some proof ->
    reason_is proof external_reasons = true \/ eligible proof = false)
  \/ exists proof, lm_browser_capability_launch metadata' = Some proof
     /\ (jbool_is proof "applied" = false
         \/ exists p e v installed port, pid = Some p /\ endpoint = Some e
              /\ process_seen t t' p installed proc_root port v
              /\ proof = verified_proof runtime_profile pid endpoint v).
Proof.
  unfold apply_with_proc_root. intros Ha.
  destruct (lm_browser_capability_launch metadata) as [proof|]; [|saw; by left].
  fold external_reasons in Ha. destruct (reason_is _ _) eqn:Hreason; [saw; left; naive_solver|].
  destruct (eligible proof) eqn:Heligible; cbn [negb] in Ha; [|saw; left; naive_solver].
  saw. right. unfold sm_try in Hm0.
  destruct (attach_result _ _ _ _ _ _ t) as [result w] eqn:Hresult. injection Hm0 as <- <-.
  destruct result as [verified|reason]; saw; subst.
  - exists (verified_proof runtime_profile pid endpoint verified). split; [done|]. right.
    apply attach_result_seen in Hresult as (p & e & installed & port & -> & -> & Hs). eauto 10.
  - eexists. split; [done|]. left. eapply set_fields_applied; [eassumption|].
    by repeat constructor.
Qed.

(** Evidence that is not applied leaves neither a build nor an executable. *)
Lemma cleared proof browser : jbool_is proof "applied" = false ->
  bp_browser_build (set_evidence proof browser) = None
  /\ bp_executable_path (set_evidence proof browser) = None.
Proof. unfold set_evidence. cbn. by intros ->. Qed.

(** A stock Chrome proof with a reason of this verifier is eligible when it is applied. *)
Lemma untouched_not_applied proof :
  jstr proof "browserBuild" = Some "stock_chrome"%string ->
  reason_is proof ["verified_installed_chrome_runtime_attach";
                   "managed_runtime_attach_unverified"]%string = true ->
  reason_is proof external_reasons = true \/ eligible proof = false ->
  jbool_is proof "applied" = false.
Proof.
  unfold reason_is, eligible. intros Hb Hr. destruct (jstr proof "reason") as [r|]; [|done].
  apply one_of_In in Hr. intros [He%one_of_In|He].
  - cbn in Hr, He. destruct Hr as [<-|[<-|[]]], He as [?|[?|[]]]; discriminate.
  - rewrite Hb, bool_decide_true in He by done. cbn [andb] in He. by apply orb_false_iff in He as [? _].
Qed.

Lemma verified_applied runtime_profile pid endpoint v browser :
  bp_executable_path (set_evidence (verified_proof runtime_profile pid endpoint v) browser)
  = Some (vp_executable v).
Proof.
  unfold set_evidence, jbool_is, jstr, verified_proof. cbn [bp_executable_path].
  assert (forall k x, (k, x) ∈ [("applied", jbool true);
           ("executablePath", jstring (vp_executable v))]%string ->
     jget (verified_proof runtime_profile pid endpoint v) k = Some x) as Hget.
  { intros k x Hin. unfold verified_proof. apply jget_jobject; [|set_solver].
    cbn. apply (bool_decide_unpack _). vm_compute. exact I. }
  unfold verified_proof in Hget. rewrite (Hget "applied"%string (jbool true)) by set_solver.
  cbn [mbind option_bind]. rewrite as_bool_jbool, bool_decide_true by done.
  rewrite (Hget "executablePath"%string (jstring (vp_executable v))) by set_solver.
  apply as_str_jstring.
Qed.

(** Observing a retained browser again changes nothing but its evidence: every
    profile, tab and receipt, every other browser and session, and the process, endpoint,
    profile and sessions of the browser itself stay as they are. And afterwards its row
    names an executable or a build only if in the course of the observation the process
    was seen to run that executable; when the observation fails, both are cleared. *)
Theorem refresh_evidence_sound state session_id runtime_profile pid endpoint proc_root t state' t' :
  refresh_retained_with_proc_root state session_id runtime_profile pid endpoint proc_root t
    = (Ok state', t') ->
  state' = state
  \/ exists session browser_id browser proof,
       refreshable state session_id runtime_profile pid endpoint
         = Some (session, browser_id, browser)
       /\ state' = {| profiles := profiles state;
                      browsers := <[browser_id := set_evidence proof browser]> (browsers state);
                      sessions := <[session_id := set_capability_launch proof session]>
                                    (sessions state);
                      tabs := tabs state;
                      runtime_custody_receipts := runtime_custody_receipts state |}
       /\ (bp_browser_build (set_evidence proof browser) = None
           /\ bp_executable_path (set_evidence proof browser) = None
           \/ exists p e v installed port, pid = Some p /\ endpoint = Some e
                /\ process_seen t t' p installed proc_root port v
                /\ bp_executable_path (set_evidence proof browser) = Some (vp_executable v)).
Proof.
  unfold refresh_retained_with_proc_root. intros Hr.
  destruct (refreshable _ _ _ _ _) as [[[session browser_id] browser]|] eqn:Href; [|saw; by left].
  saw. match goal with Ha : apply_with_proc_root _ _ _ _ _ _ = (Ok ?m, _) |- _ => rename m into metadata end.
  destruct (lm_browser_capability_launch metadata) as [proof|] eqn:Hproof; [|saw; by left].
  destruct (_ || _) eqn:Hguard in Hr; [saw; by left|]. inv_bool. saw. subst. right.
  exists session, browser_id, browser, proof. split_and!; [done..|].
  match goal with Ha : apply_with_proc_root _ _ _ _ _ _ = _ |- _ =>
    apply apply_seen in Ha as [[-> Hkept]|(proof' & Hp & Hcase)] end.
  - left. apply cleared, untouched_not_applied; [done..|]. by apply Hkept.
  - rewrite Hproof in Hp. injection Hp as <-. destruct Hcase as [Hno|(p & e & v & inst & port & ? & ? & ? & ->)].
    + left. by apply cleared.
    + right. exists p, e, v, inst, port. split_and!; try done. apply verified_applied.
Qed.
End verified.
End ProcessTheorems.

(** ** Handoffs are exclusive

    What an admitted handoff rests on, and that two handoffs admitted from one state
    never share a profile. *)

Import ProcessProof RuntimeHandoff ProcessTheorems.

Module HandoffTheorems.

#[local] Hint Resolve preserves_look preserves_demand : frame.

Section handoff.
Context `{!Machine, !UrlLib, !Json, !JsonTree, !JsonBuild, !SerdeValue BrowserBuild}.

(** The process of an identity is not running: another boot, no such process, or one
    that was started at another time. *)
Definition process_gone (t t' : nat) (identity : value) : Prop :=
  exists pid boot, value_u32 identity "pid" = Ok pid /\ jstr identity "bootId" = Some boot
    /\ seen t t' (fun m =>
         (exists id, m_read_to_string m boot_id_path = Contents id /\ trim id <> boot)
         \/ m_metadata m (fmt ["/proc/"; pretty pid]%string) = NotFound
         \/ exists stat n, m_read_to_string m (proc_path pid "stat") = Contents stat
              /\ parse_ticks stat = Some n
              /\ n <> default 0%Z (jget identity "startTicks" ≫= as_u64)).

Lemma process_gone_ok identity t u t' :
  require_process_gone identity t = (Ok u, t') -> (t <= t')%nat /\ process_gone t t' identity.
Proof.
  unfold require_process_gone, read_boot_id, start_ticks. intros Hr. saw. subst.
  case_bool_decide as Hboot; cbn [negb] in Hr; saw; subst.
  - destruct (m_metadata _ _) eqn:Hfound; saw; subst.
    + destruct (_ =? _)%Z eqn:Hc; cbn [negb] in Hr; saw; subst.
      split; [lia|]. eexists _, _. split_and!; [done..|]. exists (S (S t)). split; [lia|].
      right; right. eexists _, _. split_and!; [eassumption..|]. by apply Z.eqb_neq.
    + split; [lia|]. eexists _, _. split_and!; [done..|]. exists (S t). split; [lia|]. by right; left.
  - split; [lia|]. eexists _, _. split_and!; [done..|]. exists t. split; [lia|]. left. eauto.
Qed.

Lemma process_gone_weaken t t' u u' identity :
  process_gone t t' identity -> (u <= t)%nat -> (t' <= u')%nat -> process_gone u u' identity.
Proof.
  intros (pid & boot & Hp & Hb & Hs) Hu Hu'. exists pid, boot. split_and!; [done..|].
  eapply seen_weaken; [exact Hs|lia..].
Qed.

Lemma preserves_verify_browser browser pid url : preserves Nat.le (verify_browser browser pid url).
Proof.
  unfold verify_browser, current_process_identity, process_profile, read_boot_id, start_ticks. frame.
Qed.
#[local] Hint Resolve preserves_verify_browser : frame.

Lemma is_exclusive_true lease : is_exclusive lease = true -> lease = ServiceTabs.Exclusive.
Proof. by destruct lease. Qed.

(** The two verifiers. *)
Inductive Version := Current | StaleSnapshot.
Definition verifier (version : Version) : ServiceState -> string -> Descriptor -> SM nat unit :=
  match version with Current => verify | StaleSnapshot => verify_stale_snapshot_recovery end.

Definition admitted (version : Version) (state : ServiceState) (name : string) (d : Descriptor)
    : Prop := exists t t', verifier version state name d t = (Ok tt, t').

(** The target the receipt of a session names. *)
Definition receipt_target (state : ServiceState) (name : string) : option string :=
  receipt ← runtime_custody_receipts state !! name; jstr receipt "targetId".

(** The hypotheses of an admission that several conclusions read. *)
Ltac gone_in :=
  match goal with Hg : require_process_gone _ _ = (Ok _, _) |- _ =>
    apply process_gone_ok in Hg as [? Hg] end;
  match goal with Hb : verify_browser _ _ _ _ = (Ok _, _) |- _ =>
    apply (preserves_run Nat.le) in Hb; [|solve [frame]] end.
Ltac inv_handoff :=
  repeat match goal with
  | He : is_exclusive _ = true |- _ => apply is_exclusive_true in He
  | Hb : committed_receipt _ _ _ = true |- _ => apply andb_true_iff in Hb as [Hb ?]
  | Hp : bs_profile_id ?s = Some _, Hh : held_elsewhere _ _ (bs_profile_id ?s) = false |- _ =>
      rewrite Hp in Hh
  end.

Lemma admitted_facts version state name d t t' :
  verifier version state name d t = (Ok tt, t') ->
  exists session profile_id target source,
    sessions state !! name = Some session /\ bs_lease session = ServiceTabs.Exclusive
    /\ bs_profile_id session = Some profile_id
    /\ held_elsewhere state name (Some profile_id) = false
    /\ hd_target_id d = Some target
    /\ (hd_custody d ≫= fun c => jget c "source") = Some source
    /\ process_gone t t' source
    /\ match version with
       | Current => receipt_target state name = Some target
       | StaleSnapshot => exists stale, receipt_target state name = Some stale /\ stale <> target
       end.
Proof.
  unfold verifier. destruct version.
  - unfold verify. intros Hv. saw. gone_in. inv_handoff.
    exists v8, v10, v0, v2. split_and!; try done.
    + by rewrite Hr7.
    + eapply process_gone_weaken; [eassumption|lia..].
    + unfold receipt_target. by rewrite Hr4.
  - unfold verify_stale_snapshot_recovery. intros Hv. saw. gone_in.
    assert (w8 <= w11 /\ bs_lease v9 = ServiceTabs.Exclusive
            /\ held_elsewhere state name (Some v10) = false)%nat as (Hle & Hx & Hheld).
    { match goal with Hp : bs_profile_id v9 = Some _ |- _ => rewrite Hp in Hm11 end.
      destruct (_ || held_elsewhere _ _ _) eqn:Hg in Hm11; [saw|].
      apply orb_false_iff in Hg as [[Hx _]%orb_false_iff Hheld]. inv_bool.
      split_and!; [|by apply is_exclusive_true|done].
      apply (preserves_run Nat.le) in Hm11; [exact Hm11|solve [frame]]. }
    exists v9, v10, v0, v2. split_and!; try done.
    + by rewrite Hr7.
    + eapply process_gone_weaken; [eassumption|lia..].
    + exists v5. unfold receipt_target. rewrite Hr4. by inv_bool.
Qed.

(** The service keeps every session under its identifier. *)
Definition keyed (state : ServiceState) : Prop :=
  forall k session, sessions state !! k = Some session -> bs_id session = k.

Lemma held_elsewhere_spec state name profile_id other session :
  sessions state !! other = Some session -> bs_id session <> name ->
  bs_profile_id session = profile_id -> bs_lease session = ServiceTabs.Exclusive ->
  held_elsewhere state name profile_id = true.
Proof.
  intros Hs Hid Hp Hl. unfold held_elsewhere. apply existsb_exists. exists session. split.
  - apply in_map_iff. exists (other, session). split; [done|].
    by apply list_elem_of_In, elem_of_map_to_list.
  - by rewrite bool_decide_false, Hp, bool_decide_true, Hl by done.
Qed.

(** C8. Handoffs are exclusive. Of one service state, in which sessions are kept under
    their identifiers, let two handoffs be admitted at any moments, by the verifier of
    the current schema or by the recovery of a stale snapshot. For each the former daemon
    was seen to be gone. If their sessions use the same profile they are the same
    session, so no profile is handed to two daemons; and then the two verifiers never
    both admit a handoff of one target. *)
Theorem handoff_exclusive state version name d t t' version' name' d' u u' session session' :
  keyed state ->
  verifier version state name d t = (Ok tt, t') ->
  verifier version' state name' d' u = (Ok tt, u') ->
  sessions state !! name = Some session -> sessions state !! name' = Some session' ->
  bs_profile_id session = bs_profile_id session' ->
  name = name'
  /\ (version <> version' -> hd_target_id d <> hd_target_id d')
  /\ exists source source',
       (hd_custody d ≫= fun c => jget c "source") = Some source /\ process_gone t t' source
       /\ (hd_custody d' ≫= fun c => jget c "source") = Some source' /\ process_gone u u' source'.
Proof.
  intros Hkeyed Ha Hb Hs Hs' Hp.
  apply admitted_facts in Ha as (x & p & target & source & Hx & Hlease & Hprofile & Hheld & Htarget
    & Hsource & Hgone & Hreceipt).
  apply admitted_facts in Hb as (x' & p' & target' & source' & Hx' & Hlease' & Hprofile' & Hheld'
    & Htarget' & Hsource' & Hgone' & Hreceipt').
  simplify_eq. assert (name = name') as ->.
  { destruct (decide (name = name')) as [|Hne]; [done|exfalso].
    rewrite (held_elsewhere_spec state name (Some p) name' x') in Hheld; try done.
    - rewrite (Hkeyed _ _ Hx'). congruence.
    - congruence. }
  split; [done|]. split; [|eauto 10]. rewrite Htarget, Htarget'.
  destruct version, version'; intros Hv; try done; naive_solver congruence.
Qed.
End handoff.
End HandoffTheorems.
