(* ===== verification/RetainedRotation.v ===== *)
(** * Rotations of the retained browser requirement

    The writer of the files [RetainedBrowser] reads:
    [rotateRetainedBrowserRequirement] of
    [scripts/lib/local-dashboard-retained-browser-requirement.js]. It replaces the
    requirement and its enforcement one after the other under a journal, and every
    replacement is an atomic rename, so an interruption falls between two of them. The
    theorems compare every state it can leave behind with what the Rust verifier makes
    of it. *)

From Stdlib Require Import Ascii.
From stdpp Require Import gmap.
From S2P Require Import Prelude RustStr Env RetainedBrowser.
Import RetainedBrowser.

Module RetainedRotation.

(** The three files: the bytes of the requirement, the digest in the enforcement, the
    journal. *)
Record Publication := {
  pb_requirement : option string;
  pb_enforcement : option string;
  pb_journal : option RotationRecord;
}.

Definition set_requirement (bytes : string) (p : Publication) : Publication :=
  {| pb_requirement := Some bytes; pb_enforcement := pb_enforcement p;
     pb_journal := pb_journal p |}.
Definition set_enforcement (digest : string) (p : Publication) : Publication :=
  {| pb_requirement := pb_requirement p; pb_enforcement := Some digest;
     pb_journal := pb_journal p |}.
Definition set_journal (journal : option RotationRecord) (p : Publication) : Publication :=
  {| pb_requirement := pb_requirement p; pb_enforcement := pb_enforcement p;
     pb_journal := journal |}.
Definition with_phase (phase : string) (r : RotationRecord) : RotationRecord :=
  {| ro_schema_version := ro_schema_version r; ro_operation_id := ro_operation_id r;
     ro_created_at := ro_created_at r; ro_expected_old_sha256 := ro_expected_old_sha256 r;
     ro_next_requirement_sha256 := ro_next_requirement_sha256 r;
     ro_stale_reason := ro_stale_reason r; ro_phase := phase;
     ro_old_expectation := ro_old_expectation r;
     ro_next_requirement := ro_next_requirement r |}.

(** One call of the rotation. *)
Record Rotation := {
  rt_now : string;
  rt_expectation : RetainedBrowserExpectation;
  rt_expected_sha256 : string;
  rt_stale_reason : string;
}.

(** The JavaScript runtime: [JSON.stringify(value, null, 2)], [JSON.parse] of a
    requirement of no other fields, its strings trimmed, whether [Date.parse] gives a
    number, and whether [new URL] gives an address of HTTP or HTTPS. *)
Class Script := {
  stringify : RequirementRecord -> string;
  parse_requirement : string -> option RequirementRecord;
  date_ok : string -> bool;
  http_url : string -> bool;
}.

Section rotate.
Context `{!Crypto, !Script}.

(** The files, and how many more writes the process lives to make. *)
Definition W : Type := nat * Publication.

(** An atomic replacement; a process that is interrupted makes it never. *)
Definition write (f : Publication -> Publication) : SM W unit := fun w =>
  match w.1 with
  | O => (Err "interrupted"%string, w)
  | S n => (Ok tt, (n, f w.2))
  end.

Definition serializePrivateJson (value : RequirementRecord) : string :=
  stringify value +:+ String (ascii_of_nat 10) "".
Definition sha256Json (value : RequirementRecord) : string :=
  hex_encode (sha256 (serializePrivateJson value)).

(** [normalizeRetainedBrowserExpectation], the fields a durable expectation requires and
    [validateHttpUrl]. *)
Definition expectation_ok (e : RetainedBrowserExpectation) : bool :=
  valid_session_name (session_name e)
  && negb (is_empty (profile_id e)) && negb (is_empty (target_id e)) && negb (is_empty (url e))
  && http_url (url e).

(** [/^[a-f0-9]{12}-[a-f0-9]{12}$/] *)
Definition operation_id_ok (id : string) : bool :=
  match split_on "-" id with
  | [a; b] => lower_hex a 12 && lower_hex b 12
  | _ => false
  end.

Definition stale_reasons : list string :=
  ["retained_daemon_missing"; "retained_browser_missing"].
Definition phases : list string :=
  ["prepared"; "requirement_replaced"; "enforcement_replaced"; "committed"].

Definition validateRetainedBrowserRotationJournal (value : RotationRecord) : bool :=
  (ro_schema_version value == ROTATION_SCHEMA)
  && date_ok (ro_created_at value)
  && lower_hex (ro_expected_old_sha256 value) 64
  && lower_hex (ro_next_requirement_sha256 value) 64
  && operation_id_ok (ro_operation_id value)
  && one_of (ro_stale_reason value) stale_reasons
  && one_of (ro_phase value) phases
  && expectation_ok (ro_old_expectation value)
  && (sha256Json (ro_next_requirement value) == ro_next_requirement_sha256 value).

(** [readRetainedBrowserRequirement] of an existing, enforced requirement: its digest
    and its record. *)
Definition readRetainedBrowserRequirement (p : Publication)
    : option (string * string * RequirementRecord) :=
  bytes ← pb_requirement p;
  enforcement ← pb_enforcement p;
  value ← parse_requirement bytes;
  if (rq_schema_version value != REQUIREMENT_SCHEMA) || negb (date_ok (rq_created_at value))
     || negb (expectation_ok (rq_expectation value)) then None else
  let sha := hex_encode (sha256 bytes) in
  if enforcement != sha then None else Some (sha, enforcement, value).

Definition updateRetainedBrowserRotationJournal (journal : RotationRecord) (phase : string)
    : SM W RotationRecord :=
  let updated := with_phase phase journal in
  write (set_journal (Some updated)) ≫= fun _ => mret updated.

(** The replacement of both files under an accepted journal. *)
Definition replace_files (journal : RotationRecord) (expected next_sha : string) : SM W unit :=
  w ← sm_get;
  requirement_sha ← sm_lift (ok_or "unreadable"%string
                      ((fun bytes => hex_encode (sha256 bytes)) <$> pb_requirement w.2));
  let enforcement_sha := pb_enforcement w.2 in
  sm_reject_if (negb (one_of requirement_sha [expected; next_sha]))
    "Retained browser rotation found an unexpected requirement digest" ≫= fun _ =>
  sm_reject_if (match enforcement_sha with
                | Some d => negb (one_of d [expected; next_sha])
                | None => true
                end)
    "Retained browser rotation found an unexpected enforcement digest" ≫= fun _ =>
  sm_reject_if ((requirement_sha == expected) && (enforcement_sha == Some next_sha))
    "Retained browser rotation found an impossible replacement order" ≫= fun _ =>
  journal ← (if (requirement_sha == expected : bool) then
               write (set_requirement (serializePrivateJson (ro_next_requirement journal)))
                 ≫= fun _ =>
               updateRetainedBrowserRotationJournal journal "requirement_replaced"
             else mret journal);
  journal ← (if (enforcement_sha == Some expected : bool) then
               write (set_enforcement next_sha) ≫= fun _ =>
               updateRetainedBrowserRotationJournal journal "enforcement_replaced"
             else mret journal);
  w ← sm_get;
  '(sha, enforced, _) ← sm_lift (ok_or "unreadable"%string
                          (readRetainedBrowserRequirement w.2));
  sm_reject_if ((sha != next_sha) || (enforced != next_sha))
    "Retained browser rotation did not commit the requested identity" ≫= fun _ =>
  updateRetainedBrowserRotationJournal journal "committed" ≫= fun _ =>
  write (set_journal None).

(** The journal of a rotation that begins. *)
Definition new_journal (call : Rotation) (operation_id : string)
    (existing next : RequirementRecord) : RotationRecord :=
  {| ro_schema_version := ROTATION_SCHEMA; ro_operation_id := operation_id;
     ro_created_at := rq_created_at next;
     ro_expected_old_sha256 := rt_expected_sha256 call;
     ro_next_requirement_sha256 := sha256Json next;
     ro_stale_reason := rt_stale_reason call; ro_phase := "prepared";
     ro_old_expectation := rq_expectation existing; ro_next_requirement := next |}.

Definition rotateRetainedBrowserRequirement (call : Rotation) : SM W unit :=
  let expected := rt_expected_sha256 call in
  sm_reject_if (negb (lower_hex expected 64)) "invalid expectedSha256" ≫= fun _ =>
  sm_reject_if (negb (one_of (rt_stale_reason call) stale_reasons))
    "Retained browser rotation requires bounded proof that old authority is stale" ≫= fun _ =>
  sm_reject_if (negb (expectation_ok (rt_expectation call))) "invalid evidence" ≫= fun _ =>
  w ← sm_get;
  let journal := pb_journal w.2 in
  sm_reject_if (match journal with
                | Some j => negb (validateRetainedBrowserRotationJournal j)
                | None => false
                end) "Retained browser rotation journal is invalid" ≫= fun _ =>
  let created_at := match journal with Some j => ro_created_at j | None => rt_now call end in
  sm_reject_if (negb (date_ok created_at)) "invalid createdAt" ≫= fun _ =>
  let next := match journal with
              | Some j => ro_next_requirement j
              | None => {| rq_schema_version := REQUIREMENT_SCHEMA; rq_created_at := created_at;
                           rq_expectation := rt_expectation call |}
              end in
  let next_sha := sha256Json next in
  let operation_id := fmt [take_str 12 expected; "-"; take_str 12 next_sha]%string in
  journal ← match journal with
    | None =>
        '(sha, _, existing) ← sm_lift (ok_or
          "Retained browser rotation requires an enforced existing requirement"%string
          (readRetainedBrowserRequirement w.2));
        sm_reject_if (sha != expected)
          "Retained browser rotation expectedSha256 does not match current requirement"
          ≫= fun _ =>
        let journal := new_journal call operation_id existing next in
        write (set_journal (Some journal)) ≫= fun _ => mret journal
    | Some j =>
        sm_reject_if ((ro_operation_id j != operation_id)
                      || (ro_expected_old_sha256 j != expected)
                      || (ro_next_requirement_sha256 j != next_sha)
                      || (ro_stale_reason j != rt_stale_reason call)
                      || (rq_expectation (ro_next_requirement j) != rt_expectation call))
          "Active retained browser rotation conflicts with requested replacement" ≫= fun _ =>
        mret j
    end;
  replace_files journal expected next_sha.

(** A history: calls, each with the number of writes it lives to make. *)
Definition rotations (history : list (nat * Rotation)) (p : Publication) : Publication :=
  foldl (fun p '(life, call) => (rotateRetainedBrowserRequirement call (life, p)).2.2) p history.

Definition digest (bytes : string) : string := hex_encode (sha256 bytes).

(** ** The verifier that reads the files

    What the script and the verifier have in common: [serde_json] writes a requirement as
    [JSON.stringify] does, with two spaces, and reads back what that wrote; and both
    parsers of URLs are those of the WHATWG standard. *)
Context {observed : Observed} `{!UrlEdit, !UrlLib, !Json, !JsonTree, !Chrono}.
Context `{!Serde RequirementRecord, !Serde EnforcementRecord, !Serde RotationRecord}.
Context `{!Serde value, !Serde (list value), !PrettyJson RequirementRecord}.
Hypothesis pretty_stringify : forall r, to_vec_pretty r = Some (stringify r).
Hypothesis from_slice_stringify : forall r, from_slice (serializePrivateJson r) = Some r.
Hypothesis http_url_parses : forall u, http_url u = true ->
  exists v, url_parse u = Ok v /\ one_of (u_scheme v) ["http"; "https"]%string = true.

(** A requirement the verifier reads and accepts, and a time it accepts. *)
Definition accepted (bytes : string) : Prop :=
  exists record, from_slice bytes = Some record /\ validate_requirement record = Ok tt.
Definition rfc3339 (text : string) : Prop := exists t, parse_from_rfc3339 text = Ok t.

Lemma expectation_valid e : expectation_ok e = true -> validate_expectation e = Ok tt.
Proof.
  unfold expectation_ok, validate_expectation. rewrite !andb_true_iff, !negb_true_iff.
  intros [[[[-> ->] ->] _] (v & -> & Hs)%http_url_parses].
  cbn in *. by rewrite Hs.
Qed.

Lemma requirement_valid created expectation :
  rfc3339 created -> expectation_ok expectation = true ->
  validate_requirement {| rq_schema_version := REQUIREMENT_SCHEMA; rq_created_at := created;
                          rq_expectation := expectation |} = Ok tt.
Proof.
  intros [t Ht] He. unfold validate_requirement. cbn [rq_schema_version rq_created_at rq_expectation].
  rewrite bool_decide_true by done. rewrite Ht. by apply expectation_valid.
Qed.

(** What a call writes into its journal, whatever the phase. *)
Definition well_formed (r : RotationRecord) : Prop :=
  ro_schema_version r = ROTATION_SCHEMA /\ rfc3339 (ro_created_at r)
  /\ lower_hex (ro_expected_old_sha256 r) 64 = true
  /\ ro_operation_id r = fmt [take_str 12 (ro_expected_old_sha256 r); "-";
                              take_str 12 (ro_next_requirement_sha256 r)]%string
  /\ one_of (ro_stale_reason r) stale_reasons = true
  /\ validate_expectation (ro_old_expectation r) = Ok tt
  /\ validate_requirement (ro_next_requirement r) = Ok tt
  /\ sha256Json (ro_next_requirement r) = ro_next_requirement_sha256 r.

Lemma sha256Json_lower_hex value : lower_hex (sha256Json value) 64 = true.
Proof. apply hex_encode_lower_hex, sha256_len. Qed.

Lemma accepted_serialized value :
  validate_requirement value = Ok tt -> accepted (serializePrivateJson value).
Proof. intros Hv. exists value. split; [apply from_slice_stringify|done]. Qed.

Lemma journal_valid r : well_formed r -> In (ro_phase r) phases -> validate_rotation r = Ok tt.
Proof.
  intros (Hs & [t Ht] & Hold & Hid & Hr & He & Hq & Hn) Hp%one_of_In.
  unfold validate_rotation, validate_sha256, stale_reasons, phases in *.
  rewrite Hr, Hp, Ht, Hold, He, Hq, <-Hn, sha256Json_lower_hex, pretty_stringify, Hn, <-Hid.
  rewrite !bool_decide_true by done. cbn. by rewrite bool_decide_true.
Qed.

(** ** The states a rotation passes through *)

(** [old] and [next] are the digests of the journal, [requirement] and [enforcement]
    those of the files. *)
Inductive in_flight (old next : string) : string -> string -> string -> Prop :=
| not_replaced : in_flight old next old old "prepared"
| requirement_only phase :
    In phase ["prepared"; "requirement_replaced"]%string -> in_flight old next next old phase
| both phase : In phase phases -> in_flight old next next next phase.

Lemma in_flight_cases old next req enf phase : in_flight old next req enf phase ->
  (req = old /\ enf = old /\ phase = "prepared"%string)
  \/ (req = next /\ enf = old /\ In phase ["prepared"; "requirement_replaced"]%string)
  \/ (req = next /\ enf = next /\ In phase phases).
Proof. intros []; auto 6. Qed.
Lemma in_flight_phase old next req enf phase : in_flight old next req enf phase -> In phase phases.
Proof. intros [|? [<-|[<-|[]]]|]; cbn; auto. Qed.

Definition consistent (p : Publication) : Prop :=
  exists bytes d, pb_requirement p = Some bytes /\ pb_enforcement p = Some d /\ accepted bytes
    /\ match pb_journal p with
       | None => d = digest bytes
       | Some r => well_formed r
           /\ in_flight (ro_expected_old_sha256 r) (ro_next_requirement_sha256 r)
                (digest bytes) d (ro_phase r)
       end.

(** ** Consistency at every write

    [triple P m Q]: from a consistent publication with [P], the program leaves a
    consistent publication behind wherever it stops, and ends in [Q]. *)
Definition triple {A} (P : Publication -> Prop) (m : SM W A) (Q : A -> Publication -> Prop) : Prop :=
  forall w, consistent w.2 -> P w.2 ->
    consistent (m w).2.2 /\ match (m w).1 with Ok a => Q a (m w).2.2 | Err _ => True end.

Lemma triple_bind {A B} P (m : SM W A) Q (f : A -> SM W B) R :
  triple P m Q -> (forall a, triple (Q a) (f a) R) -> triple P (m ≫= f) R.
Proof.
  intros Hm Hf w Hw HP. destruct (Hm w Hw HP) as [Hw' HQ]. unfold mbind, sm_bind.
  destruct (m w) as [[a|e] w']; cbn in *; [by apply Hf|done].
Qed.
Lemma triple_ret {A} P (a : A) (Q : A -> Publication -> Prop) :
  (forall p, P p -> Q a p) -> triple P (mret a) Q.
Proof. intros HQ w Hw HP. cbn. auto. Qed.
Lemma triple_pure {A} (F : Prop) P (m : SM W A) Q :
  (F -> triple P m Q) -> triple (fun p => F /\ P p) m Q.
Proof. intros Hm w Hw [Hp HP]. by apply Hm. Qed.
Lemma triple_pure' {A} (F : Prop) P (m : SM W A) Q :
  (F -> triple P m Q) -> triple (fun p => P p /\ F) m Q.
Proof. intros Hm w Hw [HP Hp]. by apply Hm. Qed.
Lemma triple_exists {A X} (P : X -> Publication -> Prop) (m : SM W A) Q :
  (forall x, triple (P x) m Q) -> triple (fun p => exists x, P x p) m Q.
Proof. intros Hm w Hw [x HP]. by apply (Hm x). Qed.

(** A guard, a partial observation and a look at the files, with what they teach. *)
Lemma triple_guard {B} P c e (f : unit -> SM W B) Q :
  (c = false -> triple P (f tt) Q) -> triple P (sm_reject_if c e ≫= f) Q.
Proof.
  intros Hf w Hw HP. unfold mbind, sm_bind, sm_reject_if. destruct c; cbn; [done|]. by apply Hf.
Qed.
Lemma triple_read {A B} P (r : res A) (f : A -> SM W B) Q :
  (forall a, r = Ok a -> triple P (f a) Q) -> triple P (sm_lift r ≫= f) Q.
Proof.
  intros Hf w Hw HP. unfold mbind, sm_bind, sm_lift. destruct r; cbn; [|done]. by apply Hf.
Qed.
Lemma triple_look {B} P (f : W -> SM W B) Q :
  (forall w, consistent w.2 -> P w.2 -> triple (eq w.2) (f w) Q) -> triple P (sm_get ≫= f) Q.
Proof. intros Hf w Hw HP. unfold mbind, sm_bind, sm_get. cbn. by apply Hf. Qed.
Lemma triple_strengthen {A} (P P' : Publication -> Prop) (m : SM W A) Q :
  triple P m Q -> (forall p, P' p -> P p) -> triple P' m Q.
Proof. intros Hm HP w Hw Hp. apply Hm; auto. Qed.
Lemma triple_write P f Q :
  (forall p, P p -> consistent p -> consistent (f p) /\ Q tt (f p)) -> triple P (write f) Q.
Proof. intros HQ [[|n] p] Hw HP; cbn in *; [auto|by apply HQ]. Qed.
Lemma triple_weaken {A} P (m : SM W A) (Q Q' : A -> Publication -> Prop) :
  triple P m Q -> (forall a p, Q a p -> Q' a p) -> triple P m Q'.
Proof.
  intros Hm HQ w Hw HP. destruct (Hm w Hw HP) as [Hc Ha]. split; [done|].
  destruct (m w).1; auto.
Qed.
(** The publication in the course of the rotation of a journal. *)
Definition flying (r : RotationRecord) (req enf : string) (p : Publication) : Prop :=
  exists bytes, p = {| pb_requirement := Some bytes; pb_enforcement := Some enf;
                       pb_journal := Some r |} /\ digest bytes = req /\ accepted bytes.

Section flight.
Variables (r : RotationRecord) (old next : string).
Hypothesis old_is : ro_expected_old_sha256 r = old.
Hypothesis next_is : ro_next_requirement_sha256 r = next.
Hypothesis valid : well_formed r.

Lemma flying_consistent phase req enf p :
  flying (with_phase phase r) req enf p -> consistent p <-> in_flight old next req enf phase.
Proof using All.
  intros (bytes & -> & <- & Ha). unfold consistent. cbn. rewrite old_is, next_is. split.
  - intros (b & d & [= <-] & [= <-] & _ & _ & Hf). done.
  - intros Hf. exists bytes, enf. by split_and!.
Qed.

Lemma update_triple phase phase' req enf :
  in_flight old next req enf phase' ->
  triple (flying (with_phase phase r) req enf)
    (updateRetainedBrowserRotationJournal (with_phase phase r) phase')
    (fun r' p => r' = with_phase phase' r /\ flying r' req enf p).
Proof using All.
  intros Hf. eapply triple_bind.
  - apply (triple_write _ _ (fun _ p => flying (with_phase phase' r) req enf p)).
    intros p (bytes & -> & Hb & Ha) _.
    assert (flying (with_phase phase' r) req enf
      (set_journal (Some (with_phase phase' r))
        {| pb_requirement := Some bytes; pb_enforcement := Some enf;
           pb_journal := Some (with_phase phase r) |})) as Hfl by (exists bytes; done).
    split; [|done]. by apply (flying_consistent _ _ _ _ Hfl).
  - intros []. by apply triple_ret.
Qed.

Lemma set_requirement_triple phase enf :
  In phase ["prepared"; "requirement_replaced"]%string -> enf = old ->
  triple (flying (with_phase phase r) old enf)
    (write (set_requirement (serializePrivateJson (ro_next_requirement r))))
    (fun _ => flying (with_phase phase r) next enf).
Proof using All.
  intros Hp ->. apply triple_write. intros p (bytes & -> & Hb & _) _.
  assert (flying (with_phase phase r) next old
    (set_requirement (serializePrivateJson (ro_next_requirement r))
       {| pb_requirement := Some bytes; pb_enforcement := Some old;
          pb_journal := Some (with_phase phase r) |})) as Hfl.
  { destruct valid as (_ & _ & _ & _ & _ & _ & Hq & Hn). eexists. split; [done|].
    split; [by rewrite <-next_is|]. by apply accepted_serialized. }
  split; [|done]. apply (flying_consistent _ _ _ _ Hfl). by constructor.
Qed.

Lemma set_enforcement_triple phase enf : In phase phases ->
  triple (flying (with_phase phase r) next enf) (write (set_enforcement next))
    (fun _ => flying (with_phase phase r) next next).
Proof using All.
  intros Hp. apply triple_write. intros p (bytes & -> & Hb & Ha) _.
  assert (flying (with_phase phase r) next next
    (set_enforcement next {| pb_requirement := Some bytes; pb_enforcement := Some enf;
                             pb_journal := Some (with_phase phase r) |})) as Hfl
    by (exists bytes; done).
  split; [|done]. apply (flying_consistent _ _ _ _ Hfl). by constructor.
Qed.

(** The replacement of the requirement, when it is still the old one. *)
Lemma requirement_step phase req enf :
  in_flight old next req enf phase -> ~ (req = old /\ enf = next) ->
  triple (flying (with_phase phase r) req enf)
    (if (req == old : bool) then
       write (set_requirement (serializePrivateJson (ro_next_requirement (with_phase phase r))))
         ≫= fun _ =>
       updateRetainedBrowserRotationJournal (with_phase phase r) "requirement_replaced"
     else mret (with_phase phase r))
    (fun j p => exists phase', j = with_phase phase' r /\ flying j next enf p
       /\ in_flight old next next enf phase').
Proof using All.
  intros Hf Hne. case_bool_decide as Hreq.
  - rewrite Hreq in *.
    assert (enf = old /\ In phase ["prepared"; "requirement_replaced"]%string) as [-> Hp].
    { destruct (in_flight_cases _ _ _ _ _ Hf) as [(_ & ? & ->)|[(? & ? & ?)|(? & ? & ?)]];
        [split; [done|by left]|done|by destruct Hne]. }
    eapply triple_bind; [by apply set_requirement_triple|]. intros [].
    eapply triple_weaken; [apply (update_triple phase "requirement_replaced")|].
    + constructor. by right; left.
    + intros j p [-> Hfl]. eexists. split_and!; [done..|]. constructor. by right; left.
  - assert (req = next) as ->.
    { destruct (in_flight_cases _ _ _ _ _ Hf) as [(? & _ & _)|[(? & _ & _)|(? & _ & _)]]; done. }
    apply triple_ret. eauto.
Qed.

(** The replacement of the enforcement, when it still asks for the old requirement. *)
Lemma enforcement_step phase enf : in_flight old next next enf phase ->
  triple (flying (with_phase phase r) next enf)
    (if (Some enf == Some old : bool) then
       write (set_enforcement next) ≫= fun _ =>
       updateRetainedBrowserRotationJournal (with_phase phase r) "enforcement_replaced"
     else mret (with_phase phase r))
    (fun j p => exists phase', j = with_phase phase' r /\ flying j next next p).
Proof using All.
  intros Hf. assert (In phase phases) as Hp by by eapply in_flight_phase. case_bool_decide as He.
  - eapply triple_bind; [by apply set_enforcement_triple|]. intros [].
    eapply triple_weaken; [apply (update_triple phase "enforcement_replaced")|].
    + constructor. by do 2 right; left.
    + intros j p [-> Hfl]. eauto.
  - assert (enf = next) as ->.
    { destruct (in_flight_cases _ _ _ _ _ Hf) as [(_ & ? & _)|[(_ & ? & _)|(_ & ? & _)]];
        congruence. }
    apply triple_ret. eauto.
Qed.

Lemma finish_triple j phase : j = with_phase phase r ->
  triple (flying j next next)
    (updateRetainedBrowserRotationJournal j "committed" ≫= fun _ => write (set_journal None))
    (fun _ p => pb_journal p = None).
Proof using All.
  intros ->. eapply triple_bind; [apply (update_triple phase "committed"); constructor;
    by do 3 right; left|]. intros j. apply triple_write.
  intros p [-> (bytes & -> & Hb & Ha)] _. split; [|done]. exists bytes, next. by rewrite <-Hb.
Qed.

Lemma replace_files_triple phase req enf : in_flight old next req enf phase ->
  triple (flying (with_phase phase r) req enf)
    (replace_files (with_phase phase r) old next) (fun _ p => pb_journal p = None).
Proof using All.
  intros Hf. unfold replace_files. apply triple_look. intros w _ Hfl.
  apply (triple_strengthen (flying (with_phase phase r) req enf)); [|by intros p <-].
  destruct Hfl as (bytes & -> & <- & _). cbn [pb_requirement pb_enforcement fmap option_fmap option_map].
  apply triple_read. intros sha [= <-]. fold (digest bytes).
  apply triple_guard. intros _. apply triple_guard. intros _. apply triple_guard. intros Horder.
  assert (~ (digest bytes = old /\ enf = next)) as Hne.
  { intros [Hb ->]. by rewrite !bool_decide_true in Horder. }
  eapply triple_bind; [by apply requirement_step|]. intros j.
  apply triple_exists. intros phase'. apply triple_pure. intros ->. apply triple_pure'. intros Hf'.
  eapply triple_bind; [by apply enforcement_step|]. intros j. apply triple_exists. intros ph.
  apply triple_pure. intros Hj. apply triple_look. intros w' _ Hfl.
  apply (triple_strengthen (flying j next next)); [|by intros p <-].
  apply triple_read. intros [[sha' enforced] value] _. apply triple_guard. intros _. by eapply finish_triple.
Qed.
End flight.

Lemma with_phase_id j : with_phase (ro_phase j) j = j.
Proof. by destruct j. Qed.

(** The first call: the journal is written over an enforced requirement. *)
Lemma start_triple j bytes :
  ro_expected_old_sha256 j = digest bytes -> ro_phase j = "prepared"%string ->
  well_formed j -> accepted bytes ->
  triple (fun p => p = {| pb_requirement := Some bytes; pb_enforcement := Some (digest bytes);
                          pb_journal := None |})
    (write (set_journal (Some j))) (fun _ => flying j (digest bytes) (digest bytes)).
Proof.
  intros Hold Hphase Hj Ha. apply triple_write. intros p -> _. split.
  - exists bytes, (digest bytes). cbn. rewrite Hold, Hphase. split_and!; [done..|]. constructor.
  - by exists bytes.
Qed.

(** A call to replace the files under journal [j] is right in every state of [j]. *)
Lemma resume_triple j req enf :
  well_formed j ->
  in_flight (ro_expected_old_sha256 j) (ro_next_requirement_sha256 j) req enf (ro_phase j) ->
  triple (flying j req enf)
    (replace_files j (ro_expected_old_sha256 j) (ro_next_requirement_sha256 j))
    (fun _ p => pb_journal p = None).
Proof.
  intros Hnext Hf. pose proof (replace_files_triple j _ _ eq_refl eq_refl Hnext (ro_phase j) req enf Hf)
    as Ht. by rewrite with_phase_id in Ht.
Qed.

(** What a call reads of an enforced requirement. *)
Lemma read_requirement bytes d sha enf existing :
  readRetainedBrowserRequirement {| pb_requirement := Some bytes; pb_enforcement := Some d;
                                    pb_journal := None |} = Some (sha, enf, existing) ->
  sha = digest bytes /\ expectation_ok (rq_expectation existing) = true.
Proof.
  unfold readRetainedBrowserRequirement. cbn. intros Hread.
  destruct (parse_requirement bytes) as [value|]; [|done]. cbn in Hread.
  destruct (_ || _) eqn:Hok; [done|]. destruct (negb (d == _)); [done|].
  injection Hread as <- _ <-. rewrite !orb_false_iff, !negb_false_iff in Hok. by destruct Hok as [_ ?].
Qed.

Lemma new_journal_well_formed call existing next :
  next = {| rq_schema_version := REQUIREMENT_SCHEMA; rq_created_at := rt_now call;
            rq_expectation := rt_expectation call |} ->
  rfc3339 (rt_now call) -> expectation_ok (rt_expectation call) = true ->
  expectation_ok (rq_expectation existing) = true ->
  lower_hex (rt_expected_sha256 call) 64 = true ->
  one_of (rt_stale_reason call) stale_reasons = true ->
  well_formed (new_journal call (fmt [take_str 12 (rt_expected_sha256 call); "-";
                                      take_str 12 (sha256Json next)]%string) existing next).
Proof.
  intros -> Hnow He Hold Hhex Hr. split_and!; cbn; try done; [by apply expectation_valid|].
  by apply requirement_valid.
Qed.

Lemma rotate_triple call : rfc3339 (rt_now call) ->
  triple (fun _ => True) (rotateRetainedBrowserRequirement call) (fun _ p => pb_journal p = None).
Proof.
  intros Hnow. unfold rotateRetainedBrowserRequirement.
  apply triple_guard; intros Hhex%negb_false_iff. apply triple_guard; intros Hr%negb_false_iff.
  apply triple_guard; intros He%negb_false_iff.
  apply triple_look. intros [life p] (bytes & d & Hb & Hd & Ha & Hj) _. cbn in Hb, Hd, Hj |- *.
  apply triple_guard; intros _. apply triple_guard; intros _.
  destruct p as [req enf journal]. cbn in *. subst req enf. destruct journal as [j|].
  - destruct Hj as [Hwf Hf]. eapply triple_bind.
    { apply triple_guard. intros Hsame. apply (triple_ret _ _ (fun j' p =>
        j' = j /\ ro_expected_old_sha256 j = rt_expected_sha256 call
        /\ flying j (digest bytes) d p)).
      rewrite !orb_false_iff in Hsame. destruct Hsame as [[[[_ Hold] _] _] _].
      inv_bool. intros p <-. split_and!; [done..|]. by exists bytes. }
    intros j'. apply triple_pure. intros ->. apply triple_pure. intros <-.
    assert (sha256Json (ro_next_requirement j) = ro_next_requirement_sha256 j) as -> by apply Hwf.
    by apply resume_triple.
  - subst d. set (next := Build_RequirementRecord _ _ _).
    eapply triple_bind.
    { apply triple_read. intros [[sha enf] existing] [-> Hold]%ok_or_ok%read_requirement.
      apply triple_guard. intros Hsha. inv_bool.
      pose proof (new_journal_well_formed call existing next eq_refl Hnow He Hold Hhex Hr) as Hwf.
      set (j := new_journal _ _ _ _) in *. eapply triple_bind.
      { eapply triple_strengthen; [by apply (start_triple j bytes)|]. by intros p <-. }
      intros []. apply (triple_ret _ _ (fun j p =>
        (ro_expected_old_sha256 j = rt_expected_sha256 call /\ ro_phase j = "prepared"%string
         /\ well_formed j /\ ro_next_requirement_sha256 j = sha256Json next)
        /\ flying j (rt_expected_sha256 call) (rt_expected_sha256 call) p)).
      rewrite <-Hsha. intros p Hp. split_and!; done. }
    intros j. apply triple_pure. intros (Hold & Hphase & Hwf & Hsha). rewrite <-Hold, <-Hsha.
    apply resume_triple; [done|]. rewrite Hphase. constructor.
Qed.

(** No history of calls, however interrupted, leaves an inconsistent publication. *)
Lemma rotations_consistent history p :
  Forall (fun '(_, call) => rfc3339 (rt_now call)) history ->
  consistent p -> consistent (rotations history p).
Proof.
  intros Hh. revert p. induction Hh as [|[life call] history Hnow _ IH]; [done|]. intros p Hp. cbn.
  apply IH. by apply (rotate_triple call Hnow (life, p)).
Qed.

(** ** What the verifier makes of it *)

(** What the verifier says of the digests of a requirement and of its enforcement under
    a journal: nothing but a pending rotation, except when the journal still says
    [prepared] while both files are replaced, or when it replaces a requirement by itself. *)
Definition verdict (path : string) (r : RotationRecord) (requirement enforcement : string)
    : res RetainedBrowserRequirementStatus :=
  if decide (ro_expected_old_sha256 r = ro_next_requirement_sha256 r)
  then Err (failure "retained_browser_rotation_order_invalid") else
  if decide (ro_phase r = "prepared"%string /\ requirement = ro_next_requirement_sha256 r
             /\ enforcement = ro_next_requirement_sha256 r)
  then Err (failure "retained_browser_rotation_phase_conflict") else
  Ok (status path true false "rotation_pending" true (Some (ro_phase r))).

Lemma pair_verdict path r req enf :
  in_flight (ro_expected_old_sha256 r) (ro_next_requirement_sha256 r) req enf (ro_phase r) ->
  (validate_rotation_pair req enf r ≫= fun _ =>
   Ok (status path true false "rotation_pending" true (Some (ro_phase r))))
  = verdict path r req enf.
Proof.
  intros Hf. unfold validate_rotation_pair, verdict.
  set (old := ro_expected_old_sha256 r) in *. set (next := ro_next_requirement_sha256 r) in *.
  generalize (status path true false "rotation_pending" true (Some (ro_phase r))). intros s.
  revert Hf. generalize (ro_phase r). clearbody old next. intros phase Hf%in_flight_cases.
  destruct (decide (old = next)) as [->|Hne].
  - assert (req = next /\ enf = next) as [-> ->] by (intuition congruence).
    by rewrite bool_decide_true.
  - assert (next <> old) as Hne' by congruence. cbn in Hf.
    repeat (destruct Hf as [Hf|Hf]); destruct Hf as (-> & -> & Hp);
      repeat (destruct Hp as [Hp|Hp]); subst; try done;
      rewrite ?(bool_decide_true (old = old)), ?(bool_decide_true (next = next)),
        ?(bool_decide_false (old = next)), ?(bool_decide_false (next = old)) by done.
    all: case_decide; [naive_solver|].
    all: case_decide; first [naive_solver|vm_compute; reflexivity].
Qed.

(** The verifier finds the files of [p] at their paths. *)
Definition sees (path : string) (p : Publication) : Prop :=
  symlink_metadata path = Present
  /\ (forall bytes, pb_requirement p = Some bytes ->
       read_bounded_regular_file path MAX_REQUIREMENT_BYTES true
         "retained_browser_requirement_invalid" "retained_browser_requirement_permissions_invalid"
       = Ok bytes)
  /\ (forall d, pb_enforcement p = Some d -> exists enforcement,
       read_enforcement (retained_browser_enforcement_path path) = Ok (Some enforcement)
       /\ en_requirement_sha256 enforcement = d)
  /\ read_rotation (retained_browser_rotation_path path) = Ok (pb_journal p).

(** An enforced requirement that the verifier accepts, and no rotation under way. *)
Definition enforced_requirement (p : Publication) : Prop :=
  exists bytes, accepted bytes /\ p = {| pb_requirement := Some bytes;
    pb_enforcement := Some (digest bytes); pb_journal := None |}.

(** C31. Starting from an enforced requirement that the verifier accepts, let any calls of
    the rotation be made, at times in RFC 3339 form, each interrupted before any of its
    writes. Then the requirement and its enforcement are both there, and the requirement
    is one the verifier accepts. Without a journal the enforcement has the digest of the
    requirement. With a journal, a verifier that reads these files reports a pending
    rotation in the phase of the journal, in every such state but two: when both files
    are replaced and the journal still says [prepared], which a call leaves behind that
    resumed after the first replacement, it reports a conflict of the phase; and when a
    requirement is replaced by one of the same digest, an invalid order. No interruption
    makes it report anything else. Of the two languages it is assumed that [serde_json]
    writes a requirement as [JSON.stringify] does and reads it back, and that an HTTP URL
    of the one is one of the other. *)
Theorem rotation_crash_states history p :
  enforced_requirement p ->
  Forall (fun '(_, call) => rfc3339 (rt_now call)) history ->
  let q := rotations history p in
  exists bytes enforcement, pb_requirement q = Some bytes /\ pb_enforcement q = Some enforcement
    /\ accepted bytes
    /\ match pb_journal q with
       | None => enforcement = digest bytes
       | Some r => forall root path socket_dir, sees path q ->
           verify_retained_browser_requirement_at_paths root path socket_dir
           = verdict path r (digest bytes) enforcement
       end.
Proof.
  intros (bytes & Ha & ->) Hh.
  destruct (rotations_consistent history {| pb_requirement := Some bytes;
    pb_enforcement := Some (digest bytes); pb_journal := None |} Hh)
    as (b & d & Hb & Hd & Hacc & Hj).
  { exists bytes, (digest bytes). done. }
  exists b, d. split_and!; [done..|]. destruct (pb_journal _) as [r|] eqn:Hr; [|done].
  intros root path socket_dir (Hm & Hreq & Henf & Hrot). destruct Hj as [Hwf Hf].
  apply Henf in Hd as (enforcement & He & <-). destruct Hacc as (record & Hparse & Hvalid).
  rewrite <-(pair_verdict path r _ _ Hf).
  unfold verify_retained_browser_requirement_at_paths, verify_present.
  rewrite He, Hrot, Hr, Hm. cbn. rewrite (Hreq _ Hb). cbn. rewrite Hparse. cbn. rewrite Hvalid. cbn.
  rewrite (journal_valid r Hwf) by (by eapply in_flight_phase). done.
Qed.
End rotate.
End RetainedRotation.
