(* ===== verification/PrivateCdp.v ===== *)
(** * The private transport

    The state private operations work on, and the part of
    [cli/src/native/cdp/client.rs] they use: commands under a permit, page
    sanitization and the permanent closure of the transport.

    A [Machine] holds the files, the persisted service state, the daemon, its
    client, what was sent so far, and a clock. Between any two steps other
    processes may run any operations on the private stores and replace the
    service state: the environment chooses them, as it chooses what the browser
    answers. *)

From S2P Require Import Prelude RustStr Env SecretFs SecretStore GateStore GateView StoreHistory.
From S2P Require Import PrivateIdentity PrivacyGate ServiceTabs.
From Stdlib Require Import Ascii.
From stdpp Require Import gmap.
Import SecretFs SecretStore GateStore GateView StoreHistory PrivacyGate.

Local Open Scope Z_scope.

Module PrivateCdp.

(** ** The state *)

Record PageInfo := {
  pi_target_id : string;
  pi_session_id : string;
  pi_url : string;
  pi_title : string;
}.

(** The browser manager; [bm_runtime_profile_name] is the runtime profile of the
    process it launched, if it did. *)
Record BrowserManager := {
  bm_pages : list PageInfo;
  bm_active_page_index : nat;
  bm_ws_url : string;
  bm_runtime_profile_name : option string;
}.

Record RefMap := { rm_map : gmap string string; rm_next_ref : nat }.

Record DaemonState := {
  ds_browser : option BrowserManager;
  ds_session_id : string;
  ds_attached_runtime_profile : option string;
  ds_ref_map : RefMap;
}.

(** The client of the daemon's browser; [cl_address] identifies it in
    [Arc::ptr_eq]. [cl_open] says whether the socket's sink is still there,
    [cl_joined] that the reader and the keepalive task were joined. *)
Record Client := {
  cl_address : nat;
  cl_gate : option PrivacyGate;
  cl_observer : option PrivacyObserver;
  cl_sealed : bool;
  cl_open : bool;
  cl_binding : option (string * string);
  cl_failed : bool;
  cl_joined : bool;
}.

(** What the wait for an answer may end with: the answer, an error the peer
    answers with, a failure of the transport or the command's own deadline, or the
    end of the future that waits ([tokio::time::timeout] around it, or its drop). *)
Inductive Answer (A : Type) := Answered (v : A) | Refused | Failed | Overdue.
Arguments Answered {A} v.
Arguments Refused {A}.
Arguments Failed {A}.
Arguments Overdue {A}.

(** What a write of the service state ends with. *)
Inductive Commit := Committed | Uncertain (applied : bool).

Section cdp.
Context `{!Json}.
Local Abbreviation value := Env.value.

Record Command := { c_method : string; c_params : option value; c_session : option string }.

Record Machine := {
  m_world : World;
  m_state : ServiceTabs.ServiceState;
  m_daemon : DaemonState;
  m_client : Client;
  m_sent : list Command;
  m_wire : list string;
  m_time : nat;
}.

Class Environment := {
  e_answer : nat -> Command -> Answer value;
  (** the operations of other processes on the private stores *)
  e_meanwhile : nat -> list Op;
  (** what other processes make of the service state *)
  e_service : nat -> ServiceTabs.ServiceState -> ServiceTabs.ServiceState;
  (** whether the service state can be locked and loaded, and written *)
  e_load : nat -> bool;
  e_commit : nat -> Commit;
  (** the clock, in nanoseconds *)
  e_clock : nat -> Z;
  (** what arrives on the connected socket: the bytes, or a failure *)
  e_read : nat -> Z -> Answer string;
  e_read_len : forall t n s, e_read t n = Answered s -> zlen s = n;
  (** whether the peer has closed its side, and whether a write succeeds *)
  e_eof : nat -> Answer bool;
  e_write : nat -> Answer unit;
  e_peer_uid : option Z;
  (** the process and its environment *)
  e_pid : Z;
  e_var_os : string -> option string;
  (** whether joining the reader and the keepalive task fails *)
  e_join : nat -> Answer bool;
}.

Context `{!Oracle, !Crypto, !Serde GateState, !UrlLib, !JsonBuild, !JsonTree, !Environment}.

#[local] Abbreviation PM := (SM Machine).

(** ** Effects *)

Definition with_world (w : World) (m : Machine) : Machine :=
  {| m_world := w; m_state := m_state m; m_daemon := m_daemon m; m_client := m_client m;
     m_sent := m_sent m; m_wire := m_wire m; m_time := m_time m |}.
Definition with_state (s : ServiceTabs.ServiceState) (m : Machine) : Machine :=
  {| m_world := m_world m; m_state := s; m_daemon := m_daemon m; m_client := m_client m;
     m_sent := m_sent m; m_wire := m_wire m; m_time := m_time m |}.
Definition with_daemon (d : DaemonState) (m : Machine) : Machine :=
  {| m_world := m_world m; m_state := m_state m; m_daemon := d; m_client := m_client m;
     m_sent := m_sent m; m_wire := m_wire m; m_time := m_time m |}.
Definition with_client (c : Client) (m : Machine) : Machine :=
  {| m_world := m_world m; m_state := m_state m; m_daemon := m_daemon m; m_client := c;
     m_sent := m_sent m; m_wire := m_wire m; m_time := m_time m |}.
Definition sends (c : Command) (m : Machine) : Machine :=
  {| m_world := m_world m; m_state := m_state m; m_daemon := m_daemon m; m_client := m_client m;
     m_sent := m_sent m ++ [c]; m_wire := m_wire m; m_time := m_time m |}.
Definition writes (s : string) (m : Machine) : Machine :=
  {| m_world := m_world m; m_state := m_state m; m_daemon := m_daemon m; m_client := m_client m;
     m_sent := m_sent m; m_wire := m_wire m ++ [s]; m_time := m_time m |}.
Definition passes (m : Machine) : Machine :=
  {| m_world := history (e_meanwhile (m_time m)) (m_world m);
     m_state := e_service (m_time m) (m_state m); m_daemon := m_daemon m;
     m_client := m_client m; m_sent := m_sent m; m_wire := m_wire m; m_time := S (m_time m) |}.

(** An effect given by its meaning. *)
Definition step {A} (f : Machine -> res A * Machine) : PM A := f.

(** Other processes run. *)
Definition elapse : PM unit := sm_modify passes.

(** [Utc::now()], [SystemTime::now()]. *)
Definition now : PM Z := elapse ≫= fun _ => step (fun m => (Ok (e_clock (m_time m)), m)).

(** An operation on the files of a store. *)
Definition on_world {A} (f : World -> A * World) : PM A := fun m =>
  let '(a, w) := f (m_world m) in (Ok a, with_world w m).
Definition on_files {A} (op : SM World A) : PM A := elapse ≫= fun _ => step (fun m =>
  let '(r, w) := op (m_world m) in (r, with_world w m)).

(** The end of a future that is dropped, and [tokio::time::timeout(.., m)] with
    [.map_err(|_| label)??]. *)
Definition OVERDUE : string := "deadline has elapsed".
Definition within {A} (label : string) (m : PM A) : PM A := fun s =>
  match m s with
  | (Err e, s') => (Err (if e == OVERDUE then label else e), s')
  | ok => ok
  end.

(** An error drops the permit, hence releases its lease. *)
Definition or_release {A} (permit : PrivatePermit) (body : PM A) : PM A := fun m =>
  match body m with
  | (Err e, m') => (Err e, with_world (drop_file (p_store permit) (p_file permit) (m_world m')) m')
  | ok => ok
  end.

(** ** The service state *)

(** [load_snapshot]; the store refreshes what it derives. *)
Definition load_snapshot (label : string) : PM ServiceTabs.ServiceState := elapse ≫= fun _ => step (fun m =>
  if e_load (m_time m)
  then (Ok (ServiceTabs.refresh_service_tab_handles (m_state m)), m)
  else (Err label, m)).

(** [mutate] and [try_mutate_durable]; every error is replaced by [label]. The
    lock is held until the write: what others attempt meanwhile has no effect. *)
Definition mutate {A} (label : string)
    (f : ServiceTabs.ServiceState -> PM (ServiceTabs.ServiceState * A)) : PM A :=
  state ← load_snapshot label;
  held ← sm_get;
  r ← sm_map_err label (f state);
  step (fun m =>
    let saved := with_state (ServiceTabs.refresh_service_tab_handles r.1) m in
    match e_commit (m_time m) with
    | Committed => (Ok r.2, saved)
    | Uncertain true => (Err label, saved)
    | Uncertain false => (Err label, with_state (m_state held) m)
    end).

(** ** The daemon *)

Definition active_page (b : BrowserManager) : option PageInfo :=
  bm_pages b !! bm_active_page_index b.
Definition active_target_id (b : BrowserManager) : res string :=
  pi_target_id <$> ok_or "No active page"%string (active_page b).
Definition active_session_id (b : BrowserManager) : res string :=
  pi_session_id <$> ok_or "No active page"%string (active_page b).

Definition set_active_page_metadata (url title : option string) (b : BrowserManager)
    : BrowserManager :=
  {| bm_pages := alter (fun page =>
       {| pi_target_id := pi_target_id page; pi_session_id := pi_session_id page;
          pi_url := match url with Some url => url | None => pi_url page end;
          pi_title := match title with Some title => title | None => pi_title page end |})
       (bm_active_page_index b) (bm_pages b);
     bm_active_page_index := bm_active_page_index b; bm_ws_url := bm_ws_url b;
     bm_runtime_profile_name := bm_runtime_profile_name b |}.

Definition private_runtime_profile (d : DaemonState) : option string :=
  browser ← ds_browser d;
  match bm_runtime_profile_name browser with
  | Some name => Some name
  | None => ds_attached_runtime_profile d
  end.

(** [RefMap::clear] *)
Definition cleared : RefMap := {| rm_map := ∅; rm_next_ref := 1 |}.

Definition the_daemon : PM DaemonState := fun m => (Ok (m_daemon m), m).
Definition the_client : PM Client := fun m => (Ok (m_client m), m).
Definition the_browser : PM BrowserManager := fun m =>
  (ok_or "private_browser_unavailable"%string (ds_browser (m_daemon m)), m).

(** ** Permits *)

Definition permit_target_id (p : PrivatePermit) : option string := target_id <$> p_scope p.
Definition permit_identity_digest (p : PrivatePermit) : option string :=
  identity_digest <$> p_scope p.
Definition permit_journey_stage (p : PrivatePermit) : option nat := p_scope p ≫= journey_stage.

Definition authorizes_gate (permit : PrivatePermit) (gate : PrivacyGate) : PM bool :=
  elapse ≫= fun _ => on_world (authorizes permit gate).

Definition private_permit_matches (permit : PrivatePermit) : PM bool :=
  client ← the_client;
  match cl_gate client with
  | None => mret false
  | Some gate =>
      ok ← authorizes_gate permit gate;
      mret (ok && is_some (permit_target_id permit) && is_some (permit_identity_digest permit)
            && negb (cl_sealed client))
  end.

(** ** Commands *)

(** [send_command_inner]: what is on the socket counts as sent whether or not it
    is answered. *)
Definition dispatch (method : string) (params : option value) (session_id : option string)
    : PM (Answer value) :=
  elapse ≫= fun _ => step (fun m =>
  if cl_sealed (m_client m) || negb (cl_open (m_client m)) then (Ok Failed, m) else
  let cmd := {| c_method := method; c_params := params;
                c_session := session_id ≫= fun s => if is_empty s then None else Some s |} in
  (Ok (e_answer (m_time m) cmd), passes (sends cmd m))).

(** An answer, its errors mapped to [label]. *)
Definition answer_or {A} (label : string) (a : Answer A) : PM A :=
  match a with
  | Answered v => mret v
  | Refused | Failed => sm_err label
  | Overdue => sm_err OVERDUE
  end.

Definition FAILED_OPERATION : string := "private_cdp_operation_failed".
Definition send_command_inner (method : string) (params : option value)
    (session_id : option string) : PM value :=
  dispatch method params session_id ≫= answer_or FAILED_OPERATION.

(** [CdpClient::public_lease] *)
Definition client_public_lease : PM (option GateLease) :=
  client ← the_client;
  match cl_observer client with
  | Some observer => lease ← on_files (observer_lease observer); mret (Some lease)
  | None => mret None
  end.

(** A lease is dropped when its scope ends, on every path. *)
Definition leasing {A} (owner : Z) (lease : option GateLease) (body : PM A) : PM A := fun m =>
  let '(r, m') := body m in
  (r, match lease with
      | Some lease => with_world (drop_lease owner lease (m_world m')) m'
      | None => m'
      end).
Definition owner_of (client : Client) : Z :=
  match cl_gate client with Some gate => pid (g_store gate) | None => 0 end.

(** [send_command_with_timeout]: the ordinary transport. The command is on
    record as pending before it is sent, and until the peer answered. *)
Definition send_command_with_timeout (label method : string) (params : option value)
    (session_id : option string) : PM value :=
  client ← the_client;
  public ← sm_map_err label client_public_lease;
  leasing (owner_of client) public (
    match cl_gate client with
    | None => dispatch method params session_id ≫= answer_or label
    | Some gate =>
        command ← sm_map_err label (on_files (command_lease gate));
        leasing (owner_of client) (Some (c_file command)) (
          answer ← dispatch method params session_id;
          match answer with
          | Answered _ | Refused =>
              sm_map_err label (on_files (complete command)) ≫= fun _ => answer_or label answer
          | Failed | Overdue => answer_or label answer
          end)
    end).

Definition private_methods : list string :=
  ["Target.getTargetInfo"; "Target.attachToTarget"; "Target.detachFromTarget";
   "Page.getFrameTree"; "Page.createIsolatedWorld"; "Page.navigate"; "Page.stopLoading";
   "Runtime.evaluate"]%string.

Definition param (params : option value) (key : string) : option value :=
  v ← params; jget v key.

(** The reply of [Target.getTargetInfo] is about the page [target]. *)
Definition is_page (target : string) (info : value) : bool :=
  ((jpointer info ["targetInfo"; "targetId"]%string ≫= as_str) == Some target)
  && ((jpointer info ["targetInfo"; "type"]%string ≫= as_str) == Some "page"%string).

(** The session whose target is probed before the command; [None] when the
    command itself is checked. *)
Definition probe_session (target method : string) (params : option value)
    (session_id : option string) : res (option string) :=
  let mismatch := Err "private_scope_mismatch"%string in
  if method == "Target.attachToTarget"%string then
    if is_some session_id || ((param params "targetId" ≫= as_str) != Some target)
       || ((param params "flatten" ≫= as_bool) != Some true)
    then mismatch else Ok None
  else if method == "Target.getTargetInfo"%string then
    if match param params "targetId" with Some v => as_str v != Some target | None => false end
       || (negb (is_some session_id) && ((param params "targetId" ≫= as_str) != Some target))
    then mismatch else Ok None
  else if method == "Target.detachFromTarget"%string then
    if is_some session_id || is_some (param params "targetId") then mismatch else
    match param params "sessionId" ≫= as_str with
    | Some s => if is_empty s then mismatch else Ok (Some s)
    | None => mismatch
    end
  else match session_id with
       | Some s => if is_empty s then mismatch else Ok (Some s)
       | None => mismatch
       end.

(** [timeout_ms] is the deadline of the caller, in milliseconds. *)
Definition send_private_command (permit : PrivatePermit) (method : string)
    (params : option value) (session_id : option string) (timeout_ms : Z) : PM value :=
  client ← the_client;
  gate ← sm_lift (ok_or "private_gate_unavailable"%string (cl_gate client));
  authorized ← authorizes_gate permit gate;
  if negb authorized then sm_err "private_permit_mismatch" else
  target ← sm_lift (ok_or "private_scope_missing"%string (permit_target_id permit));
  if negb (is_some (permit_identity_digest permit)) then sm_err "private_scope_missing" else
  if negb (one_of method private_methods) || (timeout_ms =? 0) || (30000 <? timeout_ms)
  then sm_err "private_cdp_operation_invalid" else
  probe ← sm_lift (probe_session target method params session_id);
  match probe with
  | Some session =>
      info ← send_command_inner "Target.getTargetInfo" None (Some session);
      if negb (is_page target info) then sm_err "private_scope_mismatch" else mret tt
  | None => mret tt
  end ≫= fun _ =>
  result ← send_command_inner method params session_id;
  if (method == "Target.getTargetInfo"%string) && negb (is_page target result)
  then sm_err "private_scope_mismatch" else mret result.

(** ** Beginning an interval *)

(** The client's gate, for [begin_private_interval] and [begin_private_journey]. *)
Definition client_gate : PM PrivacyGate :=
  client ← the_client;
  sm_lift (ok_or "private_gate_unavailable"%string (cl_gate client)).

Definition begin_private_interval (target : PrivateIdentity.ValidatedPrivateTarget)
    : PM PrivatePermit :=
  gate ← client_gate;
  on_files (begin_private_scoped gate (PrivateIdentity.target_id target)
              (PrivateIdentity.scope_digest target)).
Definition client_begin_journey (journey : PrivateIdentity.ValidatedPrivateJourney)
    : PM PrivatePermit :=
  gate ← client_gate;
  on_files (PrivacyGate.begin_private_journey gate journey).

(** ** Closing the transport *)

(** [PrivateTransportClosed]: the transport is identified by its client. *)
Record PrivateTransportClosed := {
  tc_transport : nat;
  tc_gate : PrivacyGate;
  tc_epoch : string;
  tc_identity_digest : string;
}.

Definition closed_matches (self : PrivateTransportClosed) (permit : PrivatePermit) : PM bool :=
  client ← the_client;
  if negb (tc_transport self =? cl_address client)%nat then mret false else
  ok ← authorizes_gate permit (tc_gate self);
  mret (ok && (p_epoch permit == tc_epoch self)
        && (permit_identity_digest permit == Some (tc_identity_digest self))).

Definition set_shutdown (binding : option (string * string)) (open failed joined : bool)
    (c : Client) : Client :=
  {| cl_address := cl_address c; cl_gate := cl_gate c; cl_observer := cl_observer c; cl_sealed := true; cl_open := open;
     cl_binding := binding; cl_failed := failed; cl_joined := joined |}.

(** The tasks are aborted and joined; a task that panicked is a failure. *)
Definition join_workers (binding : string * string) : PM unit :=
  client ← the_client;
  if cl_joined client then mret tt else
  elapse ≫= fun _ => step (fun m =>
  match e_join (m_time m) with
  | Answered true =>
      (Ok tt, with_client (set_shutdown (Some binding) false false true (m_client m)) m)
  | Answered false | Refused | Failed =>
      (Err "private_transport_join_failed"%string,
       with_client (set_shutdown (Some binding) false true false (m_client m)) m)
  | Overdue => (Err OVERDUE, m)
  end).

(** [self.ws_tx.lock().await.take()]: the lock may take longer than allowed. *)
Definition take_sink (binding : string * string) : PM unit :=
  elapse ≫= fun _ => step (fun m =>
  match e_join (m_time m) with
  | Overdue => (Err OVERDUE, m)
  | _ => (Ok tt, with_client (set_shutdown (Some binding) false (cl_failed (m_client m))
                                (cl_joined (m_client m)) (m_client m)) m)
  end).

Definition quiesce_private_transport (permit : PrivatePermit) : PM PrivateTransportClosed :=
  client ← the_client;
  gate ← sm_lift (ok_or "private_gate_unavailable"%string (cl_gate client));
  authorized ← authorizes_gate permit gate;
  if negb authorized || negb (is_some (permit_target_id permit))
  then sm_err "private_permit_mismatch" else
  digest ← sm_lift (ok_or "private_scope_missing"%string (permit_identity_digest permit));
  let binding := (p_epoch permit, digest) in
  within "private_transport_shutdown_timeout" (
    client ← the_client;
    if match cl_binding client with Some old => old != binding | None => false end
    then sm_err "private_shutdown_scope_mismatch" else
    if cl_failed client then sm_err "private_transport_join_failed" else
    sm_modify (fun m => with_client (set_shutdown (Some binding) (cl_open client)
                 (cl_failed client) (cl_joined client) (m_client m)) m) ≫= fun _ =>
    take_sink binding ≫= fun _ => join_workers binding) ≫= fun _ =>
  mret {| tc_transport := cl_address client; tc_gate := gate; tc_epoch := p_epoch permit;
          tc_identity_digest := digest |}.

(** ** Sanitizing the page *)

Definition short : Z := 1000.
Definition about_blank : string := "about:blank".

(** The closure [verify]. *)
Definition verify (target : string) (info : value) (blank : bool) : bool :=
  is_page target info
  && (negb blank
      || ((jpointer info ["targetInfo"; "url"]%string ≫= as_str) == Some about_blank)).

Definition empty_page_check : string :=
  "globalThis === globalThis.top && location.href === 'about:blank' && document.readyState === 'complete' && document.body !== null && document.body.childElementCount === 0 && document.body.textContent === ''".

(** The body of the loop once the frame is blank. *)
Definition prove_blank (permit : PrivatePermit) (target session : string) (tree frame : value)
    : PM unit :=
  let failed := "private_cleanup_failed"%string in
  if is_some (jget frame "parentId")
     || match jpointer tree ["frameTree"; "childFrames"]%string with
        | Some v => match as_array v with Some [] => false | _ => true end
        | None => false
        end
  then sm_err failed else
  frame_id ← sm_lift (ok_or failed (jstr frame "id"));
  world ← send_private_command permit "Page.createIsolatedWorld"
    (Some (jobject [("frameId", jstring frame_id);
                    ("worldName", jstring "agent-browser-private-cleanup")]%string))
    (Some session) short;
  context ← sm_lift (ok_or failed (jget world "executionContextId" ≫= as_i64));
  proof ← send_private_command permit "Runtime.evaluate"
    (Some (jobject [("contextId", jnumber context); ("returnByValue", jbool true);
                    ("expression", jstring empty_page_check)]%string))
    (Some session) short;
  if is_some (jget proof "exceptionDetails")
     || ((jpointer proof ["result"; "value"]%string ≫= as_bool) != Some true)
  then sm_err failed else
  info ← send_private_command permit "Target.getTargetInfo" None (Some session) short;
  if negb (verify target info true) then sm_err "private_cleanup_identity_mismatch" else mret tt.

(** [for _ in 0..attempts]; every pass that does not see the blank frame sleeps. *)
Fixpoint await_blank (attempts : nat) (permit : PrivatePermit) (target session : string) : PM unit :=
  match attempts with
  | O => sm_err "private_cleanup_failed"
  | S attempts =>
      tree ← send_private_command permit "Page.getFrameTree" None (Some session) short;
      frame ← sm_lift (ok_or "private_cleanup_failed"%string
                         (jpointer tree ["frameTree"; "frame"]%string));
      if jstr frame "url" != Some about_blank
      then elapse ≫= fun _ => await_blank attempts permit target session
      else prove_blank permit target session tree frame
  end.

Definition sanitize_private_page (permit : PrivatePermit) (target session : string) : PM unit :=
  if is_empty target || is_empty session || (permit_target_id permit != Some target)
  then sm_err "private_cleanup_identity_mismatch" else
  within "private_cleanup_failed" (
    info ← send_private_command permit "Target.getTargetInfo" None (Some session) short;
    if negb (verify target info false) then sm_err "private_cleanup_identity_mismatch" else
    send_private_command permit "Page.stopLoading" None (Some session) short ≫= fun _ =>
    navigated ← send_private_command permit "Page.navigate"
      (Some (jobject [("url", jstring about_blank)]%string)) (Some session) short;
    if is_some (jget navigated "errorText") then sm_err "private_cleanup_failed" else
    await_blank 12 permit target session).

End cdp.

End PrivateCdp.
