(* ===== verification/PrivateBroker.v ===== *)
(** * The authority boundary of private execution

    Model of [cli/src/native/private_broker.rs]: a staged tab handle is compared
    with the persisted service state and with the page the daemon is attached to,
    before an interval begins, inside it, and at each advance of a journey. *)

From S2P Require Import Prelude RustStr Env SecretFs SecretStore GateStore GateView StoreHistory.
From S2P Require Import PrivateIdentity PrivacyGate PrivateOperation ServiceTabs PrivateCdp.
From Stdlib Require Import Ascii.
From stdpp Require Import gmap.
Import SecretFs SecretStore GateStore PrivacyGate PrivateCdp.

Local Open Scope Z_scope.

Module PrivateBroker.

Section broker.
Context `{!Json, !Oracle, !Crypto, !Serde GateState, !UrlLib, !JsonBuild, !JsonTree, !Environment}.
Context `{!Chrono, !Serde (list Scalar), !SerdeValue ServiceTabs.ServiceTabHandle}.
Local Abbreviation value := Env.value.
Local Abbreviation PM := (SM Machine).
Local Abbreviation LivePrivateIdentity := PrivateIdentity.LivePrivateIdentity.
Local Abbreviation ValidatedPrivateTarget := PrivateIdentity.ValidatedPrivateTarget.
Local Abbreviation PrivateOperation := PrivateOperation.PrivateOperation.

(** ** The persisted service state *)

(** The guard on the records of browser, session and tab. *)
Definition broker_matches (browser : ServiceTabs.BrowserProcess)
    (session : ServiceTabs.BrowserSession) (tab : ServiceTabs.BrowserTab)
    (persisted : ServiceTabs.ServiceState) (live : LivePrivateIdentity)
    (tab_id connected_endpoint : string) : bool :=
  (ServiceTabs.bp_health browser == ServiceTabs.Ready)
  && (ServiceTabs.bp_profile_id browser == Some (PrivateIdentity.live_profile_id live))
  && (ServiceTabs.bp_cdp_endpoint browser == Some connected_endpoint)
  && one_of (PrivateIdentity.live_session_name live) (ServiceTabs.bp_active_session_ids browser)
  && (ServiceTabs.bs_profile_id session == Some (PrivateIdentity.live_profile_id live))
  && one_of (PrivateIdentity.live_browser_id live) (ServiceTabs.bs_browser_ids session)
  && one_of tab_id (ServiceTabs.bs_tab_ids session)
  && (ServiceTabs.bt_browser_id tab == PrivateIdentity.live_browser_id live)
  && (ServiceTabs.bt_owner_session_id tab == Some (PrivateIdentity.live_session_name live))
  && is_some (ServiceTabs.profiles persisted !! PrivateIdentity.live_profile_id live).

(** The tabs that show the target in the browser. *)
Definition same_target (live : LivePrivateIdentity) (tab : ServiceTabs.BrowserTab) : bool :=
  (ServiceTabs.bt_browser_id tab == PrivateIdentity.live_browser_id live)
  && (ServiceTabs.bt_target_id tab == Some (PrivateIdentity.live_target_id live)).
Definition target_tabs (persisted : ServiceTabs.ServiceState) (live : LivePrivateIdentity) : nat :=
  length (List.filter (same_target live) (map snd (btree_entries (ServiceTabs.tabs persisted)))).

Definition unexpired (session : ServiceTabs.BrowserSession) : PM unit :=
  match ServiceTabs.bs_expires_at session with
  | Some text =>
      expiry ← sm_lift (map_err "private_lease_expiry_invalid"%string (parse_from_rfc3339 text));
      t ← now;
      if expiry <=? t then sm_err "private_lease_expired" else mret tt
  | None => mret tt
  end.

Definition validate_broker_snapshot (persisted : ServiceTabs.ServiceState) (staged : value)
    (live : LivePrivateIdentity) (connected_endpoint expected_origin expected_url : string)
    : PM ValidatedPrivateTarget :=
  let unavailable := "private_authority_unavailable"%string in
  tab_id ← sm_lift (ok_or "private_identity_incomplete"%string (jstr staged "tabId"));
  browser ← sm_lift (ok_or unavailable
    (ServiceTabs.browsers persisted !! PrivateIdentity.live_browser_id live));
  session ← sm_lift (ok_or unavailable
    (ServiceTabs.sessions persisted !! PrivateIdentity.live_session_name live));
  unexpired session ≫= fun _ =>
  tab ← sm_lift (ok_or unavailable (ServiceTabs.tabs persisted !! tab_id));
  if negb (broker_matches browser session tab persisted live tab_id connected_endpoint)
  then sm_err "private_broker_identity_mismatch" else
  if negb (target_tabs persisted live =? 1)%nat then sm_err "private_target_ambiguous" else
  handle ← sm_lift (ok_or unavailable (ServiceTabs.service_tab_handle persisted tab_id));
  authoritative ← sm_lift (map_err unavailable (to_value handle));
  sm_lift (PrivateIdentity.validate_private_target staged authoritative live
             expected_origin expected_url).

(** ** The page the daemon is attached to *)

Definition live_identity (daemon : DaemonState) (profile target url : string)
    : LivePrivateIdentity :=
  {| PrivateIdentity.live_profile_id := profile;
     PrivateIdentity.live_browser_id := fmt ["session:"; ds_session_id daemon];
     PrivateIdentity.live_session_name := ds_session_id daemon;
     PrivateIdentity.live_target_id := target; PrivateIdentity.live_url := url;
     PrivateIdentity.live_ready := true |}.

Definition probe_failed : string := "private_target_probe_failed".

Definition observe_private_target (staged : value) (expected_origin expected_url : string)
    (permit : option PrivatePermit) : PM ValidatedPrivateTarget :=
  daemon ← the_daemon;
  browser ← the_browser;
  profile ← sm_lift (ok_or "private_profile_unproven"%string (private_runtime_profile daemon));
  target ← sm_lift (map_err "private_target_unavailable"%string (active_target_id browser));
  session ← sm_lift (map_err "private_target_unavailable"%string (active_session_id browser));
  if jstr staged "targetId" != Some target then sm_err "private_identity_mismatch" else
  info ← match permit with
         | Some permit =>
             sm_map_err probe_failed
               (send_private_command permit "Target.getTargetInfo" None (Some session) 3000)
         | None =>
             within probe_failed
               (send_command_with_timeout probe_failed "Target.getTargetInfo" None (Some session))
         end;
  live_target ← sm_lift (ok_or probe_failed
    (jpointer info ["targetInfo"; "targetId"]%string ≫= as_str));
  live_url ← sm_lift (ok_or probe_failed (jpointer info ["targetInfo"; "url"]%string ≫= as_str));
  if (live_target != target)
     || ((jpointer info ["targetInfo"; "type"]%string ≫= as_str) != Some "page"%string)
  then sm_err "private_identity_mismatch" else
  persisted ← load_snapshot "private_authority_unavailable";
  validate_broker_snapshot persisted staged (live_identity daemon profile live_target live_url)
    (bm_ws_url browser) expected_origin expected_url.

Definition prepare_private_target (staged : value) (expected_origin expected_url : string)
    : PM ValidatedPrivateTarget :=
  observe_private_target staged expected_origin expected_url None.

Definition validate_permit_scope (permit : PrivatePermit) (target : ValidatedPrivateTarget)
    : res unit :=
  if (permit_target_id permit != Some (PrivateIdentity.target_id target))
     || (permit_identity_digest permit != Some (PrivateIdentity.scope_digest target))
  then Err "private_revalidation_scope_mismatch"%string else Ok tt.

Definition revalidate_private_target (staged : value) (expected_origin expected_url : string)
    (permit : PrivatePermit) : PM ValidatedPrivateTarget :=
  target ← observe_private_target staged expected_origin expected_url (Some permit);
  sm_lift (validate_permit_scope permit target) ≫= fun _ => mret target.

Definition begin_authorized_private_interval (staged : value)
    (expected_origin expected_url : string) : PM PrivatePermit :=
  target ← prepare_private_target staged expected_origin expected_url;
  permit ← begin_private_interval target;
  or_release permit (
    revalidate_private_target staged expected_origin expected_url permit ≫= fun _ => mret permit).

(** ** Advancing to the next destination *)

Definition set_tab_url (url : string) (tab : ServiceTabs.BrowserTab) : ServiceTabs.BrowserTab :=
  {| ServiceTabs.bt_id := ServiceTabs.bt_id tab;
     ServiceTabs.bt_browser_id := ServiceTabs.bt_browser_id tab;
     ServiceTabs.bt_target_id := ServiceTabs.bt_target_id tab;
     ServiceTabs.bt_session_id := ServiceTabs.bt_session_id tab;
     ServiceTabs.bt_lifecycle := ServiceTabs.bt_lifecycle tab;
     ServiceTabs.bt_url := Some url; ServiceTabs.bt_title := ServiceTabs.bt_title tab;
     ServiceTabs.bt_owner_session_id := ServiceTabs.bt_owner_session_id tab;
     ServiceTabs.bt_service_tab_handle := ServiceTabs.bt_service_tab_handle tab;
     ServiceTabs.bt_latest_snapshot_id := ServiceTabs.bt_latest_snapshot_id tab;
     ServiceTabs.bt_latest_screenshot_id := ServiceTabs.bt_latest_screenshot_id tab;
     ServiceTabs.bt_challenge_id := ServiceTabs.bt_challenge_id tab |}.

(** [permit.advance_target]: the permit it leaves is the result; on an error the
    lease is already dropped. *)
Definition permit_advance (permit : PrivatePermit) (expected_stage : nat)
    (fresh : ValidatedPrivateTarget) : PM PrivatePermit :=
  elapse ≫= fun _ => step (fun m =>
    match advance_target permit expected_stage fresh (m_world m) with
    | (Ok _, permit, w) => (Ok permit, with_world w m)
    | (Err e, _, w) => (Err e, with_world w m)
    end).

Definition advance_broker_snapshot (persisted : ServiceTabs.ServiceState)
    (live : LivePrivateIdentity) (endpoint : string) (previous next : PrivateOperation)
    (expected_stage : nat) (permit : PrivatePermit)
    : PM (ServiceTabs.ServiceState * PrivatePermit) :=
  let prior_live :=
    {| PrivateIdentity.live_profile_id := PrivateIdentity.live_profile_id live;
       PrivateIdentity.live_browser_id := PrivateIdentity.live_browser_id live;
       PrivateIdentity.live_session_name := PrivateIdentity.live_session_name live;
       PrivateIdentity.live_target_id := PrivateIdentity.live_target_id live;
       PrivateIdentity.live_url := PrivateOperation.expected_url previous;
       PrivateIdentity.live_ready := PrivateIdentity.live_ready live |} in
  prior ← validate_broker_snapshot persisted (PrivateOperation.service_tab_handle previous)
    prior_live endpoint (PrivateOperation.expected_origin previous)
    (PrivateOperation.expected_url previous);
  sm_lift (validate_permit_scope permit prior) ≫= fun _ =>
  if (PrivateOperation.consent_sha256 previous != PrivateOperation.consent_sha256 next)
     || (PrivateOperation.account_scope previous != PrivateOperation.account_scope next)
  then sm_err "private_transition_scope_mismatch" else
  tab_id ← sm_lift (ok_or "private_identity_incomplete"%string
    (jstr (PrivateOperation.service_tab_handle previous) "tabId"));
  tab ← sm_lift (ok_or "private_authority_unavailable"%string
    (ServiceTabs.tabs persisted !! tab_id));
  let candidate := ServiceTabs.with_tabs
    (<[tab_id := set_tab_url (PrivateOperation.expected_url next) tab]>
       (ServiceTabs.tabs persisted)) persisted in
  fresh ← validate_broker_snapshot candidate (PrivateOperation.service_tab_handle next)
    live endpoint (PrivateOperation.expected_origin next) (PrivateOperation.expected_url next);
  permit ← permit_advance permit expected_stage fresh;
  mret (candidate, permit).

(** [session] is what [attachment.session_id] returned. *)
Definition advance_private_target (previous next : PrivateOperation) (expected_stage : nat)
    (permit : PrivatePermit) (attached_session : PM string) : PM PrivatePermit :=
  daemon ← the_daemon;
  browser ← the_browser;
  profile ← sm_lift (ok_or "private_profile_unproven"%string (private_runtime_profile daemon));
  target ← sm_lift (map_err "private_target_unavailable"%string (active_target_id browser));
  session ← attached_session;
  info ← send_private_command permit "Target.getTargetInfo" None (Some session) 3000;
  if negb (is_page target info) then sm_err "private_identity_mismatch" else
  live_url ← sm_lift (ok_or probe_failed (jpointer info ["targetInfo"; "url"]%string ≫= as_str));
  mutate "private_transition_failed" (fun persisted =>
    advance_broker_snapshot persisted (live_identity daemon profile target live_url)
      (bm_ws_url browser) previous next expected_stage permit).

End broker.

End PrivateBroker.
