(* ===== verification/PrivateAttachment.v ===== *)
(** * The page session of a private journey

    Model of [cli/src/native/private_attachment.rs]: a flattened session attached
    under a durable admission and detached once, its identity and its detachment
    recorded in the store. *)

From S2P Require Import Prelude RustStr Env SecretFs SecretStore GateStore StoreHistory PrivacyGate PrivateCdp.
From Stdlib Require Import Ascii.
Import SecretFs SecretStore GateStore PrivacyGate PrivateCdp.

Local Open Scope Z_scope.

Module PrivateAttachment.

Definition INVALID : string := "private_attachment_invalid".
Definition FAILED : string := "private_attachment_failed".

Inductive DetachState := Attached | Uncertain | Completed.

Record PrivateAttachment := {
  at_client : nat;
  at_epoch : string;
  at_target : string;
  at_session : string;
  at_detach_reference : string;
  at_detach_payload : string;
  at_state : DetachState;
}.

Section attachment.
Context `{!Json, !Oracle, !Crypto, !Serde GateState, !UrlLib, !JsonBuild, !JsonTree, !Environment}.
Context `{!Serde Env.value}.
Local Abbreviation value := Env.value.
Local Abbreviation PM := (SM Machine).

Definition set_state (s : DetachState) (a : PrivateAttachment) : PrivateAttachment :=
  {| at_client := at_client a; at_epoch := at_epoch a; at_target := at_target a;
     at_session := at_session a; at_detach_reference := at_detach_reference a;
     at_detach_payload := at_detach_payload a; at_state := s |}.

Definition session_text (s : string) : bool :=
  negb (is_empty s) && (zlen s <=? 4096) && (trim s == s)
  && negb (existsb is_control (chars s)).

Definition detached : string := fmt ["{"; dquote; "detached"; dquote; ":true}"].

Definition admission_of (epoch target : string) : value :=
  jobject [("schema", jstring "private-attachment-admission.v1"); ("epoch", jstring epoch);
           ("targetId", jstring target)]%string.
Definition identity_of (epoch target session : string) : value :=
  jobject [("schema", jstring "private-attachment-identity.v1"); ("epoch", jstring epoch);
           ("targetId", jstring target); ("sessionId", jstring session)]%string.
Definition detach_of (reference epoch target session : string) : value :=
  jobject [("schema", jstring "private-attachment-detach.v1");
           ("attachmentReference", jstring reference); ("epoch", jstring epoch);
           ("targetId", jstring target); ("sessionId", jstring session)]%string.

Definition acquire (store : SecretStore) (permit : PrivatePermit) : PM PrivateAttachment :=
  client ← the_client;
  ok ← private_permit_matches permit;
  if negb ok then sm_err INVALID else
  target ← sm_lift (ok_or INVALID (permit_target_id permit));
  let epoch := p_epoch permit in
  admission ← sm_lift (ok_or INVALID (to_vec (admission_of epoch target)));
  reference ← on_files (stage store admission);
  on_files (admit_ store reference) ≫= fun _ =>
  attached ← send_private_command permit "Target.attachToTarget"
    (Some (jobject [("targetId", jstring target); ("flatten", jbool true)]%string)) None 3000;
  session ← sm_lift (match jstr attached "sessionId" with
                     | Some s => if session_text s then Ok s else Err FAILED
                     | None => Err FAILED
                     end);
  send_private_command permit "Target.getTargetInfo" None (Some session) 3000 ≫= fun _ =>
  identity ← sm_lift (ok_or FAILED (to_vec (identity_of epoch target session)));
  on_files (store_result store reference identity) ≫= fun _ =>
  detach_payload ← sm_lift (ok_or FAILED (to_vec (detach_of reference epoch target session)));
  detach_reference ← on_files (stage store detach_payload);
  mret {| at_client := cl_address client; at_epoch := epoch; at_target := target;
          at_session := session; at_detach_reference := detach_reference;
          at_detach_payload := detach_payload; at_state := Attached |}.

(** [self.validate(client, permit)]; the client is the one of the daemon. *)
Definition validate (self : PrivateAttachment) (permit : PrivatePermit) : PM unit :=
  client ← the_client;
  if negb (at_client self =? cl_address client)%nat then sm_err INVALID else
  ok ← private_permit_matches permit;
  if negb ok || (p_epoch permit != at_epoch self)
     || (permit_target_id permit != Some (at_target self))
  then sm_err INVALID else mret tt.

Definition session_id (self : PrivateAttachment) (permit : PrivatePermit) : PM string :=
  validate self permit ≫= fun _ =>
  match at_state self with
  | Attached => mret (at_session self)
  | _ => sm_err "private_attachment_not_attached"
  end.

Definition verify_closed_detach (self : PrivateAttachment) (permit : PrivatePermit)
    (closed : PrivateTransportClosed) (store : SecretStore) : PM unit :=
  client ← the_client;
  if negb (at_client self =? cl_address client)%nat || (p_epoch permit != at_epoch self)
     || (permit_target_id permit != Some (at_target self))
  then sm_err INVALID else
  ok ← closed_matches closed permit;
  if negb ok || match at_state self with Completed => false | _ => true end
  then sm_err INVALID else
  payload ← on_files (load store (at_detach_reference self));
  if payload != at_detach_payload self then sm_err INVALID else
  result ← on_files (load_result store (at_detach_reference self));
  if result != detached then sm_err INVALID else mret tt.

(** The part of [detach] that runs with [self.state] uncertain. *)
Definition detach_once (self : PrivateAttachment) (store : SecretStore) (permit : PrivatePermit)
    : PM unit :=
  on_files (admit_ store (at_detach_reference self)) ≫= fun _ =>
  response ← send_private_command permit "Target.detachFromTarget"
    (Some (jobject [("sessionId", jstring (at_session self))]%string)) None 3000;
  if response != jobject [] then sm_err "private_detach_ack_invalid" else
  on_files (store_result store (at_detach_reference self) detached).

Definition check_payload (self : PrivateAttachment) (store : SecretStore) : PM unit :=
  payload ← on_files (load store (at_detach_reference self));
  if payload != at_detach_payload self then sm_err INVALID else mret tt.

(** The result next to the object it leaves ([&mut self]). *)
Definition detach (self : PrivateAttachment) (store : SecretStore) (permit : PrivatePermit)
    : PM (res unit * PrivateAttachment) :=
  r ← sm_try (validate self permit);
  match r with
  | Err e => mret (Err e, self)
  | Ok _ =>
      match at_state self with
      | Completed => mret (Ok tt, self)
      | Uncertain => mret (Err "private_detach_uncertain"%string, self)
      | Attached =>
          r ← sm_try (check_payload self store);
          match r with
          | Err e => mret (Err e, self)
          | Ok _ =>
              r ← sm_try (detach_once self store permit);
              mret (r, set_state (match r with Ok _ => Completed | Err _ => Uncertain end) self)
          end
      end
  end.

End attachment.

End PrivateAttachment.
