(* ===== verification/PrivateExecution.v ===== *)
(** * Execution of one private operation

    Model of [cli/src/native/private_execution.rs] and of the origin guard of
    [cli/src/native/private_identity.rs]: the admission of a staged operation, the
    commands that execute it in an isolated world of the page, and what counts as
    its result. *)

From S2P Require Import Prelude RustStr Env SecretFs SecretStore GateStore StoreHistory PrivateIdentity PrivacyGate PrivateOperation ServiceTabs PrivateCdp PrivateBroker PrivateAttachment.
From Stdlib Require Import Ascii.
Import SecretFs SecretStore GateStore PrivacyGate PrivateCdp PrivateBroker.

Local Open Scope Z_scope.

Module PrivateExecution.

(** Neither outcome proves more than that the page was told. *)
Inductive PrivateStepOutcome := DispatchAttempted | ResultStored.
#[global] Instance PrivateStepOutcome_eq_dec : EqDecision PrivateStepOutcome.
Proof. solve_decision. Defined.

Definition failed : string := "private_execution_failed".

(** ** The script

    The text around the guard and the data of an operation. *)

Definition script_head : string :=
  "(() => {
      const guard = () => { ".

Definition script_body : string :=
  " };
      guard();
      const data = ".

Definition script_tail : string :=
  ";
      const fail = () => { throw new Error('private_execution_failed'); };
      const one = selector => {
        const nodes = document.querySelectorAll(selector);
        if (nodes.length !== 1 || !nodes[0].isConnected) fail();
        return nodes[0];
      };
      const visible = node => {
        const style = getComputedStyle(node);
        if (!node.getClientRects().length || style.visibility !== 'visible' || style.display === 'none') fail();
      };
      const account = () => {
        if (data.account) {
          const node = one(data.account);
          visible(node);
          const value = node instanceof HTMLInputElement ? node.value : node.textContent;
          if (value.trim() !== data.accountValue) fail();
        }
      };
      account();
      if (data.kind === 'read') {
        const node = one(data.selector);
        const key = (node instanceof HTMLInputElement ? node.value : node.textContent).trim();
        if (!/^[A-Za-z0-9_-]{16,4096}$/.test(key)) fail();
        guard(); account();
        return {key};
      }
      const button = one(data.submit);
      visible(button);
      if (!(button instanceof HTMLButtonElement || button instanceof HTMLInputElement) || button.disabled) fail();
      const form = button.form;
      const retainedTarget = () => {
        const safe = target => !target || target.toLowerCase() === '_self';
        if ([...document.querySelectorAll('base[target]')].some(base => !safe(base.getAttribute('target')))) return false;
        return safe(button.hasAttribute('formtarget') ? button.formTarget : form?.target);
      };
      const formSafe = () => button.type === 'submit' && button.form === form
        && (button.hasAttribute('formmethod') ? button.formMethod : form.method).toLowerCase() === 'post'
        && new URL(button.hasAttribute('formaction') ? button.formAction : form.action, location.href).origin === location.origin
        && retainedTarget();
      // Form-backed renewals obey the same destination restrictions. A reviewed
      // SPA renewal control must be a real non-submit button without a form.
      const submitSafe = () => form instanceof HTMLFormElement ? formSafe()
        : data.kind === 'renew' && !button.form && button.type === 'button' && retainedTarget();
      if (!submitSafe()) fail();
      if (data.kind !== 'renew') {
        if (!(form instanceof HTMLFormElement) || !formSafe()) fail();
        const fields = data.fields.map(([selector,value]) => {
          const node = one(selector);
          visible(node);
          if (!(node instanceof HTMLInputElement) || node.disabled || node.readOnly || node.form !== form) fail();
          return [node,value];
        });
        if (new Set(fields.map(([node]) => node)).size !== fields.length) fail();
        if (data.kind === 'login' && (fields[1][0].type !== 'password'
            || !['email','text'].includes(fields[0][0].type))) fail();
        if (data.kind === 'backup' && !['text','tel','password'].includes(fields[0][0].type)) fail();
        const setter = Object.getOwnPropertyDescriptor(HTMLInputElement.prototype,'value').set;
        for (const [node,value] of fields) {
          guard(); account();
          if (!node.isConnected || node.form !== form) fail();
          setter.call(node,value);
          node.dispatchEvent(new Event('input',{bubbles:true}));
          node.dispatchEvent(new Event('change',{bubbles:true}));
        }
        guard(); account();
        if (!formSafe()
            || fields.some(([node,value]) => !node.isConnected || node.form !== form || node.value !== value)) fail();
      }
      guard(); account();
      if (!button.isConnected || button.disabled || !submitSafe()) fail();
      HTMLElement.prototype.click.call(button);
      return {dispatch_attempted:true};
    })()".

Section execution.
Context `{!Json, !Oracle, !Crypto, !Serde GateState, !UrlLib, !JsonBuild, !JsonTree, !Environment}.
Context `{!Chrono, !Serde (list Scalar), !SerdeValue ServiceTabs.ServiceTabHandle}.
Context `{!Serde Env.value, !Serde PrivateOperation.PrivateOperation}.
Local Abbreviation value := Env.value.
Local Abbreviation PM := (SM Machine).
Local Abbreviation PrivateOperation := PrivateOperation.PrivateOperation.

(** [PrivateOperation::parse(&bytes)] *)
Definition parse_operation (payload : string) : res PrivateOperation :=
  PrivateOperation.parse from_slice payload.

Definition top_level_origin_guard (expected_origin expected_url : string) : res string :=
  canonical ← PrivateIdentity.checked_destination expected_origin expected_url;
  origin ← ok_or "private_url_invalid"%string (to_vec (jstring expected_origin));
  url ← ok_or "private_url_invalid"%string (to_vec (jstring canonical));
  Ok (fmt ["if (globalThis !== globalThis.top || location.origin !== "; origin;
           " || location.href !== "; url;
           ") { throw new Error('private_destination_mismatch'); }"]%string).

Definition pair_of (a b : string) : value := jarray [jstring a; jstring b].

Definition script_data (operation : PrivateOperation) : value :=
  match PrivateOperation.operation operation with
  | PrivateOperation.Login email_selector password_selector submit_selector email password =>
      jobject [("kind", jstring "login");
               ("fields", jarray [pair_of email_selector email;
                                  pair_of password_selector password]);
               ("submit", jstring submit_selector)]%string
  | PrivateOperation.BackupCode code_selector submit_selector account_selector account_value
      code _ =>
      jobject [("kind", jstring "backup"); ("fields", jarray [pair_of code_selector code]);
               ("submit", jstring submit_selector); ("account", jstring account_selector);
               ("accountValue", jstring account_value)]%string
  | PrivateOperation.Renew submit_selector account_selector account_value =>
      jobject [("kind", jstring "renew"); ("submit", jstring submit_selector);
               ("account", jstring account_selector);
               ("accountValue", jstring account_value)]%string
  | PrivateOperation.ReadKey selector account_selector account_value =>
      jobject [("kind", jstring "read"); ("selector", jstring selector);
               ("account", jstring account_selector);
               ("accountValue", jstring account_value)]%string
  end.

(** Only the private transport may carry this string; it contains secrets. *)
Definition expression (operation : PrivateOperation) : res string :=
  guard ← top_level_origin_guard (PrivateOperation.expected_origin operation)
            (PrivateOperation.expected_url operation);
  data ← ok_or failed (to_vec (script_data operation));
  Ok (fmt [script_head; guard; script_body; data; script_tail]).

(** ** The commands *)

Definition is_key_byte (b : ascii) : bool :=
  is_ascii_alphanumeric b || Ascii.eqb b "_" || Ascii.eqb b "-".
Definition key_text (key : string) : bool :=
  (16 <=? zlen key) && (zlen key <=? 4096) && bytes_all is_key_byte key.

Definition reads_key (operation : PrivateOperation) : bool :=
  match PrivateOperation.operation operation with
  | PrivateOperation.ReadKey _ _ _ => true
  | _ => false
  end.

(** What the page may answer. *)
Definition accept_value (operation : PrivateOperation) (v : value) : res unit :=
  if reads_key operation then
    key ← ok_or failed (jstr v "key");
    if negb (key_text key) || (object_len v != Some 1%nat) then Err failed else Ok tt
  else if v != jobject [("dispatch_attempted", jbool true)]%string then Err failed else Ok tt.

Definition evaluate_params (context : Z) (script : string) : value :=
  jobject [("contextId", jnumber context); ("returnByValue", jbool true);
           ("awaitPromise", jbool false); ("expression", jstring script)]%string.

Definition execute_dom (permit : PrivatePermit) (session : string) (operation : PrivateOperation)
    : PM value :=
  tree ← send_private_command permit "Page.getFrameTree" None (Some session) 3000;
  frame ← sm_lift (ok_or failed (jpointer tree ["frameTree"; "frame"]%string));
  if is_some (jget frame "parentId")
     || (jstr frame "url" != Some (PrivateOperation.expected_url operation))
  then sm_err failed else
  frame_id ← sm_lift (ok_or failed (jstr frame "id"));
  world ← send_private_command permit "Page.createIsolatedWorld"
    (Some (jobject [("frameId", jstring frame_id);
                    ("worldName", jstring "agent-browser-private-operation")]%string))
    (Some session) 3000;
  context ← sm_lift (match jget world "executionContextId" ≫= as_i64 with
                     | Some id => if 0 <? id then Ok id else Err failed
                     | None => Err failed
                     end);
  script ← sm_lift (expression operation);
  result ← send_private_command permit "Runtime.evaluate"
    (Some (evaluate_params context script)) (Some session) 3000;
  if is_some (jget result "exceptionDetails") then sm_err failed else
  v ← sm_lift (ok_or failed (jpointer result ["result"; "value"]%string));
  sm_lift (accept_value operation v) ≫= fun _ => mret v.

(** Admission precedes every command of the operation. *)
Definition reserve_operation (store : SecretStore) (reference : string)
    (operation : PrivateOperation) : PM unit :=
  match PrivateOperation.operation operation with
  | PrivateOperation.BackupCode _ _ _ _ code source_scope =>
      on_files (reserve_backup_code store reference (PrivateOperation.consent_sha256 operation)
                  (PrivateOperation.account_scope operation) source_scope code)
  | _ => mret tt
  end.

Definition execute_staged_dom (permit : PrivatePermit) (session : string) (store : SecretStore)
    (reference : string) (operation : PrivateOperation) : PM PrivateStepOutcome :=
  reserve_operation store reference operation ≫= fun _ =>
  on_files (admit_ store reference) ≫= fun _ =>
  result ← within failed (execute_dom permit session operation);
  bytes ← sm_lift (ok_or failed (to_vec result));
  on_files (store_result store reference bytes) ≫= fun _ =>
  mret (if reads_key operation then ResultStored else DispatchAttempted).

Definition execute_private_operation (store : SecretStore) (reference : string)
    (permit : PrivatePermit) (attachment : PrivateAttachment.PrivateAttachment)
    : PM PrivateStepOutcome :=
  payload ← on_files (load store reference);
  operation ← sm_lift (parse_operation payload);
  revalidate_private_target (PrivateOperation.service_tab_handle operation)
    (PrivateOperation.expected_origin operation) (PrivateOperation.expected_url operation) permit
    ≫= fun _ =>
  the_browser ≫= fun _ =>
  session ← PrivateAttachment.session_id attachment permit;
  execute_staged_dom permit session store reference operation.

End execution.

End PrivateExecution.
