(* ===== verification/PrivateRecovery.v ===== *)
(** * Offline recovery of a reconciliation

    Model of [cli/src/native/private_recovery.rs] and
    [cli/src/native/private_controller.rs]: an independent journal retains the
    digest of a reconciliation intent before it is admitted, and an admitted intent
    can be completed after a crash without a browser. *)

From S2P Require Import Prelude RustStr Env SecretFs SecretStore GateStore StoreHistory PrivateIdentity PrivacyGate PrivateOperation ServiceTabs PrivateCdp PrivateBroker PrivateAttachment PrivateExecution.
From Stdlib Require Import Ascii.
From stdpp Require Import gmap.
Import SecretFs SecretStore GateStore PrivacyGate PrivateCdp PrivateBroker PrivateExecution.

Local Open Scope Z_scope.

Module PrivateRecovery.

Definition FAILED : string := "private_recovery_failed_closed".
Definition CONTROLLER_FAILED : string := "private_controller_failed_closed".
Definition SCHEMA : string := "private-controller-authority.v1".
Definition COMPLETED : string :=
  fmt ["{"; dquote; "reconciled"; dquote; ":true,"; dquote; "privacyReleased"; dquote; ":false}"].

Record RecoveryAuthority := {
  ra_intent_sha256 : string;
  ra_endpoint : string;
  ra_epoch : string;
  ra_session_name : string;
}.

Record RecoveredReconciliation := {
  rr_permit : PrivatePermit;
  rr_reconciliation_reference : string;
}.

Record Detach := {
  dt_schema : string;
  dt_attachment_reference : string;
  dt_epoch : string;
  dt_target_id : string;
  dt_session_id : string;
}.
Record AttachmentAdmission := { aa_schema : string; aa_epoch : string; aa_target_id : string }.
Record AttachmentIdentity := {
  ai_schema : string;
  ai_epoch : string;
  ai_target_id : string;
  ai_session_id : string;
}.
Record AuthorityRecord := {
  ar_schema : string;
  ar_epoch : string;
  ar_reference : string;
  ar_intent_sha256 : string;
  ar_endpoint : string;
  ar_session_name : string;
}.

(** [RecoveryController] *)
Record RecoveryController := {
  rc_journal : SecretStore;
  rc_endpoint : string;
  rc_session_name : string;
}.

Section recovery.
Context `{!Json, !Oracle, !Crypto, !Serde GateState, !UrlLib, !JsonBuild, !JsonTree, !Environment}.
Context `{!Chrono, !Serde (list Scalar), !SerdeValue ServiceTabs.ServiceTabHandle}.
Context `{!Serde Env.value, !Serde PrivateOperation.PrivateOperation, !Serde AuthorityRecord}.
Local Abbreviation value := Env.value.
Local Abbreviation PM := (SM Machine).
Local Abbreviation PrivateOperation := PrivateOperation.PrivateOperation.
Local Abbreviation LivePrivateIdentity := PrivateIdentity.LivePrivateIdentity.

Record Intent := {
  it_schema : string;
  it_epoch : string;
  it_scope_digest : string;
  it_profile_id : string;
  it_browser_id : string;
  it_session_name : string;
  it_target_id : string;
  it_tab_id : string;
  it_endpoint : string;
  it_result_reference : string;
  it_prior_handle : value;
  it_sanitized_url : string;
  it_detach_reference : string;
}.

(** The derived deserializers of the records read during a recovery. *)
Class RecoveryFormats := {
  read_intent : string -> option Intent;
  read_detach : string -> option Detach;
  read_admission : string -> option AttachmentAdmission;
  read_identity : string -> option AttachmentIdentity;
}.
Context `{!RecoveryFormats}.

(** ** The detachment on record *)

Definition session_unusable (session : string) : bool :=
  is_empty session || (4096 <? zlen session) || (trim session != session)
  || existsb is_control (chars session).

Definition verify_detach (store : SecretStore) (intent : Intent) : PM unit :=
  st ← on_files (status store (it_detach_reference intent));
  if st != "result_ready"%string then sm_err FAILED else
  result ← on_files (load_result store (it_detach_reference intent));
  if result != PrivateAttachment.detached then sm_err FAILED else
  bytes ← on_files (load store (it_detach_reference intent));
  detach ← sm_lift (ok_or FAILED (read_detach bytes));
  if (dt_schema detach != "private-attachment-detach.v1"%string)
     || (dt_epoch detach != it_epoch intent) || (dt_target_id detach != it_target_id intent)
     || session_unusable (dt_session_id detach)
  then sm_err FAILED else
  st ← on_files (status store (dt_attachment_reference detach));
  if st != "result_ready"%string then sm_err FAILED else
  bytes ← on_files (load store (dt_attachment_reference detach));
  admission ← sm_lift (ok_or FAILED (read_admission bytes));
  bytes ← on_files (load_result store (dt_attachment_reference detach));
  identity ← sm_lift (ok_or FAILED (read_identity bytes));
  if (aa_schema admission != "private-attachment-admission.v1"%string)
     || (ai_schema identity != "private-attachment-identity.v1"%string)
     || (aa_epoch admission != it_epoch intent) || (ai_epoch identity != it_epoch intent)
     || (aa_target_id admission != it_target_id intent)
     || (ai_target_id identity != it_target_id intent)
     || (ai_session_id identity != dt_session_id detach)
  then sm_err FAILED else mret tt.

(** ** The service state *)

(** What a reconciliation leaves of the tab and of the browser. *)
Definition sanitized_tab (tab : ServiceTabs.BrowserTab) : ServiceTabs.BrowserTab :=
  {| ServiceTabs.bt_id := ServiceTabs.bt_id tab;
     ServiceTabs.bt_browser_id := ServiceTabs.bt_browser_id tab;
     ServiceTabs.bt_target_id := ServiceTabs.bt_target_id tab;
     ServiceTabs.bt_session_id := ServiceTabs.bt_session_id tab;
     ServiceTabs.bt_lifecycle := ServiceTabs.TabUnknown;
     ServiceTabs.bt_url := Some about_blank; ServiceTabs.bt_title := None;
     ServiceTabs.bt_owner_session_id := ServiceTabs.bt_owner_session_id tab;
     ServiceTabs.bt_service_tab_handle := None; ServiceTabs.bt_latest_snapshot_id := None;
     ServiceTabs.bt_latest_screenshot_id := None;
     ServiceTabs.bt_challenge_id := ServiceTabs.bt_challenge_id tab |}.
Definition set_health (h : ServiceTabs.BrowserHealth) (b : ServiceTabs.BrowserProcess)
    : ServiceTabs.BrowserProcess :=
  {| ServiceTabs.bp_id := ServiceTabs.bp_id b;
     ServiceTabs.bp_profile_id := ServiceTabs.bp_profile_id b; ServiceTabs.bp_health := h;
     ServiceTabs.bp_cdp_endpoint := ServiceTabs.bp_cdp_endpoint b;
     ServiceTabs.bp_active_session_ids := ServiceTabs.bp_active_session_ids b;
     ServiceTabs.bp_tab_handles := ServiceTabs.bp_tab_handles b |}.

(** [get_mut(..).ok_or(error)?] of the tab and of the browser. *)
Definition sanitize_state (error tab_id browser_id : string) (s : ServiceTabs.ServiceState)
    : res ServiceTabs.ServiceState :=
  tab ← ok_or error (ServiceTabs.tabs s !! tab_id);
  browser ← ok_or error (ServiceTabs.browsers s !! browser_id);
  Ok (ServiceTabs.with_browsers
        (<[browser_id := set_health ServiceTabs.CdpDisconnected browser]> (ServiceTabs.browsers s))
        (ServiceTabs.with_tabs (<[tab_id := sanitized_tab tab]> (ServiceTabs.tabs s)) s)).

(** The sanitized tab as a repository load shows it. *)
Definition shows_sanitized (tab : ServiceTabs.BrowserTab) : bool :=
  (ServiceTabs.bt_lifecycle tab == ServiceTabs.TabUnknown)
  && (ServiceTabs.bt_url tab == Some about_blank)
  && negb (is_some (ServiceTabs.bt_title tab))
  && match ServiceTabs.bt_service_tab_handle tab with
     | Some handle => negb (ServiceTabs.th_valid handle)
     | None => true
     end
  && negb (is_some (ServiceTabs.bt_latest_snapshot_id tab))
  && negb (is_some (ServiceTabs.bt_latest_screenshot_id tab)).

(** The tab before it was sanitized. *)
Definition historical_tab (url : string) (tab : ServiceTabs.BrowserTab)
    : ServiceTabs.BrowserTab :=
  {| ServiceTabs.bt_id := ServiceTabs.bt_id tab;
     ServiceTabs.bt_browser_id := ServiceTabs.bt_browser_id tab;
     ServiceTabs.bt_target_id := ServiceTabs.bt_target_id tab;
     ServiceTabs.bt_session_id := ServiceTabs.bt_session_id tab;
     ServiceTabs.bt_lifecycle := ServiceTabs.TabReady; ServiceTabs.bt_url := Some url;
     ServiceTabs.bt_title := ServiceTabs.bt_title tab;
     ServiceTabs.bt_owner_session_id := ServiceTabs.bt_owner_session_id tab;
     ServiceTabs.bt_service_tab_handle := ServiceTabs.bt_service_tab_handle tab;
     ServiceTabs.bt_latest_snapshot_id := ServiceTabs.bt_latest_snapshot_id tab;
     ServiceTabs.bt_latest_screenshot_id := ServiceTabs.bt_latest_screenshot_id tab;
     ServiceTabs.bt_challenge_id := ServiceTabs.bt_challenge_id tab |}.

(** The [match browser.health]: the state the broker comparison is made on. *)
Definition historical_state (intent : Intent) (operation : PrivateOperation) (completed : bool)
    (persisted : ServiceTabs.ServiceState) : res ServiceTabs.ServiceState :=
  browser ← ok_or FAILED (ServiceTabs.browsers persisted !! it_browser_id intent);
  tab ← ok_or FAILED (ServiceTabs.tabs persisted !! it_tab_id intent);
  if (ServiceTabs.bp_health browser == ServiceTabs.Ready)
     && (ServiceTabs.bt_lifecycle tab == ServiceTabs.TabReady)
  then if completed then Err FAILED else Ok persisted
  else if (ServiceTabs.bp_health browser == ServiceTabs.CdpDisconnected) && shows_sanitized tab
  then Ok (ServiceTabs.with_browsers
             (<[it_browser_id intent := set_health ServiceTabs.Ready browser]>
                (ServiceTabs.browsers persisted))
             (ServiceTabs.with_tabs
                (<[it_tab_id intent :=
                     historical_tab (PrivateOperation.expected_url operation) tab]>
                   (ServiceTabs.tabs persisted)) persisted))
  else Err FAILED.

Definition historical_identity (intent : Intent) (operation : PrivateOperation)
    : LivePrivateIdentity :=
  {| PrivateIdentity.live_profile_id := it_profile_id intent;
     PrivateIdentity.live_browser_id := it_browser_id intent;
     PrivateIdentity.live_session_name := it_session_name intent;
     PrivateIdentity.live_target_id := it_target_id intent;
     PrivateIdentity.live_url := PrivateOperation.expected_url operation;
     PrivateIdentity.live_ready := true |}.

(** The closure of [try_mutate_durable]. *)
Definition reconcile_state (intent : Intent) (operation : PrivateOperation) (completed : bool)
    (persisted : ServiceTabs.ServiceState) : PM (ServiceTabs.ServiceState * unit) :=
  historical ← sm_lift (historical_state intent operation completed persisted);
  validated ← validate_broker_snapshot historical (it_prior_handle intent)
    (historical_identity intent operation) (it_endpoint intent)
    (PrivateOperation.expected_origin operation) (PrivateOperation.expected_url operation);
  if PrivateIdentity.scope_digest validated != it_scope_digest intent then sm_err FAILED else
  s ← sm_lift (sanitize_state FAILED (it_tab_id intent) (it_browser_id intent) persisted);
  mret (s, tt).

(** ** Recovery *)

(** The intent agrees with the independent authority and is the bookmarked one. *)
Definition check_intent (store : SecretStore) (reference : string) (authority : RecoveryAuthority)
    : PM Intent :=
  bytes ← on_files (load store reference);
  if hex_encode (sha256 bytes) != ra_intent_sha256 authority then sm_err FAILED else
  intent ← sm_lift (ok_or FAILED (read_intent bytes));
  if (it_schema intent != "private-reconciliation.v2"%string)
     || (it_endpoint intent != ra_endpoint authority) || (it_epoch intent != ra_epoch authority)
     || (it_session_name intent != ra_session_name authority)
     || (it_browser_id intent != fmt ["session:"; ra_session_name authority])
     || (it_sanitized_url intent != about_blank)
  then sm_err FAILED else
  bookmark ← on_files (reconciliation_reference store (ra_epoch authority));
  if bookmark != reference then sm_err FAILED else mret intent.

(** Whether the intent is already completed; it must be admitted. *)
Definition check_status (store : SecretStore) (reference : string) : PM bool :=
  st ← on_files (status store reference);
  if st == "admitted"%string then mret false else
  if st == "result_ready"%string then
    result ← on_files (load_result store reference);
    if result == COMPLETED then mret true else sm_err FAILED
  else sm_err FAILED.

Definition check_operation (store : SecretStore) (intent : Intent) : PM PrivateOperation :=
  payload ← on_files (load store (it_result_reference intent));
  operation ← sm_lift (parse_operation payload);
  if negb (reads_key operation)
     || (PrivateOperation.service_tab_handle operation != it_prior_handle intent)
     || (jstr (it_prior_handle intent) "tabId" != Some (it_tab_id intent))
  then sm_err FAILED else
  st ← on_files (status store (it_result_reference intent));
  if st != "result_ready"%string then sm_err FAILED else
  on_files (load_result store (it_result_reference intent)) ≫= fun _ =>
  expected ← sm_lift (PrivateIdentity.validate_private_target (it_prior_handle intent)
    (it_prior_handle intent) (historical_identity intent operation)
    (PrivateOperation.expected_origin operation) (PrivateOperation.expected_url operation));
  if PrivateIdentity.scope_digest expected != it_scope_digest intent
  then sm_err FAILED else mret operation.

Definition permit_of_intent (permit : PrivatePermit) (intent : Intent) : bool :=
  (p_epoch permit == it_epoch intent)
  && (permit_target_id permit == Some (it_target_id intent))
  && (permit_identity_digest permit == Some (it_scope_digest intent))
  && (permit_journey_stage permit == Some 3%nat).

Definition recover (store : SecretStore) (reference : string) (authority : RecoveryAuthority)
    : PM RecoveredReconciliation :=
  intent ← check_intent store reference authority;
  completed ← check_status store reference;
  operation ← check_operation store intent;
  verify_detach store intent ≫= fun _ =>
  gate ← on_files (for_endpoint e_pid e_var_os (ra_endpoint authority));
  permit ← on_files (resume_private gate);
  or_release permit (
    if negb (permit_of_intent permit intent) then sm_err FAILED else
    mutate FAILED (reconcile_state intent operation completed) ≫= fun _ =>
    (if (completed : bool) return PM unit then mret tt
     else on_files (store_result store reference COMPLETED)) ≫= fun _ =>
    mret {| rr_permit := permit; rr_reconciliation_reference := reference |}).

Definition recover_reconciliation (store : SecretStore) (reference : string)
    (authority : RecoveryAuthority) : PM RecoveredReconciliation :=
  sm_map_err FAILED (recover store reference authority).

(** ** The controller *)

Definition valid_hex (v : string) : bool := (zlen v =? 64) && bytes_all is_lower_hex v.

Definition controller_new (journal : SecretStore) (endpoint session_name : string)
    : res RecoveryController :=
  if is_empty endpoint || is_empty session_name || existsb is_control (chars endpoint)
     || existsb is_control (chars session_name)
  then Err CONTROLLER_FAILED
  else Ok {| rc_journal := journal; rc_endpoint := endpoint; rc_session_name := session_name |}.

Definition validate_scope (self : RecoveryController) (operation_store : SecretStore)
    (endpoint session_name : string) : PM unit :=
  if (endpoint != rc_endpoint self) || (session_name != rc_session_name self)
  then sm_err CONTROLLER_FAILED else
  same ← sm_map_err CONTROLLER_FAILED (on_files (same_directory operation_store (rc_journal self)));
  if (same : bool) then sm_err CONTROLLER_FAILED else mret tt.

Definition retain (self : RecoveryController) (operation_store : SecretStore)
    (epoch reference intent_sha256 : string) : PM unit :=
  sm_map_err CONTROLLER_FAILED (
    if negb (valid_hex epoch) || negb (valid_hex reference) || negb (valid_hex intent_sha256)
    then sm_err CONTROLLER_FAILED else
    same ← on_files (same_directory operation_store (rc_journal self));
    if (same : bool) then sm_err CONTROLLER_FAILED else
    st ← on_files (status operation_store reference);
    if st != "staged"%string then sm_err CONTROLLER_FAILED else
    bookmark ← on_files (reconciliation_reference operation_store epoch);
    if bookmark != reference then sm_err CONTROLLER_FAILED else
    payload ← on_files (load operation_store reference);
    if hex_encode (sha256 payload) != intent_sha256 then sm_err CONTROLLER_FAILED else
    bytes ← sm_lift (ok_or CONTROLLER_FAILED (to_vec
      {| ar_schema := SCHEMA; ar_epoch := epoch; ar_reference := reference;
         ar_intent_sha256 := intent_sha256; ar_endpoint := rc_endpoint self;
         ar_session_name := rc_session_name self |}));
    authority_reference ← on_files (stage (rc_journal self) bytes);
    on_files (bind_reconciliation (rc_journal self) epoch authority_reference)).

Definition load_authority (self : RecoveryController) (epoch : string) : PM AuthorityRecord :=
  if negb (valid_hex epoch) then sm_err CONTROLLER_FAILED else
  reference ← on_files (reconciliation_reference (rc_journal self) epoch);
  bytes ← on_files (load (rc_journal self) reference);
  record ← sm_lift (ok_or CONTROLLER_FAILED (from_slice bytes));
  if (ar_schema record != SCHEMA) || (ar_epoch record != epoch)
     || (ar_endpoint record != rc_endpoint self)
     || (ar_session_name record != rc_session_name self)
     || negb (valid_hex (ar_reference record)) || negb (valid_hex (ar_intent_sha256 record))
  then sm_err CONTROLLER_FAILED else mret record.

Definition controller_recover (self : RecoveryController) (operation_store : SecretStore)
    (epoch : string) : PM RecoveredReconciliation :=
  sm_map_err CONTROLLER_FAILED (
    same ← on_files (same_directory operation_store (rc_journal self));
    if (same : bool) then sm_err CONTROLLER_FAILED else
    record ← load_authority self epoch;
    recover_reconciliation operation_store (ar_reference record)
      {| ra_intent_sha256 := ar_intent_sha256 record; ra_endpoint := ar_endpoint record;
         ra_epoch := ar_epoch record; ra_session_name := ar_session_name record |}).

End recovery.

End PrivateRecovery.
