(* ===== verification/PrivateJourney.v ===== *)
(** * Private journeys

    Model of [cli/src/native/private_journey.rs]: the structural validation of a
    four-stage sequence, its ordered execution under one private interval, the
    sanitization of the page, and the durable reconciliation of the service state.
    What each stage hands to the next is a value only that stage makes; dropping
    it releases the permit's lease and leaves the interval closed. *)

From S2P Require Import Prelude RustStr Env SecretFs SecretStore GateStore StoreHistory PrivateIdentity PrivacyGate PrivateOperation ServiceTabs PrivateCdp PrivateBroker PrivateAttachment PrivateExecution PrivateRecovery.
From Stdlib Require Import Ascii.
From stdpp Require Import gmap.
Import SecretFs SecretStore GateStore PrivacyGate PrivateCdp PrivateBroker PrivateExecution.

Local Open Scope Z_scope.

Module PrivateJourney.

Definition INVALID : string := "private_journey_invalid".
Definition RECONCILIATION_FAILED : string := "private_reconciliation_failed_closed".

Record PrivateJourneyPendingCleanup := {
  pc_permit : PrivatePermit;
  pc_result_reference : string;
  pc_attachment : PrivateAttachment.PrivateAttachment;
}.

Record PrivateJourneyPendingReconciliation := {
  pr_permit : PrivatePermit;
  pr_result_reference : string;
  pr_transport_closed : PrivateTransportClosed;
  pr_attachment : PrivateAttachment.PrivateAttachment;
}.

(** [D] is what [bind_delivery] attaches: a store and a bound execution. *)
Record ReconciledPrivateJourney (D : Type) := {
  rj_pending : PrivateJourneyPendingReconciliation;
  rj_reconciliation_reference : string;
  rj_delivery : option D;
}.
Arguments rj_pending {D} _.
Arguments rj_reconciliation_reference {D} _.
Arguments rj_delivery {D} _.

Section journey.
Context `{!Json, !Oracle, !Crypto, !Serde GateState, !UrlLib, !JsonBuild, !JsonTree, !Environment}.
Context `{!Chrono, !Serde (list Scalar), !SerdeValue ServiceTabs.ServiceTabHandle}.
Context `{!Serde Env.value, !Serde PrivateOperation.PrivateOperation}.
Context `{!Serde PrivateRecovery.AuthorityRecord}.
Local Abbreviation value := Env.value.
Local Abbreviation PM := (SM Machine).
Local Abbreviation PrivateOperation := PrivateOperation.PrivateOperation.
Local Abbreviation PrivateAttachment := PrivateAttachment.PrivateAttachment.

(** ** The sequence *)

(** The kinds of operation in the order of a journey. *)
Definition stage_of (op : PrivateOperation) : nat :=
  match PrivateOperation.operation op with
  | PrivateOperation.Login _ _ _ _ _ => 0
  | PrivateOperation.BackupCode _ _ _ _ _ _ => 1
  | PrivateOperation.Renew _ _ _ => 2
  | PrivateOperation.ReadKey _ _ _ => 3
  end.

(** Indexing with [=] panics unless the handle is an object, which the parser
    requires; the model answers with the error of the function. *)
Definition validate_stage (first operation : PrivateOperation) : res unit :=
  let handle := PrivateOperation.service_tab_handle first in
  let field name := ok_or INVALID (jstr handle name) in
  if (PrivateOperation.consent_sha256 operation != PrivateOperation.consent_sha256 first)
     || (PrivateOperation.account_scope operation != PrivateOperation.account_scope first)
  then Err INVALID else
  expected_handle ← ok_or INVALID
    (jindex_set "url" (jstring (PrivateOperation.expected_url operation)) handle);
  profile_id ← field "profileId"%string;
  browser_id ← field "browserId"%string;
  session_name ← field "sessionName"%string;
  target_id ← field "targetId"%string;
  map_err INVALID (PrivateIdentity.validate_private_target
    (PrivateOperation.service_tab_handle operation) expected_handle
    {| PrivateIdentity.live_profile_id := profile_id;
       PrivateIdentity.live_browser_id := browser_id;
       PrivateIdentity.live_session_name := session_name;
       PrivateIdentity.live_target_id := target_id;
       PrivateIdentity.live_url := PrivateOperation.expected_url operation;
       PrivateIdentity.live_ready := true |}
    (PrivateOperation.expected_origin operation) (PrivateOperation.expected_url operation))
    ≫= fun _ => Ok tt.

Definition validate_sequence (operations : list PrivateOperation) : res unit :=
  match operations with
  | [first; second; third; fourth] =>
      if negb (forallb (fun p => (p.1 =? p.2)%nat)
                 (zip (map stage_of operations) [0; 1; 2; 3]%nat))
      then Err INVALID else for_each (validate_stage first) operations
  | _ => Err INVALID
  end.

(** [iter().map(|r| PrivateOperation::parse(&store.load(r)?)).collect()] *)
Fixpoint load_operations (store : SecretStore) (references : list string)
    : PM (list PrivateOperation) :=
  match references with
  | [] => mret []
  | reference :: references =>
      payload ← on_files (load store reference);
      operation ← sm_lift (parse_operation payload);
      operations ← load_operations store references;
      mret (operation :: operations)
  end.

Fixpoint has_duplicate (earlier references : list string) : bool :=
  match references with
  | [] => false
  | reference :: references =>
      one_of reference earlier || has_duplicate (earlier ++ [reference]) references
  end.

Definition load_sequence (store : SecretStore) (references : list string)
    : PM (list PrivateOperation) :=
  if negb (length references =? 4)%nat || has_duplicate [] references then sm_err INVALID else
  operations ← load_operations store references;
  sm_lift (validate_sequence operations) ≫= fun _ => mret operations.

(** ** Execution *)

Definition expected_outcome (index : nat) (outcome : PrivateStepOutcome) : bool :=
  match outcome with
  | DispatchAttempted => (index <=? 2)%nat
  | ResultStored => (index =? 3)%nat
  end.

(** The body of the loop; [previous] is the operation before, if any. *)
Definition run_step (store : SecretStore) (previous : option PrivateOperation) (index : nat)
    (reference : string) (operation : PrivateOperation) (permit : PrivatePermit)
    (attachment : PrivateAttachment) : PM PrivatePermit :=
  permit ← match previous with
           | Some previous =>
               advance_private_target previous operation (index - 1) permit
                 (PrivateAttachment.session_id attachment permit)
           | None => mret permit
           end;
  outcome ← execute_private_operation store reference permit attachment;
  if negb (expected_outcome index outcome) then sm_err "private_journey_outcome_mismatch"
  else mret permit.

Fixpoint run_steps (store : SecretStore) (previous : option PrivateOperation) (index : nat)
    (stages : list (string * PrivateOperation)) (permit : PrivatePermit)
    (attachment : PrivateAttachment) : PM PrivatePermit :=
  match stages with
  | [] => mret permit
  | (reference, operation) :: stages =>
      permit ← run_step store previous index reference operation permit attachment;
      run_steps store (Some operation) (S index) stages permit attachment
  end.

Definition destinations_of (operations : list PrivateOperation) : list (string * string) :=
  map (fun op => (PrivateOperation.expected_origin op, PrivateOperation.expected_url op))
    operations.

(** What runs under the permit of the interval. *)
Definition journey_body (store : SecretStore) (references : list string)
    (operations : list PrivateOperation) (first : PrivateOperation) (permit : PrivatePermit)
    : PM PrivateJourneyPendingCleanup :=
  on_files (reserve_journey store (PrivateOperation.consent_sha256 first) references) ≫= fun _ =>
  revalidate_private_target (PrivateOperation.service_tab_handle first)
    (PrivateOperation.expected_origin first) (PrivateOperation.expected_url first) permit
    ≫= fun _ =>
  the_browser ≫= fun _ =>
  attachment ← PrivateAttachment.acquire store permit;
  permit ← run_steps store None 0 (zip references operations) permit attachment;
  result_reference ← sm_lift (ok_or INVALID (references !! 3%nat));
  mret {| pc_permit := permit; pc_result_reference := result_reference;
          pc_attachment := attachment |}.

Definition execute_private_journey (store : SecretStore) (references : list string)
    : PM PrivateJourneyPendingCleanup :=
  operations ← load_sequence store references;
  first ← sm_lift (ok_or INVALID (head operations));
  initial ← prepare_private_target (PrivateOperation.service_tab_handle first)
    (PrivateOperation.expected_origin first) (PrivateOperation.expected_url first);
  journey ← sm_lift (PrivateIdentity.journey_new initial (destinations_of operations));
  the_browser ≫= fun _ =>
  permit ← client_begin_journey journey;
  or_release permit (journey_body store references operations first permit).

(** ** Cleanup *)

Definition sanitize_and_close (self : PrivateJourneyPendingCleanup) (store : SecretStore)
    : PM PrivateJourneyPendingReconciliation :=
  or_release (pc_permit self) (
    payload ← on_files (load store (pc_result_reference self));
    final_operation ← sm_lift (parse_operation payload);
    if negb (reads_key final_operation) then sm_err INVALID else
    revalidate_private_target (PrivateOperation.service_tab_handle final_operation)
      (PrivateOperation.expected_origin final_operation)
      (PrivateOperation.expected_url final_operation) (pc_permit self) ≫= fun _ =>
    browser ← the_browser;
    target ← sm_lift (map_err "private_target_unavailable"%string (active_target_id browser));
    session ← PrivateAttachment.session_id (pc_attachment self) (pc_permit self);
    sanitize_private_page (pc_permit self) target session ≫= fun _ =>
    r ← PrivateAttachment.detach (pc_attachment self) store (pc_permit self);
    sm_lift r.1 ≫= fun _ =>
    transport_closed ← quiesce_private_transport (pc_permit self);
    mret {| pr_permit := pc_permit self; pr_result_reference := pc_result_reference self;
            pr_transport_closed := transport_closed; pr_attachment := r.2 |}).

(** ** Reconciliation *)

Definition intent_value (epoch scope_digest profile browser_id session_name target tab_id endpoint
    result_reference : string) (prior_handle : value) (detach_reference : string) : value :=
  jobject [("schema", jstring "private-reconciliation.v2"); ("epoch", jstring epoch);
           ("scopeDigest", jstring scope_digest); ("profileId", jstring profile);
           ("browserId", jstring browser_id); ("sessionName", jstring session_name);
           ("targetId", jstring target); ("tabId", jstring tab_id);
           ("endpoint", jstring endpoint); ("resultReference", jstring result_reference);
           ("priorHandle", prior_handle); ("sanitizedUrl", jstring about_blank);
           ("detachReference", jstring detach_reference)]%string.

(** The closure of [try_mutate_durable]. *)
Definition reconcile_broker (operation : PrivateOperation) (permit : PrivatePermit)
    (binding : PrivateIdentity.LivePrivateIdentity) (endpoint tab_id browser_id : string)
    (persisted : ServiceTabs.ServiceState) : PM (ServiceTabs.ServiceState * unit) :=
  prior ← validate_broker_snapshot persisted (PrivateOperation.service_tab_handle operation)
    binding endpoint (PrivateOperation.expected_origin operation)
    (PrivateOperation.expected_url operation);
  if (permit_target_id permit != Some (PrivateIdentity.target_id prior))
     || (permit_identity_digest permit != Some (PrivateIdentity.scope_digest prior))
  then sm_err RECONCILIATION_FAILED else
  s ← sm_lift (PrivateRecovery.sanitize_state RECONCILIATION_FAILED tab_id browser_id persisted);
  mret (s, tt).

(** The cached page of the daemon is no longer the login page. *)
Definition forget_page (d : DaemonState) : DaemonState :=
  {| ds_browser := set_active_page_metadata (Some about_blank) (Some ""%string) <$> ds_browser d;
     ds_session_id := ds_session_id d;
     ds_attached_runtime_profile := ds_attached_runtime_profile d; ds_ref_map := cleared |}.

Definition reconcile {D} (self : PrivateJourneyPendingReconciliation) (store : SecretStore)
    (controller : PrivateRecovery.RecoveryController) : PM (ReconciledPrivateJourney D) :=
  let failed := RECONCILIATION_FAILED in
  let permit := pr_permit self in
  or_release permit (
    payload ← on_files (load store (pr_result_reference self));
    operation ← sm_lift (parse_operation payload);
    if negb (reads_key operation) || (permit_journey_stage permit != Some 3%nat)
    then sm_err failed else
    on_files (load_result store (pr_result_reference self)) ≫= fun _ =>
    daemon ← the_daemon;
    browser ← sm_lift (ok_or failed (ds_browser daemon));
    PrivateAttachment.verify_closed_detach (pr_attachment self) permit
      (pr_transport_closed self) store ≫= fun _ =>
    profile ← sm_lift (ok_or failed (private_runtime_profile daemon));
    target ← sm_lift (map_err failed (active_target_id browser));
    let browser_id := fmt ["session:"%string; ds_session_id daemon] in
    let endpoint := bm_ws_url browser in
    PrivateRecovery.validate_scope controller store endpoint (ds_session_id daemon) ≫= fun _ =>
    tab_id ← sm_lift (ok_or failed (jstr (PrivateOperation.service_tab_handle operation) "tabId"));
    scope_digest ← sm_lift (ok_or failed (permit_identity_digest permit));
    intent ← sm_lift (ok_or failed (to_vec (intent_value (p_epoch permit) scope_digest profile
      browser_id (ds_session_id daemon) target tab_id endpoint (pr_result_reference self)
      (PrivateOperation.service_tab_handle operation)
      (PrivateAttachment.at_detach_reference (pr_attachment self)))));
    reference ← on_files (stage store intent);
    on_files (bind_reconciliation store (p_epoch permit) reference) ≫= fun _ =>
    PrivateRecovery.retain controller store (p_epoch permit) reference
      (hex_encode (sha256 intent)) ≫= fun _ =>
    on_files (admit_ store reference) ≫= fun _ =>
    mutate failed (reconcile_broker operation permit
      {| PrivateIdentity.live_profile_id := profile;
         PrivateIdentity.live_browser_id := browser_id;
         PrivateIdentity.live_session_name := ds_session_id daemon;
         PrivateIdentity.live_target_id := target;
         PrivateIdentity.live_url := PrivateOperation.expected_url operation;
         PrivateIdentity.live_ready := true |} endpoint tab_id browser_id) ≫= fun _ =>
    sm_modify (fun m => with_daemon (forget_page (m_daemon m)) m) ≫= fun _ =>
    on_files (store_result store reference PrivateRecovery.COMPLETED) ≫= fun _ =>
    mret {| rj_pending := self; rj_reconciliation_reference := reference; rj_delivery := None |}).

End journey.

End PrivateJourney.
