(* ===== verification/PrivateHandoff.v ===== *)
(** * Authenticated ingress of private operations

    Model of [cli/src/native/private_handoff.rs]: one authenticated frame of four
    operations is compared with an independent approval and staged. The connected
    socket is read and written here for the other private components too. *)

From S2P Require Import Prelude RustStr Env SecretFs SecretStore GateStore StoreHistory PrivateIdentity PrivacyGate PrivateOperation ServiceTabs PrivateCdp PrivateBroker PrivateAttachment PrivateExecution PrivateRecovery PrivateJourney.
From Stdlib Require Import Ascii.
Import SecretFs SecretStore GateStore PrivacyGate PrivateCdp PrivateExecution.

Local Open Scope Z_scope.

Module PrivateHandoff.

Definition FAILED : string := "private_handoff_rejected".
Definition MAGIC : string := "ABPH1" +:+ String "000" "".
Definition MAX_BODY : Z := 262144.

(** [u32::from_be_bytes], [u32::to_be_bytes] *)
Definition u32_from_be_bytes (s : string) : Z :=
  foldl (fun acc c => 256 * acc + Z.of_N (N_of_ascii c)) 0 (bytes_of s).
Definition u32_to_be_bytes (z : Z) : string := of_bytes (map (byte_at z) [3; 2; 1; 0]).

Section handoff.
Context `{!Json, !Oracle, !Crypto, !Serde GateState, !UrlLib, !JsonBuild, !JsonTree, !Environment}.
Context `{!Chrono, !Serde (list Scalar), !SerdeValue ServiceTabs.ServiceTabHandle}.
Context `{!Serde Env.value, !Serde PrivateOperation.PrivateOperation}.
Context `{!Serde (list PrivateOperation.PrivateOperation), !Serde (list Env.value)}.
Local Abbreviation value := Env.value.
Local Abbreviation PM := (SM Machine).
Local Abbreviation PrivateOperation := PrivateOperation.PrivateOperation.

(** ** The connected socket *)

Definition read_exact (label : string) (n : Z) : PM string :=
  elapse ≫= fun _ => step (fun m => answer_or label (e_read (m_time m) n) m).
Definition write_all (label : string) (s : string) : PM unit :=
  elapse ≫= fun _ => step (fun m => answer_or label (e_write (m_time m)) (writes s m)).
(** [stream.read(&mut [0; 1])] returned 0. *)
Definition at_eof (label : string) : PM bool :=
  elapse ≫= fun _ => step (fun m => answer_or label (e_eof (m_time m)) m).
(** [stream.peer_cred()?.uid() == geteuid()] *)
Definition check_peer (label : string) : PM unit :=
  if e_peer_uid != Some o_euid then sm_err label else mret tt.
(** [spawn_blocking(..).await]: the work is done even if the wait is not. *)
Definition spawn_blocking {A} (work : PM A) : PM A :=
  r ← sm_try work;
  elapse ≫= fun _ => step (fun m =>
    match e_join (m_time m) with
    | Overdue => (Err OVERDUE, m)
    | _ => (r, m)
    end).

(** ** The approval *)

Record PrivateHandoffAuthority := {
  ha_consent_sha256 : string;
  ha_account_scope : string;
  ha_initial_handle : value;
  ha_destinations : list (string * string);
  ha_authentication_key : string;
  ha_expires_at : Z;
}.

Definition initial_identity (handle : value) (url : string)
    : res PrivateIdentity.LivePrivateIdentity :=
  profile_id ← ok_or FAILED (jstr handle "profileId");
  browser_id ← ok_or FAILED (jstr handle "browserId");
  session_name ← ok_or FAILED (jstr handle "sessionName");
  target_id ← ok_or FAILED (jstr handle "targetId");
  Ok {| PrivateIdentity.live_profile_id := profile_id;
        PrivateIdentity.live_browser_id := browser_id;
        PrivateIdentity.live_session_name := session_name;
        PrivateIdentity.live_target_id := target_id; PrivateIdentity.live_url := url;
        PrivateIdentity.live_ready := true |}.

Definition validate_initial (self : PrivateHandoffAuthority) : res unit :=
  destination ← ok_or FAILED (head (ha_destinations self));
  live ← initial_identity (ha_initial_handle self) destination.2;
  map_err FAILED (PrivateIdentity.validate_private_target (ha_initial_handle self)
    (ha_initial_handle self) live destination.1 destination.2) ≫= fun _ => Ok tt.

Definition authority_new (consent_sha256 account_scope : string) (initial_handle : value)
    (destinations : list (string * string)) (authentication_key : string) (expires_at : Z)
    : PM PrivateHandoffAuthority :=
  if negb (zlen consent_sha256 =? 64) || negb (bytes_all is_lower_hex consent_sha256)
     || negb (starts_with "login.gov:" account_scope) || negb (length destinations =? 4)%nat
  then sm_err FAILED else
  t ← now;
  if expires_at <=? t then sm_err FAILED else
  let authority := {| ha_consent_sha256 := consent_sha256; ha_account_scope := account_scope;
                      ha_initial_handle := initial_handle; ha_destinations := destinations;
                      ha_authentication_key := authentication_key;
                      ha_expires_at := expires_at |} in
  sm_lift (validate_initial authority) ≫= fun _ => mret authority.

(** ** Staging *)

Record PrivateStagedHandoff := {
  sh_store : SecretStore;
  sh_references : list string;
  sh_expires_at : Z;
}.

(** The checks of [stage_validated] on one operation. *)
Definition approved (authority : PrivateHandoffAuthority) (operation : PrivateOperation)
    (destination : string * string) : bool :=
  (PrivateOperation.consent_sha256 operation == ha_consent_sha256 authority)
  && (PrivateOperation.account_scope operation == ha_account_scope authority)
  && (PrivateOperation.expected_origin operation == destination.1)
  && (PrivateOperation.expected_url operation == destination.2).

(** What is staged: the payloads in canonical JSON, and the operations in them. *)
Definition check_body (authority : PrivateHandoffAuthority) (body : string)
    : res (list string * list PrivateOperation) :=
  (typed ← ok_or FAILED (from_slice body); Ok (typed : list PrivateOperation)) ≫= fun _ =>
  values ← (values ← ok_or FAILED (from_slice body); Ok (values : list value));
  if negb (length values =? 4)%nat then Err FAILED else
  payloads ← list_traverse (fun v => ok_or FAILED (to_vec v)) values;
  operations ← list_traverse (fun payload => map_err FAILED (parse_operation payload)) payloads;
  map_err FAILED (PrivateJourney.validate_sequence operations) ≫= fun _ =>
  for_each (fun '(operation, destination) =>
    if negb (approved authority operation destination) then Err FAILED else Ok tt)
    (zip operations (ha_destinations authority)) ≫= fun _ =>
  first ← ok_or FAILED (head operations);
  live ← initial_identity (ha_initial_handle authority) (PrivateOperation.expected_url first);
  map_err FAILED (PrivateIdentity.validate_private_target
    (PrivateOperation.service_tab_handle first) (ha_initial_handle authority) live
    (PrivateOperation.expected_origin first) (PrivateOperation.expected_url first))
    ≫= fun _ => Ok (payloads, operations).

Fixpoint stage_payloads (authority : PrivateHandoffAuthority) (store : SecretStore)
    (payloads : list string) : PM (list string) :=
  t ← now;
  match payloads with
  | [] => if ha_expires_at authority <=? t then sm_err FAILED else mret []
  | payload :: payloads =>
      if ha_expires_at authority <=? t then sm_err FAILED else
      reference ← sm_map_err FAILED (on_files (stage store payload));
      references ← stage_payloads authority store payloads;
      mret (reference :: references)
  end.

Definition stage_validated (body : string) (authority : PrivateHandoffAuthority)
    (store : SecretStore) : PM PrivateStagedHandoff :=
  checked ← sm_lift (check_body authority body);
  references ← stage_payloads authority store checked.1;
  mret {| sh_store := store; sh_references := references;
          sh_expires_at := ha_expires_at authority |}.

Definition receive_frame (authority : PrivateHandoffAuthority) (store : SecretStore)
    (require_eof : bool) : PM PrivateStagedHandoff :=
  within FAILED (
    check_peer FAILED ≫= fun _ =>
    t ← now;
    if ha_expires_at authority <=? t then sm_err FAILED else
    header ← read_exact FAILED 10;
    if take_bytes 6 header != MAGIC then sm_err FAILED else
    let length := u32_from_be_bytes (drop_bytes 6 header) in
    if (length =? 0) || (MAX_BODY <? length) then sm_err FAILED else
    body ← read_exact FAILED length;
    tag ← read_exact FAILED 32;
    ended ← (if require_eof return PM bool then at_eof FAILED else mret true);
    if negb ended then sm_err FAILED else
    if hmac_sha256 (ha_authentication_key authority) (header +:+ body) != tag
    then sm_err FAILED else
    spawn_blocking (stage_validated body authority store)).

Definition receive (authority : PrivateHandoffAuthority) (store : SecretStore)
    : PM PrivateStagedHandoff := receive_frame authority store true.
Definition receive_connected (authority : PrivateHandoffAuthority) (store : SecretStore)
    : PM PrivateStagedHandoff := receive_frame authority store false.

Definition is_current (staged : PrivateStagedHandoff) : PM bool :=
  t ← now; mret (t <? sh_expires_at staged).
Definition binding_operations (staged : PrivateStagedHandoff) : PM (list PrivateOperation) :=
  (fix go references : PM (list PrivateOperation) :=
     match references with
     | [] => mret []
     | reference :: references =>
         payload ← on_files (load (sh_store staged) reference);
         operation ← sm_lift (map_err FAILED (parse_operation payload));
         operations ← go references;
         mret (operation :: operations)
     end) (sh_references staged).

End handoff.

End PrivateHandoff.
