(* ===== verification/PrivateBound.v ===== *)
(** * Bindings of approved plans

    Model of [cli/src/native/private_bound_execution.rs] and of the requests of
    [cli/src/native/private_controller_socket.rs]: a plan is bound once to a
    browser, and a staged handoff claims the binding of its plan once. *)

From S2P Require Import Prelude RustStr Env SecretFs SecretStore GateStore StoreHistory PrivateIdentity PrivacyGate PrivateOperation ServiceTabs PrivateCdp PrivateBroker PrivateAttachment PrivateExecution PrivateRecovery PrivateJourney PrivateHandoff.
From Stdlib Require Import Ascii.
Import SecretFs SecretStore GateStore PrivacyGate PrivateCdp PrivateExecution PrivateHandoff.

Local Open Scope Z_scope.

Module PrivateBound.

Definition REJECTED : string := "private_bound_execution_rejected".
Definition ERROR : string := "private_controller_unavailable".
Definition MAX_FRAME : Z := 16384.

(** [operation] has one value, [bind]. *)
Record Binding := {
  bd_plan_id : string;
  bd_manifest_sha256 : string;
  bd_profile_id : string;
  bd_browser_id : string;
  bd_session_name : string;
  bd_target_id : string;
  bd_endpoint : string;
  bd_expires_at : string;
}.

Record BoundExecution := {
  bx_store : SecretStore;
  bx_reference : string;
  bx_plan_id : string;
  bx_digest : string;
}.

Section bound.
Context `{!Json, !Oracle, !Crypto, !Serde GateState, !UrlLib, !JsonBuild, !JsonTree, !Environment}.
Context `{!Chrono, !Serde (list Scalar), !SerdeValue ServiceTabs.ServiceTabHandle}.
Context `{!Serde Env.value, !Serde PrivateOperation.PrivateOperation, !Serde Binding}.
Local Abbreviation value := Env.value.
Local Abbreviation PM := (SM Machine).
Local Abbreviation PrivateOperation := PrivateOperation.PrivateOperation.

(** ** Valid bindings *)

Definition lower_hex (v : string) (length : Z) : bool :=
  (zlen v =? length) && bytes_all is_lower_hex v.
Definition is_token_byte (b : ascii) : bool :=
  is_ascii_alphanumeric b || Ascii.eqb b "_" || Ascii.eqb b "-".
Definition token (v : string) : bool :=
  negb (is_empty v) && (zlen v <=? 128) && bytes_all is_token_byte v.
Definition is_upper_hex (b : ascii) : bool := is_ascii_digit b || in_range 65 70 b.

(** The checks on the fields alone. *)
Definition well_formed (b : Binding) : bool :=
  lower_hex (bd_plan_id b) 32 && lower_hex (bd_manifest_sha256 b) 64
  && token (bd_profile_id b) && token (bd_session_name b)
  && (bd_browser_id b == fmt ["session:"; bd_session_name b])
  && (zlen (bd_target_id b) =? 32) && bytes_all is_upper_hex (bd_target_id b)
  && (zlen (bd_endpoint b) <=? 2048)
  && negb (existsb (fun c => is_whitespace c || is_control c) (chars (bd_endpoint b))).

(** A [ws] or [wss] URL with a host and nothing that identifies a user. *)
Definition endpoint_ok (endpoint : string) : bool :=
  match url_parse endpoint with
  | Err _ => false
  | Ok parsed =>
      one_of (u_scheme parsed) ["ws"; "wss"]%string && is_some (u_host_str parsed)
      && is_empty (u_username parsed) && negb (is_some (u_password parsed))
      && negb (is_some (u_query parsed)) && negb (is_some (u_fragment parsed))
      && negb (match split_on "/" endpoint !! 2%nat with
               | Some authority => bytes_any (Ascii.eqb "@") authority
               | None => false
               end)
  end.

(** [Binding::validate]: the expiry, which is after [t]. *)
Definition binding_validate (b : Binding) (plan_id digest endpoint session : string) (t : Z)
    : res Z :=
  if negb (well_formed b) || (bd_plan_id b != plan_id) || (bd_manifest_sha256 b != digest)
     || (bd_session_name b != session) || (bd_endpoint b != endpoint)
  then Err REJECTED else
  if negb (endpoint_ok (bd_endpoint b)) then Err REJECTED else
  expires ← map_err REJECTED (parse_from_rfc3339 (bd_expires_at b));
  if expires <=? t then Err REJECTED else Ok expires.

Definition plan_key (plan_id : string) : string := hex_encode (sha256 plan_id).

(** ** Claims *)

(** The binding an execution refers to is the bookmarked one of its plan. *)
Definition load_binding (self : BoundExecution) : PM Binding :=
  reference ← sm_map_err REJECTED
    (on_files (reconciliation_reference (bx_store self) (plan_key (bx_plan_id self))));
  if reference != bx_reference self then sm_err REJECTED else
  bytes ← sm_map_err REJECTED (on_files (load (bx_store self) (bx_reference self)));
  sm_lift (ok_or REJECTED (from_slice bytes)).

Definition handle_fields (b : Binding) : list (string * string) :=
  [("profileId", bd_profile_id b); ("browserId", bd_browser_id b);
   ("sessionName", bd_session_name b); ("targetId", bd_target_id b)]%string.
Definition handle_matches (b : Binding) (handle : value) : bool :=
  forallb (fun p => jstr handle p.1 == Some p.2) (handle_fields b).

Definition check (self : BoundExecution) (staged : PrivateStagedHandoff)
    (endpoint session : string) : PM unit :=
  same ← sm_map_err REJECTED (on_files (same_directory (bx_store self) (sh_store staged)));
  if (same : bool) then sm_err REJECTED else
  current ← is_current staged;
  if negb current then sm_err REJECTED else
  binding ← load_binding self;
  t ← now;
  expires ← sm_lift (binding_validate binding (bx_plan_id self) (bx_digest self) endpoint session t);
  if expires <? sh_expires_at staged then sm_err REJECTED else
  operations ← sm_map_err REJECTED (binding_operations staged);
  if negb (length operations =? 4)%nat
     || negb (forallb (fun operation =>
                (PrivateOperation.consent_sha256 operation == bd_manifest_sha256 binding)
                && handle_matches binding (PrivateOperation.service_tab_handle operation))
              operations)
  then sm_err REJECTED else
  current ← is_current staged;
  t ← now;
  if negb current || (expires <=? t) then sm_err REJECTED else mret tt.

Definition check_admitted (self : BoundExecution) : PM unit :=
  st ← sm_map_err REJECTED (on_files (status (bx_store self) (bx_reference self)));
  if st != "admitted"%string then sm_err REJECTED else mret tt.

(** [BoundExecution::validate] *)
Definition validate (self : BoundExecution) (staged : PrivateStagedHandoff)
    (endpoint session : string) : PM unit :=
  check_admitted self ≫= fun _ => check self staged endpoint session.

Definition claim (binding_store : SecretStore) (plan_id digest : string)
    (staged : PrivateStagedHandoff) (endpoint session : string) : PM BoundExecution :=
  if negb (lower_hex plan_id 32) || negb (lower_hex digest 64) then sm_err REJECTED else
  reference ← sm_map_err REJECTED
    (on_files (reconciliation_reference binding_store (plan_key plan_id)));
  let execution := {| bx_store := binding_store; bx_reference := reference;
                      bx_plan_id := plan_id; bx_digest := digest |} in
  check execution staged endpoint session ≫= fun _ =>
  sm_map_err REJECTED (on_files (admit_ binding_store reference)) ≫= fun _ =>
  validate execution staged endpoint session ≫= fun _ => mret execution.

Definition delivery_metadata (self : BoundExecution) (operation : PrivateOperation)
    (endpoint : string) : PM value :=
  check_admitted self ≫= fun _ =>
  binding ← load_binding self;
  t ← now;
  sm_lift (binding_validate binding (bx_plan_id self) (bx_digest self) endpoint
             (bd_session_name binding) t) ≫= fun _ =>
  if (PrivateOperation.consent_sha256 operation != bd_manifest_sha256 binding)
     || negb (reads_key operation)
     || negb (handle_matches binding (PrivateOperation.service_tab_handle operation))
  then sm_err REJECTED else
  mret (jobject [("schema", jstring "agent-browser.private-delivery.v1");
                 ("planId", jstring (bd_plan_id binding));
                 ("manifestSha256", jstring (bd_manifest_sha256 binding));
                 ("profileId", jstring (bd_profile_id binding));
                 ("browserId", jstring (bd_browser_id binding));
                 ("sessionName", jstring (bd_session_name binding));
                 ("targetId", jstring (bd_target_id binding));
                 ("endpoint", jstring (bd_endpoint binding));
                 ("accountScope", jstring (PrivateOperation.account_scope operation));
                 ("expiresAt", jstring (bd_expires_at binding))]%string).

(** ** The controller socket *)

(** [serde_json::from_slice::<Probe>(body).is_ok()] *)
Class ProbeFormat := { is_probe : string -> bool }.
Context `{!ProbeFormat}.

Definition controller_validate (b : Binding) : PM unit :=
  if negb (well_formed b) || negb (endpoint_ok (bd_endpoint b)) then sm_err ERROR else
  expires ← sm_lift (map_err ERROR (parse_from_rfc3339 (bd_expires_at b)));
  t ← now;
  if expires <=? t then sm_err ERROR else mret tt.

Definition request (body : string) (store : SecretStore) : PM unit :=
  if is_probe body then mret tt else
  binding ← sm_lift (ok_or ERROR (from_slice body));
  controller_validate binding ≫= fun _ =>
  let key := plan_key (bd_plan_id binding) in
  known ← sm_try (on_files (reconciliation_reference store key));
  if is_ok known then sm_err ERROR else
  serialized ← sm_lift (ok_or ERROR (to_vec (binding : Binding)));
  reference ← sm_map_err ERROR (on_files (stage store serialized));
  sm_map_err ERROR (on_files (bind_reconciliation store key reference)).

Definition SUCCESS : string :=
  fmt ["{"; dquote; "success"; dquote; ":true,"; dquote; "renewalEnabled"; dquote; ":false}"].
Definition REJECTION : string :=
  fmt ["{"; dquote; "success"; dquote; ":false,"; dquote; "renewalEnabled"; dquote; ":false,";
       dquote; "error"; dquote; ":"; dquote; "private_controller_rejected"; dquote; "}"].

Definition controller_mac (key domain challenge body : string) : string :=
  hmac_sha256 key (domain +:+ challenge +:+ body).

(** The closure [accepted] of [client]: one authenticated request and the end of
    the stream. *)
Definition read_request (key challenge : string) (store : SecretStore) : PM unit :=
  prefix ← read_exact ERROR 4;
  let length := u32_from_be_bytes prefix in
  if (length =? 0) || (MAX_FRAME <? length) then sm_err ERROR else
  body ← read_exact ERROR length;
  tag ← read_exact ERROR 32;
  ended ← at_eof ERROR;
  if negb ended then sm_err ERROR else
  if controller_mac key ("ABPC1-request" +:+ String "000" "") challenge body != tag
  then sm_err ERROR else request body store.

Definition client (key : string) (store : SecretStore) : PM unit :=
  check_peer ERROR ≫= fun _ =>
  challenge ← sm_map_err ERROR (on_files (getrandom 32));
  write_all ERROR challenge ≫= fun _ =>
  accepted ← sm_try (read_request key challenge store);
  let response := if is_ok accepted then SUCCESS else REJECTION in
  let tag := controller_mac key ("ABPC1-response" +:+ String "000" "") challenge response in
  write_all ERROR (u32_to_be_bytes (zlen response)) ≫= fun _ =>
  write_all ERROR response ≫= fun _ =>
  write_all ERROR tag.

End bound.

End PrivateBound.
