(* ===== verification/PrivateDelivery.v ===== *)
(** * Delivery of the result

    Model of [cli/src/native/private_delivery.rs] and of the delivery in
    [cli/src/native/private_journey.rs]: only a reconciled journey bound to its plan
    sends the key, once, over a connected socket whose peer proved that it knows
    the key of the plan, and only a matching acknowledgement completes it. *)

From S2P Require Import Prelude RustStr Env SecretFs SecretStore GateStore StoreHistory PrivateIdentity PrivacyGate PrivateOperation ServiceTabs PrivateCdp PrivateBroker PrivateAttachment PrivateExecution PrivateRecovery PrivateJourney PrivateHandoff PrivateBound.
From Stdlib Require Import Ascii.
Import SecretFs SecretStore GateStore PrivacyGate PrivateCdp PrivateExecution PrivateHandoff.

Local Open Scope Z_scope.

Module PrivateDelivery.

Definition FAILED : string := "private_delivery_failed_closed".
Definition MAGIC : string := "ABPD1" +:+ String "000" "".
Definition MAX_BODY : Z := 32768.

Section delivery.
Context `{!Json, !Oracle, !Crypto, !Serde GateState, !UrlLib, !JsonBuild, !JsonTree, !Environment}.
Context `{!Chrono, !Serde (list Scalar), !SerdeValue ServiceTabs.ServiceTabHandle}.
Context `{!Serde Env.value, !Serde PrivateOperation.PrivateOperation, !Serde PrivateBound.Binding}.
Local Abbreviation value := Env.value.
Local Abbreviation PM := (SM Machine).
Local Abbreviation PrivateOperation := PrivateOperation.PrivateOperation.

(** The derived deserializer of [PrivateKey]: the key. *)
Class KeyFormat := { read_key : string -> option string }.
Context `{!KeyFormat}.

Definition domain (name : string) : string := name +:+ String "000" "".

(** [current(&metadata)] *)
Definition current (metadata : value) : PM unit :=
  text ← sm_lift (ok_or FAILED (jstr metadata "expiresAt"));
  expires ← sm_lift (map_err FAILED (parse_from_rfc3339 text));
  t ← now;
  if expires <=? t then sm_err FAILED else mret tt.

Definition ready_tag_of (key challenge plan_id manifest : string) : string :=
  hmac_sha256 key (domain "ABPD1-ready" +:+ challenge +:+ plan_id +:+ manifest).
Definition ack_tag_of (key challenge frame first : string) : string :=
  hmac_sha256 key (domain "ABPD1-ack" +:+ challenge +:+ sha256 frame +:+ first).

(** The peer knows the key and names this plan. *)
Definition check_ready (authentication_key : string) (metadata : value) : PM string :=
  challenge ← read_exact FAILED 32;
  ready_tag ← read_exact FAILED 32;
  plan_id ← sm_lift (ok_or FAILED (jstr metadata "planId"));
  manifest ← sm_lift (ok_or FAILED (jstr metadata "manifestSha256"));
  if ready_tag_of authentication_key challenge plan_id manifest != ready_tag
  then sm_err FAILED else mret challenge.

(** The frame, with its tag. *)
Definition result_frame (authentication_key challenge : string) (metadata : value) (key : string)
    : res string :=
  if negb (key_text key) then Err FAILED else
  metadata ← ok_or FAILED (jindex_set "key" (jstring key) metadata);
  body ← ok_or FAILED (to_vec metadata);
  if MAX_BODY <? zlen body then Err FAILED else
  let frame := MAGIC +:+ u32_to_be_bytes (zlen body) +:+ body in
  Ok (frame +:+ hmac_sha256 authentication_key (domain "ABPD1-result" +:+ challenge +:+ frame)).

Definition check_ack (authentication_key challenge frame : string) : PM unit :=
  ack ← read_exact FAILED 33;
  let first := take_bytes 1 ack in
  if first != String "001" "" then sm_err FAILED else
  if ack_tag_of authentication_key challenge frame first != drop_bytes 1 ack
  then sm_err FAILED else mret tt.

(** [stream.shutdown()] *)
Definition shutdown : PM unit :=
  elapse ≫= fun _ => step (fun m => answer_or FAILED (e_write (m_time m)) m).

Definition send (authentication_key : string) (store : SecretStore) (reference : string)
    (metadata : value) : PM unit :=
  within FAILED (
    check_peer FAILED ≫= fun _ =>
    current metadata ≫= fun _ =>
    challenge ← check_ready authentication_key metadata;
    current metadata ≫= fun _ =>
    sm_map_err FAILED (on_files (admit_delivery store reference)) ≫= fun _ =>
    result ← sm_map_err FAILED (on_files (load_result store reference));
    key ← sm_lift (ok_or FAILED (read_key result));
    frame ← sm_lift (result_frame authentication_key challenge metadata key);
    current metadata ≫= fun _ =>
    write_all FAILED frame ≫= fun _ =>
    shutdown ≫= fun _ =>
    check_ack authentication_key challenge frame ≫= fun _ =>
    current metadata ≫= fun _ =>
    sm_map_err FAILED (on_files (complete_delivery store reference))).

(** ** From a reconciled journey *)

Definition Delivery : Type := SecretStore * PrivateBound.BoundExecution.

Definition bind_delivery (self : PrivateJourney.ReconciledPrivateJourney Delivery)
    (store : SecretStore) (binding : PrivateBound.BoundExecution)
    : PrivateJourney.ReconciledPrivateJourney Delivery :=
  {| PrivateJourney.rj_pending := PrivateJourney.rj_pending self;
     PrivateJourney.rj_reconciliation_reference :=
       PrivateJourney.rj_reconciliation_reference self;
     PrivateJourney.rj_delivery := Some (store, binding) |}.

(** The metadata of the delivery, checked against the reconciliation on record. *)
Definition delivery_metadata (self : PrivateJourney.ReconciledPrivateJourney Delivery)
    (store : SecretStore) (binding : PrivateBound.BoundExecution) : PM value :=
  let pending := PrivateJourney.rj_pending self in
  let result_reference := PrivateJourney.pr_result_reference pending in
  let reference := PrivateJourney.rj_reconciliation_reference self in
  payload ← on_files (load store result_reference);
  operation ← sm_lift (parse_operation payload);
  result ← on_files (load_result store reference);
  if result != PrivateRecovery.COMPLETED then sm_err FAILED else
  bytes ← on_files (load store reference);
  intent ← sm_lift (ok_or FAILED (from_slice bytes));
  if (jstr (intent : value) "resultReference" != Some result_reference)
     || (jstr intent "epoch" != Some (p_epoch (PrivateJourney.pr_permit pending)))
  then sm_err FAILED else
  endpoint ← sm_lift (ok_or FAILED (jstr intent "endpoint"));
  metadata ← PrivateBound.delivery_metadata binding operation endpoint;
  metadata ← sm_lift (ok_or FAILED
    (jindex_set "resultReference" (jstring result_reference) (metadata : value)));
  sm_lift (ok_or FAILED
    (jindex_set "reconciliationReference" (jstring reference) (metadata : value))).

(** The journey is consumed: its permit is dropped on every path. *)
Definition deliver (self : PrivateJourney.ReconciledPrivateJourney Delivery)
    (authentication_key : string) : PM unit :=
  let pending := PrivateJourney.rj_pending self in
  r ← sm_try (
    delivery ← sm_lift (ok_or FAILED (PrivateJourney.rj_delivery self));
    metadata ← delivery_metadata self delivery.1 delivery.2;
    send authentication_key delivery.1 (PrivateJourney.pr_result_reference pending) metadata);
  sm_modify (fun m => with_world
    (drop_file (p_store (PrivateJourney.pr_permit pending))
       (p_file (PrivateJourney.pr_permit pending)) (m_world m)) m) ≫= fun _ =>
  sm_lift r.

End delivery.

End PrivateDelivery.
