(* ===== verification/PrivateCoordinator.v ===== *)
(** * The coordinator of a private plan

    Model of [cli/src/native/private_coordinator.rs] and of the private arms of the
    worker of [cli/src/native/control_plane.rs]: the provisioned authority of a
    plan, its comparison with what was received, and one execution from ingress to
    delivery. The files [execution.json] and [authentication.key] it reads are an
    answer of the environment. *)

From S2P Require Import Prelude RustStr Env SecretFs SecretStore GateStore StoreHistory PrivateIdentity PrivacyGate PrivateOperation ServiceTabs PrivateCdp PrivateBroker PrivateAttachment PrivateExecution PrivateRecovery PrivateJourney PrivateHandoff PrivateBound PrivateDelivery.
From Stdlib Require Import Ascii.
Import SecretFs SecretStore GateStore PrivacyGate PrivateCdp PrivateBroker PrivateExecution PrivateHandoff.

Local Open Scope Z_scope.

Module PrivateCoordinator.

Definition FAILED : string := "private_coordinator_failed_closed".
Definition PASSWORD_SLOT : string := "PRIVATE_PASSWORD_SLOT".
Definition CODE_SLOT : string := "PRIVATE-CODE-SLOT".

Section coordinator.
Context `{!Json, !Oracle, !Crypto, !Serde GateState, !UrlLib, !JsonBuild, !JsonTree, !Environment}.
Context `{!Chrono, !Serde (list Scalar), !SerdeValue ServiceTabs.ServiceTabHandle}.
Context `{!Serde Env.value, !Serde PrivateOperation.PrivateOperation, !Serde PrivateBound.Binding}.
Context `{!Serde (list PrivateOperation.PrivateOperation), !Serde (list Env.value)}.
Context `{!Serde PrivateRecovery.AuthorityRecord, !PrivateDelivery.KeyFormat}.
Local Abbreviation value := Env.value.
Local Abbreviation PM := (SM Machine).
Local Abbreviation PrivateOperation := PrivateOperation.PrivateOperation.

(** ** The authority of a plan *)

Record Authority := {
  au_schema : string;
  au_plan_id : string;
  au_manifest_sha256 : string;
  au_recipe_sha256 : string;
  au_endpoint : string;
  au_session_name : string;
  au_expires_at : string;
  au_operations : list value;
}.

(** The derived deserializers of [Authority] and of the [operations] of [Nested]. *)
Class CoordinatorFormats := {
  read_nested : string -> option (list PrivateOperation);
  read_authority : string -> option Authority;
}.
Context `{!CoordinatorFormats}.

Definition parsed_operations (self : Authority) : res (list PrivateOperation) :=
  list_traverse (fun op =>
    bytes ← ok_or FAILED (to_vec op); map_err FAILED (parse_operation bytes))
    (au_operations self).

Definition expiry (self : Authority) : PM Z :=
  expires ← sm_lift (map_err FAILED (parse_from_rfc3339 (au_expires_at self)));
  t ← now;
  if expires <=? t then sm_err FAILED else mret expires.

(** The value of a field of the operation with the given index. *)
Definition operation_field (self : Authority) (index : nat) (field : string) : option string :=
  op ← au_operations self !! index; v ← jpointer op ["operation"%string; field]; as_str v.

(** The operation belongs to the plan and to the session. *)
Definition of_plan (self : Authority) (first : PrivateOperation) (session : string)
    (op : PrivateOperation) : bool :=
  let handle := PrivateOperation.service_tab_handle op in
  (PrivateOperation.consent_sha256 op == au_manifest_sha256 self)
  && (PrivateOperation.account_scope op == PrivateOperation.account_scope first)
  && (jstr handle "sessionName" == Some session)
  && (jstr handle "browserId" == Some (fmt ["session:"%string; session])).

(** The endpoint is a [ws] or [wss] URL with a host and nothing else private. *)
Definition plan_endpoint_ok (endpoint : string) : bool :=
  match url_parse endpoint with
  | Err _ => false
  | Ok url =>
      one_of (u_scheme url) ["ws"; "wss"]%string && is_some (u_host_str url)
      && is_empty (u_username url) && negb (is_some (u_password url))
      && negb (is_some (u_query url)) && negb (is_some (u_fragment url))
      && negb (existsb (fun c => is_whitespace c || is_control c) (chars endpoint))
  end.

(** [Authority::parse] up to the expiry. *)
Definition check_authority (bytes session : string) : res Authority :=
  nested ← ok_or FAILED (read_nested bytes);
  authority ← ok_or FAILED (read_authority bytes);
  if (au_schema authority != "agent-browser.private-coordinator.v1"%string)
     || negb (PrivateBound.lower_hex (au_plan_id authority) 32)
     || negb (PrivateBound.lower_hex (au_manifest_sha256 authority) 64)
     || negb (PrivateBound.lower_hex (au_recipe_sha256 authority) 64)
     || (au_session_name authority != session)
     || negb (length (au_operations authority) =? 4)%nat || negb (length nested =? 4)%nat
     || (operation_field authority 0 "password" != Some PASSWORD_SLOT)
     || (operation_field authority 1 "code" != Some CODE_SLOT)
  then Err FAILED else
  canonical ← ok_or FAILED (to_vec (au_operations authority));
  if hex_encode (sha256 canonical) != au_recipe_sha256 authority then Err FAILED else
  parsed ← parsed_operations authority;
  map_err FAILED (PrivateJourney.validate_sequence parsed) ≫= fun _ =>
  first ← ok_or FAILED (head parsed);
  if negb (forallb (of_plan authority first session) parsed) then Err FAILED else
  if negb (plan_endpoint_ok (au_endpoint authority)) then Err FAILED else Ok authority.
Definition parse (bytes session : string) : PM Authority :=
  authority ← sm_lift (check_authority bytes session);
  expiry authority ≫= fun _ => mret authority.

Definition tag (self : Authority) (key domain nonce : string) : string :=
  hmac_sha256 key (domain +:+ nonce +:+ au_plan_id self +:+ au_manifest_sha256 self
                   +:+ au_recipe_sha256 self).

(** [received[i]["operation"][field] = slot]; an absent entry is inserted. *)
Definition set_slot (field slot : string) (op : value) : option value :=
  let inner := match jget op "operation" with Some inner => inner | None => jnull end in
  inner ← jindex_set field (jstring slot) inner;
  jindex_set "operation" inner op.

Fixpoint load_values (store : SecretStore) (references : list string) : PM (list value) :=
  match references with
  | [] => mret []
  | reference :: references =>
      bytes ← sm_map_err FAILED (on_files (load store reference));
      v ← sm_lift (ok_or FAILED (from_slice bytes));
      vs ← load_values store references;
      mret ((v : value) :: vs)
  end.

(** What was received is the reviewed plan, but for the two secrets. *)
Definition validate_received (self : Authority) (store : SecretStore) (references : list string)
    : PM unit :=
  received ← load_values store references;
  match received with
  | [first; second; third; fourth] =>
      first ← sm_lift (ok_or FAILED (set_slot "password" PASSWORD_SLOT first));
      second ← sm_lift (ok_or FAILED (set_slot "code" CODE_SLOT second));
      if [first; second; third; fourth] != au_operations self then sm_err FAILED else
      expiry self ≫= fun _ => mret tt
  | _ => sm_err FAILED
  end.

(** ** The worker *)

(** [WorkerMessage::PrivatePreflight] *)
Definition private_preflight (handle : value) (origin url endpoint : string) : PM unit :=
  let failed := "private_preflight_failed"%string in
  sm_map_err failed (
    browser ← the_browser;
    if bm_ws_url browser != endpoint then sm_err failed else
    prepare_private_target handle origin url ≫= fun _ => mret tt).

(** [WorkerMessage::Private] *)
Definition run_private (staged : PrivateStagedHandoff)
    (controller : PrivateRecovery.RecoveryController) (binding : PrivateBound.BoundExecution)
    : PM (PrivateJourney.ReconciledPrivateJourney PrivateDelivery.Delivery) :=
  let failed := "private_worker_failed_closed"%string in
  current ← is_current staged;
  if negb current then sm_err "private_handoff_expired" else
  sm_map_err failed (
    daemon ← the_daemon;
    browser ← the_browser;
    PrivateBound.validate binding staged (bm_ws_url browser) (ds_session_id daemon) ≫= fun _ =>
    let store := sh_store staged in
    PrivateRecovery.validate_scope controller store (bm_ws_url browser) (ds_session_id daemon)
      ≫= fun _ =>
    pending ← PrivateJourney.execute_private_journey store (sh_references staged);
    closed ← PrivateJourney.sanitize_and_close pending store;
    reconciled ← PrivateJourney.reconcile closed store controller;
    mret (PrivateDelivery.bind_delivery reconciled store binding)).

(** ** One execution *)

(** The provisioned key and record: what [coordinator_files] returns. *)
Class Provisioned := { provisioned : nat -> option (string * string) }.
Context `{!Provisioned}.
Definition coordinator_files : PM (string * string) :=
  elapse ≫= fun _ => step (fun m => (ok_or FAILED (provisioned (m_time m)), m)).

(** [SecretStore::open(&root.join(name))] *)
Definition open_store (root name : string) : PM SecretStore :=
  sm_map_err FAILED (on_files (SecretStore.open e_pid (path_of (path_join root name)))).

Definition approval (authority : Authority) (parsed : list PrivateOperation) (key : string)
    : PM PrivateHandoffAuthority :=
  first ← sm_lift (ok_or FAILED (head parsed));
  expires ← expiry authority;
  sm_map_err FAILED (authority_new (au_manifest_sha256 authority)
    (PrivateOperation.account_scope first) (PrivateOperation.service_tab_handle first)
    (PrivateJourney.destinations_of parsed) key expires).

Definition execute (root session : string) : PM unit :=
  check_peer FAILED ≫= fun _ =>
  files ← coordinator_files;
  let '(key, bytes) := files in
  authority ← parse bytes session;
  parsed ← sm_lift (parsed_operations authority);
  first ← sm_lift (ok_or FAILED (head parsed));
  private_preflight (PrivateOperation.service_tab_handle first)
    (PrivateOperation.expected_origin first) (PrivateOperation.expected_url first)
    (au_endpoint authority) ≫= fun _ =>
  nonce ← within FAILED (read_exact FAILED 32);
  write_all FAILED (tag authority key (PrivateDelivery.domain "ABPX1-server") nonce) ≫= fun _ =>
  operations ← open_store root "operations";
  handoff ← approval authority parsed key;
  staged ← sm_map_err FAILED (receive_connected handoff operations);
  validate_received authority operations (sh_references staged) ≫= fun _ =>
  current_files ← coordinator_files;
  if current_files != files then sm_err FAILED else
  bindings ← open_store root "bindings";
  binding ← sm_map_err FAILED (PrivateBound.claim bindings (au_plan_id authority)
    (au_manifest_sha256 authority) staged (au_endpoint authority) session);
  recovery ← open_store root "recovery";
  controller ← sm_lift (map_err FAILED
    (PrivateRecovery.controller_new recovery (au_endpoint authority) session));
  reconciled ← sm_map_err FAILED (run_private staged controller binding);
  r ← sm_try (
    expiry authority ≫= fun _ =>
    write_all FAILED (tag authority key (PrivateDelivery.domain "ABPX1-complete") nonce));
  match r with
  | Ok _ => sm_map_err FAILED (PrivateDelivery.deliver reconciled key)
  | Err e =>
      let permit := PrivateJourney.pr_permit (PrivateJourney.rj_pending reconciled) in
      sm_modify (fun m => with_world
        (drop_file (p_store permit) (p_file permit) (m_world m)) m) ≫= fun _ => sm_err e
  end.

End coordinator.

End PrivateCoordinator.
