(* ===== verification/PrivateFrames.v ===== *)
(** * What private programs leave alone

    For the files of the stores and gates, every program of the private
    components is a history of store operations, interleaved with the operations
    of other processes, and none of its own operations finishes a gate. The file
    frames the programs for any relation that is respected by such histories and
    by the commands they send. *)

From S2P Require Import Prelude RustStr Env SecretFs SecretStore GateStore GateView StoreHistory PrivateIdentity PrivacyGate PrivateOperation ServiceTabs PrivateCdp PrivateBroker PrivateAttachment PrivateExecution PrivateRecovery PrivateJourney PrivateHandoff PrivateBound PrivateDelivery PrivateCoordinator.
From Stdlib Require Import Ascii.
Import SecretFs SecretStore GateStore GateView StoreHistory PrivacyGate PrivateCdp PrivateBroker PrivateExecution.

Local Open Scope Z_scope.

Module PrivateFrames.

(** ** Histories without a finish *)

Section reached.
Context `{!Oracle, !Crypto, !Serde GateState}.

Definition no_finish (o : Op) : Prop := forall e, label_of o <> Finish e.

Definition reached : relation World := fun w w' =>
  exists ops, Forall no_finish ops /\ w' = history ops w.

#[export] Instance reached_refl : Reflexive reached.
Proof. intros w. by exists []. Qed.
#[export] Instance reached_trans : Transitive reached.
Proof.
  intros w1 w2 w3 (ops1 & H1 & ->) (ops2 & H2 & ->). exists (ops1 ++ ops2).
  split; [by apply Forall_app|]. by rewrite history_app.
Qed.

Lemma reached_op o : no_finish o -> preserves reached (run o).
Proof. intros Ho w. exists [o]. split; [by constructor|done]. Qed.
Lemma reached_discard {A} (m : SM World A) : preserves reached (discard m) -> preserves reached m.
Proof.
  intros Hm w. specialize (Hm w). revert Hm. unfold discard, mbind, sm_bind.
  by destruct (m w) as [[a|e] w'].
Qed.

(** Every operation of the private programs is one operation of a history. *)
Local Ltac one_op o := first [exact (reached_op o ltac:(intros ? [=]))
                             |exact (reached_discard _ (reached_op o ltac:(intros ? [=])))].
Lemma reached_open pid root : preserves reached (SecretStore.open pid root).
Proof. one_op (OOpen pid root). Qed.
Lemma reached_open_gate pid root : preserves reached (open_gate pid root).
Proof. one_op (OOpenGate pid root). Qed.
Lemma reached_stage h p : preserves reached (stage h p).
Proof. one_op (OStage h p). Qed.
Lemma reached_load h r : preserves reached (load h r).
Proof. one_op (OLoad h r). Qed.
Lemma reached_admit h r : preserves reached (admit_ h r).
Proof. one_op (OAdmit h r). Qed.
Lemma reached_bind h e r : preserves reached (bind_reconciliation h e r).
Proof. one_op (OBindReconciliation h e r). Qed.
Lemma reached_bookmark h e : preserves reached (reconciliation_reference h e).
Proof. one_op (OReconciliationReference h e). Qed.
Lemma reached_backup h r c a s k : preserves reached (reserve_backup_code h r c a s k).
Proof. one_op (OReserveBackupCode h r c a s k). Qed.
Lemma reached_journey h c rs : preserves reached (reserve_journey h c rs).
Proof. one_op (OReserveJourney h c rs). Qed.
Lemma reached_result h r b : preserves reached (store_result h r b).
Proof. one_op (OStoreResult h r b). Qed.
Lemma reached_delivery h r : preserves reached (admit_delivery h r).
Proof. one_op (OAdmitDelivery h r). Qed.
Lemma reached_delivered h r : preserves reached (complete_delivery h r).
Proof. one_op (OCompleteDelivery h r). Qed.
Lemma reached_load_result h r : preserves reached (load_result h r).
Proof. one_op (OLoadResult h r). Qed.
Lemma reached_status h r : preserves reached (status h r).
Proof. one_op (OStatus h r). Qed.
Lemma reached_public_lease h : preserves reached (gate_public_lease h).
Proof. one_op (OPublicLease h). Qed.
Lemma reached_public_epoch h : preserves reached (gate_public_epoch h).
Proof. one_op (OPublicEpoch h). Qed.
Lemma reached_begin_scoped h t d : preserves reached (gate_begin_private_scoped h t d).
Proof. one_op (OBeginScoped h t d). Qed.
Lemma reached_begin_journey h t ds : preserves reached (gate_begin_private_journey h t ds).
Proof.
  apply reached_discard, (reached_op (OBeginJourney h t ds)).
  intros e. cbn. by destruct (head ds).
Qed.
Lemma reached_resume h : preserves reached (gate_resume_private h).
Proof. one_op (OResume h). Qed.
Lemma reached_advance h p e prev st t n : preserves reached (gate_advance_private h p e prev st t n).
Proof. one_op (OAdvance h p e prev st t n). Qed.
Lemma reached_authorizes h p e : preserves reached (gate_permit_authorizes h p e).
Proof. one_op (OPermitAuthorizes h p e). Qed.
Lemma reached_scope h e : preserves reached (gate_private_scope h e).
Proof. one_op (OPrivateScope h e). Qed.
Lemma reached_command h : preserves reached (gate_command_lease h).
Proof. one_op (OCommandLease h). Qed.
Lemma reached_complete h r : preserves reached (gate_complete_command h r).
Proof. one_op (OCompleteCommand h r). Qed.
Lemma reached_same_directory h h' : preserves reached (same_directory h h').
Proof. one_op (OSameDirectory h h'). Qed.
Lemma reached_getrandom n : preserves reached (getrandom n).
Proof. one_op (OGetrandom n). Qed.
Lemma reached_gate_base root : preserves reached (ensure_gate_base root).
Proof. one_op (OEnsureGateBase root). Qed.
Lemma reached_private_directory root : preserves reached (ensure_private_directory root).
Proof. one_op (OEnsureDirectory root). Qed.
Lemma reached_drop pid l w : reached w (drop_lease pid l w).
Proof. exists [ODropLease pid l]. split; [constructor; [by intros ? [=]|constructor]|done]. Qed.
Lemma reached_drop_file store file w : reached w (drop_file store file w).
Proof. destruct file; [apply reached_drop|done]. Qed.

Lemma reached_or_drop {A} self l (m : SM World A) :
  preserves reached m -> preserves reached (or_drop self l m).
Proof.
  intros Hm w. unfold or_drop. specialize (Hm w). destruct (m w) as [[a|e] w']; cbn in *; [done|].
  etrans; [exact Hm|]. apply reached_drop.
Qed.
Lemma reached_then_drop {A} self l (m : SM World A) :
  preserves reached m -> preserves reached (then_drop self l m).
Proof.
  intros Hm w. unfold then_drop. specialize (Hm w). destruct (m w) as [r w']; cbn in *.
  etrans; [exact Hm|]. apply reached_drop.
Qed.
End reached.

#[export] Hint Resolve reached_open reached_open_gate reached_stage reached_load reached_admit
  reached_bind reached_bookmark reached_backup reached_journey reached_result reached_delivery
  reached_delivered reached_load_result reached_status reached_public_lease
  reached_public_epoch reached_begin_scoped reached_begin_journey reached_resume reached_advance
  reached_authorizes reached_scope reached_command reached_complete reached_same_directory
  reached_getrandom reached_gate_base reached_private_directory reached_or_drop
  reached_then_drop : frame.

(** ** Machine relations *)

Section frames.
Context `{!Json, !Oracle, !Crypto, !Serde GateState, !UrlLib, !JsonBuild, !JsonTree, !Environment}.

(** A relation respected by what programs do between the commands they send, and
    by the commands for which [sent] holds. *)
Class MachineFrame (R : relation Machine) (sent : Command -> Prop) := {
  mf_refl :: Reflexive R;
  mf_trans :: Transitive R;
  mf_passes m : R m (passes m);
  mf_world m w : reached (m_world m) w -> R m (with_world w m);
  mf_state m s : R m (with_state s m);
  mf_daemon m d : R m (with_daemon d m);
  mf_shutdown m b o f j : R m (with_client (set_shutdown b o f j (m_client m)) m);
  mf_writes m s : R m (writes s m);
  mf_sends m c : sent c -> R m (sends c m);
}.

(** Every command but the evaluation of a script. *)
Definition quiet (c : Command) : Prop := c_method c <> "Runtime.evaluate"%string.

Context (R : relation Machine) (sent : Command -> Prop) `{!MachineFrame R sent}.
Context (Hquiet : forall c, quiet c -> sent c).

Lemma on_files_inv {A} (op : SM World A) m r m' :
  on_files op m = (r, m') ->
  exists w, op (m_world (passes m)) = (r, w) /\ m' = with_world w (passes m).
Proof.
  unfold on_files, elapse, sm_modify, mbind, sm_bind, step. cbn.
  destruct (op _) as [r0 w]. intros [= <- <-]. eauto.
Qed.

Lemma frame_elapse : preserves R elapse.
Proof. intros m. apply mf_passes. Qed.
#[local] Hint Resolve frame_elapse : frame.
Lemma frame_after {A} (f : Machine -> res A * Machine) :
  (forall m, R m (f m).2) -> preserves R (elapse ≫= fun _ => step f).
Proof. intros Hf. apply preserves_bind; [apply _|apply frame_elapse|]. intros _ m. apply Hf. Qed.

Lemma frame_now : preserves R now.
Proof. by apply frame_after. Qed.
Lemma frame_on_world {A} (f : World -> A * World) :
  (forall w, reached w (f w).2) -> preserves R (on_world f).
Proof.
  intros Hf m. unfold on_world. specialize (Hf (m_world m)).
  destruct (f (m_world m)) as [a w]. by apply mf_world.
Qed.
Lemma frame_on_files {A} (op : SM World A) : preserves reached op -> preserves R (on_files op).
Proof.
  intros Hop. apply frame_after. intros m. specialize (Hop (m_world m)).
  destruct (op (m_world m)) as [r w]. by apply mf_world.
Qed.
#[local] Hint Resolve frame_now frame_on_files : frame.

Lemma frame_within {A} label (p : SM Machine A) : preserves R p -> preserves R (within label p).
Proof. intros Hp m. unfold within. specialize (Hp m). by destruct (p m) as [[a|e] m']. Qed.
Lemma frame_or_release {A} permit (p : SM Machine A) :
  preserves R p -> preserves R (or_release permit p).
Proof.
  intros Hp m. unfold or_release. specialize (Hp m). destruct (p m) as [[a|e] m']; cbn in *; [done|].
  etrans; [exact Hp|]. apply mf_world, reached_drop_file.
Qed.
Lemma frame_leasing {A} owner lease (p : SM Machine A) :
  preserves R p -> preserves R (leasing owner lease p).
Proof.
  intros Hp m. unfold leasing. specialize (Hp m). destruct (p m) as [r m']; cbn in *.
  destruct lease; [|done]. etrans; [exact Hp|]. apply mf_world, reached_drop.
Qed.
#[local] Hint Extern 1 (preserves _ (within _ _)) => apply frame_within; frame : frame.
#[local] Hint Extern 1 (preserves _ (or_release _ _)) => apply frame_or_release; frame : frame.
#[local] Hint Extern 1 (preserves _ (leasing _ _ _)) => apply frame_leasing; frame : frame.

Lemma frame_load_snapshot label : preserves R (load_snapshot label).
Proof. apply frame_after. intros m. by destruct (e_load (m_time m)). Qed.
#[local] Hint Resolve frame_load_snapshot : frame.
Lemma frame_mutate {A} label (f : ServiceTabs.ServiceState -> SM Machine (ServiceTabs.ServiceState * A)) :
  (forall s, preserves R (f s)) -> preserves R (mutate label f).
Proof.
  intros Hf. unfold mutate. frame. intros m. unfold step.
  destruct (e_commit (m_time m)) as [|[]]; apply mf_state.
Qed.

Lemma frame_the_daemon : preserves R the_daemon.
Proof. intros m. done. Qed.
Lemma frame_the_client : preserves R the_client.
Proof. intros m. done. Qed.
Lemma frame_the_browser : preserves R the_browser.
Proof. intros m. done. Qed.
#[local] Hint Resolve frame_the_daemon frame_the_client frame_the_browser : frame.

Lemma frame_authorizes permit gate : preserves R (authorizes_gate permit gate).
Proof.
  unfold authorizes_gate. frame. apply frame_on_world. intros w. unfold authorizes.
  destruct (p_file permit) as [l|]; [|done].
  pose proof (reached_authorizes (g_store gate) (gl_dir l) (p_epoch permit) w) as Hr.
  by destruct (gate_permit_authorizes _ _ _ w).
Qed.
#[local] Hint Resolve frame_authorizes : frame.
Lemma frame_permit_matches permit : preserves R (private_permit_matches permit).
Proof. unfold private_permit_matches. frame. Qed.
#[local] Hint Resolve frame_permit_matches : frame.

Lemma frame_dispatch method params session :
  (forall s, sent {| c_method := method; c_params := params; c_session := s |}) ->
  preserves R (dispatch method params session).
Proof.
  intros Hsent. apply frame_after. intros m. destruct (_ || _); [done|]. cbn.
  etrans; [by apply mf_sends|apply mf_passes].
Qed.
Lemma frame_answer_or {A} label (a : Answer A) : preserves R (answer_or label a).
Proof. unfold answer_or. frame. Qed.
#[local] Hint Resolve frame_answer_or : frame.
Lemma frame_send_command_inner method params session :
  (forall s, sent {| c_method := method; c_params := params; c_session := s |}) ->
  preserves R (send_command_inner method params session).
Proof. intros Hsent. unfold send_command_inner. frame. by apply frame_dispatch. Qed.

Lemma frame_public_lease : preserves R client_public_lease.
Proof.
  unfold client_public_lease, observer_lease, public_lease. frame.
  apply frame_on_files. frame. apply reached_or_drop. frame.
Qed.
#[local] Hint Resolve frame_public_lease : frame.
Lemma frame_send_with_timeout label method params session :
  (forall s, sent {| c_method := method; c_params := params; c_session := s |}) ->
  preserves R (send_command_with_timeout label method params session).
Proof.
  intros Hsent. unfold send_command_with_timeout, command_lease.
  repeat first [apply frame_leasing|apply frame_dispatch|apply frame_on_files; unfold complete; solve [frame]|frame_step];
    done.
Qed.

(** A private command, and the probe of its session. *)
Lemma frame_send_private permit method params session timeout :
  (forall s, sent {| c_method := method; c_params := params; c_session := s |}) ->
  preserves R (send_private_command permit method params session timeout).
Proof.
  intros Hsent. unfold send_private_command. frame; apply frame_send_command_inner; [|done].
  intros x. by apply Hquiet.
Qed.
Lemma frame_quiet permit method params session timeout :
  method <> "Runtime.evaluate"%string ->
  preserves R (send_private_command permit method params session timeout).
Proof. intros Hm. apply frame_send_private. intros x. by apply Hquiet. Qed.
#[local] Hint Extern 2 (preserves _ (send_private_command _ _ _ _ _)) =>
  apply frame_quiet; discriminate : frame.
#[local] Hint Extern 2 (preserves _ (send_command_with_timeout _ _ _ _)) =>
  apply frame_send_with_timeout; intros ?; apply Hquiet; discriminate : frame.

Lemma frame_begin_scoped g t d : preserves reached (begin_private_scoped g t d).
Proof. unfold begin_private_scoped, permit_of. frame. apply reached_or_drop. frame. Qed.
Lemma frame_begin_journey g j : preserves reached (PrivacyGate.begin_private_journey g j).
Proof. unfold PrivacyGate.begin_private_journey, permit_of. frame. apply reached_or_drop. frame. Qed.
Lemma frame_resume g : preserves reached (resume_private g).
Proof. unfold resume_private, permit_of. frame. apply reached_or_drop. frame. Qed.
Lemma frame_for_endpoint p v e : preserves reached (for_endpoint p v e).
Proof. unfold for_endpoint. frame. Qed.
#[local] Hint Resolve frame_begin_scoped frame_begin_journey frame_resume frame_for_endpoint : frame.
Lemma frame_client_gate : preserves R client_gate.
Proof. unfold client_gate. frame. Qed.
#[local] Hint Resolve frame_client_gate : frame.
Lemma frame_client_begin_journey j : preserves R (client_begin_journey j).
Proof. unfold client_begin_journey. frame. Qed.
Lemma frame_begin_private_interval t : preserves R (begin_private_interval t).
Proof. unfold begin_private_interval. frame. Qed.
#[local] Hint Resolve frame_client_begin_journey frame_begin_private_interval : frame.

Lemma frame_take_sink binding : preserves R (take_sink binding).
Proof. apply frame_after. intros m. destruct (e_join (m_time m)); [apply mf_shutdown..|done]. Qed.
Lemma frame_join_workers binding : preserves R (join_workers binding).
Proof.
  unfold join_workers. apply preserves_bind; [apply _|apply frame_the_client|intros c].
  destruct (cl_joined c); [frame|]. apply frame_after. intros m.
  destruct (e_join (m_time m)) as [[]| | |]; [apply mf_shutdown..|done].
Qed.
#[local] Hint Resolve frame_take_sink frame_join_workers : frame.
Lemma frame_quiesce permit : preserves R (quiesce_private_transport permit).
Proof.
  unfold quiesce_private_transport. frame. apply frame_within. frame.
  intros m. apply mf_shutdown.
Qed.
#[local] Hint Resolve frame_quiesce : frame.

(** ** The broker, the attachment and the journey *)

Section programs.
Context `{!Chrono, !Serde (list Scalar), !SerdeValue ServiceTabs.ServiceTabHandle}.
Context `{!Serde Env.value, !Serde PrivateOperation.PrivateOperation}.

Lemma frame_validate_broker s staged live e o u :
  preserves R (validate_broker_snapshot s staged live e o u).
Proof. unfold validate_broker_snapshot, unexpired. frame. Qed.
#[local] Hint Resolve frame_validate_broker : frame.
Lemma frame_observe staged o u permit : preserves R (observe_private_target staged o u permit).
Proof. unfold observe_private_target. frame. Qed.
#[local] Hint Resolve frame_observe : frame.
Lemma frame_prepare staged o u : preserves R (prepare_private_target staged o u).
Proof. unfold prepare_private_target. frame. Qed.
Lemma frame_revalidate staged o u permit : preserves R (revalidate_private_target staged o u permit).
Proof. unfold revalidate_private_target. frame. Qed.
#[local] Hint Resolve frame_prepare frame_revalidate : frame.
Lemma frame_begin_authorized staged o u : preserves R (begin_authorized_private_interval staged o u).
Proof. unfold begin_authorized_private_interval. frame. Qed.

Lemma reached_advance_target permit stage fresh w :
  reached w (advance_target permit stage fresh w).2.
Proof.
  unfold advance_target. destruct (p_file permit) as [l|]; [|done].
  destruct (identity_digest <$> p_scope permit) as [d|]; [|done].
  pose proof (reached_advance (p_store permit) (gl_dir l) (p_epoch permit) d stage
    (PrivateIdentity.target_id fresh) (PrivateIdentity.scope_digest fresh) w) as Hr.
  destruct (gate_advance_private _ _ _ _ _ _ _ w) as [[sc|e] w']; cbn in *; [done|].
  etrans; [exact Hr|apply reached_drop].
Qed.
Lemma frame_permit_advance permit stage fresh : preserves R (permit_advance permit stage fresh).
Proof.
  apply frame_after. intros m. pose proof (reached_advance_target permit stage fresh (m_world m)).
  destruct (advance_target _ _ _ _) as [[[[]|e] p] w]; by apply mf_world.
Qed.
#[local] Hint Resolve frame_permit_advance : frame.
Lemma frame_advance_broker s live e prev next stage permit :
  preserves R (advance_broker_snapshot s live e prev next stage permit).
Proof. unfold advance_broker_snapshot. frame. Qed.
#[local] Hint Resolve frame_advance_broker : frame.
Lemma frame_advance prev next stage permit session :
  preserves R session -> preserves R (advance_private_target prev next stage permit session).
Proof. intros Hs. unfold advance_private_target. frame. apply frame_mutate. intros. frame. Qed.

Lemma frame_acquire store permit : preserves R (PrivateAttachment.acquire store permit).
Proof. unfold PrivateAttachment.acquire. frame. Qed.
Lemma frame_validate_attachment a permit : preserves R (PrivateAttachment.validate a permit).
Proof. unfold PrivateAttachment.validate. frame. Qed.
#[local] Hint Resolve frame_acquire frame_validate_attachment : frame.
Lemma frame_session_id a permit : preserves R (PrivateAttachment.session_id a permit).
Proof. unfold PrivateAttachment.session_id. frame. Qed.
#[local] Hint Resolve frame_session_id : frame.
Lemma frame_closed_matches c permit : preserves R (closed_matches c permit).
Proof. unfold closed_matches. frame. Qed.
#[local] Hint Resolve frame_closed_matches : frame.
Lemma frame_verify_closed a permit c store :
  preserves R (PrivateAttachment.verify_closed_detach a permit c store).
Proof. unfold PrivateAttachment.verify_closed_detach. frame. Qed.
Lemma frame_detach a store permit : preserves R (PrivateAttachment.detach a store permit).
Proof.
  unfold PrivateAttachment.detach, PrivateAttachment.check_payload, PrivateAttachment.detach_once.
  frame.
Qed.
#[local] Hint Resolve frame_verify_closed frame_detach : frame.

Lemma frame_load_operations store refs : preserves R (PrivateJourney.load_operations store refs).
Proof. induction refs; cbn; frame. Qed.
#[local] Hint Resolve frame_load_operations : frame.
Lemma frame_load_sequence store refs : preserves R (PrivateJourney.load_sequence store refs).
Proof. unfold PrivateJourney.load_sequence. frame. Qed.
#[local] Hint Resolve frame_load_sequence : frame.

(** The evaluation of a script is the one command that is not quiet. *)
Lemma frame_evaluate permit params session timeout :
  (forall s, sent {| c_method := "Runtime.evaluate"; c_params := params; c_session := s |}) ->
  preserves R (send_private_command permit "Runtime.evaluate" params session timeout).
Proof. apply frame_send_private. Qed.

(** ** Programs that evaluate scripts *)

Section all.
Context (Hall : forall c, sent c).
#[local] Hint Extern 3 (preserves _ (send_private_command _ _ _ _ _)) =>
  apply frame_send_private; intros ?; apply Hall : frame.

Lemma frame_execute_dom permit session op : preserves R (execute_dom permit session op).
Proof. unfold execute_dom. frame. Qed.
Lemma frame_reserve_operation store ref op : preserves R (reserve_operation store ref op).
Proof. unfold reserve_operation. frame. Qed.
#[local] Hint Resolve frame_execute_dom frame_reserve_operation : frame.
Lemma frame_execute_staged permit session store ref op :
  preserves R (execute_staged_dom permit session store ref op).
Proof. unfold execute_staged_dom. frame. Qed.
#[local] Hint Resolve frame_execute_staged : frame.
Lemma frame_execute_operation store ref permit a :
  preserves R (execute_private_operation store ref permit a).
Proof. unfold execute_private_operation. frame. Qed.
#[local] Hint Resolve frame_execute_operation : frame.
Lemma frame_run_step store prev i ref op permit a :
  preserves R (PrivateJourney.run_step store prev i ref op permit a).
Proof. unfold PrivateJourney.run_step. frame. apply frame_advance. frame. Qed.
#[local] Hint Resolve frame_run_step : frame.
Lemma frame_run_steps store prev i stages permit a :
  preserves R (PrivateJourney.run_steps store prev i stages permit a).
Proof. revert prev i permit. induction stages as [|[r op] stages IH]; intros; cbn; frame. Qed.
#[local] Hint Resolve frame_run_steps : frame.
Lemma frame_journey_body store refs ops first permit :
  preserves R (PrivateJourney.journey_body store refs ops first permit).
Proof. unfold PrivateJourney.journey_body. frame. Qed.
#[local] Hint Resolve frame_journey_body : frame.
Lemma frame_execute_journey store refs : preserves R (PrivateJourney.execute_private_journey store refs).
Proof.
  unfold PrivateJourney.execute_private_journey. frame.
Qed.

Lemma frame_prove_blank permit t s tree f : preserves R (prove_blank permit t s tree f).
Proof. unfold prove_blank. frame. Qed.
#[local] Hint Resolve frame_prove_blank : frame.
Lemma frame_await_blank n permit t s : preserves R (await_blank n permit t s).
Proof. induction n; cbn; frame. Qed.
#[local] Hint Resolve frame_await_blank : frame.
Lemma frame_sanitize permit t s : preserves R (sanitize_private_page permit t s).
Proof. unfold sanitize_private_page. frame. Qed.
#[local] Hint Resolve frame_sanitize : frame.
Lemma frame_sanitize_and_close p store : preserves R (PrivateJourney.sanitize_and_close p store).
Proof. unfold PrivateJourney.sanitize_and_close. frame. Qed.
#[local] Hint Resolve frame_execute_journey frame_sanitize_and_close : frame.

(** ** Recovery, ingress, bindings and delivery *)

Context `{!Serde PrivateRecovery.AuthorityRecord, !PrivateRecovery.RecoveryFormats}.
Context `{!Serde PrivateBound.Binding, !PrivateBound.ProbeFormat, !PrivateDelivery.KeyFormat}.
Context `{!Serde (list PrivateOperation.PrivateOperation), !Serde (list Env.value)}.
Context `{!PrivateCoordinator.CoordinatorFormats, !PrivateCoordinator.Provisioned}.

Lemma frame_verify_detach store it : preserves R (PrivateRecovery.verify_detach store it).
Proof. unfold PrivateRecovery.verify_detach. frame. Qed.
Lemma frame_check_intent store r a : preserves R (PrivateRecovery.check_intent store r a).
Proof. unfold PrivateRecovery.check_intent. frame. Qed.
Lemma frame_check_status store r : preserves R (PrivateRecovery.check_status store r).
Proof. unfold PrivateRecovery.check_status. frame. Qed.
Lemma frame_check_operation store it : preserves R (PrivateRecovery.check_operation store it).
Proof. unfold PrivateRecovery.check_operation. frame. Qed.
#[local] Hint Resolve frame_verify_detach frame_check_intent frame_check_status
  frame_check_operation : frame.
Lemma frame_recover store r a : preserves R (PrivateRecovery.recover store r a).
Proof.
  unfold PrivateRecovery.recover. frame. apply frame_or_release. frame.
  apply frame_mutate. intros s. unfold PrivateRecovery.reconcile_state. frame.
Qed.
#[local] Hint Resolve frame_recover : frame.
Lemma frame_validate_scope c store e s : preserves R (PrivateRecovery.validate_scope c store e s).
Proof. unfold PrivateRecovery.validate_scope. frame. Qed.
Lemma frame_retain c store e r d : preserves R (PrivateRecovery.retain c store e r d).
Proof. unfold PrivateRecovery.retain. frame. Qed.
Lemma frame_controller_recover c store e : preserves R (PrivateRecovery.controller_recover c store e).
Proof.
  unfold PrivateRecovery.controller_recover, PrivateRecovery.load_authority,
    PrivateRecovery.recover_reconciliation. frame.
Qed.
#[local] Hint Resolve frame_validate_scope frame_retain : frame.
Lemma frame_reconcile {D} p store c : preserves R (PrivateJourney.reconcile (D:=D) p store c).
Proof.
  unfold PrivateJourney.reconcile. apply frame_or_release. frame.
  - apply frame_mutate. intros s. unfold PrivateJourney.reconcile_broker. frame.
  - intros m. apply mf_daemon.
Qed.
#[local] Hint Resolve frame_reconcile : frame.

Lemma frame_read_exact label n : preserves R (PrivateHandoff.read_exact label n).
Proof. apply frame_after. intros m. by destruct (e_read (m_time m) n). Qed.
Lemma frame_write_all label s : preserves R (PrivateHandoff.write_all label s).
Proof. apply frame_after. intros m. destruct (e_write (m_time m)); apply mf_writes. Qed.
Lemma frame_at_eof label : preserves R (PrivateHandoff.at_eof label).
Proof. apply frame_after. intros m. by destruct (e_eof (m_time m)). Qed.
Lemma frame_check_peer label : preserves R (PrivateHandoff.check_peer label).
Proof. unfold PrivateHandoff.check_peer. frame. Qed.
#[local] Hint Resolve frame_read_exact frame_write_all frame_at_eof frame_check_peer : frame.
Lemma frame_authority_new c a h d k e : preserves R (PrivateHandoff.authority_new c a h d k e).
Proof. unfold PrivateHandoff.authority_new. frame. Qed.
Lemma frame_stage_payloads a store l : preserves R (PrivateHandoff.stage_payloads a store l).
Proof. induction l; cbn; frame. Qed.
#[local] Hint Resolve frame_authority_new frame_stage_payloads : frame.
Lemma frame_receive_frame a store eof : preserves R (PrivateHandoff.receive_frame a store eof).
Proof.
  unfold PrivateHandoff.receive_frame, PrivateHandoff.spawn_blocking,
    PrivateHandoff.stage_validated.
  apply frame_within. frame. intros m. unfold step. by destruct (e_join (m_time m)).
Qed.
Lemma frame_is_current s : preserves R (PrivateHandoff.is_current s).
Proof. unfold PrivateHandoff.is_current. frame. Qed.
Lemma frame_binding_operations s : preserves R (PrivateHandoff.binding_operations s).
Proof.
  unfold PrivateHandoff.binding_operations. induction (PrivateHandoff.sh_references s); frame.
Qed.
#[local] Hint Resolve frame_is_current frame_binding_operations : frame.

Lemma frame_load_binding b : preserves R (PrivateBound.load_binding b).
Proof. unfold PrivateBound.load_binding. frame. Qed.
#[local] Hint Resolve frame_load_binding : frame.
Lemma frame_bound_check b s e n : preserves R (PrivateBound.check b s e n).
Proof. unfold PrivateBound.check. frame. Qed.
Lemma frame_check_admitted b : preserves R (PrivateBound.check_admitted b).
Proof. unfold PrivateBound.check_admitted. frame. Qed.
#[local] Hint Resolve frame_bound_check frame_check_admitted : frame.
Lemma frame_bound_validate b s e n : preserves R (PrivateBound.validate b s e n).
Proof. unfold PrivateBound.validate. frame. Qed.
#[local] Hint Resolve frame_bound_validate : frame.
Lemma frame_claim st p d s e n : preserves R (PrivateBound.claim st p d s e n).
Proof. unfold PrivateBound.claim. frame. Qed.
Lemma frame_bound_metadata b op e : preserves R (PrivateBound.delivery_metadata b op e).
Proof. unfold PrivateBound.delivery_metadata. frame. Qed.
Lemma frame_request body store : preserves R (PrivateBound.request body store).
Proof. unfold PrivateBound.request, PrivateBound.controller_validate. frame. Qed.
#[local] Hint Resolve frame_claim frame_bound_metadata frame_request : frame.
Lemma frame_controller_client key store : preserves R (PrivateBound.client key store).
Proof. unfold PrivateBound.client, PrivateBound.read_request. frame. Qed.

Lemma frame_current md : preserves R (PrivateDelivery.current md).
Proof. unfold PrivateDelivery.current. frame. Qed.
Lemma frame_shutdown : preserves R PrivateDelivery.shutdown.
Proof. apply frame_after. intros m. by destruct (e_write (m_time m)). Qed.
#[local] Hint Resolve frame_current frame_shutdown : frame.
Lemma frame_send k store r md : preserves R (PrivateDelivery.send k store r md).
Proof.
  unfold PrivateDelivery.send, PrivateDelivery.check_ready, PrivateDelivery.check_ack.
  apply frame_within. frame.
Qed.
#[local] Hint Resolve frame_send : frame.
Lemma frame_deliver j k : preserves R (PrivateDelivery.deliver j k).
Proof.
  unfold PrivateDelivery.deliver, PrivateDelivery.delivery_metadata. frame.
  intros m. apply mf_world, reached_drop_file.
Qed.
#[local] Hint Resolve frame_deliver : frame.

Lemma frame_expiry a : preserves R (PrivateCoordinator.expiry a).
Proof. unfold PrivateCoordinator.expiry. frame. Qed.
#[local] Hint Resolve frame_expiry : frame.
Lemma frame_parse b s : preserves R (PrivateCoordinator.parse b s).
Proof. unfold PrivateCoordinator.parse. frame. Qed.
Lemma frame_load_values store refs : preserves R (PrivateCoordinator.load_values store refs).
Proof. induction refs; cbn; frame. Qed.
#[local] Hint Resolve frame_parse frame_load_values : frame.
Lemma frame_validate_received a store refs :
  preserves R (PrivateCoordinator.validate_received a store refs).
Proof. unfold PrivateCoordinator.validate_received. frame. Qed.
Lemma frame_preflight h o u e : preserves R (PrivateCoordinator.private_preflight h o u e).
Proof. unfold PrivateCoordinator.private_preflight. frame. Qed.
Lemma frame_run_private s c b : preserves R (PrivateCoordinator.run_private s c b).
Proof. unfold PrivateCoordinator.run_private. frame. Qed.
Lemma frame_coordinator_files : preserves R PrivateCoordinator.coordinator_files.
Proof. by apply frame_after. Qed.
Lemma frame_open_store root name : preserves R (PrivateCoordinator.open_store root name).
Proof. unfold PrivateCoordinator.open_store. frame. Qed.
Lemma frame_approval a ops k : preserves R (PrivateCoordinator.approval a ops k).
Proof. unfold PrivateCoordinator.approval. frame. Qed.
#[local] Hint Resolve frame_validate_received frame_preflight frame_run_private
  frame_coordinator_files frame_open_store frame_approval frame_receive_frame : frame.
Lemma frame_execute root session : preserves R (PrivateCoordinator.execute root session).
Proof.
  unfold PrivateCoordinator.execute, PrivateHandoff.receive_connected. frame.
  intros m. apply mf_world, reached_drop_file.
Qed.
End all.

End programs.

End frames.

Section evaluations.
Context `{!Json}.

(** The parameters of the scripts that were evaluated, in order. *)
Definition evaluations (sent : list Command) : list (option Env.value) :=
  omap (fun c => if c_method c == "Runtime.evaluate"%string then Some (c_params c) else None) sent.

Lemma evaluations_quiet l c : quiet c -> evaluations (l ++ [c]) = evaluations l.
Proof.
  intros Hc. unfold evaluations. rewrite omap_app. cbn.
  rewrite bool_decide_false by done. by rewrite app_nil_r.
Qed.

End evaluations.

End PrivateFrames.
