(* ===== verification/PrivateClosed.v ===== *)
(** * A private plan leaves its gate closed

    From the first script a coordinator evaluates in the page on, whatever it
    returns and whatever other processes do short of finishing the gate, the gate
    of the daemon's client is closed to every public access. *)

From Stdlib Require Import Ascii.
From S2P Require Import Prelude RustStr Env SecretFs SecretStore GateStore GateView StoreHistory PrivateIdentity PrivacyGate PrivateOperation ServiceTabs PrivateCdp PrivateBroker PrivateAttachment PrivateExecution PrivateRecovery PrivateJourney PrivateHandoff PrivateBound PrivateDelivery PrivateCoordinator PrivateFrames.
From S2P Require Import Prelude RustStr Env SecretFs SecretStore GateStore StoreHistory PrivateIdentity PrivacyGate PrivateOperation ServiceTabs PrivateCdp PrivateBroker PrivateAttachment PrivateExecution PrivateRecovery PrivateJourney PrivateFrames.
Import SecretFs SecretStore GateStore GateView StoreHistory PrivacyGate PrivateCdp PrivateFrames.
Local Open Scope Z_scope.

Module PrivateClosed.

Section closed.
Context `{!Json, !Oracle, !Crypto, !Serde GateState, !UrlLib, !JsonBuild, !JsonTree, !Environment}.
Context `{!Chrono, !Serde (list Scalar), !SerdeValue ServiceTabs.ServiceTabHandle}.
Context `{!Serde Env.value, !Serde PrivateOperation.PrivateOperation, !Serde PrivateBound.Binding}.
Context `{!Serde (list PrivateOperation.PrivateOperation), !Serde (list Env.value)}.
Context `{!Serde PrivateRecovery.AuthorityRecord, !PrivateDelivery.KeyFormat}.
Context `{!PrivateCoordinator.CoordinatorFormats, !PrivateCoordinator.Provisioned}.
Local Abbreviation PM := (SM Machine).

(** Other processes do what they like but finish the gate. *)
Definition others_do_not_finish : Prop := forall t, Forall no_finish (e_meanwhile t).

Section gate.
Context (g : PrivacyGate) (Hothers : others_do_not_finish).

Definition closed (w : World) : Prop :=
  keyed (key (g_store g)) (directory (g_store g)) w /\
  ~ is_public (gate_view (key (g_store g)) (directory (g_store g)) w).

Lemma reached_closed w w' : reached w w' -> closed w -> closed w'.
Proof.
  intros (ops & Hops & ->) [Hk Hv]. apply closed_history; [done..|].
  intros o e Ho. by apply (proj1 (List.Forall_forall _ _) Hops o Ho).
Qed.
Lemma reached_passes m : reached (m_world m) (m_world (passes m)).
Proof. exists (e_meanwhile (m_time m)). split; [apply Hothers|done]. Qed.

(** For the files a program is a history without a finish, and it keeps the gate
    of the client. *)
Definition acts : relation Machine := fun m m' =>
  reached (m_world m) (m_world m') /\ cl_gate (m_client m') = cl_gate (m_client m).

#[local] Instance acts_frame : MachineFrame acts (fun _ => True).
Proof.
  split; try done.
  - intros m1 m2 m3 [W1 G1] [W2 G2]. split; [by etrans|congruence].
  - intros m. split; [apply reached_passes|done].
Qed.

(** Nothing was evaluated, or the gate is closed. *)
Definition shut : relation Machine := fun m m' =>
  acts m m' /\
  (evaluations (m_sent m') = evaluations (m_sent m) \/ closed (m_world m')).

#[local] Instance shut_frame : MachineFrame shut quiet.
Proof.
  split.
  - intros m. split; [apply (mf_refl (sent:=fun _ => True))|by left].
  - intros m1 m2 m3 [A1 [E1|C1]] [A2 [E2|C2]]; (split; [by etrans|]); auto.
    + left. congruence.
    + right. eapply reached_closed; [apply A2|done].
  - intros m. split; [apply (mf_passes (sent:=fun _ => True))|by left].
  - intros m w Hw. split; [by apply (mf_world (sent:=fun _ => True))|by left].
  - intros m s. split; [done|by left].
  - intros m d. split; [done|by left].
  - intros m b o f j. split; [done|by left].
  - intros m s. split; [done|by left].
  - intros m c Hc. split; [done|]. left. by apply evaluations_quiet.
Qed.

Definition is_client (m : Machine) : Prop := cl_gate (m_client m) = Some g.

Lemma acts_closed {A} (p : PM A) m r m' :
  preserves acts p -> p m = (r, m') -> closed (m_world m) -> closed (m_world m').
Proof.
  intros Hp Hrun Hc. apply (preserves_run _ _ _ _ _ Hp) in Hrun as [Hr _].
  by eapply reached_closed.
Qed.

(** A step that keeps [shut] and closes the gate when it succeeds, before one
    that only acts. *)
Lemma shut_then {A B} (p : PM A) (q : A -> PM B) m r m' :
  shut m (p m).2 ->
  (forall a m1, p m = (Ok a, m1) -> closed (m_world m1)) ->
  (forall a, preserves acts (q a)) ->
  (p ≫= q) m = (r, m') -> shut m m'.
Proof.
  intros Hp Hclosed Hq Hrun. apply sm_bind_inv in Hrun as [(a & m1 & Ha & Hrun)|(e & He & _)].
  - rewrite Ha in Hp. specialize (Hclosed a m1 Ha).
    pose proof (preserves_run _ _ _ _ _ (Hq a) Hrun) as Hacts.
    split; [etrans; [apply Hp|done]|]. right. eapply reached_closed; [apply Hacts|done].
  - by rewrite He in Hp.
Qed.

(** A run of [p] that keeps [shut], then one of [q] that does from where [p] ends. *)
Lemma shut_bind {A B} (p : PM A) (q : A -> PM B) m r m' :
  preserves shut p -> is_client m ->
  (forall a m1 r m', is_client m1 -> p m = (Ok a, m1) -> q a m1 = (r, m') -> shut m1 m') ->
  (p ≫= q) m = (r, m') -> shut m m'.
Proof.
  intros Hp Hg Hq Hrun. apply sm_bind_inv in Hrun as [(a & m1 & Ha & Hrun)|(e & He & _)].
  - pose proof (preserves_run _ _ _ _ _ Hp Ha) as Hs. etrans; [exact Hs|].
    eapply Hq; [|done..]. unfold is_client. destruct Hs as [[_ ->] _]. done.
  - by apply (preserves_run _ _ _ _ _ Hp) in He.
Qed.

(** ** Beginning the interval *)

Lemma begin_closes j m p m' :
  is_client m -> client_begin_journey j m = (Ok p, m') -> closed (m_world m').
Proof.
  intros Hg Hrun. unfold client_begin_journey, client_gate in Hrun. guards.
  unfold the_client in *. simplify_eq. rewrite Hg in *. simplify_eq.
  apply on_files_inv in Hrun as (w & Hrun & ->). cbn [m_world with_world].
  unfold PrivacyGate.begin_private_journey in Hrun.
  apply sm_bind_ok in Hrun as ([l e] & w1 & Hbegin & Hpermit).
  assert (preserves reached (permit_of g (l, e))) as Hreach
    by (unfold permit_of; frame; apply reached_or_drop; frame).
  eapply reached_closed; [exact (preserves_run _ _ _ _ _ Hreach Hpermit)|].
  pose proof Hbegin as Hrun. unfold gate_begin_private_journey in Hrun. guards.
  pose proof (preserves_run _ _ _ _ _ (reached_begin_journey _ _ _) Hbegin) as (ops & _ & ->).
  apply gate_begin_ok in Hrun as (Hk & _ & _ & Hv & _).
  split; [by apply keyed_history|]. rewrite Hv. intros [?|[? ?]]; done.
Qed.

(** ** The programs *)

Lemma quiet_quiet : forall c, quiet c -> quiet c.
Proof. done. Qed.
Lemma quiet_any : forall c, quiet c -> True.
Proof. done. Qed.
Lemma any_any : forall c : Command, True.
Proof. done. Qed.
#[local] Hint Resolve quiet_quiet quiet_any any_any : frame.
#[local] Hint Resolve frame_prepare frame_load_sequence frame_the_browser frame_or_release
  frame_journey_body frame_client_begin_journey frame_sanitize_and_close frame_reconcile
  frame_is_current frame_the_daemon frame_bound_validate frame_validate_scope : frame.

(** [p] before [q]: the common prefix of the two facts about a run. *)
Definition safe {A} (m : Machine) (r : res A) (m' : Machine) : Prop :=
  shut m m' /\ (is_ok r = true -> closed (m_world m')).

Lemma safe_bind {A B} (p : PM A) (q : A -> PM B) m r m' :
  preserves shut p -> is_client m ->
  (forall a m1 r m', is_client m1 -> q a m1 = (r, m') -> safe m1 r m') ->
  (p ≫= q) m = (r, m') -> safe m r m'.
Proof.
  intros Hp Hg Hq Hrun. apply sm_bind_inv in Hrun as [(a & m1 & Ha & Hrun)|(e & He & ->)].
  - pose proof (preserves_run _ _ _ _ _ Hp Ha) as Hs.
    destruct (Hq a m1 r m') as [Hs' Hc]; [|done|split; [by etrans|done]].
    unfold is_client. destruct Hs as [[_ ->] _]. done.
  - apply (preserves_run _ _ _ _ _ Hp) in He. split; [done|]. intros [=].
Qed.

(** Once [p] leaves the gate closed, [q] keeps it so. *)
Lemma safe_then {A B} (p : PM A) (q : A -> PM B) m r m' :
  (forall r1 m1, p m = (r1, m1) -> safe m r1 m1) -> (forall a, preserves acts (q a)) ->
  (p ≫= q) m = (r, m') -> safe m r m'.
Proof.
  intros Hp Hq Hrun. apply sm_bind_inv in Hrun as [(a & m1 & Ha & Hrun)|(e & He & ->)].
  - destruct (Hp _ _ Ha) as [Hs Hc]. specialize (Hc eq_refl).
    pose proof (preserves_run _ _ _ _ _ (Hq a) Hrun) as Hacts.
    assert (closed (m_world m')) as Hc' by (eapply reached_closed; [apply Hacts|done]).
    split; [|done]. split; [etrans; [apply Hs|done]|]. by right.
  - destruct (Hp _ _ He) as [Hs _]. split; [done|]. intros [=].
Qed.

Lemma safe_begin j m r m' : is_client m -> client_begin_journey j m = (r, m') -> safe m r m'.
Proof.
  intros Hg Hrun. assert (preserves shut (client_begin_journey j)) as Hp by frame. split.
  - by apply (preserves_run _ _ _ _ _ Hp) in Hrun.
  - destruct r; [|done]. intros _. by eapply begin_closes.
Qed.

Local Ltac safe_step :=
  cbv zeta; eapply safe_bind; [solve [frame]|eassumption|]; intros ? ? ? ? ?.

Lemma journey_safe store refs m r m' :
  is_client m -> PrivateJourney.execute_private_journey store refs m = (r, m') -> safe m r m'.
Proof.
  intros Hg. unfold PrivateJourney.execute_private_journey.
  do 5 safe_step.
  eapply safe_then; [intros ? ? ?; by eapply safe_begin|]. intros permit.
  apply (frame_or_release acts (fun _ => True)).
  by apply (frame_journey_body acts (fun _ => True)).
Qed.

Lemma safe_err {A} e m (r : res A) m' : sm_err e m = (r, m') -> safe m r m'.
Proof. intros [= <- <-]. split; [apply (mf_refl (sent:=quiet))|]. intros [=]. Qed.
Lemma safe_map_err {A} e (p : PM A) m r m' :
  (forall r1 m1, p m = (r1, m1) -> safe m r1 m1) -> sm_map_err e p m = (r, m') -> safe m r m'.
Proof.
  intros Hp. unfold sm_map_err. destruct (p m) as [r1 m1]. intros [= <- <-].
  destruct (Hp _ _ eq_refl) as [Hs Hc]. split; [done|]. by destruct r1.
Qed.

Lemma run_private_safe staged c b m r m' :
  is_client m -> PrivateCoordinator.run_private staged c b m = (r, m') -> safe m r m'.
Proof.
  intros Hg. unfold PrivateCoordinator.run_private. safe_step.
  match goal with |- (if ?x then _ else _) _ = _ -> _ => destruct x; [apply safe_err|] end.
  apply safe_map_err. intros ? ?. do 4 safe_step.
  eapply safe_then; [intros ? ? ?; by eapply journey_safe|]. intros pending.
  assert (forall p st, preserves acts (PrivateJourney.sanitize_and_close p st)).
  { intros. by apply (frame_sanitize_and_close acts (fun _ => True)). }
  frame.
Qed.

(** ** The property *)

Lemma shut_quiet {A} (p : PM A) m r m' : preserves shut p -> p m = (r, m') -> shut m m'.
Proof. intros Hp Hrun. by apply (preserves_run _ _ _ _ _ Hp) in Hrun. Qed.

#[local] Hint Resolve frame_check_peer frame_coordinator_files frame_parse frame_preflight
  frame_within frame_read_exact frame_write_all frame_open_store frame_approval
  frame_receive_frame frame_validate_received frame_claim frame_expiry frame_deliver : frame.

Local Ltac shut_step :=
  cbv zeta; eapply shut_bind; [solve [frame]|eassumption|]; intros ? ? ? ? ? _.

Lemma execute_shut root session m r m' :
  is_client m -> PrivateCoordinator.execute root session m = (r, m') -> shut m m'.
Proof.
  intros Hg. unfold PrivateCoordinator.execute, PrivateHandoff.receive_connected.
  do 2 shut_step.
  match goal with |- (let '(_, _) := ?f in _) _ = _ -> _ => destruct f end.
  repeat shut_step.
  match goal with |- (if ?x then _ else _) _ = _ -> _ => destruct x end.
  { intros [= <- <-]. reflexivity. }
  repeat shut_step. intros Hrun.
  eapply safe_then; [|clear|exact Hrun].
  - intros ? ?. apply safe_map_err. intros ? ?. by apply run_private_safe.
  - intros reconciled.
    assert (forall k, preserves acts (PrivateDelivery.deliver reconciled k)).
    { intros. by apply (frame_deliver acts (fun _ => True)). }
    frame. intros ?. apply (mf_world (sent:=fun _ => True)), reached_drop_file.
Qed.

End gate.

(** C3. Fail closed, for a whole plan: once a coordinator that runs a reviewed
    plan has evaluated a script in the page, then however the run ends (an error
    at any step, a delivered key, a lost peer), and whatever operations any
    process performs afterwards short of finishing the gate, no handle on the
    gate of the daemon's client obtains a public lease, a public epoch, a command
    lease or another private interval. *)
Theorem private_plan_fails_closed root session g m r m' w' h :
  others_do_not_finish -> cl_gate (m_client m) = Some g ->
  PrivateCoordinator.execute root session m = (r, m') ->
  evaluations (m_sent m') <> evaluations (m_sent m) ->
  reached (m_world m') w' -> directory h = directory (g_store g) ->
  is_ok (gate_public_lease h w').1 = false /\ is_ok (gate_public_epoch h w').1 = false /\
  is_ok (gate_command_lease h w').1 = false /\
  (forall sc, is_ok (gate_begin_private_with_scope h sc w').1 = false).
Proof.
  intros Hothers Hg Hrun Hsent Hlater Hdir.
  destruct (execute_shut g Hothers _ _ _ _ _ Hg Hrun) as [_ [?|Hclosed]]; [done|].
  destruct (reached_closed g _ _ Hlater Hclosed) as [Hk Hv].
  rewrite <- Hdir in Hk, Hv. exact (closed_refuses _ _ _ Hk Hv).
Qed.

End closed.
End PrivateClosed.

(** ** A private journey, script by script

    What a journey evaluates in the page: the scripts of the first of its staged
    operations, in the order of the sequence, each after the admission of its
    reference; so no two journeys over one store evaluate the same operation. *)

Import SecretFs SecretStore GateStore StoreHistory PrivacyGate PrivateCdp PrivateBroker PrivateExecution PrivateFrames.
Local Open Scope Z_scope.

Module PrivateOnce.

Section once.
Context `{!Json, !Oracle, !Crypto, !Serde GateState, !UrlLib, !JsonBuild, !JsonTree, !Environment}.
Context `{!Chrono, !Serde (list Scalar), !SerdeValue ServiceTabs.ServiceTabHandle}.
Context `{!Serde Env.value, !Serde PrivateOperation.PrivateOperation}.
Context `{!Serde PrivateRecovery.AuthorityRecord}.
Local Abbreviation PM := (SM Machine).
Local Abbreviation PrivateOperation := PrivateOperation.PrivateOperation.

(** ** Files over time *)

(** Any operations of any process. *)
Definition later : relation World := fun w w' => exists ops, w' = history ops w.
#[local] Instance later_refl : Reflexive later.
Proof. intros w. by exists []. Qed.
#[local] Instance later_trans : Transitive later.
Proof. intros w1 w2 w3 [o1 ->] [o2 ->]. exists (o1 ++ o2). by rewrite history_app. Qed.
Lemma reached_later w w' : reached w w' -> later w w'.
Proof. intros (ops & _ & ->). by exists ops. Qed.

Lemma later_keeps w w' d f e :
  later w w' -> durable_name f -> file w d f = Some e -> file w' d f = Some e.
Proof. intros [ops ->] Hf He. by apply (history_durable ops w _ _ _ He). Qed.

Lemma adds_later d f w0 w1 w2 w3 :
  durable_name f -> later w0 w1 -> adds d f w1 w2 -> later w2 w3 -> adds d f w0 w3.
Proof.
  intros Hf H01 [Hn [e He]] H23. split.
  - destruct (file w0 d f) eqn:H0f; [|done]. by rewrite (later_keeps _ _ _ _ _ H01 Hf H0f) in Hn.
  - exists e. by eapply later_keeps.
Qed.

(** ** Machines over time *)

(** No script was evaluated. *)
Definition silent : relation Machine := fun m m' =>
  later (m_world m) (m_world m') /\ evaluations (m_sent m') = evaluations (m_sent m).

#[local] Instance silent_frame : MachineFrame silent quiet.
Proof.
  split; try done.
  - intros m1 m2 m3 [W1 E1] [W2 E2]. split; [by etrans|congruence].
  - intros m. split; [|done]. by exists (e_meanwhile (m_time m)).
  - intros m w Hw. split; [by apply reached_later|done].
  - intros m c Hc. split; [done|]. by apply evaluations_quiet.
Qed.
Lemma self_quiet : forall c, quiet c -> quiet c.
Proof. done. Qed.
#[local] Hint Resolve self_quiet : frame.
#[local] Hint Resolve frame_reserve_operation frame_on_files frame_validate_attachment
  frame_observe frame_revalidate frame_prepare frame_session_id frame_the_browser frame_acquire
  frame_load_sequence frame_client_begin_journey frame_the_client frame_authorizes : frame.
#[local] Hint Extern 2 (preserves _ (send_command_inner _ _ _)) =>
  apply (frame_send_command_inner silent quiet); intros ? [=] : frame.
#[local] Hint Extern 2 (preserves _ (send_private_command _ _ _ _ _)) =>
  apply (frame_quiet silent quiet self_quiet); discriminate : frame.

Lemma silent_run {A} (p : PM A) m r m' : preserves silent p -> p m = (r, m') -> silent m m'.
Proof. intros Hp Hrun. by apply (preserves_run _ _ _ _ _ Hp) in Hrun. Qed.

(** ** One operation *)

(** The parameters of an evaluation are those of an operation. *)
Definition script_of (operation : PrivateOperation) (params : option Env.value) : Prop :=
  exists context script, 0 < context /\ expression operation = Ok script /\
    params = Some (evaluate_params context script).

Definition admitted_file (store : SecretStore) (ref : string) (w w' : World) : Prop :=
  adds (directory store) (fmt [ref; ".admitted"]) w w'.

(** From [m] to [m'] the scripts [new] were evaluated. *)
Definition evaluated (m m' : Machine) (new : list (option Env.value)) : Prop :=
  later (m_world m) (m_world m') /\ evaluations (m_sent m') = evaluations (m_sent m) ++ new.

Lemma evaluated_silent m1 m2 m3 m4 new :
  silent m1 m2 -> evaluated m2 m3 new -> silent m3 m4 -> evaluated m1 m4 new.
Proof.
  intros [L1 E1] [L2 E2] [L3 E3]. split; [by repeat (etrans; [eassumption|])|]. congruence.
Qed.
Lemma silent_evaluated m m' : silent m m' -> evaluated m m' [].
Proof. intros [L E]. split; [done|]. by rewrite app_nil_r. Qed.

(** A run that evaluates one script with parameters in [Q], if it gets so far. *)
Definition tells {A} (Q : option Env.value -> Prop) (m : Machine) (r : res A) (m' : Machine) : Prop :=
  (silent m m' /\ is_ok r = false) \/ exists params, Q params /\ evaluated m m' [params].

Lemma tells_before {A B} Q (p : PM A) (q : A -> PM B) m r m' :
  preserves silent p ->
  (forall a m1 r m', p m = (Ok a, m1) -> q a m1 = (r, m') -> tells Q m1 r m') ->
  (p ≫= q) m = (r, m') -> tells Q m r m'.
Proof.
  intros Hp Hq Hrun. apply sm_bind_inv in Hrun as [(a & m1 & Ha & Hrun)|(e & He & ->)].
  - pose proof (silent_run _ _ _ _ Hp Ha) as Hs.
    destruct (Hq _ _ _ _ Ha Hrun) as [[Hs' He]|(ps & HQ & Hev)].
    + left. split; [by etrans|done].
    + right. exists ps. split; [done|]. by eapply evaluated_silent.
  - left. split; [by eapply silent_run|done].
Qed.
Lemma tells_after {A B} Q (p : PM A) (q : A -> PM B) m r m' :
  (forall r1 m1, p m = (r1, m1) -> tells Q m r1 m1) -> (forall a, preserves silent (q a)) ->
  (p ≫= q) m = (r, m') -> tells Q m r m'.
Proof.
  intros Hp Hq Hrun. apply sm_bind_inv in Hrun as [(a & m1 & Ha & Hrun)|(e & He & ->)].
  - pose proof (silent_run _ _ _ _ (Hq a) Hrun) as Hs.
    destruct (Hp _ _ Ha) as [[_ [=]]|(ps & HQ & Hev)].
    right. exists ps. split; [done|]. by eapply evaluated_silent.
  - destruct (Hp _ _ He) as [[Hs _]|?]; [by left|by right].
Qed.
Lemma tells_err {A} Q e m (r : res A) m' : sm_err e m = (r, m') -> tells Q m r m'.
Proof. intros [= <- <-]. by left. Qed.
Lemma tells_weaken {A} (Q Q' : option Env.value -> Prop) m (r : res A) m' :
  (forall p, Q p -> Q' p) -> tells Q m r m' -> tells Q' m r m'.
Proof. intros HQ [?|(p & Hp & ?)]; [by left|]. right. eauto. Qed.

Local Ltac before := cbv zeta; eapply tells_before; [solve [frame]|]; intros ? ? ? ? _.

Lemma evaluated_sends m params s :
  evaluated m (sends {| c_method := "Runtime.evaluate"; c_params := params; c_session := s |} m)
    [params].
Proof. split; [apply later_refl|]. unfold evaluations. cbn. by rewrite omap_app. Qed.

(** The last command of [execute_dom] is the evaluation. *)
Lemma inner_evaluate params session m r m' :
  send_command_inner "Runtime.evaluate" params session m = (r, m') ->
  tells (eq params) m r m'.
Proof.
  unfold send_command_inner, dispatch. intros Hrun.
  apply sm_bind_inv in Hrun as [(a & m1 & Ha & Hrun)|(e & He & ->)].
  - pose proof (silent_run _ _ _ _ (frame_answer_or silent quiet _ a) Hrun) as Hs.
    unfold elapse, sm_modify, mbind, sm_bind, step in Ha. cbn in Ha.
    destruct (_ || _); simplify_eq.
    + left. injection Hrun as <- <-. split; [apply (mf_passes (R:=silent) m)|done].
    + right. exists params. split; [done|].
      eapply evaluated_silent; [apply (mf_passes (R:=silent))|apply evaluated_sends|].
      etrans; [apply (mf_passes (R:=silent))|exact Hs].
  - exfalso. unfold elapse, sm_modify, mbind, sm_bind, step in He. cbn in He.
    by destruct (_ || _).
Qed.

Lemma send_evaluate permit params session timeout m r m' :
  send_private_command permit "Runtime.evaluate" params session timeout m = (r, m') ->
  tells (eq params) m r m'.
Proof.
  unfold send_private_command. do 3 before.
  match goal with |- (if ?x then _ else _) _ = _ -> _ => destruct x; [apply tells_err|] end.
  before.
  do 2 match goal with |- (if ?x then _ else _) _ = _ -> _ => destruct x; [apply tells_err|] end.
  do 2 before.
  apply tells_after; [intros ? ?; apply inner_evaluate|]. intros result. frame.
Qed.

(** ** One operation *)

Lemma execute_dom_tells permit session op m r m' :
  execute_dom permit session op m = (r, m') -> tells (script_of op) m r m'.
Proof.
  unfold execute_dom. do 2 before.
  match goal with |- (if ?x then _ else _) _ = _ -> _ => destruct x; [apply tells_err|] end.
  do 2 before.
  eapply tells_before; [by frame|]. intros context ? ? ? [Hcontext _]%sm_lift_ok.
  eapply tells_before; [by frame|]. intros script ? ? ? [Hscript _]%sm_lift_ok.
  apply tells_after; [|intros; frame]. intros ? ? Hrun%send_evaluate.
  eapply tells_weaken; [|exact Hrun]. intros _ <-. exists context, script. split_and!; [|done..].
  destruct (jget a2 _ ≫= as_i64) as [id|]; [|done]. destruct (Z.ltb_spec 0 id); by simplify_eq.
Qed.

(** What one operation of a journey does: nothing the page sees, and then it
    failed; or its script, after its admission. *)
Definition performs {A} (store : SecretStore) (ref : string) (op : PrivateOperation) (m : Machine)
    (r : res A) (m' : Machine) : Prop :=
  (silent m m' /\ is_ok r = false) \/
  exists params, script_of op params /\ evaluated m m' [params] /\
    admitted_file store ref (m_world m) (m_world m').

Lemma performs_before {A B} store ref op (p : PM A) (q : A -> PM B) m r m' :
  preserves silent p ->
  (forall a m1, p m = (Ok a, m1) -> q a m1 = (r, m') -> performs store ref op m1 r m') ->
  (p ≫= q) m = (r, m') -> performs store ref op m r m'.
Proof.
  intros Hp Hq Hrun. apply sm_bind_inv in Hrun as [(a & m1 & Ha & Hrun)|(e & He & ->)].
  - pose proof (silent_run _ _ _ _ Hp Ha) as Hs.
    destruct (Hq _ _ Ha Hrun) as [[Hs' He]|(ps & HQ & Hev & Hadm)].
    + left. split; [by etrans|done].
    + right. exists ps. split_and!; [done|by eapply evaluated_silent|].
      eapply adds_later; [by apply durable_receipt|apply Hs|exact Hadm|done].
  - left. split; [by eapply silent_run|done].
Qed.

Lemma execute_staged_performs permit session store ref op m r m' :
  execute_staged_dom permit session store ref op m = (r, m') -> performs store ref op m r m'.
Proof.
  unfold execute_staged_dom. apply performs_before; [by frame|]. intros _ m1 _ Hrun.
  apply sm_bind_inv in Hrun as [(u & m2 & Ha & Hrun)|(e & He & ->)].
  - pose proof Ha as Hs. apply (silent_run (on_files _)) in Hs; [|by frame].
    apply on_files_inv in Ha as (w & Ha & ->). apply admit_adds in Ha.
    apply tells_after with (Q := script_of op) in Hrun; [|intros ? ?|intros; frame].
    + destruct Hrun as [[Hs' He]|(params & Hp & Hev)]; [left; split; [by etrans|done]|].
      right. exists params. split_and!; [done|by eapply evaluated_silent|].
      eapply adds_later; [by apply durable_receipt| |exact Ha|apply Hev].
      apply (mf_passes (R:=silent)).
    + unfold within. destruct (execute_dom _ _ _ _) as [r2 m2] eqn:Hdom.
      apply execute_dom_tells in Hdom. destruct r2; intros [= <- <-]; [done|].
      destruct Hdom as [[? _]|?]; [by left|by right].
  - left. split; [|done]. exact (silent_run (on_files (admit_ store ref)) _ _ _ ltac:(frame) He).
Qed.

(** ** The sequence *)

(** The payload under a reference is an operation. *)
Definition holds (store : SecretStore) (w : World) (ref : string) (op : PrivateOperation) : Prop :=
  exists meta b payload, file w (directory store) (fmt [ref; ".payload"]) = Some (EFile meta b) /\
    unseal (key store) ref "payload" b = Some payload /\ parse_operation payload = Ok op.

Lemma holds_later store w w' ref op : later w w' -> holds store w ref op -> holds store w' ref op.
Proof.
  intros Hl (meta & b & p & Hf & Hu & Hp). exists meta, b, p. split; [|done].
  eapply later_keeps; [done| |done]. by apply durable_receipt.
Qed.
Lemma holds_fun store w ref op op' : holds store w ref op -> holds store w ref op' -> op = op'.
Proof. intros (? & ? & ? & ? & ? & ?) (? & ? & ? & ? & ? & ?). simplify_eq. congruence. Qed.

Lemma load_holds store ref payload op m m' :
  on_files (load store ref) m = (Ok payload, m') -> parse_operation payload = Ok op ->
  holds store (m_world m') ref op.
Proof.
  intros (w & Hl & ->)%on_files_inv Hp.
  assert (later (m_world (passes m)) w) as Hlater.
  { apply reached_later. by apply (preserves_run _ _ _ _ _ (reached_load _ _)) in Hl. }
  apply load_ok in Hl as (meta & b & Hf & Hu). eapply holds_later; [exact Hlater|].
  exists meta, b, payload. done.
Qed.

Lemma execute_operation_performs store ref permit attachment op m r m' :
  holds store (m_world m) ref op ->
  execute_private_operation store ref permit attachment m = (r, m') -> performs store ref op m r m'.
Proof.
  intros Hop. unfold execute_private_operation.
  apply performs_before; [by frame|]. intros payload m1 Hload.
  apply performs_before; [by frame|]. intros op' m2 [Hp ->]%sm_lift_ok.
  assert (op' = op) as ->.
  { eapply holds_fun; [by eapply load_holds|]. eapply holds_later; [|exact Hop].
    by apply (silent_run (on_files (load store ref))) in Hload as [? _]; [|frame]. }
  do 3 (apply performs_before; [by frame|]; intros ? ? _).
  apply execute_staged_performs.
Qed.

(** The first operations of the sequence were performed, in order, and all of them
    by a run that succeeds. *)
Definition plays {A} (store : SecretStore) (stages : list (string * PrivateOperation))
    (m : Machine) (r : res A) (m' : Machine) : Prop :=
  exists new, Forall2 (fun st => script_of st.2) (take (length new) stages) new /\
    evaluated m m' new /\
    Forall (fun st => admitted_file store st.1 (m_world m) (m_world m'))
      (take (length new) stages) /\
    (is_ok r = true -> length new = length stages).

Lemma plays_silent {A} store stages m (r : res A) m' :
  silent m m' -> is_ok r = false -> plays store stages m r m'.
Proof.
  intros Hs Hr. exists []. split_and!; [constructor|by apply silent_evaluated|constructor|congruence].
Qed.

Lemma plays_pre {A} store stages m m1 (r : res A) m' :
  silent m m1 -> plays store stages m1 r m' -> plays store stages m r m'.
Proof.
  intros Hs (new & Hscripts & Hev & Hadm & Hok).
  exists new. split_and!; [done|by eapply evaluated_silent| |done].
  eapply Forall_impl; [exact Hadm|]. intros st Hst.
  eapply adds_later; [by apply durable_receipt|apply Hs|exact Hst|done].
Qed.

Lemma plays_before {A B} store stages (p : PM A) (q : A -> PM B) m r m' :
  preserves silent p ->
  (forall a m1, silent m m1 -> q a m1 = (r, m') -> plays store stages m1 r m') ->
  (p ≫= q) m = (r, m') -> plays store stages m r m'.
Proof.
  intros Hp Hq Hrun. apply sm_bind_inv in Hrun as [(a & m1 & Ha & Hrun)|(e & He & ->)].
  - pose proof (silent_run _ _ _ _ Hp Ha) as Hs. eapply plays_pre; [exact Hs|by eapply Hq].
  - apply plays_silent; [by eapply silent_run|done].
Qed.

Lemma plays_after {A B} store stages (p : PM A) (q : A -> PM B) m r m' :
  (forall r1 m1, p m = (r1, m1) -> plays store stages m r1 m1) ->
  (forall a, preserves silent (q a)) ->
  (p ≫= q) m = (r, m') -> plays store stages m r m'.
Proof.
  intros Hp Hq Hrun. apply sm_bind_inv in Hrun as [(a & m1 & Ha & Hrun)|(e & He & ->)].
  - pose proof (silent_run _ _ _ _ (Hq a) Hrun) as Hs.
    destruct (Hp _ _ Ha) as (new & Hscripts & Hev & Hadm & Hok). exists new.
    split_and!; [done|by eapply evaluated_silent| |by intros; apply Hok].
    eapply Forall_impl; [exact Hadm|]. intros st Hst.
    eapply adds_later; [by apply durable_receipt|done|exact Hst|apply Hs].
  - exact (Hp _ _ He).
Qed.

Lemma run_step_performs store prev i ref op permit attachment m r m' :
  holds store (m_world m) ref op ->
  PrivateJourney.run_step store prev i ref op permit attachment m = (r, m') ->
  performs store ref op m r m'.
Proof.
  intros Hop. unfold PrivateJourney.run_step.
  apply performs_before. { destruct prev; frame. apply (frame_advance silent quiet self_quiet); frame. }
  intros p m1 Hadv Hrun.
  assert (silent m m1) as [Hlater _].
  { eapply silent_run; [|exact Hadv]. destruct prev; frame. apply (frame_advance silent quiet self_quiet); frame. }
  apply sm_bind_inv in Hrun as [(o & m2 & Ho & Hrun)|(e & He & ->)].
  - apply execute_operation_performs with (op := op) in Ho; [|by eapply holds_later].
    assert (silent m2 m') as Hs by (eapply silent_run; [|exact Hrun]; frame).
    destruct Ho as [[_ [=]]|(params & Hp & Hev & Hadm)]. right. exists params.
    split_and!; [done|by eapply evaluated_silent|].
    eapply adds_later; [by apply durable_receipt|done|exact Hadm|apply Hs].
  - apply execute_operation_performs with (op := op) in He; [|by eapply holds_later].
    destruct He as [[? _]|?]; [by left|by right].
Qed.

Lemma run_steps_plays store prev i stages permit attachment m r m' :
  Forall (fun st => holds store (m_world m) st.1 st.2) stages ->
  PrivateJourney.run_steps store prev i stages permit attachment m = (r, m') ->
  plays store stages m r m'.
Proof.
  revert prev i permit m. induction stages as [|[ref op] stages IH]; intros prev i permit m Hh Hrun.
  { injection Hrun as <- <-. exists []. split_and!; [constructor| |constructor|done].
    by apply silent_evaluated. }
  apply Forall_cons in Hh as [Hop Hh]. cbn [PrivateJourney.run_steps] in Hrun.
  apply sm_bind_inv in Hrun as [(p & m1 & Ho & Hrun)|(e & He & ->)].
  - apply run_step_performs in Ho; [|done]. destruct Ho as [[_ [=]]|(params & Hp & Hev & Hadm)].
    apply IH in Hrun.
    + destruct Hrun as (new & Hscripts & Hev' & Hadm' & Hok). exists (params :: new). cbn.
      split_and!; [by constructor| | |auto with lia].
      * split; [etrans; [apply Hev|apply Hev']|]. destruct Hev as [_ E], Hev' as [_ E'].
        rewrite E', E. by rewrite <-app_assoc.
      * constructor; [eapply adds_later; [by apply durable_receipt|done|exact Hadm|apply Hev']|].
        eapply Forall_impl; [exact Hadm'|]. intros st Hst.
        eapply adds_later; [by apply durable_receipt|apply Hev|exact Hst|done].
    + eapply Forall_impl; [exact Hh|]. intros st. apply holds_later, Hev.
  - apply run_step_performs in He; [|done].
    destruct He as [[Hs _]|(params & Hp & Hev & Hadm)]; [by apply plays_silent|].
    exists [params]. cbn. rewrite take_0. split_and!; [|done| |done]; (constructor; [done|constructor]).
Qed.

Lemma load_operations_holds store refs m ops m' :
  PrivateJourney.load_operations store refs m = (Ok ops, m') ->
  Forall2 (holds store (m_world m')) refs ops.
Proof.
  revert m ops. induction refs as [|ref refs IH]; intros m ops; cbn.
  { intros [= <- <-]. constructor. }
  intros (payload & m1 & Hload & Hrun)%sm_bind_ok.
  apply sm_bind_ok in Hrun as (op & m2 & [Hp ->]%sm_lift_ok & Hrun).
  apply sm_bind_ok in Hrun as (ops' & m3 & Hrest & [= <- <-]).
  constructor; [|by eapply IH].
  eapply holds_later; [|by eapply load_holds].
  apply (silent_run (PrivateJourney.load_operations store refs)) in Hrest as [? _]; [done|].
  apply (frame_load_operations silent quiet).
Qed.

Lemma validated_stages ops u :
  PrivateJourney.validate_sequence ops = Ok u ->
  map PrivateJourney.stage_of ops = [0; 1; 2; 3]%nat.
Proof.
  unfold PrivateJourney.validate_sequence. destruct ops as [|o1 [|o2 [|o3 [|o4 [|]]]]]; try done.
  destruct (forallb _ _) eqn:Hk; [|done]. intros _. cbn in Hk.
  repeat match type of Hk with _ && _ = true => apply andb_prop in Hk as [?%Nat.eqb_eq Hk] end.
  cbn. congruence.
Qed.

Lemma or_release_plays {A} store stages permit (p : PM A) m r m' :
  (forall r1 m1, p m = (r1, m1) -> plays store stages m r1 m1) ->
  or_release permit p m = (r, m') -> plays store stages m r m'.
Proof.
  intros Hp. unfold or_release. destruct (p m) as [[a|e] m1]; intros [= <- <-]; [by apply Hp|].
  destruct (Hp _ _ eq_refl) as (new & Hs & Hev & Hadm & Hok).
  assert (later (m_world m1) (drop_file (p_store permit) (p_file permit) (m_world m1))) as Hl
    by apply reached_later, reached_drop_file.
  exists new. split_and!; [done| | |done].
  - destruct Hev as [L E]. split; [by etrans|done].
  - eapply Forall_impl; [exact Hadm|]. intros st Hst.
    eapply adds_later; [by apply durable_receipt|apply later_refl|exact Hst|done].
Qed.

Lemma journey_body_plays store refs ops first permit m r m' :
  length ops = length refs -> Forall2 (holds store (m_world m)) refs ops ->
  PrivateJourney.journey_body store refs ops first permit m = (r, m') ->
  plays store (zip refs ops) m r m'.
Proof.
  intros Hlen Hops. unfold PrivateJourney.journey_body.
  assert (Forall (fun st => holds store (m_world m) st.1 st.2) (zip refs ops)) as Hh.
  { clear Hlen. induction Hops; cbn; by constructor. }
  revert Hh. generalize (zip refs ops). clear Hlen Hops. intros stages Hh.
  assert (forall m1, silent m m1 -> Forall (fun st => holds store (m_world m1) st.1 st.2) stages)
    as Hlater.
  { intros m1 [Hl _]. eapply Forall_impl; [exact Hh|]. intros st. by apply holds_later. }
  apply plays_before; [by frame|]. intros _ m1 ?. apply plays_before; [by frame|]. intros _ m2 ?.
  apply plays_before; [by frame|]. intros _ m3 ?. apply plays_before; [by frame|].
  intros attachment m4 ?. apply plays_after; [|intros; frame].
  intros ? ?. apply run_steps_plays, Hlater. by repeat (etrans; [eassumption|]).
Qed.

(** The operations of a journey, in the order of its references. *)
Definition sequence_of (store : SecretStore) (refs : list string) (w : World)
    (stages : list (string * PrivateOperation)) : Prop :=
  map fst stages = refs /\
  map (fun st => PrivateJourney.stage_of st.2) stages = [0; 1; 2; 3]%nat /\
  Forall (fun st => holds store w st.1 st.2) stages.

Lemma load_sequence_ok store refs m ops m' :
  PrivateJourney.load_sequence store refs m = (Ok ops, m') ->
  Forall2 (holds store (m_world m')) refs ops /\
  map PrivateJourney.stage_of ops = [0; 1; 2; 3]%nat.
Proof.
  unfold PrivateJourney.load_sequence. destruct (_ || _); [done|].
  intros (ops' & m1 & Hload%load_operations_holds & Hrun)%sm_bind_ok.
  apply sm_bind_ok in Hrun as (u & m2 & [Hv%validated_stages ->]%sm_lift_ok & [= <- <-]).
  done.
Qed.

Lemma sequence_zip store refs w ops :
  Forall2 (holds store w) refs ops -> map PrivateJourney.stage_of ops = [0; 1; 2; 3]%nat ->
  sequence_of store refs w (zip refs ops).
Proof.
  intros Hops Hkinds. split_and!.
  - apply fst_zip. apply Forall2_length in Hops. lia.
  - rewrite <-Hkinds, <-(map_map snd PrivateJourney.stage_of). f_equal.
    apply snd_zip. apply Forall2_length in Hops. lia.
  - clear Hkinds. induction Hops; cbn; by constructor.
Qed.

Lemma journey_plays store refs m r m' :
  PrivateJourney.execute_private_journey store refs m = (r, m') ->
  (silent m m' /\ is_ok r = false) \/
  exists stages, sequence_of store refs (m_world m') stages /\ plays store stages m r m'.
Proof.
  unfold PrivateJourney.execute_private_journey. intros Hrun.
  apply sm_bind_inv in Hrun as [(ops & m1 & Hload & Hrun)|(e & He & ->)].
  2: { left. split; [|done]. eapply silent_run; [|exact He]. frame. }
  right. exists (zip refs ops).
  assert (silent m m1) as Hs by (eapply silent_run; [|exact Hload]; frame).
  apply load_sequence_ok in Hload as [Hops Hkinds].
  assert (plays store (zip refs ops) m1 r m') as Hplays.
  { revert Hrun. apply plays_before; [by frame|]. intros first m2 ?.
    apply plays_before; [by frame|]. intros initial m3 ?.
    apply plays_before; [by frame|]. intros journey m4 ?.
    apply plays_before; [by frame|]. intros _ m5 ?.
    apply plays_before; [by frame|]. intros permit m6 ?.
    apply or_release_plays. intros r1 m7. apply journey_body_plays.
    - symmetry. by eapply Forall2_length.
    - eapply Forall2_impl; [exact Hops|]. intros ref op. apply holds_later.
      assert (silent m1 m6) as [? _] by (by repeat (etrans; [eassumption|])). done. }
  split; [|by eapply plays_pre]. apply sequence_zip; [|done].
  destruct Hplays as (new & _ & [Hl _] & _).
  eapply Forall2_impl; [exact Hops|]. intros ref op. by apply holds_later.
Qed.

(** ** The properties *)

(** C5. A journey tells the page its reviewed steps, in order: what
    [execute_private_journey] evaluates are exactly the scripts of the first of
    the operations staged under its references (a log in, a backup code, a
    renewal, the reading of a key, in this order), each made from the staged
    payload, each after the admission of its reference, which was not admitted
    when the journey began; a journey that succeeds evaluated all four. *)
Theorem journey_in_order store refs m r m' :
  PrivateJourney.execute_private_journey store refs m = (r, m') ->
  exists stages new, evaluations (m_sent m') = evaluations (m_sent m) ++ new /\
    Forall2 (fun st => script_of st.2) (take (length new) stages) new /\
    Forall (fun st => admitted_file store st.1 (m_world m) (m_world m'))
      (take (length new) stages) /\
    (new <> [] \/ is_ok r = true -> sequence_of store refs (m_world m') stages) /\
    (is_ok r = true -> length new = 4%nat).
Proof.
  intros [[[_ Hs] Hr]|(stages & Hseq & new & Hscripts & [_ Hev] & Hadm & Hok)]%journey_plays.
  - exists [], []. rewrite app_nil_r, Hr. split_and!; [done|constructor..| |done]. by intros [].
  - exists stages, new. split_and!; [done..|]. intros Hr. rewrite (Hok Hr).
    destruct Hseq as (_ & Hkinds & _). apply (f_equal length) in Hkinds.
    by rewrite length_map in Hkinds.
Qed.

(** The number of scripts evaluated from [m] to [m']. *)
Definition scripts_told (m m' : Machine) : nat :=
  length (evaluations (m_sent m')) - length (evaluations (m_sent m)).

Lemma told_admitted store refs m r m' ref :
  PrivateJourney.execute_private_journey store refs m = (r, m') ->
  In ref (take (scripts_told m m') refs) -> admitted_file store ref (m_world m) (m_world m').
Proof.
  intros Hrun Hin. apply journey_plays in Hrun
    as [[[_ Hs] Hr]|(stages & (<- & _) & new & _ & [_ Hev] & Hadm & _)].
  - unfold scripts_told in Hin. by rewrite Hs, Nat.sub_diag in Hin.
  - unfold scripts_told in Hin. rewrite Hev, length_app, Nat.add_comm, Nat.add_sub in Hin.
    rewrite <-fmap_take in Hin. apply in_map_iff in Hin as (st & <- & Hin).
    by apply (proj1 (List.Forall_forall _ _) Hadm).
Qed.

(** C6. A private operation reaches a page at most once: of two journeys over
    one store directory, with any operations of any process between them, in any
    daemon and whether either succeeds, fails or is cut short, no reference has
    its script evaluated by both. *)
Theorem private_operation_once store store' refs refs' m1 r1 m1' m2 r2 m2' ref :
  PrivateJourney.execute_private_journey store refs m1 = (r1, m1') ->
  later (m_world m1') (m_world m2) ->
  PrivateJourney.execute_private_journey store' refs' m2 = (r2, m2') ->
  directory store' = directory store ->
  In ref (take (scripts_told m1 m1') refs) -> ~ In ref (take (scripts_told m2 m2') refs').
Proof.
  intros H1run [ops Hlater] H2run Hdir Hin Hin'.
  pose proof (told_admitted _ _ _ _ _ _ H1run Hin) as Ha.
  pose proof (told_admitted _ _ _ _ _ _ H2run Hin') as Ha'.
  unfold admitted_file in *. rewrite Hdir, Hlater in Ha'.
  by eapply adds_once; [exact Ha|apply durable_receipt|exact Ha'].
Qed.

End once.
End PrivateOnce.
