(* ===== verification/ToyCodec.v ===== *)
(** * A lawful serialization of records

    Values as sequences of length-delimited fields; every instance is turned
    into a lawful [Serde] by [Toy.checked_serde]. *)

From S2P Require Import Prelude RustStr Env Toy TaskModel.
From Stdlib Require Import Ascii.
From stdpp Require Import pretty.
Import Toy TaskModel.

Local Open Scope Z_scope.

Module ToyCodec.

Definition Parser (A : Type) : Type := list string -> option (A * list string).
#[export] Instance parser_ret : MRet Parser := fun A a l => Some (a, l).
#[export] Instance parser_bind : MBind Parser := fun A B f m l =>
  match m l with Some (a, l') => f a l' | None => None end.

Class Codec (A : Type) := { enc : A -> list string; dec : Parser A }.

Definition digits_value (s : string) : Z :=
  fold_left (fun n c => 10 * n + (Z.of_N (N_of_ascii c) - 48)) (bytes_of s) 0.

#[export] Instance codec_string : Codec string :=
  {| enc := fun s => [s]; dec := fun l => match l with s :: l' => Some (s, l') | [] => None end |}.
#[export] Instance codec_Z : Codec Z :=
  {| enc := fun z => [pretty z]; dec := s ← dec; mret (digits_value s) |}.
#[export] Instance codec_bool : Codec bool :=
  {| enc := fun b => [bool_text b]; dec := s ← dec; mret (s == "t")%string |}.
#[export] Instance codec_option `{!Codec A} : Codec (option A) :=
  {| enc := fun o => match o with None => ["n"] | Some a => "s" :: enc a end;
     dec := tag ← dec; if tag == "s" then a ← dec; mret (Some a) else mret None |}%string.
Fixpoint dec_list `{!Codec A} (n : nat) : Parser (list A) :=
  match n with
  | O => mret []
  | S n => a ← dec; l ← dec_list n; mret (a :: l)
  end.
#[export] Instance codec_list `{!Codec A} : Codec (list A) :=
  {| enc := fun l => pretty (Z.of_nat (length l)) :: concat (map enc l);
     dec := n ← dec; dec_list (Z.to_nat (digits_value n)) |}.

Definition codec_text `{!Codec A} (a : A) : string := join "|" (enc a).
Definition codec_parse `{!Codec A} (s : string) : option A :=
  match dec (split_on "|"%char s) with Some (a, []) => Some a | _ => None end.
Definition codec_serde `{!Codec A, EqDecision A} : Serde A := checked_serde codec_text codec_parse.

(** A record as a JSON string of its text. *)
Section values.
Context `{!Codec A, !EqDecision A}.
Definition codec_to_value (a : A) : res (@value toy_json) :=
  if codec_parse (codec_text a) == Some a then Ok (TStr (codec_text a)) else Err "unserializable"%string.
Definition codec_from_value (v : @value toy_json) : res A :=
  match v with TStr s => ok_or "malformed"%string (codec_parse s) | _ => Err "malformed"%string end.
Lemma codec_value_law a v : codec_to_value a = Ok v -> codec_from_value v = Ok a.
Proof.
  unfold codec_to_value. destruct (bool_decide_reflect (codec_parse (codec_text a) = Some a)) as [H|];
    [|done]. intros [= <-]. cbn. by rewrite H.
Qed.
Definition codec_value : @SerdeValue toy_json A :=
  {| to_value := codec_to_value; from_value := codec_from_value;
     from_value_to_value := codec_value_law |}.
End values.

(** ** Instants: the sign and the binary digits *)

Fixpoint bits (p : positive) : list ascii :=
  match p with xH => [] | xO p => "0"%char :: bits p | xI p => "1"%char :: bits p end.
Fixpoint unbits (l : list ascii) : positive :=
  match l with
  | [] => xH
  | c :: l => if Ascii.eqb c "0" then xO (unbits l) else xI (unbits l)
  end.
Lemma unbits_bits p : unbits (bits p) = p.
Proof. induction p; cbn; congruence. Qed.
Definition time_text (z : Z) : string :=
  of_bytes match z with
           | Z0 => ["Z"%char]
           | Zpos p => "P"%char :: bits p
           | Zneg p => "N"%char :: bits p
           end.
Definition time_parse (s : string) : res Z :=
  match bytes_of s with
  | c :: l => Ok (if Ascii.eqb c "P" then Zpos (unbits l)
                  else if Ascii.eqb c "N" then Zneg (unbits l) else 0)
  | [] => Err "empty"%string
  end.
Lemma time_law t : time_parse (time_text t) = Ok t.
Proof.
  unfold time_parse, time_text. rewrite bytes_of_of_bytes. destruct t; cbn; by rewrite ?unbits_bits.
Qed.
(** ** The records of a task authority *)

#[export] Instance codec_lineage : Codec TaskAuthorityLineage :=
  {| enc := fun l => [ln_reconciliation_id l; ln_predecessor_authority_id l;
       ln_predecessor_step_id l; pretty (ln_predecessor_step_index l); ln_predecessor_command_id l;
       ln_predecessor_outcome_state l];
     dec := a ← dec; b ← dec; c ← dec; d ← dec; e ← dec; f ← dec;
       mret (Build_TaskAuthorityLineage a b c d e f) |}.
#[export] Instance codec_envelope : Codec TaskAuthorityEnvelope :=
  {| enc := fun e => [en_id e; en_task_name e] ++ enc (en_service_name e) ++ enc (en_agent_name e)
       ++ enc (en_allowed_origins e) ++ enc (en_allowed_actions e) ++ enc (en_plan_sha256 e)
       ++ enc (en_lineage e) ++ [en_target_id e; en_initial_url e; pretty (en_max_actions e);
       pretty (en_max_evidence_bytes e); en_consequence_ceiling e; en_expires_at e];
     dec := a ← dec; b ← dec; c ← dec; d ← dec; e ← dec; f ← dec; g ← dec; h ← dec; i ← dec;
       j ← dec; k ← dec; l ← dec; m ← dec; n ← dec;
       mret (Build_TaskAuthorityEnvelope a b c d e f g h i j k l m n) |}.
#[export] Instance codec_outcome : Codec TaskAuthorityStepOutcome :=
  {| enc := fun o => oc_state o :: enc (oc_success o) ++ [oc_response_sha256 o;
       pretty (oc_response_bytes o)] ++ enc (oc_target_id o) ++ enc (oc_url o)
       ++ [oc_finalized_at o];
     dec := a ← dec; b ← dec; c ← dec; d ← dec; e ← dec; f ← dec; g ← dec;
       mret (Build_TaskAuthorityStepOutcome a b c d e f g) |}.
#[export] Instance codec_receipt : Codec TaskAuthorityStepReceipt :=
  {| enc := fun r => [rc_step_id r; pretty (rc_step_index r); rc_command_id r; rc_action r;
       rc_target_id r; rc_current_url r] ++ enc (rc_requested_url r)
       ++ [pretty (rc_reserved_evidence_bytes r); rc_admitted_at r] ++ enc (rc_outcome r);
     dec := a ← dec; b ← dec; c ← dec; d ← dec; e ← dec; f ← dec; g ← dec; h ← dec; i ← dec;
       j ← dec; mret (Build_TaskAuthorityStepReceipt a b c d e f g h i j) |}.
#[export] Instance codec_ledger : Codec TaskAuthorityLedger :=
  {| enc := fun l => [lg_schema l; lg_authority_id l; lg_envelope_sha256 l; lg_session_id l;
       pretty (lg_admitted_actions l); pretty (lg_reserved_evidence_bytes l);
       pretty (lg_next_step_index l)] ++ enc (lg_step_receipts l) ++ [lg_updated_at l];
     dec := a ← dec; b ← dec; c ← dec; d ← dec; e ← dec; f ← dec; g ← dec; h ← dec; i ← dec;
       mret (Build_TaskAuthorityLedger a b c d e f g h i) |}.
#[export] Instance codec_step : Codec TaskAuthorityApprovedStep :=
  {| enc := fun s => [as_step_id s; pretty (as_index s); as_action s; as_expected_current_url s]
       ++ enc (as_requested_url s) ++ [pretty (as_evidence_bytes s)];
     dec := a ← dec; b ← dec; c ← dec; d ← dec; e ← dec; f ← dec;
       mret (Build_TaskAuthorityApprovedStep a b c d e f) |}.
#[export] Instance codec_plan : Codec TaskAuthorityApprovedPlan :=
  {| enc := fun p => enc (ap_actions p) ++ enc (ap_origins p) ++ [pretty (ap_action_count p);
       pretty (ap_evidence_bytes p)] ++ enc (ap_steps p) ++ enc (ap_plan_sha256 p);
     dec := a ← dec; b ← dec; c ← dec; d ← dec; e ← dec; f ← dec;
       mret (Build_TaskAuthorityApprovedPlan a b c d e f) |}.
#[export] Instance codec_reconciliation : Codec TaskAuthorityReconciliation :=
  {| enc := fun r => [rn_reconciliation_id r; rn_request_sha256 r; rn_predecessor_step_id r;
       pretty (rn_predecessor_step_index r); rn_predecessor_command_id r;
       rn_predecessor_outcome_state r; rn_replacement_authority_id r; rn_state r]
       ++ enc (rn_completed_at r);
     dec := a ← dec; b ← dec; c ← dec; d ← dec; e ← dec; f ← dec; g ← dec; h ← dec; i ← dec;
       mret (Build_TaskAuthorityReconciliation a b c d e f g h i) |}.
#[export] Instance codec_revocation : Codec TaskAuthorityRevocation :=
  {| enc := fun r => [rv_revoked_at r; rv_revoked_by r; rv_reason r; rv_target_url r]
       ++ enc (rv_reconciliation r);
     dec := a ← dec; b ← dec; c ← dec; d ← dec; e ← dec;
       mret (Build_TaskAuthorityRevocation a b c d e) |}.
#[export] Instance codec_issuance : Codec TaskAuthorityIssuanceRecord :=
  {| enc := fun r => [ir_schema r; ir_session_id r] ++ enc (ir_envelope r)
       ++ [ir_envelope_sha256 r; is_kind (ir_issuer r); is_id (ir_issuer r);
           ir_approval_reference r] ++ enc (ir_approved_plan r) ++ [ir_issued_at r]
       ++ enc (ir_revocation r);
     dec := a ← dec; b ← dec; c ← dec; d ← dec; e ← dec; f ← dec; g ← dec; h ← dec; i ← dec;
       j ← dec;
       mret (Build_TaskAuthorityIssuanceRecord a b c d (Build_TaskAuthorityIssuer e f) g h i j) |}.

End ToyCodec.
