(* ===== verification/ServiceStoreWitness.v ===== *)
(** * The store of the service state, evaluated

    A small service state, and interleavings of calls of two processes. *)

From stdpp Require Import gmap.
From S2P Require Import Prelude RustStr Env Toy ToyCodec ServiceJobs ServiceStore ServiceStoreSystem.
From S2P Require Import ServiceStoreTheorems ServiceStoreProofs.
Import Toy ToyCodec ServiceJobs ServiceStore ServiceStoreSystem ServiceStoreInvariant.
Import ServiceStoreTheorems.

Module ServiceStoreWitness.

(** ** A service state: whether the job is recorded, and the handoffs *)

#[local] Existing Instance toy_json.

Definition State : Type := bool * gmap string string.
Definition Registry : Type := @RemoteViewHandoffRegistry string.

#[local] Instance toy_model : StateModel State string := {|
  default_state := (false, ∅);
  remote_view_handoffs := snd;
  set_remote_view_handoffs := fun h s => (s.1, h);
  mark_persisted_entity_sources := id;
  refresh_derived_views := id;
  remove_builtin_entity_defaults_for_persistence := id;
|}.

(** Texts: the fields as a list, the newline at the end left out. *)
Definition untext (raw : string) : option (list string) :=
  match rev (bytes_of raw) with
  | _ :: text => codec_parse (of_bytes (rev text))
  | [] => None
  end.
Fixpoint pairs (l : list string) : gmap string string :=
  match l with k :: v :: rest => <[k := v]> (pairs rest) | _ => ∅ end.
Definition fields (h : gmap string string) : list string :=
  mjoin (map (fun x => [x.1; x.2]) (map_to_list h)).

Definition parse_state (raw : string) : option State :=
  match untext raw with Some (b :: h) => Some ((b == "t")%string, pairs h) | _ => None end.
Definition parse_registry (raw : string) : option Registry :=
  match untext raw with
  | Some (v :: h) => Some {| schema_version := v; handoffs := pairs h |}
  | _ => None
  end.
#[local] Instance registry_eq_dec : EqDecision Registry.
Proof. solve_decision. Defined.

(** A text is only written when it reads back. *)
Definition checked_text {A} `{!EqDecision A} (parse : string -> option A) (enc : A -> list string)
    (a : A) : option string :=
  let raw := codec_text (enc a) in
  if parse (with_newline raw) == Some a then Some raw else None.
Lemma checked_text_reads {A} `{!EqDecision A} (parse : string -> option A) enc a raw :
  checked_text parse enc a = Some raw -> parse (with_newline raw) = Some a.
Proof. unfold checked_text. case_bool_decide; [|done]. by intros [= <-]. Qed.

#[local] Instance state_serde : Serde State :=
  {| to_vec := fun _ => None; from_slice := parse_state; from_slice_to_vec := fun x b H => ltac:(done) |}.
#[local] Instance registry_serde : Serde Registry :=
  {| to_vec := fun _ => None; from_slice := parse_registry;
     from_slice_to_vec := fun x b H => ltac:(done) |}.
#[local] Instance state_pretty : PrettyString State :=
  {| to_string_pretty := checked_text parse_state (fun s => bool_text s.1 :: fields s.2) |}.
#[local] Instance registry_pretty : PrettyString Registry :=
  {| to_string_pretty := checked_text parse_registry (fun r => schema_version r :: fields (handoffs r)) |}.

(** ** Schedules *)

Abbreviation calls := (@call State nat).
Abbreviation system := (@sys State nat).

(** The successful answer of an effect, and the state after it. *)
Definition succeed (e : eff) (t pid : nat) (s : system) : option (resp e * system) :=
  match e as e return option (resp e * system) with
  | LockMutex | TryLockMutex =>
      if bool_decide (sy_mutexes s !! pid = None /\ pid ∉ sy_poisoned s)
      then Some (true, with_mutexes (<[pid := t]> (sy_mutexes s)) (sy_poisoned s) s) else None
  | UnlockMutex panicking =>
      Some (tt, with_mutexes (delete pid (sy_mutexes s))
                  ((if panicking then {[pid]} else ∅) ∪ sy_poisoned s) s)
  | CreateDirAll | OpenLockFile => Some (true, s)
  | LockFile mode =>
      if bool_decide (sy_locks s = ∅) then Some (true, with_locks (<[t := mode]> (sy_locks s)) s)
      else None
  | TryLockFile =>
      if bool_decide (sy_locks s = ∅)
      then Some (true, with_locks (<[t := Exclusive]> (sy_locks s)) s) else None
  | UnlockFile => Some (tt, with_locks (delete t (sy_locks s)) s)
  | ReadToString f => Some (reads f (sy_disk s), s)
  | WriteTemp f payload => Some (true, with_temps (<[(pid, f) := payload]> (sy_temps s)) s)
  | RenameTemp f =>
      match sy_temps s !! (pid, f) with
      | Some raw => Some (Renamed, with_disk (publish f raw (sy_disk s))
                                     (with_temps (delete (pid, f) (sy_temps s)) s))
      | None => None
      end
  | RemoveTemp f => Some (tt, with_temps (delete (pid, f) (sy_temps s)) s)
  | SyncFile f => Some (true, with_disk (sync_data f (sy_disk s)) s)
  | SyncDirectory => Some (true, with_disk (sync_entries (sy_disk s)) s)
  end.

Lemma succeed_exec may_fail e t pid s r s' :
  succeed e t pid s = Some (r, s') -> exec may_fail e t pid s r s'.
Proof.
  destruct e; cbn; try (intros [= <- <-]; done).
  - case_bool_decide; [|done]. intros [= <- <-]. tauto.
  - case_bool_decide; [|done]. intros [= <- <-]. tauto.
  - case_bool_decide as Hl; [|done]. intros [= <- <-]. split; [|done]. rewrite Hl. by destruct mode.
  - case_bool_decide; [|done]. by intros [= <- <-].
  - intros [= <- <-]. split; [done|by left].
  - destruct (sy_temps s !! (pid, f)) as [raw|]; [|done]. intros [= <- <-]. eauto.
  - intros [= <- <-]. eexists. split; [done|]. intros key Hk. by rewrite lookup_delete_ne.
Qed.

Inductive action := Begin (t pid : nat) (c : calls) | Go (t : nat) | Die (pid : nat).

Definition is_started (t : nat) (e : @event State nat) : bool :=
  match e with Started t' _ => (t' =? t)%nat | Finished _ _ => false end.
Definition kill_process (pid : nat) (s : system) : system :=
  {| sy_disk := sy_disk s; sy_temps := sy_temps s;
     sy_mutexes := delete pid (sy_mutexes s); sy_poisoned := sy_poisoned s ∖ {[pid]};
     sy_locks := filter (fun x => survives pid s x.1 = true) (sy_locks s);
     sy_threads := filter (fun x => survives pid s x.1 = true) (sy_threads s);
     sy_events := sy_events s |}.

Definition act (a : action) (s : system) : option system :=
  match a with
  | Begin t pid c =>
      if existsb (is_started t) (sy_events s) then None
      else Some (with_threads (<[t := {| th_pid := pid; th_call := c; th_prog := run c |}]>
                                 (sy_threads s)) [Started t c] s)
  | Go t =>
      match sy_threads s !! t with
      | Some {| th_pid := pid; th_call := c; th_prog := Ret o |} =>
          Some (with_threads (delete t (sy_threads s)) [Finished t o] s)
      | Some {| th_pid := pid; th_call := c; th_prog := Do e k |} =>
          match succeed e t pid s with
          | Some (r, s') =>
              Some (with_threads (<[t := {| th_pid := pid; th_call := c; th_prog := k r |}]>
                                    (sy_threads s')) [] s')
          | None => None
          end
      | None => None
      end
  | Die pid => Some (kill_process pid s)
  end.

Fixpoint play (l : list action) (s : system) : option system :=
  match l with
  | [] => Some s
  | a :: l => s' ← act a s; play l s'
  end.

Definition allowed_action (may_fail : bool) (a : action) : bool :=
  match a with Die _ => may_fail | _ => true end.

Lemma act_step may_fail a s s' :
  allowed_action may_fail a = true -> act a s = Some s' -> step may_fail s s'.
Proof.
  destruct a as [t pid c|t|pid]; cbn; intros Ha.
  - destruct (existsb _ _) eqn:E; [done|]. intros [= <-]. apply start. apply Forall_forall.
    intros e He c' ->. apply not_true_iff_false in E. apply E, existsb_exists.
    exists (Started t c'). split; [by apply list_elem_of_In|cbn; apply Nat.eqb_refl].
  - destruct (sy_threads s !! t) as [[pid c [o|e k]]|] eqn:E; [| |done].
    + intros [= <-]. by eapply finish.
    + destruct (succeed e t pid s) as [[r s1]|] eqn:Hs; [|done]. intros [= <-].
      eapply execute; [done|by apply succeed_exec].
  - intros [= <-]. by eapply kill.
Qed.

Lemma play_reachable may_fail d l s s' :
  reachable may_fail d s -> forallb (allowed_action may_fail) l = true -> play l s = Some s' ->
  reachable may_fail d s'.
Proof.
  revert s. induction l as [|a l IH]; intros s Hr; cbn; [by intros _ [= <-]|].
  intros [Ha Hl]%andb_true_iff. destruct (act a s) as [s1|] eqn:E; [|done]. cbn.
  apply IH; [|done]. eapply reachable_step; [done|]. by eapply act_step.
Qed.

(** ** Two processes *)

Definition empty_disk : disk :=
  {| on_state := {| contents := None; data_synced := true; entry_synced := true |};
     on_registry := {| contents := None; data_synced := true; entry_synced := true |} |}.

(** The job is recorded together with a handoff. *)
Definition record : @Mutator State nat :=
  fun s => Returns (Ok (1%nat, (true, <["h" := "x"]> s.2)))%string.

Definition goes (n t : nat) : list action := replicate n (Go t).
(** A writer of process 10 and a reader of process 20, until both wait for the file lock. *)
Definition both_begin : list action :=
  [Begin 1 10 (Mutate record); Begin 2 20 LoadSnapshot] ++ goes 3 1 ++ goes 3 2.
(** The writer takes the lock and ends; then the reader. *)
Definition undisturbed : list action := both_begin ++ goes 12 1 ++ goes 6 2.
(** The writer is killed when it has replaced the registry. *)
Definition interrupted : list action := both_begin ++ goes 6 1 ++ [Die 10] ++ goes 6 2.

Definition answers (t : nat) (state : State) (e : @event State nat) : bool :=
  match e with
  | Finished t' (Returned (Ok (Snapshot s))) => (t' =? t)%nat && bool_decide (s = state)
  | _ => false
  end.
Definition reports (t r : nat) (e : @event State nat) : bool :=
  match e with
  | Finished t' (Returned (Ok (Done r'))) => (t' =? t)%nat && (r' =? r)%nat
  | _ => false
  end.

(** The reader sees both files replaced. *)
Lemma undisturbed_seen :
  match play undisturbed (idle empty_disk) with
  | Some s => existsb (reports 1 1) (sy_events s)
              && existsb (answers 2 (true, {["h" := "x"]})%string) (sy_events s)
              && bool_decide (dom (sy_threads s) = ∅)
  | None => false
  end = true.
Proof. vm_compute. reflexivity. Qed.

(** The reader sees the handoff of the killed writer, and not its job. *)
Lemma interrupted_seen :
  match play interrupted (idle empty_disk) with
  | Some s => existsb (answers 2 (false, {["h" := "x"]})%string) (sy_events s)
              && bool_decide (sy_locks s = ∅)
  | None => false
  end = true.
Proof. vm_compute. reflexivity. Qed.

Lemma answers_event t state e :
  answers t state e = true -> e = Finished t (Returned (Ok (Snapshot state))).
Proof.
  destruct e as [|t' [[[state'|]|]|]]; try done. cbn.
  by intros [->%Nat.eqb_eq ->%bool_decide_eq_true]%andb_true_iff.
Qed.


(** Two calls under way: one of them can go on, and both end. *)
Lemma store_never_blocked_witness :
  exists s : system, reachable true empty_disk s /\ sy_threads s <> ∅
    /\ (exists t, can_go_on s t) /\ Acc (flip (goes_on true)) s.
Proof.
  assert (match play (both_begin ++ goes 4 1) (idle empty_disk) with
          | Some s => negb (bool_decide (dom (sy_threads s) = ∅)) | None => false end = true) as Hb
    by (vm_compute; reflexivity).
  destruct (play (both_begin ++ goes 4 1) (idle empty_disk)) as [s|] eqn:E; [|done].
  assert (reachable true empty_disk s) as Hr
    by exact (play_reachable true empty_disk (both_begin ++ goes 4 1) _ _ (reachable_idle _ _) eq_refl E).
  assert (sy_threads s <> ∅) as Hne.
  { intros He. rewrite He, dom_empty_L in Hb. by rewrite bool_decide_true in Hb. }
  destruct (store_never_blocked true empty_disk s Hr) as (Hgo & Hacc & _).
  exists s. split; [exact Hr|]. split; [exact Hne|]. split; [exact (Hgo Hne)|exact Hacc].
Defined.

(** ** The contract *)

Definition recorded_event : ServiceEvent :=
  {| ev_id := "e"; ev_timestamp := ""; ev_kind := Reconciliation; ev_message := "";
     ev_browser_id := None; ev_profile_id := None; ev_session_id := None; ev_service_name := None;
     ev_agent_name := None; ev_task_name := None;
     ev_previous_health := None; ev_current_health := None; ev_details := None |}%string.
Definition view_of (s : State) : JobStore :=
  {| st_jobs := ∅; st_events := if s.1 then [recorded_event] else [] |}.
#[local] Instance toy_view : @JobView State string _ _ _ _ _ _.
Proof.
  refine {| job_view := view_of |}; try by intros.
  - intros s raw Hr. unfold state_payload in Hr. apply fmap_Some in Hr as (text & Ht & ->).
    apply checked_text_reads in Ht. eauto.
  - intros s raw Hr. unfold registry_payload in Hr. apply fmap_Some in Hr as (text & Ht & ->).
    apply checked_text_reads in Ht. eauto.
Defined.
Definition record_event (st : JobStore) : res (nat * JobStore) :=
  Ok (1%nat, {| st_jobs := ∅; st_events := [recorded_event] |}).

Lemma record_acts : acts_on record record_event.
Proof. by intros s. Qed.

Lemma reports_event t r e : reports t r e = true -> e = Finished t (Returned (Ok (Done r))).
Proof.
  destruct e as [|t' [[[|r']|]|]]; try done. cbn.
  by intros [->%Nat.eqb_eq ->%Nat.eqb_eq]%andb_true_iff.
Qed.

End ServiceStoreWitness.
