(* ===== verification/PrivateToy.v ===== *)
(** * A private plan in a concrete environment

    Serializations of the private records, a browser that shows the pages of a
    plan one after the other, a peer that knows the key, and the state of a daemon
    before the plan runs. *)

From Stdlib Require Import Ascii.
From stdpp Require Import gmap pretty.
From S2P Require Import Prelude RustStr Env Toy SecretFs SecretStore GateStore StoreHistory StoreWitness PrivateIdentity PrivacyGate PrivateOperation ServiceJobs ServiceTabs PrivateCdp PrivateBroker PrivateAttachment PrivateExecution PrivateRecovery PrivateJourney PrivateHandoff PrivateBound PrivateDelivery PrivateCoordinator PrivateFrames PrivateClosed ToyCodec.
Import Toy ToyCodec SecretFs SecretStore GateStore StoreHistory StoreWitness PrivacyGate PrivateCdp.
Local Open Scope Z_scope.

Module PrivateToy.

#[export] Existing Instance toy_crypto.
#[export] Existing Instance toy_json.
#[export] Existing Instance toy_url.
#[export] Existing Instance toy_scalars.
#[export] Existing Instance toy_build.
#[export] Existing Instance toy_tree.
#[export] Instance toy_gate_states : Serde GateState := checked_serde state_text state_parse.

(** A faultless system whose random bytes differ for more than 256 ticks. *)
Definition wide_random (t : nat) (n : Z) : option string :=
  if 0 <=? n
  then Some (fit (Z.to_nat n) [ascii_of_nat (t mod 256); ascii_of_nat (t / 256 mod 256)])
  else None.
Lemma wide_random_len t n s : wide_random t n = Some s -> zlen s = n.
Proof.
  unfold wide_random. destruct (Z.leb_spec 0 n); intros; simplify_eq. rewrite fit_len. lia.
Qed.
#[export] Instance wide_oracle : Oracle := {|
  o_sys := fun _ => Done;
  o_random := wide_random;
  o_random_len := wide_random_len;
  o_euid := 1000;
  o_umask := 63;
|}.

#[export] Instance toy_chrono : Chrono :=
  {| parse_from_rfc3339 := time_parse; to_rfc3339 := time_text; parse_to_rfc3339 := time_law;
     representable := fun _ => true |}.

(** ** Values *)

Definition value_tokens : @value toy_json -> list string :=
  fix go (v : ToyValue) : list string :=
    match v with
    | TNull => ["n"]
    | TBool b => ["b"; bool_text b]
    | TNum z => ["i"; pretty z]
    | TStr s => ["s"; s]
    | TObj l => "o" :: pretty (Z.of_nat (length l)) :: concat (map (fun p => p.1 :: go p.2) l)
    end%string.
Fixpoint value_parse (fuel : nat) : Parser ToyValue :=
  match fuel with
  | O => fun _ => None
  | S fuel =>
      tag ← (dec : Parser string);
      if tag == "n" then mret TNull else
      if tag == "b" then b ← (dec : Parser bool); mret (TBool b) else
      if tag == "i" then z ← (dec : Parser Z); mret (TNum z) else
      if tag == "s" then s ← (dec : Parser string); mret (TStr s) else
      n ← (dec : Parser Z);
      fields ← (fix go (n : nat) : Parser (list (string * ToyValue)) :=
        match n with
        | O => mret []
        | S n => k ← (dec : Parser string); v ← value_parse fuel; l ← go n; mret ((k, v) :: l)
        end) (Z.to_nat n);
      mret (TObj fields)
  end%string.
#[export] Instance codec_toy_value : Codec ToyValue :=
  {| enc := value_tokens; dec := fun l => value_parse (length l) l |}.
#[export] Instance toy_values : Serde (@value toy_json) :=
  @codec_serde ToyValue codec_toy_value toy_value_eq_dec.
#[export] Instance toy_value_lists : Serde (list (@value toy_json)) :=
  @codec_serde (list ToyValue) _ (@list_eq_dec _ toy_value_eq_dec).

(** ** Operations *)

Definition str_at (v : ToyValue) (k : string) : option string := toy_get v k ≫= toy_str.
Definition write_operation (op : PrivateOperation.Operation) : ToyValue :=
  TObj match op with
  | PrivateOperation.Login a b c d e =>
      [("kind", TStr "login"); ("email_selector", TStr a); ("password_selector", TStr b);
       ("submit_selector", TStr c); ("email", TStr d); ("password", TStr e)]
  | PrivateOperation.BackupCode a b c d e f =>
      [("kind", TStr "backup_code"); ("code_selector", TStr a); ("submit_selector", TStr b);
       ("account_selector", TStr c); ("account_value", TStr d); ("code", TStr e);
       ("source_scope", TStr f)]
  | PrivateOperation.Renew a b c =>
      [("kind", TStr "renew"); ("submit_selector", TStr a); ("account_selector", TStr b);
       ("account_value", TStr c)]
  | PrivateOperation.ReadKey a b c =>
      [("kind", TStr "read_key"); ("selector", TStr a); ("account_selector", TStr b);
       ("account_value", TStr c)]
  end%string.
Definition read_operation (v : ToyValue) : option PrivateOperation.Operation :=
  let s := str_at v in
  kind ← s "kind"%string;
  if kind == "login" then
    a ← s "email_selector"; b ← s "password_selector"; c ← s "submit_selector"; d ← s "email";
    e ← s "password"; Some (PrivateOperation.Login a b c d e)
  else if kind == "backup_code" then
    a ← s "code_selector"; b ← s "submit_selector"; c ← s "account_selector";
    d ← s "account_value"; e ← s "code"; f ← s "source_scope";
    Some (PrivateOperation.BackupCode a b c d e f)
  else if kind == "renew" then
    a ← s "submit_selector"; b ← s "account_selector"; c ← s "account_value";
    Some (PrivateOperation.Renew a b c)
  else if kind == "read_key" then
    a ← s "selector"; b ← s "account_selector"; c ← s "account_value";
    Some (PrivateOperation.ReadKey a b c)
  else None%string.

Definition write_private (op : PrivateOperation.PrivateOperation) : ToyValue :=
  TObj [("schema", TStr (PrivateOperation.schema op));
        ("service_tab_handle", PrivateOperation.service_tab_handle op);
        ("expected_origin", TStr (PrivateOperation.expected_origin op));
        ("expected_url", TStr (PrivateOperation.expected_url op));
        ("consent_sha256", TStr (PrivateOperation.consent_sha256 op));
        ("account_scope", TStr (PrivateOperation.account_scope op));
        ("operation", write_operation (PrivateOperation.operation op))]%string.
Definition read_private (v : ToyValue) : option PrivateOperation.PrivateOperation :=
  a ← str_at v "schema"; b ← toy_get v "service_tab_handle"; c ← str_at v "expected_origin";
  d ← str_at v "expected_url"; e ← str_at v "consent_sha256"; f ← str_at v "account_scope";
  g ← (toy_get v "operation" ≫= read_operation);
  Some (@PrivateOperation.Build_PrivateOperation toy_json a b c d e f g)%string.
#[export] Instance Operation_eq_dec : EqDecision PrivateOperation.Operation.
Proof. solve_decision. Defined.
#[export] Instance PrivateOperation_eq_dec : EqDecision PrivateOperation.PrivateOperation.
Proof. solve_decision. Defined.
Definition private_text (op : PrivateOperation.PrivateOperation) : string :=
  codec_text (write_private op).
Definition private_parse (s : string) : option PrivateOperation.PrivateOperation :=
  codec_parse s ≫= read_private.
#[export] Instance toy_operations : Serde PrivateOperation.PrivateOperation :=
  checked_serde private_text private_parse.
#[export] Instance toy_operation_lists : Serde (list PrivateOperation.PrivateOperation) :=
  checked_serde (fun l => codec_text (map write_private l))
    (fun s => (codec_parse s : option (list ToyValue)) ≫= mapM read_private).

(** ** Handles *)

Definition toy_option (o : option string) : ToyValue :=
  match o with Some s => TStr s | None => TNull end.
Definition lease_text (l : option ServiceTabs.LeaseState) : ToyValue :=
  match l with
  | Some ServiceTabs.Exclusive => TStr "exclusive"
  | Some ServiceTabs.Shared => TStr "shared"
  | Some ServiceTabs.HumanTakeover => TStr "human_takeover"
  | Some ServiceTabs.Released => TStr "released"
  | Some ServiceTabs.Expired => TStr "expired"
  | None => TNull
  end.
Definition handle_value (h : ServiceTabs.ServiceTabHandle) : ToyValue :=
  TObj [("valid", TBool (ServiceTabs.th_valid h));
        ("staleReason", toy_option (ServiceTabs.th_stale_reason h));
        ("leaseState", lease_text (ServiceTabs.th_lease_state h));
        ("leaseHeartbeatExpected", TBool (ServiceTabs.th_lease_heartbeat_expected h));
        ("leaseId", toy_option (ServiceTabs.th_lease_id h));
        ("sessionName", toy_option (ServiceTabs.th_session_name h));
        ("profileId", toy_option (ServiceTabs.th_profile_id h));
        ("browserId", TStr (ServiceTabs.th_browser_id h));
        ("targetId", toy_option (ServiceTabs.th_target_id h));
        ("tabId", TStr (ServiceTabs.th_tab_id h));
        ("ownerSessionId", toy_option (ServiceTabs.th_owner_session_id h));
        ("url", toy_option (ServiceTabs.th_url h))]%string.

(** ** The plan *)

Definition session : string := "s1".
Definition browser_id : string := "session:s1".
Definition target : string := "0123456789ABCDEF0123456789ABCDEF".
Definition endpoint : string := "wss://host/devtools".
Definition plan_id : string := "0123456789abcdef0123456789abcdef".
Definition manifest : string := plan_id +:+ plan_id.
Definition account : string := "user@example.com".
Definition expires : string := time_text 1000000.
Definition auth_key : string := "authentication-key".

(** The page of each step. *)
Definition pages : list (string * string) :=
  [("https://secure.login.gov", "https://secure.login.gov/");
   ("https://secure.login.gov", "https://secure.login.gov/two");
   ("https://sam.gov", "https://sam.gov/renew"); ("https://sam.gov", "https://sam.gov/key")]%string.
Definition page_url (i : nat) : string := default ""%string (snd <$> pages !! i).

Definition tab_at (url : string) : ServiceTabs.BrowserTab :=
  {| ServiceTabs.bt_id := "tab1"; ServiceTabs.bt_browser_id := browser_id;
     ServiceTabs.bt_target_id := Some target; ServiceTabs.bt_session_id := None;
     ServiceTabs.bt_lifecycle := ServiceTabs.TabReady; ServiceTabs.bt_url := Some url;
     ServiceTabs.bt_title := None; ServiceTabs.bt_owner_session_id := Some session;
     ServiceTabs.bt_service_tab_handle := None; ServiceTabs.bt_latest_snapshot_id := None;
     ServiceTabs.bt_latest_screenshot_id := None; ServiceTabs.bt_challenge_id := None |}.
Definition state_at (url : string) : ServiceTabs.ServiceState :=
  {| ServiceTabs.profiles := {[ "p1"%string := {| ServiceTabs.bf_profile_origin := ServiceTabs.AgentBrowserOwned |} ]};
     ServiceTabs.browsers := {[ browser_id := {|
       ServiceTabs.bp_id := browser_id; ServiceTabs.bp_profile_id := Some "p1"%string;
       ServiceTabs.bp_health := ServiceTabs.Ready; ServiceTabs.bp_cdp_endpoint := Some endpoint;
       ServiceTabs.bp_active_session_ids := [session]; ServiceTabs.bp_tab_handles := [] |} ]};
     ServiceTabs.sessions := {[ session := {|
       ServiceTabs.bs_service_name := None; ServiceTabs.bs_agent_name := None;
       ServiceTabs.bs_task_name := None; ServiceTabs.bs_lease := ServiceTabs.Exclusive;
       ServiceTabs.bs_profile_id := Some "p1"%string; ServiceTabs.bs_cleanup := ServiceTabs.Detach;
       ServiceTabs.bs_browser_ids := [browser_id]; ServiceTabs.bs_tab_ids := ["tab1"%string];
       ServiceTabs.bs_expires_at := None |} ]};
     ServiceTabs.tabs := {[ "tab1"%string := tab_at url ]}; ServiceTabs.jobs := ∅ |}.
Definition handle_at (url : string) : option ServiceTabs.ServiceTabHandle :=
  ServiceTabs.service_tab_handle (state_at url) "tab1".

(** Handles read back when they are those of the plan. *)
#[export] Instance ProfileOrigin_eq_dec : EqDecision ServiceTabs.ProfileOrigin.
Proof. solve_decision. Defined.
#[export] Instance LeaseState_eq_dec : EqDecision ServiceTabs.LeaseState.
Proof. solve_decision. Defined.
#[export] Instance SessionCleanupPolicy_eq_dec : EqDecision ServiceTabs.SessionCleanupPolicy.
Proof. solve_decision. Defined.
#[export] Instance TraceFilter_eq_dec : EqDecision ServiceTabs.ServiceTabHandleTraceFilter.
Proof. solve_decision. Defined.
#[export] Instance ServiceTabHandle_eq_dec : EqDecision ServiceTabs.ServiceTabHandle.
Proof. solve_decision. Defined.
Definition plan_handles : list ServiceTabs.ServiceTabHandle := omap (fun p => handle_at p.2) pages.
Definition handle_read (v : @value toy_json) : res ServiceTabs.ServiceTabHandle :=
  ok_or "malformed"%string (List.find (fun h => toy_eqb (handle_value h) v) plan_handles).
Definition handle_write (h : ServiceTabs.ServiceTabHandle) : res (@value toy_json) :=
  match handle_read (handle_value h) with
  | Ok h' => if decide (h' = h) then Ok (handle_value h) else Err "unserializable"
  | Err e => Err e
  end%string.
Lemma handle_law h v : handle_write h = Ok v -> handle_read v = Ok h.
Proof.
  unfold handle_write. destruct (handle_read _) as [h'|] eqn:Hr; [|done].
  case_decide; [|done]. intros [= <-]. by subst.
Qed.
#[export] Instance toy_handles : @SerdeValue toy_json ServiceTabs.ServiceTabHandle :=
  {| to_value := handle_write; from_value := handle_read; from_value_to_value := handle_law |}.

Definition operation_at (i : nat) (op : PrivateOperation.Operation)
    : @PrivateOperation.PrivateOperation toy_json :=
  {| PrivateOperation.schema := "agent-browser.private-operation.v1";
     PrivateOperation.service_tab_handle :=
       (match handle_at (page_url i) with Some h => handle_value h | None => TNull end
        : @value toy_json);
     PrivateOperation.expected_origin := default ""%string (fst <$> pages !! i);
     PrivateOperation.expected_url := page_url i; PrivateOperation.consent_sha256 := manifest;
     PrivateOperation.account_scope := "login.gov:" +:+ account;
     PrivateOperation.operation := op |}.
Definition operations : list (@PrivateOperation.PrivateOperation toy_json) :=
  [operation_at 0 (PrivateOperation.Login "#email" "#password" "#submit" account "secret");
   operation_at 1 (PrivateOperation.BackupCode "#code" "#submit" "#account" account "abcd-1234" "vault");
   operation_at 2 (PrivateOperation.Renew "#renew" "#account" account);
   operation_at 3 (PrivateOperation.ReadKey "#key" "#account" account)]%string.

Example operations_parse :
  forallb (fun op => match PrivateOperation.parse from_slice (private_text op) with
                     | Ok op' => bool_decide (op' = op)
                     | Err _ => false
                     end) operations = true.
Proof. vm_eq. Qed.

(** ** Bindings and authorities *)

#[export] Instance codec_binding : Codec PrivateBound.Binding :=
  {| enc := fun b => [PrivateBound.bd_plan_id b; PrivateBound.bd_manifest_sha256 b;
       PrivateBound.bd_profile_id b; PrivateBound.bd_browser_id b;
       PrivateBound.bd_session_name b; PrivateBound.bd_target_id b;
       PrivateBound.bd_endpoint b; PrivateBound.bd_expires_at b];
     dec := a ← dec; b ← dec; c ← dec; d ← dec; e ← dec; f ← dec; g ← dec; h ← dec;
       mret (PrivateBound.Build_Binding a b c d e f g h) |}.
#[export] Instance Binding_eq_dec : EqDecision PrivateBound.Binding.
Proof. solve_decision. Defined.
#[export] Instance toy_bindings : Serde PrivateBound.Binding := codec_serde.
#[export] Instance codec_authority_record : Codec PrivateRecovery.AuthorityRecord :=
  {| enc := fun r => [PrivateRecovery.ar_schema r; PrivateRecovery.ar_epoch r;
       PrivateRecovery.ar_reference r; PrivateRecovery.ar_intent_sha256 r;
       PrivateRecovery.ar_endpoint r; PrivateRecovery.ar_session_name r];
     dec := a ← dec; b ← dec; c ← dec; d ← dec; e ← dec; f ← dec;
       mret (PrivateRecovery.Build_AuthorityRecord a b c d e f) |}.
#[export] Instance AuthorityRecord_eq_dec : EqDecision PrivateRecovery.AuthorityRecord.
Proof. solve_decision. Defined.
#[export] Instance toy_authorities : Serde PrivateRecovery.AuthorityRecord := codec_serde.
#[export] Instance toy_key : PrivateDelivery.KeyFormat :=
  {| PrivateDelivery.read_key := fun s => (codec_parse s : option ToyValue) ≫= fun v => str_at v "key" |}.
#[export] Instance toy_probes : PrivateBound.ProbeFormat :=
  {| PrivateBound.is_probe := fun s => s == "probe"%string |}.

Definition value_or {A} (d : A) (o : option A) : A := match o with Some a => a | None => d end.
(** The reviewed operations hold slots where the secrets will be. *)
Definition reviewed : list (@value toy_json) :=
  match map write_private operations with
  | [a; b; c; d] =>
      [value_or TNull (PrivateCoordinator.set_slot "password" PrivateCoordinator.PASSWORD_SLOT a);
       value_or TNull (PrivateCoordinator.set_slot "code" PrivateCoordinator.CODE_SLOT b); c; d]
  | _ => []
  end.
Definition authority : @PrivateCoordinator.Authority toy_json :=
  {| PrivateCoordinator.au_schema := "agent-browser.private-coordinator.v1";
     PrivateCoordinator.au_plan_id := plan_id; PrivateCoordinator.au_manifest_sha256 := manifest;
     PrivateCoordinator.au_recipe_sha256 := hex_encode (sha256 (value_or ""%string (to_vec reviewed)));
     PrivateCoordinator.au_endpoint := endpoint; PrivateCoordinator.au_session_name := session;
     PrivateCoordinator.au_expires_at := expires; PrivateCoordinator.au_operations := reviewed |}.
#[export] Instance toy_coordinator : @PrivateCoordinator.CoordinatorFormats toy_json :=
  {| PrivateCoordinator.read_nested := fun _ => mapM read_private reviewed;
     PrivateCoordinator.read_authority := fun s =>
       if s == "plan"%string then Some authority else None |}.
#[export] Instance toy_provisioned : PrivateCoordinator.Provisioned :=
  {| PrivateCoordinator.provisioned := fun _ => Some (auth_key, "plan"%string) |}.

(** ** The environment *)

(** When the pages change: after the first three steps, and to the blank page. *)
Record Times := { t_two : nat; t_three : nat; t_four : nat; t_blank : nat; t_frame : nat;
                  t_result : nat; t_ready : nat }.
Definition page_at (times : Times) (t : nat) : string :=
  if (t <? t_two times)%nat then page_url 0 else
  if (t <? t_three times)%nat then page_url 1 else
  if (t <? t_four times)%nat then page_url 2 else
  if (t <? t_blank times)%nat then page_url 3 else about_blank.
Definition page_value (times : Times) (t : nat) : ToyValue :=
  if (t <? t_four times)%nat then TObj [("dispatch_attempted", TBool true)]%string else
  if (t <? t_blank times)%nat then TObj [("key", TStr "ABCDEFGHIJKLMNOP")]%string else TBool true.

Definition answer_at (times : Times) (t : nat) (c : @Command toy_json) : Answer (@value toy_json) :=
  let url := TStr (page_at times t) in
  let m := c_method c in
  if m == "Target.getTargetInfo" then
    Answered (TObj [("targetInfo", TObj [("targetId", TStr target); ("type", TStr "page");
                                         ("url", url)])])
  else if m == "Page.getFrameTree" then
    Answered (TObj [("frameTree", TObj [("frame", TObj [("id", TStr "frame"); ("url", url)])])])
  else if m == "Page.createIsolatedWorld" then Answered (TObj [("executionContextId", TNum 7)])
  else if m == "Runtime.evaluate" then
    Answered (TObj [("result", TObj [("value", page_value times t)])])
  else if m == "Target.attachToTarget" then Answered (TObj [("sessionId", TStr "page-session")])
  else if m == "Page.navigate" then Answered (TObj [("frameId", TStr "frame")])
  else Answered (TObj [])%string.

Definition body : string := codec_text (map write_private operations).
Definition header : string := PrivateHandoff.MAGIC +:+ PrivateHandoff.u32_to_be_bytes (zlen body).
Definition nonce : string := fit 32 [].
(** What the peer sends. *)
Definition peer (times : Times) (ack : string) (t : nat) (n : Z) : string :=
  if n =? 10 then header else if n =? zlen body then body else if n =? 33 then ack else
  if (t <? t_frame times)%nat then nonce else
  if (t <? t_result times)%nat then hmac_sha256 auth_key (header +:+ body) else
  if (t <? t_ready times)%nat then nonce else
  PrivateDelivery.ready_tag_of auth_key nonce plan_id manifest.
Definition read_at (times : Times) (ack : string) (t : nat) (n : Z) : Answer string :=
  let s := peer times ack t n in if zlen s =? n then Answered s else Failed.
Lemma read_at_len times ack t n s : read_at times ack t n = Answered s -> zlen s = n.
Proof. unfold read_at. destruct (Z.eqb_spec (zlen (peer times ack t n)) n); intros; by simplify_eq. Qed.

Definition toy_environment (times : Times) (ack : string) : @Environment toy_json :=
  {| e_answer := answer_at times; e_meanwhile := fun _ => []; e_service := fun _ s => s;
     e_load := fun _ => true; e_commit := fun _ => Committed; e_clock := fun t => Z.of_nat t;
     e_read := read_at times ack; e_read_len := read_at_len times ack;
     e_eof := fun _ => Answered true; e_write := fun _ => Answered tt; e_peer_uid := Some 1000;
     e_pid := 41; e_var_os := fun _ => None; e_join := fun _ => Answered true |}.

(** ** The daemon before the plan *)

Definition gate_run := open 41 (path_of "/store/gate") toy_world.
Definition no_gate : PrivacyGate := {| g_store := no_store; g_endpoint := None |}.
Definition gate : PrivacyGate := Eval vm_compute in match gate_run.1 with Ok g => g | Err _ => no_gate end.
Definition gated_world : World := Eval vm_compute in gate_run.2.
Definition observer_run := public_observer gate gated_world.
Definition observer : PrivacyObserver := Eval vm_compute in
  match observer_run.1 with Ok o => o | Err _ => private_observer gate end.
Definition client : Client :=
  {| cl_address := 1; cl_gate := Some gate; cl_observer := Some observer; cl_sealed := false;
     cl_open := true; cl_binding := None; cl_failed := false; cl_joined := false |}.
Definition daemon : DaemonState :=
  {| ds_browser := Some {|
       bm_pages := [{| pi_target_id := target; pi_session_id := "public-session";
                       pi_url := page_url 0; pi_title := "" |}];
       bm_active_page_index := 0; bm_ws_url := endpoint;
       bm_runtime_profile_name := Some "p1"%string |};
     ds_session_id := session; ds_attached_runtime_profile := None; ds_ref_map := cleared |}.

(** The controller bound the plan. *)
Definition binding : PrivateBound.Binding :=
  {| PrivateBound.bd_plan_id := plan_id; PrivateBound.bd_manifest_sha256 := manifest;
     PrivateBound.bd_profile_id := "p1"; PrivateBound.bd_browser_id := browser_id;
     PrivateBound.bd_session_name := session; PrivateBound.bd_target_id := target;
     PrivateBound.bd_endpoint := endpoint; PrivateBound.bd_expires_at := expires |}.
Definition machine_of (w : World) : @Machine toy_json :=
  {| m_world := w; m_state := state_at (page_url 0); m_daemon := daemon; m_client := client;
     m_sent := []; m_wire := []; m_time := 0 |}.
Definition bindings_run := SecretStore.open 41 (path_of "/store/bindings") observer_run.2.
Definition bindings : SecretStore := Eval vm_compute in
  match bindings_run.1 with Ok h => h | Err _ => no_store end.

(** When the steps of the plan take place. *)
Definition times : Times :=
  {| t_two := 113; t_three := 143; t_four := 182; t_blank := 225; t_frame := 14; t_result := 250;
     t_ready := 289 |}.
(** The machine once the binding is staged, and the plan before a given peer. *)
Definition bound_world (ack : string) : World :=
  let env := toy_environment times ack in
  m_world (PrivateBound.request (codec_text binding) bindings (machine_of bindings_run.2)).2.
Definition start : @Machine toy_json := machine_of (bound_world "").
Definition run_with (ack : string) : res unit * @Machine toy_json :=
  let env := toy_environment times ack in PrivateCoordinator.execute "/store" session start.

(** The peer acknowledges the frame it was sent. *)
Definition sent_frame : string := Eval vm_compute in
  default ""%string (m_wire (run_with "").2 !! 2%nat).
Definition ack : string := Eval vm_compute in
  String "001" (PrivateDelivery.ack_tag_of auth_key nonce sent_frame (String "001" "")).

End PrivateToy.

(** ** A private plan, run to its delivery

    The plan of [PrivateToy.v] evaluated from the claim of its binding to the
    acknowledged delivery of the key, and the theorems on whole plans applied to
    this run. *)

Import Toy SecretFs SecretStore GateStore StoreHistory StoreWitness PrivacyGate PrivateCdp PrivateFrames PrivateClosed PrivateOnce PrivateToy.
Local Open Scope Z_scope.

Module PrivatePlanWitness.

#[local] Instance plan_environment : @Environment toy_json := toy_environment times ack.

Local Abbreviation plan := (PrivateCoordinator.execute "/store" session start).
(** The plan succeeds: four scripts and the check of the blank page were evaluated,
    and the wire carries two tags and the frame with the key. *)
Definition outcome := Eval vm_compute in
  (is_ok plan.1, length (evaluations (m_sent plan.2)), length (m_wire plan.2)).
Example plan_runs : outcome = (true, 5%nat, 3%nat).
Proof. reflexivity. Qed.

Lemma private_plan_fails_closed_witness :
  outcome = (true, 5%nat, 3%nat) /\
  is_ok (gate_public_lease (g_store gate) (m_world plan.2)).1 = false.
Proof.
  split; [reflexivity|].
  assert (evaluations (m_sent plan.2) <> evaluations (m_sent start)) as Hsent.
  { assert (length (evaluations (m_sent plan.2)) = 5%nat) as Hlen by vm_eq.
    intros He. rewrite He in Hlen. discriminate Hlen. }
  assert (others_do_not_finish) as Hothers by (intros t; constructor).
  destruct (private_plan_fails_closed "/store" session gate start plan.1 plan.2 (m_world plan.2)
    (g_store gate) Hothers eq_refl (surjective_pairing plan) Hsent (reached_refl _) eq_refl)
    as [Hlease _].
  exact Hlease.
Defined.

(** ** A journey of its own *)

Definition store_run := SecretStore.open 41 (path_of "/store/operations") observer_run.2.
Definition store : SecretStore := Eval vm_compute in
  match store_run.1 with Ok h => h | Err _ => no_store end.
Definition staged := foldl (fun '(refs, w) op =>
  match stage store (private_text op) w with
  | (Ok r, w) => (refs ++ [r], w)
  | (Err _, w) => (refs, w)
  end) ([], store_run.2) operations.
Definition refs : list string := Eval vm_compute in staged.1.
Definition machine_at (t : nat) (w : World) : @Machine toy_json :=
  let m := machine_of w in
  {| m_world := m_world m; m_state := m_state m; m_daemon := m_daemon m; m_client := m_client m;
     m_sent := []; m_wire := []; m_time := t |}.
Lemma machine_at_world t w : m_world (machine_at t w) = w.
Proof. reflexivity. Qed.
Definition before : @Machine toy_json := machine_at 71 staged.2.
Local Abbreviation journey := (PrivateJourney.execute_private_journey store refs before).
Definition after : @Machine toy_json := machine_at 71 (m_world journey.2).
Local Abbreviation again := (PrivateJourney.execute_private_journey store refs after).

Lemma journey_in_order_witness :
  is_ok journey.1 = true /\
  exists stages new, evaluations (m_sent journey.2) = evaluations (m_sent before) ++ new /\
    sequence_of store refs (m_world journey.2) stages /\ length new = 4%nat.
Proof.
  assert (is_ok journey.1 = true) as Hok by vm_eq. split; [exact Hok|].
  destruct (journey_in_order store refs before journey.1 journey.2 (surjective_pairing journey))
    as (stages & new & Hev & _ & _ & Hseq & Hlen).
  exists stages, new. split; [exact Hev|]. split; [apply Hseq; right; exact Hok|exact (Hlen Hok)].
Defined.

Lemma private_operation_once_witness :
  scripts_told before journey.2 = 4%nat /\
  forall ref, In ref refs -> ~ In ref (take (scripts_told after again.2) refs).
Proof.
  assert (scripts_told before journey.2 = 4%nat) as Htold by vm_eq. split; [exact Htold|].
  intros ref Hin.
  assert (In ref (take (scripts_told before journey.2) refs)) as Hin' by (rewrite Htold; exact Hin).
  assert (later (m_world journey.2) (m_world after)) as Hlater 
    by (unfold after; rewrite machine_at_world; apply later_refl).
  exact (private_operation_once store store refs refs before journey.1 journey.2
           after again.1 again.2 ref (surjective_pairing journey) Hlater
           (surjective_pairing again) eq_refl Hin').
Defined.

End PrivatePlanWitness.
