(* ===== verification/RetainedWitness.v ===== *)
(** * Concrete retained browsers

    A publication whose requirement is verified, and histories of interrupted rotations,
    the one that leaves the state the verifier refuses among them. *)

From Stdlib Require Import Ascii.
From stdpp Require Import gmap.
From stdpp Require Import gmap pretty.
From S2P Require Import Prelude RustStr Env Toy ToyCodec PrivateToy.
From S2P Require Import RetainedBrowser RetainedProofs RetainedRotation.
From S2P Require Import Prelude RustStr Env Toy ToyCodec PrivateToy ServiceTabs ProcessProof RuntimeHandoff.
From S2P Require Import ProcessTheorems.
Import Toy ToyCodec PrivateToy RetainedBrowser RetainedProofs RetainedRotation.

Module RetainedWitness.

(** ** Serializations: the time comes first, so that the toy digest tells records apart *)

#[export] Instance codec_expectation : Codec RetainedBrowserExpectation :=
  {| enc := fun x => [session_name x; profile_id x; target_id x; url x];
     dec := a ← dec; b ← dec; c ← dec; d ← dec;
            mret {| session_name := a; profile_id := b; target_id := c; url := d |} |}.
#[export] Instance codec_requirement : Codec RequirementRecord :=
  {| enc := fun x => rq_created_at x :: rq_schema_version x :: enc (rq_expectation x);
     dec := a ← dec; b ← dec; c ← dec;
            mret {| rq_schema_version := b; rq_created_at := a; rq_expectation := c |} |}.
#[export] Instance codec_enforcement : Codec EnforcementRecord :=
  {| enc := fun x => [en_created_at x; en_schema_version x; en_requirement_sha256 x];
     dec := a ← dec; b ← dec; c ← dec;
            mret {| en_schema_version := b; en_created_at := a; en_requirement_sha256 := c |} |}.
#[export] Instance codec_rotation : Codec RotationRecord :=
  {| enc := fun x => ro_created_at x :: ro_schema_version x :: ro_operation_id x
                     :: ro_expected_old_sha256 x :: ro_next_requirement_sha256 x
                     :: ro_stale_reason x :: ro_phase x
                     :: (enc (ro_old_expectation x) ++ enc (ro_next_requirement x));
     dec := a ← dec; b ← dec; c ← dec; d ← dec; e ← dec; f ← dec; g ← dec; h ← dec; i ← dec;
            mret {| ro_schema_version := b; ro_operation_id := c; ro_created_at := a;
                    ro_expected_old_sha256 := d; ro_next_requirement_sha256 := e;
                    ro_stale_reason := f; ro_phase := g; ro_old_expectation := h;
                    ro_next_requirement := i |} |}.
#[export] Instance RequirementRecord_eq_dec : EqDecision RequirementRecord.
Proof. solve_decision. Defined.
#[export] Instance EnforcementRecord_eq_dec : EqDecision EnforcementRecord.
Proof. solve_decision. Defined.
#[export] Instance RotationRecord_eq_dec : EqDecision RotationRecord.
Proof. solve_decision. Defined.

(** A requirement as text that any strings survive: the characters that have a meaning are
    escaped. *)
Definition bar : ascii := "|"%char.
Definition esc : ascii := "/"%char.
Fixpoint field (s rest : string) : string :=
  match s with
  | ""%string => String bar rest
  | String c s => if Ascii.eqb c bar || Ascii.eqb c esc
                  then String esc (String c (field s rest)) else String c (field s rest)
  end.
Fixpoint read_field (s : string) : option (string * string) :=
  match s with
  | ""%string => None
  | String c s' =>
      if Ascii.eqb c bar then Some (""%string, s') else
      if Ascii.eqb c esc then
        match s' with
        | String d s'' => '(a, rest) ← read_field s''; Some (String d a, rest)
        | ""%string => None
        end
      else '(a, rest) ← read_field s'; Some (String c a, rest)
  end.
Lemma read_field_field s rest : read_field (field s rest) = Some (s, rest).
Proof.
  induction s as [|c s IH]; [done|]. cbn [field].
  destruct (Ascii.eqb c bar) eqn:Hb, (Ascii.eqb c esc) eqn:He; cbn [orb read_field];
    rewrite ?Hb, ?He; try (change (Ascii.eqb esc bar) with false; change (Ascii.eqb esc esc) with true);
    cbn; by rewrite IH.
Qed.

Definition requirement_text (r : RequirementRecord) (rest : string) : string :=
  let e := rq_expectation r in
  field (rq_created_at r) (field (rq_schema_version r) (field (session_name e)
    (field (profile_id e) (field (target_id e) (field (url e) rest))))).
Definition read_requirement_text (s : string) : option RequirementRecord :=
  '(a, s) ← read_field s; '(b, s) ← read_field s; '(c, s) ← read_field s;
  '(d, s) ← read_field s; '(e, s) ← read_field s; '(f, s) ← read_field s;
  Some {| rq_schema_version := b; rq_created_at := a;
          rq_expectation := {| session_name := c; profile_id := d; target_id := e; url := f |} |}.
Lemma read_requirement_law r rest : read_requirement_text (requirement_text r rest) = Some r.
Proof.
  destruct r as [a b [c d e f]]. unfold read_requirement_text, requirement_text.
  repeat (rewrite read_field_field; cbn [mbind option_bind rq_created_at rq_schema_version
    rq_expectation session_name profile_id target_id url]). done.
Qed.
#[export] Instance serde_requirement : Serde RequirementRecord.
Proof.
  refine {| to_vec := fun r => Some (requirement_text r ""); from_slice := read_requirement_text |}.
  intros r b [= <-]. apply read_requirement_law.
Defined.
#[export] Instance toy_pretty : PrettyJson RequirementRecord :=
  {| to_vec_pretty := fun r => Some (requirement_text r "") |}.
#[export] Instance serde_enforcement : Serde EnforcementRecord := codec_serde.
#[export] Instance serde_rotation : Serde RotationRecord := codec_serde.

(** ** Rotations *)

Definition toy_ws (s : string) : res Url :=
  match strip_prefix "ws://127.0.0.1:9222" s with
  | Some path =>
      Ok {| u_scheme := "ws"; u_username := ""; u_password := None;
            u_host_str := Some "127.0.0.1"%string; u_port := Some 9222%Z;
            u_port_or_known_default := Some 9222%Z; u_query := None; u_fragment := None;
            u_path := path; u_origin := "null"; u_as_str := s; u_without_fragment := s |}
  | None => toy_url_parse s
  end.
#[local] Instance toy_ws_urls : UrlLib := {| url_parse := toy_ws |}.
#[local] Instance toy_edit : UrlEdit :=
  {| json_list_url := fun _ => Some "http://127.0.0.1:9222/json/list"%string |}.
#[export] Instance toy_script : Script := {|
  stringify := fun r => requirement_text r "";
  parse_requirement := from_slice;
  date_ok := fun t => is_ok (parse_from_rfc3339 t);
  http_url := fun u => match url_parse u with
                       | Ok v => one_of (u_scheme v) ["http"; "https"]%string
                       | Err _ => false
                       end;
|}.

(** The two languages agree. *)
Lemma toy_pretty_stringify r : to_vec_pretty r = Some (stringify r).
Proof. done. Qed.
Lemma field_app s a b : field s (a +:+ b) = field s a +:+ b.
Proof. induction s as [|c s IH]; [done|]. cbn. destruct (_ || _); cbn; by rewrite IH. Qed.
Lemma toy_from_slice_stringify r : from_slice (serializePrivateJson r) = Some r.
Proof.
  unfold serializePrivateJson. change (stringify r) with (requirement_text r "").
  unfold requirement_text. rewrite <-!field_app. apply (read_requirement_law r).
Qed.
Lemma toy_http_url_parses u : http_url u = true ->
  exists v, url_parse u = Ok v /\ one_of (u_scheme v) ["http"; "https"]%string = true.
Proof. cbn. destruct (toy_ws u) as [v|]; [|done]. eauto. Qed.

Definition conversation : string :=
  "https://chatgpt.com/g/g-p-6a7e016622e48191a60c4bc34366b537/c/6a80e64e-e830-83ea-b21f-9079abf27a1d".
Definition old_expectation : RetainedBrowserExpectation :=
  {| session_name := "main"; profile_id := "p"; target_id := "T1"; url := conversation |}.
Definition new_expectation : RetainedBrowserExpectation :=
  {| session_name := "main"; profile_id := "p"; target_id := "T2"; url := conversation |}.
Definition old_requirement : RequirementRecord :=
  {| rq_schema_version := REQUIREMENT_SCHEMA; rq_created_at := time_text 1;
     rq_expectation := old_expectation |}.
Definition bytes : string := serializePrivateJson old_requirement.
Definition start : Publication :=
  {| pb_requirement := Some bytes; pb_enforcement := Some (digest bytes); pb_journal := None |}.
Definition call : Rotation :=
  {| rt_now := time_text 2; rt_expectation := new_expectation;
     rt_expected_sha256 := digest bytes; rt_stale_reason := "retained_daemon_missing" |}.

(** Interrupted after the first replacement, and again after the second. *)
Definition twice_interrupted : list (nat * Rotation) := [(2%nat, call); (1%nat, call)].

(** The journal says [prepared], and both files are those of the next requirement. *)
Definition left_prepared (p : Publication) : bool :=
  match pb_journal p, pb_requirement p, pb_enforcement p with
  | Some r, Some b, Some d =>
      (ro_expected_old_sha256 r != ro_next_requirement_sha256 r)
      && (ro_phase r == "prepared"%string)
      && (digest b == ro_next_requirement_sha256 r) && (d == ro_next_requirement_sha256 r)
  | _, _, _ => false
  end.
Lemma twice_interrupted_left : left_prepared (rotations twice_interrupted start) = true.
Proof. vm_compute. reflexivity. Qed.
(** A third call, left alone, completes the rotation. *)
Lemma thrice_completes :
  pb_journal (rotations (twice_interrupted ++ [(9%nat, call)]) start) = None
  /\ pb_enforcement (rotations (twice_interrupted ++ [(9%nat, call)]) start) <> Some (digest bytes).
Proof. split; [by vm_compute|]. by vm_compute. Qed.

(** A machine with these files, of its user and private. *)
Definition machine (files : string -> option string) : Observed := {|
  symlink_metadata := fun path => match files path with Some _ => Present | None => NotFound end;
  open_nofollow := fun path => bytes ← files path;
    Some {| of_metadata := Some (true, zlen bytes, 1000, 384)%Z; of_read_to_end := Some bytes |};
  geteuid := 1000;
  pid_is_running := fun pid => (pid =? 4242)%Z;
  http_get := fun _ => None;
|}.
Definition published (p : Publication) (path : string) : option string :=
  if (path == "/r"%string : bool) then pb_requirement p
  else if (path == retained_browser_enforcement_path "/r" : bool)
       then (fun d => codec_text {| en_schema_version := ENFORCEMENT_SCHEMA;
                                    en_created_at := time_text 1; en_requirement_sha256 := d |})
            <$> pb_enforcement p
  else if (path == retained_browser_rotation_path "/r" : bool) then codec_text <$> pb_journal p
  else None.

Definition verifier (o : Observed) : res RetainedBrowserRequirementStatus :=
  verify_retained_browser_requirement_at_paths "/root" "/r" "/s".
Definition report (p : Publication) : res RetainedBrowserRequirementStatus :=
  verifier (machine (published p)).
Definition once_interrupted : list (nat * Rotation) := [(2%nat, call)].
Definition once : Publication := Eval vm_compute in rotations once_interrupted start.
Definition twice : Publication := Eval vm_compute in rotations twice_interrupted start.
Lemma once_is : rotations once_interrupted start = once. Proof. by vm_compute. Qed.
Lemma twice_is : rotations twice_interrupted start = twice. Proof. by vm_compute. Qed.

(** A concrete publication is found on its machine. *)
Ltac sees_files :=
  split_and!; [by vm_compute|intros ? [= <-]; by vm_compute| |by vm_compute];
  intros ? [= <-]; eexists; split; [vm_compute; reflexivity|by vm_compute].

(** After one interruption the verifier reports a pending rotation; after the second, which
    comes between the second replacement and the journal, it reports a conflict. *)
Lemma rotation_crash_states_witness :
  enforced_requirement start
  /\ (exists r, pb_journal once = Some r
       /\ report once = Ok (status "/r" true false "rotation_pending" true (Some (ro_phase r))))
  /\ report twice = Err (failure "retained_browser_rotation_phase_conflict").
Proof.
  assert (enforced_requirement start) as Hs.
  { exists bytes. split; [|done]. exists old_requirement. split; by vm_compute. }
  assert (rfc3339 (rt_now call)) as Hnow by (exists 2%Z; by vm_compute).
  split; [exact Hs|]. split.
  - destruct (rotation_crash_states (observed := machine (published once)) toy_pretty_stringify
      toy_from_slice_stringify toy_http_url_parses once_interrupted start Hs) as (b & d & Hb & Hd & _ & Hj).
    { by repeat constructor. }
    rewrite once_is in Hb, Hd, Hj. cbn [pb_journal once] in Hj.
    eexists. split; [reflexivity|]. unfold report, verifier. rewrite Hj by sees_files.
    injection Hb as <-. injection Hd as <-. by vm_compute.
  - destruct (rotation_crash_states (observed := machine (published twice)) toy_pretty_stringify
      toy_from_slice_stringify toy_http_url_parses twice_interrupted start Hs) as (b & d & Hb & Hd & _ & Hj).
    { by repeat constructor. }
    rewrite twice_is in Hb, Hd, Hj. cbn [pb_journal twice] in Hj.
    unfold report, verifier. rewrite Hj by sees_files.
    injection Hb as <-. injection Hd as <-. by vm_compute.
Defined.

(** ** A requirement that is verified *)


Definition toy_list (l : list ToyValue) : ToyValue := TObj (map (fun v => (""%string, v)) l).
Definition handle : ToyValue :=
  TObj [("browserId", TStr "session:main"); ("sessionName", TStr "main");
        ("targetId", TStr "T1"); ("url", TStr conversation); ("valid", TBool true)]%string.
Definition browser : ToyValue :=
  TObj [("id", TStr "session:main"); ("profileId", TStr "p"); ("health", TStr "ready");
        ("pid", TNum 4242); ("activeSessionIds", toy_list [TStr "main"]);
        ("tabHandles", toy_list [handle]);
        ("cdpEndpoint", TStr "ws://127.0.0.1:9222/devtools/browser/x")]%string.
Definition state : ToyValue := TObj [("browsers", TObj [("session:main", browser)])]%string.
Definition targets : list ToyValue :=
  [TObj [("id", TStr "T0")]; TObj [("id", TStr "T1"); ("url", TStr conversation)]]%string.

Definition files (path : string) : option string :=
  if (path == "/r"%string : bool) then Some bytes
  else if (path == "/s/main.pid"%string : bool) then Some "4242"%string
  else if (path == "/root/.agent-browser/service/state.json"%string : bool)
       then Some (codec_text (state : @value toy_json)) else None.
#[local] Instance toy_observed : Observed := {|
  symlink_metadata := fun path => match files path with Some _ => Present | None => NotFound end;
  open_nofollow := fun path => bytes ← files path;
    Some {| of_metadata := Some (true, zlen bytes, 1000, 384)%Z; of_read_to_end := Some bytes |};
  geteuid := 1000;
  pid_is_running := fun pid => (pid =? 4242)%Z;
  http_get := fun _ => Some {| re_status := 200; re_content_length := None;
                               re_chunks := [Some (codec_text (targets : list (@value toy_json)))] |};
|}.

(** The verification runs to its end, and by the theorem every piece of evidence is there. *)
Lemma verified : verify_retained_browser_requirement_at_paths "/root" "/r" "/s"
  = Ok (status "/r" true true "verified" false None).
Proof. vm_compute. reflexivity. Qed.
Lemma retained_status_iff_witness : requirement_holds "/root" "/r" "/s" false.
Proof.
  destruct (proj1 (retained_status_iff "/root" "/r" "/s" _) verified)
    as [[He _]|[(phase & He & _)|(e & He & Hh)]]; [discriminate He..|].
  injection He as <-. exact Hh.
Defined.
End RetainedWitness.

(** ** A concrete process, its proof and its handoff

    A machine on which Chrome runs with a profile and a DevTools port, the records that
    describe it, and the verifications of both run on them. *)

Import Toy ToyCodec PrivateToy ProcessProof RuntimeHandoff ProcessTheorems HandoffTheorems.

Module ProcessWitness.

#[local] Instance toy_urls : UrlLib := {| url_parse := RetainedWitness.toy_ws |}.

Definition zero : string := String (ascii_of_nat 0) "".
Definition newline : string := String (ascii_of_nat 10) "".
Definition endpoint : string := "ws://127.0.0.1:9222/devtools/browser/abc".

Definition texts (path : string) : option string :=
  if (path == "/proc/42/stat"%string : bool)
  then Some "42 (chrome) S 1 2 3 4 5 6 7 8 9 10 11 12 13 14 15 16 17 18 777 0"%string
  else if (path == "/proc/42/cmdline"%string : bool)
  then Some (fmt ["/opt/chrome"; zero; "--user-data-dir=/p"; zero;
                  "--remote-debugging-port=9222"; zero]%string)
  else if (path == "/proc/42/status"%string : bool)
  then Some (fmt ["Name: chrome"; newline; "Uid: 1000 1000 1000 1000"; newline]%string)
  else if (path == "/proc/42/net/tcp"%string : bool)
  then Some (fmt ["  sl local rem st"; newline;
                  " 0: 0100007F:2406 00000000:0000 0A 0:0 0:0 0 1000 0 5555"; newline]%string)
  else if (path == "/p/DevToolsActivePort"%string : bool)
  then Some (fmt ["9222"; newline; "/devtools/browser/abc"]%string)
  else if (path == boot_id_path : bool) then Some "boot-2"%string
  else None.
Definition links (path : string) : option string :=
  if (path == "/proc/42/exe"%string : bool) then Some "/opt/chrome"%string
  else if (path == "/proc/42/fd/3"%string : bool) then Some "socket:[5555]"%string else None.
Definition real (path : string) : option string :=
  if one_of path ["/opt/chrome"; "/p"]%string then Some path
  else if one_of path ["/proc/42/exe"; "/h/.agent-browser/browsers/chrome-1/chrome"]%string
       then Some "/opt/chrome"%string else None.

Definition runtime : RuntimeState := {|
  rt_runtime_profile := "work"; rt_user_data_dir := "/p"; rt_browser_pid := 42;
  rt_headed := true; rt_launch_mode := "managed"; rt_devtools_port := Some 9222%Z;
  rt_ws_url := Some endpoint; rt_launch_record := None |}.
#[local] Instance codec_launch : Codec RuntimeLaunchRecord :=
  {| enc := fun r => enc (lr_target_url r);
     dec := a ← dec; mret {| lr_target_url := a; lr_browser_family := None;
       lr_browser_build := None; lr_display := None; lr_remote_view_route_id := None;
       lr_remote_view_url := None; lr_started_at := None; lr_last_observed_at := None |} |}.
#[local] Instance codec_runtime : Codec RuntimeState :=
  {| enc := fun r => rt_runtime_profile r :: rt_user_data_dir r :: (enc (rt_browser_pid r)
       ++ enc (rt_headed r) ++ enc (rt_launch_mode r) ++ enc (rt_devtools_port r)
       ++ enc (rt_ws_url r) ++ enc (rt_launch_record r));
     dec := a ← dec; b ← dec; c ← dec; d ← dec; e ← dec; f ← dec; g ← dec; h ← dec;
       mret {| rt_runtime_profile := a; rt_user_data_dir := b; rt_browser_pid := c;
               rt_headed := d; rt_launch_mode := e; rt_devtools_port := f; rt_ws_url := g;
               rt_launch_record := h |} |}.
#[local] Instance serde_runtime : Serde RuntimeState := codec_serde.

Definition build_text (b : BrowserBuild) : string :=
  match b with
  | StockChrome => "stock_chrome"
  | StealthcdpChromium => "stealthcdp_chromium"
  | CdpFreeHeaded => "cdp_free_headed"
  end.
Definition build_of (v : @value toy_json) : res BrowserBuild :=
  match v with
  | TStr s =>
      if (s == "stock_chrome"%string : bool) then Ok StockChrome
      else if (s == "stealthcdp_chromium"%string : bool) then Ok StealthcdpChromium
      else if (s == "cdp_free_headed"%string : bool) then Ok CdpFreeHeaded else Err "variant"%string
  | _ => Err "variant"%string
  end.
#[local] Instance value_build : @SerdeValue toy_json BrowserBuild.
Proof.
  refine {| to_value := fun b => Ok (TStr (build_text b) : @value toy_json);
            from_value := build_of |}.
  intros b v [= <-]. by destruct b.
Defined.

#[local] Instance toy_machine : Machine := {|
  m_read_link := fun _ => links;
  m_canonicalize := fun _ => real;
  m_read_to_string := fun _ path =>
    if (path == "/h/.agent-browser/runtime-profiles/work/runtime-state.json"%string : bool)
    then Contents (codec_text runtime)
    else match texts path with Some s => Contents s | None => Missing end;
  m_read := fun _ => texts;
  m_is_file := fun _ path => path == "/opt/chrome"%string;
  m_metadata := fun _ _ => NotFound;
  m_identity := fun _ path => match real path with
                              | Some "/opt/chrome"%string => Some (8, 17)%Z
                              | Some _ => Some (8, 99)%Z
                              | None => None
                              end;
  m_read_dir := fun _ path =>
    if (path == "/proc/42/fd"%string : bool) then Some ["3"]%string
    else if (path == "/h/.agent-browser/browsers"%string : bool) then Some ["chrome-1"]%string
    else None;
  m_home_dir := Some "/h"%string;
|}.

(** ** A persisted proof *)

Definition proof_value : @value toy_json :=
  TObj [("applied", TBool true); ("reason", TStr "verified_installed_chrome_runtime_attach");
        ("browserBuild", TStr "stock_chrome"); ("profileId", TStr "work");
        ("executablePath", TStr "/opt/chrome"); ("browserPid", TNum 42);
        ("processStartTicks", TNum 777); ("cdpEndpoint", TStr endpoint);
        ("userDataDir", TStr "/p")]%string.
Definition browser : BrowserProcess := {|
  bp_profile_id := Some "work"%string; bp_browser_build := Some StockChrome;
  bp_executable_path := Some "/opt/chrome"%string; bp_browser_build_proof := Some proof_value;
  bp_host := LocalHeaded; bp_pid := Some 42%Z; bp_cdp_endpoint := Some endpoint;
  bp_active_session_ids := ["main"]%string |}.
Definition profile : BrowserProfile := {|
  bf_id := "work"; bf_user_data_dir := Some "/p"%string; bf_browser_build := None |}.

Local Abbreviation renewal := (verify_persisted_retained_process browser profile 42 endpoint 0%nat).
Lemma renewal_ok : renewal.1 = Ok 777%Z.
Proof. vm_compute. reflexivity. Qed.
Lemma persisted_process_sound_witness :
  exists v port, endpoint_port endpoint = Some port
    /\ process_seen 0 renewal.2 42 "/opt/chrome" PROC port v /\ vp_start_ticks v = 777%Z.
Proof.
  destruct (persisted_process_sound browser profile 42 endpoint 0 777 renewal.2
    (run_eq _ _ _ renewal_ok))
    as (pf & build & path & executable & port & v & Hpf & _ & _ & Hexe & _ & _ & _ & _ & _ & _ & _
        & _ & _ & _ & _ & _ & _ & _ & _ & _ & Hport & Hseen & Hticks & _).
  injection Hexe as <-. exists v, port. split; [exact Hport|split; [exact Hseen|exact Hticks]].
Defined.

(** ** Evidence observed again: a launch that was selected and never verified *)

Definition session : BrowserSession := {|
  bs_id := "main"; bs_lease := ServiceTabs.Exclusive; bs_profile_id := Some "work"%string;
  bs_browser_ids := ["session:main"]%string; bs_tab_ids := ["target:T1"]%string;
  bs_browser_capability_launch := Some (TObj [("browserBuild", TStr "stock_chrome");
    ("reason", TStr "managed_runtime_attach_unverified"); ("applied", TBool false)]%string
    : @value toy_json) |}.
Definition tab : BrowserTab := {|
  bt_browser_id := "session:main"; bt_owner_session_id := Some "main"%string;
  bt_target_id := Some "T1"%string; bt_lifecycle := ServiceTabs.TabReady |}.

Definition identity_value : @value toy_json :=
  TObj [("pid", TNum 42); ("bootId", TStr "boot-2"); ("startTicks", TNum 777);
        ("executableDevice", TNum 8); ("executableInode", TNum 17); ("uid", TNum 1000)]%string.
Definition source_value : @value toy_json :=
  TObj [("pid", TNum 7); ("bootId", TStr "boot-1"); ("startTicks", TNum 5)]%string.
Definition browser_value : @value toy_json :=
  TObj [("process", identity_value); ("cdpEndpoint", TStr endpoint);
        ("canonicalProfile", TStr "/p"); ("profileDevice", TNum 8); ("profileInode", TNum 99)]%string.
Definition receipt : @value toy_json :=
  TObj [("schemaVersion", TNum 2); ("phase", TStr "committed"); ("destination", source_value);
        ("browser", browser_value); ("targetId", TStr "T1");
        ("descriptorSha256", TStr (of_bytes (replicate 64 "a"%char)))]%string.

Definition state : ServiceState := {|
  profiles := {["work" := profile]}; browsers := {["session:main" := browser]};
  sessions := {["main" := session]}; tabs := {["target:T1" := tab]};
  runtime_custody_receipts := {["main" := receipt]} |}%string.

Local Abbreviation refreshed :=
  (refresh_retained_with_proc_root state "main" "work" (Some 42%Z) (Some endpoint) PROC 0%nat).
Definition row (r : res ServiceState) : option BrowserProcess :=
  match r with Ok s => browsers s !! "session:main"%string | Err _ => None end.
(** The observation succeeds: the row has a proof of its own, that it did not have. *)
Lemma refreshed_row :
  (r ← row refreshed.1; bp_executable_path r) = Some "/opt/chrome"%string
  /\ (r ← row refreshed.1; p ← bp_browser_build_proof r; ju64 p "processStartTicks") = Some 777%Z
  /\ (r ← row refreshed.1; p ← bp_browser_build_proof r; jstr p "cdpEndpoint") = Some endpoint.
Proof. vm_compute. done. Qed.
Lemma refreshed_ok : is_ok refreshed.1 = true.
Proof. vm_compute. reflexivity. Qed.

Lemma refresh_evidence_sound_witness : exists state',
  refreshed = (Ok state', refreshed.2)
  /\ profiles state' = profiles state /\ tabs state' = tabs state.
Proof.
  pose proof refreshed_ok as Hok. pose proof (surjective_pairing refreshed) as Hrun.
  revert Hok Hrun. generalize (refreshed.1). intros [state'|e] Hok Hrun; [|discriminate Hok].
  exists state'. split; [exact Hrun|].
  destruct (refresh_evidence_sound state "main" "work" (Some 42%Z) (Some endpoint) PROC 0 state'
    refreshed.2 Hrun) as [->|(s & i & b & pf & _ & -> & _)]; split; reflexivity.
Defined.

(** ** A handoff *)

Definition descriptor : Descriptor := {|
  hd_browser_pid := Some 42%Z; hd_runtime_profile := Some "work"%string; hd_cdp_url := endpoint;
  hd_target_id := Some "T1"%string;
  hd_custody := Some (TObj [("source", source_value); ("browser", browser_value)]%string
                      : @value toy_json) |}.

Local Abbreviation first_run := (verify state "main" descriptor 0%nat).
Local Abbreviation second_run := (verify state "main" descriptor 100%nat).
Lemma runs_ok : first_run.1 = Ok tt /\ second_run.1 = Ok tt.
Proof. vm_compute. done. Qed.
Lemma state_keyed : keyed state.
Proof. intros k s. unfold state. cbn. intros [<- <-]%lookup_singleton_Some. done. Qed.

Lemma handoff_exclusive_witness :
  exists source, (hd_custody descriptor ≫= fun c => jget c "source") = Some source
    /\ process_gone 0 first_run.2 source.
Proof.
  destruct (handoff_exclusive state Current "main" descriptor 0 first_run.2
              Current "main" descriptor 100 second_run.2 session session
              state_keyed (run_eq _ _ _ (proj1 runs_ok)) (run_eq _ _ _ (proj2 runs_ok))
              eq_refl eq_refl eq_refl)
    as (_ & _ & source & source' & Hs & Hg & _).
  exists source. split; [exact Hs|exact Hg].
Defined.
End ProcessWitness.
