(* ===== verification/ProfileWitness.v ===== *)
(** * Profiles and leases, on concrete states

    A service state with two profiles, sessions that hold one of them, and commands that
    want it: the theorems of [ProfileTheorems] applied there, and the places where the
    code and what is said of it part. *)

From Stdlib Require Import Ascii.
From stdpp Require Import gmap sorting pretty.
From S2P Require Import Prelude RustStr Env Toy ToyCodec ServiceJobs ControlJobs ServiceTabs RemoteRoute ProcessProof ProfileSelection ProfileLeases ProfileTheorems.
Import Toy ToyCodec ServiceJobs ProfileSelection ProfileLeases ProfileTheorems.

Module ProfileWitness.

#[local] Existing Instance toy_json.
#[local] Existing Instance toy_build.
#[local] Existing Instance toy_tree.
#[local] Existing Instance toy_url.
#[local] Instance lease_chrono : Chrono :=
  {| parse_from_rfc3339 := time_parse; to_rfc3339 := time_text; parse_to_rfc3339 := time_law;
     representable := fun _ => true |}.

Definition no_env (_ : string) : option string := None.

(** ** A state *)

Definition work : BrowserProfile :=
  {| pf_id := "work"; pf_name := "Work"; pf_description := None; pf_aliases := [];
     pf_origins := []; pf_login_ids := []; pf_account_labels := [];
     pf_profile_origin := ServiceTabs.AgentBrowserOwned; pf_profile_class := DurableNamed;
     pf_user_data_dir := Some "/w"%string; pf_site_policy_ids := [];
     pf_target_service_ids := ["acs"]%string; pf_authenticated_service_ids := ["acs"]%string;
     pf_account_ids := []; pf_browser_build := None; pf_allocation := SharedService;
     pf_keyring := BasicPasswordStore; pf_shared_service_ids := [];
     pf_manual_login_preferred := false; pf_target_readiness := []; pf_persistent := true;
     pf_tags := [] |}.
Definition spare : BrowserProfile := default_profile "spare" "Spare".

Definition session (id : string) (lease : ServiceTabs.LeaseState) (expires : option string)
    : BrowserSession :=
  {| se_id := id; se_service_name := None; se_agent_name := None; se_task_name := None;
     se_owner := ActorSystem; se_lease := lease; se_profile_id := Some "work"%string;
     se_profile_selection_reason := None; se_profile_lease_disposition := None;
     se_profile_lease_conflict_session_ids := []; se_browser_capability_launch := None;
     se_cleanup := ServiceTabs.Detach; se_browser_ids := [service_browser_id_for_session id];
     se_tab_ids := []; se_created_at := None; se_last_lease_observed_at := None; se_expires_at := expires |}.
Definition browser (id : string) : BrowserProcess :=
  {| br_id := service_browser_id_for_session id; br_profile_id := Some "work"%string;
     br_host := RemoteRoute.LocalHeaded; br_health := ServiceTabs.Ready; br_pid := None;
     br_cdp_endpoint := None; br_active_session_ids := [id] |}.

Definition state_of (holders : list (string * BrowserSession)) (live : list BrowserProcess)
    : ServiceState :=
  {| profiles := list_to_map [("work"%string, work); ("spare"%string, spare)];
     browsers := list_to_map (map (fun b => (br_id b, b)) live);
     sessions := list_to_map holders; tabs := ∅; jobs := ∅; site_policies := ∅;
     default_browser_build := None; profile_sources := ∅; policy_sources := ∅ |}.

Definition idle : ServiceState := state_of [] [].
Definition held : ServiceState :=
  state_of [("first"%string, session "first" ServiceTabs.Exclusive (Some (time_text 5)))]
    [browser "first"].
Definition all_of (st : ServiceState) : Snapshots :=
  {| for_selection := Ok st; for_lanes := Ok st; for_leases := Ok st |}.

(** A launch that asks for a profile authenticated for a target, and may wait. *)
Definition command : value :=
  jobject [("action", jstring "navigate"); ("serviceName", jstring "svc");
           ("targetServiceId", jstring "acs"); ("browserId", jstring "b");
           ("profileLeasePolicy", jstring "wait")]%string.
Definition metadata : ServiceLaunchMetadata :=
  {| lm_profile_id := Some "work"; lm_profile_name := Some "work"; lm_user_data_dir := Some "/w";
     lm_persistent_profile := true; lm_keyring := BasicPasswordStore;
     lm_service_name := Some "svc"; lm_agent_name := None; lm_task_name := None;
     lm_cleanup := ServiceTabs.CloseBrowser;
     lm_profile_selection_reason := Some AuthenticatedTarget;
     lm_browser_capability_launch := None |}%string.

Lemma command_metadata st :
  st = idle \/ st = held -> lease_metadata no_env None (all_of st) command = Some metadata.
Proof. intros [-> | ->]; vm_cast_no_check (eq_refl (Some metadata)). Qed.

(** ** Selection *)

Definition request : ProfileSelectionRequest :=
  {| rq_service_name := Some "svc"; rq_target_service_ids := ["acs"]; rq_account_ids := [];
     rq_target_url := None; rq_browser_build := None |}%string.

Lemma selection_strongest_witness :
  fits held request work AuthenticatedTarget /\
  exists s, select_service_profile_for_request held request = Some s
    /\ strength AuthenticatedTarget <= strength (sel_reason s).
Proof.
  assert (fits held request work AuthenticatedTarget) as Hfits.
  { exists "acs"%string. split; [left|]; by left. }
  split; [exact Hfits|].
  apply (proj2 (selection_strongest held request) "work"%string work AuthenticatedTarget).
  - split; [reflexivity|right; by left].
  - exact Hfits.
Defined.

Lemma selects_work :
  select_service_profile_for_request held request
  = Some {| sel_profile_id := "work"; sel_reason := AuthenticatedTarget |}.
Proof. vm_compute. reflexivity. Qed.

(** ** The gate *)

Lemma lease_gate_spec_witness :
  lease_gate no_env None (all_of held) command "second" (Some 7%Z)
    = Ok (ControlJobs.GateWait 250 "work" ["first"%string]) /\
  lists_ids (loaded_rival (all_of held) "second" "work") ["first"%string].
Proof.
  destruct (lease_gate_spec no_env None (all_of held) command "second" (Some 7%Z) metadata "work"
    (command_metadata held (or_intror eq_refl)) eq_refl) as (_ & Hwait & _).
  assert (lease_gate no_env None (all_of held) command "second" (Some 7%Z)
    = Ok (ControlJobs.GateWait 250 "work" ["first"%string])) as Hgate by (vm_compute; reflexivity).
  split; [exact Hgate|]. by apply Hwait in Hgate as (_ & _ & _ & _ & _ & Hlist & _).
Defined.

Definition waiting_request : ControlJobs.ControlRequest :=
  {| ControlJobs.rq_id := "r"; ControlJobs.rq_job_id := "j"; ControlJobs.rq_action := "navigate";
     ControlJobs.rq_service_name := None; ControlJobs.rq_agent_name := None;
     ControlJobs.rq_task_name := None; ControlJobs.rq_naming_warnings := [];
     ControlJobs.rq_command := command; ControlJobs.rq_priority := ControlJobs.PriorityNormal;
     ControlJobs.rq_timeout_ms := None; ControlJobs.rq_submitted_at_wall := "t";
     ControlJobs.rq_submitted_at_mono := 0%Z;
     ControlJobs.rq_profile_lease_wait_started_at := None;
     ControlJobs.rq_profile_lease_wait_profile_id := None;
     ControlJobs.rq_profile_lease_wait_conflict_session_ids := [];
     ControlJobs.rq_profile_lease_wait_retry_after_ms := None; ControlJobs.rq_ticket := 0 |}.
Definition at_time (t : Z) : Attempt :=
  {| clock_before := t; clock_after := t; loads := all_of held |}.

(** The request after the attempt that starts the wait, and after the next. *)
Definition told_to_wait : ControlJobs.ControlRequest :=
  (attempt no_env None "second" (at_time 0) waiting_request).2.
Definition told_again : ControlJobs.ControlRequest :=
  (attempt no_env None "second" (at_time 400) told_to_wait).2.
Lemma waits_twice : keeps_waiting no_env None "second" waiting_request [at_time 0; at_time 400].
Proof.
  exists 250%Z, "work"%string, ["first"%string], true, told_to_wait. split.
  { vm_cast_no_check (eq_refl (ControlJobs.LeaseWait 250 "work" ["first"%string] true, told_to_wait)). }
  exists 250%Z, "work"%string, ["first"%string], false, told_again. split; [|exact I].
  vm_cast_no_check (eq_refl (ControlJobs.LeaseWait 250 "work" ["first"%string] false, told_again)).
Qed.

Lemma lease_wait_bounded_witness :
  (clock_before (at_time 400) < 0 + 30000)%Z /\ (1 * 250 <= 30000)%Z.
Proof.
  destruct (lease_wait_bounded no_env None "second" waiting_request (at_time 0) [at_time 400] 30000)
    as [Hwindow Hcount].
  - vm_compute. reflexivity.
  - reflexivity.
  - cbn. unfold PROFILE_LEASE_WAIT_POLL_MS. lia.
  - intros a Ha%list_elem_of_singleton. subst a. cbn. lia.
  - exact waits_twice.
  - split; [apply Hwindow; by left|exact Hcount].
Defined.

(** ** Exclusive leases *)

Lemma no_sessions_exclusive st : sessions st = ∅ -> leases_exclusive st.
Proof. intros Hs a b sa sb P _ Ha. by rewrite Hs, lookup_empty in Ha. Qed.

(** A launch passes the gate of an idle service and takes the lease. *)
Definition taken : ServiceState :=
  upsert_service_profile_and_session "t" idle "second" (Some "work"%string) metadata.

Lemma idle_gate S :
  lease_gate no_env None (all_of idle) command S None = Ok ControlJobs.GateReady.
Proof. vm_cast_no_check (eq_refl (Ok (E := string) ControlJobs.GateReady)). Qed.

Lemma gated_leases_exclusive_witness :
  se_lease <$> sessions taken !! "second"%string = Some ServiceTabs.Exclusive /\
  leases_exclusive (expire_stale_session_leases (time_text 9) taken).2.
Proof.
  split; [reflexivity|].
  apply (gated_leases_exclusive no_env None idle _ []).
  - apply no_sessions_exclusive. reflexivity.
  - eapply rtc_l; [|eapply rtc_l; [|apply rtc_once, ExpireStep; by intros g Hg%elem_of_nil]].
    + apply (GateStep no_env None (all_of idle) command "second" None metadata "work").
      * reflexivity.
      * apply command_metadata. by left.
      * reflexivity.
      * apply idle_gate.
      * by intros Hin%elem_of_nil.
    + exact (RecordStep no_env None "second" "work" metadata idle [] [] "t").
Defined.

(** Two holders of one profile, no browser known. *)
Lemma two_holders st a b sa sb P :
  browsers st = ∅ -> a <> b -> sessions st !! a = Some sa -> sessions st !! b = Some sb ->
  (se_lease sa, se_profile_id sa) = (ServiceTabs.Exclusive, Some P) ->
  (se_lease sb, se_profile_id sb) = (ServiceTabs.Exclusive, Some P) -> ~ leases_exclusive st.
Proof.
  intros Hb Hne Ha Hb' [= Hla Hpa] [= Hlb Hpb] Hex.
  destruct (Hex a b sa sb P) as [Hs|Hs]; [done..| |];
    destruct Hs as (id & br & _ & Hlook & _); by rewrite Hb, lookup_empty in Hlook.
Qed.

(** The gate reads the state before the launch, and the launch is recorded after it: of
    two launches of one profile that ask at the same time both pass, and both end up
    with an exclusive lease. The second record names the conflict. *)
Definition taken_twice : ServiceState :=
  upsert_service_profile_and_session "t" taken "third" (Some "work"%string) metadata.

Theorem stale_gate_two_holders :
  lease_gate no_env None (all_of idle) command "second" None = Ok ControlJobs.GateReady /\
  lease_gate no_env None (all_of idle) command "third" None = Ok ControlJobs.GateReady /\
  ~ leases_exclusive taken_twice /\
  se_profile_lease_disposition <$> sessions taken_twice !! "third"%string
    = Some (Some ActiveLeaseConflict).
Proof.
  split_and!; [apply idle_gate..| |vm_cast_no_check (eq_refl (Some (Some ActiveLeaseConflict)))].
  eapply (two_holders _ "second" "third"); reflexivity || done.
Qed.

(** A launch that names no profile passes every gate, and a session that has lost the lease
    of its profile takes it back, next to the session that holds it now. *)
Definition plain : value := jobject [("action", jstring "navigate")]%string.
Definition no_profile : ServiceLaunchMetadata :=
  {| lm_profile_id := None; lm_profile_name := None; lm_user_data_dir := None;
     lm_persistent_profile := false; lm_keyring := BasicPasswordStore; lm_service_name := None;
     lm_agent_name := None; lm_task_name := None; lm_cleanup := ServiceTabs.CloseBrowser;
     lm_profile_selection_reason := None; lm_browser_capability_launch := None |}.
Definition handed_over : ServiceState :=
  state_of [("first"%string, session "first" ServiceTabs.Expired None);
            ("second"%string, session "second" ServiceTabs.Exclusive None)] [].
Definition taken_back : ServiceState :=
  upsert_service_profile_and_session "t" handed_over "first" None no_profile.
Theorem relaunch_takes_back :
  lease_gate no_env None (all_of handed_over) plain "first" None = Ok ControlJobs.GateReady /\
  ~ leases_exclusive taken_back.
Proof.
  split; [vm_cast_no_check (eq_refl (Ok (E := string) ControlJobs.GateReady))|].
  eapply (two_holders _ "first" "second"); reflexivity || done.
Qed.

(** ** Expiry *)

Lemma expire_spec_witness :
  (expire_stale_session_leases (time_text 9) held).1 = ["first"%string] /\
  (expire_stale_session_leases (time_text 9)
     (expire_stale_session_leases (time_text 9) held).2).1 = [].
Proof.
  destruct (expire_spec held (time_text 9) _ _ (surjective_pairing _))
    as (_ & _ & _ & _ & _ & Hagain).
  split; [reflexivity|exact Hagain].
Defined.

(** ** Well-formed records and the allocation view *)

Lemma held_well_formed : well_formed held.
Proof.
  split.
  - apply map_Forall_insert_2; [|apply map_Forall_empty].
    split; [reflexivity|]. split; [apply NoDup_singleton|].
    split; [by intros _; eexists|]. split; [constructor|]. split; [constructor|].
    by intros ?%elem_of_nil.
  - do 2 (apply map_Forall_insert_2; [reflexivity|]). apply map_Forall_empty.
Qed.

Lemma leases_well_formed_witness :
  well_formed held /\
  well_formed (upsert_service_profile_and_session "t" held "second" (Some "work"%string) metadata)
  /\ well_formed (expire_stale_session_leases "t" held).2.
Proof.
  split; [exact held_well_formed|].
  apply (leases_well_formed "t" held "second" (Some "work"%string) metadata), held_well_formed.
Defined.

Lemma allocation_shows_rivals_witness :
  pa_lease_state (service_profile_allocation held "work") = "exclusive"%string /\
  "first"%string ∈ pa_exclusive_holder_session_ids (service_profile_allocation held "work").
Proof.
  split; [vm_cast_no_check (eq_refl "exclusive"%string)|].
  apply (proj1 (proj2 (allocation_shows_rivals held "work" held_well_formed)) "second"%string).
  exists (session "first" ServiceTabs.Exclusive (Some (time_text 5))).
  split_and!; [reflexivity|done|reflexivity|reflexivity|].
  intros (id & b & Hid & Hb & _ & Hact). apply list_elem_of_singleton in Hid. subst id.
  injection Hb as <-. by apply list_elem_of_singleton in Hact.
Defined.

(** A profile a human has taken over: the allocation view shows an exclusive holder,
    and the gate lets a launch of the profile pass. *)
Definition human : ServiceState :=
  state_of [("first"%string, session "first" ServiceTabs.HumanTakeover None)] [browser "first"].
Theorem human_lease_passes_gate :
  pa_lease_state (service_profile_allocation human "work") = "exclusive"%string /\
  lease_gate no_env None (all_of human) command "second" None = Ok ControlJobs.GateReady.
Proof.
  split; [vm_cast_no_check (eq_refl "exclusive"%string)|].
  vm_cast_no_check (eq_refl (Ok (E := string) ControlJobs.GateReady)).
Qed.

(** A retained browser of the profile, in which another session is active: the launch is
    recorded as the first one to use the profile. *)
Definition shared : ServiceState :=
  state_of [("first"%string, session "first" ServiceTabs.Shared None)] [browser "first"].
Theorem new_browser_beside_retained :
  browsers shared !! "session:first"%string = Some (browser "first") /\
  disposition (profile_lease_telemetry shared "second" "work") = NewBrowser.
Proof. split; [reflexivity|vm_cast_no_check (eq_refl NewBrowser)]. Qed.

(** ** Readiness and discovery *)

Lemma readiness_of_work :
  map tr_state (pf_target_readiness
    (unwrap_or (profiles (refresh_profile_readiness held) !! "work"%string) spare))
  = [SeededUnknownFreshness].
Proof. vm_cast_no_check (eq_refl [SeededUnknownFreshness]). Qed.

Lemma readiness_refresh_spec_witness :
  refresh_profile_readiness (refresh_profile_readiness held) = refresh_profile_readiness held /\
  exists p', profiles (refresh_profile_readiness held) !! "work"%string = Some p' /\
    forall row, row ∈ pf_target_readiness p' -> tr_target_service_id row = "acs"%string ->
      tr_state row = SeededUnknownFreshness.
Proof.
  destruct (readiness_refresh_spec held) as [Hagain Hrows]. split; [exact Hagain|].
  destruct (Hrows "work"%string work eq_refl) as (p' & Hlook & _ & Hrow).
  exists p'. split; [exact Hlook|]. intros row Hin Htarget.
  apply (Hrow row Hin); [|rewrite Htarget; by left].
  intros e (_ & _ & _ & before & after & Hrows' & _). by destruct before.
Defined.

(** Discovery compares names without case, and ranks authentication by exact names: a
    profile reported as authenticated for the target comes after one that only has the
    account. *)
Definition named (id : string) (authenticated accounts : list string) : BrowserProfile :=
  {| pf_id := id; pf_name := id; pf_description := None; pf_aliases := []; pf_origins := [];
     pf_login_ids := []; pf_account_labels := [];
     pf_profile_origin := ServiceTabs.AgentBrowserOwned; pf_profile_class := DurableNamed;
     pf_user_data_dir := None; pf_site_policy_ids := []; pf_target_service_ids := [];
     pf_authenticated_service_ids := authenticated; pf_account_ids := accounts;
     pf_browser_build := None; pf_allocation := SharedService; pf_keyring := BasicPasswordStore;
     pf_shared_service_ids := []; pf_manual_login_preferred := false;
     pf_target_readiness := []; pf_persistent := false; pf_tags := [] |}.
Definition catalog : ServiceState :=
  {| profiles := list_to_map [("a"%string, named "a" ["ACS"%string] []);
                              ("b"%string, named "b" [] ["me"%string])];
     browsers := ∅; sessions := ∅; tabs := ∅; jobs := ∅; site_policies := ∅;
     default_browser_build := None; profile_sources := ∅; policy_sources := ∅ |}.
Definition wanted : ProfileDiscoveryRequest :=
  {| dr_selection := {| rq_service_name := None; rq_target_service_ids := ["acs"%string];
       rq_account_ids := ["me"%string]; rq_target_url := None; rq_browser_build := None |};
     dr_profile_ids := []; dr_profile_names := []; dr_hostnames := [];
     dr_authentication_states := []; dr_freshness_states := []; dr_tags := [];
     dr_free_text := None |}.
Theorem authenticated_ranked_last :
  map (fun c => (dc_profile_id c, dc_reason c)) (discover_service_profiles catalog wanted)
  = [("b", "account_match"); ("a", "authenticated_target")]%string.
Proof.
  vm_cast_no_check (eq_refl [("b", "account_match"); ("a", "authenticated_target")]%string).
Qed.

End ProfileWitness.
