(* ===== verification/TaskWitness.v ===== *)
(** * A task authority in a concrete environment

    An authority issued, used for two steps, finalized and revoked; every theorem
    on task authorities is applied to these runs. *)

From Stdlib Require Import Ascii.
From stdpp Require Import pretty.
From S2P Require Import Prelude RustStr Env Toy Policy TaskModel TaskIssue TaskAdmit.
From S2P Require Import TaskProofs TaskTheorems TaskPlan ToyCodec.
From S2P Require Import TaskProofs TaskTheorems TaskReconcile TaskReconcileProofs ToyCodec.
Import Toy Policy.Policy TaskModel TaskIssue TaskAdmit TaskProofs TaskTheorems TaskPlan TaskOutcome
  ToyCodec.
Local Open Scope Z_scope.

Module TaskWitness.

#[local] Existing Instance toy_json.
#[local] Existing Instance toy_crypto.
#[local] Existing Instance toy_url.

(** ** Clock and host *)

#[local] Instance toy_chrono : Chrono :=
  {| parse_from_rfc3339 := time_parse; to_rfc3339 := time_text; parse_to_rfc3339 := time_law;
     representable := fun t => (t <? 10 ^ 24) && (- 10 ^ 24 <? t) |}.

#[local] Instance toy_host : Host :=
  {| h_sys := fun _ => true; h_stat := fun _ => true; h_now := fun t => Z.of_nat t;
     h_uuid := fun t => "u" +:+ pretty t; h_order := fun _ l => l;
     h_order_perm := fun _ _ => reflexivity _ |}.
Lemma reliable : stat_reliable.
Proof. done. Qed.

(** ** Serialization *)

#[local] Instance serde_envelope : Serde TaskAuthorityEnvelope := codec_serde.
#[local] Instance serde_steps : Serde (list TaskAuthorityApprovedStep) := codec_serde.
#[local] Instance serde_ledger : Serde TaskAuthorityLedger := codec_serde.
#[local] Instance serde_issuance : Serde TaskAuthorityIssuanceRecord := codec_serde.
#[local] Instance value_envelope : SerdeValue TaskAuthorityEnvelope := codec_value.

Definition response (success : bool) : @value toy_json := TObj [("success", TBool success)]%string.
Definition value_text (v : ToyValue) : string :=
  if toy_eqb v (response true) then "T" else if toy_eqb v (response false) then "F" else "?".
Definition value_parse (s : string) : option ToyValue :=
  if s == "T" then Some (response true) else if s == "F" then Some (response false) else None.
#[local] Instance toy_value_serde : Serde (@value toy_json) :=
  @checked_serde _ toy_value_eq_dec value_text value_parse.

Lemma url_idem u v : normalized_url u = Ok v -> normalized_url v = Ok v.
Proof.
  assert (forall u p, url_parse u = Ok p -> u_without_fragment p = u) as Hp.
  { intros u0 p. cbn. unfold toy_url_parse. repeat case_match; try done. by intros [= <-]. }
  intros Hu. pose proof Hu as Hu'. unfold normalized_url in Hu. inv_ok.
  match goal with E : parse_url u = Ok _ |- _ => unfold parse_url in E end.
  destruct (url_parse u) as [p|] eqn:Hparse; simplify_eq. by rewrite (Hp u _ Hparse) in *.
Qed.
Lemma value_nonempty (v : @value toy_json) b : to_vec v = Some b -> 0 < zlen b.
Proof.
  cbn. unfold checked_to_vec. case_match; [|done]. intros [= <-].
  unfold value_text. by repeat case_match.
Qed.
Definition debug : option string -> string := fun _ => "".

(** ** An authority of two steps *)

Definition home : string := "https://a.test/".
Definition next : string := "https://a.test/next".
Definition request : TaskAuthorityIssueRequest := {|
  rq_task_name := "read"; rq_service_name := None; rq_agent_name := None;
  rq_expected_target_id := "T1"; rq_expected_url := home;
  rq_issuer := {| is_kind := "operator"; is_id := "op" |};
  rq_approval_reference := "ticket-1"; rq_expires_in_seconds := 60;
  rq_consequence_ceiling := None;
  rq_steps := [{| ps_action := "snapshot"; ps_url := None; ps_evidence_bytes := Some 100 |};
               {| ps_action := "navigate"; ps_url := Some next; ps_evidence_bytes := None |}] |}.
Definition empty : Files := {| t_files := ∅; t_tick := 0 |}.

Definition issued_run := Eval vm_compute in
  issue_request request "s1" "T1" home "/root" (Some "auth"%string) None empty.
Definition w1 : Files := issued_run.2.
Definition record : option TaskAuthorityIssuanceRecord := Eval vm_compute in
  stored (issuance_path "/root" "s1" "auth") w1.
Example issued : (match issued_run.1 with Ok r => sr_state r | Err e => e end) = "active"%string.
Proof. vm_compute. reflexivity. Qed.
Lemma issue_sound_witness :
  Forall typed_step (rq_steps request) /\
  exists record ceiling envelope_ceiling,
    stored (issuance_path "/root" "s1" (en_id (ir_envelope record))) w1 = Some record /\
    ceilings_of None ceiling envelope_ceiling /\ plan_ok request home ceiling record.
Proof.
  assert (Forall typed_step (rq_steps request)) as Ht.
  { rewrite Forall_lookup. intros i s Hi n Hn. destruct i as [|[|i]]; cbn in Hi; simplify_eq;
      cbn in Hn; simplify_eq. by vm_compute. }
  split; [exact Ht|].
  destruct issued_run.1 as [receipt|e] eqn:Hr; [|by vm_compute in Hr].
  destruct (issue_sound request "s1" "T1" home "/root" (Some "auth"%string) None empty receipt w1 Ht)
    as (r & c & ec & H1 & _ & _ & _ & _ & _ & _ & _ & _ & _ & H2 & _ & H3).
  { rewrite <-Hr. vm_compute. reflexivity. }
  exists r, c, ec. split_and!; [exact H1|exact H2|exact H3].
Defined.

Definition envelope : TaskAuthorityEnvelope := Eval vm_compute in
  match record with
  | Some r => ir_envelope r
  | None => Build_TaskAuthorityEnvelope "" "" None None [] [] None None "" "" 0 0 "" ""
  end.
Definition raw : @value toy_json := Eval vm_compute in TStr (codec_text envelope).
Definition command (step id : string) (bytes : Z) (url : option string) : ToyValue :=
  TObj ([("taskAuthority", raw); ("taskName", TStr "read"); ("taskStepId", TStr step);
         ("id", TStr id); ("taskEvidenceBytes", TNum bytes)]
        ++ match url with Some u => [("url", TStr u)] | None => [] end)%list.
Definition context (target : option string) (url : string) (confirmed : option string)
    : TaskAuthorityContext :=
  {| cx_session_id := "s1"; cx_target_id := target; cx_url := Some url;
     cx_confirmed_authority_id := confirmed; cx_require_authority := true;
     cx_ledger_root := "/root" |}.
Definition at_home : TaskAuthorityContext := context (Some "T1"%string) home None.

Definition cmd1 : @value toy_json := Eval vm_compute in command "auth:step-0" "c1" 100 None.
Definition cmd2 : @value toy_json := Eval vm_compute in command "auth:step-1" "c2" 4096 (Some next).
Definition admit1 := Eval vm_compute in
  admit_task_authority debug cmd1 "snapshot" ReadOnly at_home true w1.
Definition w2 : Files := admit1.2.
Definition admission1 : TaskAuthorityAdmission := Eval vm_compute in
  match admit1.1 with
  | Ok (Admitted_ ad) => ad
  | _ => Build_TaskAuthorityAdmission "" "" ReadOnly ReadOnly 0 0 "" None None
  end.
Lemma admit1_run :
  admit_task_authority debug cmd1 "snapshot" ReadOnly at_home true w1
    = (Ok (Admitted_ admission1), w2).
Proof. vm_compute. reflexivity. Qed.
Lemma raw_envelope : jget cmd1 "taskAuthority" = Some raw /\ from_value raw = Ok envelope.
Proof. vm_compute. split; reflexivity. Qed.

Lemma admit_sound_witness :
  exists raw envelope record step command_id,
    jget cmd1 "taskAuthority" = Some raw /\ from_value raw = Ok envelope /\
    stored (issuance_of at_home (en_id envelope)) w1 = Some record /\
    in_force at_home envelope (h_now (t_tick w1)) record /\
    performs cmd1 "snapshot" at_home envelope step command_id /\
    ap_steps (ir_approved_plan record) !! 0%nat = Some step.
Proof.
  destruct (admit_sound debug cmd1 "snapshot" ReadOnly at_home true w1 admission1 w2)
    as (r & e & rec & st & c & existing & Hr & Hf & Hi & ? & ? & Hseen & Hst & _);
    [reflexivity|apply admit1_run|].
  exists r, e, rec, st, c. split_and!; [done..|].
  destruct raw_envelope as [Hraw Henv].
  assert (e = envelope) as -> by (rewrite Hraw in Hr; injection Hr as <-; congruence).
  destruct Hseen as [->|(_ & t & _ & Hno)]; [|discriminate Hno].
  vm_cast_no_check Hst.
Defined.

Lemma admit_reserves_witness :
  exists ledger receipt,
    extended w1 w2 at_home (en_id envelope) receipt ledger /\
    rc_outcome receipt = None /\
    ad_reserved_evidence_bytes admission1 <= en_max_evidence_bytes envelope.
Proof.
  destruct (admit_reserves debug cmd1 "snapshot" ReadOnly at_home w1 admission1 w2 raw envelope)
    as (rec & l & r & st & _ & He & _ & _ & _ & _ & Ho & _ & _ & _ & Hb);
    [apply reliable|reflexivity|apply raw_envelope|apply raw_envelope| |apply admit1_run|].
  - by vm_compute.
  - by exists l, r.
Defined.

Definition ledger2 : TaskAuthorityLedger := Eval vm_compute in
  match stored (ledger_of at_home "auth") w2 with
  | Some l => l
  | None => Build_TaskAuthorityLedger "" "" "" "" 0 0 0 [] ""
  end.
(** Replayed at once, as another action. *)
Lemma command_never_replayed_witness :
  lg_admitted_actions ledger2 = 1 /\
  (forall d w,
    admit_task_authority debug cmd1 "navigate" Navigation at_home false w2 <> (Ok d, w)).
Proof.
  split; [reflexivity|]. intros d w.
  apply (command_never_replayed debug cmd1 "snapshot" ReadOnly at_home w1 admission1 w2 raw envelope
           "navigate" Navigation at_home false w2 ledger2 ledger2 d w);
    [apply reliable|reflexivity|reflexivity|apply raw_envelope|apply raw_envelope| |apply admit1_run| | |].
  - by vm_compute.
  - vm_compute. reflexivity.
  - vm_compute. reflexivity.
  - done.
Defined.

Definition refused := Eval vm_compute in
  admit_task_authority debug cmd2 "navigate" Navigation (context (Some "T2"%string) home None) true w2.
Lemma admit_atomic_witness :
  is_ok refused.1 = false /\ same_at durable w2 refused.2.
Proof.
  split; [reflexivity|].
  apply (admit_atomic debug cmd2 "navigate" Navigation (context (Some "T2"%string) home None) true w2
           refused.1 refused.2).
  - vm_compute. reflexivity.
  - intros ad Had. exfalso. vm_compute in Had. discriminate Had.
Defined.

(** ** Outcomes *)

Definition finalized := Eval vm_compute in
  finalize_task_authority_step cmd1 at_home (response true) w2.
Definition w3 : Files := finalized.2.
Lemma finalize_step_witness :
  exists record ledger' receipt,
    stored (issuance_of at_home (en_id envelope)) w2 = Some record /\
    stored (ledger_of at_home (en_id envelope)) w3 = Some ledger' /\
    (validate_ordered_ledger ledger' record = Ok tt <->
     cx_target_id at_home = None \/ cx_target_id at_home = Some (rc_target_id receipt)).
Proof.
  destruct (finalize_step url_idem value_nonempty cmd1 at_home (response true) w2 w3 raw envelope)
    as (rec & l & s & c & r & t & o & Hrec & _ & _ & Hl & _ & Hs & Hc & Hf & _ & Hr);
    [apply raw_envelope|apply raw_envelope|vm_compute; reflexivity|].
  assert (rc_outcome r = None) as Hnone.
  { vm_compute in Hl, Hs, Hc. injection Hl as <-. injection Hs as <-. injection Hc as <-.
    vm_compute in Hf. injection Hf as <-. reflexivity. }
  rewrite Hnone in Hr. destruct Hr as (l' & H1 & _ & H2 & _). by exists rec, l', r.
Defined.

(** The second step, a navigation above the read-only ceiling: first refused
    for lack of a confirmation, then admitted with it. *)
Example second_step :
  let ask c := (admit_task_authority debug cmd2 "navigate" Navigation
                  (context (Some "T1"%string) home c) true w3).1 in
  match ask None, ask (Some "auth"%string) with
  | Ok (Admitted_ ad), Ok (Admitted_ ad') => (ad_admitted_actions ad, ad_admitted_actions ad')
  | Ok (RequiresConfirmation ad), Ok (Admitted_ ad') => (0, ad_admitted_actions ad')
  | _, _ => (-1, -1)
  end = (0, 2).
Proof. vm_compute. reflexivity. Qed.

(** An outcome observed on another target is stored, and from then on the
    authority can neither be used nor finalized nor inspected. *)
Example foreign_target_poisons :
  let other := context (Some "T2"%string) home None in
  let w := (finalize_task_authority_step cmd1 other (response true) w2).2 in
  let invalid := "Task authority ordered ledger outcome is invalid"%string in
  (finalize_task_authority_step cmd1 other (response true) w2).1 = Ok tt /\
  (finalize_task_authority_step cmd1 at_home (response true) w).1 = Err invalid /\
  (admit_task_authority debug cmd2 "navigate" Navigation
     (context (Some "T1"%string) home (Some "auth"%string)) true w).1 = Err invalid /\
  (task_authority_status "/root" "s1" "auth" w).1 = Err invalid.
Proof. vm_compute. repeat split. Qed.

(** ** Revocation *)

Definition revoked := Eval vm_compute in
  revoke_task_authority "/root" "s1" "auth" "op" "done" "T1" home w3.
Definition w4 : Files := revoked.2.
Definition no_receipt : StatusReceipt := Eval vm_compute in
  match issued_run.1 with
  | Ok r => r
  | Err _ => status_of (Build_TaskAuthorityIssuanceRecord "" "" envelope ""
       (Build_TaskAuthorityIssuer "" "") "" (Build_TaskAuthorityApprovedPlan [] [] 0 0 [] None) "" None)
       None 0 0
  end.
Definition receipt4 : StatusReceipt := Eval vm_compute in
  match revoked.1 with Ok r => r | Err _ => no_receipt end.
Lemma revoked_run :
  revoke_task_authority (cx_ledger_root at_home) (cx_session_id at_home) "auth" "op" "done" "T1" home w3
    = (Ok receipt4, w4).
Proof. vm_compute. reflexivity. Qed.
Lemma revoked_refused_witness :
  is_ok (admit_task_authority debug cmd2 "navigate" Navigation at_home true w3).1 = true /\
  (forall d w,
    admit_task_authority debug cmd2 "navigate" Navigation at_home true w4 <> (Ok d, w)).
Proof.
  split; [vm_compute; reflexivity|]. intros d w.
  apply (revoked_refused debug at_home "auth" "op" "done" "T1" home w3 receipt4 w4
           cmd2 "navigate" Navigation true raw envelope w4 d w);
    [apply reliable|apply revoked_run|done|vm_compute; reflexivity|vm_compute; reflexivity|].
  reflexivity.
Defined.

Definition revoked_again := Eval vm_compute in
  revoke_task_authority "/root" "s1" "auth" "op" "done" "T1" next w4.
Definition receipt5 : StatusReceipt := Eval vm_compute in
  match revoked_again.1 with Ok r => r | Err _ => no_receipt end.
Lemma revocation_immutable_witness :
  is_ok (revoke_task_authority "/root" "s1" "auth" "op" "other" "T1" home w4).1 = false /\
  same w4 revoked_again.2 /\ sr_idempotent receipt5 = Some true.
Proof.
  split; [vm_compute; reflexivity|].
  destruct (revocation_immutable at_home "auth" "op" "done" "T1" home w3 receipt4 w4
              "op" "done" "T1" next receipt5 w4 revoked_again.2) as (_ & _ & _ & Hs & Hi);
    [apply revoked_run|done|vm_compute; reflexivity|]. by split.
Defined.

End TaskWitness.

(** ** A reconciliation in a concrete environment

    The authority of [TaskWitness.v], stranded after its first admission: it is
    reconciled, reconciled again, and interrupted between its two writes. *)

Import Toy Policy.Policy TaskModel TaskIssue TaskAdmit TaskProofs TaskTheorems TaskReconcile
  TaskReconcileProofs ToyCodec TaskWitness.
Local Open Scope Z_scope.

Module TaskReconcileWitness.

#[local] Existing Instance toy_json.
#[local] Existing Instance toy_build.
#[local] Existing Instance toy_crypto.
#[local] Existing Instance toy_url.
#[local] Existing Instance toy_chrono.
#[local] Existing Instance toy_host.
#[local] Existing Instance serde_envelope.
#[local] Existing Instance serde_steps.
#[local] Existing Instance serde_ledger.
#[local] Existing Instance serde_issuance.
#[local] Existing Instance value_envelope.

(** ** JSON values as text *)

Fixpoint value_fields (v : ToyValue) : list string :=
  match v with
  | TNull => ["n"]
  | TBool b => ["b"; bool_text b]
  | TNum z => ["d"; pretty z]
  | TStr s => ["s"; toy_hex s]
  | TObj l => "o" :: pretty (Z.of_nat (length l))
              :: concat (map (fun p => toy_hex p.1 :: value_fields p.2) l)
  end%string.
Definition nibble (c : ascii) : N :=
  if (N_of_ascii c <? 58)%N then (N_of_ascii c - 48)%N else (N_of_ascii c - 87)%N.
Fixpoint unhex (l : list ascii) : list ascii :=
  match l with a :: b :: l => ascii_of_N (16 * nibble a + nibble b) :: unhex l | _ => [] end.
Definition hexed : Parser string := s ← dec; mret (of_bytes (unhex (bytes_of s))).
Fixpoint repeat_parser {A} (p : Parser A) (n : nat) : Parser (list A) :=
  match n with O => mret [] | S n => a ← p; l ← repeat_parser p n; mret (a :: l) end.
Fixpoint parse_value (fuel : nat) : Parser ToyValue :=
  match fuel with
  | O => fun _ => None
  | S fuel =>
      tag ← (dec : Parser string);
      if tag == "b" then b ← dec; mret (TBool b)
      else if tag == "d" then z ← dec; mret (TNum z)
      else if tag == "s" then s ← hexed; mret (TStr s)
      else if tag == "o" then
        n ← dec;
        l ← repeat_parser (k ← hexed; v ← parse_value fuel; mret (k, v))
              (Z.to_nat (digits_value n));
        mret (TObj l)
      else mret TNull
  end%string.
#[local] Instance codec_value_text : Codec ToyValue :=
  {| enc := value_fields; dec := parse_value 8 |}.
#[local] Instance value_serde : Serde (@value toy_json) :=
  @codec_serde ToyValue codec_value_text toy_value_eq_dec.

#[local] Instance codec_issuer : Codec TaskAuthorityIssuer :=
  {| enc := fun i => [is_kind i; is_id i]; dec := a ← dec; b ← dec; mret (Build_TaskAuthorityIssuer a b) |}.
#[local] Instance codec_plan_step : Codec TaskAuthorityPlanStep :=
  {| enc := fun s => ps_action s :: enc (ps_url s) ++ enc (ps_evidence_bytes s);
     dec := a ← dec; b ← dec; c ← dec; mret (Build_TaskAuthorityPlanStep a b c) |}.
#[local] Instance codec_issue_request : Codec TaskAuthorityIssueRequest :=
  {| enc := fun r => rq_task_name r :: enc (rq_service_name r) ++ enc (rq_agent_name r)
       ++ [rq_expected_target_id r; rq_expected_url r] ++ enc (rq_issuer r)
       ++ [rq_approval_reference r; pretty (rq_expires_in_seconds r)]
       ++ enc (rq_consequence_ceiling r) ++ enc (rq_steps r);
     dec := a ← dec; b ← dec; c ← dec; d ← dec; e ← dec; f ← dec; g ← dec; h ← dec; i ← dec;
       j ← dec; mret (Build_TaskAuthorityIssueRequest a b c d e f g h i j) |}.
#[local] Instance codec_reconcile_request : Codec TaskAuthorityReconcileRequest :=
  {| enc := fun r => [rr_reconciliation_id r; rr_unresolved_step_id r] ++ enc (issue_request_of r);
     dec := a ← dec; b ← dec; q ← dec;
       mret (Build_TaskAuthorityReconcileRequest a b (rq_task_name q) (rq_service_name q)
               (rq_agent_name q) (rq_expected_target_id q) (rq_expected_url q) (rq_issuer q)
               (rq_approval_reference q) (rq_expires_in_seconds q) (rq_consequence_ceiling q)
               (rq_steps q)) |}.
#[local] Instance eq_plan_step : EqDecision TaskAuthorityPlanStep.
Proof. solve_decision. Defined.
#[local] Instance eq_issue_request : EqDecision TaskAuthorityIssueRequest.
Proof. solve_decision. Defined.
#[local] Instance eq_reconcile_request : EqDecision TaskAuthorityReconcileRequest.
Proof. solve_decision. Defined.
#[local] Instance value_issue_request : SerdeValue TaskAuthorityIssueRequest := codec_value.
#[local] Instance value_reconcile_request : SerdeValue TaskAuthorityReconcileRequest := codec_value.

(** ** The stranded step is reconciled *)

Definition to_reconcile (url : string) : TaskAuthorityReconcileRequest := {|
  rr_reconciliation_id := "rec-1"; rr_unresolved_step_id := "auth:step-0"; rr_task_name := "read";
  rr_service_name := None; rr_agent_name := None; rr_expected_target_id := "T1";
  rr_expected_url := url; rr_issuer := {| is_kind := "operator"; is_id := "op" |};
  rr_approval_reference := "ticket-2"; rr_expires_in_seconds := 60;
  rr_consequence_ceiling := None;
  rr_steps := [{| ps_action := "snapshot"; ps_url := None; ps_evidence_bytes := Some 100 |}] |}.
Definition raw_reconcile (url : string) : @value toy_json := TStr (codec_text (to_reconcile url)).
Definition raw_home : @value toy_json := Eval vm_compute in raw_reconcile home.

Definition reconciled := Eval vm_compute in
  reconcile_task_authority "/root" "s1" "auth" raw_home "T1" home w2.
Definition r1 : Files := reconciled.2.
Example reconciles :
  match reconciled.1 with
  | Ok r => (rx_idempotent r, sr_state (rx_predecessor r), sr_state (rx_replacement r))
  | Err e => (true, e, e)
  end = (false, "revoked", "active")%string.
Proof. vm_compute. reflexivity. Qed.

Definition no_replacement : ReconcileReceipt :=
  Build_ReconcileReceipt false "" "" no_receipt no_receipt (Build_TaskAuthorityLineage "" "" "" 0 "" "").
Definition receipt_of (r : res ReconcileReceipt) : ReconcileReceipt :=
  match r with Ok r => r | Err _ => no_replacement end.
Definition receipt1 : ReconcileReceipt := Eval vm_compute in receipt_of reconciled.1.
Lemma reconciled_run :
  reconcile_task_authority "/root" "s1" "auth" raw_home "T1" home w2 = (Ok receipt1, r1).
Proof. vm_cast_no_check (eq_refl reconciled). Qed.
Lemma other_path :
  issuance_path "/root" "s1" "auth" <> rpath "/root" "s1" (rx_request_sha256 receipt1).
Proof.
  intros Heq. vm_compute in Heq. discriminate Heq.
Qed.

Lemma reconcile_sound_witness :
  sr_state (rx_replacement receipt1) = "active"%string /\
  exists record,
    stored (rpath "/root" "s1" (rx_request_sha256 receipt1)) r1 = Some record /\
    sr_envelope (rx_replacement receipt1) = ir_envelope record.
Proof.
  split; [reflexivity|].
  destruct (reconcile_sound "/root" "s1" "auth" raw_home "T1" home w2 receipt1 r1 reconciled_run other_path)
    as (request & p & ledger & stranded & p' & record & _ & _ & _ & _ & _ & _ & _ & _ & _ & _ & Hr & _ & He & _).
  by exists record.
Defined.

(** Interrupted after the revocation, then resumed with the same request. *)
Definition interrupted := Eval vm_compute in
  reconcile_task_authority_inner "/root" "s1" "auth" raw_home "T1" home true w2.
Definition resumed := Eval vm_compute in
  reconcile_task_authority "/root" "s1" "auth" raw_home "T1" home interrupted.2.
Example resumes :
  match interrupted.1, resumed.1 with
  | Err e, Ok r => (e, rx_idempotent r, sr_state (rx_replacement r))
  | _, _ => ("", true, "")
  end = ("Injected stop after predecessor revocation", false, "active")%string.
Proof. vm_compute. reflexivity. Qed.

Definition sha1 : string := Eval vm_compute in rx_request_sha256 receipt1.
Lemma reconcile_never_two_live_witness :
  exists p revocation, stored (issuance_path "/root" "s1" "auth") w2 = Some p /\
    stored (issuance_path "/root" "s1" "auth") r1 = Some (revoke revocation p).
Proof.
  destruct (reconcile_never_two_live "/root" "s1" "auth" raw_home (to_reconcile home) sha1 "T1" home
              false w2 reconciled.1 r1) as [_ Hrevoked].
  - apply reconciled_run.
  - vm_compute. reflexivity.
  - vm_compute. reflexivity.
  - apply other_path.
  - destruct Hrevoked as (p & v & _ & Hp & Hp' & _).
    + intros Heq. vm_compute in Heq. discriminate Heq.
    + by exists p, v.
Defined.

(** The same request again. *)
Definition again := Eval vm_compute in
  reconcile_task_authority "/root" "s1" "auth" raw_home "T1" home r1.
Definition receipt2 : ReconcileReceipt := Eval vm_compute in receipt_of again.1.
Lemma reconcile_once_witness :
  rx_request_sha256 receipt2 = sha1 /\ rx_idempotent receipt2 = true.
Proof.
  destruct (reconcile_once "/root" "s1" "auth" raw_home "T1" home w2 receipt1 r1
              raw_home "T1" home r1 receipt2 again.2 reconciled_run other_path)
    as (Hs & _ & Hi); [done| |by split].
  vm_cast_no_check (eq_refl again).
Defined.

(** A page without an http URL passes the checks that precede the revocation of
    the predecessor, and then no replacement can be issued. *)
Definition blank : string := "about:blank".
Definition raw_blank : @value toy_json := Eval vm_compute in raw_reconcile blank.
Definition stranded_run := Eval vm_compute in
  reconcile_task_authority "/root" "s1" "auth" raw_blank "T1" blank w2.
Example blank_page_strands :
  is_ok stranded_run.1 = false /\
  match stored (issuance_path "/root" "s1" "auth") stranded_run.2 with
  | Some p => negb (is_none (ir_revocation p))
  | None => false
  end = true.
Proof. vm_compute. split; reflexivity. Qed.

End TaskReconcileWitness.
