(* ===== verification/TaskConfirmWitness.v ===== *)
(** * Confirmations in a concrete environment

    A revocation is staged, confirmed, finalized and cleaned up; every theorem on
    confirmations is applied to these runs. *)

From S2P Require Import Prelude RustStr Env Toy TaskModel TaskIssue TaskProofs.
From S2P Require Import Tombstones TombstoneProofs TaskConfirm TaskConfirmTheorems.
From S2P Require Import ToyCodec TaskWitness.
From Stdlib Require Import Ascii.
From stdpp Require Import pretty countable.
Import Toy TaskModel TaskIssue TaskProofs Tombstones TombstoneProofs TaskConfirm TaskConfirmProofs
  TaskConfirmTheorems ToyCodec TaskWitness TaskReconcileWitness.

Local Open Scope Z_scope.

Module TaskConfirmWitness.

#[local] Existing Instance toy_json.
#[local] Existing Instance toy_build.
#[local] Existing Instance toy_crypto.
#[local] Existing Instance toy_chrono.
#[local] Existing Instance toy_host.
#[local] Existing Instance value_serde.
#[local] Existing Instance codec_issuer.

(** ** A serialization of records that never fails *)

Definition Leaf : Type := bool + (Z + string).
Fixpoint tree_of (v : ToyValue) : gen_tree Leaf :=
  match v with
  | TNull => GenNode 0 []
  | TBool b => GenLeaf (inl b)
  | TNum z => GenLeaf (inr (inl z))
  | TStr s => GenLeaf (inr (inr s))
  | TObj l => GenNode 1 (map (fun p => GenNode 2 [GenLeaf (inr (inr p.1)); tree_of p.2]) l)
  end.
Fixpoint of_tree (t : gen_tree Leaf) : ToyValue :=
  match t with
  | GenLeaf (inl b) => TBool b
  | GenLeaf (inr (inl z)) => TNum z
  | GenLeaf (inr (inr s)) => TStr s
  | GenNode 1 l => TObj (map (fun t => match t with
      | GenNode 2 [GenLeaf (inr (inr k)); t'] => (k, of_tree t')
      | _ => (""%string, TNull)
      end) l)
  | GenNode _ _ => TNull
  end.
Lemma of_tree_of : forall v, of_tree (tree_of v) = v.
Proof.
  fix IH 1. intros [|b|z|s|l]; cbn; try done. f_equal.
  induction l as [|[k v] l IHl]; cbn; [done|]. by rewrite IH, IHl.
Qed.

Definition positive_text (p : positive) : string := of_bytes (bits p).
Definition text_positive (s : string) : positive := unbits (bytes_of s).
Lemma text_positive_text p : text_positive (positive_text p) = p.
Proof. unfold text_positive, positive_text. by rewrite bytes_of_of_bytes, unbits_bits. Qed.

Definition encode_value (v : ToyValue) : string := positive_text (countable.encode (tree_of v)).
Definition decode_value (s : string) : ToyValue :=
  match countable.decode (text_positive s) with Some t => of_tree t | None => TNull end.
Lemma decode_encode_value v : decode_value (encode_value v) = v.
Proof.
  unfold decode_value, encode_value. by rewrite text_positive_text, countable.decode_encode, of_tree_of.
Qed.

Definition option_text (o : option string) : string :=
  match o with Some s => String "s" s | None => "n" end.
Definition text_option (s : string) : option string :=
  match s with String "s" s => Some s | _ => None end.
Definition option_bool_text (o : option bool) : string :=
  match o with Some true => "t" | Some false => "f" | None => "n" end.
Definition text_option_bool (s : string) : option bool :=
  match s with "t" => Some true | "f" => Some false | _ => None end%string.

Definition confirmation_fields (r : TaskAuthorityConfirmationRecord) : list string :=
  [cf_schema r; cf_confirmation_id r; cf_session_id r; cf_action r; cf_consequence_class r;
   cf_target_id r; cf_url r; cf_request_sha256 r; is_kind (cf_requested_by r);
   is_id (cf_requested_by r); cf_requested_at r; cf_expires_at r; cf_state r; cf_execution_state r;
   option_text (is_kind <$> cf_decided_by r); option_text (is_id <$> cf_decided_by r);
   option_text (cf_decided_at r); option_text (cf_decision r);
   option_text (cf_invalidation_reason r); option_text (cf_result_sha256 r);
   option_bool_text (cf_result_success r); option_text (cf_completed_at r);
   encode_value (cf_command r)].
Definition confirmation_of (l : list string) : option TaskAuthorityConfirmationRecord :=
  match l with
  | [a; b; c; d; e; f; g; h; i; j; k; m; n; o; p; q; r; s; t; u; v; w; x] =>
      Some {| cf_schema := a; cf_confirmation_id := b; cf_session_id := c; cf_action := d;
        cf_consequence_class := e; cf_target_id := f; cf_url := g; cf_request_sha256 := h;
        cf_requested_by := {| is_kind := i; is_id := j |}; cf_requested_at := k;
        cf_expires_at := m; cf_state := n; cf_execution_state := o;
        cf_decided_by := (match text_option p, text_option q with
                          | Some kind, Some id => Some {| is_kind := kind; is_id := id |}
                          | _, _ => None end);
        cf_decided_at := text_option r; cf_decision := text_option s;
        cf_invalidation_reason := text_option t; cf_result_sha256 := text_option u;
        cf_result_success := text_option_bool v; cf_completed_at := text_option w;
        cf_command := decode_value x |}
  | _ => None
  end.
Lemma confirmation_of_fields r : confirmation_of (confirmation_fields r) = Some r.
Proof.
  destruct r as [? ? ? ? ? ? ? ? [] ? ? ? ? by_ at_ de inv sha ok co cmd]. cbn.
  rewrite decode_encode_value.
  by destruct by_ as [[]|], at_, de, inv, sha, ok as [[]|], co.
Qed.
Lemma confirmation_law r b :
  Some (positive_text (countable.encode (confirmation_fields r))) = Some b ->
  (l ← countable.decode (text_positive b); confirmation_of l) = Some r.
Proof.
  intros [= <-]. rewrite text_positive_text, countable.decode_encode. cbn. apply confirmation_of_fields.
Qed.
#[local] Instance serde_confirmation : Serde TaskAuthorityConfirmationRecord :=
  {| to_vec := fun r => Some (positive_text (countable.encode (confirmation_fields r)));
     from_slice := fun b => l ← countable.decode (text_positive b); confirmation_of l;
     from_slice_to_vec := confirmation_law |}.

(** ** The tombstone ledger *)

#[local] Instance codec_manifest : Codec Manifest :=
  {| enc := fun m => [mf_schema m; pretty (mf_segment_capacity m); pretty (mf_segment_count m);
       pretty (mf_confirmation_count m)] ++ enc (mf_head_sha256 m)
       ++ enc (mf_active_confirmation_ids m) ++ [mf_active_sha256 m] ++ enc (mf_updated_at m);
     dec := a ← dec; b ← dec; c ← dec; d ← dec; e ← dec; f ← dec; g ← dec; h ← dec;
       mret (Build_Manifest a b c d e f g h) |}.
#[local] Instance codec_segment : Codec Segment :=
  {| enc := fun s => [sg_schema s; pretty (sg_index s)] ++ enc (sg_previous_sha256 s)
       ++ enc (sg_confirmation_ids s) ++ [sg_created_at s];
     dec := a ← dec; b ← dec; c ← dec; d ← dec; e ← dec; mret (Build_Segment a b c d e) |}.
#[local] Instance codec_legacy : Codec LegacyTombstones :=
  {| enc := fun l => le_schema l :: enc (le_confirmation_ids l) ++ enc (le_updated_at l);
     dec := a ← dec; b ← dec; c ← dec; mret (Build_LegacyTombstones a b c) |}.
#[local] Instance eq_manifest : EqDecision Manifest.
Proof. solve_decision. Defined.
#[local] Instance eq_segment : EqDecision Segment.
Proof. solve_decision. Defined.
#[local] Instance eq_legacy : EqDecision LegacyTombstones.
Proof. solve_decision. Defined.
#[local] Instance serde_segment : Serde Segment := codec_serde.
#[local] Instance serde_ids : Serde (list string) := codec_serde.
#[local] Instance value_issuer : SerdeValue TaskAuthorityIssuer := codec_value.
#[local] Instance value_legacy : SerdeValue LegacyTombstones := codec_value.

Definition manifest_to (m : Manifest) : @value toy_json :=
  TObj [("schema", TStr (mf_schema m)); ("body", TStr (codec_text m))]%string.
Definition manifest_from (v : @value toy_json) : res Manifest :=
  m ← ok_or "malformed"%string (body ← get_str v "body"; codec_parse body);
  if (0 <=? mf_segment_count m) && (mf_segment_count m <=? u64_max) then Ok m
  else Err "out of range"%string.
Definition manifest_value_to (m : Manifest) : res (@value toy_json) :=
  if manifest_from (manifest_to m) == Ok m then Ok (manifest_to m) else Err "unserializable"%string.
Lemma manifest_value_law m v : manifest_value_to m = Ok v -> manifest_from v = Ok m.
Proof.
  unfold manifest_value_to.
  destruct (bool_decide_reflect (manifest_from (manifest_to m) = Ok m)); [|done]. by intros [= <-].
Qed.
#[local] Instance value_manifest : SerdeValue Manifest :=
  {| to_value := manifest_value_to; from_value := manifest_from;
     from_value_to_value := manifest_value_law |}.
Definition manifest_to_vec (m : Manifest) : option string :=
  match manifest_value_to m with Ok v => to_vec v | Err _ => None end.
Definition manifest_from_slice (b : string) : option Manifest :=
  v ← from_slice b; match manifest_from v with Ok m => Some m | Err _ => None end.
Lemma manifest_law m b : manifest_to_vec m = Some b -> manifest_from_slice b = Some m.
Proof.
  unfold manifest_to_vec, manifest_from_slice. destruct (manifest_value_to m) as [v|] eqn:Hv; [|done].
  intros ->%from_slice_to_vec. cbn. by rewrite (manifest_value_law _ _ Hv).
Qed.
#[local] Instance serde_manifest : Serde Manifest :=
  {| to_vec := manifest_to_vec; from_slice := manifest_from_slice; from_slice_to_vec := manifest_law |}.
#[local] Instance format : ManifestFormat.
Proof.
  split.
  - intros v m. cbn. unfold manifest_from. intros Hm. inv_ok.
    destruct (_ && _) eqn:Hc; [|done]. apply andb_true_iff in Hc as [? ?]. inv_ok. split; lia.
  - intros m b Hb. cbn in Hb. unfold manifest_to_vec in Hb.
    destruct (manifest_value_to m) as [v|] eqn:Hv; [|done]. exists v.
    split_and!; [by apply from_slice_to_vec|by apply manifest_value_law|].
    unfold manifest_value_to in Hv. case_match; [|done]. by injection Hv as <-.
Qed.

(** ** A revocation is requested, confirmed, carried out and cleaned up *)

Definition operator : TaskAuthorityIssuer := {| is_kind := "operator"; is_id := "op" |}.
Definition revoke_command : @value toy_json :=
  TObj [("action", TStr "task_authority_revoke"); ("revokedBy", TStr "op")]%string.
Definition to_stage (id : string) : StageTaskAuthorityConfirmation := {|
  st_confirmation_id := id; st_action := "task_authority_revoke";
  st_consequence_class := "control"; st_command := revoke_command; st_target_id := "T1";
  st_url := home; st_ttl_seconds := 60 |}.
Definition to_decide (id decision : string) (target : option string)
    : DecideTaskAuthorityConfirmation := {|
  dc_confirmation_id := id; dc_expected_action := "task_authority_revoke";
  dc_decision := decision; dc_decided_by := operator; dc_target_id := target;
  dc_url := Some home |}.
Definition to_clean (apply : bool) (review : option string) : CleanupTaskAuthorityConfirmations := {|
  cl_retain_count := 0; cl_min_age_seconds := 0; cl_requested_by := operator; cl_apply := apply;
  cl_review_sha256 := review |}.
Definition confirm_input : DecideTaskAuthorityConfirmation := to_decide "c1" "confirm" (Some "T1"%string).
Definition no_confirmation : TaskAuthorityConfirmationRecord := {|
  cf_schema := ""; cf_confirmation_id := ""; cf_session_id := ""; cf_action := "";
  cf_consequence_class := ""; cf_target_id := ""; cf_url := ""; cf_request_sha256 := "";
  cf_requested_by := operator; cf_requested_at := ""; cf_expires_at := ""; cf_state := "";
  cf_execution_state := ""; cf_decided_by := None; cf_decided_at := None; cf_decision := None;
  cf_invalidation_reason := None; cf_result_sha256 := None; cf_result_success := None;
  cf_completed_at := None; cf_command := TNull : @value toy_json |}.
Definition the {A} (default : A) (r : res A) : A := match r with Ok a => a | Err _ => default end.

Definition staged_run := Eval vm_compute in
  stage_task_authority_confirmation "/root" "s1" (to_stage "c1") empty.
Definition staged : TaskAuthorityConfirmationRecord := Eval vm_compute in
  the no_confirmation staged_run.1.
Definition decided_run := Eval vm_compute in
  decide_task_authority_confirmation "/root" "s1" confirm_input staged_run.2.
Definition decided : TaskAuthorityConfirmationRecord := Eval vm_compute in
  the no_confirmation decided_run.1.
Definition finalized_run := Eval vm_compute in
  finalize_task_authority_confirmation "/root" decided (response true) decided_run.2.
Definition preview_run := Eval vm_compute in
  cleanup_task_authority_confirmations "/root" "s1" (to_clean false None) finalized_run.2.
Definition no_cleanup : CleanupReceipt := {|
  cr_apply := false; cr_review_sha256 := ""; cr_tombstone_ledger := TNull : @value toy_json;
  cr_pending_preserved := false; cr_indeterminate_preserved_count := 0;
  cr_terminal_receipt_count := 0; cr_candidates := []; cr_removed_confirmation_ids := [] |}.
Definition preview : CleanupReceipt := Eval vm_compute in the no_cleanup preview_run.1.
Definition apply_input : CleanupTaskAuthorityConfirmations := Eval vm_compute in
  to_clean true (Some (cr_review_sha256 preview)).
Definition cleaned_run := Eval vm_compute in
  cleanup_task_authority_confirmations "/root" "s1" apply_input preview_run.2.
Definition cleaned : CleanupReceipt := Eval vm_compute in the no_cleanup cleaned_run.1.

Example confirms :
  (cf_state staged, cf_state decided, is_ok finalized_run.1, cr_removed_confirmation_ids preview,
   cr_removed_confirmation_ids cleaned)
  = ("pending", "confirmed", true, [], ["c1"])%string.
Proof. vm_compute. reflexivity. Qed.
(** An id that was cleaned up cannot be staged again; a new one can. *)
Example staged_again :
  (is_ok (stage_task_authority_confirmation "/root" "s1" (to_stage "c1") cleaned_run.2).1,
   is_ok (stage_task_authority_confirmation "/root" "s1" (to_stage "c2") cleaned_run.2).1)
  = (false, true).
Proof. vm_compute. reflexivity. Qed.
Example wrong_target_invalidates :
  match decide_task_authority_confirmation "/root" "s1" (to_decide "c1" "confirm" (Some "T2"%string))
          staged_run.2 with
  | (Err e, w) => (e, cf_state <$> stored (terminal_confirmation_path "/root" "s1" "c1") w)
  | (Ok _, _) => ("", None)
  end = ("Task authority confirmation failed closed: confirmation target changed before decision",
         Some "invalidated")%string.
Proof. vm_compute. reflexivity. Qed.

Lemma staged_eq :
  stage_task_authority_confirmation "/root" "s1" (to_stage "c1") empty = (Ok staged, staged_run.2).
Proof. vm_cast_no_check (eq_refl staged_run). Qed.
Lemma decided_eq :
  decide_task_authority_confirmation "/root" "s1" confirm_input staged_run.2
    = (Ok decided, decided_run.2).
Proof. vm_cast_no_check (eq_refl decided_run). Qed.
Lemma cleaned_eq :
  cleanup_task_authority_confirmations "/root" "s1" apply_input preview_run.2
    = (Ok cleaned, cleaned_run.2).
Proof. vm_cast_no_check (eq_refl cleaned_run). Qed.

(** The history that follows the decision. *)
Lemma history : rtc (step "/root" "s1") decided_run.2 cleaned_run.2.
Proof.
  apply (rtc_l _ _ finalized_run.2); [apply (step_finalize _ _ _ _ decided (response true) finalized_run.1); [done|]|].
  { vm_cast_no_check (eq_refl finalized_run). }
  apply (rtc_l _ _ preview_run.2); [apply (step_cleanup _ _ _ _ (to_clean false None) preview_run.1)|].
  { vm_cast_no_check (eq_refl preview_run). }
  apply (rtc_l _ _ cleaned_run.2); [eapply step_cleanup, cleaned_eq|apply rtc_refl].
Qed.

Lemma confirm_once_witness :
  stored (terminal_confirmation_path "/root" "s1" "c1") decided_run.2 = Some decided /\
  is_ok (stage_task_authority_confirmation "/root" "s1" (to_stage "c1") cleaned_run.2).1 = false.
Proof.
  destruct (confirm_once "/root" "s1" confirm_input staged_run.2 decided_run.2
              cleaned_run.2 decided reliable decided_eq history) as (Hh & _ & Hst).
  split; [exact Hh|].
  destruct (stage_task_authority_confirmation _ _ _ _) as [[r|e] w] eqn:Hrun; [|done].
  by destruct (Hst _ _ _ Hrun).
Defined.

Lemma decide_sound_witness :
  t_files decided_run.2 !! pending_confirmation_path "/root" "s1" = None /\
  stored (terminal_confirmation_path "/root" "s1" "c1") decided_run.2 = Some decided.
Proof.
  destruct (decide_sound "/root" "s1" confirm_input staged_run.2 decided_run.2 decided
              reliable decided_eq) as (Hh & Hn & _).
  split; [exact Hn|exact Hh].
Defined.

Lemma stage_sound_witness :
  stored (pending_confirmation_path "/root" "s1") staged_run.2 = Some staged /\
  confirmation_request_sha256 revoke_command = Ok (cf_request_sha256 staged).
Proof.
  destruct (stage_sound "/root" "s1" (to_stage "c1") empty staged_run.2 staged reliable staged_eq)
    as (_ & Hp & _ & _ & _ & Hsha & _).
  split; [exact Hp|exact Hsha].
Defined.

Lemma cleanup_safe_witness :
  is_Some (t_files preview_run.2 !! terminal_confirmation_path "/root" "s1" "c1") /\
  exists r, stored (terminal_confirmation_path "/root" "s1" "c1") preview_run.2 = Some r /\
    confirmation_receipt_is_indeterminate r = false /\
    retired "/root" "s1" (cf_confirmation_id r) cleaned_run.2.
Proof.
  assert (is_Some (t_files preview_run.2 !! terminal_confirmation_path "/root" "s1" "c1")) as Hin.
  { vm_compute. by eexists. }
  split; [exact Hin|].
  destruct (cleanup_safe "/root" "s1" apply_input preview_run.2 cleaned_run.2 (Ok cleaned)
              reliable cleaned_eq) as (_ & _ & Hf).
  destruct (Hf (terminal_confirmation_path "/root" "s1" "c1")) as (_ & _ & r & t & Hh & Hr & _ & Hret).
  - apply (receipt_outside _ _ (receipt_name "c1")), terminal_durable.
  - destruct Hin as [text Ht]. rewrite Ht. vm_compute. discriminate.
  - exists r. split_and!; [exact Hh|apply Hr|exact Hret].
Defined.

Lemma cleanup_retains_witness :
  cr_removed_confirmation_ids preview = [] /\
  usize_len (cr_candidates cleaned) <= 1.
Proof.
  destruct (cleanup_retains "/root" "s1" (to_clean false None) finalized_run.2 preview_run.2 preview)
    as (Hno & _ & _); [vm_cast_no_check (eq_refl preview_run)|].
  destruct (cleanup_retains "/root" "s1" apply_input preview_run.2 cleaned_run.2 cleaned cleaned_eq)
    as (_ & _ & Hmax).
  split; [by apply Hno|exact Hmax].
Defined.

Lemma encodes (r : TaskAuthorityConfirmationRecord) : is_Some (to_vec r).
Proof. by eexists. Qed.
(** A denied confirmation is resolved whatever the observed target. *)
Definition loaded_run := Eval vm_compute in
  load_task_authority_pending_confirmation "/root" "s1" staged_run.2.
Lemma decide_resolves_witness :
  exists w' (receipt : TaskAuthorityConfirmationRecord),
    t_files w' !! pending_confirmation_path "/root" "s1" = None /\
    stored (terminal_confirmation_path "/root" "s1" "c1") w' = Some receipt.
Proof.
  destruct (decide_resolves "/root" "s1" reliable (fun _ => eq_refl) encodes
              (to_decide "c1" "deny" None) staged_run.2 loaded_run.2 staged)
    as (x & w' & receipt & _ & Hn & Hh & _).
  - right; left. reflexivity.
  - reflexivity.
  - vm_cast_no_check (eq_refl loaded_run).
  - exists w', receipt. split; [exact Hn|exact Hh].
Defined.

(** Five active ids with segments of two. *)
Definition many : Manifest := {|
  mf_schema := confirmation_tombstone_manifest_schema; mf_segment_capacity := 2;
  mf_segment_count := 0; mf_confirmation_count := 0; mf_head_sha256 := None;
  mf_active_confirmation_ids := ["a"; "b"; "c"; "d"; "e"]%string; mf_active_sha256 := "";
  mf_updated_at := None |}.
Definition sealed_run := Eval vm_compute in seal_segments "/root" "s1" 5 many empty.
Definition sealed_manifest : Manifest := Eval vm_compute in the many sealed_run.1.
Lemma seal_segments_terminates_witness :
  mf_segment_count sealed_manifest = 2 /\
  usize_len (mf_active_confirmation_ids sealed_manifest) <= mf_segment_capacity sealed_manifest.
Proof.
  split; [reflexivity|].
  destruct (seal_segments_terminates "/root" "s1" many 3 empty) as [_ Hfit]; [done|].
  apply (Hfit sealed_manifest sealed_run.2). vm_cast_no_check (eq_refl sealed_run).
Defined.

(** One metadata call fails: the file of the retired ids counts as absent, and an id that was
    decided and cleaned up is staged and decided again. *)
Definition failing (tick : nat) : Host :=
  {| h_sys := fun _ => true; h_stat := fun t => negb (t =? tick)%nat;
     h_now := fun t => Z.of_nat t; h_uuid := @h_uuid toy_host;
     h_order := fun _ l => l; h_order_perm := fun _ _ => reflexivity _ |}.
Definition overlooked_run :=
  @stage_task_authority_confirmation (failing (S (t_tick cleaned_run.2))) _ _ _ _ _ _ _ _ _ _
    "/root" "s1" (to_stage "c1") cleaned_run.2.
Lemma decided_twice :
  is_ok decided_run.1 = true /\ is_ok overlooked_run.1 = true
  /\ is_ok (decide_task_authority_confirmation "/root" "s1" confirm_input overlooked_run.2).1 = true.
Proof. split_and!; vm_compute; reflexivity. Qed.

End TaskConfirmWitness.
