(* ===== verification/ControlRun.v ===== *)
(** * Running the control plane

    An executable scheduler for the transition system of the control plane: the
    repository works, and a script chooses the next program and what the
    environment answers. *)

From Stdlib Require Import Ascii.
From stdpp Require Import gmap.
From stdpp Require Import gmap pretty.
From S2P Require Import Prelude RustStr Env ServiceJobs ControlJobs ControlPlane ControlSystem.
From S2P Require Import Prelude RustStr Env Toy ServiceJobs ControlJobs ControlPlane ControlSystem ControlProofs ControlTheorems.
Import ServiceJobs ControlJobs ControlPlane ControlSystem.
Local Open Scope Z_scope.

Module ControlRun.

Section scheduler.
Context `{!Json, !JsonBuild, !JsonTree}.
Context (may_fail : bool) (capacity : nat) (timeout : option Z).

(** What the environment answers. *)
Record answers := {
  an_now : string;
  an_mono : Z;
  an_uuid : string;
  an_gate : res ServiceProfileLeaseGate;
  an_run : value;
  an_private : res unit;
  an_ask : question -> bool;
}.
Context (a : answers).

Definition send_now (m : WorkerMessage) (s : plane) : send_result * plane :=
  if cp_closed s then (Closed, s)
  else if (length (cp_queue s) <? capacity)%nat then (Sent, on_queue (fun q => q ++ [m]) s)
  else (Full, s).

Definition run_eff (e : eff) (s : plane) : option (resp e * plane * list (prog unit)) :=
  match e as e return option (resp e * plane * list (prog unit)) with
  | FetchAdd => Some (tt, on_depth (Z.add 1) s, [])
  | FetchSub => Some (tt, on_depth (Z.add (-1)) s, [])
  | LoadDepth => Some (cp_depth s, s, [])
  | LoadState => Some (cp_state s, s, [])
  | SetState state => Some (tt, on_status state (cp_health s) s, [])
  | LoadHealth => Some (cp_health s, s, [])
  | SetHealth health => Some (tt, on_status (cp_state s) health s, [])
  | Now => Some (an_now a, s, [])
  | Mono => Some (an_mono a, s, [])
  | Uuid => Some (an_uuid a, s, [])
  | LoadJob id => Some (load_service_job no_faults id (cp_store s), s, [])
  | MutateJobs mutator =>
      Some (tt, on_store (mutate_persisted_service_jobs no_faults mutator) s, [])
  | CancelPersisted now job_id reason =>
      let '(result, store) :=
        cancel_persisted_service_job no_faults now job_id reason (cp_store s) in
      Some (result, on_store (fun _ => store) s, [])
  | TrySend m => let '(r, s') := send_now m s in Some (r, s', [])
  | SendWait m =>
      match send_now m s with (Full, _) => None | (r, s') => Some (r, s', []) end
  | SpawnRetry request => Some (tt, s, [retry_timer request])
  | LeaseGate _ _ => Some (an_gate a, s, [])
  | RunningInsert job_id token => Some (tt, on_running (<[job_id := token]>) s, [])
  | RunningRemove job_id => Some (tt, on_running (delete job_id) s, [])
  | RunningGet job_id => Some (cp_running s !! job_id, s, [])
  | CancelToken token => Some (tt, on_history [token] [] [] [] s, [])
  | Execute request _ =>
      Some (if bool_decide (rq_ticket request ∈ cp_cancelled s)
            then Interrupted else Finished (an_run a),
            on_history [] [] [] [request] s, [])
  | RunPrivate _ => Some (an_private a, s, [])
  | Ask q => Some (an_ask a q, s, [])
  | Send ticket r => Some (tt, on_history [] [(ticket, r)] [] [] s, [])
  | DropSender ticket => Some (tt, on_history [] [] [ticket] [] s, [])
  | Panic _ => None
  | CloseQueue => Some (tt, close_queue s, [])
  end.

Lemma send_now_sound m s r s' : send_now m s = (r, s') -> send_message capacity m s r s'.
Proof.
  unfold send_now. destruct (cp_closed s) eqn:Hc; [by intros [= <- <-]|].
  destruct (Nat.ltb_spec (length (cp_queue s)) capacity); by intros [= <- <-].
Qed.
Lemma no_faults_possible : possible may_fail no_faults.
Proof. done. Qed.
Lemma run_eff_sound e s r s' new :
  run_eff e s = Some (r, s', new) -> exec may_fail capacity e s r s' new.
Proof.
  pose proof no_faults_possible. destruct e; cbn; try (intros Hrun; simplify_eq; by eauto 10).
  - destruct (cancel_persisted_service_job _ _ _ _ _) as [result store] eqn:Hc.
    intros Hrun. simplify_eq. split; [|done]. exists no_faults. by rewrite Hc.
  - destruct (send_now m s) as [r' s''] eqn:Hs. intros Hrun. simplify_eq.
    by apply send_now_sound in Hs.
  - destruct (send_now m s) as [[] s''] eqn:Hs; intros Hrun; simplify_eq;
      by apply send_now_sound in Hs.
  - intros Hrun. simplify_eq. split; [|done]. by case_bool_decide.
Qed.

(** ** Scripts *)

Inductive move :=
| MoveSubmit (command : value)
| MoveCancel (id job_id : string) (reason : option string)
| MoveShutdown
| MoveThread (i : nat)
| MoveWorker
| MoveReceive
| MoveHandled.

Definition set_plane (s : plane) (w : worker_phase) (threads : list (prog unit)) (tickets : nat)
    : system :=
  {| sy_plane := s; sy_worker := w; sy_threads := threads; sy_tickets := tickets |}.

Definition advance (m : move) (y : system) : option system :=
  let '{| sy_plane := s; sy_worker := w; sy_threads := threads; sy_tickets := n |} := y in
  match m with
  | MoveSubmit command =>
      Some (set_plane s w (threads ++
        [submit (submitted_request timeout (an_uuid a) (an_now a) (an_mono a) n command)]) (S n))
  | MoveCancel id job_id reason =>
      Some (set_plane s w (threads ++ [cancel_job_response n id job_id reason]) (S n))
  | MoveShutdown => Some (set_plane s w (threads ++ [shutdown n]) (S n))
  | MoveThread i =>
      match drop i threads with
      | Do e k :: after =>
          '(r, s', new) ← run_eff e s;
          Some (set_plane s' w (take i threads ++ k r :: after ++ new) n)
      | _ => None
      end
  | MoveWorker =>
      match w with
      | Working (Do e k) =>
          '(r, s', new) ← run_eff e s; Some (set_plane s' (Working (k r)) (threads ++ new) n)
      | _ => None
      end
  | MoveReceive =>
      match w, cp_queue s with
      | WorkerIdle, message :: queue =>
          Some (set_plane (on_queue (fun _ => queue) s) (Working (handle timeout message))
            threads n)
      | _, _ => None
      end
  | MoveHandled =>
      match w with
      | Working (Ret tt) =>
          Some (set_plane s (if cp_closed s then WorkerStopped else WorkerIdle) threads n)
      | _ => None
      end
  end.

Lemma advance_sound m y y' :
  advance m y = Some y' -> step may_fail capacity timeout y y'.
Proof.
  destruct y as [s w threads n]. unfold advance, set_plane. destruct m.
  - intros [= <-]. by constructor; constructor.
  - intros [= <-]. by constructor; constructor.
  - intros [= <-]. by constructor; constructor.
  - rewrite <-(take_drop i threads) at 2. destruct (drop i threads) as [|[|e k] after]; try done.
    destruct (run_eff e s) as [[[r s'] new]|] eqn:Hrun; cbn; [|done]. intros [= <-].
    apply step_thread. by apply run_eff_sound.
  - destruct w as [|[|e k]|]; try done.
    destruct (run_eff e s) as [[[r s'] new]|] eqn:Hrun; cbn; [|done]. intros [= <-].
    apply step_worker. by apply run_eff_sound.
  - destruct w; try done. destruct (cp_queue s) as [|m q] eqn:Hq; [done|]. intros [= <-].
    by eapply step_receive.
  - destruct w as [|[[]|]|]; try done. intros [= <-]. apply step_handled.
Qed.

Fixpoint play (moves : list move) (y : system) : option system :=
  match moves with
  | [] => Some y
  | m :: moves => y' ← advance m y; play moves y'
  end.
Lemma play_sound moves y y' :
  play moves y = Some y' -> rtc (step may_fail capacity timeout) y y'.
Proof.
  revert y. induction moves as [|m moves IH]; intros y; cbn; [intros [= <-]; apply rtc_refl|].
  destruct (advance m y) as [y1|] eqn:Hm; cbn; [|done]. intros Hplay.
  eapply rtc_l; [by eapply advance_sound|by apply IH].
Qed.
End scheduler.

End ControlRun.

(** ** Concrete runs of the control plane

    A request that is queued, run and answered; a cancellation that reaches the
    queue before the worker; and one that comes too late and is lost. *)

Import Toy ServiceJobs ServiceJobsProofs ControlJobs ControlPlane ControlSystem ControlProofs.
Import ControlInvariant ControlTheorems ControlCancel ControlRun.
Local Open Scope Z_scope.

Module ControlWitness.

#[local] Existing Instance toy_json.
#[local] Existing Instance toy_build.
#[local] Existing Instance toy_tree.

Definition environment : answers := {|
  an_now := "t";
  an_mono := 7;
  an_uuid := "u";
  an_gate := Ok GateReady;
  an_run := jobject [("success", jbool true)]%string;
  an_private := Ok tt;
  an_ask := fun _ => false;
|}.
Definition command : value := jobject [("id", jstring "a"); ("action", jstring "click")]%string.
Definition empty_store : JobStore := {| st_jobs := ∅; st_events := [] |}.

(** The state a script leads to. *)
Definition after (moves : list move) : system :=
  default (initial empty_store) (play 4 None environment moves (initial empty_store)).
Lemma after_reachable may_fail moves : reachable may_fail 4 None (after moves).
Proof.
  exists empty_store. unfold after.
  destruct (play _ _ _ _ _) as [y|] eqn:Hplay; [|apply rtc_refl]. cbn. by eapply play_sound.
Qed.

Definition submitting : list move :=
  [MoveSubmit command; MoveThread 0; MoveThread 0; MoveThread 0].
Definition checking : list move := [MoveReceive; MoveWorker; MoveWorker; MoveWorker].
Definition cancelling : list move :=
  [MoveCancel "c" "a" None; MoveThread 1; MoveThread 1; MoveThread 1].
Definition running : list move := replicate 8 MoveWorker.

Definition executed_jobs (y : system) : list string := map rq_job_id (cp_executed (sy_plane y)).
Definition state_of (y : system) : option JobState := sj_state <$> st_jobs (cp_store (sy_plane y)) !! "a".

Lemma runs_and_registers :
  let y := after (submitting ++ checking ++ running) in
  executed_jobs y = ["a"%string] /\ state_of y = Some Running /\
  cp_running (sy_plane y) !! "a"%string = Some 0%nat.
Proof. split_and!; vm_compute; reflexivity. Qed.

(** One request in the channel: the depth is one. *)
Lemma queue_depth_exact_witness :
  cp_depth (sy_plane (after submitting)) = 1 /\
  (length (cp_queue (sy_plane (after submitting))) <= 4)%nat.
Proof.
  destruct (queue_depth_exact false 4 None (after submitting)) as (_ & _ & Hidle & _ & Hcap).
  - apply after_reachable.
  - vm_compute. reflexivity.
  - split; [|exact Hcap]. rewrite Hidle; [vm_compute; reflexivity|].
    split; [vm_compute; exact I|]. intros p [->|Hp]%elem_of_cons; [reflexivity|].
    by apply not_elem_of_nil in Hp.
Defined.

Definition completing : list move :=
  submitting ++ checking ++ cancelling ++ [MoveThread 1] ++ replicate 16 MoveWorker ++ [MoveHandled].

Lemma replies_exactly_once_witness :
  NoDup (map fst (cp_replies (sy_plane (after completing)))) /\
  length (cp_replies (sy_plane (after completing))) = 2%nat.
Proof.
  destruct (replies_exactly_once false 4 None (after completing)) as (Hn & _).
  - apply after_reachable.
  - rewrite <-app_assoc in Hn. apply NoDup_app in Hn as (Hn & _). split; [exact Hn|].
    vm_compute. reflexivity.
Defined.

Lemma no_command_replayed_witness :
  NoDup (executed (sy_plane (after completing))) /\
  executed (sy_plane (after completing)) = [0%nat].
Proof.
  destruct (no_command_replayed false 4 None (after completing)) as (Hn & _).
  - apply after_reachable.
  - split; [exact Hn|]. vm_compute. reflexivity.
Defined.

Lemma registry_is_running_job_witness :
  let y := after (submitting ++ checking ++ running) in
  exists job_id token p, cp_running (sy_plane y) = {[job_id := token]} /\
    sy_worker y = Working p /\ p <> Ret tt /\ (token < sy_tickets y)%nat /\
    token ∉ queued (sy_plane y) ++ map fst (cp_replies (sy_plane y)) ++ cp_dropped (sy_plane y).
Proof.
  destruct (registry_is_running_job false 4 None (after (submitting ++ checking ++ running)))
    as [He|Hrun].
  - apply after_reachable.
  - vm_compute. reflexivity.
  - apply (f_equal (fun m : gmap string nat => m !! "a"%string)) in He.
    vm_compute in He. discriminate.
  - exact Hrun.
Defined.

(** ** One job too many *)

Definition job_of (i : nat) : ServiceJob :=
  queued_job (submitted_request None "u" (pretty i) 7 0
    (jobject [("id", jstring (pretty i)); ("action", jstring "click")]%string)).
Definition crowd : gmap string ServiceJob :=
  list_to_map (map (fun i => (sj_id (job_of i), job_of i)) (seq 0 201)).
Lemma crowd_keyed : keyed crowd.
Proof.
  intros k j Hj. apply elem_of_list_to_map_2, list_elem_of_fmap in Hj as (i & He & _).
  by simplify_eq.
Qed.
Lemma prune_keeps_newest_witness :
  size crowd = 201%nat /\ size (prune_service_jobs crowd) = 200%nat /\
  prune_service_jobs crowd ⊆ crowd.
Proof.
  destruct (prune_keeps_newest crowd crowd_keyed) as (Hs & Hsub & _).
  assert (size crowd = 201%nat) as Hsize by vm_cast_no_check (eq_refl 201%nat).
  split_and!; [exact Hsize| |exact Hsub]. rewrite Hs, Hsize. reflexivity.
Defined.

(** ** A cancellation in time *)

Definition starts (p : prog unit) : option eff := match p with Do e _ => Some e | Ret _ => None end.
Definition quietb (y : system) : bool :=
  (size (st_jobs (cp_store (sy_plane y))) <? MAX_SERVICE_JOBS)%nat &&
  forallb (fun p => match starts p with Some FetchAdd => false | _ => true end) (sy_threads y) &&
  match sy_worker y with
  | Working p => match starts p with Some (Ask DueMonitorWork) => false | _ => true end
  | _ => true
  end.
Lemma quietb_sound j y : quietb y = true -> undisturbed j y.
Proof.
  unfold quietb. rewrite !andb_true_iff, Nat.ltb_lt, forallb_forall. intros [[Hs Hall] Hw].
  split; [done|]. split.
  - intros request _ Hin%list_elem_of_In. specialize (Hall _ Hin). done.
  - intros request _ He. by rewrite He in Hw.
Qed.
Fixpoint play_quiet (moves : list move) (y : system) : option system :=
  match moves with
  | [] => Some y
  | m :: moves =>
      y' ← advance 4 None environment m y; if quietb y' then play_quiet moves y' else None
  end.
Lemma play_quiet_sound j moves y y' :
  play_quiet moves y = Some y' -> rtc (quiet_step j 4 None) y y'.
Proof.
  revert y. induction moves as [|m moves IH]; intros y; cbn; [intros [= <-]; apply rtc_refl|].
  destruct (advance _ _ _ _ _) as [y1|] eqn:Hm; cbn; [|done].
  destruct (quietb y1) eqn:Hq; [|done]. intros Hplay. eapply rtc_l; [|by apply IH].
  split; [by eapply advance_sound|by apply quietb_sound].
Qed.

(** The cancellation is answered, and the worker drops the request. *)
Definition in_time : list move := submitting ++ cancelling.
Definition dropping : list move :=
  [MoveThread 1; MoveReceive; MoveWorker; MoveWorker; MoveWorker; MoveWorker; MoveHandled].
Definition dropped : system := default (after in_time) (play_quiet dropping (after in_time)).

(** Programs with only their reply left to send. *)
Fixpoint replying (p : prog unit) : bool :=
  match p with
  | Ret _ => true
  | Do e k =>
      match e as e return (resp e -> prog unit) -> bool with
      | Send _ _ => fun k => replying (k tt)
      | _ => fun _ => false
      end k
  end.
Lemma replying_calm j p : replying p = true -> calm j p.
Proof.
  induction p as [|e k IH]; [done|]. destruct e; cbn in *; try done. intros Hr []. by apply IH.
Qed.

Lemma in_time_at_rest : at_rest "a" (after in_time).
Proof.
  split.
  - assert (state_of (after in_time) = Some Cancelled) as Hs by (vm_compute; reflexivity).
    unfold state_of in Hs. apply fmap_Some in Hs as (job & Hjob & Hc). by exists job.
  - assert (forallb replying (programs (after in_time)) = true) as Hall
      by (vm_compute; reflexivity).
    apply Forall_forall. intros p Hp%list_elem_of_In. apply replying_calm.
    by eapply forallb_forall in Hall.
Qed.

Lemma cancelled_never_runs_witness :
  exists requests, cp_executed (sy_plane dropped)
      = cp_executed (sy_plane (after in_time)) ++ requests /\
    forall request, request ∈ requests -> rq_job_id request <> "a"%string.
Proof.
  apply (cancelled_never_runs "a" 4 None (after in_time) dropped).
  - apply after_reachable.
  - apply quietb_sound. vm_compute. reflexivity.
  - apply in_time_at_rest.
  - unfold dropped. destruct (play_quiet dropping (after in_time)) as [y|] eqn:Hplay;
      [by eapply play_quiet_sound|apply rtc_refl].
Defined.
Lemma dropped_answered :
  map fst (cp_replies (sy_plane dropped)) = [1; 0]%nat /\ executed_jobs dropped = [] /\
  state_of dropped = Some Cancelled.
Proof. split_and!; vm_compute; reflexivity. Qed.

(** ** A cancellation that is lost

    The worker has looked at the record and not yet marked the job as running
    when the cancellation arrives: the caller is told that the job is cancelled,
    and the job runs and is recorded as succeeded. *)
Lemma cancellation_lost :
  let y := after completing in
  reachable false 4 None y /\
  (exists job, (1%nat, cancelled_reply "c" job) ∈ cp_replies (sy_plane y) /\
     sj_id job = "a"%string /\ sj_state job = Cancelled) /\
  executed_jobs y = ["a"%string] /\ state_of y = Some Succeeded.
Proof.
  split; [apply after_reachable|]. split; [|split; vm_compute; reflexivity].
  exists (set_cancelled "t" None (queued_job
    (submitted_request None "u" "t" 7 0 command))). split; [|split; reflexivity].
  set (answer := cancelled_reply "c" _).
  assert (cp_replies (sy_plane (after completing)) !! 0%nat = Some (1%nat, answer)) as Hr
    by vm_cast_no_check (eq_refl (Some (1%nat, answer))).
  by apply list_elem_of_lookup_2 in Hr.
Qed.

End ControlWitness.
