(* ===== verification/ResourceWitness.v ===== *)
(** * A collection of processes

    A machine with a retained browser, an old process on a temporary profile and
    a fresh one: a dry run, a review, and the collection. *)

From Stdlib Require Import Ascii.
From stdpp Require Import sorting pretty.
From S2P Require Import Prelude RustStr Env Toy RemoteRoute ServiceResources ServiceResourcesProofs.
From S2P Require Import Prelude RustStr Env Toy RemoteLease RemoteRoute RemoteAttach.
Import Toy ServiceResources ServiceResourcesProofs.
Local Open Scope Z_scope.

Module ResourceWitness.

#[local] Existing Instance toy_crypto.

Definition identity_text (i : GcCandidateIdentity) : string :=
  str_join ";" [pretty (gi_pid i); gi_command_digest i; default ""%string (gi_profile_path i)].
Definition identity_parse (s : string) : option GcCandidateIdentity :=
  match split_on ";" s with
  | [pid; digest; path] =>
      pid ← parse_unsigned u32_max pid;
      Some {| gi_pid := pid; gi_process_group_id := None; gi_kind := "browser";
              gi_action := "terminate_process"; gi_command_digest := digest;
              gi_browser_id := None; gi_profile_id := None; gi_display_allocation_id := None;
              gi_profile_path := Some path |}
  | _ => None
  end.
#[local] Instance identity_serde : Serde GcCandidateIdentity :=
  checked_serde identity_text identity_parse.

Definition process (pid age : Z) (profile : string) : ProcessSample :=
  {| ps_pid := pid; ps_ppid := None; ps_process_group_id := None;
     ps_executable := Some "chrome"%string;
     ps_command := ["chrome"%string; "--user-data-dir=" +:+ profile];
     ps_rss_bytes := Some 10; ps_cpu_seconds := None; ps_age_seconds := Some age |}.
Definition retained : Browser :=
  {| bw_profile_id := None; bw_health := RemoteRoute.Ready; bw_display_name := None;
     bw_display_allocation_id := None; bw_pid := Some 10; bw_cdp_endpoint := None;
     bw_active_session_ids := [] |}.
Definition state : ServiceState :=
  {| browsers := {["b" := retained]}; profiles := ∅; display_allocations := ∅ |}.
Definition processes : list ProcessSample :=
  [process 30 60 "/tmp/fresh"; process 20 3600 "/tmp/old"; process 10 7200 "/tmp/kept"].
Definition records : list ResourceRecord := service_resource_authority state None processes.
Definition dry_run : list ResourceRecord * string := service_gc_dry_run state None processes 100.
Definition moment : Moment :=
  {| mo_dashboard_main_pid := None;
     mo_sample := fun pid => if pid =? 20 then Some (process 20 3601 "/tmp/old") else None;
     mo_signals := {| sg_running := true; sg_sigterm := true; sg_running_after_term := false;
                      sg_sigkill := true; sg_running_after_kill := false |} |}.
Definition collect (token : option string) (now : Z) : GcResponse :=
  service_gc_apply state None processes token false now (fun _ => moment).

Example classified :
  map (fun r => (rr_pid r, rr_disposition r)) records
    = [(10, Protected); (20, Candidate); (30, Observed)].
Proof. vm_compute. reflexivity. Qed.
Example collected :
  collect (Some dry_run.2) 200 = Applied true "review_token" [Terminated 20 (TerminatedBy "SIGTERM")].
Proof. vm_compute. reflexivity. Qed.
Example refused :
  collect None 200 = Refused 1 "review_token_required" /\
  collect (Some dry_run.2) 701 = Refused 1 "review_token_expired".
Proof. split; vm_compute; reflexivity. Qed.

Definition old_record : option ResourceRecord :=
  classify_process state None (process 20 3600 "/tmp/old").
Lemma candidate_iff_witness :
  exists record, old_record = Some record /\ rr_disposition record = Candidate /\
    ~ vouched state None 20 (rr_correlation record).
Proof.
  destruct old_record as [record|] eqn:Hr; [|vm_compute in Hr; discriminate].
  exists record. destruct (candidate_iff state None (process 20 3600 "/tmp/old") record Hr) as (Hc & _).
  assert (rr_disposition record = Candidate) as Hd.
  { assert ((rr_disposition <$> old_record) = Some Candidate) as Ho by (vm_compute; reflexivity).
    rewrite Hr in Ho. cbn in Ho. congruence. }
  split; [reflexivity|]. split; [exact Hd|]. apply Hc. exact Hd.
Defined.

Lemma review_token_spec_witness :
  validate_review_token (candidates_from records) dry_run.2 700 = Ok tt.
Proof.
  destruct (review_token_spec (candidates_from records) (candidates_from records) 100 700) as [Hv _].
  - vm_compute. split; discriminate.
  - vm_compute. split; discriminate.
  - unfold dry_run, service_gc_dry_run. cbn [snd]. fold records. rewrite Hv.
    vm_compute. reflexivity.
Defined.

Lemma gc_signals_only_candidates_witness :
  exists sample, mo_sample moment 20 = Some sample /\
    exists current, classify_process state None sample = Some current /\
      stale sample (rr_correlation current).
Proof.
  destruct (gc_signals_only_candidates state None processes (Some dry_run.2) false 200
    (fun _ => moment) true "review_token" [Terminated 20 (TerminatedBy "SIGTERM")] collected)
    as [_ Hall].
  destruct (Hall 0%nat (Terminated 20 (TerminatedBy "SIGTERM")) 20 eq_refl eq_refl)
    as (candidate & sample & current & _ & _ & Hs & Hc & _ & _ & Hstale).
  exists sample. split; [exact Hs|]. exists current. split; [exact Hc|exact Hstale].
Defined.

Lemma summary_partition_witness :
  let s := summarize_resources records in
  (sm_candidate_count s + sm_protected_count s + sm_observed_count s)%nat = 3%nat /\
  sm_candidate_rss_bytes s = 10.
Proof.
  destruct (summary_partition records) as (Hsum & _ & _).
  - intros r rss Hr Hrss.
    assert (forallb (fun r => match rr_rss_bytes r with Some rss => 0 <=? rss | None => true end)
      records = true) as Hall by (vm_compute; reflexivity).
    apply list_elem_of_In in Hr. rewrite forallb_forall in Hall. specialize (Hall r Hr).
    rewrite Hrss in Hall. apply Z.leb_le. exact Hall.
  - cbv zeta in *. rewrite Hsum. split; vm_compute; reflexivity.
Defined.

End ResourceWitness.

(** ** Remote views in a concrete environment *)

Import Toy RemoteLease.RemoteLease RemoteRoute.RemoteRoute RemoteAttach.RemoteAttach.

Module RemoteWitness.

#[local] Existing Instance toy_json.
#[local] Existing Instance toy_build.

(** Nothing deserializes: checkouts carry no embedded route or pool entry. *)
Definition opaque (T : Type) : @SerdeValue toy_json T.
Proof.
  refine {| to_value := fun _ => Err "unserializable"%string;
            from_value := fun _ => Err "unserializable"%string |}.
  done.
Defined.
#[local] Instance opaque_route : SerdeValue RemoteViewRoute := opaque _.
#[local] Instance opaque_entry : SerdeValue RoutePoolEntry := opaque _.

Definition lease0 : RemoteViewAcquisitionLease := {|
  al_id := "lease"; al_browser_id := "session:default"; al_session_id := "default";
  al_route_id := "guacamole:3"; al_display_allocation_id := "display:13";
  al_route_pool_entry_id := Some "guacamole-rdp-a"%string; al_state := "pending";
  al_phase := "reserved"; al_created_at := None; al_updated_at := None; al_completed_at := None;
  al_failed_at := None; al_failure_reason := None; al_cleanup := None;
  al_previous_route_pool_entry := None; al_previous_display_allocation := None;
  al_previous_remote_view_route := None; al_previous_browser_display_allocation_id := None |}.
Definition entry0 : RoutePoolEntry := {|
  pe_id := "guacamole-rdp-a"; pe_provider := RdpGateway; pe_route_id := "guacamole:3";
  pe_connection_id := None; pe_connection_name := None; pe_frame_url := None;
  pe_external_url := None; pe_route_descriptor := None; pe_target := TObj [];
  pe_provider_mode := "unknown"; pe_state := "pending";
  pe_current_route_allocation_id := Some "guacamole:3"%string; pe_readiness := None |}.
Definition stream0 : ViewStream := {|
  vs_id := "stream"; vs_provider := RdpGateway; vs_control_input := None; vs_url := None;
  vs_frame_url := None; vs_external_url := None; vs_route_descriptor := None;
  vs_route_id := Some "guacamole:3"%string; vs_display_allocation_id := None;
  vs_connection_id := None; vs_connection_name := None; vs_route_source := None;
  vs_provider_mode := None; vs_viewer_lease_ids := []; vs_controller_lease_id := None;
  vs_read_only := false; vs_readiness := None; vs_remote_readiness := None;
  vs_attachability := None |}.
Definition browser0 : @BrowserProcess toy_json unit := {|
  bp_id := "session:default"; bp_profile_id := None; bp_host := RemoteHeaded; bp_health := Ready;
  bp_display_name := None; bp_display_allocation_id := None; bp_view_streams := [stream0];
  bp_attachability := None; bp_active_session_ids := ["work"]%string; bp_other := tt |}.
Definition st0 : @ServiceState toy_json unit unit := {|
  display_allocations := ∅; remote_view_routes := ∅;
  route_pool := {[ "guacamole-rdp-a"%string := entry0 ]};
  remote_view_acquisition_leases := {[ "lease"%string := lease0 ]}; viewer_leases := ∅;
  browsers := {[ "session:default"%string := browser0 ]}; st_other := tt |}.
Definition checkout : @value toy_json :=
  TObj [("routeBinding", TObj [("displayName", TStr ":13")])]%string.

Definition finalized := Eval vm_compute in
  finalize_route_bound_acquisition "lease" checkout "2026-06-25T00:00:00Z" st0.
Definition lease1 : RemoteViewAcquisitionLease := Eval vm_compute in
  match finalized.1 with Ok l => l | Err _ => lease0 end.
Definition st1 : @ServiceState toy_json unit unit := Eval vm_compute in finalized.2.

Lemma finalized_run :
  finalize_route_bound_acquisition "lease" checkout "2026-06-25T00:00:00Z" st0 = (Ok lease1, st1).
Proof. vm_cast_no_check (eq_refl (@Ok string _ lease1, st1)). Qed.
Lemma finalize_consistent_witness :
  (al_state lease1, al_phase lease1) = ("completed", "checked_out")%string /\
  (exists r, remote_view_routes st1 = <[al_route_id lease1 := r]> (remote_view_routes st0) /\
     rt_session_id r = Some (al_session_id lease1)).
Proof.
  pose proof (finalize_consistent "lease" checkout "2026-06-25T00:00:00Z" st0 lease1 st1
    finalized_run) as Hall. cbv zeta in Hall.
  destruct Hall as (Hp & _ & (r & Hr & _ & _ & _ & _ & Hs) & _).
  split; [exact Hp|]. by exists r.
Defined.

(** Before the finalization the stream is stale, after it attached. *)
Example attached_after_finalization :
  let report st := match browsers (refresh_remote_view_attachability st) !! "session:default"%string with
                   | Some b => (a ← bp_attachability b; str_field a "state")
                   | None => None
                   end in
  (report st0, report st1)
    = (Some "reattachable_stale_route", Some "attached_ready")%string.
Proof. vm_compute. reflexivity. Qed.

Lemma refresh_spec_witness :
  exists b', browsers (refresh_remote_view_attachability st0) !! "session:default"%string = Some b' /\
    Forall2 (refreshed browser0 st0) [stream0] (bp_view_streams b').
Proof.
  destruct (refresh_spec st0 "session:default" browser0) as (b' & H1 & H2 & _).
  - vm_cast_no_check (eq_refl (Some browser0)).
  - by exists b'.
Defined.

End RemoteWitness.
