(* ===== verification/ReconcileWitness.v ===== *)
(** * Health, recovery and reconciliation, on concrete states

    A service with a browser on a display, its route and a viewer: the theorems of
    [HealthTheorems] and [ReconcileTheorems] applied there, and the places where the code
    does less than it sets out to do. *)

From Stdlib Require Import Ascii.
From stdpp Require Import gmap sorting pretty.
From S2P Require Import Prelude RustStr Env Toy ToyCodec RemoteRoute RemoteAttach ServiceJobs ControlJobs ServiceTabs ProcessProof ProfileSelection ProfileLeases ServiceHealth ServiceReconcile ReconcileTheorems HealthTheorems PrivateToy RetainedWitness ServiceLaunch.
Import Toy ToyCodec ServiceJobs ServiceTabs ProfileSelection RemoteRoute.RemoteRoute ServiceHealth ServiceReconcile ReconcileTheorems HealthTheorems.

Module ReconcileWitness.

#[local] Existing Instance toy_json.
#[local] Existing Instance toy_build.
#[local] Existing Instance toy_tree.
#[local] Existing Instance toy_url.
#[local] Existing Instance PrivateToy.toy_handles.
#[local] Instance health_chrono : Chrono :=
  {| parse_from_rfc3339 := time_parse; to_rfc3339 := time_text; parse_to_rfc3339 := time_law;
     representable := fun _ => true |}.

Definition toy_entries (v : ToyValue) : option (list (string * ToyValue)) :=
  match v with TObj fields => Some fields | _ => None end.
Lemma toy_entries_law v l k u : toy_entries v = Some l -> toy_get v k = Some u -> (k, u) ∈ l.
Proof.
  destruct v; try done. cbn. intros [= ->].
  destruct (List.find _ l) as [[k' u']|] eqn:Hf; [|done]. intros [= <-].
  apply find_some in Hf as [Hin Hk]. cbn in Hk. apply bool_decide_eq_true in Hk. subst k'.
  by apply list_elem_of_In.
Qed.
#[local] Instance toy_as_object : JsonEntries :=
  {| as_object := toy_entries : @value toy_json -> option (list (string * @value toy_json));
     jget_as_object := toy_entries_law |}.

(** Process 1 has exited, the others run; every endpoint and every display answers but
    [":9"]. *)
#[local] Instance health_env : HealthEnv :=
  {| timestamp_at := fun t => time_text (Z.of_nat t); uuid_at := fun t => pretty (N.of_nat t);
     running_at := fun _ pid => negb (pid =? 1)%Z; reachable_at := fun _ _ => true;
     targets_at := fun _ _ => Ok []; display_socket_at := fun _ d => d != ":9"%string |}.

(** ** A state *)

Definition extra (pid : option Z) (cdp_endpoint : option string) : BrowserExtra :=
  {| bx_browser_build := None; bx_executable_path := None; bx_browser_build_proof := None;
     bx_display_isolation := None; bx_pid := pid; bx_cdp_endpoint := cdp_endpoint;
     bx_tab_handles := []; bx_last_error := None; bx_last_health_observation := None |}.
Definition browser (session : string) (pid : Z) (health : BrowserHealth) : BrowserProcess :=
  {| bp_id := service_browser_id_for_session session; bp_profile_id := Some "p"%string;
     bp_host := LocalHeaded; bp_health := health; bp_display_name := None;
     bp_display_allocation_id := Some "d"%string; bp_view_streams := [];
     bp_attachability := None; bp_active_session_ids := [session];
     bp_other := extra (Some pid) None |}.
Definition session (id profile : string) (lease : LeaseState) : BrowserSession :=
  set_session lease None [] [service_browser_id_for_session id] []
    {| se_id := id; se_service_name := None; se_agent_name := None; se_task_name := None;
       se_owner := ActorSystem; se_lease := lease; se_profile_id := Some profile;
       se_profile_selection_reason := None; se_profile_lease_disposition := None;
       se_profile_lease_conflict_session_ids := []; se_browser_capability_launch := None;
       se_cleanup := Detach; se_browser_ids := []; se_tab_ids := []; se_created_at := None;
       se_last_lease_observed_at := None; se_expires_at := None |}.

Definition display (id session : string) (routes : list string) : DisplayAllocation :=
  {| da_id := id; da_display_name := Some ":1"%string; da_display_isolation := "private";
     da_owner_browser_id := Some (service_browser_id_for_session session);
     da_owner_session_id := Some session; da_profile_id := None; da_browser_build := None;
     da_host := None; da_state := "ready"; da_pid_hints := None; da_route_ids := routes;
     da_created_at := None; da_updated_at := None; da_last_health_check_at := None;
     da_readiness := None |}.
Definition route (id display session : string) (viewers : list string) : RemoteViewRoute :=
  {| rt_id := id; rt_provider := RdpGateway; rt_display_allocation_id := Some display;
     rt_browser_id := Some (service_browser_id_for_session session);
     rt_session_id := Some session; rt_route_source := "pool"; rt_connection_id := None;
     rt_connection_name := None; rt_route_template := None; rt_frame_url := None;
     rt_external_url := None; rt_route_descriptor := None; rt_read_only := false;
     rt_control_input := None; rt_provider_mode := "rdp"; rt_state := "ready";
     rt_viewer_lease_ids := viewers; rt_controller_lease_id := None;
     rt_last_provider_event := None; rt_readiness := None |}.
Definition pool_entry (id route display : string) : RoutePoolEntry :=
  {| pe_id := id; pe_provider := RdpGateway; pe_route_id := id; pe_connection_id := None;
     pe_connection_name := None; pe_frame_url := None; pe_external_url := None;
     pe_route_descriptor := None; pe_target := jobject [("displayName", jstring display)]%string;
     pe_provider_mode := "rdp"; pe_state := "checked_out";
     pe_current_route_allocation_id := Some route; pe_readiness := None |}.
Definition viewer (id route : string) (expires_at : option string) : ViewerLease :=
  {| vl_id := id; vl_route_id := Some route; vl_browser_id := None; vl_viewer_id := None;
     vl_viewer_name := None; vl_viewer_role := "viewer"; vl_open_mode := "frame";
     vl_state := "connected"; vl_last_viewer_event := None; vl_expires_at := expires_at;
     vl_created_at := None; vl_updated_at := None; vl_last_heartbeat_at := None;
     vl_service_event_id := None |}.

Definition with_entries {A} (l : list (string * A)) : gmap string A := list_to_map l.
Definition state_of (live : list BrowserProcess) (holders : list BrowserSession)
    (log : list ServiceEvent) : ServiceState :=
  {| display_allocations := ∅; remote_view_routes := ∅; route_pool := ∅;
     remote_view_acquisition_leases := ∅; viewer_leases := ∅;
     browsers := with_entries (map (fun b => (bp_id b, b)) live);
     st_other :=
       {| sx_control_plane := None; sx_reconciliation := None; sx_events := log;
          sx_profiles := ∅; sx_sessions := with_entries (map (fun x => (se_id x, x)) holders);
          sx_tabs := ∅; sx_jobs := ∅; sx_site_policies := ∅;
          sx_default_browser_build := None; sx_profile_sources := ∅;
          sx_policy_sources := ∅ |} |}.
Definition world (s : ServiceState) : HealthWorld := {| w_state := s; w_tick := 1 |}.

(** ** Recovery *)

Definition exited : ServiceState := state_of [browser "work" 1 ProcessExited] [] [].
Definition five_calls : list RecoveryCall :=
  [Stale None (Some 1%Z) None ProcessExited ReasonProcessExited "exited" None;
   Started None "first use"; Started (Some "disk full"%string) "again"; Started None "again";
   Stale None (Some 1%Z) None ProcessExited ReasonProcessExited "exited" None]%string.

Lemma five_calls_unready : Forall (unready "work") five_calls.
Proof. repeat constructor; done. Qed.
Lemma outcomes :
  map is_recorded
    (recovery_calls "work" default_recovery_policy_config five_calls (world exited)).1
  = [true; true; false; true; false].
Proof. vm_compute. reflexivity. Qed.

Lemma recovery_budget_witness :
  recorded (recovery_calls "work" default_recovery_policy_config five_calls (world exited)).1 = 3
  /\ (Z.of_nat (prior_attempts
        (w_state (recovery_calls "work" default_recovery_policy_config five_calls
                    (world exited)).2) "session:work") <= 3)%Z.
Proof.
  assert (recorded (recovery_calls "work" default_recovery_policy_config five_calls
    (world exited)).1 = 3) as H3 by (vm_compute; reflexivity).
  split; [exact H3|].
  apply (recovery_budget "work" default_recovery_policy_config five_calls (world exited) _ _
    five_calls_unready (surjective_pairing _)).
  - apply Nat.ltb_lt. vm_compute. reflexivity.
  - rewrite H3. lia.
Defined.

Lemma backoff_spec_witness :
  recovery_backoff_delay_ms 3 default_recovery_policy_config = 4000%Z
  /\ recovery_backoff_delay_ms 60 default_recovery_policy_config = 30000%Z.
Proof.
  split.
  - destruct (backoff_spec default_recovery_policy_config 3) as [Heq _]; [done..|].
    rewrite Heq. reflexivity.
  - vm_compute. reflexivity.
Defined.

Definition retry_request : RetryRequest :=
  {| rr_timestamp := time_text 9; rr_actor := "operator"; rr_note := None;
     rr_service_name := None; rr_agent_name := None; rr_task_name := None |}.
Definition faulted : ServiceState := state_of [browser "work" 1 Faulted] [] [].

Lemma faulted_work :
  browsers (w_state (world faulted)) !! "session:work"%string = Some (browser "work" 1 Faulted).
Proof. vm_cast_no_check (eq_refl (Some (browser "work" 1 Faulted))). Qed.

Lemma retry_reopens_recovery_witness :
  prior_attempts (w_state (retry_persisted_service_browser_in_repository None "session:work"
    retry_request (world faulted)).2) "session:work" = 0.
Proof.
  destruct (retry_persisted_service_browser_in_repository None "session:work" retry_request
    (world faulted)) as [r w'] eqn:Hr.
  destruct (retry_reopens_recovery None "session:work" retry_request (world faulted) r w')
    as (Hok & _ & Hb); [|exact Hr|].
  - rewrite faulted_work. by intros b [= <-].
  - destruct (proj2 Hok) as [b Hbr].
    { split; [done|]. exists (browser "work" 1 Faulted). by rewrite faulted_work. }
    by apply (Hb b Hbr).
Defined.

(** ** Close *)

(** The display of the browser is shown by its own route and lists one of another. *)
Definition shared : ServiceState :=
  with_displays (with_entries [("d", display "d" "work" ["r"; "other"]);
                               ("e", display "e" "other" ["other"])]%string)
    (with_routes (with_entries [("r", route "r" "d" "work" []);
                                ("other", route "other" "e" "other" [])]%string)
       (with_pool (with_entries [("p", pool_entry "p" "r" ":1");
                                 ("q", pool_entry "q" "other" ":2")]%string)
          (state_of [browser "work" 7 Ready; browser "other" 8 Ready]
             [session "work" "p" Exclusive; session "other" "q" Exclusive] []))).
Definition closed : res unit * HealthWorld :=
  persist_closed_browser_health_if_unchanged None "work" None (Some shared) (world shared).

Definition closed_state : ServiceState := w_state closed.2.

Lemma close_gives_up_custody_witness :
  browsers closed_state !! "session:work"%string = None
  /\ sessions closed_state !! "work"%string = None
  /\ (exists now, display_allocations closed_state !! "d"%string
        = Some (closed_allocation "released" "operator_requested_close" now
                  (display "d" "work" ["r"; "other"]%string))).
Proof.
  assert (custody_changed shared shared "work" = false) as Hc
    by vm_cast_no_check (eq_refl false).
  destruct (close_gives_up_custody None "work" None (Some shared) (world shared) closed.1 closed.2
    (surjective_pairing _)) as (Hok & _ & Hg).
  assert (closed.1 = Ok tt) as Hr by (apply Hok; split; [done|]; by intros e [= <-]).
  destruct (Hg Hr) as [Hb _ _ Hd]. cbn in Hb. destruct Hb as (Hb & _ & _).
  split; [exact Hb|]. split; [vm_cast_no_check (eq_refl (@None BrowserSession))|].
  destruct Hd as (b & now & Hid & [Hd _ _]). exists now.
  specialize (Hd "d"%string). unfold closed_state. rewrite Hd.
  assert (display_allocations (w_state (world shared)) !! "d"%string
    = Some (display "d" "work" ["r"; "other"]%string)) as ->
    by vm_cast_no_check (eq_refl (Some (display "d" "work" ["r"; "other"]%string))).
  cbn. unfold close_allocation, ours. rewrite Hid. by rewrite !bool_decide_true.
Defined.

(** The pool entry of another browser's route, live, is free for anyone to take. *)
Lemma live_entry_freed :
  (rt_state <$> remote_view_routes closed_state !! "other"%string) = Some "ready"%string
  /\ (pe_state <$> route_pool closed_state !! "q"%string) = Some "available"%string
  /\ (pe_current_route_allocation_id <$> route_pool closed_state !! "q"%string) = Some None.
Proof.
  split_and!;
    [vm_cast_no_check (eq_refl (Some "ready"%string))
    |vm_cast_no_check (eq_refl (Some "available"%string))
    |vm_cast_no_check (eq_refl (Some (@None string)))].
Qed.

(** ** Reconciliation *)

Definition held : ServiceState :=
  state_of [browser "work" 7 Ready; browser "gone" 1 Ready]
    [session "work" "p" Exclusive; session "gone" "q" Exclusive] [].
Definition reconciled : HealthWorld := (reconcile_service_state (world held)).2.
Definition reconcile_with (others : ServiceState -> ServiceState) : HealthWorld :=
  (reconcile_service_state_in_repository None None others (world held)).2.

Definition holdsb (s : ServiceState) (id profile_id : string) : bool :=
  match sessions s !! id with
  | Some x => bool_decide (se_lease x = Exclusive) && bool_decide (se_profile_id x = Some profile_id)
  | None => false
  end.
Lemma holdsb_holds s id profile_id : holdsb s id profile_id = true -> holds s id profile_id.
Proof.
  unfold holdsb. destruct (sessions s !! id) as [x|] eqn:Hx; [|done].
  intros [Hl Hp]%andb_true_iff. exists x. by rewrite bool_decide_eq_true in Hl, Hp.
Qed.

Lemma reconcile_adds_no_holder_witness :
  holds held "work" "p" \/ sessions held !! "work"%string = None /\ holds held "work" "p".
Proof.
  apply (reconcile_adds_no_holder None (fun s => s) (world held) "work" "p").
  apply holdsb_holds. vm_cast_no_check (eq_refl true).
Defined.

(** The browser was started again while the reconciliation ran. *)
Definition restarted : ServiceState :=
  set_browser "session:work" (browser "work" 9 Launching) held.

Lemma merge_keeps_newer_witness :
  exists b, browsers (merge_reconciled_service_state held (w_state reconciled) restarted)
              !! "session:work"%string = Some b
    /\ pid b = Some 9%Z /\ bp_health b = Launching.
Proof.
  destruct (merge_keeps_newer held (w_state reconciled) restarted) as ((gone & _ & Hb & _) & _).
  assert (browsers restarted !! "session:work"%string = Some (browser "work" 9 Launching)) as Hr
    by vm_cast_no_check (eq_refl (Some (browser "work" 9 Launching))).
  assert (bool_decide ("session:work"%string ∈ replaced_browser_ids held restarted) = true) as Hin
    by vm_cast_no_check (eq_refl true).
  apply bool_decide_eq_true in Hin.
  destruct (Hb _ _ Hr Hin) as (b & Hb' & Hu). exists b. split; [exact Hb'|].
  split; [exact (f_equal (fun x => pid x) Hu)|exact (f_equal bp_health Hu)].
Defined.

(** ** The remote views *)

(** A route of a browser that runs, with a viewer whose time is over; one of a browser
    that exited, with a viewer; one whose display does not answer. *)
Definition watched : ServiceState :=
  with_displays (with_entries [("d", display "d" "work" []); ("e", display "e" "gone" []);
                               ("f", display "f" "work" [])]%string)
    (with_routes (with_entries [("r", route "r" "d" "work" ["old"; "now"]);
                                ("s", route "s" "e" "gone" ["far"]);
                                ("t", route "t" "f" "work" [])]%string)
       (with_pool (with_entries [("p", pool_entry "p" "r" ":1"); ("q", pool_entry "q" "s" ":2");
                                 ("o", pool_entry "o" "t" ":9")]%string)
          (with_viewers (with_entries [("old", viewer "old" "r" (Some (time_text 3)));
                                       ("now", viewer "now" "r" None);
                                       ("far", viewer "far" "s" None)]%string)
             (state_of [browser "work" 7 Ready; browser "gone" 1 ProcessExited] [] [])))).
Definition repaired : option (RemoteViewReconcileRepair * ServiceState) :=
  reconcile_remote_view_state_with_display_probe (fun d => d != ":9"%string) (time_text 5) watched.

(** Repaired and counted: entries taken away, restored and released, displays and routes
    orphaned, viewers disconnected and expired, controllers cleared. *)
Lemma repair_counts :
  (fun p : RemoteViewReconcileRepair * ServiceState => let r := p.1 in
     ([unavailable_route_pool_entries r; restored_route_pool_entries r;
       released_route_pool_entries r; orphaned_display_allocations r; orphaned_routes r;
       released_viewer_leases r; expired_viewer_leases r; cleared_controller_leases r],
      omap (fun k => rt_viewer_lease_ids <$> remote_view_routes p.2 !! k) ["r"; "s"]%string))
    <$> repaired
  = Some ([1; 0; 1; 1; 2; 1; 1; 0], [["now"]; []]%string).
Proof. vm_cast_no_check (eq_refl (Some ([1; 0; 1; 1; 2; 1; 1; 0], [["now"]; []]%string))). Qed.

Lemma remote_view_repaired_witness :
  exists repair s', repaired = Some (repair, s') /\
    forall id a owner, display_allocations s' !! id = Some a ->
      da_owner_browser_id a = Some owner ->
      da_state a ∉ ["released"; "failed"; "orphaned"]%string ->
      exists b, browsers s' !! owner = Some b /\ bp_health b = Ready.
Proof.
  assert (is_some repaired = true) as Hsome by vm_cast_no_check (eq_refl true).
  destruct repaired as [[repair s']|] eqn:Hr; [|discriminate Hsome].
  exists repair, s'. split; [reflexivity|].
  exact (proj1 (remote_view_repaired _ _ _ repair s' Hr)).
Defined.

(** ** Where the merge and the budget fall short *)

(** Both browsers were closed, and their sessions with them, while the state was being
    reconciled: the session comes back, with its exclusive lease, and its browser. *)
Definition all_closed : ServiceState := state_of [] [] [].
Lemma closed_lease_revived :
  sessions all_closed !! "work"%string = None /\
  let result := merge_reconciled_service_state held (w_state reconciled) all_closed in
  holds result "work" "p"
  /\ (bp_health <$> browsers result !! "session:work"%string) = Some Ready.
Proof.
  split; [reflexivity|]. split; [apply holdsb_holds; vm_cast_no_check (eq_refl true)|].
  vm_cast_no_check (eq_refl (Some Ready)).
Qed.

Definition snapshot (state : string) : ControlPlaneSnapshot :=
  {| cs_worker_state := state; cs_browser_health := "ready"; cs_queue_depth := 0;
     cs_queue_capacity := 8; cs_waiting_profile_lease_job_count := 0;
     cs_service_job_timeout_ms := None; cs_service_monitor_interval_ms := None;
     cs_updated_at := None |}.
(** The worker recorded a newer snapshot of itself meanwhile: the old one is put back. *)
Lemma control_plane_rolled_back :
  let before := set_snapshots (Some (snapshot "idle")) None all_closed in
  let target := set_snapshots (Some (snapshot "busy")) None all_closed in
  (cs_worker_state <$> sx_control_plane (st_other
     (merge_reconciled_service_state before
        (w_state (reconcile_service_state (world before)).2) target))) = Some "idle"%string.
Proof. vm_cast_no_check (eq_refl (Some "idle"%string)). Qed.

(** Two records of one live browser: the one kept drives the sessions of both only in the
    copy that is reconciled. *)
Definition live (session : string) (pid : option Z) : BrowserProcess :=
  set_other (extra pid (Some "ws://one"%string)) (browser session 7 Ready).
Definition doubled : ServiceState :=
  state_of [live "a" (Some 7%Z); live "b" None] [session "a" "p" Shared; session "b" "p" Shared] [].
Definition undoubled : ServiceState := w_state (reconcile_service_state (world doubled)).2.
Lemma merged_sessions_lost :
  let active (s : ServiceState) :=
    (bp_active_session_ids <$> browsers s !! "session:a"%string,
     se_browser_ids <$> sessions s !! "b"%string, is_some (browsers s !! "session:b"%string)) in
  active undoubled = (Some ["a"; "b"], Some ["session:a"], false)%string
  /\ active (merge_reconciled_service_state doubled undoubled doubled)
     = (Some ["a"], Some ["session:a"], false)%string.
Proof.
  split.
  - vm_cast_no_check (eq_refl (Some ["a"; "b"], Some ["session:a"], false)%string).
  - vm_cast_no_check (eq_refl (Some ["a"], Some ["session:a"], false)%string).
Qed.

Definition event (kind : ServiceEventKind) (browser_id : option string) : ServiceEvent :=
  {| ev_id := "e"; ev_timestamp := ""; ev_kind := kind; ev_message := "";
     ev_browser_id := browser_id; ev_profile_id := None; ev_session_id := None;
     ev_service_name := None; ev_agent_name := None; ev_task_name := None;
     ev_previous_health := None; ev_current_health := None; ev_details := None |}.
(** A hundred events later the attempts are forgotten, though nothing has recovered. *)
Lemma attempts_forgotten :
  let start := event BrowserRecoveryStarted (Some "session:work"%string) in
  let full := state_of [] [] (replicate 3 start ++ replicate 97 (event Reconciliation None)) in
  let next s := push_service_event (event Reconciliation None) s in
  let exceeded s := rp_retry_budget_exceeded
    (recovery_policy_for_next_attempt s "session:work" default_recovery_policy_config) in
  exceeded full = true /\ exceeded (next full) = false.
Proof. split; vm_compute; reflexivity. Qed.

(** A lease that ended an hour ago, its deadline written at another offset. *)
Lemma expiry_compared_as_text :
  viewer_lease_is_expired "2025-12-31T20:00:00+00:00"
    (viewer "v" "r" (Some "2026-01-01T00:00:00+05:00"%string)) = false.
Proof. vm_compute. reflexivity. Qed.

End ReconcileWitness.

(** ** A launch recorded again, its process found on the machine of [ProcessWitness] *)

Module LaunchWitness.
Import ReconcileWitness ServiceLaunch.

#[local] Existing Instances toy_json toy_build toy_tree toy_crypto PrivateToy.toy_handles.
#[local] Existing Instances health_chrono toy_as_object health_env.
#[local] Existing Instances ProcessWitness.toy_urls ProcessWitness.serde_runtime
  ProcessWitness.value_build.
(** The machine, its executable readable. *)
#[local] Instance machine : ProcessProof.Machine :=
  {| ProcessProof.m_read_link := fun _ => ProcessWitness.links;
     ProcessProof.m_canonicalize := fun _ => ProcessWitness.real;
     ProcessProof.m_read_to_string := fun t path => @ProcessProof.m_read_to_string ProcessWitness.toy_machine t path;
     ProcessProof.m_read := fun t path =>
       if (path == "/opt/chrome"%string : bool) then Some "chrome"%string
       else @ProcessProof.m_read ProcessWitness.toy_machine t path;
     ProcessProof.m_is_file := @ProcessProof.m_is_file ProcessWitness.toy_machine;
     ProcessProof.m_metadata := @ProcessProof.m_metadata ProcessWitness.toy_machine;
     ProcessProof.m_identity := @ProcessProof.m_identity ProcessWitness.toy_machine;
     ProcessProof.m_read_dir := @ProcessProof.m_read_dir ProcessWitness.toy_machine;
     ProcessProof.m_home_dir := Some "/h"%string |}.

Definition endpoint : string := ProcessWitness.endpoint.
Definition proof_value : @value toy_json :=
  TObj [("applied", TBool true); ("reason", TStr "verified_external_byop_process");
        ("browserBuild", TStr "stock_chrome"); ("profileId", TStr "external");
        ("executablePath", TStr "/opt/chrome"); ("browserPid", TNum 42);
        ("processStartTicks", TNum 777); ("cdpEndpoint", TStr endpoint);
        ("userDataDir", TStr "/p");
        ("executableSha256", TStr (hex_encode (sha256 "chrome")))]%string.
(** A record an older daemon wrote, without the process. *)
Definition adopted : BrowserProcess :=
  {| bp_id := service_browser_id_for_session "work"; bp_profile_id := Some "external"%string;
     bp_host := AttachedExisting; bp_health := Ready; bp_display_name := None;
     bp_display_allocation_id := None; bp_view_streams := []; bp_attachability := None;
     bp_active_session_ids := ["work"]%string;
     bp_other := {| bx_browser_build := Some ProcessProof.StockChrome;
       bx_executable_path := Some "/opt/chrome"%string;
       bx_browser_build_proof := Some proof_value; bx_display_isolation := None; bx_pid := None;
       bx_cdp_endpoint := Some endpoint; bx_tab_handles := []; bx_last_error := None;
       bx_last_health_observation := None |} |}.
Definition external : BrowserProfile :=
  let p := ProfileLeases.default_profile "external" "External" in
  {| pf_id := pf_id p; pf_name := pf_name p; pf_description := pf_description p;
     pf_aliases := pf_aliases p; pf_origins := pf_origins p; pf_login_ids := pf_login_ids p;
     pf_account_labels := pf_account_labels p; pf_profile_origin := ExternalByop;
     pf_profile_class := pf_profile_class p; pf_user_data_dir := Some "/p"%string;
     pf_site_policy_ids := pf_site_policy_ids p;
     pf_target_service_ids := pf_target_service_ids p;
     pf_authenticated_service_ids := pf_authenticated_service_ids p;
     pf_account_ids := pf_account_ids p; pf_browser_build := Some ProcessProof.StockChrome;
     pf_allocation := pf_allocation p; pf_keyring := pf_keyring p;
     pf_shared_service_ids := pf_shared_service_ids p;
     pf_manual_login_preferred := pf_manual_login_preferred p;
     pf_target_readiness := pf_target_readiness p; pf_persistent := pf_persistent p;
     pf_tags := pf_tags p |}.
Definition before : ServiceState :=
  set_readiness {["external"%string := external]} ∅ ∅
    (state_of [adopted] [session "work" "stale" Exclusive] []).
Definition refreshed (n : option Z) : res unit * HealthWorld :=
  persist_service_browser_record_in_repository None "work" AttachedExisting Ready n
    (Some endpoint) None None (world before).
Definition shown (w : HealthWorld) : option (option Z * bool * option string) :=
  (fun b => (pid b, is_some (bx_executable_path (bp_other b)),
             sessions (w_state w) !! "work"%string ≫= se_profile_id))
    <$> browsers (w_state w) !! "session:work"%string.

(** The process is found again and the evidence kept, and the session is aligned; another
    process keeps nothing. *)
Lemma launch_recorded_witness :
  (exists b, browsers (w_state (refreshed None).2) !! "session:work"%string = Some b
     /\ launch_owed "work" AttachedExisting Ready None (Some endpoint) None None before
          (w_state (refreshed None).2) b)
  /\ shown (refreshed None).2 = Some (Some 42%Z, true, Some "external"%string)
  /\ shown (refreshed (Some 43%Z)).2 = Some (Some 43%Z, false, Some "stale"%string).
Proof.
  split; [|split; [vm_cast_no_check (eq_refl (Some (Some 42%Z, true, Some "external"%string)))
                  |vm_cast_no_check (eq_refl (Some (Some 43%Z, false, Some "stale"%string)))]].
  destruct (launch_recorded None "work" AttachedExisting Ready None (Some endpoint) None None
    (world before) (refreshed None).1 (refreshed None).2 (surjective_pairing _)) as (Hr & _ & Hok).
  exact (proj1 (Hok (proj2 Hr eq_refl))).
Defined.

End LaunchWitness.
